(* ===== verification/_CoqProject ===== *)
-Q . S2P
Prelude.v
Queue.v
Memory.v
Mm.v
MmInv.v
MmOps.v
MmSpec.v
MmThms.v
MmInit.v
MmLib.v
Kmalloc.v
Garbage.v
Sched.v
SchedInv.v
SchedThms.v
SchedFields.v
SchedSpec.v
Sem.v
SemThms.v
SemSpec.v
SemView.v
Wdog.v
WdogInv.v
WdogOps.v
WdogSpec.v
WdogTimer.v
WdogThms.v
Calendar.v
CalendarThms.v
Clock.v
Pid.v
SemTimed.v
SemTimedThms.v
Mutex.v
MutexInv.v
MutexThms.v
MutexSpec.v
Mqueue.v
MqInv.v
MqOps.v
MqWait.v
MqSpec.v
MqThms.v
MqSafe.v
MqInit.v
MqCorrect.v
Inode.v
InodeTree.v
InodeRep.v
InodeEdit.v
InodeSpace.v
InodeInv.v
InodeOps.v
InodeCalls.v
InodeSpec.v
InodeWit.v
Vfs.v
VfsInv.v
VfsOps.v
VfsCalls.v
VfsFiles.v
VfsIo.v
VfsTask.v
VfsSpec.v
VfsWit.v
Qsort.v
QsortThms.v
Crc32.v
Cond.v
CondThms.v
CondWit.v
NamedSem.v
NamedSemThms.v
NamedSemWit.v
Str.v
StrThms.v
StrMatch.v
StrWit.v
Work.v
Fixed.v
