(* ===== verification/Prelude.v ===== *)
(** * The kernel core of NuttX

    NuttX is a real-time operating system in C (src/nuttx).  This library models
    the parts of its kernel that keep data structures and make decisions, for
    the configuration src/nuttx/.config (32-bit ARM, no CONFIG_DEBUG, ticks of 10
    ms, no priority inheritance), and proves that they do what their callers
    rely on.

    ** Parts and files

    - Queue: the singly and doubly linked queues of lib/queue, over an interface
      of link fields ([SqStore], [DqStore]) that the stores of task control
      blocks, watchdogs, messages and test entries implement.
    - Memory: byte memory with 32-bit words, memset, memcpy; [w32], [i32].
    - Mm, MmInv, MmOps, MmSpec, MmThms, MmInit, MmLib: the heap of mm/
      (chunks with headers in raw memory, free lists by size class): malloc,
      free, zalloc, calloc, memalign, realloc, mallinfo, shrinking, regions.
      [heap_inv] describes a well-formed heap; the abstract allocator is a map of
      chunks in use.
    - Sched, SchedInv, SchedThms, SchedFields, SchedSpec: the task lists and the
      scheduler of sched/sched_*.c with the context switch decisions of
      arch/arm/src/armv7-m/up_*.c.  All task lists are threaded through one store
      of control blocks; [sched_inv st L idle] gives their contents [L].
    - Sem, SemThms, SemSpec: counting semaphores (sched/sem_*.c, lib/semaphore)
      on top of the scheduler.
    - SemView: the operations of semaphores as changes at a point of the counts,
      of what each task waits for, and of each task's errno.
    - Mutex, MutexInv, MutexThms, MutexSpec: mutexes (sched/pthread_mutex*.c) on top
      of semaphores, with and without recursive ones; [mx_inv] gives every mutex a
      token, and [mx_step] is a step of tasks that use mutexes.
    - Wdog, WdogInv, WdogOps, WdogSpec, WdogTimer, WdogThms: watchdog timers
      (sched/wd_*.c): the delta-coded timer queue against a list of absolute
      times, and the timer interrupt with functions that call the interface.
    - Calendar, CalendarThms: dates (lib/time) in the three configurations of the
      calendar, against counting days from 1970-01-01.
    - Clock: the system clock (sched/clock_*.c, lib/time/lib_time.c).
    - Pid: process IDs (sched/task_setup.c, sched_gettcb.c, sched_releasetcb.c).
    - SemTimed, SemTimedThms: waiting for a semaphore with a deadline
      (sched/sem_timedwait.c) and the timer interrupt (sched/sched_processtimer.c),
      which put semaphores, watchdogs, clock and process IDs together.
    - Mqueue, MqInv, MqOps, MqWait, MqSpec, MqThms, MqSafe, MqInit, MqCorrect:
      POSIX message queues (sched/mq_*.c): messages and their pools,
      sending and receiving by tasks and interrupt handlers, waiting and waking
      through the scheduler.
    - Kmalloc: the kernel's allocator as an interface with its laws, which the
      heap of mm/ implements.
    - Garbage: deallocation by the operating system (sched/sched_free.c,
      sched_garbage.c and the idle loop of os_start.c): blocks that cannot be freed
      yet are queued through their own memory; the kernel heap as an interface
      ([KernelHeap]) that the heap of mm/ with this queue implements.
    - NamedSem, NamedSemThms, NamedSemWit: named semaphores (sched/sem_open.c,
      sem_close.c, sem_unlink.c, sem_findnamed.c, sem_initialize.c) over that
      interface, as a map from names to semaphores ([reg_step]) and by the
      connections that the callers hold ([ns_run]).
    - Inode, InodeTree, InodeRep, InodeEdit, InodeSpace, InodeInv, InodeOps,
      InodeCalls, InodeSpec, InodeWit: the tree of inodes of the pseudo
      file system (fs/fs_inode*.c, fs_register*.c, fs_unregister*.c) over that
      interface: the links as an ordered binary tree ([irep]), the tree as a map
      from paths to inodes ([find]), removed inodes that are still referenced.
    - Vfs, VfsInv, VfsOps, VfsCalls, VfsFiles, VfsIo, VfsTask, VfsSpec, VfsWit:
      file descriptors (fs/fs_files.c, fs_open.c, fs_close.c, fs_filedup*.c,
      fs_dup.c, fs_read.c, fs_write.c, fs_lseek.c, fs_ioctl.c, fs_fcntl.c) and the
      file lists of tasks (sched/sched_*files.c) on top of inodes, semaphores and
      the allocator; every open descriptor is a reference to an inode ([fdrefs]),
      every task a user of its list ([users]).
    - Cond, CondThms, CondWit: condition variables and barriers
      (sched/pthread_cond*.c, sched/pthread_barrier*.c) on top of semaphores and
      mutexes; a wait is split where the processor can be lost.
    - Qsort, QsortThms: lib/stdlib/lib_qsort.c on byte memory: what the
      swaps do to the elements of an array, the partition and the sort, for any
      comparison function that is a total preorder of the elements' bytes.
    - Crc32: lib/misc/lib_crc32.c against dividing by the polynomial bit by bit.
    - Str, StrThms, StrMatch, StrWit: lib/string and lib/misc/lib_match.c on
      byte memory; [cstr m s l] says that the string at [s] has the characters [l].
    - Work: the work queue (sched/work_*.c) on doubly linked queues and the
      clock; the functions of works are sequences of calls and ticks.
    - Fixed: the products, squares and quotients of lib/math/lib_fixedmath.c.

    ** How code becomes definitions

    Structures are records at addresses (integers, [NULL] is 0) in a finite map;
    variables are fields of a state record; an operation takes the state and
    returns the new one.  Assertions and PANIC are [None], error returns are
    values.  Integers that can leave their width are wrapped where the code
    stores them ([w32], [i32], [i16], [mod 2 ^ 8]).  A call that blocks leaves its
    caller in a wait list and returns; a definition named [.._resume] is what the
    code does when the caller runs again.  [irq] is up_interrupt_context().
    Disabling interrupts makes a section atomic, so it has no counterpart.
    Callback functions of watchdogs, the operations of drivers and mounted file
    systems, the queueing of signals, and the functions of works and of comparisons
    are parameters.

    ** Fuel

    Loops over linked lists take fuel and answer [None] without it.  The callers
    pass the size of the store ([sched_fuel], [wd_fuel], [size (mq_msgs st)], [fs_fuel]) or of
    the heap, which bounds the length of any list without repetition; theorems
    state that the result is [Some], so the fuel is enough.  qsort takes fuel for
    the depth of its recursion, and more than the number of elements is enough; the
    loops over strings take more than the length of the string; a round of the worker
    thread has enough fuel as soon as the functions of works stop queueing.

    ** What the theorems show

    - Refinement: the queues implement list operations, the heap an allocator of
      disjoint chunks, the timer queue a list of absolute times.
    - Invariants: every state reachable by legal calls of the scheduler, of
      semaphores, of mutexes, of message queues, of the inode tree or of file
      descriptors satisfies the component's invariant, and every legal call returns from it; no two tasks
      ever hold the same mutex; no inode is freed while it is referenced.
    - Behaviour: malloc is best fit and free undoes it; a woken task is the one
      of the highest priority; round robin rotates; watchdogs fire on the tick
      they were set to; messages are received by priority, and in the order they
      were sent among equals, with the bytes that were sent; full and empty
      queues block or fail as the flags say; a wait with a deadline ends at the
      first tick after it, or at a post before it; dates agree with the calendar
      for all 32-bit times; the clock advances with the ticks; process IDs name
      one live task each; registering a driver adds its path to the name space,
      removing it takes the paths below it out, and a path resolves to the inode
      registered for it or to the mount point above it; open takes the lowest
      free descriptor, and what open, dup, dup2, tasks that start and threads that
      share take, close and exit give back, on every path through the calls.
    - A task that waits for a condition has released its mutex and is counted
      before another task runs, and comes back with the mutex; a broadcast wakes
      all of the waiting tasks, the last task at a barrier all of the others.
      qsort sorts in place, in every case of the code; two messages that differ
      within 32 bits have different CRCs; searches find the first occurrence,
      patterns match what they describe, numbers are read as they are written.
    - A round of the worker thread performs every work that is ready and ends.
    - A delayed deallocation is carried out by the next collection that can have the
      memory manager; a named semaphore is freed when it is unlinked and its last
      connection is closed, and not before.
    - Errors and bounds: arguments that are refused and with which errno,
      cancelled waits, conversions that fit their integers.
    - Theorems marked as findings evaluate the code where it does not do what it
      means to.

    ** Not modelled

    Signals, POSIX timers, tasks and pthreads being created and deleted, waiting for
    a condition with a timeout, opening
    and closing message queues by name, message queue calls with a timeout, mq_notify, priority
    inheritance, CONFIG_RTC and 64-bit ticks; the environment, whose buffer is moved
    by the realloc of the findings; of the C library what is not listed above; mounting, directories and the file systems themselves, the streams of
    stdio, sockets, network, drivers, graphics, architecture ports, applications.  realloc and memalign are modelled but only examples are
    proved of them (see the findings).

    ** This file

    Tactics, hint database and lemmas on lists and on chains of links that the
    components share. *)

From stdpp Require Import base numbers gmap sorting list.

Open Scope Z_scope.

(** ** Scope, tactics and hint databases *)

Declare Scope nuttx_scope.
Delimit Scope nuttx_scope with nuttx.

(** Decide every boolean integer comparison of the context and goal. *)
Ltac zb :=
  repeat match goal with
  | H : (_ =? _) = true |- _ => apply Z.eqb_eq in H
  | H : (_ =? _) = false |- _ => apply Z.eqb_neq in H
  | H : (_ <? _) = true |- _ => apply Z.ltb_lt in H
  | H : (_ <? _) = false |- _ => apply Z.ltb_ge in H
  | H : (_ <=? _) = true |- _ => apply Z.leb_le in H
  | H : (_ <=? _) = false |- _ => apply Z.leb_gt in H
  | H : (_ && _) = true |- _ => apply andb_prop in H; destruct H
  | H : negb _ = true |- _ => apply negb_true_iff in H
  | H : negb _ = false |- _ => apply negb_false_iff in H
  end.

(** Split on the outermost boolean test of the goal. *)
Ltac case_test :=
  match goal with
  | |- context [if ?b then _ else _] =>
      lazymatch type of b with bool => destruct b eqn:? end
  end; zb.

(** Membership in explicit concatenations of lists. *)
Ltac in_list :=
  repeat match goal with
  | H : context [_ ∈ _ ++ _] |- _ => rewrite elem_of_app in H
  | H : context [_ ∈ _ :: _] |- _ => rewrite elem_of_cons in H
  end;
  repeat first [rewrite elem_of_app | rewrite elem_of_cons];
  first [tauto | intuition congruence | intuition eauto].

Create HintDb nuttx.

(** ** Lists *)

Lemma NoDup_mid {A} (l1 l2 : list A) (x : A) :
  NoDup (l1 ++ x :: l2) ↔ x ∉ l1 ++ l2 ∧ NoDup (l1 ++ l2).
Proof. by rewrite <-Permutation_middle, NoDup_cons. Qed.

(** Addresses of a store without repetition are no more than its entries. *)
Lemma nodup_length_size {A} (m : gmap Z A) (l : list Z) :
  NoDup l → (∀ x, x ∈ l → is_Some (m !! x)) → (length l ≤ size m)%nat.
Proof.
  intros Hnd Hl. rewrite <-(size_list_to_set (C:=gset Z) l) by done.
  etransitivity; [apply (subseteq_size _ (dom m))|].
  - intros x Hx%elem_of_list_to_set. by apply elem_of_dom, Hl.
  - apply Nat.eq_le_incl, size_dom.
Qed.

(** The first components of a list without repetition determine the second ones. *)
Lemma nodup_fst_unique {A B} (l : list (A * B)) a b c : NoDup l.*1 → (a, b) ∈ l → (a, c) ∈ l → b = c.
Proof.
  intros Hn Hb Hc. apply list_elem_of_split in Hb as (l1 & l2 & ->).
  rewrite fmap_app, fmap_cons in Hn. apply NoDup_app in Hn as (_ & H1 & [H2 _]%NoDup_cons).
  apply elem_of_app in Hc as [Hc|[Hc|Hc]%elem_of_cons].
  - destruct (H1 a); [by apply (list_elem_of_fmap_2' fst _ (a, c))|by left].
  - congruence.
  - destruct H2. by apply (list_elem_of_fmap_2' fst _ (a, c)).
Qed.

Lemma app_cons_snoc {A} (l1 l2 : list A) (p : A) : l1 ++ p :: l2 = (l1 ++ [p]) ++ l2.
Proof. by rewrite <-app_assoc. Qed.

(** ** Chains of links

    A linked structure of the sources is a field read at a sequence of
    addresses.  [chain nx l e] says that following [nx] from the first element
    of [l] visits exactly [l] and then reaches [e].  Both directions of a
    doubly linked list are chains, the backward one over the reversed list. *)

Section Chain.
Implicit Types (nx pv : Z → Z) (l : list Z) (e x y : Z).

Fixpoint chain nx l e : Prop :=
  match l with
  | [] => True
  | a :: l' => nx a = default e (head l') ∧ chain nx l' e
  end.

Definition dll nx pv l : Prop := chain nx l 0 ∧ chain pv (reverse l) 0.

Lemma head_app_default l1 l2 e :
  default e (head (l1 ++ l2)) = default (default e (head l2)) (head l1).
Proof. by destruct l1. Qed.

Lemma chain_app nx l1 l2 e :
  chain nx (l1 ++ l2) e ↔ chain nx l1 (default e (head l2)) ∧ chain nx l2 e.
Proof.
  induction l1 as [|a l1 IH]; simpl; [naive_solver|].
  rewrite IH, head_app_default. naive_solver.
Qed.

Lemma chain_ext nx nx' l e :
  (∀ y, y ∈ l → nx' y = nx y) → chain nx l e → chain nx' l e.
Proof.
  induction l as [|a l IH]; simpl; [done|]. intros Hext [Ha Hl]. split.
  - rewrite Hext; [done|]. apply list_elem_of_here.
  - apply IH; [|done]. intros y Hy. apply Hext. by apply list_elem_of_further.
Qed.

(** Changing the end of a chain: only its last node is redirected. *)
Lemma chain_retarget nx nx' l e e' :
  NoDup l →
  (∀ y, y ∈ l → last l ≠ Some y → nx' y = nx y) →
  (∀ p, last l = Some p → nx' p = e') →
  chain nx l e → chain nx' l e'.
Proof.
  induction l as [|a l IH]; [done|]. intros [Ha Hnd]%NoDup_cons Hext Hlast [H1 H2].
  destruct l as [|b l]; [split; [by apply Hlast|done]|].
  split.
  - rewrite Hext; [by rewrite H1|apply list_elem_of_here|].
    intros Heq. apply Ha. rewrite last_cons_cons in Heq.
    by apply last_Some_elem_of in Heq.
  - apply IH; [done| | |done].
    + intros y Hy Hne. apply Hext; [by apply list_elem_of_further|].
      by rewrite last_cons_cons.
    + intros p Hp. apply Hlast. by rewrite last_cons_cons.
Qed.

Lemma chain_insert nx nx' l1 l2 x e :
  NoDup (l1 ++ l2) →
  (∀ y, y ∈ l1 ++ l2 → last l1 ≠ Some y → nx' y = nx y) →
  (∀ p, last l1 = Some p → nx' p = x) →
  nx' x = default e (head l2) →
  chain nx (l1 ++ l2) e → chain nx' (l1 ++ x :: l2) e.
Proof.
  intros (Hn1 & Hd & Hn2)%NoDup_app Hext Hlast Hx [H1 H2]%chain_app.
  apply chain_app. split; [|split; [done|]].
  - simpl. eapply chain_retarget; [done| |exact Hlast|exact H1].
    intros y Hy. apply Hext. set_solver.
  - eapply chain_ext; [|done]. intros y Hy. apply Hext; [set_solver|].
    intros Heq%last_Some_elem_of. by eapply Hd.
Qed.

Lemma chain_remove nx nx' l1 l2 x e :
  NoDup (l1 ++ l2) →
  (∀ y, y ∈ l1 ++ l2 → last l1 ≠ Some y → nx' y = nx y) →
  (∀ p, last l1 = Some p → nx' p = default e (head l2)) →
  chain nx (l1 ++ x :: l2) e → chain nx' (l1 ++ l2) e.
Proof.
  intros (Hn1 & Hd & Hn2)%NoDup_app Hext Hlast [H1 [_ H2]]%chain_app.
  apply chain_app. split.
  - eapply chain_retarget; [done| |exact Hlast|exact H1].
    intros y Hy. apply Hext. set_solver.
  - eapply chain_ext; [|done]. intros y Hy. apply Hext; [set_solver|].
    intros Heq%last_Some_elem_of. by eapply Hd.
Qed.

(** The link of a node of a chain. *)
Lemma chain_next nx l1 x l2 e :
  chain nx (l1 ++ x :: l2) e → nx x = default e (head l2).
Proof. intros [_ [H _]]%chain_app. done. Qed.

Lemma dll_next nx pv l1 x l2 :
  dll nx pv (l1 ++ x :: l2) → nx x = default 0 (head l2).
Proof. intros [H _]. by eapply chain_next. Qed.

Lemma dll_prev nx pv l1 x l2 :
  dll nx pv (l1 ++ x :: l2) → pv x = default 0 (last l1).
Proof.
  intros [_ H]. rewrite reverse_app, reverse_cons, <-app_assoc in H. simpl in H.
  apply chain_next in H. by rewrite head_reverse in H.
Qed.

(** Splicing [x] in and out of a doubly linked list, given what the links
    are afterwards. *)
Lemma dll_insert nx pv nx' pv' l1 l2 x :
  NoDup (l1 ++ l2) →
  (∀ y, y ∈ l1 ++ l2 → last l1 ≠ Some y → nx' y = nx y) →
  (∀ p, last l1 = Some p → nx' p = x) →
  nx' x = default 0 (head l2) →
  (∀ y, y ∈ l1 ++ l2 → head l2 ≠ Some y → pv' y = pv y) →
  (∀ p, head l2 = Some p → pv' p = x) →
  pv' x = default 0 (last l1) →
  dll nx pv (l1 ++ l2) → dll nx' pv' (l1 ++ x :: l2).
Proof.
  intros Hnd H1 H2 H3 H4 H5 H6 [Hf Hb]. split; [by eapply chain_insert|].
  rewrite reverse_app, reverse_cons, <-app_assoc. simpl.
  rewrite reverse_app in Hb.
  eapply chain_insert; [| | | |exact Hb].
  - rewrite <-reverse_app. by rewrite reverse_Permutation.
  - intros y Hy Hne. apply H4; [set_solver|]. by rewrite last_reverse in Hne.
  - intros p Hp. apply H5. by rewrite last_reverse in Hp.
  - by rewrite head_reverse.
Qed.

Lemma dll_remove nx pv nx' pv' l1 l2 x :
  NoDup (l1 ++ l2) →
  (∀ y, y ∈ l1 ++ l2 → last l1 ≠ Some y → nx' y = nx y) →
  (∀ p, last l1 = Some p → nx' p = default 0 (head l2)) →
  (∀ y, y ∈ l1 ++ l2 → head l2 ≠ Some y → pv' y = pv y) →
  (∀ p, head l2 = Some p → pv' p = default 0 (last l1)) →
  dll nx pv (l1 ++ x :: l2) → dll nx' pv' (l1 ++ l2).
Proof.
  intros Hnd H1 H2 H4 H5 [Hf Hb]. split; [by eapply chain_remove|].
  rewrite reverse_app. rewrite reverse_app, reverse_cons, <-app_assoc in Hb.
  eapply chain_remove; [| | |exact Hb].
  - rewrite <-reverse_app. by rewrite reverse_Permutation.
  - intros y Hy Hne. apply H4; [set_solver|]. by rewrite last_reverse in Hne.
  - intros p Hp. rewrite head_reverse. apply H5. by rewrite last_reverse in Hp.
Qed.
End Chain.
