(* ===== verification/Queue.v ===== *)
(** Singly and doubly linked queues: lib/queue/*.c and include/queue.h.

    The entries are embedded in other structures (task control blocks, message
    headers, watchdogs), so the operations are written once over an interface
    ([SqStore], [DqStore]) that gives the link fields of the entry at an
    address.  [NULL] is the address 0.  A queue header ([sq_queue_t],
    [dq_queue_t]) is a record passed in and returned, as the sources update it
    through a pointer that never aliases an entry.  Searching loops take fuel;
    the length of the queue is enough (see [sq_rem_spec], [sq_remlast_spec]).

    [sq_repr] and [dq_repr] relate a store and a header to the list of entries
    they hold; every operation is proved to implement the list operation. *)

From stdpp Require Import base numbers gmap sorting list.
From S2P Require Import Prelude.

(** ** Interfaces: the link fields of the entries of a store *)

Class SqStore (St : Type) := {
  flink : St → Z → Z;
  set_flink : Z → Z → St → St;
}.

Class SqLaws (St : Type) `{SqStore St} := {
  flink_set_flink s p v y :
    flink (set_flink p v s) y = if decide (y = p) then v else flink s y;
}.

Class DqStore (St : Type) `{SqStore St} := {
  blink : St → Z → Z;
  set_blink : Z → Z → St → St;
}.

Class DqLaws (St : Type) `{DqStore St} := {
  dq_sq_laws :: SqLaws St;
  blink_set_blink s p v y :
    blink (set_blink p v s) y = if decide (y = p) then v else blink s y;
  flink_set_blink s p v y : flink (set_blink p v s) y = flink s y;
  blink_set_flink s p v y : blink (set_flink p v s) y = blink s y;
}.

(** An observation of the store that no link update changes. *)
Class LinkBlind {St A : Type} `{DqStore St} (f : St → A) := {
  blind_flink s p v : f (set_flink p v s) = f s;
  blind_blink s p v : f (set_blink p v s) = f s;
}.

Record queue_t := mk_queue { q_head : Z; q_tail : Z }.

Definition sq_init : queue_t := mk_queue 0 0.
Definition dq_init : queue_t := mk_queue 0 0.
Definition sq_empty (q : queue_t) : bool := q_head q =? 0.
Definition dq_empty (q : queue_t) : bool := q_head q =? 0.

(** ** Singly linked queues *)

Section Sq.
Context {St : Type} `{SqStore St}.
Implicit Types (s : St) (q : queue_t) (node prev : Z).

Definition sq_addfirst node q s : queue_t * St :=
  let s := set_flink node (q_head q) s in
  let q := if q_head q =? 0 then mk_queue (q_head q) node else q in
  (mk_queue node (q_tail q), s).

Definition sq_addlast node q s : queue_t * St :=
  let s := set_flink node 0 s in
  if q_head q =? 0 then (mk_queue node node, s)
  else (mk_queue (q_head q) node, set_flink (q_tail q) node s).

Definition sq_addafter prev node q s : queue_t * St :=
  if (q_head q =? 0) || (prev =? q_tail q) then sq_addlast node q s
  else
    let s := set_flink node (flink s prev) s in
    (q, set_flink prev node s).

Definition sq_remafter node q s : Z * queue_t * St :=
  let ret := flink s node in
  if negb (q_head q =? 0) && negb (ret =? 0) then
    let '(q, s) :=
      if q_tail q =? ret then (mk_queue (q_head q) node, set_flink node 0 s)
      else (q, set_flink node (flink s ret) s) in
    (ret, q, set_flink ret 0 s)
  else (ret, q, s).

Definition sq_remfirst q s : Z * queue_t * St :=
  let ret := q_head q in
  if negb (ret =? 0) then
    let q := mk_queue (flink s ret) (q_tail q) in
    let q := if q_head q =? 0 then mk_queue (q_head q) 0 else q in
    (ret, q, set_flink ret 0 s)
  else (ret, q, s).

(** [for (prev = ..; prev && prev->flink != node; prev = prev->flink);] *)
Fixpoint sq_findprev (fuel : nat) s node prev : option Z :=
  if prev =? 0 then Some 0
  else if flink s prev =? node then Some prev
  else match fuel with
       | O => None
       | S fuel => sq_findprev fuel s node (flink s prev)
       end.

Definition sq_rem (fuel : nat) node q s : option (queue_t * St) :=
  if negb (q_head q =? 0) && negb (node =? 0) then
    if node =? q_head q then
      let q := mk_queue (flink s node) (q_tail q) in
      Some (if node =? q_tail q then mk_queue (q_head q) 0 else q, s)
    else
      prev ← sq_findprev fuel s node (q_head q);
      if negb (prev =? 0) then
        let '(_, q, s) := sq_remafter prev q s in Some (q, s)
      else Some (q, s)
  else Some (q, s).

Definition sq_remlast (fuel : nat) q s : option (Z * queue_t * St) :=
  let ret := q_tail q in
  if negb (ret =? 0) then
    '(q, s) ←
      (if q_head q =? q_tail q then Some (mk_queue 0 0, s)
       else
         prev ← sq_findprev fuel s ret (q_head q);
         Some (if negb (prev =? 0)
               then (mk_queue (q_head q) prev, set_flink prev 0 s)
               else (q, s)));
    Some (ret, q, set_flink ret 0 s)
  else Some (ret, q, s).
End Sq.

(** ** Doubly linked queues *)

Section Dq.
Context {St : Type} `{DqStore St}.
Implicit Types (s : St) (q : queue_t) (node prev next : Z).

Definition dq_addfirst node q s : queue_t * St :=
  let s := set_blink node 0 s in
  let s := set_flink node (q_head q) s in
  if q_head q =? 0 then (mk_queue node node, s)
  else
    let s := set_blink (q_head q) node s in
    (mk_queue node (q_tail q), s).

Definition dq_addlast node q s : queue_t * St :=
  let s := set_flink node 0 s in
  let s := set_blink node (q_tail q) s in
  if q_head q =? 0 then (mk_queue node node, s)
  else
    let s := set_flink (q_tail q) node s in
    (mk_queue (q_head q) node, s).

Definition dq_addafter prev node q s : queue_t * St :=
  if (q_head q =? 0) || (prev =? q_tail q) then dq_addlast node q s
  else
    let next := flink s prev in
    let s := set_blink node prev s in
    let s := set_flink node next s in
    let s := set_blink next node s in
    let s := set_flink prev node s in
    (q, s).

Definition dq_addbefore next node q s : queue_t * St :=
  if (q_head q =? 0) || (next =? q_head q) then dq_addfirst node q s
  else
    let prev := blink s next in
    let s := set_flink node next s in
    let s := set_blink node prev s in
    let s := set_flink prev node s in
    let s := set_blink next node s in
    (q, s).

Definition dq_rem node q s : queue_t * St :=
  let prev := blink s node in
  let next := flink s node in
  let '(q, s) :=
    if prev =? 0 then (mk_queue next (q_tail q), s)
    else (q, set_flink prev next s) in
  let '(q, s) :=
    if next =? 0 then (mk_queue (q_head q) prev, s)
    else (q, set_blink next prev s) in
  (q, set_blink node 0 (set_flink node 0 s)).

Definition dq_remfirst q s : Z * queue_t * St :=
  let ret := q_head q in
  if negb (ret =? 0) then
    let next := flink s ret in
    let '(q, s) :=
      if next =? 0 then (mk_queue 0 0, s)
      else (mk_queue next (q_tail q), set_blink next 0 s) in
    (ret, q, set_blink ret 0 (set_flink ret 0 s))
  else (ret, q, s).

Definition dq_remlast q s : Z * queue_t * St :=
  let ret := q_tail q in
  if negb (ret =? 0) then
    let prev := blink s ret in
    let '(q, s) :=
      if prev =? 0 then (mk_queue 0 0, s)
      else (mk_queue (q_head q) prev, set_flink prev 0 s) in
    (ret, q, set_blink ret 0 (set_flink ret 0 s))
  else (ret, q, s).
End Dq.

(** ** Representation *)

Definition sq_repr {St} `{SqStore St} (s : St) (q : queue_t) (l : list Z) : Prop :=
  chain (flink s) l 0 ∧ NoDup l ∧ 0 ∉ l ∧
  q_head q = default 0 (head l) ∧ q_tail q = default 0 (last l).

Definition dq_repr {St} `{DqStore St} (s : St) (q : queue_t) (l : list Z) : Prop :=
  dll (flink s) (blink s) l ∧ NoDup l ∧ 0 ∉ l ∧
  q_head q = default 0 (head l) ∧ q_tail q = default 0 (last l).

(** Rewrite a read of a link field through the updates before it. *)
Ltac links :=
  repeat first
    [ rewrite !flink_set_flink | rewrite !blink_set_blink
    | rewrite !flink_set_blink | rewrite !blink_set_flink ];
  repeat case_decide; try congruence; try set_solver.

(** Unfold an operation and split on its tests. *)
Ltac q_cases := simpl; repeat (case_match; zb; simplify_eq/=).

(** Facts about the head and the tail shared by both kinds of queue. *)
Section Ends.
Implicit Types (l : list Z).

Lemma head_zero l : 0 ∉ l → default 0 (head l) = 0 → l = [].
Proof. destruct l; simpl; [done|]. set_solver. Qed.

Lemma last_zero l : 0 ∉ l → default 0 (last l) = 0 → l = [].
Proof.
  intros H0. destruct (last l) as [a|] eqn:E; simpl.
  - pose proof (last_Some_elem_of _ _ E). set_solver.
  - by apply last_None in E.
Qed.

Lemma head_last_nonempty l : 0 ∉ l → default 0 (head l) ≠ 0 →
  ∃ a k z, head l = Some a ∧ last l = Some z ∧ l = k ++ [z] ∧ a ≠ 0 ∧ z ≠ 0.
Proof.
  intros H0 Hne. destruct l as [|a l]; [done|].
  destruct (last (a :: l)) as [z|] eqn:E; [|by apply last_None in E].
  pose proof E as [k Hk]%last_Some. pose proof (last_Some_elem_of _ _ E).
  exists a, k, z. set_solver.
Qed.

(** In a duplicate-free list an element is the head (the last) exactly when
    nothing comes before (after) it. *)
Lemma head_iff l1 x l2 : NoDup (l1 ++ x :: l2) → 0 ∉ l1 ++ x :: l2 →
  x = default 0 (head (l1 ++ x :: l2)) ↔ l1 = [].
Proof. destruct l1; simpl; [done|]. intros ?%NoDup_cons. set_solver. Qed.

Lemma last_iff l1 x l2 : NoDup (l1 ++ x :: l2) → 0 ∉ l1 ++ x :: l2 →
  x = default 0 (last (l1 ++ x :: l2)) ↔ l2 = [].
Proof.
  intros Hnd H0. rewrite last_app_cons.
  destruct l2 as [|b l2]; [done|]. rewrite last_cons_cons.
  split; [|done]. intros Hx.
  destruct (last (b :: l2)) as [z|] eqn:E; simpl in Hx; [|set_solver].
  apply last_Some_elem_of in E. subst z.
  apply NoDup_app in Hnd as (_ & _ & Hnd). by apply NoDup_cons in Hnd as [].
Qed.
End Ends.

Section SqSpec.
Context {St : Type} {sqs : SqStore St} {sql : SqLaws St}.
Implicit Types (s : St) (q : queue_t) (l : list Z) (x p : Z).

Lemma sq_addfirst_spec s q l x :
  sq_repr s q l → x ∉ l → x ≠ 0 →
  sq_repr (sq_addfirst x q s).2 (sq_addfirst x q s).1 (x :: l).
Proof.
  intros (Hc & Hnd & H0 & Hh & Ht) Hx Hx0. unfold sq_addfirst. simpl.
  split_and!; simpl.
  - split; [links|]. eapply chain_ext; [|done]. intros y Hy. links.
  - by apply NoDup_cons.
  - set_solver.
  - done.
  - rewrite Hh. case_match; zb; simpl.
    + apply head_zero in H as ->; done.
    + destruct l as [|a l]; [done|]. by rewrite last_cons_cons.
Qed.

Lemma sq_addlast_spec s q l x :
  sq_repr s q l → x ∉ l → x ≠ 0 →
  sq_repr (sq_addlast x q s).2 (sq_addlast x q s).1 (l ++ [x]).
Proof.
  intros (Hc & Hnd & H0 & Hh & Ht) Hx Hx0. unfold sq_addlast. rewrite Hh.
  case_match; zb; simpl.
  - apply head_zero in H as ->; [|done]. split_and!; simpl;
      [split; [links|done]|apply NoDup_singleton|set_solver|done|done].
  - destruct (head_last_nonempty l) as (a & k & z & Ha & Hz & -> & ? & ?); [done..|].
    rewrite Hz in Ht. simpl in Ht. rewrite Ht.
    split_and!; simpl.
    + eapply (chain_insert (flink s) _ _ []); rewrite ?app_nil_r; [done|..|done].
      * intros y Hy Hne. rewrite Hz in Hne. links.
      * intros p Hp. rewrite Hz in Hp. links.
      * links.
    + apply NoDup_app. split_and!; [done| |apply NoDup_singleton]. set_solver.
    + set_solver.
    + rewrite Ha. by destruct k; simplify_eq/=.
    + by rewrite last_snoc.
Qed.

Lemma sq_addafter_spec s q l1 l2 p x :
  sq_repr s q (l1 ++ p :: l2) → x ∉ l1 ++ p :: l2 → x ≠ 0 →
  sq_repr (sq_addafter p x q s).2 (sq_addafter p x q s).1 (l1 ++ p :: x :: l2).
Proof.
  intros Hr Hx Hx0. pose proof Hr as (Hc & Hnd & H0 & Hh & Ht).
  unfold sq_addafter. case_match; simpl.
  - apply orb_true_iff in H as [H|H]; zb.
    + rewrite Hh in H. apply head_zero in H; [|done]. by destruct l1.
    + rewrite Ht in H. apply last_iff in H; [|done..]. subst l2.
      pose proof (sq_addlast_spec _ _ _ x Hr Hx Hx0) as Hl.
      by rewrite <-app_assoc in Hl.
  - apply orb_false_iff in H as [Hq Hp]; zb.
    split_and!; simpl.
    + rewrite app_cons_snoc.
      eapply (chain_insert (flink s)); rewrite <-?app_assoc; [done|..|done]; simpl.
      * intros y Hy Hne. rewrite last_snoc in Hne. links.
      * intros p'. rewrite last_snoc. intros [= <-]. links.
      * apply chain_next in Hc. links.
    + rewrite app_cons_snoc. apply NoDup_mid. by rewrite <-app_assoc.
    + set_solver.
    + rewrite Hh. by destruct l1.
    + rewrite Ht, !last_app_cons. rewrite Ht, last_app_cons in Hp.
      destruct l2; [done|]. by rewrite !last_cons_cons.
Qed.

Lemma sq_remafter_spec s q l1 l2 p x :
  sq_repr s q (l1 ++ p :: x :: l2) →
  let '(ret, q', s') := sq_remafter p q s in
  ret = x ∧ sq_repr s' q' (l1 ++ p :: l2) ∧ flink s' x = 0.
Proof.
  intros (Hc & Hnd & H0 & Hh & Ht). unfold sq_remafter.
  assert (Hnd' : NoDup (l1 ++ p :: l2) ∧ x ∉ l1 ++ p :: l2).
  { rewrite app_cons_snoc, NoDup_mid, <-app_assoc in Hnd. naive_solver. }
  destruct Hnd' as [Hnd' Hxl].
  assert (Hp : flink s p = x) by by eapply chain_next in Hc.
  assert (Hx : flink s x = default 0 (head l2)).
  { replace (l1 ++ p :: x :: l2) with ((l1 ++ [p]) ++ x :: l2) in Hc by by rewrite <-app_assoc.
    by apply chain_next in Hc. }
  rewrite Hp, Hx. assert (Hx0 : x ≠ 0) by set_solver.
  assert (Hq0 : q_head q ≠ 0).
  { rewrite Hh. intros E%head_zero; [by destruct l1|done]. }
  assert (Htl : q_tail q = x ↔ l2 = []).
  { rewrite Ht. replace (l1 ++ p :: x :: l2) with ((l1 ++ [p]) ++ x :: l2) in *
      by by rewrite <-app_assoc. rewrite <-last_iff; [|exact Hnd|exact H0]. naive_solver. }
  rewrite (proj2 (Z.eqb_neq (q_head q) 0) Hq0), (proj2 (Z.eqb_neq x 0) Hx0).
  simpl.
  assert (Hch : ∀ s', (∀ y, y ∈ l1 ++ l2 → flink s' y = flink s y) →
             flink s' p = default 0 (head l2) → chain (flink s') (l1 ++ p :: l2) 0).
  { intros s' Hext Hlast.
    replace (l1 ++ p :: l2) with ((l1 ++ [p]) ++ l2) in * by by rewrite <-app_assoc.
    replace (l1 ++ p :: x :: l2) with ((l1 ++ [p]) ++ x :: l2) in * by by rewrite <-app_assoc.
    eapply chain_remove; [done|..|exact Hc].
    - intros y Hy Hne. rewrite last_snoc in Hne. apply Hext. set_solver.
    - intros p'. rewrite last_snoc. by intros [= <-]. }
  assert (p ∉ l1 ++ l2) by by apply NoDup_mid in Hnd' as [].
  destruct (Z.eqb_spec (q_tail q) x) as [E|E]; simpl.
  - apply Htl in E as ->. split_and!; [done| |by links].
    split_and!; [|done|set_solver|..]; simpl.
    + apply Hch; [intros y Hy|]; links.
    + rewrite Hh. by destruct l1.
    + by rewrite last_snoc.
  - split_and!; [done| |by links]. split_and!; [|done|set_solver|..]; simpl.
    + apply Hch; [intros y Hy|]; links.
    + rewrite Hh. by destruct l1.
    + rewrite Ht, !last_app_cons. destruct l2; [naive_solver|]. by rewrite !last_cons_cons.
Qed.

Lemma sq_remfirst_spec s q l :
  sq_repr s q l →
  let '(ret, q', s') := sq_remfirst q s in
  ret = default 0 (head l) ∧ sq_repr s' q' (tail l) ∧ (ret ≠ 0 → flink s' ret = 0).
Proof.
  intros Hr. pose proof Hr as (Hc & Hnd & H0 & Hh & Ht). unfold sq_remfirst.
  destruct l as [|a l]; simpl in *.
  { rewrite Hh. by split_and!. }
  destruct Hc as [Ha Hc]. apply NoDup_cons in Hnd as [Hal Hnd].
  rewrite Hh. rewrite (proj2 (Z.eqb_neq a 0)) by set_solver. simpl. rewrite Ha.
  split_and!; [done| |intros; links]. split_and!; simpl.
  - eapply chain_ext; [|done]. intros y Hy. links.
  - done.
  - set_solver.
  - by destruct (_ =? 0).
  - case_match; zb; simpl.
    + apply head_zero in H as ->; [done|set_solver].
    + destruct l; [done|]. by rewrite last_cons_cons in Ht.
Qed.

(** The search of the predecessor succeeds with as much fuel as there are
    entries, and answers 0 exactly when [x] has no predecessor. *)
Lemma sq_findprev_hit s fuel l1 p x l2 :
  chain (flink s) (l1 ++ p :: x :: l2) 0 → NoDup (l1 ++ p :: x :: l2) →
  0 ∉ l1 ++ p :: x :: l2 → (length l1 ≤ fuel)%nat →
  sq_findprev fuel s x (default 0 (head (l1 ++ p :: x :: l2))) = Some p.
Proof.
  revert fuel. induction l1 as [|a l1 IH]; intros fuel Hc Hnd H0 Hf; simpl in *.
  - destruct Hc as [Hp _]. destruct fuel; simpl;
      rewrite (proj2 (Z.eqb_neq p 0)), Hp, Z.eqb_refl by set_solver; done.
  - destruct fuel as [|fuel]; [simpl in Hf; lia|]. simpl.
    rewrite (proj2 (Z.eqb_neq a 0)) by set_solver.
    destruct Hc as [Ha Hc]. apply NoDup_cons in Hnd as [_ Hnd].
    rewrite Ha, (proj2 (Z.eqb_neq _ x)).
    + apply IH; [done|done|set_solver|lia].
    + rewrite app_cons_snoc in Hnd. destruct l1 as [|b l1]; simpl in *.
      * intros ->. apply NoDup_cons in Hnd as [Hx _]. set_solver.
      * intros ->. apply NoDup_cons in Hnd as [Hx _]. set_solver.
Qed.

Lemma sq_findprev_miss s fuel l x :
  chain (flink s) l 0 → 0 ∉ l → x ∉ l → x ≠ 0 → (length l ≤ fuel)%nat →
  sq_findprev fuel s x (default 0 (head l)) = Some 0.
Proof.
  revert fuel. induction l as [|a l IH]; intros fuel Hc H0 Hx Hx0 Hf; simpl in *.
  - by destruct fuel.
  - destruct fuel as [|fuel]; [lia|]. simpl.
    rewrite (proj2 (Z.eqb_neq a 0)) by set_solver.
    destruct Hc as [Ha Hc]. rewrite Ha, (proj2 (Z.eqb_neq _ x)).
    + apply IH; [done|set_solver|set_solver|done|lia].
    + destruct l; simpl; set_solver.
Qed.

Lemma sq_rem_spec s q l1 x l2 fuel :
  sq_repr s q (l1 ++ x :: l2) → (length (l1 ++ x :: l2) ≤ fuel)%nat →
  ∃ q' s', sq_rem fuel x q s = Some (q', s') ∧ sq_repr s' q' (l1 ++ l2).
Proof.
  intros Hr Hf. pose proof Hr as (Hc & Hnd & H0 & Hh & Ht). unfold sq_rem.
  assert (x ≠ 0) by set_solver.
  assert (q_head q ≠ 0).
  { rewrite Hh. intros E%head_zero; [by destruct l1|done]. }
  rewrite (proj2 (Z.eqb_neq (q_head q) 0)), (proj2 (Z.eqb_neq x 0)) by done. simpl.
  destruct (last l1) as [p|] eqn:El.
  - apply last_Some in El as [k ->]. rewrite <-app_assoc in *. simpl in *.
    rewrite (proj2 (Z.eqb_neq x _)).
    2:{ rewrite Hh, app_cons_snoc. rewrite app_cons_snoc in Hnd, H0.
        rewrite head_iff; [|done..]. by destruct k. }
    rewrite Hh, sq_findprev_hit;
      [|done..|rewrite length_app in Hf; simpl in *; lia].
    simpl. rewrite (proj2 (Z.eqb_neq p 0)) by set_solver. simpl.
    pose proof (sq_remafter_spec _ _ _ _ _ _ Hr) as Hrem.
    destruct (sq_remafter p q s) as [[ret q'] s']. destruct Hrem as (_ & Hrem & _).
    exists q', s'. split; done.
  - apply last_None in El as ->. simpl in *.
    rewrite Hh, Z.eqb_refl. destruct Hc as [Hx Hc]. apply NoDup_cons in Hnd as [? ?].
    eexists _, _. split; [done|]. rewrite Hx. split_and!; [done|done|set_solver|..].
    + by destruct (_ =? q_tail q).
    + rewrite Ht. destruct l2 as [|b l2]; [simpl; by rewrite Z.eqb_refl|].
      rewrite last_cons_cons. rewrite (proj2 (Z.eqb_neq x _)); [done|].
      destruct (last (b :: l2)) as [z|] eqn:E; simpl; [|done].
      intros ->. apply last_Some_elem_of in E. done.
Qed.

Lemma sq_remlast_spec s q l fuel :
  sq_repr s q l → (length l ≤ fuel)%nat →
  ∃ q' s', sq_remlast fuel q s = Some (default 0 (last l), q', s') ∧
    sq_repr s' q' (removelast l).
Proof.
  intros Hr Hf. pose proof Hr as (Hc & Hnd & H0 & Hh & Ht). unfold sq_remlast.
  destruct (last l) as [z|] eqn:El; simpl in *; last first.
  { apply last_None in El as ->. rewrite Ht. simpl. eauto. }
  pose proof El as [k ->]%last_Some. assert (z ≠ 0) by set_solver.
  rewrite Ht, (proj2 (Z.eqb_neq z 0)) by done. simpl.
  apply NoDup_mid in Hnd as [Hzk Hnd]. rewrite app_nil_r in *.
  rewrite removelast_last.
  destruct (last k) as [p|] eqn:Ek.
  - apply last_Some in Ek as [k' ->]. rewrite <-app_assoc in *. simpl in *.
    assert (Hhp : q_head q ≠ z).
    { rewrite Hh. destruct k'; simpl; set_solver. }
    rewrite (proj2 (Z.eqb_neq (q_head q) z)) by done.
    rewrite Hh, sq_findprev_hit; [|done| |done|rewrite length_app in Hf; simpl in *; lia].
    2:{ rewrite app_cons_snoc. apply NoDup_mid. by rewrite app_nil_r. }
    simpl. rewrite (proj2 (Z.eqb_neq p 0)) by set_solver. simpl.
    eexists _, _. split; [done|]. split_and!; [|done|set_solver|..]; simpl.
    + rewrite app_cons_snoc in Hc.
      pose proof (chain_remove (flink s) (flink (set_flink z 0 (set_flink p 0 s)))
        (k' ++ [p]) [] z 0) as Hrem.
      rewrite app_nil_r in Hrem. apply Hrem; [done|..|done].
      * intros y Hy. rewrite last_snoc. intros Hne. links.
      * intros p'. rewrite last_snoc. intros [= <-]. simpl. links.
    + destruct k'; done.
    + by rewrite last_snoc.
  - apply last_None in Ek as ->. simpl in *. rewrite Hh, Z.eqb_refl. simpl.
    eexists _, _. split; [done|]. split_and!; [done|done|set_solver|done|done].
Qed.
End SqSpec.

(** ** What the operations of a singly linked queue write

    [flinks P s s']: [s'] is [s] after writing links of nodes of [P] only. *)
Section SqFrame.
Context {St : Type} `{Hst : SqStore St} `{!SqLaws St}.
Implicit Types (s : St) (q : queue_t) (l P : list Z) (p x : Z).

Inductive flinks (P : list Z) : St → St → Prop :=
  | flinks_refl s : flinks P s s
  | flinks_step s s' p v : p ∈ P → flinks P s s' → flinks P s (set_flink p v s').

Lemma flinks_one P s p v : p ∈ P → flinks P s (set_flink p v s).
Proof. intros Hp. apply flinks_step; [done|apply flinks_refl]. Qed.

Lemma flinks_two P s p v p' v' : p ∈ P → p' ∈ P → flinks P s (set_flink p' v' (set_flink p v s)).
Proof. intros Hp Hp'. apply flinks_step; [done|by apply flinks_one]. Qed.

Lemma flinks_frame P s s' y : flinks P s s' → y ∉ P → flink s' y = flink s y.
Proof.
  intros Hf Hy. induction Hf as [|s s' p v Hp _ IH]; [done|].
  rewrite flink_set_flink, decide_False by (intros ->; done). done.
Qed.

Lemma sq_repr_links s s' q l : (∀ y, y ∈ l → flink s' y = flink s y) → sq_repr s q l → sq_repr s' q l.
Proof. intros He (Hc & Hr). split; [|done]. eapply chain_ext; [|exact Hc]. done. Qed.

Lemma sq_repr_frame P s s' q l :
  flinks P s s' → (∀ y, y ∈ l → y ∉ P) → sq_repr s q l → sq_repr s' q l.
Proof. intros Hf Hd. apply sq_repr_links. intros y Hy. eapply flinks_frame; [done|auto]. Qed.

Lemma sq_tail_in s q l : sq_repr s q l → q_head q ≠ 0 → q_tail q ∈ l.
Proof.
  intros (_ & _ & H0 & Hh & Ht) Hq. rewrite Hh in Hq.
  destruct (head_last_nonempty l) as (a & k & z & Ha & Hz & _); [done..|].
  rewrite Ht, Hz. by apply last_Some_elem_of in Hz.
Qed.

Lemma sq_addlast_flinks s q l x : sq_repr s q l → flinks (x :: l) s (sq_addlast x q s).2.
Proof.
  intros Hr. unfold sq_addlast. case_test; cbn [snd]; [apply flinks_one; in_list|].
  pose proof (sq_tail_in _ _ _ Hr). apply flinks_two; in_list.
Qed.

Lemma sq_addfirst_flinks s q l x : flinks (x :: l) s (sq_addfirst x q s).2.
Proof. apply flinks_one. in_list. Qed.

Lemma sq_addafter_flinks s q l p x : sq_repr s q l → p ∈ l → flinks (x :: l) s (sq_addafter p x q s).2.
Proof.
  intros Hr Hp. unfold sq_addafter. case_test; [by apply sq_addlast_flinks|]. apply flinks_two; in_list.
Qed.

Lemma sq_remfirst_flinks s q l : sq_repr s q l → flinks l s (sq_remfirst q s).2.
Proof.
  intros (_ & _ & H0 & Hh & _). unfold sq_remfirst. case_test; cbn [snd]; [|apply flinks_refl].
  apply flinks_one. rewrite Hh in *. by destruct l; [|simpl; in_list].
Qed.

Lemma sq_remafter_flinks s q l1 p x l2 : sq_repr s q (l1 ++ p :: x :: l2) →
  flinks (l1 ++ p :: x :: l2) s (sq_remafter p q s).2.
Proof.
  intros (Hc & _). pose proof (chain_next _ _ _ _ _ Hc : flink s p = x) as Hp.
  unfold sq_remafter. rewrite Hp. case_test; cbn [snd]; [|apply flinks_refl].
  case_test; cbn [snd]; apply flinks_two; in_list.
Qed.
End SqFrame.

Section DqSpec.
Context {St : Type} {sqs : SqStore St} {dqs : DqStore St} {dql : DqLaws St}.
Implicit Types (s : St) (q : queue_t) (l : list Z) (x p n : Z).

(** What an update of the links of the entries in [P] leaves alone. *)
Definition links_frame (P : list Z) s s' : Prop :=
  ∀ y, y ∉ P → flink s' y = flink s y ∧ blink s' y = blink s y.

Lemma dq_repr_frame P s s' q l :
  links_frame P s s' → (∀ y, y ∈ l → y ∉ P) → dq_repr s q l → dq_repr s' q l.
Proof.
  intros Hfr Hdis ([Hf Hb] & ?). split; [|done].
  split; eapply chain_ext; try eassumption; intros y Hy; apply Hfr, Hdis; [done|].
  set_solver.
Qed.

Lemma dq_head_zero s q l : dq_repr s q l → q_head q = 0 ↔ l = [].
Proof.
  intros (_ & _ & H0 & -> & _). split; [by apply head_zero|by intros ->].
Qed.

Lemma dq_addfirst_spec s q l x :
  dq_repr s q l → x ∉ l → x ≠ 0 →
  dq_repr (dq_addfirst x q s).2 (dq_addfirst x q s).1 (x :: l) ∧
  links_frame (x :: l) s (dq_addfirst x q s).2.
Proof.
  intros (Hc & Hnd & H0 & Hh & Ht) Hx Hx0. unfold dq_addfirst. rewrite Hh.
  destruct l as [|a l]; simpl.
  - split; [|intros y Hy; simpl; links]. split_and!; simpl;
      [split; (split; [links|done])|apply NoDup_singleton|set_solver|done|done].
  - rewrite (proj2 (Z.eqb_neq a 0)) by set_solver. simpl.
    split; [|intros y Hy; simpl; links].
    split_and!; [|by apply NoDup_cons|set_solver|done|by rewrite last_cons_cons].
    apply (dll_insert (flink s) (blink s) _ _ [] (a :: l)); [done|..|done]; simpl.
    + intros y Hy _. links.
    + done.
    + links.
    + intros y Hy Hne. links.
    + intros p [= <-]. links.
    + links.
Qed.

Lemma dq_addlast_spec s q l x :
  dq_repr s q l → x ∉ l → x ≠ 0 →
  dq_repr (dq_addlast x q s).2 (dq_addlast x q s).1 (l ++ [x]) ∧
  links_frame (x :: l) s (dq_addlast x q s).2.
Proof.
  intros (Hc & Hnd & H0 & Hh & Ht) Hx Hx0. unfold dq_addlast. rewrite Hh, Ht.
  case_match; zb; simpl.
  - apply head_zero in H as ->; [|done].
    split; [|intros y Hy; simpl; links]. split_and!; simpl;
      [split; (split; [links|done])|apply NoDup_singleton|set_solver|done|done].
  - destruct (head_last_nonempty l) as (a & k & z & Ha & Hz & -> & ? & ?); [done..|].
    rewrite Hz, Ha. simpl.
    split; [|intros y Hy; simpl; links]. split_and!; simpl.
    + apply (dll_insert (flink s) (blink s) _ _ _ []); rewrite ?app_nil_r; try done; simpl.
      * intros y Hy Hne. rewrite Hz in Hne. links.
      * intros p Hp. rewrite Hz in Hp. links.
      * links.
      * intros y Hy _. links.
      * rewrite Hz. links.
    + apply NoDup_mid. by rewrite app_nil_r.
    + set_solver.
    + by destruct k; simplify_eq/=.
    + by rewrite last_snoc.
Qed.

Lemma dq_addafter_spec s q l1 l2 p x :
  dq_repr s q (l1 ++ p :: l2) → x ∉ l1 ++ p :: l2 → x ≠ 0 →
  dq_repr (dq_addafter p x q s).2 (dq_addafter p x q s).1 (l1 ++ p :: x :: l2).
Proof.
  intros Hr Hx Hx0. pose proof Hr as (Hc & Hnd & H0 & Hh & Ht).
  unfold dq_addafter. case_match; simpl.
  - apply orb_true_iff in H as [H|H]; zb.
    + rewrite Hh in H. apply head_zero in H; [|done]. by destruct l1.
    + rewrite Ht in H. apply last_iff in H; [|done..]. subst l2.
      pose proof (dq_addlast_spec _ _ _ x Hr Hx Hx0) as [Hl _].
      by rewrite <-app_assoc in Hl.
  - apply orb_false_iff in H as [Hq Hp]; zb.
    pose proof (dll_next _ _ _ _ _ Hc) as Hn. rewrite Ht, last_iff in Hp by done.
    destruct l2 as [|n l2]; [done|]. simpl in Hn. rewrite Hn.
    assert (p ∉ l1 ++ n :: l2) by by apply NoDup_mid in Hnd as [].
    split_and!; simpl.
    + rewrite app_cons_snoc.
      apply (dll_insert (flink s) (blink s)); rewrite <-?app_assoc; [done|..|done]; simpl.
      * intros y Hy Hne. rewrite last_snoc in Hne. links.
      * intros p'. rewrite last_snoc. intros [= <-]. links.
      * links.
      * intros y Hy Hne. links.
      * intros p' [= <-]. links.
      * rewrite last_snoc. links.
    + rewrite app_cons_snoc. apply NoDup_mid. by rewrite <-app_assoc.
    + set_solver.
    + rewrite Hh. by destruct l1.
    + rewrite Ht, !last_app_cons. by rewrite !last_cons_cons.
Qed.

Lemma dq_addbefore_spec s q l1 l2 n x :
  dq_repr s q (l1 ++ n :: l2) → x ∉ l1 ++ n :: l2 → x ≠ 0 →
  dq_repr (dq_addbefore n x q s).2 (dq_addbefore n x q s).1 (l1 ++ x :: n :: l2).
Proof.
  intros Hr Hx Hx0. pose proof Hr as (Hc & Hnd & H0 & Hh & Ht).
  unfold dq_addbefore. case_match; simpl.
  - apply orb_true_iff in H as [H|H]; zb.
    + rewrite Hh in H. apply head_zero in H; [|done]. by destruct l1.
    + rewrite Hh in H. apply head_iff in H; [|done..]. subst l1.
      by apply dq_addfirst_spec.
  - apply orb_false_iff in H as [Hq Hp]; zb.
    pose proof (dll_prev _ _ _ _ _ Hc) as Hn. rewrite Hh, head_iff in Hp by done.
    destruct (last l1) as [p|] eqn:El; [|by apply last_None in El]. simpl in Hn. rewrite Hn.
    pose proof (last_Some_elem_of _ _ El) as Hpl.
    assert (n ∉ l1 ++ l2) by by apply NoDup_mid in Hnd as [].
    split_and!; simpl.
    + apply (dll_insert (flink s) (blink s)); [done|..|done]; simpl.
      * intros y Hy Hne. rewrite El in Hne. links.
      * intros p' Hp'. rewrite El in Hp'. links.
      * links.
      * intros y Hy Hne. links.
      * intros p' [= <-]. links.
      * rewrite El. links.
    + by apply NoDup_mid.
    + set_solver.
    + rewrite Hh. by destruct l1.
    + by rewrite Ht, !last_app_cons, last_cons_cons.
Qed.

(** The links and the header after [dq_rem], whatever the queue holds. *)
Lemma dq_rem_links s q x :
  let prev := blink s x in
  let next := flink s x in
  (∀ y, flink (dq_rem x q s).2 y =
     if decide (y = x) then 0
     else if decide (prev ≠ 0 ∧ y = prev) then next else flink s y) ∧
  (∀ y, blink (dq_rem x q s).2 y =
     if decide (y = x) then 0
     else if decide (next ≠ 0 ∧ y = next) then prev else blink s y) ∧
  q_head (dq_rem x q s).1 = (if decide (prev = 0) then next else q_head q) ∧
  q_tail (dq_rem x q s).1 = (if decide (next = 0) then prev else q_tail q).
Proof.
  unfold dq_rem. destruct (Z.eqb_spec (blink s x) 0), (Z.eqb_spec (flink s x) 0);
    simpl; split_and!; intros;
    repeat (rewrite ?flink_set_flink, ?blink_set_blink, ?flink_set_blink, ?blink_set_flink);
    repeat case_decide; intuition congruence.
Qed.

Lemma dq_rem_spec s q l1 x l2 :
  dq_repr s q (l1 ++ x :: l2) →
  dq_repr (dq_rem x q s).2 (dq_rem x q s).1 (l1 ++ l2) ∧
  flink (dq_rem x q s).2 x = 0 ∧ blink (dq_rem x q s).2 x = 0 ∧
  links_frame (l1 ++ x :: l2) s (dq_rem x q s).2.
Proof.
  intros (Hc & Hnd & H0 & Hh & Ht).
  pose proof Hnd as [Hx Hnd']%NoDup_mid.
  assert (Hl1 : ∀ p, last l1 = Some p → p ≠ 0 ∧ p ∈ l1).
  { intros p Hp%last_Some_elem_of. set_solver. }
  assert (Hl2 : ∀ p, head l2 = Some p → p ≠ 0 ∧ p ∈ l2).
  { intros p Hp%head_Some_elem_of. set_solver. }
  destruct (dq_rem_links s q x) as (Hf & Hb & Hq & Hqt).
  rewrite (dll_next _ _ _ _ _ Hc), (dll_prev _ _ _ _ _ Hc) in *.
  split; [|split; [|split]].
  - split; [|split; [done|split; [set_solver|split]]].
    + eapply dll_remove; [done|..|exact Hc].
      * intros y Hy Hne. rewrite Hf. rewrite !decide_False; [done| |congruence].
        intros [H1 ->]. destruct (last l1); naive_solver.
      * intros p Hp. destruct (Hl1 _ Hp) as [? Hpl]. rewrite Hf, Hp. simpl.
        rewrite decide_False, decide_True; [done|done|]. intros ->. set_solver.
      * intros y Hy Hne. rewrite Hb. rewrite !decide_False; [done| |congruence].
        intros [H1 ->]. destruct (head l2); naive_solver.
      * intros p Hp. destruct (Hl2 _ Hp) as [? Hpl]. rewrite Hb, Hp. simpl.
        rewrite decide_False, decide_True; [done|done|]. intros ->. set_solver.
    + rewrite Hq, Hh. destruct (decide (default 0 (last l1) = 0)) as [Hd|Hd].
      * apply last_zero in Hd as ->; [done|set_solver].
      * by destruct l1.
    + rewrite Hqt, Ht. destruct (decide (default 0 (head l2) = 0)) as [Hd|Hd].
      * apply head_zero in Hd as ->; [by rewrite app_nil_r|set_solver].
      * destruct l2 as [|b l2]; [done|]. by rewrite !last_app_cons, last_cons_cons.
  - rewrite Hf. by rewrite decide_True.
  - rewrite Hb. by rewrite decide_True.
  - intros y Hy. rewrite Hf, Hb, !(decide_False (P := y = x)) by set_solver.
    split; (rewrite decide_False; [done|]); intros [? ->].
    + destruct (last l1) as [p|] eqn:E; [|done].
      destruct (Hl1 p eq_refl). set_solver.
    + destruct (head l2) as [p|] eqn:E; [|done].
      destruct (Hl2 p eq_refl). set_solver.
Qed.

Lemma dq_remfirst_is_rem s q l :
  dq_repr s q l → q_head q ≠ 0 →
  ∃ s', dq_remfirst q s = (q_head q, (dq_rem (q_head q) q s).1, s') ∧
    (∀ y, flink s' y = flink (dq_rem (q_head q) q s).2 y) ∧
    (∀ y, blink s' y = blink (dq_rem (q_head q) q s).2 y).
Proof.
  intros (Hc & Hnd & H0 & Hh & Ht) Hne. destruct l as [|a l]; [done|]. simpl in Hh.
  pose proof (dll_prev _ _ [] _ _ Hc) as Hp. pose proof (dll_next _ _ [] _ _ Hc) as Hn.
  unfold dq_remfirst, dq_rem. rewrite Hh, Hp. simpl.
  rewrite (proj2 (Z.eqb_neq a 0)) by congruence. simpl.
  destruct (Z.eqb_spec (flink s a) 0) as [E|E]; simpl; rewrite ?E; eauto.
Qed.

Lemma dq_remlast_is_rem s q l :
  dq_repr s q l → q_tail q ≠ 0 →
  ∃ s', dq_remlast q s = (q_tail q, (dq_rem (q_tail q) q s).1, s') ∧
    (∀ y, flink s' y = flink (dq_rem (q_tail q) q s).2 y) ∧
    (∀ y, blink s' y = blink (dq_rem (q_tail q) q s).2 y).
Proof.
  intros (Hc & Hnd & H0 & Hh & Ht) Hne.
  destruct (last l) as [z|] eqn:El; [|by rewrite Ht in Hne]. simpl in Ht.
  pose proof El as [k ->]%last_Some.
  pose proof (dll_prev _ _ _ _ _ Hc) as Hp. pose proof (dll_next _ _ _ _ _ Hc) as Hn.
  unfold dq_remlast, dq_rem. rewrite Ht, Hn. simpl.
  rewrite (proj2 (Z.eqb_neq z 0)) by congruence. simpl.
  destruct (Z.eqb_spec (blink s z) 0) as [E|E]; simpl; rewrite ?E; eauto.
Qed.

Lemma dq_repr_ext s s' q l :
  (∀ y, flink s' y = flink s y) → (∀ y, blink s' y = blink s y) →
  dq_repr s q l → dq_repr s' q l.
Proof. intros Hf Hb. apply (dq_repr_frame []); [by intros y|set_solver]. Qed.

Lemma dq_remfirst_spec s q l :
  dq_repr s q l →
  let '(ret, q', s') := dq_remfirst q s in
  ret = default 0 (head l) ∧ dq_repr s' q' (tail l) ∧ links_frame l s s'.
Proof.
  intros Hr. pose proof Hr as (Hc & Hnd & H0 & Hh & Ht).
  destruct l as [|a l].
  { unfold dq_remfirst. rewrite Hh. simpl. split_and!; done. }
  destruct (dq_remfirst_is_rem _ _ _ Hr) as (s' & -> & Hf & Hb); [rewrite Hh; set_solver|].
  rewrite Hh in *. simpl in *. destruct (dq_rem_spec s q [] a l Hr) as (Hr' & _ & _ & Hfr).
  split_and!; [done|by eapply dq_repr_ext|]. intros y Hy. rewrite Hf, Hb. by apply Hfr.
Qed.

Lemma dq_remlast_spec s q l :
  dq_repr s q l →
  let '(ret, q', s') := dq_remlast q s in
  ret = default 0 (last l) ∧ dq_repr s' q' (removelast l) ∧ links_frame l s s'.
Proof.
  intros Hr. pose proof Hr as (Hc & Hnd & H0 & Hh & Ht).
  destruct (last l) as [z|] eqn:El; last first.
  { apply last_None in El as ->. unfold dq_remlast. rewrite Ht. by split_and!. }
  pose proof El as [k ->]%last_Some. simpl in Ht.
  destruct (dq_remlast_is_rem _ _ _ Hr) as (s' & -> & Hf & Hb); [rewrite Ht; set_solver|].
  rewrite Ht in *. simpl in *. rewrite removelast_last.
  destruct (dq_rem_spec s q k z [] Hr) as (Hr' & _ & _ & Hfr).
  rewrite app_nil_r in Hr'.
  split_and!; [done|by eapply dq_repr_ext|]. intros y Hy. rewrite Hf, Hb. by apply Hfr.
Qed.
End DqSpec.

(** ** The list specification and the refinement of operation sequences *)

Fixpoint insert_after (p x : Z) (l : list Z) : list Z :=
  match l with
  | [] => []
  | a :: l => if decide (a = p) then a :: x :: l else a :: insert_after p x l
  end.

Fixpoint insert_before (n x : Z) (l : list Z) : list Z :=
  match l with
  | [] => []
  | a :: l => if decide (a = n) then x :: a :: l else a :: insert_before n x l
  end.

Fixpoint remove_first (x : Z) (l : list Z) : list Z :=
  match l with
  | [] => []
  | a :: l => if decide (a = x) then l else a :: remove_first x l
  end.

Lemma elem_split_first (x : Z) l : x ∈ l → ∃ l1 l2, l = l1 ++ x :: l2 ∧ x ∉ l1.
Proof.
  induction l as [|a l IH]; [by intros ?%not_elem_of_nil|].
  destruct (decide (a = x)) as [->|Hne].
  - intros _. exists [], l. split; [done|]. apply not_elem_of_nil.
  - intros [->|(l1 & l2 & -> & Hx)%IH]%elem_of_cons; [done|].
    exists (a :: l1), l2. split; [done|]. by apply not_elem_of_cons.
Qed.

Lemma insert_after_split p x l1 l2 : p ∉ l1 →
  insert_after p x (l1 ++ p :: l2) = l1 ++ p :: x :: l2.
Proof.
  induction l1 as [|a l1 IH]; simpl; [by rewrite decide_True|].
  intros [? ?]%not_elem_of_cons. rewrite decide_False by done. by rewrite IH.
Qed.

Lemma insert_before_split n x l1 l2 : n ∉ l1 →
  insert_before n x (l1 ++ n :: l2) = l1 ++ x :: n :: l2.
Proof.
  induction l1 as [|a l1 IH]; simpl; [by rewrite decide_True|].
  intros [? ?]%not_elem_of_cons. rewrite decide_False by done. by rewrite IH.
Qed.

Lemma remove_first_split x l1 l2 : x ∉ l1 →
  remove_first x (l1 ++ x :: l2) = l1 ++ l2.
Proof.
  induction l1 as [|a l1 IH]; simpl; [by rewrite decide_True|].
  intros [? ?]%not_elem_of_cons. rewrite decide_False by done. by rewrite IH.
Qed.

Lemma remove_first_length x l : (length (remove_first x l) ≤ length l)%nat.
Proof. induction l as [|a l IH]; [done|]. cbn [remove_first]. case_decide; cbn [length]; lia. Qed.

Inductive q_op :=
  | QAddFirst (x : Z) | QAddLast (x : Z)
  | QAddAfter (p x : Z) | QAddBefore (n x : Z)
  | QRem (x : Z) | QRemFirst | QRemLast.

(** What a client may ask for: the added node is fresh and not NULL, the node
    named as a position is in the queue. *)
Definition q_legal (op : q_op) (l : list Z) : bool :=
  match op with
  | QAddFirst x | QAddLast x => bool_decide (x ∉ l ∧ x ≠ 0)
  | QAddAfter p x | QAddBefore p x => bool_decide (x ∉ l ∧ x ≠ 0 ∧ p ∈ l)
  | QRem x => bool_decide (x ∈ l)
  | QRemFirst | QRemLast => true
  end.

(** The node returned (0 where the operation returns nothing) and the list
    afterwards. *)
Definition q_spec (op : q_op) (l : list Z) : Z * list Z :=
  match op with
  | QAddFirst x => (0, x :: l)
  | QAddLast x => (0, l ++ [x])
  | QAddAfter p x => (0, insert_after p x l)
  | QAddBefore n x => (0, insert_before n x l)
  | QRem x => (0, remove_first x l)
  | QRemFirst => (default 0 (head l), tail l)
  | QRemLast => (default 0 (last l), removelast l)
  end.

Fixpoint q_run (ops : list q_op) (l : list Z) : option (list Z * list Z) :=
  match ops with
  | [] => Some ([], l)
  | op :: ops =>
      if q_legal op l then
        let '(r, l) := q_spec op l in
        '(rs, l) ← q_run ops l; Some (r :: rs, l)
      else None
  end.

Section DqRefines.
Context {St : Type} {sqs : SqStore St} {dqs : DqStore St}.

Definition dq_exec (op : q_op) (q : queue_t) (s : St) : Z * queue_t * St :=
  match op with
  | QAddFirst x => let '(q, s) := dq_addfirst x q s in (0, q, s)
  | QAddLast x => let '(q, s) := dq_addlast x q s in (0, q, s)
  | QAddAfter p x => let '(q, s) := dq_addafter p x q s in (0, q, s)
  | QAddBefore n x => let '(q, s) := dq_addbefore n x q s in (0, q, s)
  | QRem x => let '(q, s) := dq_rem x q s in (0, q, s)
  | QRemFirst => dq_remfirst q s
  | QRemLast => dq_remlast q s
  end.

Fixpoint dq_run (ops : list q_op) (q : queue_t) (s : St) : list Z * queue_t * St :=
  match ops with
  | [] => ([], q, s)
  | op :: ops =>
      let '(r, q, s) := dq_exec op q s in
      let '(rs, q, s) := dq_run ops q s in (r :: rs, q, s)
  end.

Context {dql : DqLaws St}.

Lemma dq_exec_refines op q s l :
  dq_repr s q l → q_legal op l = true →
  let '(r, q', s') := dq_exec op q s in
  r = (q_spec op l).1 ∧ dq_repr s' q' (q_spec op l).2.
Proof.
  intros Hr Hl. destruct op as [x|x|p x|n x|x| |]; simpl in *.
  - apply bool_decide_eq_true in Hl as [? ?].
    pose proof (dq_addfirst_spec _ _ _ x Hr) as Hs.
    destruct (dq_addfirst x q s) as [q' s']. split; [done|by apply Hs].
  - apply bool_decide_eq_true in Hl as [? ?].
    pose proof (dq_addlast_spec _ _ _ x Hr) as Hs.
    destruct (dq_addlast x q s) as [q' s']. split; [done|by apply Hs].
  - apply bool_decide_eq_true in Hl as (? & ? & (l1 & l2 & -> & ?)%elem_split_first).
    pose proof (dq_addafter_spec _ _ _ _ _ x Hr) as Hs.
    destruct (dq_addafter p x q s) as [q' s']. rewrite insert_after_split by done.
    split; [done|by apply Hs].
  - apply bool_decide_eq_true in Hl as (? & ? & (l1 & l2 & -> & ?)%elem_split_first).
    pose proof (dq_addbefore_spec _ _ _ _ _ x Hr) as Hs.
    destruct (dq_addbefore n x q s) as [q' s']. rewrite insert_before_split by done.
    split; [done|by apply Hs].
  - apply bool_decide_eq_true in Hl as (l1 & l2 & -> & ?)%elem_split_first.
    pose proof (dq_rem_spec _ _ _ _ _ Hr) as Hs.
    destruct (dq_rem x q s) as [q' s']. rewrite remove_first_split by done.
    split; [done|by apply Hs].
  - pose proof (dq_remfirst_spec _ _ _ Hr) as Hs.
    destruct (dq_remfirst q s) as [[r q'] s']. split; apply Hs.
  - pose proof (dq_remlast_spec _ _ _ Hr) as Hs.
    destruct (dq_remlast q s) as [[r q'] s']. split; apply Hs.
Qed.

(** Any sequence of operations on a doubly linked queue, links in both directions, returns what
    the same sequence returns on a list, and the links represent the resulting list. *)
Theorem dq_run_refines ops q s l rs l' :
  dq_repr s q l → q_run ops l = Some (rs, l') →
  ∃ q' s', dq_run ops q s = (rs, q', s') ∧ dq_repr s' q' l'.
Proof.
  revert q s l rs. induction ops as [|op ops IH]; intros q s l rs Hr Hrun; simpl in *.
  - simplify_eq. eauto.
  - destruct (q_legal op l) eqn:Hl; [|done].
    pose proof (dq_exec_refines op q s l Hr Hl) as He.
    destruct (dq_exec op q s) as [[r q1] s1], (q_spec op l) as [r' l1]; simpl in *.
    destruct He as [-> Hr1].
    destruct (q_run ops l1) as [[rs1 l2]|] eqn:E; simplify_eq/=.
    destruct (IH q1 s1 l1 rs1 Hr1 E) as (q2 & s2 & -> & Hr2). eauto.
Qed.
End DqRefines.

Section SqRefines.
Context {St : Type} {sqs : SqStore St}.

(** Singly linked queues have no insertion before a node. *)
Definition sq_exec (fuel : nat) (op : q_op) (q : queue_t) (s : St) :
    option (Z * queue_t * St) :=
  match op with
  | QAddFirst x => let '(q, s) := sq_addfirst x q s in Some (0, q, s)
  | QAddLast x => let '(q, s) := sq_addlast x q s in Some (0, q, s)
  | QAddAfter p x => let '(q, s) := sq_addafter p x q s in Some (0, q, s)
  | QAddBefore n x => None
  | QRem x => '(q, s) ← sq_rem fuel x q s; Some (0, q, s)
  | QRemFirst => Some (sq_remfirst q s)
  | QRemLast => sq_remlast fuel q s
  end.

Fixpoint sq_run (fuel : nat) (ops : list q_op) (q : queue_t) (s : St) :
    option (list Z * queue_t * St) :=
  match ops with
  | [] => Some ([], q, s)
  | op :: ops =>
      '(r, q, s) ← sq_exec fuel op q s;
      '(rs, q, s) ← sq_run fuel ops q s; Some (r :: rs, q, s)
  end.

Definition sq_op (op : q_op) : bool :=
  match op with QAddBefore _ _ => false | _ => true end.

Context {sql : SqLaws St}.

Lemma sq_exec_refines fuel op q s l :
  sq_repr s q l → q_legal op l = true → sq_op op = true → (length l ≤ fuel)%nat →
  ∃ q' s', sq_exec fuel op q s = Some ((q_spec op l).1, q', s') ∧
    sq_repr s' q' (q_spec op l).2.
Proof.
  intros Hr Hl Hop Hf. destruct op as [x|x|p x|n x|x| |]; simpl in *.
  - apply bool_decide_eq_true in Hl as [? ?].
    pose proof (sq_addfirst_spec _ _ _ x Hr) as Hs.
    eexists _, _. split; [done|by apply Hs].
  - apply bool_decide_eq_true in Hl as [? ?].
    pose proof (sq_addlast_spec _ _ _ x Hr) as Hs.
    destruct (sq_addlast x q s) as [q' s']. exists q', s'. split; [done|by apply Hs].
  - apply bool_decide_eq_true in Hl as (? & ? & (l1 & l2 & -> & ?)%elem_split_first).
    pose proof (sq_addafter_spec _ _ _ _ _ x Hr) as Hs.
    destruct (sq_addafter p x q s) as [q' s']. rewrite insert_after_split by done.
    exists q', s'. split; [done|by apply Hs].
  - done.
  - apply bool_decide_eq_true in Hl as (l1 & l2 & -> & ?)%elem_split_first.
    destruct (sq_rem_spec _ _ _ _ _ fuel Hr Hf) as (q' & s' & -> & ?).
    rewrite remove_first_split by done. simpl. eauto.
  - pose proof (sq_remfirst_spec _ _ _ Hr) as Hs.
    destruct (sq_remfirst q s) as [[r q'] s']. destruct Hs as (-> & ? & _). eauto.
  - destruct (sq_remlast_spec _ _ _ fuel Hr Hf) as (q' & s' & -> & ?). eauto.
Qed.

Lemma q_spec_length op l : (length (q_spec op l).2 ≤ S (length l))%nat.
Proof.
  assert (∀ n x, (length (insert_after n x l) ≤ S (length l))%nat).
  { clear. intros. induction l; simpl; repeat case_decide; simpl in *; lia. }
  assert (∀ n x, (length (insert_before n x l) ≤ S (length l))%nat).
  { clear. intros. induction l; simpl; repeat case_decide; simpl in *; lia. }
  assert (∀ x, (length (remove_first x l) ≤ S (length l))%nat).
  { clear. intros. induction l; simpl; repeat case_decide; simpl in *; lia. }
  destruct op; simpl; rewrite ?length_app; simpl; try lia; eauto.
  - destruct l; simpl; lia.
  - rewrite removelast_firstn_len, length_take. lia.
Qed.

(** Any sequence of operations on a singly linked queue terminates with fuel of the number of
    operations plus the initial length, returns what the same sequence returns on a list, and the
    links represent the resulting list. *)
Theorem sq_run_refines fuel ops q s l rs l' :
  sq_repr s q l → q_run ops l = Some (rs, l') → forallb sq_op ops = true →
  (length l + length ops ≤ fuel)%nat →
  ∃ q' s', sq_run fuel ops q s = Some (rs, q', s') ∧ sq_repr s' q' l'.
Proof.
  revert q s l rs. induction ops as [|op ops IH]; intros q s l rs Hr Hrun Hops Hf; simpl in *.
  - simplify_eq. eauto.
  - apply andb_true_iff in Hops as [Hop Hops].
    destruct (q_legal op l) eqn:Hl; [|done].
    destruct (sq_exec_refines fuel op q s l) as (q1 & s1 & -> & Hr1); [done..|lia|].
    pose proof (q_spec_length op l).
    destruct (q_spec op l) as [r' l1]; simpl in *.
    destruct (q_run ops l1) as [[rs1 l2]|] eqn:E; simplify_eq/=.
    destruct (IH q1 s1 l1 rs1 Hr1 E) as (q2 & s2 & -> & Hr2); [done|lia|]. simpl. eauto.
Qed.
End SqRefines.

(** ** Observations that the links do not touch *)

Section Blind.
Context {St A : Type} `{Hd : DqStore St} (f : St → A) `{!LinkBlind f}.

Lemma blind_addlast x q s : f (dq_addlast x q s).2 = f s.
Proof. unfold dq_addlast. case_match; cbn [snd]; repeat (rewrite (blind_flink (f := f)) || rewrite (blind_blink (f := f))); done. Qed.

Lemma blind_addfirst x q s : f (dq_addfirst x q s).2 = f s.
Proof. unfold dq_addfirst. case_match; cbn [snd]; repeat (rewrite (blind_flink (f := f)) || rewrite (blind_blink (f := f))); done. Qed.

Lemma blind_rem x q s : f (dq_rem x q s).2 = f s.
Proof.
  unfold dq_rem. repeat case_match; simplify_eq; cbn [snd];
    repeat (rewrite (blind_flink (f := f)) || rewrite (blind_blink (f := f))); done.
Qed.
End Blind.

(** ** A store of bare entries *)

Module Entries.
(** [struct dq_entry_s]. *)
Record dq_entry := mk_entry { e_flink : Z; e_blink : Z }.
Definition entries := gmap Z dq_entry.

Definition get (s : entries) (p : Z) : dq_entry := default (mk_entry 0 0) (s !! p).

#[export] Instance entries_sq : SqStore entries := {
  flink s p := e_flink (get s p);
  set_flink p v s := <[p := mk_entry v (e_blink (get s p))]> s;
}.

#[export] Instance entries_dq : DqStore entries := {
  blink s p := e_blink (get s p);
  set_blink p v s := <[p := mk_entry (e_flink (get s p)) v]> s;
}.

Lemma get_insert (s : entries) p e y :
  get (<[p := e]> s) y = if decide (y = p) then e else get s y.
Proof.
  unfold get, entries. destruct (decide (y = p)) as [->|Hne].
  - by rewrite lookup_insert_eq.
  - by rewrite lookup_insert_ne.
Qed.

#[export] Instance entries_laws : DqLaws entries.
Proof.
  split; [split|..]; intros; simpl; rewrite get_insert; case_decide; by subst.
Qed.

Definition script : list q_op :=
  [QAddLast 16; QAddFirst 8; QAddAfter 8 24; QRem 16; QAddLast 40; QRemLast; QRemFirst].

Lemma dq_run_refines_witness :
  ∃ q' s', dq_run script dq_init (∅ : entries) = ([0; 0; 0; 0; 0; 40; 8], q', s') ∧
    dq_repr s' q' [24].
Proof.
  apply (dq_run_refines script dq_init ∅ []); [|reflexivity].
  by split_and!; [|apply NoDup_nil|apply not_elem_of_nil|..].
Defined.

Lemma sq_run_refines_witness :
  ∃ q' s', sq_run 7 script sq_init (∅ : entries) = Some ([0; 0; 0; 0; 0; 40; 8], q', s') ∧
    sq_repr s' q' [24].
Proof.
  apply (sq_run_refines 7 script sq_init ∅ []); [|reflexivity|reflexivity|simpl; lia].
  by split_and!; [|apply NoDup_nil|apply not_elem_of_nil|..].
Defined.
End Entries.
