(* ===== verification/Memory.v ===== *)
(** Byte-addressed memory with 32-bit little-endian words, and the two library
    routines the kernel applies to raw memory: lib/string/lib_memset.c and
    lib/string/lib_memcpy.c.

    Memory is a finite map from addresses to bytes; an address that was never
    written reads as 0.  A word is four bytes, so that structures that overlap
    in memory overlap in the model. *)

From stdpp Require Import base numbers gmap sorting list.
From S2P Require Import Prelude.

(** Unsigned 32-bit wrap-around. *)
Definition w32 (z : Z) : Z := z mod 2 ^ 32.

(** Signed 32-bit wrap-around. *)
Definition i32 (z : Z) : Z := (z + 2 ^ 31) mod 2 ^ 32 - 2 ^ 31.

Lemma w32_small z : 0 ≤ z < 2 ^ 32 → w32 z = z.
Proof. apply Z.mod_small. Qed.

Lemma i32_small z : - 2 ^ 31 ≤ z < 2 ^ 31 → i32 z = z.
Proof. intros Hz. unfold i32. rewrite Z.mod_small; lia. Qed.

Definition mem := gmap Z Z.

Definition getb (m : mem) (a : Z) : Z := default 0 (m !! a) mod 256.
Definition putb (m : mem) (a v : Z) : mem := <[a := v mod 256]> m.

Definition ld32 (m : mem) (a : Z) : Z :=
  getb m a + 2 ^ 8 * getb m (a + 1) + 2 ^ 16 * getb m (a + 2) + 2 ^ 24 * getb m (a + 3).

Definition st32 (m : mem) (a v : Z) : mem :=
  putb (putb (putb (putb m a v) (a + 1) (v / 2 ^ 8)) (a + 2) (v / 2 ^ 16)) (a + 3) (v / 2 ^ 24).

(** [while (n--) *p++ = c;] *)
Fixpoint memset (m : mem) (s c : Z) (n : nat) : mem :=
  match n with
  | O => m
  | S n => memset (putb m s c) (s + 1) c n
  end.

(** [while (n--) *pout++ = *pin++;] *)
Fixpoint memcpy (m : mem) (dest src : Z) (n : nat) : mem :=
  match n with
  | O => m
  | S n => memcpy (putb m dest (getb m src)) (dest + 1) (src + 1) n
  end.

Lemma getb_putb m a v b :
  getb (putb m a v) b = if decide (b = a) then v mod 256 else getb m b.
Proof.
  unfold getb, putb, mem. case_decide as E.
  - subst. rewrite lookup_insert_eq. simpl. by rewrite Z.mod_mod.
  - by rewrite lookup_insert_ne.
Qed.

Lemma getb_range m a : 0 ≤ getb m a < 256.
Proof. unfold getb. apply Z.mod_pos_bound. lia. Qed.

Lemma ld32_range m a : 0 ≤ ld32 m a < 2 ^ 32.
Proof.
  unfold ld32. pose proof (getb_range m a). pose proof (getb_range m (a + 1)).
  pose proof (getb_range m (a + 2)). pose proof (getb_range m (a + 3)). lia.
Qed.

Lemma getb_st32_ne m a v b : b < a ∨ a + 4 ≤ b → getb (st32 m a v) b = getb m b.
Proof. intros ?. unfold st32. rewrite !getb_putb. repeat case_decide; lia. Qed.

Lemma ld32_st32_eq m a v : ld32 (st32 m a v) a = v mod 2 ^ 32.
Proof.
  unfold ld32, st32. rewrite !getb_putb. repeat (case_decide; try lia).
  change (2 ^ 16) with (2 ^ 8 * 2 ^ 8). change (2 ^ 24) with (2 ^ 8 * 2 ^ 8 * 2 ^ 8).
  rewrite <-!Z.div_div by lia. change 256 with (2 ^ 8).
  change (2 ^ 32) with (2 ^ 8 * (2 ^ 8 * (2 ^ 8 * 2 ^ 8))).
  rewrite !Z.rem_mul_r by lia. lia.
Qed.

(** ** Frames: the bytes a computation may change *)

Definition same_but (P : Z → Prop) (m m' : mem) : Prop :=
  ∀ b, ¬ P b → getb m' b = getb m b.

Lemma same_but_refl P m : same_but P m m.
Proof. by intros b. Qed.

Lemma same_but_trans P m1 m2 m3 : same_but P m1 m2 → same_but P m2 m3 → same_but P m1 m3.
Proof. intros H1 H2 b Hb. by rewrite H2, H1. Qed.

Lemma same_but_mono (P Q : Z → Prop) m m' :
  (∀ b, P b → Q b) → same_but P m m' → same_but Q m m'.
Proof. intros HPQ H b Hb. apply H. naive_solver. Qed.

Lemma same_but_st32 (P : Z → Prop) m a v :
  (∀ b, a ≤ b < a + 4 → P b) → same_but P m (st32 m a v).
Proof.
  intros HP b Hb. apply getb_st32_ne. destruct (decide (a ≤ b < a + 4)); [naive_solver|lia].
Qed.

Lemma same_but_ld32 P m m' a :
  same_but P m m' → (∀ b, a ≤ b < a + 4 → ¬ P b) → ld32 m' a = ld32 m a.
Proof. intros H Hn. unfold ld32. rewrite !H; [done|apply Hn; lia..]. Qed.

Lemma ld32_st32_ne m a v b : 4 ≤ Z.abs (a - b) → ld32 (st32 m a v) b = ld32 m b.
Proof.
  intros ?. apply (same_but_ld32 (λ x, a ≤ x < a + 4)); [by apply same_but_st32|lia].
Qed.

Lemma getb_memset m s c n b :
  getb (memset m s c n) b = if decide (s ≤ b < s + Z.of_nat n) then c mod 256 else getb m b.
Proof.
  revert m s. induction n as [|n IH]; intros m s; simpl.
  - by rewrite decide_False by lia.
  - rewrite IH, getb_putb. repeat case_decide; try lia; done.
Qed.

(** A forward byte copy is correct when the destination does not lie inside the
    source behind its start: disjoint ranges, or a move down in memory. *)
Lemma getb_memcpy m dest src n b :
  dest ≤ src ∨ src + Z.of_nat n ≤ dest →
  getb (memcpy m dest src n) b =
  if decide (dest ≤ b < dest + Z.of_nat n) then getb m (src + (b - dest)) else getb m b.
Proof.
  revert m dest src. induction n as [|n IH]; intros m dest src Hd; cbn [memcpy].
  - by rewrite decide_False by lia.
  - rewrite IH by lia. rewrite !getb_putb.
    assert (E : getb m src mod 256 = getb m src).
    { apply Z.mod_small, getb_range. }
    repeat case_decide; try lia; try (f_equal; lia).
    rewrite E. f_equal; lia.
Qed.

Lemma same_but_memset (P : Z → Prop) m s c n :
  (∀ b, s ≤ b < s + Z.of_nat n → P b) → same_but P m (memset m s c n).
Proof. intros HP b Hb. rewrite getb_memset. case_decide; naive_solver. Qed.

Lemma same_but_memcpy (P : Z → Prop) m dest src n :
  (∀ b, dest ≤ b < dest + Z.of_nat n → P b) → same_but P m (memcpy m dest src n).
Proof.
  revert m dest src. induction n as [|n IH]; intros m dest src HP; [apply same_but_refl|].
  cbn [memcpy]. eapply same_but_trans; [|apply IH; intros; apply HP; lia].
  intros b Hb. rewrite getb_putb. case_decide; [subst; exfalso; apply Hb, HP; lia|done].
Qed.

Opaque ld32 st32.

(** Evaluate the word reads of the goal through the writes before them; the
    disjointness of the words is left to [lia]. *)
Ltac ldst :=
  repeat first
    [ rewrite ld32_st32_eq
    | rewrite ld32_st32_ne by lia ].
