(* ===== verification/Mm.v ===== *)
(** The memory manager: mm/*.c and mm/mm_internal.h, for a 32-bit target
    without CONFIG_MM_SMALL ([mmsize_t] is [size_t], 32 bits) and with
    CONFIG_MM_REGIONS > 1.

    Chunk headers live in [Memory.mem] at their byte offsets:
    [size] at 0, [preceding] at 4 and, in a free chunk, [flink] at 8 and
    [blink] at 12, so that a chunk too small for its links overlaps its
    neighbour here as it does on the target.  [g_nodelist] lies in the same
    memory, at the address [g_nodelist] of the section.

    A result [None] stands for a call that does not return: the task blocks on
    the memory manager's semaphore, a failed assertion, an index outside an
    array, or a loop that runs out of fuel.  The theorems of MmSpec.v show that
    none of these happens from a well-formed heap. *)

From stdpp Require Import base numbers gmap sorting list.
From S2P Require Import Prelude Memory.

(** ** mm_internal.h *)

Definition MM_MIN_SHIFT : Z := 4.
Definition MM_MAX_SHIFT : Z := 22.
Definition MM_MIN_CHUNK : Z := Z.shiftl 1 MM_MIN_SHIFT.
Definition MM_MAX_CHUNK : Z := Z.shiftl 1 MM_MAX_SHIFT.
Definition MM_NNODES : Z := MM_MAX_SHIFT - MM_MIN_SHIFT + 1.
Definition MM_GRAN_MASK : Z := MM_MIN_CHUNK - 1.
Definition MM_ALIGN_UP (a : Z) : Z := Z.land (w32 (a + MM_GRAN_MASK)) (w32 (Z.lnot MM_GRAN_MASK)).
Definition MM_ALIGN_DOWN (a : Z) : Z := Z.land a (w32 (Z.lnot MM_GRAN_MASK)).
Definition MM_ALLOC_BIT : Z := 0x80000000.
Definition SIZEOF_MM_ALLOCNODE : Z := 8.
Definition SIZEOF_MM_FREENODE : Z := 16.

(** [p & ~MM_ALLOC_BIT] and [p & MM_ALLOC_BIT] on a 32-bit field. *)
Definition clear_alloc (p : Z) : Z := Z.land p (w32 (Z.lnot MM_ALLOC_BIT)).
Definition alloc_bit (p : Z) : Z := Z.land p MM_ALLOC_BIT.

(** [struct mm_allocnode_s] and [struct mm_freenode_s]. *)
Definition n_size (m : mem) (node : Z) : Z := ld32 m node.
Definition n_preceding (m : mem) (node : Z) : Z := ld32 m (node + 4).
Definition n_flink (m : mem) (node : Z) : Z := ld32 m (node + 8).
Definition n_blink (m : mem) (node : Z) : Z := ld32 m (node + 12).
Definition set_size (m : mem) (node v : Z) : mem := st32 m node v.
Definition set_preceding (m : mem) (node v : Z) : mem := st32 m (node + 4) v.
Definition set_nflink (m : mem) (node v : Z) : mem := st32 m (node + 8) v.
Definition set_nblink (m : mem) (node v : Z) : mem := st32 m (node + 12) v.

Definition CONFIG_MM_REGIONS : nat := 2.

(** The globals of mm_initialize.c and mm_sem.c.  [g_mm_semaphore] is the
    count of the semaphore. *)
Record mm_state := mk_mm {
  mm_mem : mem;
  g_heapsize : Z;
  g_heapstart : list Z;
  g_heapend : list Z;
  g_nregions : nat;
  g_mm_semaphore : Z;
  g_holder : Z;
  g_counts_held : Z;
}.

Definition with_mem (st : mm_state) (m : mem) : mm_state :=
  mk_mm m (g_heapsize st) (g_heapstart st) (g_heapend st) (g_nregions st)
    (g_mm_semaphore st) (g_holder st) (g_counts_held st).
Definition with_sem (st : mm_state) (sem holder counts : Z) : mm_state :=
  mk_mm (mm_mem st) (g_heapsize st) (g_heapstart st) (g_heapend st) (g_nregions st)
    sem holder counts.

(** ** mm_sem.c *)

Definition mm_seminitialize (st : mm_state) : mm_state := with_sem st 1 (-1) 0.

(** [sem_trywait] decrements a positive count and fails otherwise. *)
Definition mm_trysemaphore (my_pid : Z) (st : mm_state) : bool * mm_state :=
  if g_holder st =? my_pid then
    (true, with_sem st (g_mm_semaphore st) (g_holder st) (g_counts_held st + 1))
  else if 0 <? g_mm_semaphore st then
    (true, with_sem st (g_mm_semaphore st - 1) my_pid 1)
  else (false, st).

(** [sem_wait] decrements a positive count and suspends the task otherwise. *)
Definition mm_takesemaphore (my_pid : Z) (st : mm_state) : option mm_state :=
  if g_holder st =? my_pid then
    Some (with_sem st (g_mm_semaphore st) (g_holder st) (g_counts_held st + 1))
  else if 0 <? g_mm_semaphore st then
    Some (with_sem st (g_mm_semaphore st - 1) my_pid 1)
  else None.

Definition mm_givesemaphore (st : mm_state) : mm_state :=
  if 1 <? g_counts_held st then
    with_sem st (g_mm_semaphore st) (g_holder st) (g_counts_held st - 1)
  else with_sem st (g_mm_semaphore st + 1) (-1) 0.

(** ** mm_size2ndx.c *)

Fixpoint size2ndx_loop (fuel : nat) (size ndx : Z) : Z :=
  match fuel with
  | O => ndx
  | S fuel =>
      if 1 <? size then size2ndx_loop fuel (Z.shiftr size 1) (ndx + 1) else ndx
  end.

Definition mm_size2ndx (size : Z) : Z :=
  if MM_MAX_CHUNK <=? size then MM_NNODES - 1
  else size2ndx_loop 32 (Z.shiftr size MM_MIN_SHIFT) 0.

Section Mm.
(** The address the linker gave to [g_nodelist]. *)
Context (g_nodelist : Z).

(** [&g_nodelist[i]] *)
Definition nodelist (i : Z) : Z := g_nodelist + SIZEOF_MM_FREENODE * i.

(** The free list has one head per bucket and at most one free chunk per
    SIZEOF_MM_FREENODE bytes of heap. *)
Definition mm_fuel (heapsize : Z) : nat :=
  Z.to_nat (heapsize / SIZEOF_MM_FREENODE + MM_NNODES + 1).

(** ** mm_addfreechunk.c *)

Fixpoint addfree_search (fuel : nat) (m : mem) (size prev next : Z) : option (Z * Z) :=
  if negb (next =? 0) && negb (n_size m next =? 0) && (n_size m next <? size) then
    match fuel with
    | O => None
    | S fuel => addfree_search fuel m size next (n_flink m next)
    end
  else Some (prev, next).

Definition mm_addfreechunk (fuel : nat) (m : mem) (node : Z) : option mem :=
  let ndx := mm_size2ndx (n_size m node) in
  '(prev, next) ←
    addfree_search fuel m (n_size m node) (nodelist ndx) (n_flink m (nodelist ndx));
  let m := set_nflink m prev node in
  let m := set_nblink m node prev in
  let m := set_nflink m node next in
  Some (if negb (next =? 0) then set_nblink m next node else m).

(** ** mm_initialize.c *)

Fixpoint nodelist_links (m : mem) (i : Z) (n : nat) : mem :=
  match n with
  | O => m
  | S n =>
      let m := set_nflink m (nodelist (i - 1)) (nodelist i) in
      let m := set_nblink m (nodelist i) (nodelist (i - 1)) in
      nodelist_links m (i + 1) n
  end.

Definition mm_addregion (heapstart heapsize : Z) (st : mm_state) : option mm_state :=
  let IDX := g_nregions st in
  let heapbase := MM_ALIGN_UP heapstart in
  let heapend := MM_ALIGN_DOWN (w32 (heapstart + heapsize)) in
  let heapsize := w32 (heapend - heapbase) in
  let g_heapsize := w32 (g_heapsize st + heapsize) in
  if negb (IDX <? CONFIG_MM_REGIONS)%nat then None else
  let m := mm_mem st in
  let m := set_size m heapbase SIZEOF_MM_ALLOCNODE in
  let m := set_preceding m heapbase MM_ALLOC_BIT in
  let node := heapbase + SIZEOF_MM_ALLOCNODE in
  let m := set_size m node (w32 (heapsize - 2 * SIZEOF_MM_ALLOCNODE)) in
  let m := set_preceding m node SIZEOF_MM_ALLOCNODE in
  let tail := heapend - SIZEOF_MM_ALLOCNODE in
  let m := set_size m tail SIZEOF_MM_ALLOCNODE in
  let m := set_preceding m tail (Z.lor (n_size m node) MM_ALLOC_BIT) in
  m ← mm_addfreechunk (mm_fuel g_heapsize) m node;
  Some (mk_mm m g_heapsize (<[IDX := heapbase]> (g_heapstart st))
          (<[IDX := tail]> (g_heapend st)) (S IDX)
          (g_mm_semaphore st) (g_holder st) (g_counts_held st)).

Definition mm_initialize (heapstart heapsize : Z) (st : mm_state) : option mm_state :=
  let m := memset (mm_mem st) g_nodelist 0 (Z.to_nat (SIZEOF_MM_FREENODE * MM_NNODES)) in
  let m := nodelist_links m 1 (Z.to_nat (MM_NNODES - 1)) in
  let st := mk_mm m 0 (g_heapstart st) (g_heapend st) 0
              (g_mm_semaphore st) (g_holder st) (g_counts_held st) in
  mm_addregion heapstart heapsize (mm_seminitialize st).

(** The removal of a free chunk from the node list, written out in malloc,
    free, mm_shrinkchunk and realloc. *)
Definition mm_unlink (m : mem) (node : Z) : mem :=
  let m := set_nflink m (n_blink m node) (n_flink m node) in
  if negb (n_flink m node =? 0) then set_nblink m (n_flink m node) (n_blink m node) else m.

(** ** mm_malloc.c *)

Fixpoint malloc_search (fuel : nat) (m : mem) (size node : Z) : option Z :=
  if negb (node =? 0) && (n_size m node <? size) then
    match fuel with
    | O => None
    | S fuel => malloc_search fuel m size (n_flink m node)
    end
  else Some node.

(** What malloc does to the chunk it selected: take it from the node list,
    give the excess back and mark it allocated. *)
Definition malloc_take (fuel : nat) (m : mem) (node size : Z) : option (Z * mem) :=
  let m := mm_unlink m node in
  let remaining := w32 (n_size m node - size) in
  m ←
    (if SIZEOF_MM_FREENODE <=? remaining then
       let next := node + n_size m node in
       let remainder := node + size in
       let m := set_size m remainder remaining in
       let m := set_preceding m remainder size in
       let m := set_size m node size in
       let m := set_preceding m next (Z.lor remaining (alloc_bit (n_preceding m next))) in
       mm_addfreechunk fuel m remainder
     else Some m);
  let m := set_preceding m node (Z.lor (n_preceding m node) MM_ALLOC_BIT) in
  Some (node + SIZEOF_MM_ALLOCNODE, m).

Definition malloc (my_pid size : Z) (st : mm_state) : option (Z * mm_state) :=
  if size <=? 0 then Some (0, st) else
  let size := MM_ALIGN_UP (w32 (size + SIZEOF_MM_ALLOCNODE)) in
  st ← mm_takesemaphore my_pid st;
  let fuel := mm_fuel (g_heapsize st) in
  let m := mm_mem st in
  let ndx := if MM_MAX_CHUNK <=? size then MM_NNODES - 1 else mm_size2ndx size in
  node ← malloc_search fuel m size (n_flink m (nodelist ndx));
  '(ret, m) ← (if negb (node =? 0) then malloc_take fuel m node size else Some (0, m));
  Some (ret, mm_givesemaphore (with_mem st m)).

(** ** mm_free.c *)

(** Merge the chunk that follows, if it is free: the memory and the chunk
    that then follows. *)
Definition free_merge_next (m : mem) (node : Z) : mem * Z :=
  let next := node + n_size m node in
  if alloc_bit (n_preceding m next) =? 0 then
    let andbeyond := next + n_size m next in
    let m := mm_unlink m next in
    let m := set_size m node (w32 (n_size m node + n_size m next)) in
    let m := set_preceding m andbeyond
               (Z.lor (n_size m node) (alloc_bit (n_preceding m andbeyond))) in
    (m, andbeyond)
  else (m, next).

(** Merge into the chunk that precedes, if it is free. *)
Definition free_merge_prev (m : mem) (node next : Z) : mem * Z :=
  let prev := node - n_preceding m node in
  if alloc_bit (n_preceding m prev) =? 0 then
    let m := mm_unlink m prev in
    let m := set_size m prev (w32 (n_size m prev + n_size m node)) in
    let m := set_preceding m next
               (Z.lor (n_size m prev) (alloc_bit (n_preceding m next))) in
    (m, prev)
  else (m, node).

Definition free (my_pid mem_ : Z) (st : mm_state) : option mm_state :=
  if mem_ =? 0 then Some st else
  st ← mm_takesemaphore my_pid st;
  let m := mm_mem st in
  let node := mem_ - SIZEOF_MM_ALLOCNODE in
  let m := set_preceding m node (clear_alloc (n_preceding m node)) in
  let '(m, next) := free_merge_next m node in
  let '(m, node) := free_merge_prev m node next in
  m ← mm_addfreechunk (mm_fuel (g_heapsize st)) m node;
  Some (mm_givesemaphore (with_mem st m)).

(** ** mm_shrinkchunk.c *)

Definition mm_shrinkchunk (fuel : nat) (m : mem) (node size : Z) : option mem :=
  let next := node + n_size m node in
  if alloc_bit (n_preceding m next) =? 0 then
    let andbeyond := next + n_size m next in
    let m := mm_unlink m next in
    let newnode := node + size in
    let m := set_size m newnode (w32 (n_size m next + n_size m node - size)) in
    let m := set_preceding m newnode size in
    let m := set_size m node size in
    let m := set_preceding m andbeyond
               (Z.lor (n_size m newnode) (alloc_bit (n_preceding m andbeyond))) in
    mm_addfreechunk fuel m newnode
  else if w32 (size + SIZEOF_MM_FREENODE) <=? n_size m node then
    let newnode := node + size in
    let m := set_size m newnode (w32 (n_size m node - size)) in
    let m := set_preceding m newnode size in
    let m := set_size m node size in
    let m := set_preceding m next (Z.lor (n_size m newnode) MM_ALLOC_BIT) in
    mm_addfreechunk fuel m newnode
  else Some m.

(** ** mm_memalign.c *)

(** Free the space before the aligned address: the memory, the chunk that
    holds the aligned address, that address and the size in it. *)
Definition memalign_head (fuel : nat) (m : mem) (alignment rawchunk alignedchunk : Z) :
    option (mem * Z * Z * Z) :=
  let node := rawchunk - SIZEOF_MM_ALLOCNODE in
  let next := node + n_size m node in
  if negb (w32 (rawchunk + 8) <=? alignedchunk) then None else
  let newnode := alignedchunk - SIZEOF_MM_ALLOCNODE in
  let precedingsize := w32 (newnode - node) in
  let '(alignedchunk, newnode, precedingsize) :=
    if precedingsize <? SIZEOF_MM_FREENODE then
      let alignedchunk := w32 (alignedchunk + alignment) in
      let newnode := alignedchunk - SIZEOF_MM_ALLOCNODE in
      (alignedchunk, newnode, w32 (newnode - node))
    else (alignedchunk, newnode, precedingsize) in
  let m := set_size m newnode (w32 (next - newnode)) in
  let m := set_preceding m newnode (Z.lor precedingsize MM_ALLOC_BIT) in
  let m := set_size m node precedingsize in
  let m := set_preceding m node (clear_alloc (n_preceding m node)) in
  let m := set_preceding m next
             (Z.lor (n_size m newnode) (alloc_bit (n_preceding m next))) in
  let allocsize := w32 (n_size m newnode - SIZEOF_MM_ALLOCNODE) in
  m ← mm_addfreechunk fuel m node;
  Some (m, newnode, alignedchunk, allocsize).

Definition memalign (my_pid alignment size : Z) (st : mm_state) : option (Z * mm_state) :=
  let mask := w32 (alignment - 1) in
  if alignment <=? MM_MIN_CHUNK then malloc my_pid size st else
  let size := MM_ALIGN_UP size in
  let allocsize := w32 (size + 2 * alignment) in
  '(rawchunk, st) ← malloc my_pid allocsize st;
  if rawchunk =? 0 then Some (0, st) else
  st ← mm_takesemaphore my_pid st;
  let fuel := mm_fuel (g_heapsize st) in
  let m := mm_mem st in
  let node := rawchunk - SIZEOF_MM_ALLOCNODE in
  let alignedchunk := Z.land (w32 (rawchunk + mask)) (w32 (Z.lnot mask)) in
  '(m, node, alignedchunk, allocsize) ←
    (if negb (alignedchunk =? rawchunk)
     then memalign_head fuel m alignment rawchunk alignedchunk
     else Some (m, node, alignedchunk, allocsize));
  m ←
    (if size <? allocsize
     then mm_shrinkchunk fuel m node (w32 (size + SIZEOF_MM_ALLOCNODE))
     else Some m);
  Some (alignedchunk, mm_givesemaphore (with_mem st m)).

(** ** mm_zalloc.c, mm_calloc.c *)

Definition zalloc (my_pid size : Z) (st : mm_state) : option (Z * mm_state) :=
  '(alloc, st) ← malloc my_pid size st;
  Some (alloc, if negb (alloc =? 0)
               then with_mem st (memset (mm_mem st) alloc 0 (Z.to_nat size)) else st).

Definition calloc (my_pid n elem_size : Z) (st : mm_state) : option (Z * mm_state) :=
  if (0 <? n) && (0 <? elem_size) then zalloc my_pid (w32 (n * elem_size)) st
  else Some (0, st).

(** ** mm_realloc.c *)

(** How much to take from the preceding and from the following chunk. *)
Definition realloc_plan (size oldsize prevsize nextsize : Z) : Z * Z :=
  let needed := w32 (size - oldsize) in
  let '(needed, takeprev, takenext) :=
    if (0 <? prevsize) && ((prevsize <=? nextsize) || (nextsize <=? 0)) then
      if prevsize <? needed then (0, prevsize, w32 (needed - prevsize))
      else (0, needed, 0)
    else (needed, 0, 0) in
  if (0 <? nextsize) && negb (needed =? 0) then
    if nextsize <? needed then (w32 (needed - nextsize), nextsize) else (0, needed)
  else (takeprev, takenext).

(** Extend into the preceding chunk and move the contents down: the memory,
    the node, its size and the new user address. *)
Definition realloc_takeprev (fuel : nat) (m : mem)
    (oldmem oldnode prev next oldsize prevsize takeprev : Z) : option (mem * Z * Z * Z) :=
  let m := mm_unlink m prev in
  let newnode := oldnode - takeprev in
  m ←
    (if takeprev <? prevsize then
       let m := set_size m prev (w32 (n_size m prev - takeprev)) in
       let m := set_size m newnode (w32 (oldsize + takeprev)) in
       let m := set_preceding m newnode (Z.lor (n_size m prev) MM_ALLOC_BIT) in
       let m := set_preceding m next
                  (Z.lor (n_size m newnode) (alloc_bit (n_preceding m next))) in
       mm_addfreechunk fuel m prev
     else
       let m := set_size m newnode (w32 (n_size m newnode + oldsize)) in
       let m := set_preceding m newnode (Z.lor (n_preceding m newnode) MM_ALLOC_BIT) in
       Some (set_preceding m next
               (Z.lor (n_size m newnode) (alloc_bit (n_preceding m next)))));
  let oldsize := n_size m newnode in
  let newmem := newnode + SIZEOF_MM_ALLOCNODE in
  let m := memcpy m newmem oldmem (Z.to_nat (w32 (oldsize - SIZEOF_MM_ALLOCNODE))) in
  Some (m, newnode, oldsize, newmem).

(** Extend into the following chunk. *)
Definition realloc_takenext (fuel : nat) (m : mem)
    (oldnode next oldsize nextsize takenext : Z) : option mem :=
  let andbeyond := next + nextsize in
  let m := mm_unlink m next in
  let m := set_size m oldnode (w32 (oldsize + takenext)) in
  let newnode := oldnode + n_size m oldnode in
  if takenext <? nextsize then
    let m := set_size m newnode (w32 (nextsize - takenext)) in
    let m := set_preceding m newnode (n_size m oldnode) in
    let m := set_preceding m andbeyond
               (Z.lor (n_size m newnode) (alloc_bit (n_preceding m andbeyond))) in
    mm_addfreechunk fuel m newnode
  else
    Some (set_preceding m andbeyond
            (Z.lor (n_size m oldnode) (alloc_bit (n_preceding m andbeyond)))).

Definition realloc (my_pid oldmem size : Z) (st : mm_state) : option (Z * mm_state) :=
  if oldmem =? 0 then malloc my_pid size st else
  if size <=? 0 then st ← free my_pid oldmem st; Some (0, st) else
  let size := MM_ALIGN_UP (w32 (size + SIZEOF_MM_ALLOCNODE)) in
  let oldnode := oldmem - SIZEOF_MM_ALLOCNODE in
  st ← mm_takesemaphore my_pid st;
  let fuel := mm_fuel (g_heapsize st) in
  let m := mm_mem st in
  let oldsize := n_size m oldnode in
  if size <=? oldsize then
    m ← (if size <? oldsize then mm_shrinkchunk fuel m oldnode size else Some m);
    Some (oldmem, mm_givesemaphore (with_mem st m))
  else
  let next := oldnode + n_size m oldnode in
  let nextsize := if alloc_bit (n_preceding m next) =? 0 then n_size m next else 0 in
  let prev := oldnode - clear_alloc (n_preceding m oldnode) in
  let prevsize := if alloc_bit (n_preceding m prev) =? 0 then n_size m prev else 0 in
  if size <=? w32 (nextsize + prevsize + oldsize) then
    let '(takeprev, takenext) := realloc_plan size oldsize prevsize nextsize in
    '(m, oldnode, oldsize, newmem) ←
      (if negb (takeprev =? 0)
       then realloc_takeprev fuel m oldmem oldnode prev next oldsize prevsize takeprev
       else Some (m, oldnode, oldsize, oldmem));
    m ←
      (if negb (takenext =? 0)
       then realloc_takenext fuel m oldnode next oldsize nextsize takenext
       else Some m);
    Some (newmem, mm_givesemaphore (with_mem st m))
  else
    '(newmem, st) ← malloc my_pid size (mm_givesemaphore st);
    if negb (newmem =? 0) then
      let st := with_mem st (memcpy (mm_mem st) newmem oldmem (Z.to_nat oldsize)) in
      st ← free my_pid oldmem st;
      Some (newmem, st)
    else Some (newmem, st).
End Mm.

(** ** mm_mallinfo.c *)

Record mallinfo_s := mk_info {
  arena : Z; ordblks : Z; mxordblk : Z; uordblks : Z; fordblks : Z }.

(** The walk over one region, up to its tail. *)
Fixpoint mallinfo_walk (fuel : nat) (m : mem) (node hend : Z) (i : mallinfo_s) :
    option (Z * mallinfo_s) :=
  if node <? hend then
    match fuel with
    | O => None
    | S fuel =>
        let sz := n_size m node in
        let i :=
          if negb (alloc_bit (n_preceding m node) =? 0) then
            mk_info (arena i) (ordblks i) (mxordblk i) (w32 (uordblks i + sz)) (fordblks i)
          else
            mk_info (arena i) (ordblks i + 1)
              (if mxordblk i <? sz then sz else mxordblk i)
              (uordblks i) (w32 (fordblks i + sz)) in
        mallinfo_walk fuel m (node + sz) hend i
    end
  else Some (node, i).

Fixpoint mallinfo_regions (fuel : nat) (st : mm_state) (region : nat) (n : nat)
    (i : mallinfo_s) : option mallinfo_s :=
  match n with
  | O => Some i
  | S n =>
      hstart ← g_heapstart st !! region;
      hend ← g_heapend st !! region;
      '(node, i) ← mallinfo_walk fuel (mm_mem st) hstart hend i;
      if negb (node =? hend) then None else
      let i := mk_info (arena i) (ordblks i) (mxordblk i)
                 (w32 (uordblks i + SIZEOF_MM_ALLOCNODE)) (fordblks i) in
      mallinfo_regions fuel st (S region) n i
  end.

(** [None] when one of the two assertions fails. *)
Definition mallinfo (st : mm_state) : option mallinfo_s :=
  i ← mallinfo_regions (mm_fuel (g_heapsize st)) st 0 (g_nregions st) (mk_info 0 0 0 0 0);
  if negb (w32 (uordblks i + fordblks i) =? g_heapsize st) then None else
  Some (mk_info (g_heapsize st) (ordblks i) (mxordblk i) (uordblks i) (fordblks i)).
