(* ===== verification/MmInv.v ===== *)
(** The heap invariant of the memory manager and the three transformations every
    operation is made of: unlinking a free chunk ([wf_unlink]), rewriting the
    headers of a span of chunks ([wf_rewrite]) and adding a free chunk
    ([wf_addfree]).

    The abstract heap is a list of regions, each a base address with the chunks
    between its two guard nodes, together with the node list [fl]: the bucket
    heads and the free chunks, as (address, size) pairs in list order. *)

From stdpp Require Import base numbers gmap sorting list.
From S2P Require Import Prelude Memory Mm.

(** ** Arithmetic of the flag bit and of alignment *)

Lemma land_align z : 0 ≤ z < 2 ^ 32 → Z.land z (w32 (Z.lnot MM_GRAN_MASK)) = z - z mod 16.
Proof.
  intros Hz. change (w32 (Z.lnot MM_GRAN_MASK)) with (Z.ldiff (Z.ones 32) (Z.ones 4)).
  assert (E : Z.land z (Z.ldiff (Z.ones 32) (Z.ones 4)) =
              Z.ldiff (Z.land z (Z.ones 32)) (Z.ones 4)).
  { apply Z.bits_inj'. intros n Hn. rewrite !Z.ldiff_spec, !Z.land_spec, !Z.ldiff_spec.
    by rewrite andb_assoc. }
  rewrite E, Z.land_ones by lia. rewrite (Z.mod_small z) by lia.
  rewrite Z.ldiff_ones_r by lia. rewrite Z.shiftr_div_pow2, Z.shiftl_mul_pow2 by lia. change (2 ^ 4) with 16. pose proof (Z.div_mod z 16). lia.
Qed.

Lemma mm_align_up_eq a : 0 ≤ a → a + 15 < 2 ^ 32 →
  MM_ALIGN_UP a = a + 15 - (a + 15) mod 16.
Proof.
  intros. unfold MM_ALIGN_UP. change MM_GRAN_MASK with 15 at 1. unfold w32 at 1.
  rewrite Z.mod_small by lia. apply land_align. lia.
Qed.

Lemma mm_align_down_eq a : 0 ≤ a < 2 ^ 32 → MM_ALIGN_DOWN a = a - a mod 16.
Proof. apply land_align. Qed.

Definition flag (al : bool) : Z := if al then MM_ALLOC_BIT else 0.

Lemma alloc_bit_flag p al : 0 ≤ p < 2 ^ 31 → alloc_bit (p + flag al) = flag al.
Proof.
  intros Hp. unfold alloc_bit. change MM_ALLOC_BIT with (2 ^ 31) at 1.
  apply Z.bits_inj'. intros n Hn. rewrite Z.land_spec, Z.pow2_bits_eqb by lia.
  destruct (Z.eqb_spec 31 n) as [<-|Hne].
  - rewrite andb_true_r. destruct al; unfold flag.
    + change MM_ALLOC_BIT with (2 ^ 31). rewrite Z.pow2_bits_true by lia.
      apply Z.testbit_true; [lia|].
      replace ((p + 2 ^ 31) / 2 ^ 31) with 1 by (Z.to_euclidean_division_equations; lia).
      done.
    + rewrite Z.add_0_r, Z.bits_0, Z.bits_above_log2; [done|lia|].
      destruct (decide (p = 0)) as [->|]; [simpl; lia|]. apply Z.log2_lt_pow2; lia.
  - rewrite andb_false_r. destruct al; unfold flag; [|by rewrite Z.bits_0].
    change MM_ALLOC_BIT with (2 ^ 31). rewrite Z.pow2_bits_eqb by lia.
    by rewrite (proj2 (Z.eqb_neq 31 n)).
Qed.

Lemma clear_alloc_flag p al : 0 ≤ p < 2 ^ 31 → clear_alloc (p + flag al) = p.
Proof.
  intros Hp. unfold clear_alloc. change (w32 (Z.lnot MM_ALLOC_BIT)) with (Z.ones 31).
  rewrite Z.land_ones by lia. destruct al; unfold flag; [|rewrite Z.add_0_r; apply Z.mod_small; lia].
  change MM_ALLOC_BIT with (1 * 2 ^ 31). rewrite Z.mod_add by lia. apply Z.mod_small. lia.
Qed.

Lemma lor_flag p al : 0 ≤ p < 2 ^ 31 → Z.lor p (flag al) = p + flag al.
Proof.
  intros Hp. destruct al; unfold flag; [|by rewrite Z.lor_0_r, Z.add_0_r].
  symmetry. rewrite Z.add_nocarry_lxor, Z.lxor_lor; [done|..].
  all: pose proof (alloc_bit_flag p false Hp) as E; unfold alloc_bit, flag in E;
    by rewrite Z.add_0_r in E.
Qed.

Lemma lor_flagged p al : 0 ≤ p < 2 ^ 31 → Z.lor (p + flag al) MM_ALLOC_BIT = p + flag true.
Proof.
  intros Hp. rewrite <-lor_flag by done. change MM_ALLOC_BIT with (flag true).
  rewrite <-Z.lor_assoc. replace (Z.lor (flag al) (flag true)) with (flag true) by by destruct al.
  by rewrite lor_flag.
Qed.

Lemma flag_zero al : (flag al =? 0) = negb al.
Proof. by destruct al. Qed.

(** ** Chunks *)

Abbreviation chunk := (Z * bool)%type.

Definition tot (cs : list chunk) : Z := foldr (λ c t, c.1 + t) 0 cs.
Definition lastsize (p : Z) (cs : list chunk) : Z := default p (fst <$> last cs).

Fixpoint region (m : mem) (a p : Z) (cs : list chunk) : Prop :=
  match cs with
  | [] => True
  | (sz, al) :: cs =>
      n_size m a = sz ∧ n_preceding m a = p + flag al ∧ region m (a + sz) sz cs
  end.

(** The chunks with their addresses. *)
Fixpoint caddrs (a : Z) (cs : list chunk) : list (Z * chunk) :=
  match cs with
  | [] => []
  | c :: cs => (a, c) :: caddrs (a + c.1) cs
  end.

Fixpoint frees (a : Z) (cs : list chunk) : list (Z * Z) :=
  match cs with
  | [] => []
  | (sz, al) :: cs => (if al then [] else [(a, sz)]) ++ frees (a + sz) cs
  end.

(** No two adjacent free chunks. *)
Fixpoint coalesced (cs : list chunk) : Prop :=
  match cs with
  | c1 :: (c2 :: _) as cs' => (c1.2 = true ∨ c2.2 = true) ∧ coalesced cs'
  | _ => True
  end.

Lemma tot_app c1 c2 : tot (c1 ++ c2) = tot c1 + tot c2.
Proof. induction c1; simpl in *; lia. Qed.

Lemma lastsize_app p c1 c2 : lastsize p (c1 ++ c2) = lastsize (lastsize p c1) c2.
Proof.
  unfold lastsize. rewrite last_app. by destruct (last c2), (last c1).
Qed.

Lemma lastsize_cons p c cs : lastsize p (c :: cs) = lastsize c.1 cs.
Proof. apply (lastsize_app p [c] cs). Qed.

Lemma region_app m a p c1 c2 :
  region m a p (c1 ++ c2) ↔
  region m a p c1 ∧ region m (a + tot c1) (lastsize p c1) c2.
Proof.
  revert a p. induction c1 as [|[sz al] c1 IH]; intros a p; simpl.
  - rewrite Z.add_0_r. naive_solver.
  - rewrite IH, lastsize_cons. simpl. rewrite Z.add_assoc. naive_solver.
Qed.

Lemma caddrs_app a c1 c2 : caddrs a (c1 ++ c2) = caddrs a c1 ++ caddrs (a + tot c1) c2.
Proof.
  revert a. induction c1 as [|c c1 IH]; intros a; simpl; [by rewrite Z.add_0_r|].
  by rewrite IH, Z.add_assoc.
Qed.

Lemma frees_app a c1 c2 : frees a (c1 ++ c2) = frees a c1 ++ frees (a + tot c1) c2.
Proof.
  revert a. induction c1 as [|[sz al] c1 IH]; intros a; simpl; [by rewrite Z.add_0_r|].
  by rewrite IH, Z.add_assoc, app_assoc.
Qed.

Lemma elem_of_caddrs x c a cs :
  (x, c) ∈ caddrs a cs ↔ ∃ c1 c2, cs = c1 ++ c :: c2 ∧ x = a + tot c1.
Proof.
  revert a. induction cs as [|d cs IH]; intros a; simpl.
  - split; [by intros ?%not_elem_of_nil|]. by intros ([|??] & ? & ? & _).
  - rewrite elem_of_cons, IH. split.
    + intros [[= -> ->]|(c1 & c2 & -> & ->)].
      * exists [], cs. simpl. split; [done|lia].
      * exists (d :: c1), c2. simpl. split; [done|lia].
    + intros ([|e c1] & c2 & E & ->); simplify_eq/=.
      * left. f_equal. lia.
      * right. exists c1, c2. split; [done|lia].
Qed.

Lemma elem_of_frees x s a cs : (x, s) ∈ frees a cs ↔ (x, (s, false)) ∈ caddrs a cs.
Proof.
  revert a. induction cs as [|[sz al] cs IH]; intros a; simpl; [set_solver|].
  rewrite elem_of_app, elem_of_cons, IH. destruct al; simpl.
  - split; [intros [?%not_elem_of_nil|?]; auto; done|].
    intros [[= ]|?]; auto.
  - rewrite list_elem_of_singleton. naive_solver.
Qed.

Lemma tot_nonneg cs : Forall (λ c, 0 ≤ c.1) cs → 0 ≤ tot cs.
Proof. induction 1; simpl; lia. Qed.

Lemma caddrs_bounds x c a cs :
  Forall (λ c, 0 ≤ c.1) cs → (x, c) ∈ caddrs a cs → a ≤ x ∧ x + c.1 ≤ a + tot cs.
Proof.
  intros Hf (c1 & c2 & -> & ->)%elem_of_caddrs.
  apply Forall_app in Hf as [H1%tot_nonneg [H2 H3%tot_nonneg]%Forall_cons].
  rewrite tot_app. simpl. lia.
Qed.

Lemma region_frame m m' a p cs :
  (∀ x c, (x, c) ∈ caddrs a cs →
     n_size m' x = n_size m x ∧ n_preceding m' x = n_preceding m x) →
  region m a p cs → region m' a p cs.
Proof.
  revert a p. induction cs as [|[sz al] cs IH]; intros a p Hfr; simpl; [done|].
  intros (H1 & H2 & H3). destruct (Hfr a (sz, al)) as [E1 E2]; [apply list_elem_of_here|].
  rewrite E1, E2. split_and!; [done..|]. apply IH; [|done].
  intros x c Hx. apply (Hfr x c). by apply list_elem_of_further.
Qed.

Lemma region_elem m a p cs x c :
  region m a p cs → (x, c) ∈ caddrs a cs → n_size m x = c.1.
Proof.
  intros Hr (c1 & c2 & -> & ->)%elem_of_caddrs.
  apply region_app in Hr as [_ Hr]. destruct c. by destruct Hr.
Qed.

(** ** Regions *)

Definition GUARD : chunk := (SIZEOF_MM_ALLOCNODE, true).
Definition full (mid : list chunk) : list chunk := GUARD :: mid ++ [GUARD].

Arguments full : simpl never.
Arguments tot : simpl never.

Definition chunk_ok (c : chunk) : Prop := SIZEOF_MM_FREENODE ≤ c.1 ∧ (8 | c.1).

Definition extent (r : Z * list chunk) : Z * Z := (r.1, tot (full r.2)).

Definition region_ok (m : mem) (r : Z * list chunk) : Prop :=
  0 < r.1 ∧ r.1 + tot (full r.2) ≤ 2 ^ 32 ∧ tot (full r.2) < 2 ^ 31 ∧ (8 | r.1) ∧
  Forall chunk_ok r.2 ∧ region m r.1 0 (full r.2).

Definition chunks_of (H : list (Z * list chunk)) : list (Z * chunk) :=
  H ≫= λ r, caddrs r.1 (full r.2).
Definition frees_of (H : list (Z * list chunk)) : list (Z * Z) :=
  H ≫= λ r, frees r.1 (full r.2).

(** Disjoint (start, length) intervals. *)
Definition apart (x y : Z * Z) : Prop := x.1 + x.2 ≤ y.1 ∨ y.1 + y.2 ≤ x.1.

Fixpoint disj (l : list (Z * Z)) : Prop :=
  match l with
  | [] => True
  | x :: l => Forall (apart x) l ∧ disj l
  end.

Lemma disj_elem l1 x l2 y :
  disj (l1 ++ x :: l2) → y ∈ l1 ++ l2 → apart x y.
Proof.
  induction l1 as [|z l1 IH]; simpl; intros [H1 H2] Hy.
  - by eapply Forall_forall in H1.
  - apply elem_of_cons in Hy as [->|Hy]; [|by apply IH].
    rewrite Forall_forall in H1. destruct (H1 x); [set_solver|by right|by left].
Qed.

Lemma full_nonneg mid : Forall chunk_ok mid → Forall (λ c, 0 ≤ c.1) (full mid).
Proof.
  intros H. apply Forall_cons. split; [done|]. apply Forall_app. split.
  - eapply Forall_impl; [done|]. intros c [? _]. unfold SIZEOF_MM_FREENODE in *. lia.
  - by apply Forall_singleton.
Qed.

Lemma elem_of_chunks x c H :
  (x, c) ∈ chunks_of H ↔
  ∃ H1 r H2, H = H1 ++ r :: H2 ∧ (x, c) ∈ caddrs r.1 (full r.2).
Proof.
  unfold chunks_of. rewrite list_elem_of_bind. split.
  - intros (r & Hx & (H1 & H2 & ->)%list_elem_of_split). eauto.
  - intros (H1 & r & H2 & -> & Hx). exists r. set_solver.
Qed.

Lemma elem_of_frees_of x s H : (x, s) ∈ frees_of H ↔ (x, (s, false)) ∈ chunks_of H.
Proof.
  unfold frees_of, chunks_of. rewrite !list_elem_of_bind.
  by setoid_rewrite elem_of_frees.
Qed.

Lemma full_elem c mid : c ∈ full mid → c = GUARD ∨ c ∈ mid.
Proof. unfold full. set_solver. Qed.

Lemma caddrs_full_ok x c r :
  Forall chunk_ok r.2 → (x, c) ∈ caddrs r.1 (full r.2) →
  8 ≤ c.1 ∧ (c.2 = false → chunk_ok c).
Proof.
  intros Hok (c1 & c2 & E & _)%elem_of_caddrs.
  assert (c ∈ full r.2) as [->|Hc]%full_elem by (rewrite E; set_solver).
  - split; [done|]. done.
  - rewrite Forall_forall in Hok. specialize (Hok c Hc). split; [|done].
    destruct Hok. unfold SIZEOF_MM_FREENODE in *. lia.
Qed.

Lemma caddrs_apart a cs x c y d :
  Forall (λ c, 0 < c.1) cs → (x, c) ∈ caddrs a cs → (y, d) ∈ caddrs a cs →
  (x = y ∧ c = d) ∨ apart (x, c.1) (y, d.1).
Proof.
  intros Hpos. revert a. induction Hpos as [|e cs He Hcs IH]; intros a; simpl; [set_solver|].
  assert (Hle : Forall (λ c : chunk, 0 ≤ c.1) cs).
  { eapply Forall_impl; [done|]. simpl. lia. }
  rewrite !elem_of_cons. intros [[= -> ->]|Hx] [[= -> ->]|Hy].
  - by left.
  - apply (caddrs_bounds _ _ _ _ Hle) in Hy. right. left. simpl. lia.
  - apply (caddrs_bounds _ _ _ _ Hle) in Hx. right. right. simpl. lia.
  - by eapply IH.
Qed.

Lemma full_pos mid : Forall chunk_ok mid → Forall (λ c, 0 < c.1) (full mid).
Proof.
  intros H. apply Forall_cons. split; [done|]. apply Forall_app. split.
  - eapply Forall_impl; [done|]. intros c [? _]. unfold SIZEOF_MM_FREENODE in *. lia.
  - by apply Forall_singleton.
Qed.

(** ** The bucket of a size *)

Lemma size2ndx_loop_eq fuel z ndx : 1 ≤ z < 2 ^ Z.of_nat fuel →
  size2ndx_loop fuel z ndx = ndx + Z.log2 z.
Proof.
  revert z ndx. induction fuel as [|fuel IH]; intros z ndx Hz; [simpl in Hz; lia|].
  cbn [size2ndx_loop]. destruct (Z.ltb_spec 1 z) as [Hlt|Hge].
  - rewrite Z.shiftr_div_pow2 by lia. change (2 ^ 1) with 2. rewrite IH.
    + assert (Z.log2 z = Z.log2 (z / 2) + 1); [|lia].
      rewrite (Z.div_mod z 2) at 1 by lia. pose proof (Z.mod_pos_bound z 2).
      assert (1 ≤ z / 2) by (apply Z.div_le_lower_bound; lia).
      destruct (decide (z mod 2 = 0)) as [->|].
      * rewrite Z.add_0_r, Z.log2_double; lia.
      * replace (z mod 2) with 1 by lia. rewrite Z.log2_succ_double; lia.
    + replace (2 ^ Z.of_nat (S fuel)) with (2 * 2 ^ Z.of_nat fuel) in Hz.
      2:{ rewrite <-Z.pow_succ_r by lia. f_equal. lia. }
      split; [apply Z.div_le_lower_bound; lia|apply Z.div_lt_upper_bound; lia].
  - replace z with 1 by lia. simpl. lia.
Qed.

Lemma mm_size2ndx_small size : 16 ≤ size < MM_MAX_CHUNK →
  mm_size2ndx size = Z.log2 size - 4.
Proof.
  intros Hs. unfold mm_size2ndx. rewrite (proj2 (Z.leb_gt _ _)) by lia.
  change MM_MAX_CHUNK with (2 ^ 22) in Hs.
  rewrite Z.shiftr_div_pow2 by done. change (2 ^ MM_MIN_SHIFT) with 16.
  assert (1 ≤ size / 16 < 2 ^ 32).
  { split; [apply Z.div_le_lower_bound; lia|apply Z.div_lt_upper_bound; lia]. }
  rewrite size2ndx_loop_eq by (change (Z.of_nat 32) with 32; lia).
  change 16 with (2 ^ 4). rewrite <-Z.shiftr_div_pow2 by lia.
  rewrite Z.log2_shiftr by lia.
  assert (4 ≤ Z.log2 size) by (apply Z.log2_le_pow2; lia). lia.
Qed.

(** The bucket a size belongs to: bucket [i] holds the sizes from [2^(i+4)] up
    to [2^(i+5)], the last one everything above. *)
Lemma mm_size2ndx_range size : 16 ≤ size →
  0 ≤ mm_size2ndx size < MM_NNODES ∧ 2 ^ (mm_size2ndx size + 4) ≤ size ∧
  (mm_size2ndx size < MM_NNODES - 1 → size < 2 ^ (mm_size2ndx size + 5)).
Proof.
  intros Hs. change MM_NNODES with 19.
  destruct (decide (size < MM_MAX_CHUNK)) as [Hlt|Hge].
  - rewrite mm_size2ndx_small by done. pose proof (Z.log2_spec size).
    assert (4 ≤ Z.log2 size) by (apply Z.log2_le_pow2; lia).
    assert (Z.log2 size < 22) by (apply Z.log2_lt_pow2; [lia|exact Hlt]).
    replace (Z.log2 size - 4 + 4) with (Z.log2 size) by lia.
    replace (Z.log2 size - 4 + 5) with (Z.succ (Z.log2 size)) by lia. lia.
  - unfold mm_size2ndx. rewrite (proj2 (Z.leb_le _ _)) by lia.
    change MM_MAX_CHUNK with (2 ^ 22) in Hge. change (MM_NNODES - 1) with 18. lia.
Qed.

(** The bytes of the links of the nodes [F]. *)
Definition in_links (F : list Z) (b : Z) : Prop := ∃ x, x ∈ F ∧ x + 8 ≤ b < x + 16.

Section Wf.
Context (nl : Z).
Implicit Types (H : list (Z * list chunk)) (fl fr : list (Z * Z)).

Definition heads : list (Z * Z) := (λ i : nat, (nodelist nl (Z.of_nat i), 0)) <$> seq 0 19.

(** The order of the node list: a head sorts just below the sizes of its
    bucket, a free chunk at its size. *)
Definition key (x : Z * Z) : Z :=
  if x.2 =? 0 then 2 * 2 ^ ((x.1 - nl) / 16 + 4) - 1 else 2 * x.2.
Definition keyle (x y : Z * Z) : Prop := key x ≤ key y.

(** The heap, except that the free chunks of the node list are [fr], which
    need not be all the free chunks of [H]. *)
Record wf (m : mem) H fl fr : Prop := {
  wf_nl : 0 < nl ∧ nl + 304 ≤ 2 ^ 32;
  wf_regions : Forall (region_ok m) H;
  wf_disj : disj ((nl, 304) :: (extent <$> H));
  wf_heads : ∀ i, 0 ≤ i < MM_NNODES → n_size m (nodelist nl i) = 0;
  wf_dll : dll (n_flink m) (n_blink m) (fl.*1);
  wf_sorted : StronglySorted keyle fl;
  wf_perm : fl ≡ₚ heads ++ fr;
  wf_fr : ∀ x s, (x, s) ∈ fr → (x, (s, false)) ∈ chunks_of H;
  wf_nodup : NoDup (fr.*1);
}.

(** The part of [wf] that only reads chunk headers. *)
Record shape (m : mem) H : Prop := {
  sh_nl : 0 < nl ∧ nl + 304 ≤ 2 ^ 32;
  sh_regions : Forall (region_ok m) H;
  sh_disj : disj ((nl, 304) :: (extent <$> H));
  sh_heads : ∀ i, 0 ≤ i < MM_NNODES → n_size m (nodelist nl i) = 0;
}.

Lemma wf_shape m H fl fr : wf m H fl fr → shape m H.
Proof. intros [????]. by split. Qed.

Lemma chunk_region m H x c : shape m H → (x, c) ∈ chunks_of H →
  ∃ r, r ∈ H ∧ region_ok m r ∧ (x, c) ∈ caddrs r.1 (full r.2).
Proof.
  intros Hs (H1 & r & H2 & -> & Hx)%elem_of_chunks. exists r.
  assert (r ∈ H1 ++ r :: H2) by set_solver.
  split_and!; [done| |done]. eapply Forall_forall; [by apply sh_regions|done].
Qed.

Lemma chunk_bounds m H x c : shape m H → (x, c) ∈ chunks_of H →
  0 < x ∧ 8 ≤ c.1 ∧ c.1 < 2 ^ 31 ∧ x + c.1 ≤ 2 ^ 32 ∧ (c.2 = false → chunk_ok c) ∧
  n_size m x = c.1.
Proof.
  intros Hs Hx. destruct (chunk_region _ _ _ _ Hs Hx) as (r & Hr & Hok & Hin).
  destruct Hok as (? & ? & ? & ? & Hok & Hreg).
  pose proof (caddrs_bounds _ _ _ _ (full_nonneg _ Hok) Hin).
  destruct (caddrs_full_ok _ _ _ Hok Hin). pose proof (region_elem _ _ _ _ _ _ Hreg Hin).
  split_and!; try done; lia.
Qed.

Lemma chunk_apart m H x c y d : shape m H → (x, c) ∈ chunks_of H → (y, d) ∈ chunks_of H →
  (x = y ∧ c = d) ∨ apart (x, c.1) (y, d.1).
Proof.
  intros Hs (H1 & r & H2 & -> & Hx)%elem_of_chunks Hy.
  destruct (chunk_region _ _ _ _ Hs Hy) as (r' & Hr' & Hok' & Hy').
  assert (region_ok m r) as Hok by (eapply Forall_forall; [by apply sh_regions|set_solver]).
  destruct Hok as (_ & _ & _ & _ & Hok & _), Hok' as (_ & _ & _ & _ & Hok' & _).
  destruct (decide (r' = r)) as [->|Hne].
  { by eapply caddrs_apart; [apply full_pos| |]. }
  right. assert (apart (extent r) (extent r')) as Hap.
  { pose proof (sh_disj _ _ Hs) as [_ Hd]. rewrite fmap_app in Hd.
    apply (disj_elem (extent <$> H1) (extent r) (extent <$> H2)); [exact Hd|].
    rewrite elem_of_app, !list_elem_of_fmap. rewrite elem_of_app, elem_of_cons in Hr'.
    destruct Hr' as [?|[?|?]]; eauto. done. }
  pose proof (caddrs_bounds _ _ _ _ (full_nonneg _ Hok) Hx).
  pose proof (caddrs_bounds _ _ _ _ (full_nonneg _ Hok') Hy').
  unfold apart, extent in *. simpl in *. lia.
Qed.

Lemma head_apart m H i y d : shape m H → 0 ≤ i < MM_NNODES → (y, d) ∈ chunks_of H →
  apart (nodelist nl i, 16) (y, d.1).
Proof.
  intros Hs Hi Hy. destruct (chunk_region _ _ _ _ Hs Hy) as (r & Hr & Hok & Hy').
  destruct Hok as (_ & _ & _ & _ & Hok & _).
  pose proof (caddrs_bounds _ _ _ _ (full_nonneg _ Hok) Hy').
  pose proof (sh_disj _ _ Hs) as [Hd _]. rewrite Forall_forall in Hd.
  destruct (Hd (extent r)) as [Hlt|Hlt]; [set_solver|..]; unfold extent in Hlt; simpl in Hlt;
    unfold nodelist, SIZEOF_MM_FREENODE, apart; change MM_NNODES with 19 in Hi; simpl; lia.
Qed.

Lemma elem_of_heads x s : (x, s) ∈ heads ↔ ∃ i, 0 ≤ i < MM_NNODES ∧ x = nodelist nl i ∧ s = 0.
Proof.
  unfold heads. rewrite list_elem_of_fmap. change MM_NNODES with 19. split.
  - intros (i & [= -> ->] & Hi%elem_of_seq). exists (Z.of_nat i). split_and!; done || lia.
  - intros (i & Hi & -> & ->). exists (Z.to_nat i). rewrite Z2Nat.id by lia.
    split; [done|]. apply elem_of_seq. lia.
Qed.

(** A node of the list is a bucket head or a free chunk. *)
Definition is_node H (x s : Z) : Prop :=
  (∃ i, 0 ≤ i < MM_NNODES ∧ x = nodelist nl i ∧ s = 0) ∨ (x, (s, false)) ∈ chunks_of H.

Lemma wf_node m H fl fr x s : wf m H fl fr → (x, s) ∈ fl → is_node H x s.
Proof.
  intros Hw Hx. rewrite (wf_perm _ _ _ _ Hw), elem_of_app in Hx.
  destruct Hx as [Hx%elem_of_heads|Hx]; [by left|right]. by eapply wf_fr.
Qed.

Lemma node_bounds m H x s : shape m H → is_node H x s →
  0 < x ∧ x + 16 ≤ 2 ^ 32 ∧ n_size m x = s ∧ (s = 0 ∨ 16 ≤ s < 2 ^ 31).
Proof.
  intros Hs [(i & Hi & -> & ->)|Hx].
  - pose proof (sh_nl _ _ Hs). pose proof (sh_heads _ _ Hs i Hi).
    unfold nodelist, SIZEOF_MM_FREENODE in *. change MM_NNODES with 19 in Hi. lia.
  - destruct (chunk_bounds _ _ _ _ Hs Hx) as (? & ? & ? & ? & [? _] & ?); [done|..].
    unfold SIZEOF_MM_FREENODE in *. simpl in *. lia.
Qed.

Lemma node_apart m H x s y t : shape m H → is_node H x s → is_node H y t → x ≠ y →
  x + 16 ≤ y ∨ y + 16 ≤ x.
Proof.
  intros Hs Hx Hy Hne.
  pose proof (node_bounds _ _ _ _ Hs Hx). pose proof (node_bounds _ _ _ _ Hs Hy).
  destruct Hx as [(i & Hi & -> & ->)|Hx], Hy as [(j & Hj & -> & ->)|Hy].
  - unfold nodelist, SIZEOF_MM_FREENODE in *. lia.
  - pose proof (head_apart _ _ _ _ _ Hs Hi Hy) as Ha.
    destruct (chunk_bounds _ _ _ _ Hs Hy) as (? & ? & ? & ? & [? _] & ?); [done|..].
    unfold apart, SIZEOF_MM_FREENODE in *. simpl in *. lia.
  - pose proof (head_apart _ _ _ _ _ Hs Hj Hx) as Ha.
    destruct (chunk_bounds _ _ _ _ Hs Hx) as (? & ? & ? & ? & [? _] & ?); [done|..].
    unfold apart, SIZEOF_MM_FREENODE in *. simpl in *. lia.
  - destruct (chunk_apart _ _ _ _ _ _ Hs Hx Hy) as [[-> _]|Ha]; [done|].
    destruct (chunk_bounds _ _ _ _ Hs Hx) as (? & ? & ? & ? & [? _] & ?); [done|..].
    destruct (chunk_bounds _ _ _ _ Hs Hy) as (? & ? & ? & ? & [? _] & ?); [done|..].
    unfold apart, SIZEOF_MM_FREENODE in *. simpl in *. lia.
Qed.

(** The links of a node lie outside every header. *)
Lemma node_chunk_apart m H x s y d : shape m H → is_node H x s → (y, d) ∈ chunks_of H →
  y + 8 ≤ x + 8 ∨ x + 16 ≤ y.
Proof.
  intros Hs [(i & Hi & -> & ->)|Hx] Hy.
  - pose proof (head_apart _ _ _ _ _ Hs Hi Hy) as Ha.
    pose proof (chunk_bounds _ _ _ _ Hs Hy). unfold apart in Ha. simpl in *. lia.
  - destruct (chunk_apart _ _ _ _ _ _ Hs Hx Hy) as [[-> _]|Ha]; [lia|].
    destruct (chunk_bounds _ _ _ _ Hs Hx) as (? & ? & ? & ? & [? _] & ?); [done|..].
    pose proof (chunk_bounds _ _ _ _ Hs Hy).
    unfold apart, SIZEOF_MM_FREENODE in *. simpl in *. lia.
Qed.

Definition nodes H (F : list Z) : Prop := ∀ x, x ∈ F → ∃ s, is_node H x s.

Lemma wf_nodes m H fl fr : wf m H fl fr → nodes H (fl.*1).
Proof.
  intros Hw x ((y & s) & -> & Hx)%list_elem_of_fmap. exists s. by eapply wf_node.
Qed.

(** Writing links only keeps the shape. *)
Lemma shape_links m m' H F :
  nodes H F → same_but (in_links F) m m' → shape m H → shape m' H.
Proof.
  intros HF Hsame Hs.
  assert (Hhd : ∀ y d, (y, d) ∈ chunks_of H →
    n_size m' y = n_size m y ∧ n_preceding m' y = n_preceding m y).
  { intros y d Hy. unfold n_size, n_preceding. split; eapply same_but_ld32; try done;
      intros b Hb (x & Hx & Hxb); destruct (HF x Hx) as [s Hn];
      destruct (node_chunk_apart _ _ _ _ _ _ Hs Hn Hy); lia. }
  split; [by eapply sh_nl| |by eapply sh_disj|].
  - apply Forall_forall. intros r Hr.
    pose proof (sh_regions _ _ Hs) as Hrs. rewrite Forall_forall in Hrs.
    destruct (Hrs r Hr) as (? & ? & ? & ? & ? & Hreg). split_and!; try done.
    eapply region_frame; [|done]. intros x c Hx. eapply Hhd.
    unfold chunks_of. apply list_elem_of_bind. eauto.
  - intros i Hi. rewrite <-(sh_heads _ _ Hs i Hi). unfold n_size.
    eapply same_but_ld32; [done|]. intros b Hb (x & Hx & Hxb).
    destruct (HF x Hx) as [s Hn].
    assert (Hhn : is_node H (nodelist nl i) 0) by (left; eauto).
    destruct (decide (x = nodelist nl i)) as [->|Hne]; [lia|].
    destruct (node_apart _ _ _ _ _ _ Hs Hn Hhn Hne); lia.
Qed.

(** ** Reading links through link writes *)

Lemma flink_set_flink m p v y : 0 ≤ v < 2 ^ 32 → y = p ∨ 16 ≤ Z.abs (y - p) →
  n_flink (set_nflink m p v) y = if decide (y = p) then v else n_flink m y.
Proof.
  intros Hv Hy. unfold n_flink, set_nflink. case_decide as E.
  - subst. ldst. by apply Z.mod_small.
  - by ldst.
Qed.
Lemma blink_set_blink m p v y : 0 ≤ v < 2 ^ 32 → y = p ∨ 16 ≤ Z.abs (y - p) →
  n_blink (set_nblink m p v) y = if decide (y = p) then v else n_blink m y.
Proof.
  intros Hv Hy. unfold n_blink, set_nblink. case_decide as E.
  - subst. ldst. by apply Z.mod_small.
  - by ldst.
Qed.
Lemma flink_set_blink m p v y : y = p ∨ 16 ≤ Z.abs (y - p) →
  n_flink (set_nblink m p v) y = n_flink m y.
Proof. intros Hy. unfold n_flink, set_nblink. by ldst. Qed.
Lemma blink_set_flink m p v y : y = p ∨ 16 ≤ Z.abs (y - p) →
  n_blink (set_nflink m p v) y = n_blink m y.
Proof. intros Hy. unfold n_blink, set_nflink. by ldst. Qed.

Lemma same_links_flink F m p v : p ∈ F → same_but (in_links F) m (set_nflink m p v).
Proof. intros Hp. apply same_but_st32. intros b Hb. exists p. split; [done|lia]. Qed.
Lemma same_links_blink F m p v : p ∈ F → same_but (in_links F) m (set_nblink m p v).
Proof. intros Hp. apply same_but_st32. intros b Hb. exists p. split; [done|lia]. Qed.

(** The nodes [F] are far enough apart for their links. *)
Definition sep (F : list Z) : Prop :=
  ∀ x y, x ∈ F → y ∈ F → y = x ∨ 16 ≤ Z.abs (y - x).

Lemma nodes_sep m H F : shape m H → nodes H F → sep F.
Proof.
  intros Hs HF x y [s Hx]%HF [t Hy]%HF.
  destruct (decide (y = x)); [by left|right].
  destruct (node_apart _ _ _ _ _ _ Hs Hx Hy); lia.
Qed.

(** ** Unlinking a free chunk *)

Lemma mm_unlink_dll m f1 x f2 :
  sep (f1 ++ x :: f2) → NoDup (f1 ++ x :: f2) →
  (∀ y, y ∈ f1 ++ x :: f2 → 0 < y < 2 ^ 32) → f1 ≠ [] →
  dll (n_flink m) (n_blink m) (f1 ++ x :: f2) →
  dll (n_flink (mm_unlink m x)) (n_blink (mm_unlink m x)) (f1 ++ f2) ∧
  same_but (in_links (f1 ++ x :: f2)) m (mm_unlink m x).
Proof.
  intros Hsep Hnd Hpos Hne Hd.
  pose proof (dll_next _ _ _ _ _ Hd) as Hn. pose proof (dll_prev _ _ _ _ _ Hd) as Hp.
  destruct (last f1) as [p|] eqn:El; [|by apply last_None in El]. simpl in Hp.
  assert (Hpf : p ∈ f1) by by apply last_Some_elem_of.
  pose proof Hnd as [Hx Hnd']%NoDup_mid.
  assert (Hpx : p ≠ x) by (intros ->; apply Hx; in_list).
  assert (Hr : 0 ≤ default 0 (head f2) < 2 ^ 32).
  { destruct f2 as [|n f2]; simpl; [lia|]. assert (0 < n < 2 ^ 32) by (apply Hpos; in_list). lia. }
  unfold mm_unlink. rewrite Hp, Hn.
  assert (Hsx : ∀ y, y ∈ f1 ++ x :: f2 → y = p ∨ 16 ≤ Z.abs (y - p)).
  { intros y Hy. apply Hsep; in_list. }
  assert (Hfx : n_flink (set_nflink m p (default 0 (head f2))) x = default 0 (head f2)).
  { rewrite flink_set_flink, decide_False by (done || apply Hsx; in_list). done. }
  assert (Hbx : n_blink (set_nflink m p (default 0 (head f2))) x = p).
  { rewrite blink_set_flink by (apply Hsx; in_list). done. }
  rewrite Hfx, Hbx. destruct f2 as [|n f2]; simpl.
  - split; [|apply same_links_flink; in_list].
    eapply dll_remove; [done|..|exact Hd].
    + intros y Hy Hy'. rewrite El in Hy'.
      rewrite flink_set_flink, decide_False; [done|congruence|lia|apply Hsx; in_list].
    + intros p' Hp'. rewrite El in Hp'. injection Hp' as <-.
      rewrite flink_set_flink, decide_True; [done|done|lia|by left].
    + intros y Hy _. apply blink_set_flink, Hsx. in_list.
    + done.
  - assert (Hn0 : 0 < n < 2 ^ 32) by (apply Hpos; in_list).
    rewrite (proj2 (Z.eqb_neq n 0)) by lia. simpl.
    assert (Hsn : ∀ y, y ∈ f1 ++ x :: n :: f2 → y = n ∨ 16 ≤ Z.abs (y - n)).
    { intros y Hy. apply Hsep; in_list. }
    assert (Hp0 : 0 < p < 2 ^ 32) by (apply Hpos; in_list).
    split.
    2:{ eapply same_but_trans; [apply same_links_flink|apply same_links_blink]; in_list. }
    eapply dll_remove; [done|..|exact Hd].
    + intros y Hy Hy'. rewrite El in Hy'.
      rewrite flink_set_blink, flink_set_flink, decide_False;
        [done|congruence|lia|apply Hsx; in_list|apply Hsn; in_list].
    + intros p' Hp'. rewrite El in Hp'. injection Hp' as <-.
      rewrite flink_set_blink, flink_set_flink, decide_True;
        [done|done|lia|by left|apply Hsn; in_list].
    + intros y Hy Hy'. rewrite blink_set_blink, decide_False;
        [|naive_solver|lia|apply Hsn; in_list].
      apply blink_set_flink, Hsx. in_list.
    + intros p' [= <-]. rewrite El, blink_set_blink, decide_True; [done|done|lia|by left].
Qed.
End Wf.
