(* ===== verification/MmOps.v ===== *)
(** The transformations of the heap the memory manager's operations are made of,
    on the invariant [wf] of MmInv.v: taking a free chunk out of the node list,
    adding one, and rewriting the headers of adjacent chunks. *)

From stdpp Require Import base numbers gmap sorting list.
From S2P Require Import Prelude Memory Mm MmInv.

Section Ops.
Context (nl : Z).
Implicit Types (H : list (Z * list chunk)) (fl fr : list (Z * Z)) (m : mem).
  Abbreviation wf := (wf nl).
  Abbreviation shape := (shape nl).
  Abbreviation is_node := (is_node nl).
  Abbreviation nodes := (nodes nl).
  Abbreviation key := (key nl).
  Abbreviation keyle := (keyle nl).
  Abbreviation heads := (heads nl).

#[local] Instance keyle_trans : Transitive keyle.
Proof. intros x y z. unfold MmInv.keyle. lia. Qed.

Lemma heads_nodup : NoDup (heads.*1).
Proof.
  unfold MmInv.heads. rewrite <-list_fmap_compose. apply NoDup_fmap_2_strong.
  - intros i j _ _. simpl. unfold nodelist, SIZEOF_MM_FREENODE. lia.
  - apply NoDup_seq.
Qed.

Lemma heads_fmap x : x ∈ heads.*1 ↔ ∃ i, 0 ≤ i < MM_NNODES ∧ x = nodelist nl i.
Proof.
  rewrite list_elem_of_fmap. split.
  - intros ([y s] & -> & (i & ? & -> & _)%elem_of_heads). eauto.
  - intros (i & ? & ->). exists (nodelist nl i, 0). split; [done|].
    apply elem_of_heads. eauto.
Qed.

Lemma wf_fl_nodup m H fl fr : wf m H fl fr → NoDup (fl.*1).
Proof.
  intros Hw. rewrite (wf_perm _ _ _ _ _ Hw), fmap_app. apply NoDup_app. split_and!.
  - apply heads_nodup.
  - intros x (i & Hi & ->)%heads_fmap ((y & s) & E & Hy)%list_elem_of_fmap. simpl in E.
    apply (wf_fr _ _ _ _ _ Hw) in Hy.
    pose proof (head_apart _ _ _ _ _ _ (wf_shape _ _ _ _ _ Hw) Hi Hy) as Ha.
    pose proof (chunk_bounds _ _ _ _ _ (wf_shape _ _ _ _ _ Hw) Hy).
    unfold apart in Ha. simpl in *. lia.
  - by eapply wf_nodup.
Qed.

Lemma wf_pos m H fl fr y : wf m H fl fr → y ∈ fl.*1 → 0 < y < 2 ^ 32.
Proof.
  intros Hw [s Hn]%(wf_nodes _ _ _ _ _ Hw).
  pose proof (node_bounds _ _ _ _ _ (wf_shape _ _ _ _ _ Hw) Hn). lia.
Qed.

Lemma wf_head_in m H fl fr i : wf m H fl fr → 0 ≤ i < MM_NNODES → (nodelist nl i, 0) ∈ fl.
Proof.
  intros Hw Hi. rewrite (wf_perm _ _ _ _ _ Hw), elem_of_app. left.
  apply elem_of_heads. eauto.
Qed.

Lemma key_head i : 0 ≤ i → key (nodelist nl i, 0) = 2 * 2 ^ (i + 4) - 1.
Proof.
  intros Hi. unfold MmInv.key, nodelist, SIZEOF_MM_FREENODE. simpl.
  replace (nl + 16 * i - nl) with (i * 16) by lia. by rewrite Z.div_mul by lia.
Qed.

Lemma key_chunk x s : 0 < s → key (x, s) = 2 * s.
Proof. intros Hs. unfold MmInv.key. simpl. by rewrite (proj2 (Z.eqb_neq s 0)) by lia. Qed.

(** Every free chunk has a predecessor in the node list. *)
Lemma wf_prev_nonempty m H f1 x s f2 fr :
  wf m H (f1 ++ (x, s) :: f2) fr → 0 < s → f1 ≠ [].
Proof.
  intros Hw Hs ->. simpl in *.
  assert (is_node H x s) as Hn by (eapply wf_node; [done|apply list_elem_of_here]).
  destruct (node_bounds _ _ _ _ _ (wf_shape _ _ _ _ _ Hw) Hn) as (_ & _ & _ & [->|?]); [lia|].
  assert (Hh : (nodelist nl 0, 0) ∈ (x, s) :: f2) by by eapply wf_head_in.
  apply elem_of_cons in Hh as [[= _ <-]|Hh]; [lia|].
  pose proof (wf_sorted _ _ _ _ _ Hw) as [Hall _]%StronglySorted_cons.
  rewrite Forall_forall in Hall. specialize (Hall _ Hh). unfold MmInv.keyle in Hall.
  rewrite key_head, key_chunk in Hall by lia. change (2 ^ (0 + 4)) with 16 in Hall. lia.
Qed.

(** ** Unlinking *)

Lemma wf_unlink m H fl fr fr' x s :
  wf m H fl fr → fr ≡ₚ (x, s) :: fr' →
  ∃ fl', wf (mm_unlink m x) H fl' fr' ∧ fl ≡ₚ (x, s) :: fl' ∧
    same_but (in_links (fl.*1)) m (mm_unlink m x).
Proof.
  intros Hw Hfr. pose proof (wf_shape _ _ _ _ _ Hw) as Hs.
  assert (Hx : (x, s) ∈ fr) by (rewrite Hfr; apply list_elem_of_here).
  assert (Hxc : (x, (s, false)) ∈ chunks_of H) by by eapply wf_fr.
  assert (Hxl : (x, s) ∈ fl).
  { rewrite (wf_perm _ _ _ _ _ Hw), elem_of_app. by right. }
  apply list_elem_of_split in Hxl as (f1 & f2 & ->).
  assert (f1 ≠ []).
  { eapply wf_prev_nonempty; [done|]. pose proof (chunk_bounds _ _ _ _ _ Hs Hxc). simpl in *. lia. }
  pose proof (wf_fl_nodup _ _ _ _ Hw) as Hnd. pose proof (wf_nodes _ _ _ _ _ Hw) as Hno.
  assert (Hpos : ∀ y, y ∈ (f1 ++ (x, s) :: f2).*1 → 0 < y < 2 ^ 32) by by intros; eapply wf_pos.
  assert (Hne : f1.*1 ≠ []) by (by destruct f1).
  pose proof (nodes_sep _ _ _ _ Hs Hno) as Hsep. pose proof (wf_dll _ _ _ _ _ Hw) as Hd.
  rewrite fmap_app, fmap_cons in *. simpl in *.
  destruct (mm_unlink_dll m (f1.*1) x (f2.*1)) as [Hd' Hsame]; [done..|].
  pose proof (shape_links _ _ _ _ _ Hno Hsame Hs) as Hs'.
  exists (f1 ++ f2). split_and!; [|by rewrite Permutation_middle|done].
  split; try apply Hs'.
  - by rewrite fmap_app.
  - pose proof (wf_sorted _ _ _ _ _ Hw) as (Hle & H1 & H2)%StronglySorted_app.
    apply StronglySorted_cons in H2 as [_ H2]. apply StronglySorted_app. split_and!; try done.
    intros y z Hy Hz. apply Hle; [done|]. by apply list_elem_of_further.
  - apply (Permutation_cons_inv (a := (x, s))). rewrite (Permutation_middle f1 f2 (x, s)).
    rewrite (wf_perm _ _ _ _ _ Hw), Hfr. by rewrite Permutation_middle.
  - intros y t Hy. eapply wf_fr; [exact Hw|]. rewrite Hfr. by apply list_elem_of_further.
  - pose proof (wf_nodup _ _ _ _ _ Hw) as Hn. rewrite Hfr in Hn. by apply NoDup_cons in Hn as [].
Qed.

(** ** Adding a free chunk *)

Lemma addfree_search_spec fuel m size p rest :
  chain (n_flink m) (p :: rest.*1) 0 →
  (∀ y t, (y, t) ∈ rest → n_size m y = t ∧ 0 < y) → (length rest ≤ fuel)%nat →
  ∃ k r, rest = k ++ r ∧
    addfree_search fuel m size p (default 0 (head (rest.*1))) =
      Some (default p (last (k.*1)), default 0 (head (r.*1))) ∧
    (∀ y t, (y, t) ∈ k → t ≠ 0 ∧ t < size) ∧
    (∀ y t, head r = Some (y, t) → t = 0 ∨ size ≤ t).
Proof.
  revert fuel p. induction rest as [|[y t] rest IH]; intros fuel p Hc Hsz Hf.
  { exists [], []. split_and!; [done|by destruct fuel|set_solver|done]. }
  destruct (Hsz y t) as [Hy Hy0]; [apply list_elem_of_here|].
  assert (Htest : ∀ b : bool, b = negb (y =? 0) && negb (n_size m y =? 0) && (n_size m y <? size) →
    b = true ∧ t ≠ 0 ∧ t < size ∨ b = false ∧ (t = 0 ∨ size ≤ t)).
  { intros b ->. rewrite Hy, (proj2 (Z.eqb_neq y 0)) by lia. simpl.
    destruct (Z.eqb_spec t 0), (Z.ltb_spec t size); simpl; auto. }
  destruct fuel as [|fuel]; [simpl in Hf; lia|]. 
  change (addfree_search (S fuel) m size p (default 0 (head (((y, t) :: rest).*1)))) with
    (if negb (y =? 0) && negb (n_size m y =? 0) && (n_size m y <? size)
     then addfree_search fuel m size y (n_flink m y) else Some (p, y)).
  destruct (Htest _ eq_refl) as [(-> & Ht)|[-> Ht]].
  - cbn [chain fmap list_fmap head fst] in Hc. destruct Hc as [_ Hc].
    pose proof Hc as [Hn _]. rewrite Hn.
    destruct (IH fuel y Hc) as (k & r & -> & E & Hk & Hr).
    { intros y' t' Hin. apply Hsz. by apply list_elem_of_further. }
    { simpl in Hf. lia. }
    exists ((y, t) :: k), r. split_and!; [done| | |done].
    + rewrite E. do 2 f_equal. rewrite fmap_cons. simpl.
      destruct (last (k.*1)) as [z|] eqn:El.
      * destruct (k.*1); [done|]. by rewrite last_cons_cons, El.
      * apply last_None in El. by rewrite El.
    + intros y' t' [[= -> ->]|Hin]%elem_of_cons; [done|]. by eapply Hk.
  - exists [], ((y, t) :: rest). split_and!; [done|done|set_solver|]. by intros y' t' [= <- <-].
Qed.

Lemma sorted_insert f1 f2 (x : Z * Z) :
  (∀ y, y ∈ f1 → keyle y x) → (∀ y, y ∈ f2 → keyle x y) →
  StronglySorted keyle (f1 ++ f2) → StronglySorted keyle (f1 ++ x :: f2).
Proof.
  intros H1 H2 (Hle & Hs1 & Hs2)%StronglySorted_app. apply StronglySorted_app.
  split_and!; [|done|].
  - intros y z Hy [->|Hz]%elem_of_cons; [by apply H1|by apply Hle].
  - apply StronglySorted_cons. split; [|done]. apply Forall_forall. apply H2.
Qed.

(** The four stores at the end of mm_addfreechunk. *)
Definition link_in m (prev node next : Z) : mem :=
  let m := set_nflink m prev node in
  let m := set_nblink m node prev in
  let m := set_nflink m node next in
  if negb (next =? 0) then set_nblink m next node else m.

Lemma link_in_dll m f1 f2 x p :
  sep (x :: f1 ++ f2) → NoDup (f1 ++ f2) → x ∉ f1 ++ f2 →
  (∀ y, y ∈ x :: f1 ++ f2 → 0 < y < 2 ^ 32) → last f1 = Some p →
  dll (n_flink m) (n_blink m) (f1 ++ f2) →
  let m' := link_in m p x (default 0 (head f2)) in
  dll (n_flink m') (n_blink m') (f1 ++ x :: f2) ∧
  same_but (in_links (x :: f1 ++ f2)) m m'.
Proof.
  intros Hsep Hnd Hx Hpos El Hd. simpl.
  assert (Hpf : p ∈ f1) by by apply last_Some_elem_of.
  assert (Hpx : p ≠ x) by (intros ->; apply Hx; in_list).
  assert (Hx0 : 0 < x < 2 ^ 32) by (apply Hpos; in_list).
  assert (Hp0 : 0 < p < 2 ^ 32) by (apply Hpos; in_list).
  assert (Hsx : ∀ y, y ∈ x :: f1 ++ f2 → y = x ∨ 16 ≤ Z.abs (y - x)).
  { intros y Hy. apply Hsep; in_list. }
  assert (Hsp : ∀ y, y ∈ x :: f1 ++ f2 → y = p ∨ 16 ≤ Z.abs (y - p)).
  { intros y Hy. apply Hsep; in_list. }
  assert (Hn : 0 ≤ default 0 (head f2) < 2 ^ 32 ∧
    ∀ n, head f2 = Some n → n ≠ 0 ∧ n ∈ f2 ∧ n ≠ x ∧
      ∀ y, y ∈ x :: f1 ++ f2 → y = n ∨ 16 ≤ Z.abs (y - n)).
  { destruct f2 as [|n f2]; simpl; [split; [lia|done]|].
    assert (0 < n < 2 ^ 32) by (apply Hpos; in_list). split; [lia|]. intros ? [= <-].
    split_and!; [lia|in_list|intros ->; apply Hx; in_list|]. intros y Hy. apply Hsep; in_list. }
  destruct Hn as [Hn0 Hn].
  set (nx := default 0 (head f2)) in *. unfold link_in.
  set (m3 := set_nflink (set_nblink (set_nflink m p x) x p) x nx).
  assert (Hf3 : ∀ y, y ∈ x :: f1 ++ f2 →
    n_flink m3 y = if decide (y = x) then nx else if decide (y = p) then x else n_flink m y).
  { intros y Hy. unfold m3. rewrite flink_set_flink by (lia || by apply Hsx).
    case_decide; [done|]. rewrite flink_set_blink, flink_set_flink; [done|lia|..]; auto. }
  assert (Hb3 : ∀ y, y ∈ x :: f1 ++ f2 →
    n_blink m3 y = if decide (y = x) then p else n_blink m y).
  { intros y Hy. unfold m3. rewrite blink_set_flink by auto.
    rewrite blink_set_blink by (lia || by apply Hsx).
    case_decide; [done|]. rewrite blink_set_flink; [done|]. auto. }
  assert (Hs3 : same_but (in_links (x :: f1 ++ f2)) m m3).
  { eapply same_but_trans; [|apply same_links_flink; in_list].
    eapply same_but_trans; [apply same_links_flink|apply same_links_blink]; in_list. }
  set (m' := if negb (nx =? 0) then set_nblink m3 nx x else m3).
  assert (Hf' : ∀ y, y ∈ x :: f1 ++ f2 → n_flink m' y = n_flink m3 y).
  { intros y Hy. unfold m'. case_match; [|done]. zb.
    destruct (head f2) as [n|] eqn:E; [|done]. apply flink_set_blink.
    destruct (Hn n eq_refl) as (_ & _ & _ & Hs). by apply Hs. }
  assert (Hb' : ∀ y, y ∈ x :: f1 ++ f2 →
    n_blink m' y = if decide (head f2 = Some y) then x else n_blink m3 y).
  { intros y Hy. unfold m'. destruct (head f2) as [n|] eqn:E; simpl in nx.
    - destruct (Hn n eq_refl) as (? & ? & ? & Hs). unfold nx.
      rewrite (proj2 (Z.eqb_neq n 0)) by done. cbn [negb]. rewrite blink_set_blink by (lia || auto).
      repeat case_decide; congruence.
    - rewrite decide_False; done. }
  split.
  - apply (dll_insert (n_flink m) (n_blink m)); [done|..|done].
    + intros y Hy Hne. rewrite Hf', Hf3 by in_list.
      rewrite decide_False by (intros ->; done). by rewrite decide_False by congruence.
    + intros q Hq. rewrite El in Hq. injection Hq as <-.
      rewrite Hf', Hf3 by in_list. by rewrite decide_False, decide_True.
    + rewrite Hf', Hf3 by in_list. by rewrite decide_True.
    + intros y Hy Hne. rewrite Hb', Hb3 by in_list.
      rewrite decide_False by done. by rewrite decide_False by (intros ->; done).
    + intros n Hh. destruct (Hn n Hh) as (_ & ? & _ & _).
      rewrite Hb' by in_list. by rewrite decide_True.
    + rewrite Hb', Hb3 by in_list. rewrite El.
      rewrite decide_False by (intros E; destruct (Hn _ E); naive_solver).
      by rewrite decide_True.
  - eapply same_but_trans; [exact Hs3|]. unfold m'. case_match; [|apply same_but_refl].
    destruct (head f2) as [n|] eqn:E; [|done]. destruct (Hn n eq_refl) as (_ & ? & _ & _).
    apply same_links_blink. unfold nx. simpl. in_list.
Qed.

(** A node inserted after everything smaller in its bucket keeps the list in
    order. *)
Lemma addfree_sorted m H f0 k r fr x s :
  wf m H (f0 ++ (nodelist nl (mm_size2ndx s), 0) :: k ++ r) fr → 16 ≤ s →
  (∀ y t, (y, t) ∈ k → t ≠ 0 ∧ t < s) →
  (∀ y t, head r = Some (y, t) → t = 0 ∨ s ≤ t) →
  StronglySorted keyle ((f0 ++ (nodelist nl (mm_size2ndx s), 0) :: k) ++ (x, s) :: r).
Proof.
  intros Hw Hs16 Hk Hr. destruct (mm_size2ndx_range s Hs16) as (Hi & Hlo & Hhi).
  set (i := mm_size2ndx s) in *. pose proof (wf_sorted _ _ _ _ _ Hw) as Hsort.
  pose proof (key_chunk x s ltac:(lia)) as Hkx.
  pose proof (key_head i ltac:(lia)) as Hki.
  assert (Hh : keyle (nodelist nl i, 0) (x, s)) by (unfold MmInv.keyle; lia).
  apply sorted_insert; [..|by rewrite <-app_assoc].
  - intros y [Hy|[->|Hy]%elem_of_cons]%elem_of_app; [|done|].
    + etrans; [|exact Hh]. apply StronglySorted_app in Hsort as (Hle & _).
      apply Hle; [done|apply list_elem_of_here].
    + destruct y as [y t]. destruct (Hk y t Hy) as [Ht0 Ht].
      assert (is_node H y t) as Hn by (eapply wf_node; [done|in_list]).
      destruct (node_bounds _ _ _ _ _ (wf_shape _ _ _ _ _ Hw) Hn) as (_ & _ & _ & [->|?]); [done|].
      unfold MmInv.keyle. rewrite Hkx, key_chunk by lia. lia.
  - rewrite app_comm_cons, app_assoc in Hsort.
    apply StronglySorted_app in Hsort as (Hle & _ & Hsr).
    destruct r as [|[y t] r]; [set_solver|].
    assert (Hxy : keyle (x, s) (y, t)).
    { assert (is_node H y t) as Hn by (eapply wf_node; [done|in_list]).
      destruct (node_bounds _ _ _ _ _ (wf_shape _ _ _ _ _ Hw) Hn) as (_ & _ & _ & [->|?]).
      2:{ destruct (Hr y t eq_refl) as [->|?]; [lia|].
          unfold MmInv.keyle. rewrite Hkx, key_chunk by lia. lia. }
      destruct Hn as [(j & Hj & -> & _)|Hc].
      2:{ pose proof (chunk_bounds _ _ _ _ _ (wf_shape _ _ _ _ _ Hw) Hc). simpl in *. lia. }
      assert (i ≠ j).
      { intros <-. pose proof (wf_fl_nodup _ _ _ _ Hw) as Hnd.
        rewrite fmap_app, fmap_cons in Hnd. apply NoDup_mid in Hnd as [Hnd _].
        apply Hnd. rewrite !fmap_app, fmap_cons. simpl. in_list. }
      assert (Hij : keyle (nodelist nl i, 0) (nodelist nl j, 0)).
      { apply Hle; [in_list|apply list_elem_of_here]. }
      unfold MmInv.keyle in *. rewrite Hki, key_head in * by lia. rewrite Hkx.
      assert (2 ^ (i + 4) ≤ 2 ^ (j + 4)) as Hp%Z.pow_le_mono_r_iff by lia; [|lia..].
      change MM_NNODES with 19 in *.
      assert (2 ^ (i + 5) ≤ 2 ^ (j + 4)) by (apply Z.pow_le_mono_r; lia). lia. }
    intros z [->|Hz]%elem_of_cons; [done|]. etrans; [exact Hxy|].
    apply StronglySorted_cons in Hsr as [Hsr _]. by eapply Forall_forall in Hsr.
Qed.

Lemma wf_addfree fuel m H fl fr x s :
  wf m H fl fr → (x, (s, false)) ∈ chunks_of H → x ∉ fr.*1 → (length fl ≤ fuel)%nat →
  ∃ m' fl', mm_addfreechunk nl fuel m x = Some m' ∧ wf m' H fl' ((x, s) :: fr) ∧
    same_but (in_links (x :: fl.*1)) m m'.
Proof.
  intros Hw Hxc Hxf Hf. pose proof (wf_shape _ _ _ _ _ Hw) as Hs.
  destruct (chunk_bounds _ _ _ _ _ Hs Hxc) as (? & ? & ? & ? & [Hs16 _] & Hsz); [done|].
  simpl in Hsz, Hs16. unfold SIZEOF_MM_FREENODE in Hs16.
  destruct (mm_size2ndx_range s Hs16) as (Hi & _ & _).
  pose proof (wf_head_in _ _ _ _ _ Hw Hi) as (f0 & rest & ->)%list_elem_of_split.
  pose proof (wf_dll _ _ _ _ _ Hw) as Hd. rewrite fmap_app, fmap_cons in Hd. simpl in Hd.
  unfold mm_addfreechunk. rewrite Hsz, (dll_next _ _ _ _ _ Hd).
  pose proof Hd as [[_ Hc]%chain_app _].
  destruct (addfree_search_spec fuel m s _ _ Hc) as (k & r & -> & -> & Hk & Hr).
  { intros y t Hy.
    assert (is_node H y t) as Hn by (eapply wf_node; [done|in_list]).
    pose proof (node_bounds _ _ _ _ _ Hs Hn). lia. }
  { rewrite length_app in Hf. simpl in Hf. lia. }
  rewrite app_comm_cons, app_assoc in Hw |- *. clear Hd.
  pose proof (wf_dll _ _ _ _ _ Hw) as Hd. rewrite fmap_app in Hd.
  set (f1 := f0 ++ (nodelist nl (mm_size2ndx s), 0) :: k) in *.
  assert (El : last (f1.*1) = Some (default (nodelist nl (mm_size2ndx s)) (last (k.*1)))).
  { unfold f1. rewrite fmap_app, fmap_cons, last_app_cons. simpl.
    destruct (last (k.*1)) as [z|] eqn:El; simpl.
    - destruct (k.*1); [done|]. by rewrite last_cons_cons.
    - apply last_None in El. by rewrite El. }
  assert (Hno : nodes H (x :: (f1 ++ r).*1)).
  { intros y [->|Hy]%elem_of_cons; [exists s; by right|]. by eapply wf_nodes. }
  assert (Hxl : x ∉ (f1 ++ r).*1).
  { rewrite (wf_perm _ _ _ _ _ Hw), fmap_app. intros [(i & Hi' & ->)%heads_fmap|]%elem_of_app; [|done].
    pose proof (head_apart _ _ _ _ _ _ Hs Hi' Hxc) as Ha. unfold apart in Ha. simpl in *. lia. }
  assert (Hpos : ∀ y, y ∈ x :: (f1 ++ r).*1 → 0 < y < 2 ^ 32).
  { intros y [->|Hy]%elem_of_cons; [simpl in *; lia|by eapply wf_pos]. }
  pose proof (nodes_sep _ _ _ _ Hs Hno) as Hsep. pose proof (wf_fl_nodup _ _ _ _ Hw) as Hnd.
  rewrite fmap_app in Hsep, Hnd, Hpos, Hxl.
  destruct (link_in_dll _ _ _ _ _ Hsep Hnd Hxl Hpos El Hd) as [Hd' Hsame].
  exists (link_in m (default (nodelist nl (mm_size2ndx s)) (last (k.*1))) x (default 0 (head (r.*1)))).
  exists (f1 ++ (x, s) :: r). rewrite <-fmap_app in Hsame.
  split; [done|]. split; [|done].
  pose proof (shape_links _ _ _ _ _ Hno Hsame Hs) as Hs'.
  split; try apply Hs'.
  - by rewrite fmap_app, fmap_cons.
  - unfold f1. eapply addfree_sorted; [|done..]. unfold f1 in Hw. rewrite <-app_assoc in Hw. done.
  - rewrite <-!Permutation_middle. by rewrite (wf_perm _ _ _ _ _ Hw).
  - intros y t [[= -> ->]|Hy]%elem_of_cons; [done|by eapply wf_fr].
  - apply NoDup_cons. split; [done|]. by eapply wf_nodup.
Qed.

(** ** Rewriting the headers of adjacent chunks *)

Definition nextal (mid : list chunk) : bool :=
  match mid with [] => true | c :: _ => c.2 end.

Lemma full_split mid1 cs mid2 :
  full (mid1 ++ cs ++ mid2) = (GUARD :: mid1) ++ cs ++ (mid2 ++ [GUARD]).
Proof. unfold full. by rewrite <-!app_assoc. Qed.

Lemma region_ok_split m b mid1 cs mid2 :
  region_ok m (b, mid1 ++ cs ++ mid2) →
  let a := b + 8 + tot mid1 in
  0 < b ∧ 0 ≤ tot mid1 ∧ 0 ≤ tot cs ∧ 8 ≤ tot (mid2 ++ [GUARD]) ∧
  tot (full (mid1 ++ cs ++ mid2)) = 8 + tot mid1 + tot cs + tot (mid2 ++ [GUARD]) ∧
  a + tot cs + tot (mid2 ++ [GUARD]) ≤ 2 ^ 32 ∧
  8 + tot mid1 + tot cs + tot (mid2 ++ [GUARD]) < 2 ^ 31 ∧ (8 | b) ∧
  Forall chunk_ok mid1 ∧ Forall chunk_ok cs ∧ Forall chunk_ok mid2 ∧
  region m b 0 (GUARD :: mid1) ∧ region m a (lastsize 8 mid1) cs ∧
  region m (a + tot cs) (lastsize (lastsize 8 mid1) cs) (mid2 ++ [GUARD]).
Proof.
  intros (? & ? & ? & ? & Hok & Hr). cbn [fst snd] in *.
  apply Forall_app in Hok as [Hok1 [Hok2 Hok3]%Forall_app].
  assert (Hnn : ∀ l, Forall chunk_ok l → 0 ≤ tot l).
  { intros l Hl. apply tot_nonneg. eapply Forall_impl; [exact Hl|].
    intros c [? _]. unfold SIZEOF_MM_FREENODE in *. lia. }
  pose proof (Hnn _ Hok1). pose proof (Hnn _ Hok2). pose proof (Hnn _ Hok3).
  rewrite full_split in *. rewrite !region_app in Hr. rewrite !tot_app in *.
  change (tot (GUARD :: mid1)) with (8 + tot mid1) in *.
  change (tot [GUARD]) with 8 in *. rewrite lastsize_cons in Hr. cbn [fst snd GUARD] in Hr.
  change SIZEOF_MM_ALLOCNODE with 8 in Hr. destruct Hr as (Hr1 & Hr2 & Hr3 & Hr4).
  replace (b + (8 + tot mid1)) with (b + 8 + tot mid1) in * by lia.
  split_and!; try done; try lia. by apply region_app.
Qed.

(** A chunk of the heap is outside the span, or one of its chunks. *)
Lemma span_cases m H1 b mid1 old mid2 H2 new x c :
  shape m (H1 ++ (b, mid1 ++ old ++ mid2) :: H2) → tot new = tot old →
  (x, c) ∈ chunks_of (H1 ++ (b, mid1 ++ old ++ mid2) :: H2) →
  let a := b + 8 + tot mid1 in
  let e := a + tot old in
  (x, c) ∈ caddrs a old ∧ a ≤ x ∧ x + c.1 ≤ e ∨
  (x, c) ∈ chunks_of (H1 ++ (b, mid1 ++ new ++ mid2) :: H2) ∧ (x + c.1 ≤ a ∨ e ≤ x).
Proof.
  intros Hs Hnew Hx. simpl.
  assert (region_ok m (b, mid1 ++ old ++ mid2)) as Hok.
  { eapply Forall_forall; [by eapply sh_regions|in_list]. }
  pose proof (region_ok_split _ _ _ _ _ Hok) as Hsp. simpl in Hsp.
  destruct Hsp as (? & ? & ? & ? & Htot & ? & ? & ? & Hok1 & Hok2 & Hok3 & _).
  unfold chunks_of in *. rewrite bind_app, bind_cons in Hx |- *. cbn [fst snd] in *.
  rewrite !elem_of_app in *. rewrite !full_split in *.
  assert (Hg : Forall (λ c : chunk, 0 ≤ c.1) (mid2 ++ [GUARD])).
  { apply Forall_app. split; [|by apply Forall_singleton]. eapply Forall_impl; [exact Hok3|].
    intros d [? _]. unfold SIZEOF_MM_FREENODE in *. lia. }
  set (post := mid2 ++ [GUARD]) in *.
  rewrite !caddrs_app in Hx |- *. rewrite !elem_of_app in *. change (tot (GUARD :: mid1)) with (8 + tot mid1) in *.
  replace (b + (8 + tot mid1)) with (b + 8 + tot mid1) in * by lia. rewrite Hnew.
  assert (Hother : ∀ r, r ∈ H1 ++ H2 → (x, c) ∈ caddrs r.1 (full r.2) →
    x + c.1 ≤ b ∨ b + 8 + tot mid1 + tot old ≤ x).
  { intros r Hr Hxr. pose proof (sh_disj _ _ _ Hs) as [_ Hd]. rewrite fmap_app, fmap_cons in Hd.
    pose proof (disj_elem _ _ _ (extent r) Hd) as Hap.
    assert (region_ok m r) as (_ & _ & _ & _ & Hokr & _).
    { eapply Forall_forall; [by eapply sh_regions|in_list]. }
    pose proof (caddrs_bounds _ _ _ _ (full_nonneg _ Hokr) Hxr).
    rewrite <-fmap_app in Hap. specialize (Hap (list_elem_of_fmap_2 _ _ _ Hr)).
    unfold apart, extent in Hap. cbn [fst snd] in Hap. rewrite full_split in Hap. fold post in Hap. lia. }
  assert (Hnn : ∀ l, Forall chunk_ok l → Forall (λ c, 0 ≤ c.1) l).
  { intros l Hl. eapply Forall_impl; [exact Hl|].
    intros d [? _]. unfold SIZEOF_MM_FREENODE in *. lia. }
  destruct Hx as [Hx|[[Hx|[Hx|Hx]]|Hx]].
  - right. split; [tauto|]. apply list_elem_of_bind in Hx as (r & Hxr & Hr).
    destruct (Hother r); [in_list|done|lia|lia].
  - right. split; [tauto|]. left.
    assert (Hg1 : Forall (λ c : chunk, 0 ≤ c.1) (GUARD :: mid1)) by (apply Forall_cons; split; [done|by apply Hnn]).
    pose proof (caddrs_bounds _ _ _ _ Hg1 Hx) as Hb.
    change (tot (GUARD :: mid1)) with (8 + tot mid1) in Hb. lia.
  - left. pose proof (caddrs_bounds _ _ _ _ (Hnn _ Hok2) Hx). split_and!; [done|lia..].
  - right. split; [tauto|]. right.
    pose proof (caddrs_bounds _ _ _ _ Hg Hx). lia.
  - right. split; [tauto|]. apply list_elem_of_bind in Hx as (r & Hxr & Hr).
    destruct (Hother r); [in_list|done|lia|lia].
Qed.

Lemma region_post_frame m m' e p p' mid2 :
  Forall chunk_ok mid2 → region m e p (mid2 ++ [GUARD]) →
  (∀ x, e ≤ x → (x < e + 4 ∨ e + 8 ≤ x) → getb m' x = getb m x) →
  n_preceding m' e = p' + flag (nextal mid2) →
  region m' e p' (mid2 ++ [GUARD]).
Proof.
  intros Hok Hr Hsame Hp.
  assert (Hsz : n_size m' e = n_size m e).
  { unfold n_size. eapply (same_but_ld32 (λ x, x < e ∨ e + 4 ≤ x < e + 8)); [|lia].
    intros x Hx. apply Hsame; lia. }
  assert (Hrest : ∀ s cs, 8 ≤ s → Forall (λ c, 8 ≤ c.1) cs →
            region m (e + s) s cs → region m' (e + s) s cs).
  { intros s cs Hs Hcs Hrs. eapply region_frame; [|exact Hrs]. intros x c Hx.
    assert (Hnn : Forall (λ c : chunk, 0 ≤ c.1) cs).
    { eapply Forall_impl; [exact Hcs|]. simpl. lia. }
    pose proof (caddrs_bounds _ _ _ _ Hnn Hx).
    split; eapply (same_but_ld32 (λ x, x < e + 8)); try lia; intros y Hy; apply Hsame; lia. }
  assert (Hok' : Forall (λ c, 8 ≤ c.1) (mid2 ++ [GUARD])).
  { apply Forall_app. split; [|by apply Forall_singleton]. eapply Forall_impl; [exact Hok|].
    intros c [? _]. unfold SIZEOF_MM_FREENODE in *. lia. }
  destruct mid2 as [|[s al] mid2]; simpl in *.
  - destruct Hr as (H1 & _ & _). split_and!; [congruence|done|done].
  - destruct Hr as (H1 & _ & Hr). apply Forall_cons in Hok' as [? ?].
    split_and!; [congruence|done|]. by apply Hrest.
Qed.

Lemma wf_rewrite m m' H1 b mid1 old new mid2 H2 fl fr :
  let a := b + 8 + tot mid1 in
  let e := a + tot old in
  wf m (H1 ++ (b, mid1 ++ old ++ mid2) :: H2) fl fr →
  tot new = tot old → Forall chunk_ok new →
  (∀ x s, (x, s) ∈ fr → x < a ∨ e ≤ x) →
  region m' a (lastsize 8 mid1) new →
  n_preceding m' e = lastsize (lastsize 8 mid1) new + flag (nextal mid2) →
  same_but (λ x, a ≤ x < e ∨ e + 4 ≤ x < e + 8) m m' →
  wf m' (H1 ++ (b, mid1 ++ new ++ mid2) :: H2) fl fr.
Proof.
  intros a e Hw Hnew Hokn Hfr Hrn Hpn Hsame. pose proof (wf_shape _ _ _ _ _ Hw) as Hs.
  assert (region_ok m (b, mid1 ++ old ++ mid2)) as Hok.
  { eapply Forall_forall; [by eapply sh_regions|in_list]. }
  pose proof (region_ok_split _ _ _ _ _ Hok) as Hsp. simpl in Hsp. fold a e in Hsp.
  destruct Hsp as (? & ? & ? & ? & Htot & ? & ? & ? & Hok1 & Hok2 & Hok3 & Hr1 & Hr2 & Hr3).
  assert (Htn : tot (full (mid1 ++ new ++ mid2)) = tot (full (mid1 ++ old ++ mid2))).
  { rewrite !full_split, !tot_app. lia. }
  assert (Ha : a = b + 8 + tot mid1) by reflexivity.
  assert (He : e = a + tot old) by reflexivity.
  assert (Hlk : ∀ y, y ∈ fl.*1 → n_flink m' y = n_flink m y ∧ n_blink m' y = n_blink m y).
  { intros y ((y' & t) & -> & Hy)%list_elem_of_fmap. simpl.
    assert (Hap : y' + 16 ≤ a ∨ e ≤ y').
    { rewrite (wf_perm _ _ _ _ _ Hw) in Hy. apply elem_of_app in Hy as [Hy|Hy].
      - apply elem_of_heads in Hy as (i & Hi & -> & ->).
        pose proof (sh_disj _ _ _ Hs) as [Hd _]. rewrite Forall_forall in Hd.
        destruct (Hd (extent (b, mid1 ++ old ++ mid2))) as [Hlt|Hlt];
          [rewrite fmap_app, fmap_cons; in_list|..];
          unfold extent in Hlt; cbn [fst snd] in Hlt;
          unfold nodelist, SIZEOF_MM_FREENODE in *; change MM_NNODES with 19 in Hi; lia.
      - pose proof (Hfr _ _ Hy). apply (wf_fr _ _ _ _ _ Hw) in Hy.
        destruct (chunk_bounds _ _ _ _ _ Hs Hy) as (? & ? & ? & ? & [H16 _] & _); [done|].
        unfold SIZEOF_MM_FREENODE in H16. simpl in *.
        destruct (span_cases _ _ _ _ _ _ _ new _ _ Hs Hnew Hy) as [(_ & ? & ?)|[_ [?|?]]];
          simpl in *; unfold a, e in *; lia. }
    split; (eapply same_but_ld32; [exact Hsame|]); cbn beta; lia. }
  split.
  - by eapply wf_nl.
  - pose proof (sh_regions _ _ _ Hs) as Hrs. rewrite Forall_forall in Hrs.
    apply Forall_forall. intros r Hr. rewrite elem_of_app, elem_of_cons in Hr.
    assert (Hcase : r = (b, mid1 ++ new ++ mid2) ∨ r ∈ H1 ++ H2) by in_list.
    destruct Hcase as [->|Hin].
    + split_and!; cbn [fst snd]; rewrite ?Htn; try (by apply Hok).
      * rewrite !Forall_app in *. tauto.
      * rewrite full_split, (region_app _ _ _ (GUARD :: mid1)), (region_app _ _ _ new).
        change (tot (GUARD :: mid1)) with (8 + tot mid1). rewrite lastsize_cons, Hnew.
        replace (b + (8 + tot mid1)) with a by (unfold a; lia). fold e.
        cbn [fst GUARD]. change SIZEOF_MM_ALLOCNODE with 8.
        split_and!; [|done|].
        -- eapply region_frame; [|exact Hr1]. intros x c Hx.
           assert (Hg1 : Forall (λ c : chunk, 8 ≤ c.1) (GUARD :: mid1)).
           { apply Forall_cons. split; [done|]. eapply Forall_impl; [exact Hok1|].
             intros d [? _]. unfold SIZEOF_MM_FREENODE in *. lia. }
           assert (Hc8 : 8 ≤ c.1).
           { pose proof Hx as (c1 & c2 & E & _)%elem_of_caddrs. rewrite E in Hg1.
             apply Forall_app in Hg1 as [_ [? _]%Forall_cons]. done. }
           assert (Hg2 : Forall (λ c : chunk, 0 ≤ c.1) (GUARD :: mid1)).
           { eapply Forall_impl; [exact Hg1|]. simpl. lia. }
           pose proof (caddrs_bounds _ _ _ _ Hg2 Hx) as Hb.
           change (tot (GUARD :: mid1)) with (8 + tot mid1) in Hb.
           split; (eapply same_but_ld32; [exact Hsame|]); cbn beta; lia.
        -- eapply region_post_frame; [done|exact Hr3| |done].
           intros x Hx Hx'. apply Hsame. lia.
    + destruct (Hrs r) as (? & ? & ? & ? & Hokr & Hrr); [in_list|].
      split_and!; try done. eapply region_frame; [|exact Hrr]. intros x c Hx.
      pose proof (sh_disj _ _ _ Hs) as [_ Hd]. rewrite fmap_app, fmap_cons in Hd.
      pose proof (disj_elem _ _ _ (extent r) Hd) as Hap.
      rewrite <-fmap_app in Hap. specialize (Hap (list_elem_of_fmap_2 _ _ _ Hin)).
      unfold apart, extent in Hap. cbn [fst snd] in Hap.
      pose proof (caddrs_bounds _ _ _ _ (full_nonneg _ Hokr) Hx).
      destruct (caddrs_full_ok _ _ _ Hokr Hx) as [Hc8 _].
      split; (eapply same_but_ld32; [exact Hsame|]); cbn beta; lia.
  - pose proof (wf_disj _ _ _ _ _ Hw) as Hd. rewrite fmap_app, fmap_cons in *.
    unfold extent at 2. unfold extent at 2 in Hd. cbn [fst snd] in *. by rewrite Htn.
  - intros i Hi. rewrite <-(wf_heads _ _ _ _ _ Hw i Hi).
    eapply same_but_ld32; [exact Hsame|]. cbn beta.
    pose proof (sh_disj _ _ _ Hs) as [Hd _]. rewrite Forall_forall in Hd.
    destruct (Hd (extent (b, mid1 ++ old ++ mid2))) as [Hlt|Hlt];
      [rewrite fmap_app, fmap_cons; in_list|..];
      unfold extent in Hlt; cbn [fst snd] in Hlt;
      unfold nodelist, SIZEOF_MM_FREENODE in *; change MM_NNODES with 19 in Hi; lia.
  - pose proof (wf_dll _ _ _ _ _ Hw) as [Hf Hb]. split; (eapply chain_ext; [|eassumption]);
      intros y Hy; apply Hlk; [done|]. revert Hy. set_solver.
  - by eapply wf_sorted.
  - by eapply wf_perm.
  - intros x s Hx. pose proof (Hfr _ _ Hx) as Hout. apply (wf_fr _ _ _ _ _ Hw) in Hx.
    pose proof (chunk_bounds _ _ _ _ _ Hs Hx).
    destruct (span_cases _ _ _ _ _ _ _ new _ _ Hs Hnew Hx) as [(_ & ? & ?)|[? _]]; [|done].
    simpl in *. unfold a, e in *. lia.
  - by eapply wf_nodup.
Qed.
End Ops.
