(* ===== verification/MmSpec.v ===== *)
(** What malloc, free, mm_shrinkchunk, memalign, zalloc, calloc, realloc,
    mallinfo and mm_initialize do to a well-formed heap. *)

From stdpp Require Import base numbers gmap sorting list.
From S2P Require Import Prelude Memory Mm MmInv MmOps.

Section Spec.
Context (nl : Z).
Implicit Types (H : list (Z * list chunk)) (fl fr : list (Z * Z)) (m : mem).
Implicit Types (mid : list chunk).
  Abbreviation wf := (wf nl).
  Abbreviation shape := (shape nl).
  Abbreviation is_node := (is_node nl).
  Abbreviation nodes := (nodes nl).

(** ** Splitting the heap at a chunk *)

Definition free_of (c : Z * chunk) : option (Z * Z) :=
  if c.2.2 then None else Some (c.1, c.2.1).

Lemma frees_omap a cs : frees a cs = omap free_of (caddrs a cs).
Proof.
  revert a. induction cs as [|[s al] cs IH]; intros a; [done|].
  cbn [frees caddrs]. rewrite IH. by destruct al.
Qed.

Lemma frees_of_omap H : frees_of H = omap free_of (chunks_of H).
Proof.
  unfold frees_of, chunks_of. induction H as [|r H IH]; [done|].
  rewrite !bind_cons, omap_app, IH. by rewrite frees_omap.
Qed.

(** The chunks of the heap outside the span of [t] bytes after [mid1]. *)
Definition rest H1 b mid1 t mid2 H2 : list (Z * chunk) :=
  chunks_of H1 ++ caddrs b (GUARD :: mid1) ++
  caddrs (b + 8 + tot mid1 + t) (mid2 ++ [GUARD]) ++ chunks_of H2.

Lemma chunks_split H1 b mid1 cs mid2 H2 :
  chunks_of (H1 ++ (b, mid1 ++ cs ++ mid2) :: H2) ≡ₚ
  caddrs (b + 8 + tot mid1) cs ++ rest H1 b mid1 (tot cs) mid2 H2.
Proof.
  unfold rest, chunks_of. rewrite bind_app, bind_cons. cbn [fst snd].
  rewrite full_split, (caddrs_app _ (GUARD :: mid1)), (caddrs_app _ cs).
  change (tot (GUARD :: mid1)) with (8 + tot mid1).
  replace (b + (8 + tot mid1)) with (b + 8 + tot mid1) by lia. solve_Permutation.
Qed.

Lemma frees_split H1 b mid1 cs mid2 H2 :
  frees_of (H1 ++ (b, mid1 ++ cs ++ mid2) :: H2) ≡ₚ
  frees (b + 8 + tot mid1) cs ++ omap free_of (rest H1 b mid1 (tot cs) mid2 H2).
Proof. by rewrite frees_of_omap, chunks_split, omap_app, frees_omap. Qed.

(** A chunk that is not a guard sits between the guards of its region. *)
Lemma chunk_split m H x s al :
  shape m H → (x, (s, al)) ∈ chunks_of H → al = false ∨ 16 ≤ s →
  ∃ H1 b mid1 mid2 H2,
    H = H1 ++ (b, mid1 ++ [(s, al)] ++ mid2) :: H2 ∧ x = b + 8 + tot mid1.
Proof.
  intros Hs (H1 & [b mid] & H2 & -> & Hx)%elem_of_chunks Hng.
  apply elem_of_caddrs in Hx as (c1 & c2 & E & ->). cbn [fst snd] in *.
  assert ((s, al) ≠ GUARD) as Hg.
  { unfold GUARD, SIZEOF_MM_ALLOCNODE. intros [= -> ->]. destruct Hng; [done|lia]. }
  unfold full in E. destruct c1 as [|g c1]; [simpl in E; congruence|]. cbn [app] in E.
  pose proof (f_equal head E) as E1. apply (f_equal tail) in E. cbn [head tail] in E, E1.
  apply (inj Some) in E1 as <-.
  induction c2 as [|c2' c2 _] using rev_ind.
  { exfalso. apply app_inj_tail in E as [_ E]. done. }
  rewrite app_comm_cons, app_assoc in E. apply app_inj_tail in E as [-> _].
  exists H1, b, c1, c2, H2. split; [done|].
  change (tot (GUARD :: c1)) with (8 + tot c1). lia.
Qed.

Lemma wf_fr_perm m H fl fr fr' : fr ≡ₚ fr' → wf m H fl fr → wf m H fl fr'.
Proof.
  intros E [? ? ? ? ? ? Hp Hc Hn]. split; try done.
  - by rewrite <-E.
  - intros x s Hx. apply Hc. by rewrite E.
  - by rewrite <-E.
Qed.

(** Listed free chunks lie outside a chunk that is not listed. *)
Lemma span_free m H fl fr x s al :
  wf m H fl fr → (x, (s, al)) ∈ chunks_of H → x ∉ fr.*1 →
  ∀ y t, (y, t) ∈ fr → y < x ∨ x + s ≤ y.
Proof.
  intros Hw Hx Hn y t Hy. pose proof (wf_shape _ _ _ _ _ Hw) as Hs.
  assert (y ≠ x). { intros ->. apply Hn. by apply (list_elem_of_fmap_2 fst) in Hy. }
  apply (wf_fr _ _ _ _ _ Hw) in Hy. pose proof (chunk_bounds _ _ _ _ _ Hs Hy).
  destruct (chunk_apart _ _ _ _ _ _ _ Hs Hx Hy) as [[? _]|Hap]; [congruence|].
  unfold apart in Hap. simpl in *. lia.
Qed.

(** What the headers around a chunk hold. *)
Lemma chunk_headers m H1 b mid1 s al mid2 H2 :
  shape m (H1 ++ (b, mid1 ++ [(s, al)] ++ mid2) :: H2) →
  let x := b + 8 + tot mid1 in
  0 < b ∧ 0 ≤ tot mid1 ∧ 16 ≤ s < 2 ^ 31 ∧ (8 | s) ∧ x + s + 8 ≤ 2 ^ 32 ∧
  8 + tot mid1 + s + 8 < 2 ^ 31 ∧ 8 ≤ lastsize 8 mid1 < 2 ^ 31 ∧
  n_size m x = s ∧ n_preceding m x = lastsize 8 mid1 + flag al ∧
  n_preceding m (x + s) = s + flag (nextal mid2) ∧
  n_size m (x + s) = (match mid2 with [] => 8 | c :: _ => c.1 end) ∧ (8 | b).
Proof.
  intros Hs. simpl.
  assert (region_ok m (b, mid1 ++ [(s, al)] ++ mid2)) as Hok.
  { eapply Forall_forall; [by eapply sh_regions|in_list]. }
  pose proof (region_ok_split _ _ _ _ _ Hok) as Hsp. cbn zeta in Hsp.
  change (tot [(s, al)]) with (s + 0) in Hsp. rewrite Z.add_0_r in Hsp.
  destruct Hsp as (? & ? & ? & Hpost & ? & ? & ? & ? & Hok1 & Hok2 & Hok3 & Hr1 & Hr2 & Hr3).
  apply Forall_singleton in Hok2 as [H16 H8]. unfold SIZEOF_MM_FREENODE in H16.
  cbn [fst] in *. cbn [region] in Hr2. destruct Hr2 as (Hsz & Hpr & _).
  assert (Hls : 8 ≤ lastsize 8 mid1 < 2 ^ 31).
  { set (P := tot (mid2 ++ [GUARD])) in *.
    unfold lastsize. destruct (last mid1) as [[t al']|] eqn:El;
      [change (8 ≤ t < 2 ^ 31)|change (8 ≤ 8 < 2 ^ 31); lia].
    pose proof El as [k ->]%last_Some. apply Forall_app in Hok1 as [Hk [Ht _]%Forall_singleton].
    rewrite tot_app in *. change (tot [(t, al')]) with (t + 0) in *.
    assert (0 ≤ tot k).
    { apply tot_nonneg. eapply Forall_impl; [exact Hk|]. intros c [? _].
      unfold SIZEOF_MM_FREENODE in *. lia. }
    unfold SIZEOF_MM_FREENODE in Ht. cbn [fst] in *. lia. }
  split_and!; try done; try lia.
  - destruct mid2 as [|[t al'] mid2]; apply Hr3.
  - destruct mid2 as [|[t al'] mid2]; apply Hr3.
Qed.

(** ** Setting and clearing the allocation flag *)

Lemma wf_reflag m H1 b mid1 s al al' mid2 H2 fl fr :
  let x := b + 8 + tot mid1 in
  wf m (H1 ++ (b, mid1 ++ [(s, al)] ++ mid2) :: H2) fl fr → x ∉ fr.*1 →
  wf (set_preceding m x (lastsize 8 mid1 + flag al'))
     (H1 ++ (b, mid1 ++ [(s, al')] ++ mid2) :: H2) fl fr.
Proof.
  intros x Hw Hx. pose proof (wf_shape _ _ _ _ _ Hw) as Hs.
  pose proof (chunk_headers _ _ _ _ _ _ _ _ Hs) as Hh. cbn zeta in Hh. fold x in Hh.
  destruct Hh as (? & ? & ? & ? & ? & ? & ? & Hsz & _ & Hnp & _).
  assert (Hin : (x, (s, al)) ∈ chunks_of (H1 ++ (b, mid1 ++ [(s, al)] ++ mid2) :: H2)).
  { rewrite chunks_split. apply list_elem_of_here. }
  assert (0 ≤ flag al' ≤ 2 ^ 31) by by destruct al'.
  unfold set_preceding.
  assert (Ht : tot [(s, al)] = s ∧ tot [(s, al')] = s).
  { change (s + 0 = s ∧ s + 0 = s). lia. }
  destruct Ht as [Ht Ht'].
  eapply wf_rewrite; [exact Hw|by rewrite Ht, Ht'|..]; rewrite ?Ht; fold x.
  - apply Forall_singleton. split; [unfold SIZEOF_MM_FREENODE; simpl; lia|done].
  - by eapply span_free.
  - cbn [region]. unfold n_size, n_preceding in *. ldst.
    rewrite Z.mod_small by lia. by split_and!.
  - unfold n_preceding in *. rewrite ld32_st32_ne by lia. by rewrite Hnp.
  - apply same_but_st32. lia.
Qed.

(** ** Allocation from a free chunk *)

Definition taken (need s : Z) : list chunk :=
  if SIZEOF_MM_FREENODE <=? s - need then [(need, true); (s - need, false)] else [(s, true)].

Lemma tot_taken need s : tot (taken need s) = s.
Proof.
  unfold taken. case_match; [change (need + (s - need + 0) = s)|change (s + 0 = s)]; lia.
Qed.

Lemma tot1 s al : tot [(s, al)] = s.
Proof. change (s + 0 = s). lia. Qed.

Lemma frees_split1 H1 b mid1 s (al : bool) mid2 H2 :
  frees_of (H1 ++ (b, mid1 ++ [(s, al)] ++ mid2) :: H2) ≡ₚ
  (if al then [] else [(b + 8 + tot mid1, s)]) ++ omap free_of (rest H1 b mid1 s mid2 H2).
Proof. rewrite frees_split, tot1. cbn [frees]. by rewrite app_nil_r. Qed.

Lemma malloc_take_spec fuel m H1 b mid1 s mid2 H2 fl fr fr' need :
  let x := b + 8 + tot mid1 in
  wf m (H1 ++ (b, mid1 ++ [(s, false)] ++ mid2) :: H2) fl fr →
  fr ≡ₚ (x, s) :: fr' → 16 ≤ need ≤ s → (8 | need) → (length fl ≤ fuel)%nat →
  ∃ m' fl',
    malloc_take nl fuel m x need = Some (x + 8, m') ∧
    wf m' (H1 ++ (b, mid1 ++ taken need s ++ mid2) :: H2) fl' (frees x (taken need s) ++ fr') ∧
    same_but (λ z, in_links (fl.*1) z ∨ x ≤ z < x + s ∨ x + s + 4 ≤ z < x + s + 8) m m'.
Proof.
  intros x Hw Hfr Hneed H8 Hfuel.
  destruct (wf_unlink _ _ _ _ _ _ _ _ Hw Hfr) as (fl1 & Hw1 & Hfl & Hs1).
  assert (Hlen : length fl = S (length fl1)) by by rewrite Hfl.
  assert (Hxf : x ∉ fr'.*1).
  { pose proof (wf_nodup _ _ _ _ _ Hw) as Hn. rewrite Hfr in Hn. by apply NoDup_cons in Hn as []. }
  unfold malloc_take. set (m1 := mm_unlink m x) in *.
  pose proof (wf_shape _ _ _ _ _ Hw1) as Hsh1.
  pose proof (chunk_headers _ _ _ _ _ _ _ _ Hsh1) as Hh. cbn zeta in Hh. fold x in Hh.
  destruct Hh as (Hb0 & Htm & Hs31 & Hs8 & Hx32 & Ht31 & Hls & Hsz & Hpr & Hnp & _).
  rewrite Hsz. assert (Hw32 : w32 (s - need) = s - need) by (apply Z.mod_small; lia).
  rewrite Hw32.
  assert (Hin : (x, (s, false)) ∈ chunks_of (H1 ++ (b, mid1 ++ [(s, false)] ++ mid2) :: H2)).
  { rewrite chunks_split. apply list_elem_of_here. }
  unfold taken. unfold SIZEOF_MM_FREENODE.
  destruct (Z.leb_spec 16 (s - need)) as [Hrem|Hrem].
  - set (r := s - need) in *.
    set (m1' := set_size (set_preceding (set_size m1 (x + need) r) (x + need) need) x need).
    assert (E : n_preceding m1' (x + s) = s + flag (nextal mid2)).
    { unfold m1', set_size, set_preceding, n_preceding in *. by ldst. }
    fold m1'. rewrite E, alloc_bit_flag, lor_flag by lia.
    set (m2 := set_preceding m1' (x + s) (r + flag (nextal mid2))).
    assert (0 ≤ flag (nextal mid2) ≤ 2 ^ 31) by by destruct (nextal mid2).
    assert (Ht2 : tot [(need, false); (r, false)] = s).
    { change (need + (r + 0) = s). unfold r. lia. }
    assert (Hw2 : wf m2 (H1 ++ (b, mid1 ++ [(need, false); (r, false)] ++ mid2) :: H2) fl1 fr').
    { eapply wf_rewrite; [exact Hw1|by rewrite Ht2, tot1|..]; rewrite ?tot1; fold x.
      - repeat apply Forall_cons_2; [..|done]; (split; [unfold SIZEOF_MM_FREENODE; simpl; lia|]).
        + done.
        + simpl. unfold r. by apply Z.divide_sub_r.
      - by eapply span_free.
      - cbn [region]. change (flag false) with 0 in *. rewrite !Z.add_0_r in *.
        unfold m2, m1', set_size, set_preceding, n_size, n_preceding in *.
        ldst. rewrite !Z.mod_small by lia. by split_and!.
      - unfold m2, set_preceding, n_preceding. ldst. rewrite Z.mod_small by lia. done.
      - unfold m2, m1', set_size, set_preceding.
        repeat (eapply same_but_trans; [|apply same_but_st32; lia]). apply same_but_refl. }
    assert (Hin2 : (x + need, (r, false)) ∈
      chunks_of (H1 ++ (b, mid1 ++ [(need, false); (r, false)] ++ mid2) :: H2)).
    { rewrite chunks_split. fold x. cbn [caddrs fst app]. in_list. }
    destruct (wf_addfree nl fuel _ _ _ _ _ _ Hw2 Hin2) as (m3 & fl3 & E3 & Hw3 & Hs3).
    { intros ((y & t) & Ey & Hy)%list_elem_of_fmap. simpl in Ey. subst y.
      pose proof (span_free _ _ _ _ _ _ _ Hw1 Hin Hxf _ _ Hy). lia. }
    { lia. }
    rewrite E3. cbn [mbind option_bind].
    pose proof (wf_shape _ _ _ _ _ Hw3) as Hsh3.
    pose proof (chunk_headers m3 H1 b mid1 need false ((r, false) :: mid2) H2 Hsh3) as Hh.
    cbn zeta in Hh. fold x in Hh. destruct Hh as (_ & _ & _ & _ & _ & _ & _ & _ & Hpr3 & _).
    rewrite Hpr3, lor_flagged by lia.
    eexists _, fl3. split; [done|]. split.
    + cbn [frees app]. apply (wf_reflag m3 H1 b mid1 need false true ((r, false) :: mid2) H2); [done|].
      cbn [fmap list_fmap fst]. apply not_elem_of_cons. split; [lia|done].
    + unfold set_preceding. eapply same_but_trans; [|apply same_but_st32; lia].
      eapply same_but_trans; [eapply same_but_mono; [|exact Hs1]; cbn beta; tauto|].
      eapply same_but_trans with (m2 := m2).
      * unfold m2, m1', set_size, set_preceding.
        repeat (eapply same_but_trans; [|apply same_but_st32; lia]). apply same_but_refl.
      * eapply same_but_mono; [|exact Hs3]. intros z (y & Hy & Hz). cbn beta.
        apply elem_of_cons in Hy as [->|Hy]; [lia|]. left. exists y. split; [|done].
        rewrite Hfl. cbn [fmap list_fmap]. by apply list_elem_of_further.
  - cbn [mbind option_bind]. rewrite Hpr, lor_flagged by lia.
    eexists _, fl1. split; [done|]. split.
    + cbn [frees app]. by eapply wf_reflag.
    + unfold set_preceding. eapply same_but_trans; [|apply same_but_st32; lia].
      eapply same_but_mono; [|exact Hs1]. cbn beta. tauto.
Qed.

(** ** The heap invariant *)

Definition heap_bytes H : Z := foldr (λ r t, tot (full r.2) + t) 0 H.

(** The state describes the heap [H]: the headers and the node list are
    consistent, every free chunk is listed, no two free chunks are adjacent,
    and the globals hold the size and the ends of each region. *)
Record heap_inv (st : mm_state) H : Prop := {
  hi_wf : ∃ fl, wf (mm_mem st) H fl (frees_of H);
  hi_coalesced : Forall (λ r, coalesced r.2) H;
  hi_size : g_heapsize st = heap_bytes H;
  hi_size32 : heap_bytes H < 2 ^ 32;
  hi_n : g_nregions st = length H;
  hi_ends : ∀ i r, H !! i = Some r →
    g_heapstart st !! i = Some r.1 ∧ g_heapend st !! i = Some (r.1 + tot (full r.2) - 8);
}.

(** The caller may take the memory manager's semaphore. *)
Definition sem_ready (my_pid : Z) (st : mm_state) : Prop :=
  (g_holder st = my_pid ∧ 1 ≤ g_counts_held st) ∨
  (g_holder st = -1 ∧ g_counts_held st = 0 ∧ 0 < g_mm_semaphore st ∧ my_pid ≠ -1).

(** The semaphore is taken and given back. *)
Lemma take_give my_pid st : sem_ready my_pid st →
  ∃ st1, mm_takesemaphore my_pid st = Some st1 ∧ mm_mem st1 = mm_mem st ∧
    g_heapsize st1 = g_heapsize st ∧ (∀ m, mm_givesemaphore (with_mem st1 m) = with_mem st m).
Proof.
  unfold sem_ready. intros Hr. unfold mm_takesemaphore. destruct st as [m hs h1 h2 n sem hold cnt]; simpl in *.
  destruct Hr as [[-> Hc]|(-> & -> & Hs & Hp)].
  - rewrite Z.eqb_refl. eexists. split; [done|]. split; [done|]. split; [done|].
    intros m'. unfold mm_givesemaphore. simpl. rewrite (proj2 (Z.ltb_lt _ _)) by lia.
    unfold with_sem, with_mem. simpl. f_equal. lia.
  - rewrite (proj2 (Z.eqb_neq (-1) my_pid)) by lia. rewrite (proj2 (Z.ltb_lt 0 sem)) by lia.
    eexists. split; [done|]. split; [done|]. split; [done|]. intros m'.
    unfold mm_givesemaphore, with_sem, with_mem. simpl. f_equal. lia.
Qed.

Lemma frees_length a cs : Forall (λ c, 0 ≤ c.1 ∧ (c.2 = false → 16 ≤ c.1)) cs →
  16 * Z.of_nat (length (frees a cs)) ≤ tot cs.
Proof.
  intros Hf. revert a. induction Hf as [|[s al] cs [Hs Hal] _ IH]; intros a; [done|].
  cbn [frees]. change (tot ((s, al) :: cs)) with (s + tot cs).
  rewrite length_app. specialize (IH (a + s)).
  destruct al; simpl in *; [lia|]. specialize (Hal eq_refl). lia.
Qed.

Lemma frees_of_length m H : Forall (region_ok m) H →
  16 * Z.of_nat (length (frees_of H)) ≤ heap_bytes H.
Proof.
  induction 1 as [|r H Hr _ IH]; [done|]. unfold frees_of. rewrite bind_cons, length_app.
  cbn [heap_bytes foldr]. fold (frees_of H). fold (heap_bytes H).
  destruct Hr as (_ & _ & _ & _ & Hok & _).
  assert (16 * Z.of_nat (length (frees r.1 (full r.2))) ≤ tot (full r.2)); [|lia].
  apply frees_length. apply Forall_forall. intros c Hc.
  apply full_elem in Hc as [->|Hc]; [by split|].
  rewrite Forall_forall in Hok. destruct (Hok c Hc) as [H16 _].
  unfold SIZEOF_MM_FREENODE in H16. split; [lia|done].
Qed.

Lemma wf_fuel m H fl : wf m H fl (frees_of H) → (length fl ≤ mm_fuel (heap_bytes H))%nat.
Proof.
  intros Hw. rewrite (wf_perm _ _ _ _ _ Hw), length_app. unfold heads. rewrite length_fmap, length_seq.
  pose proof (frees_of_length m H (wf_regions _ _ _ _ _ Hw)). unfold mm_fuel.
  change SIZEOF_MM_FREENODE with 16. change MM_NNODES with 19.
  assert (Z.of_nat (length (frees_of H)) ≤ heap_bytes H / 16); [|lia].
  apply Z.div_le_lower_bound; lia.
Qed.

(** ** The search of malloc *)

Lemma malloc_search_spec fuel m size l :
  chain (n_flink m) (l.*1) 0 →
  (∀ y t, (y, t) ∈ l → n_size m y = t ∧ 0 < y) → (length l ≤ fuel)%nat →
  ∃ k r, l = k ++ r ∧
    malloc_search fuel m size (default 0 (head (l.*1))) = Some (default 0 (head (r.*1))) ∧
    (∀ y t, (y, t) ∈ k → t < size) ∧ (∀ y t, head r = Some (y, t) → size ≤ t).
Proof.
  revert fuel. induction l as [|[y t] l IH]; intros fuel Hc Hsz Hf.
  { exists [], []. split_and!; [done|by destruct fuel|set_solver|done]. }
  destruct (Hsz y t) as [Hy Hy0]; [apply list_elem_of_here|].
  destruct fuel as [|fuel]; [simpl in Hf; lia|].
  change (malloc_search (S fuel) m size (default 0 (head (((y, t) :: l).*1)))) with
    (if negb (y =? 0) && (n_size m y <? size)
     then malloc_search fuel m size (n_flink m y) else Some y).
  rewrite (proj2 (Z.eqb_neq y 0)) by lia. rewrite Hy. cbn [negb andb].
  destruct (Z.ltb_spec t size) as [Hlt|Hge].
  - cbn [chain fmap list_fmap fst] in Hc. destruct Hc as [Hn Hc]. rewrite Hn.
    destruct (IH fuel Hc) as (k & r & -> & E & Hk & Hr).
    { intros y' t' Hin. apply Hsz. by apply list_elem_of_further. }
    { simpl in Hf. lia. }
    exists ((y, t) :: k), r. split_and!; [done|done| |done].
    intros y' t' [[= -> ->]|Hin]%elem_of_cons; [done|]. by eapply Hk.
  - exists [], ((y, t) :: l). split_and!; [done|done|set_solver|]. by intros y' t' [= <- <-].
Qed.

(** What the search finds: nothing when no free chunk is large enough,
    otherwise a free chunk of the smallest sufficient size. *)
Lemma malloc_find m H fl need :
  wf m H fl (frees_of H) → 16 ≤ need →
  ∃ node, malloc_search (mm_fuel (heap_bytes H)) m need
            (n_flink m (nodelist nl (mm_size2ndx need))) = Some node ∧
    (node = 0 ∧ (∀ y t, (y, t) ∈ frees_of H → t < need) ∨
     node ≠ 0 ∧ ∃ s, (node, s) ∈ frees_of H ∧ need ≤ s ∧
       (∀ y t, (y, t) ∈ frees_of H → need ≤ t → s ≤ t)).
Proof.
  intros Hw Hneed. pose proof (wf_shape _ _ _ _ _ Hw) as Hs.
  destruct (mm_size2ndx_range need Hneed) as (Hi & Hlo & _).
  pose proof (wf_head_in _ _ _ _ _ _ Hw Hi) as Hh.
  pose proof (wf_fuel _ _ _ Hw) as Hfuel. pose proof (wf_sorted _ _ _ _ _ Hw) as Hsort.
  pose proof (wf_dll _ _ _ _ _ Hw) as Hd. pose proof (wf_perm _ _ _ _ _ Hw) as Hp.
  assert (Hnode : ∀ y t, (y, t) ∈ fl → is_node H y t) by by intros; eapply wf_node.
  apply list_elem_of_split in Hh as (f0 & l & ->).
  rewrite fmap_app, fmap_cons in Hd. simpl in Hd. rewrite (dll_next _ _ _ _ _ Hd).
  destruct Hd as [[_ [_ Hc]]%chain_app _].
  destruct (malloc_search_spec (mm_fuel (heap_bytes H)) m need l Hc) as (k & r & -> & -> & Hk & Hr).
  { intros y t Hy. pose proof (node_bounds _ _ _ _ _ Hs (Hnode y t ltac:(in_list))). lia. }
  { rewrite length_app in Hfuel. simpl in Hfuel. lia. }
  eexists. split; [reflexivity|].
(* a sufficient free chunk comes after the head and after [k] *)
  assert (Hin : ∀ y t, (y, t) ∈ frees_of H → need ≤ t → (y, t) ∈ r).
  { intros y t Hy Ht.
    assert (Hyl : (y, t) ∈ f0 ++ (nodelist nl (mm_size2ndx need), 0) :: k ++ r).
    { rewrite Hp. in_list. }
    rewrite !elem_of_app, elem_of_cons, elem_of_app in Hyl.
    destruct Hyl as [Hy0|[[= _ ->]|[Hy0|Hy0]]]; [|lia|apply Hk in Hy0; lia|done].
    apply StronglySorted_app in Hsort as (Hle & _).
    specialize (Hle _ _ Hy0 (list_elem_of_here _ _)). unfold keyle in Hle.
    rewrite key_head, key_chunk in Hle by lia. lia. }
  destruct r as [|[y t] r]; simpl.
  - left. split; [done|]. intros y t Hy.
    destruct (decide (t < need)); [done|]. exfalso. apply (not_elem_of_nil (y, t)).
    apply Hin; [done|lia].
  - right. assert (is_node H y t) as Hn by (apply Hnode; in_list).
    pose proof (node_bounds _ _ _ _ _ Hs Hn). split; [lia|].
    specialize (Hr y t eq_refl). exists t. split_and!; [|done|].
    + apply elem_of_frees_of. destruct Hn as [(i & _ & _ & ->)|]; [lia|done].
    + intros z u Hz Hu. specialize (Hin _ _ Hz Hu).
      apply elem_of_cons in Hin as [[= _ ->]|Hin]; [lia|].
      rewrite app_comm_cons, app_assoc in Hsort. apply StronglySorted_app in Hsort as (_ & _ & Hsr).
      apply StronglySorted_cons in Hsr as [Hall _]. rewrite Forall_forall in Hall.
      specialize (Hall _ Hin). unfold keyle in Hall. rewrite !key_chunk in Hall by lia. lia.
Qed.

(** ** Replacing the chunks of a region *)

Definition lastal (cs : list chunk) : bool := default true (snd <$> last cs).

Lemma coalesced_app c1 c2 :
  coalesced (c1 ++ c2) ↔
  coalesced c1 ∧ coalesced c2 ∧ (lastal c1 = true ∨ nextal c2 = true).
Proof.
  induction c1 as [|a c1 IH]; [simpl; naive_solver|].
  destruct c1 as [|b c1]; simpl in *.
  - destruct c2; simpl; unfold lastal; simpl; naive_solver.
  - rewrite IH. unfold lastal. rewrite last_cons_cons. naive_solver.
Qed.

Lemma coalesced_mid mid1 cs cs' mid2 :
  coalesced (mid1 ++ cs ++ mid2) → cs ≠ [] → cs' ≠ [] → coalesced cs' →
  lastal mid1 = true ∨ nextal cs' = true → lastal cs' = true ∨ nextal mid2 = true →
  coalesced (mid1 ++ cs' ++ mid2).
Proof.
  rewrite !coalesced_app. intros (H1 & (H2 & H3 & H4) & H5) Hne Hne' Hc Hl Hn.
  split_and!; try done. by destruct cs'.
Qed.

Lemma heap_bytes_extent H H' : extent <$> H' = extent <$> H → heap_bytes H' = heap_bytes H.
Proof.
  revert H'. induction H as [|r H IH]; intros [|r' H'] E; simplify_eq/=; [done|].
  unfold heap_bytes. cbn [foldr]. fold (heap_bytes H) (heap_bytes H'). rewrite IH; [lia|done].
Qed.

Lemma heap_inv_update st H H' m' fl :
  heap_inv st H → extent <$> H' = extent <$> H → wf m' H' fl (frees_of H') →
  Forall (λ r, coalesced r.2) H' → heap_inv (with_mem st m') H'.
Proof.
  intros Hi E Hw Hc. pose proof (heap_bytes_extent _ _ E) as Eb.
  split; simpl; [by exists fl|done|..]; rewrite ?Eb; try apply Hi.
  - rewrite (hi_n _ _ Hi). apply (f_equal length) in E. by rewrite !length_fmap in E.
  - intros i r' Hr'. assert (Hx : (extent <$> H) !! i = Some (extent r')).
    { rewrite <-E, list_lookup_fmap, Hr'. done. }
    rewrite list_lookup_fmap in Hx. destruct (H !! i) as [r|] eqn:Hr; [|done].
    apply (inj Some) in Hx. destruct (hi_ends _ _ Hi i r Hr) as [Ha Hb].
    pose proof (f_equal fst Hx) as E1. pose proof (f_equal snd Hx) as E2.
    unfold extent in E1, E2. cbn [fst snd] in E1, E2. by rewrite <-E1, <-E2.
Qed.

Lemma extent_mid H1 b mid mid' H2 : tot mid' = tot mid →
  extent <$> (H1 ++ (b, mid') :: H2) = extent <$> (H1 ++ (b, mid) :: H2).
Proof.
  intros E. rewrite !fmap_app, !fmap_cons. do 2 f_equal. unfold extent. f_equal.
  cbn [snd]. unfold full. change (8 + tot (mid' ++ [GUARD]) = 8 + tot (mid ++ [GUARD])).
  rewrite !tot_app. lia.
Qed.

Lemma coalesced_replace H1 b mid mid' H2 :
  Forall (λ r : Z * list chunk, coalesced r.2) (H1 ++ (b, mid) :: H2) → coalesced mid' →
  Forall (λ r : Z * list chunk, coalesced r.2) (H1 ++ (b, mid') :: H2).
Proof. rewrite !Forall_app, !Forall_cons. naive_solver. Qed.

(** ** User data *)

(** Writing links leaves the contents of allocated chunks alone. *)
Lemma links_payload m H F y t z :
  shape m H → nodes H F → (y, (t, true)) ∈ chunks_of H → y ≤ z < y + t → ¬ in_links F z.
Proof.
  intros Hs HF Hy Hz (x & Hx & Hxz). destruct (HF x Hx) as [s [(i & Hi & -> & _)|Hxc]].
  - pose proof (head_apart _ _ _ _ _ _ Hs Hi Hy) as Ha. unfold apart in Ha. simpl in *. lia.
  - destruct (chunk_apart _ _ _ _ _ _ _ Hs Hxc Hy) as [[-> [=]]|Ha].
    destruct (chunk_bounds _ _ _ _ _ Hs Hxc) as (_ & _ & _ & _ & [H16 _] & _); [done|].
    unfold apart, SIZEOF_MM_FREENODE in *. simpl in *. lia.
Qed.

(** The contents of the allocated chunks of [H] are kept from [m] to [m']. *)
Definition payload_kept H m m' : Prop :=
  ∀ y t z, (y, (t, true)) ∈ chunks_of H → y + 8 ≤ z < y + t → getb m' z = getb m z.

Lemma with_mem_id st : with_mem st (mm_mem st) = st.
Proof. by destruct st. Qed.

(** ** malloc *)

Lemma need_bounds size : 0 < size → size + 23 < 2 ^ 32 →
  MM_ALIGN_UP (w32 (size + SIZEOF_MM_ALLOCNODE)) = size + 23 - (size + 23) mod 16 ∧
  let need := size + 23 - (size + 23) mod 16 in
  16 ≤ need ∧ size + 8 ≤ need < size + 24 ∧ (16 | need) ∧ need < 2 ^ 32.
Proof.
  intros H0 H1. unfold w32, SIZEOF_MM_ALLOCNODE. rewrite Z.mod_small by lia.
  rewrite mm_align_up_eq by lia. replace (size + 8 + 15) with (size + 23) by lia.
  pose proof (Z.mod_pos_bound (size + 23) 16). split; [done|]. cbn zeta.
  assert (Hd : size + 23 - (size + 23) mod 16 = 16 * ((size + 23) / 16)).
  { pose proof (Z.div_mod (size + 23) 16). lia. }
  split_and!; try lia. rewrite Hd. by exists ((size + 23) / 16); lia.
Qed.

Lemma malloc_cases st H my_pid size :
  heap_inv st H → sem_ready my_pid st → 0 < size → size + 23 < 2 ^ 32 →
  let need := MM_ALIGN_UP (w32 (size + SIZEOF_MM_ALLOCNODE)) in
  (malloc nl my_pid size st = Some (0, st) ∧ ∀ y t, (y, t) ∈ frees_of H → t < need) ∨
  ∃ H1 b mid1 s mid2 H2 m',
    let x := b + 8 + tot mid1 in
    H = H1 ++ (b, mid1 ++ [(s, false)] ++ mid2) :: H2 ∧ need ≤ s ∧
    (∀ y t, (y, t) ∈ frees_of H → need ≤ t → s ≤ t) ∧
    malloc nl my_pid size st = Some (x + 8, with_mem st m') ∧
    heap_inv (with_mem st m') (H1 ++ (b, mid1 ++ taken need s ++ mid2) :: H2) ∧
    payload_kept H (mm_mem st) m'.
Proof.
  intros Hi Hsem H0 H1 need. destruct (need_bounds size H0 H1) as [En Hn]. cbn zeta in Hn.
  fold need in En. rewrite <-En in Hn. destruct Hn as (Hn16 & _ & Hn8 & Hn32).
  destruct (hi_wf _ _ Hi) as [fl Hw]. pose proof (wf_shape _ _ _ _ _ Hw) as Hs.
  destruct (take_give _ _ Hsem) as (st1 & Et & Em & Eh & Eg).
  destruct (malloc_find _ _ _ _ Hw Hn16) as (node & Ef & Hnode).
  assert (Endx : (if MM_MAX_CHUNK <=? need then MM_NNODES - 1 else mm_size2ndx need) =
                 mm_size2ndx need).
  { unfold mm_size2ndx. by destruct (MM_MAX_CHUNK <=? need). }
  unfold malloc. rewrite (proj2 (Z.leb_gt size 0)) by lia. fold need.
  rewrite Et. cbn [mbind option_bind]. rewrite Em, Eh, (hi_size _ _ Hi), Endx, Ef.
  cbn [mbind option_bind]. destruct Hnode as [[-> Hno]|(Hn0 & s & Hin & Hle & Hbest)].
  { left. simpl. rewrite Eg, with_mem_id. done. }
  right. rewrite (proj2 (Z.eqb_neq node 0)) by done. cbn [negb].
  pose proof Hin as Hin'%elem_of_frees_of.
  destruct (chunk_split _ _ _ _ _ Hs Hin' (or_introl eq_refl)) as (H1' & b & mid1 & mid2 & H2 & -> & ->).
  pose proof (frees_split1 H1' b mid1 s false mid2 H2) as Efr. 
  assert (Hd8 : (8 | need)) by (etrans; [by exists 2|exact Hn8]).
  destruct (malloc_take_spec (mm_fuel (heap_bytes (H1' ++ (b, mid1 ++ [(s, false)] ++ mid2) :: H2)))
    _ _ _ _ _ _ _ _ _ _ need Hw Efr) as (m' & fl' & E & Hw' & Hsame);
    [lia|done|by eapply wf_fuel|].
  rewrite E. cbn [mbind option_bind]. exists H1', b, mid1, s, mid2, H2, m'.
  split_and!; [done|done|done|by rewrite Eg| |].
  - eapply heap_inv_update; [exact Hi|..].
    + apply extent_mid. by rewrite !tot_app, tot_taken, tot1.
    + eapply wf_fr_perm; [|exact Hw']. rewrite frees_split, tot_taken. done.
    + pose proof (hi_coalesced _ _ Hi) as Hc.
      pose proof Hc as [_ [Hcm _]%Forall_cons]%Forall_app. cbn [snd] in Hcm.
      eapply coalesced_replace; [exact Hc|].
      pose proof Hcm as (_ & (_ & _ & Hl)%coalesced_app & _)%coalesced_app.
      destruct Hl as [Hl|Hl]; [done|].
      eapply coalesced_mid; [exact Hcm|done|..]; unfold taken;
        destruct (SIZEOF_MM_FREENODE <=? s - need); simpl; by auto.
  - intros y t z Hy Hz. apply Hsame. intros [Hl|Hl].
    + eapply links_payload; [exact Hs|by eapply wf_nodes|exact Hy| |exact Hl]. lia.
    + destruct (chunk_apart _ _ _ _ _ _ _ Hs Hin' Hy) as [[_ [=]]|Ha].
      unfold apart in Ha. simpl in *. lia.
Qed.

(** ** free *)

(** Two adjacent unlisted chunks become one. *)
Lemma wf_merge m H1 b mid1 s1 s2 mid2 H2 fl fr :
  let x := b + 8 + tot mid1 in
  wf m (H1 ++ (b, mid1 ++ [(s1, false); (s2, false)] ++ mid2) :: H2) fl fr →
  x ∉ fr.*1 → x + s1 ∉ fr.*1 →
  wf (set_preceding (set_size m x (s1 + s2)) (x + s1 + s2) (s1 + s2 + flag (nextal mid2)))
     (H1 ++ (b, mid1 ++ [(s1 + s2, false)] ++ mid2) :: H2) fl fr.
Proof.
  intros x Hw Hx1 Hx2. pose proof (wf_shape _ _ _ _ _ Hw) as Hs.
  pose proof (chunk_headers m H1 b mid1 s1 false ((s2, false) :: mid2) H2 Hs) as Hh.
  cbn zeta in Hh. fold x in Hh.
  destruct Hh as (? & ? & ? & ? & ? & ? & ? & Hsz & Hpr & _).
  assert (Hs2 : shape m (H1 ++ (b, (mid1 ++ [(s1, false)]) ++ [(s2, false)] ++ mid2) :: H2)).
  { by rewrite <-app_assoc. }
  pose proof (chunk_headers _ _ _ _ _ _ _ _ Hs2) as Hh. cbn zeta in Hh.
  rewrite tot_app, tot1 in Hh. replace (b + 8 + (tot mid1 + s1)) with (x + s1) in Hh by (unfold x; lia).
  destruct Hh as (_ & _ & ? & ? & ? & ? & _ & _ & _ & _ & _ & _).
  assert (Hin1 : (x, (s1, false)) ∈
    chunks_of (H1 ++ (b, mid1 ++ [(s1, false); (s2, false)] ++ mid2) :: H2)).
  { rewrite chunks_split. apply list_elem_of_here. }
  assert (Hin2 : (x + s1, (s2, false)) ∈
    chunks_of (H1 ++ (b, mid1 ++ [(s1, false); (s2, false)] ++ mid2) :: H2)).
  { rewrite chunks_split. fold x. cbn [caddrs fst app]. in_list. }
  assert (0 ≤ flag (nextal mid2) ≤ 2 ^ 31) by by destruct (nextal mid2).
  assert (Ht : tot [(s1, false); (s2, false)] = s1 + s2) by (change (s1 + (s2 + 0) = s1 + s2); lia).
  eapply wf_rewrite; [exact Hw|by rewrite Ht, tot1|..]; rewrite ?Ht; fold x; rewrite ?Z.add_assoc.
  - apply Forall_singleton. split; [unfold SIZEOF_MM_FREENODE; simpl; lia|].
    simpl. by apply Z.divide_add_r.
  - intros y t Hy. pose proof (span_free _ _ _ _ _ _ _ Hw Hin1 Hx1 _ _ Hy).
    pose proof (span_free _ _ _ _ _ _ _ Hw Hin2 Hx2 _ _ Hy). lia.
  - cbn [region]. unfold set_size, set_preceding, n_size, n_preceding in *. ldst.
    rewrite Z.mod_small by lia. by split_and!.
  - unfold set_size, set_preceding, n_preceding. ldst. rewrite Z.mod_small by lia. done.
  - unfold set_size, set_preceding.
    repeat (eapply same_but_trans; [|apply same_but_st32; lia]). apply same_but_refl.
Qed.

(** The bytes an operation on the chunk at [x] may write. *)
Definition touched fl (x s z : Z) : Prop :=
  in_links (fl.*1) z ∨ x ≤ z < x + s ∨ x + s + 4 ≤ z < x + s + 8.

Lemma merge_next_spec m H1 b mid1 s mid2 H2 fl fr :
  let x := b + 8 + tot mid1 in
  wf m (H1 ++ (b, mid1 ++ [(s, false)] ++ mid2) :: H2) fl fr →
  x ∉ fr.*1 → fr ≡ₚ omap free_of (rest H1 b mid1 s mid2 H2) → coalesced mid2 →
  ∃ m' fl' fr' s' mid2',
    free_merge_next m x = (m', x + s') ∧
    wf m' (H1 ++ (b, mid1 ++ [(s', false)] ++ mid2') :: H2) fl' fr' ∧
    x ∉ fr'.*1 ∧ fr' ≡ₚ omap free_of (rest H1 b mid1 s' mid2' H2) ∧
    nextal mid2' = true ∧ coalesced mid2' ∧ s' + tot mid2' = s + tot mid2 ∧ s ≤ s' ∧
    same_but (touched fl x s') m m' ∧ (∀ y, y ∈ fl'.*1 → y ∈ fl.*1) ∧
    (∀ y t, (y, (t, true)) ∈ rest H1 b mid1 s' mid2' H2 ↔
            (y, (t, true)) ∈ rest H1 b mid1 s mid2 H2).
Proof.
  intros x Hw Hx Hfr Hc. pose proof (wf_shape _ _ _ _ _ Hw) as Hs.
  pose proof (chunk_headers _ _ _ _ _ _ _ _ Hs) as Hh. cbn zeta in Hh. fold x in Hh.
  destruct Hh as (? & ? & ? & ? & ? & ? & ? & Hsz & Hpr & Hnp & Hnsz & _).
  unfold free_merge_next. rewrite Hsz, Hnp, alloc_bit_flag, flag_zero by lia.
  destruct (nextal mid2) eqn:Hna; cbn [negb].
  { exists m, fl, fr, s, mid2. split_and!; done. }
  destruct mid2 as [|[s2 al] mid2]; [done|]. simpl in Hna, Hnsz. subst al. rewrite Hnsz.
  assert (Hs2 : shape m (H1 ++ (b, (mid1 ++ [(s, false)]) ++ [(s2, false)] ++ mid2) :: H2)).
  { by rewrite <-app_assoc. }
  pose proof (chunk_headers _ _ _ _ _ _ _ _ Hs2) as Hh. cbn zeta in Hh.
  rewrite tot_app, tot1 in Hh. replace (b + 8 + (tot mid1 + s)) with (x + s) in Hh by (unfold x; lia).
  destruct Hh as (_ & _ & ? & ? & ? & ? & _ & _ & _ & Hnp2 & _ & _).
  assert (Erest : rest H1 b mid1 s ((s2, false) :: mid2) H2 ≡ₚ
                  (x + s, (s2, false)) :: rest H1 b mid1 (s + s2) mid2 H2).
  { unfold rest. fold x. cbn [app caddrs fst]. rewrite Z.add_assoc. solve_Permutation. }
  assert (Hfr2 : fr ≡ₚ (x + s, s2) :: omap free_of (rest H1 b mid1 (s + s2) mid2 H2)).
  { rewrite Hfr, Erest. done. }
  destruct (wf_unlink _ _ _ _ _ _ _ _ Hw Hfr2) as (fl1 & Hw1 & Hfl & Hs1).
  set (fr1 := omap free_of (rest H1 b mid1 (s + s2) mid2 H2)) in *.
  set (m1 := mm_unlink m (x + s)) in *. pose proof (wf_shape _ _ _ _ _ Hw1) as Hsh1.
  assert (Hno : nodes (H1 ++ (b, mid1 ++ [(s, false)] ++ (s2, false) :: mid2) :: H2) (fl.*1)) by by eapply wf_nodes.
  pose proof (chunk_headers _ _ _ _ _ _ _ _ Hsh1) as Hh. cbn zeta in Hh. fold x in Hh.
  destruct Hh as (_ & _ & _ & _ & _ & _ & _ & Hsz1 & Hpr1 & _ & Hnsz1 & _). simpl in Hnsz1.
  assert (Hs3 : shape m1 (H1 ++ (b, (mid1 ++ [(s, false)]) ++ [(s2, false)] ++ mid2) :: H2)).
  { by rewrite <-app_assoc. }
  pose proof (chunk_headers _ _ _ _ _ _ _ _ Hs3) as Hh. cbn zeta in Hh.
  rewrite tot_app, tot1 in Hh. replace (b + 8 + (tot mid1 + s)) with (x + s) in Hh by (unfold x; lia).
  destruct Hh as (_ & _ & _ & _ & _ & _ & _ & _ & _ & Hnp3 & _ & _).
  rewrite Hsz1, Hnsz1. unfold w32. rewrite Z.mod_small by lia.
  assert (E1 : n_size (set_size m1 x (s + s2)) x = s + s2).
  { unfold n_size, set_size. ldst. apply Z.mod_small. lia. }
  assert (E2 : n_preceding (set_size m1 x (s + s2)) (x + s + s2) = s2 + flag (nextal mid2)).
  { unfold n_preceding, set_size in *. by ldst. }
  rewrite E1, E2, alloc_bit_flag, lor_flag by lia.
  assert (Hx1 : x ∉ fr1.*1).
  { intros Hin. apply Hx. rewrite Hfr2. by apply list_elem_of_further. }
  assert (Hx2 : x + s ∉ fr1.*1).
  { pose proof (wf_nodup _ _ _ _ _ Hw) as Hn. rewrite Hfr2 in Hn. by apply NoDup_cons in Hn as []. }
  exists (set_preceding (set_size m1 x (s + s2)) (x + s + s2) (s + s2 + flag (nextal mid2))),
    fl1, fr1, (s + s2), mid2.
  split_and!; try done.
  - by rewrite Z.add_assoc.
  - by apply wf_merge.
  - destruct mid2 as [|[s3 al3] mid2]; [done|]. simpl in Hc. naive_solver.
  - destruct mid2; [done|]. simpl in Hc. naive_solver.
  - change (tot ((s2, false) :: mid2)) with (s2 + tot mid2). lia.
  - lia.
  - eapply same_but_trans; [eapply same_but_mono; [|exact Hs1]; unfold touched; tauto|].
    unfold set_preceding, set_size, touched.
    repeat (eapply same_but_trans; [|apply same_but_st32; lia]). apply same_but_refl.
  - intros y Hy. rewrite Hfl. by apply list_elem_of_further.
  - intros y t. rewrite Erest, elem_of_cons. naive_solver.
Qed.

Lemma prev_header m H1 b mid1 cs mid2 H2 :
  shape m (H1 ++ (b, mid1 ++ cs ++ mid2) :: H2) →
  alloc_bit (n_preceding m (b + 8 + tot mid1 - lastsize 8 mid1)) = flag (lastal mid1).
Proof.
  intros Hs. destruct (last mid1) as [[t al]|] eqn:El.
  - pose proof El as [k ->]%last_Some. rewrite <-!app_assoc in Hs. cbn [app] in Hs.
    pose proof (chunk_headers m H1 b k t al (cs ++ mid2) H2 Hs) as Hh. cbn zeta in Hh.
    destruct Hh as (_ & _ & _ & _ & _ & _ & ? & _ & Hpr & _).
    unfold lastsize, lastal. rewrite El, tot_app, tot1.
    change (default 8 (fst <$> Some (t, al))) with t.
    change (default true (snd <$> Some (t, al))) with al.
    replace (b + 8 + (tot k + t) - t) with (b + 8 + tot k) by lia.
    rewrite Hpr. apply alloc_bit_flag. lia.
  - apply last_None in El as ->.
    assert (region_ok m (b, [] ++ cs ++ mid2)) as Hok.
    { eapply Forall_forall; [by eapply sh_regions|in_list]. }
    destruct (region_ok_split _ _ _ _ _ Hok) as (_ & _ & _ & _ & _ & _ & _ & _ & _ & _ & _ & Hr & _).
    cbn [region] in Hr. destruct Hr as (_ & Hp & _).
    change (tot []) with 0. change (lastsize 8 []) with 8.
    replace (b + 8 + 0 - 8) with b by lia. rewrite Hp. by apply alloc_bit_flag.
Qed.

Lemma merge_prev_spec m H1 b mid1 s mid2 H2 fl fr :
  let x := b + 8 + tot mid1 in
  wf m (H1 ++ (b, mid1 ++ [(s, false)] ++ mid2) :: H2) fl fr →
  x ∉ fr.*1 → fr ≡ₚ omap free_of (rest H1 b mid1 s mid2 H2) → coalesced mid1 →
  ∃ m' fl' fr' s' mid1',
    let x' := b + 8 + tot mid1' in
    free_merge_prev m x (x + s) = (m', x') ∧
    wf m' (H1 ++ (b, mid1' ++ [(s', false)] ++ mid2) :: H2) fl' fr' ∧
    x' ∉ fr'.*1 ∧ fr' ≡ₚ omap free_of (rest H1 b mid1' s' mid2 H2) ∧
    lastal mid1' = true ∧ coalesced mid1' ∧ tot mid1' + s' = tot mid1 + s ∧ tot mid1' ≤ tot mid1 ∧
    same_but (touched fl x' s') m m' ∧ (∀ y, y ∈ fl'.*1 → y ∈ fl.*1) ∧
    (∀ y t, (y, (t, true)) ∈ rest H1 b mid1' s' mid2 H2 ↔
            (y, (t, true)) ∈ rest H1 b mid1 s mid2 H2).
Proof.
  intros x Hw Hx Hfr Hc. pose proof (wf_shape _ _ _ _ _ Hw) as Hs.
  pose proof (chunk_headers _ _ _ _ _ _ _ _ Hs) as Hh. cbn zeta in Hh. fold x in Hh.
  destruct Hh as (? & ? & ? & ? & ? & ? & ? & Hsz & Hpr & Hnp & Hnsz & _).
  pose proof (prev_header _ _ _ _ _ _ _ Hs) as Hph. fold x in Hph.
  unfold free_merge_prev. rewrite Hpr. change (flag false) with 0. rewrite Z.add_0_r, Hph, flag_zero.
  destruct (lastal mid1) eqn:Hla; cbn [negb].
  { exists m, fl, fr, s, mid1. split_and!; done. }
  destruct (last mid1) as [[s0 al]|] eqn:El; unfold lastal in Hla; rewrite El in Hla; [|done].
  simpl in Hla. subst al. pose proof El as [k ->]%last_Some. clear El.
  assert (Hls : lastsize 8 (k ++ [(s0, false)]) = s0) by by rewrite lastsize_app.
  rewrite Hls. clear Hpr Hph. set (x0 := b + 8 + tot k) in *.
  assert (Ex : x = x0 + s0) by (unfold x, x0; rewrite tot_app, tot1; lia).
  replace (x - s0) with x0 by lia. rewrite tot_app, tot1 in *. clearbody x. subst x.
  assert (Hw' : wf m (H1 ++ (b, k ++ [(s0, false); (s, false)] ++ mid2) :: H2) fl fr).
  { by rewrite <-app_assoc in Hw. }
  pose proof (wf_shape _ _ _ _ _ Hw') as Hs'.
  pose proof (chunk_headers m H1 b k s0 false ((s, false) :: mid2) H2 Hs') as Hh.
  cbn zeta in Hh. fold x0 in Hh.
  destruct Hh as (_ & ? & ? & ? & ? & ? & ? & Hsz0 & Hpr0 & _).
  assert (Erest : rest H1 b (k ++ [(s0, false)]) s mid2 H2 ≡ₚ
                  (x0, (s0, false)) :: rest H1 b k (s0 + s) mid2 H2).
  { unfold rest. rewrite tot_app, tot1. cbn [caddrs]. rewrite app_comm_cons, caddrs_app.
    change (tot (GUARD :: k)) with (8 + tot k).
    replace (b + (8 + tot k)) with x0 by (unfold x0; lia). fold x0.
    replace (b + 8 + (tot k + s0) + s) with (x0 + (s0 + s)) by (unfold x0; lia).
    cbn [caddrs app fst]. solve_Permutation. }
  assert (Hfr2 : fr ≡ₚ (x0, s0) :: omap free_of (rest H1 b k (s0 + s) mid2 H2)).
  { rewrite Hfr, Erest. done. }
  destruct (wf_unlink _ _ _ _ _ _ _ _ Hw' Hfr2) as (fl1 & Hw1 & Hfl & Hs1).
  set (fr1 := omap free_of (rest H1 b k (s0 + s) mid2 H2)) in *.
  set (m1 := mm_unlink m x0) in *. pose proof (wf_shape _ _ _ _ _ Hw1) as Hsh1.
  pose proof (chunk_headers m1 H1 b k s0 false ((s, false) :: mid2) H2 Hsh1) as Hh.
  cbn zeta in Hh. fold x0 in Hh.
  destruct Hh as (_ & _ & _ & _ & _ & _ & _ & Hsz1 & _ & _ & Hnsz1 & _). simpl in Hnsz1.
  assert (Hs3 : shape m1 (H1 ++ (b, (k ++ [(s0, false)]) ++ [(s, false)] ++ mid2) :: H2)).
  { by rewrite <-app_assoc. }
  pose proof (chunk_headers _ _ _ _ _ _ _ _ Hs3) as Hh. cbn zeta in Hh.
  rewrite tot_app, tot1 in Hh.
  replace (b + 8 + (tot k + s0)) with (x0 + s0) in Hh by (unfold x0; lia).
  destruct Hh as (_ & _ & _ & _ & _ & _ & _ & _ & _ & Hnp3 & _ & _).
  rewrite Hsz1, Hnsz1. unfold w32. rewrite Z.mod_small by lia.
  assert (E1 : n_size (set_size m1 x0 (s0 + s)) x0 = s0 + s).
  { unfold n_size, set_size. ldst. apply Z.mod_small. lia. }
  assert (E2 : n_preceding (set_size m1 x0 (s0 + s)) (x0 + s0 + s) = s + flag (nextal mid2)).
  { unfold n_preceding, set_size in *. by ldst. }
  rewrite E1, E2, alloc_bit_flag, lor_flag by lia.
  assert (Hx1 : x0 + s0 ∉ fr1.*1).
  { intros Hin. apply Hx. rewrite Hfr2. by apply list_elem_of_further. }
  assert (Hx2 : x0 ∉ fr1.*1).
  { pose proof (wf_nodup _ _ _ _ _ Hw) as Hn. rewrite Hfr2 in Hn. by apply NoDup_cons in Hn as []. }
  pose proof Hc as (Hck & _ & Hl)%coalesced_app.
  exists (set_preceding (set_size m1 x0 (s0 + s)) (x0 + s0 + s) (s0 + s + flag (nextal mid2))),
    fl1, fr1, (s0 + s), k. cbn zeta. fold x0.
  split_and!; try done.
  - by apply wf_merge.
  - by destruct Hl.
  - lia.
  - lia.
  - eapply same_but_trans; [eapply same_but_mono; [|exact Hs1]; unfold touched; tauto|].
    unfold set_preceding, set_size, touched.
    repeat (eapply same_but_trans; [|apply same_but_st32; lia]). apply same_but_refl.
  - intros y Hy. rewrite Hfl. by apply list_elem_of_further.
  - intros y t. rewrite Erest, elem_of_cons. naive_solver.
Qed.

Lemma free_cases st H1 b mid1 s mid2 H2 my_pid :
  let x := b + 8 + tot mid1 in
  let H := H1 ++ (b, mid1 ++ [(s, true)] ++ mid2) :: H2 in
  heap_inv st H → sem_ready my_pid st →
  ∃ m' mid1' s' mid2',
    let H' := H1 ++ (b, mid1' ++ [(s', false)] ++ mid2') :: H2 in
    free nl my_pid (x + 8) st = Some (with_mem st m') ∧
    heap_inv (with_mem st m') H' ∧
    (∀ y t, (y, (t, true)) ∈ chunks_of H' ↔ (y, (t, true)) ∈ chunks_of H ∧ y ≠ x) ∧
    payload_kept H' (mm_mem st) m' ∧
    tot mid1' + s' + tot mid2' = tot mid1 + s + tot mid2 ∧
    tot mid1' ≤ tot mid1 ∧ tot mid1 + s ≤ tot mid1' + s'.
Proof.
  intros x H Hi Hsem. destruct (hi_wf _ _ Hi) as [fl Hw]. pose proof (wf_shape _ _ _ _ _ Hw) as Hs.
  pose proof (hi_coalesced _ _ Hi) as Hco.
  pose proof Hco as [_ [Hcm _]%Forall_cons]%Forall_app. cbn [snd] in Hcm.
  pose proof Hcm as (Hc1 & (_ & Hc2 & _)%coalesced_app & _)%coalesced_app.
  pose proof (chunk_headers _ _ _ _ _ _ _ _ Hs) as Hh. cbn zeta in Hh. fold x in Hh.
  destruct Hh as (? & ? & ? & ? & ? & ? & ? & Hsz & Hpr & _).
  destruct (take_give _ _ Hsem) as (st1 & Et & Em & Eh & Eg).
  assert (Hin : (x, (s, true)) ∈ chunks_of H).
  { unfold H. rewrite chunks_split. apply list_elem_of_here. }
  set (fr := omap free_of (rest H1 b mid1 s mid2 H2)).
  assert (Efr : frees_of H ≡ₚ fr) by (unfold H; by rewrite frees_split1).
  pose proof (wf_fr_perm _ _ _ _ _ Efr Hw) as Hw0.
  assert (Hxf : x ∉ fr.*1).
  { intros ((y & t) & Ey & Hy)%list_elem_of_fmap. simpl in Ey. subst y.
    apply (wf_fr _ _ _ _ _ Hw0) in Hy.
    destruct (chunk_apart _ _ _ _ _ _ _ Hs Hin Hy) as [[_ [=]]|Ha].
    pose proof (chunk_bounds _ _ _ _ _ Hs Hy). unfold apart in Ha. simpl in *. lia. }
  unfold free. rewrite (proj2 (Z.eqb_neq (x + 8) 0)) by lia. rewrite Et. cbn [mbind option_bind].
  change SIZEOF_MM_ALLOCNODE with 8. replace (x + 8 - 8) with x by lia.
  rewrite Em, Eh, (hi_size _ _ Hi), Hpr, clear_alloc_flag by lia.
  pose proof (wf_reflag _ _ _ _ _ _ false _ _ _ _ Hw0 Hxf) as Hw1. fold x in Hw1.
  change (flag false) with 0 in Hw1. rewrite Z.add_0_r in Hw1.
  set (m1 := set_preceding (mm_mem st) x (lastsize 8 mid1)) in *.
  destruct (merge_next_spec _ _ _ _ _ _ _ _ _ Hw1 Hxf (Permutation_refl _) Hc2)
    as (m2 & fl2 & fr2 & s2 & mid2' & E2 & Hw2 & Hx2 & Hfr2 & Hn2 & Hcn2 & Ht2 & Hle2 & Hsm2 & Hsub2 & Hal2).
  fold x in E2, Hx2. rewrite E2. 
  destruct (merge_prev_spec _ _ _ _ _ _ _ _ _ Hw2 Hx2 Hfr2 Hc1)
    as (m3 & fl3 & fr3 & s3 & mid1' & E3 & Hw3 & Hx3 & Hfr3 & Hn3 & Hcn3 & Ht3 & Hle3 & Hsm3 & Hsub3 & Hal3).
  fold x in E3. rewrite E3. set (x3 := b + 8 + tot mid1') in *.
  set (H' := H1 ++ (b, mid1' ++ [(s3, false)] ++ mid2') :: H2) in *.
  assert (Hin3 : (x3, (s3, false)) ∈ chunks_of H').
  { unfold H'. rewrite chunks_split. apply list_elem_of_here. }
  assert (Hext : extent <$> H' = extent <$> H).
  { apply extent_mid. rewrite !tot_app, !tot1. lia. }
  assert (Hfl3 : (length fl3 ≤ mm_fuel (heap_bytes H))%nat).
  { rewrite <-(heap_bytes_extent _ _ Hext). unfold mm_fuel.
    rewrite (wf_perm _ _ _ _ _ Hw3), length_app. unfold heads. rewrite length_fmap, length_seq.
    pose proof (frees_of_length _ _ (wf_regions _ _ _ _ _ Hw3)) as Hlen.
    unfold H' in Hlen at 1. rewrite frees_split1 in Hlen. rewrite <-Hfr3 in Hlen.
    cbn [app length] in Hlen. change SIZEOF_MM_FREENODE with 16. change MM_NNODES with 19.
    assert (Z.of_nat (length fr3) ≤ heap_bytes H' / 16); [|lia].
    apply Z.div_le_lower_bound; lia. }
  destruct (wf_addfree nl _ _ _ _ _ _ _ Hw3 Hin3 Hx3 Hfl3) as (m4 & fl4 & E4 & Hw4 & Hsm4).
  rewrite E4. cbn [mbind option_bind].
  pose proof (wf_shape _ _ _ _ _ Hw3) as Hs3.
  assert (Hal : ∀ y t, (y, (t, true)) ∈ chunks_of H' ↔ (y, (t, true)) ∈ rest H1 b mid1 s mid2 H2).
  { intros y t. unfold H'. rewrite chunks_split, tot1. cbn [caddrs app]. rewrite elem_of_cons, Hal3, Hal2.
    naive_solver. }
  exists m4, mid1', s3, mid2'. cbn zeta. fold H'. split_and!.
  - by rewrite Eg.
  - eapply heap_inv_update; [exact Hi|done|..].
    + eapply wf_fr_perm; [|exact Hw4]. unfold H'. rewrite frees_split1. by rewrite Hfr3.
    + eapply coalesced_replace; [exact Hco|]. apply coalesced_app. split_and!; [done| |by left].
      apply coalesced_app. split_and!; [done|done|by right].
  - intros y t. rewrite Hal. unfold H. rewrite chunks_split, tot1. cbn [caddrs app].
    rewrite elem_of_cons. split; [|naive_solver]. intros Hy. split; [by right|]. intros ->.
    assert ((x, (t, true)) ∈ chunks_of H') as Hy' by by apply Hal.
    destruct (chunk_apart _ _ _ _ _ _ _ Hs3 Hin3 Hy') as [[_ [=]]|Ha].
    pose proof (chunk_bounds _ _ _ _ _ Hs3 Hy').
    pose proof (chunk_bounds _ _ _ _ _ Hs3 Hy') as Hbd. cbn [fst snd] in Hbd.
    unfold apart in Ha. cbn [fst snd] in Ha. unfold x, x3 in *. lia.
  - intros y t z Hy Hz.
    assert (Hyo : y + t ≤ x3 ∨ x3 + s3 ≤ y).
    { destruct (chunk_apart _ _ _ _ _ _ _ Hs3 Hin3 Hy) as [[_ [=]]|Ha].
      unfold apart in Ha. cbn [fst snd] in Ha. lia. }
    assert (Hyr : (y, (t, true)) ∈ chunks_of H).
    { unfold H. rewrite chunks_split, tot1. cbn [caddrs app]. right. by apply Hal. }
    assert (Hnl : ¬ in_links (fl.*1) z).
    { eapply links_payload; [exact Hs|by eapply wf_nodes|exact Hyr|lia]. }
    assert (Hsub : ∀ F, (∀ y, y ∈ F → y ∈ fl.*1) → ¬ in_links F z).
    { intros F HF (w & Hw' & ?). apply Hnl. exists w. auto. }
    rewrite Hsm4.
    2:{ intros (w & [->|Hw']%elem_of_cons & ?); [lia|]. apply Hnl. exists w. auto. }
    rewrite Hsm3 by (unfold touched; fold x3; intros [?%Hsub|?]; [done|done|lia]).
    rewrite Hsm2 by (unfold touched; fold x; unfold x3, x in *; intros [?|?]; [done|lia]).
    unfold m1, set_preceding. apply getb_st32_ne. unfold x3, x in *. lia.
  - lia.
  - lia.
  - lia.
Qed.
End Spec.
