(* ===== verification/MmThms.v ===== *)
(** What the memory manager promises its callers.  The theorems speak of the
    abstract heap [H] of [heap_inv]: the chunks of each region with their
    allocation flags, of which [live H x s] are the ones in use. *)

From stdpp Require Import base numbers gmap sorting list.
From S2P Require Import Prelude Memory Mm MmInv MmOps MmSpec.

(** The chunk of [s] bytes at [x] is in use. *)
Definition live (H : list (Z * list chunk)) (x s : Z) : Prop := (x, (s, true)) ∈ chunks_of H.

(** ** A heap without adjacent free chunks is determined by its live chunks *)

Lemma caddrs_ge y c a cs : Forall (λ c, 0 < c.1) cs → (y, c) ∈ caddrs a cs → a ≤ y.
Proof.
  intros Hp Hy. eapply caddrs_bounds in Hy; [lia|]. eapply Forall_impl; [exact Hp|]. simpl. lia.
Qed.

Lemma gap_le a s cs s' cs' :
  0 < s' → Forall (λ c : chunk, 0 < c.1) cs' → coalesced ((s, false) :: cs) →
  tot ((s, false) :: cs) = tot ((s', false) :: cs') →
  (∀ y t, (y, (t, true)) ∈ caddrs a ((s, false) :: cs) →
          (y, (t, true)) ∈ caddrs a ((s', false) :: cs')) → 0 < s → s' ≤ s.
Proof.
  intros Hs' Hp' Hc Ht Hm Hs. destruct (decide (s' ≤ s)) as [|Hgt]; [done|exfalso].
  assert (0 ≤ tot cs').
  { apply tot_nonneg. eapply Forall_impl; [exact Hp'|]. simpl. lia. }
  change (tot ((s', false) :: cs')) with (s' + tot cs') in Ht.
  destruct cs as [|[t al] cs]; [change (tot [(s, false)]) with (s + 0) in Ht; lia|].
  simpl in Hc. destruct Hc as [[?|Hal] _]; [done|]. simpl in Hal. subst al.
  specialize (Hm (a + s) t). cbn [caddrs fst] in Hm.
  assert (Hi : (a + s, (t, true)) ∈ caddrs (a + s') cs').
  { assert (Hi : (a + s, (t, true)) ∈ (a, (s', false)) :: caddrs (a + s') cs') by (apply Hm; in_list).
    apply elem_of_cons in Hi as [[= ]|Hi]; [done..|exact Hi]. }
  apply caddrs_ge in Hi; [lia|done].
Qed.

Lemma layout_unique a cs cs' :
  Forall (λ c : chunk, 0 < c.1) cs → Forall (λ c : chunk, 0 < c.1) cs' →
  coalesced cs → coalesced cs' → tot cs = tot cs' →
  (∀ y t, (y, (t, true)) ∈ caddrs a cs ↔ (y, (t, true)) ∈ caddrs a cs') → cs = cs'.
Proof.
  intros Hp. revert a cs'. induction Hp as [|[s al] cs Hs Hp IH]; intros a cs' Hp' Hc Hc' Ht Hm.
  { destruct Hp' as [|[s' al'] cs' Hs' Hp']; [done|].
    assert (0 ≤ tot cs') by (apply tot_nonneg; eapply Forall_impl; [exact Hp'|]; simpl; lia).
    change (tot ((s', al') :: cs')) with (s' + tot cs') in Ht. change (tot []) with 0 in Ht.
    simpl in Hs'. lia. }
  destruct Hp' as [|[s' al'] cs' Hs' Hp'].
  { assert (0 ≤ tot cs) by (apply tot_nonneg; eapply Forall_impl; [exact Hp|]; simpl; lia).
    change (tot ((s, al) :: cs)) with (s + tot cs) in Ht. change (tot []) with 0 in Ht.
    simpl in Hs. lia. }
  cbn [fst] in Hs, Hs'.
  assert (Heq : (s, al) = (s', al')).
  { destruct al, al'.
    - destruct (Hm a s) as [Hi _]. cbn [caddrs fst] in Hi.
      specialize (Hi (list_elem_of_here _ _)). apply elem_of_cons in Hi as [[= <-]|Hi]; [done|].
      apply caddrs_ge in Hi; [lia|done].
    - destruct (Hm a s) as [Hi _]. cbn [caddrs fst] in Hi.
      specialize (Hi (list_elem_of_here _ _)). apply elem_of_cons in Hi as [[= ]|Hi].
      apply caddrs_ge in Hi; [lia|done].
    - destruct (Hm a s') as [_ Hi]. cbn [caddrs fst] in Hi.
      specialize (Hi (list_elem_of_here _ _)). apply elem_of_cons in Hi as [[= ]|Hi].
      apply caddrs_ge in Hi; [lia|done].
    - assert (s' ≤ s) by (eapply gap_le; [..|by apply Hm|]; done).
      assert (s ≤ s') by (eapply gap_le; [..|by apply Hm|]; done).
      f_equal. lia. }
  injection Heq as <- <-. f_equal. apply (IH (a + s)); [done|..].
  - simpl in Hc. destruct cs; naive_solver.
  - simpl in Hc'. destruct cs'; naive_solver.
  - change (tot ((s, al) :: cs)) with (s + tot cs) in Ht.
    change (tot ((s, al) :: cs')) with (s + tot cs') in Ht. lia.
  - intros y t. specialize (Hm y t). cbn [caddrs fst] in Hm. rewrite !elem_of_cons in Hm.
    split; intros Hi; pose proof Hi as Hge; apply caddrs_ge in Hge; try done.
    + destruct (proj1 Hm (or_intror Hi)) as [[= -> _ _]|]; [lia|done].
    + destruct (proj2 Hm (or_intror Hi)) as [[= -> _ _]|]; [lia|done].
Qed.

Definition tidy (r : Z * list chunk) : Prop := Forall chunk_ok r.2 ∧ coalesced r.2.

Lemma chunk_in_extent y c H : Forall tidy H → (y, c) ∈ chunks_of H →
  ∃ e, e ∈ extent <$> H ∧ e.1 ≤ y ∧ y + c.1 ≤ e.1 + e.2 ∧ 0 < c.1.
Proof.
  intros Ht (H1 & r & H2 & -> & Hy)%elem_of_chunks.
  assert (tidy r) as [Hok _] by (eapply Forall_forall; [exact Ht|in_list]).
  exists (extent r). split; [apply list_elem_of_fmap; exists r; split; [done|in_list]|].
  pose proof (caddrs_bounds _ _ _ _ (full_nonneg _ Hok) Hy).
  destruct (caddrs_full_ok _ _ _ Hok Hy). unfold extent. simpl. lia.
Qed.

Lemma full_coalesced mid : coalesced mid → coalesced (full mid).
Proof.
  intros Hc. unfold full. change (GUARD :: mid ++ [GUARD]) with ([GUARD] ++ mid ++ [GUARD]).
  apply coalesced_app. split_and!; [done| |by left].
  apply coalesced_app. split_and!; [done|done|by right].
Qed.

Lemma full_inj mid mid' : full mid = full mid' → mid = mid'.
Proof. unfold full. intros [= E]. by apply app_inj_2 in E as [-> _]. Qed.

Lemma live_cons b mid H y t :
  live ((b, mid) :: H) y t ↔ (y, (t, true)) ∈ caddrs b (full mid) ∨ live H y t.
Proof. unfold live, chunks_of. cbn [mbind list_bind fst snd]. apply elem_of_app. Qed.

(** A chunk address tells the region it lies in. *)
Lemma live_region b mid H y t :
  Forall tidy ((b, mid) :: H) → disj (extent <$> (b, mid) :: H) →
  ((y, (t, true)) ∈ caddrs b (full mid) ↔
   live ((b, mid) :: H) y t ∧ b ≤ y < b + tot (full mid)) ∧
  (live H y t ↔ live ((b, mid) :: H) y t ∧ ¬ b ≤ y < b + tot (full mid)).
Proof.
  intros [[Hok Hc] Ht]%Forall_cons [Hd _]. rewrite live_cons.
  assert (Hin : (y, (t, true)) ∈ caddrs b (full mid) → b ≤ y < b + tot (full mid)).
  { intros Hy. pose proof (caddrs_bounds _ _ _ _ (full_nonneg _ Hok) Hy).
    destruct (caddrs_full_ok _ _ (b, mid) Hok Hy). simpl in *. lia. }
  assert (Hout : live H y t → ¬ b ≤ y < b + tot (full mid)).
  { intros (e & He & ? & ? & ?)%chunk_in_extent; [|done].
    rewrite Forall_forall in Hd. specialize (Hd e He). unfold apart in Hd. simpl in *. lia. }
  tauto.
Qed.

Lemma heap_unique H H' :
  Forall tidy H → Forall tidy H' → disj (extent <$> H) → extent <$> H' = extent <$> H →
  (∀ y t, live H y t ↔ live H' y t) → H = H'.
Proof.
  revert H'. induction H as [|[b mid] H IH]; intros [|[b' mid'] H'] Ht Ht' Hd He Hl; try done.
  pose proof He as [= -> Etot Erest].
  assert (Hd' : disj (extent <$> (b, mid') :: H')) by by rewrite He.
  pose proof (λ y t, live_region b mid H y t Ht Hd) as Hr.
  pose proof (λ y t, live_region b mid' H' y t Ht' Hd') as Hr'.
  pose proof Ht as [[Hok Hc] Ht1]%Forall_cons. pose proof Ht' as [[Hok' Hc'] Ht1']%Forall_cons.
  cbn [snd] in *. f_equal; [f_equal|].
  - apply full_inj, (layout_unique b); [by apply full_pos..|by apply full_coalesced|by apply full_coalesced|done|].
    intros y t. rewrite (proj1 (Hr y t)), (proj1 (Hr' y t)), Hl, Etot. done.
  - apply IH; [done|done|by destruct Hd|done|].
    intros y t. rewrite (proj2 (Hr y t)), (proj2 (Hr' y t)), Hl, Etot. done.
Qed.

(** ** The abstract allocator *)

Inductive mm_op := OpMalloc (size : Z) | OpFree (p : Z).

Definition mm_exec (nl my_pid : Z) (op : mm_op) (st : mm_state) : option (Z * mm_state) :=
  match op with
  | OpMalloc size => malloc nl my_pid size st
  | OpFree p => st ← free nl my_pid p st; Some (0, st)
  end.

(** The allocator keeps the chunks in use, by address, inside the extents [E]. *)
Inductive alloc_step (E : list (Z * Z)) (A : gmap Z Z) : mm_op → Z → gmap Z Z → Prop :=
  | alloc_fails size : alloc_step E A (OpMalloc size) 0 A
  | alloc_grants size x c e :
      size + 8 ≤ c → (8 | x) → e ∈ E → e.1 ≤ x → x + c ≤ e.1 + e.2 →
      (∀ y t, A !! y = Some t → apart (x, c) (y, t)) →
      alloc_step E A (OpMalloc size) (x + 8) (<[x := c]> A)
  | alloc_releases x c : A !! x = Some c → alloc_step E A (OpFree (x + 8)) 0 (delete x A)
  | alloc_ignores : alloc_step E A (OpFree 0) 0 A.

(** The calls the allocator accepts: sizes that do not overflow when the header
    is added, and pointers that are null or in use. *)
Definition alloc_valid (A : gmap Z Z) (op : mm_op) : Prop :=
  match op with
  | OpMalloc size => size + 23 < 2 ^ 32
  | OpFree p => p = 0 ∨ is_Some (A !! (p - 8))
  end.

Section Thms.
Context (nl : Z).
Implicit Types (H : list (Z * list chunk)).

Lemma heap_inv_tidy st H : heap_inv nl st H → Forall tidy H.
Proof.
  intros Hi. destruct (hi_wf _ _ _ Hi) as [fl Hw]. pose proof (wf_regions _ _ _ _ _ Hw) as Hr.
  pose proof (hi_coalesced _ _ _ Hi) as Hc. rewrite Forall_forall in *.
  intros r Hin. split; [|by apply Hc]. destruct (Hr r Hin) as (_ & _ & _ & _ & ? & _). done.
Qed.

Lemma heap_inv_disj st H : heap_inv nl st H → disj (extent <$> H).
Proof. intros Hi. destruct (hi_wf _ _ _ Hi) as [fl Hw]. apply (wf_disj _ _ _ _ _ Hw). Qed.

(** The invariant determines the abstract heap. *)
Lemma heap_inv_unique st st' H H' :
  heap_inv nl st H → heap_inv nl st' H' → extent <$> H' = extent <$> H →
  (∀ y t, live H y t ↔ live H' y t) → H = H'.
Proof.
  intros Hi Hi'. apply heap_unique; [by eapply heap_inv_tidy..|by eapply heap_inv_disj].
Qed.

Lemma live_aligned st H x s : heap_inv nl st H → live H x s → (8 | x).
Proof.
  intros Hi Hl. destruct (hi_wf _ _ _ Hi) as [fl Hw].
  destruct (chunk_region _ _ _ _ _ (wf_shape _ _ _ _ _ Hw) Hl) as (r & _ & Hok & Hin).
  destruct Hok as (_ & _ & _ & Hb & Hok & _).
  apply elem_of_caddrs in Hin as (c1 & c2 & E & ->).
  assert (Hf : Forall (λ c : chunk, (8 | c.1)) (full (r.2))).
  { unfold full. apply Forall_cons. split; [by exists 1|]. apply Forall_app. split.
    - eapply Forall_impl; [exact Hok|]. by intros c [].
    - apply Forall_singleton. by exists 1. }
  rewrite E in Hf. apply Forall_app in Hf as [Hf _]. apply Z.divide_add_r; [done|].
  clear E Hl. induction Hf as [|x l]; [exists 0; reflexivity|]. change (tot (x :: l)) with (x.1 + tot l).
  by apply Z.divide_add_r.
Qed.

(** ** malloc and free *)

(** What the pieces malloc cuts a free chunk into are. *)
Lemma taken_cases need s : 16 ≤ need ≤ s →
  ∃ c k, taken need s = (c, true) :: k ∧ need ≤ c ≤ s ∧
    (k = [] ∧ c = s ∨ k = [(s - need, false)] ∧ c = need).
Proof.
  intros ?. unfold taken. change SIZEOF_MM_FREENODE with 16. case_test.
  - exists need, [(s - need, false)]. split_and!; [done|lia|lia|by right].
  - exists s, []. split_and!; [done|lia|lia|by left].
Qed.

Lemma live_split H1 b mid1 cs mid2 H2 y t :
  live (H1 ++ (b, mid1 ++ cs ++ mid2) :: H2) y t ↔
  (y, (t, true)) ∈ caddrs (b + 8 + tot mid1) cs ∨
  (y, (t, true)) ∈ rest H1 b mid1 (tot cs) mid2 H2.
Proof. unfold live. by rewrite chunks_split, elem_of_app. Qed.

(** Taking a free chunk adds one live chunk. *)
Lemma live_taken H1 b mid1 need s mid2 H2 : 16 ≤ need ≤ s →
  ∃ c, need ≤ c ≤ s ∧
    ∀ y t, live (H1 ++ (b, mid1 ++ taken need s ++ mid2) :: H2) y t ↔
           live (H1 ++ (b, mid1 ++ [(s, false)] ++ mid2) :: H2) y t ∨
           (y = b + 8 + tot mid1 ∧ t = c).
Proof.
  intros (c & k & Ek & Hc & Hcs)%taken_cases. exists c. split; [done|]. intros y t.
  rewrite !live_split, tot_taken, tot1, Ek. cbn [caddrs fst]. rewrite !elem_of_cons.
  assert ((y, (t, true)) ∉ caddrs (b + 8 + tot mid1 + c) k) by
    (destruct Hcs as [[-> _]|[-> _]]; cbn [caddrs]; rewrite ?list_elem_of_singleton;
       [apply not_elem_of_nil|by intros [=]]).
  assert ((y, (t, true)) ∉ (nil : list (Z * chunk))) by apply not_elem_of_nil.
  intuition congruence.
Qed.

Lemma malloc_abs st H my_pid size :
  heap_inv nl st H → sem_ready my_pid st → 0 < size → size + 23 < 2 ^ 32 →
  (malloc nl my_pid size st = Some (0, st) ∧
   ∀ y t, (y, t) ∈ frees_of H → t < size + 23 - (size + 23) mod 16) ∨
  ∃ x s c m' H',
    malloc nl my_pid size st = Some (x + 8, with_mem st m') ∧
    heap_inv nl (with_mem st m') H' ∧ extent <$> H' = extent <$> H ∧
    (x, s) ∈ frees_of H ∧ (8 | x) ∧ 16 ≤ c ∧ size + 8 ≤ c ≤ s ∧
    (∀ y t, live H' y t ↔ live H y t ∨ (y = x ∧ t = c)) ∧
    (∀ y t, (y, t) ∈ frees_of H → size + 23 - (size + 23) mod 16 ≤ t → s ≤ t) ∧
    payload_kept H (mm_mem st) m'.
Proof.
  intros Hi Hsem H0 H1. destruct (need_bounds _ H0 H1) as [En Hn].
  pose proof (malloc_cases nl _ _ _ _ Hi Hsem H0 H1) as Hm. rewrite En in Hm. cbn zeta in Hm, Hn.
  set (need := size + 23 - (size + 23) mod 16) in *.
  destruct Hm as [Hm|(Ha & b & mid1 & s & mid2 & Hb & m' & -> & Hns & Hbest & E & Hi' & Hk)]; [by left|].
  right. set (x := b + 8 + tot mid1) in *.
  destruct (live_taken Ha b mid1 need s mid2 Hb) as (c & Hc & Hl); [lia|]. fold x in Hl.
  exists x, s, c, m', (Ha ++ (b, mid1 ++ taken need s ++ mid2) :: Hb). split_and!; try done.
  - apply extent_mid. by rewrite !tot_app, tot_taken, tot1.
  - apply elem_of_frees_of. rewrite chunks_split. apply list_elem_of_here.
  - eapply live_aligned; [exact Hi'|]. apply Hl. by right.
  - lia.
  - lia.
  - lia.
Qed.

Lemma free_abs st H my_pid x s :
  heap_inv nl st H → sem_ready my_pid st → live H x s → 16 ≤ s →
  ∃ m' H',
    free nl my_pid (x + 8) st = Some (with_mem st m') ∧
    heap_inv nl (with_mem st m') H' ∧ extent <$> H' = extent <$> H ∧
    (∀ z r, live H' z r ↔ live H z r ∧ z ≠ x) ∧ payload_kept H' (mm_mem st) m' ∧
    ∃ y t, (y, t) ∈ frees_of H' ∧ y ≤ x ∧ x + s ≤ y + t.
Proof.
  intros Hi Hsem Hl Hs. destruct (hi_wf _ _ _ Hi) as [fl Hw].
  destruct (chunk_split nl _ _ _ _ _ (wf_shape _ _ _ _ _ Hw) Hl (or_intror Hs))
    as (H1 & b & mid1 & mid2 & H2 & -> & ->).
  destruct (free_cases nl _ _ _ _ _ _ _ _ Hi Hsem)
    as (m' & mid1' & s' & mid2' & E & Hi' & Hl' & Hk & ? & ? & ?).
  exists m', (H1 ++ (b, mid1' ++ [(s', false)] ++ mid2') :: H2).
  split_and!; [done|done| |done|done|].
  - apply extent_mid. rewrite !tot_app, !tot1. lia.
  - exists (b + 8 + tot mid1'), s'. split_and!; [|lia|lia].
    apply elem_of_frees_of. rewrite chunks_split. apply list_elem_of_here.
Qed.

(** What malloc finds among the free chunks. *)
Lemma malloc_finds st H my_pid size :
  heap_inv nl st H → sem_ready my_pid st → 0 < size → size + 23 < 2 ^ 32 →
  ∃ p st', malloc nl my_pid size st = Some (p, st') ∧
    (p = 0 ∧ st' = st ∧ (∀ y t, (y, t) ∈ frees_of H → t < MM_ALIGN_UP (size + 8)) ∨
     ∃ s, p ≠ 0 ∧ (p - 8, s) ∈ frees_of H ∧ MM_ALIGN_UP (size + 8) ≤ s ∧
       ∀ y t, (y, t) ∈ frees_of H → MM_ALIGN_UP (size + 8) ≤ t → s ≤ t).
Proof.
  intros Hi Hsem H0 H1. pose proof (malloc_cases nl _ _ _ _ Hi Hsem H0 H1) as Hm. cbn zeta in Hm.
  assert (E : w32 (size + SIZEOF_MM_ALLOCNODE) = size + 8).
  { unfold w32. change SIZEOF_MM_ALLOCNODE with 8. apply Z.mod_small. lia. }
  rewrite E in Hm.
  destruct Hm as [[Em Hn]|(Ha & b & mid1 & s & mid2 & Hb & m' & EH & Hns & Hbest & Em & _)].
  { exists 0, st. split; [done|]. by left. }
  exists (b + 8 + tot mid1 + 8), (with_mem st m'). split; [done|]. right. exists s.
  assert (Hf : (b + 8 + tot mid1, s) ∈ frees_of H).
  { rewrite EH. apply elem_of_frees_of. rewrite chunks_split. apply list_elem_of_here. }
  replace (b + 8 + tot mid1 + 8 - 8) with (b + 8 + tot mid1) by lia. split_and!; try done.
  destruct (hi_wf _ _ _ Hi) as [fl Hw]. apply elem_of_frees_of in Hf.
  pose proof (chunk_bounds _ _ _ _ _ (wf_shape _ _ _ _ _ Hw) Hf). lia.
Qed.

(** C29. malloc is best fit and complete: it fails, changing nothing, only when every free chunk is
    smaller than the aligned request, and otherwise it returns the payload of a free chunk that is
    large enough and no larger than any other free chunk that is large enough. *)
Theorem malloc_best_fit st H my_pid size :
  heap_inv nl st H → sem_ready my_pid st → 0 < size → size + 23 < 2 ^ 32 →
  ∃ p st', malloc nl my_pid size st = Some (p, st') ∧
    (p = 0 ∧ st' = st ∧ (∀ y t, (y, t) ∈ frees_of H → t < MM_ALIGN_UP (size + 8)) ∨
     ∃ s, p ≠ 0 ∧ (p - 8, s) ∈ frees_of H ∧ MM_ALIGN_UP (size + 8) ≤ s ∧
       ∀ y t, (y, t) ∈ frees_of H → MM_ALIGN_UP (size + 8) ≤ t → s ≤ t).
Proof. apply malloc_finds. Qed.

(** Some free chunk is large enough for [size] bytes. *)
Definition heap_fits st (size : Z) : Prop :=
  ∃ H y t, heap_inv nl st H ∧ (y, t) ∈ frees_of H ∧ MM_ALIGN_UP (size + 8) ≤ t.

Lemma malloc_fits st H my_pid size p st' :
  heap_inv nl st H → sem_ready my_pid st → 0 < size → size + 23 < 2 ^ 32 →
  malloc nl my_pid size st = Some (p, st') → (p ≠ 0 ↔ heap_fits st size).
Proof.
  intros Hi Hsem H0 H1 E. split.
  - intros Hp. destruct (malloc_finds st H my_pid size Hi Hsem H0 H1) as (p' & st2 & E' & [(-> & _)|(s & _ & Hf & Hs & _)]).
    + rewrite E in E'. by injection E'.
    + by exists H, (p' - 8), s.
  - intros (H' & y & t & Hi' & Hf & Ht).
    destruct (malloc_finds st H' my_pid size Hi' Hsem H0 H1) as (p' & st2 & E' & [(_ & _ & Hsm)|(s & Hp & _)]).
    + specialize (Hsm _ _ Hf). lia.
    + rewrite E in E'. by injection E' as <- _.
Qed.

(** A chunk malloc returns is not live before. *)
Lemma free_not_live st H x s t : heap_inv nl st H → (x, s) ∈ frees_of H → ¬ live H x t.
Proof.
  intros Hi Hf%elem_of_frees_of Hl. destruct (hi_wf _ _ _ Hi) as [fl Hw].
  pose proof (wf_shape _ _ _ _ _ Hw) as Hs.
  destruct (chunk_apart _ _ _ _ _ _ _ Hs Hf Hl) as [[_ [=]]|Ha].
  pose proof (chunk_bounds _ _ _ _ _ Hs Hf) as B1. pose proof (chunk_bounds _ _ _ _ _ Hs Hl) as B2.
  unfold apart in Ha. cbn [fst snd] in *. lia.
Qed.

(** ** Refinement *)

(** [st] holds the heap [H], whose chunks in use, guards apart, are [A]. *)
Definition represents st H (A : gmap Z Z) : Prop :=
  heap_inv nl st H ∧ ∀ x s, A !! x = Some s ↔ live H x s ∧ 16 ≤ s.

Definition contents_kept (A A' : gmap Z Z) (m m' : mem) : Prop :=
  ∀ x s z, A !! x = Some s → A' !! x = Some s → x + 8 ≤ z < x + s → getb m' z = getb m z.

Lemma live_functional st H x s t : heap_inv nl st H → live H x s → live H x t → s = t.
Proof.
  intros Hi Hl Ht. destruct (hi_wf _ _ _ Hi) as [fl Hw]. pose proof (wf_shape _ _ _ _ _ Hw) as Hs.
  pose proof (chunk_bounds _ _ _ _ _ Hs Hl) as B1. pose proof (chunk_bounds _ _ _ _ _ Hs Ht) as B2.
  cbn [fst snd] in *. lia.
Qed.

Lemma live_apart st H x s y t : heap_inv nl st H → live H x s → live H y t → x ≠ y →
  apart (x, s) (y, t).
Proof.
  intros Hi Hl Ht Hne. destruct (hi_wf _ _ _ Hi) as [fl Hw].
  destruct (chunk_apart _ _ _ _ _ _ _ (wf_shape _ _ _ _ _ Hw) Hl Ht) as [[? _]|]; done.
Qed.

(** malloc and free on a represented heap. *)
Lemma malloc_represents st H A my_pid size :
  represents st H A → sem_ready my_pid st → 0 < size → size + 23 < 2 ^ 32 →
  malloc nl my_pid size st = Some (0, st) ∨
  ∃ x c m' H', malloc nl my_pid size st = Some (x + 8, with_mem st m') ∧
    represents (with_mem st m') H' (<[x := c]> A) ∧ extent <$> H' = extent <$> H ∧
    contents_kept A (<[x := c]> A) (mm_mem st) m' ∧ live H' x c ∧ (8 | x) ∧ 16 ≤ c ∧ size + 8 ≤ c ∧
    A !! x = None ∧ ∀ y t, A !! y = Some t → apart (x, c) (y, t).
Proof.
  intros [Hi HA] Hsem H0 H1.
  destruct (malloc_abs st H my_pid size Hi Hsem H0 H1) as [[E _]|Hm]; [by left|right].
  destruct Hm as (x & s & c & m' & H' & E & Hi' & He & Hf & Hal & H16 & Hc & Hl & _ & Hk).
  assert (Hx : live H' x c) by (apply Hl; by right).
  exists x, c, m', H'. split_and!; [done| |done| |done|done|done|lia| |].
  - split; [done|]. intros y t. destruct (decide (x = y)) as [<-|Hne].
    + rewrite lookup_insert_eq, Hl. split; [intros [= <-]; split; [by right|lia]|].
      intros [[Hy|[_ ->]] _]; [|done]. by eapply free_not_live in Hy.
    + rewrite lookup_insert_ne, HA, Hl by done. intuition congruence.
  - intros y t z [Hy _]%HA _ ?. by eapply Hk.
  - destruct (A !! x) as [t|] eqn:Et; [|done]. apply HA in Et as [Hy _]. by eapply free_not_live in Hy.
  - intros y t [Hy _]%HA. eapply live_apart; [done|done|apply Hl; by left|].
    intros ->. by eapply free_not_live in Hy.
Qed.

Lemma free_represents st H A my_pid p :
  represents st H A → sem_ready my_pid st → is_Some (A !! (p - 8)) →
  ∃ m' H', free nl my_pid p st = Some (with_mem st m') ∧
    represents (with_mem st m') H' (delete (p - 8) A) ∧ extent <$> H' = extent <$> H ∧
    contents_kept A (delete (p - 8) A) (mm_mem st) m'.
Proof.
  intros [Hi HA] Hsem [s Hs]. pose proof Hs as [Hl H16]%HA.
  destruct (free_abs st H my_pid _ _ Hi Hsem Hl H16) as (m' & H' & E & Hi' & He & Hl' & Hk & _).
  replace (p - 8 + 8) with p in E by lia. exists m', H'. split_and!; [done| |done|].
  - split; [done|]. intros y t. destruct (decide (p - 8 = y)) as [<-|Hne].
    + rewrite lookup_delete_eq, Hl'. split; [done|naive_solver].
    + rewrite lookup_delete_ne, HA, Hl' by done. intuition congruence.
  - intros y t z Hy Hy' ?. apply lookup_delete_Some in Hy' as [? Hy'].
    eapply Hk; [|done]. apply Hl'. split; [by apply HA|done].
Qed.

(** C1. The heap refines an abstract allocator: from any well-formed heap, a valid malloc or free
    returns, keeps the heap well-formed and the regions in place, takes an abstract step on the map
    of chunks in use (a new chunk is fresh, large enough, inside a region and disjoint from every
    other one; NULL only changes nothing; free removes exactly its chunk), and keeps the bytes of
    every chunk that stays in use. *)
Theorem mm_exec_refines st H A my_pid op :
  represents st H A → sem_ready my_pid st → alloc_valid A op →
  ∃ ret m' H' A',
    mm_exec nl my_pid op st = Some (ret, with_mem st m') ∧
    alloc_step (extent <$> H) A op ret A' ∧ represents (with_mem st m') H' A' ∧
    extent <$> H' = extent <$> H ∧ contents_kept A A' (mm_mem st) m'.
Proof.
  intros HR Hsem Hv. destruct op as [size|p]; cbn [mm_exec alloc_valid] in *.
  - destruct (decide (size ≤ 0)) as [Hz|Hz].
    { exists 0, (mm_mem st), H, A. rewrite with_mem_id. split_and!; [|by constructor|done|done|done].
      unfold malloc. by rewrite (proj2 (Z.leb_le _ _)) by lia. }
    destruct (malloc_represents st H A my_pid size HR Hsem) as [E|Hm]; [lia|lia|..].
    { exists 0, (mm_mem st), H, A. rewrite with_mem_id. split_and!; [done|by constructor|done|done|done]. }
    destruct Hm as (x & c & m' & H' & E & HR' & He & Hk & Hx & Hal & H16 & Hc & Hnew & Hap).
    exists (x + 8), m', H', (<[x := c]> A). split_and!; [done| |done|done|done].
    destruct (chunk_in_extent _ _ _ (heap_inv_tidy _ _ (proj1 HR')) Hx) as (e & Hin & ? & ? & ?).
    rewrite He in Hin. by eapply alloc_grants; [lia|..].
  - destruct (decide (p = 0)) as [->|Hp].
    { exists 0, (mm_mem st), H, A. rewrite with_mem_id. split_and!; [done|by constructor|done|done|done]. }
    destruct Hv as [?|[s Hs]]; [done|].
    destruct (free_represents st H A my_pid p HR Hsem) as (m' & H' & E & HR' & He & Hk); [done|].
    exists 0, m', H', (delete (p - 8) A). rewrite E. split_and!; [done| |done|done|done].
    replace p with (p - 8 + 8) at 1 by lia. by eapply alloc_releases.
Qed.

(** C37. Freeing what malloc just returned coalesces it with its neighbours so that the heap has
    exactly the chunks it had before the malloc, and the chunks in use keep their contents. *)
Theorem malloc_free_restores st H my_pid size p st' :
  heap_inv nl st H → sem_ready my_pid st → 0 < size → size + 23 < 2 ^ 32 →
  malloc nl my_pid size st = Some (p, st') → p ≠ 0 →
  ∃ m', free nl my_pid p st' = Some (with_mem st m') ∧ heap_inv nl (with_mem st m') H ∧
    payload_kept H (mm_mem st) m'.
Proof.
  intros Hi Hsem H0 H1 Em Hp. destruct (need_bounds _ H0 H1) as [En Hn].
  pose proof (malloc_cases nl _ _ _ _ Hi Hsem H0 H1) as Hm. rewrite En in Hm. cbn zeta in Hm, Hn.
  set (need := size + 23 - (size + 23) mod 16) in *.
  destruct Hm as [[E _]|(Ha & b & mid1 & s & mid2 & Hb & m' & EH & Hns & _ & E & Hi' & Hk)];
    [congruence|].
  rewrite Em in E. injection E as -> ->.
  destruct (live_taken Ha b mid1 need s mid2 Hb) as (c & Hc & Hl); [lia|]. rewrite <-EH in Hl.
  assert (Hx : live (Ha ++ (b, mid1 ++ taken need s ++ mid2) :: Hb) (b + 8 + tot mid1) c)
    by (apply Hl; by right).
  assert (Hf : (b + 8 + tot mid1, s) ∈ frees_of H).
  { rewrite EH. apply elem_of_frees_of. rewrite chunks_split. apply list_elem_of_here. }
  destruct (free_abs (with_mem st m') _ my_pid _ _ Hi' Hsem Hx) as (m2 & H2 & E2 & Hi2 & He2 & Hl2 & Hk2 & _); [lia|].
  exists m2. rewrite E2.
  assert (H = H2) as <-.
  { eapply heap_inv_unique; [exact Hi|exact Hi2|..].
    - rewrite He2, EH. apply extent_mid. by rewrite !tot_app, tot_taken, tot1.
    - intros y t. rewrite Hl2, Hl. split; [|tauto]. intros Hy. split; [by left|].
      intros ->. by eapply free_not_live in Hy. }
  split_and!; [done|done|]. intros y t z Hy Hz. rewrite (Hk2 y t z Hy Hz). by eapply Hk.
Qed.
End Thms.
