(* ===== verification/MmInit.v ===== *)
(** mm_initialize and mm_addregion set up the heap invariant, and the contents
    of memory outside the heap never matter to it. *)

From stdpp Require Import base numbers gmap sorting list.
From S2P Require Import Prelude Memory Mm MmInv MmOps MmSpec MmThms.

Section Init.
Context (nl : Z).
Implicit Types (H : list (Z * list chunk)) (fl fr : list (Z * Z)) (m : mem).

(** ** Frames *)

(** No byte of [P] belongs to a chunk header or to a node of the node list. *)
Definition quiet H (P : Z → Prop) : Prop :=
  (∀ y c z, (y, c) ∈ chunks_of H → P z → ¬ y ≤ z < y + 8) ∧
  (∀ y s z, is_node nl H y s → P z → ¬ y ≤ z < y + 16).

Lemma region_quiet m m' H r P :
  quiet H P → same_but P m m' → r ∈ H → region_ok m r → region_ok m' r.
Proof.
  intros [Ho _] Hs Hr (? & ? & ? & ? & Hok & Hrr). split_and!; try done.
  eapply region_frame; [|exact Hrr]. intros x c Hx.
  assert (Hin : (x, c) ∈ chunks_of H) by (unfold chunks_of; apply list_elem_of_bind; eauto).
  split; (eapply same_but_ld32; [exact Hs|]); intros z Hz HP; apply (Ho _ _ _ Hin) in HP; lia.
Qed.

Lemma wf_frame m m' H fl fr P :
  quiet H P → same_but P m m' → wf nl m H fl fr → wf nl m' H fl fr.
Proof.
  intros Ho Hs Hw. pose proof (wf_shape _ _ _ _ _ Hw) as Hsh.
  assert (Hlk : ∀ y, y ∈ fl.*1 → n_flink m' y = n_flink m y ∧ n_blink m' y = n_blink m y).
  { intros y ((y' & t) & -> & Hy)%list_elem_of_fmap.
    pose proof (λ z, proj2 Ho y' t z (wf_node _ _ _ _ _ _ _ Hw Hy)) as Hz.
    split; (eapply same_but_ld32; [exact Hs|]); intros z Hb HP; apply Hz in HP; simpl in *; lia. }
  split; try (by eapply Hw).
  - pose proof (wf_regions _ _ _ _ _ Hw) as Hr. rewrite Forall_forall in *.
    intros r Hin. eapply region_quiet; eauto.
  - intros i Hi. rewrite <-(wf_heads _ _ _ _ _ Hw i Hi). eapply same_but_ld32; [exact Hs|].
    intros z Hz HP. apply (proj2 Ho (nodelist nl i) 0 z) in HP; [lia|]. left. by exists i.
  - pose proof (wf_dll _ _ _ _ _ Hw) as [Hf Hb].
    split; (eapply chain_ext; [|eassumption]); intros y Hy; apply Hlk; [done|].
    revert Hy. set_solver.
Qed.

(** Bytes outside the heap and the node array. *)
Lemma quiet_outside m H P : shape nl m H →
  (∀ e z, e ∈ (nl, 304) :: (extent <$> H) → P z → ¬ e.1 ≤ z < e.1 + e.2) → quiet H P.
Proof.
  intros Hs Ho. assert (Hc : ∀ y c z, (y, c) ∈ chunks_of H → P z → ¬ y ≤ z < y + c.1).
  { intros y c z Hy HP.
    destruct (chunk_region _ _ _ _ _ Hs Hy) as (r & Hr & (_ & _ & _ & _ & Hok & _) & Hin).
    pose proof (caddrs_bounds _ _ _ _ (full_nonneg _ Hok) Hin).
    apply (Ho (extent r)) in HP; [|right; by apply list_elem_of_fmap_2].
    unfold extent in HP. cbn [fst snd] in HP. lia. }
  split.
  - intros y c z Hy HP. pose proof (chunk_bounds _ _ _ _ _ Hs Hy).
    apply (Hc _ _ _ Hy) in HP. lia.
  - intros y s z [(i & Hi & -> & ->)|Hx] HP.
    + apply (Ho (nl, 304)) in HP; [|in_list].
      unfold nodelist, SIZEOF_MM_FREENODE in *. change MM_NNODES with 19 in Hi. simpl in HP. lia.
    + pose proof (chunk_bounds _ _ _ _ _ Hs Hx) as (_ & _ & _ & _ & [H16 _] & _); [done|].
      apply (Hc _ _ _ Hx) in HP. unfold SIZEOF_MM_FREENODE in *. simpl in *. lia.
Qed.

(** The user bytes of a chunk in use. *)
Lemma quiet_payload m H x s : shape nl m H → live H x s → quiet H (λ z, x + 8 ≤ z < x + s).
Proof.
  intros Hs Hl. split.
  - intros y c z Hy ? ?. pose proof (chunk_bounds _ _ _ _ _ Hs Hy).
    destruct (chunk_apart _ _ _ _ _ _ _ Hs Hl Hy) as [[-> _]|[?|?]]; cbn [fst snd] in *; lia.
  - intros y t z Hy ? ?. destruct Hy as [(i & Hi & -> & ->)|Hy].
    + destruct (head_apart _ _ _ _ _ _ Hs Hi Hl); cbn [fst snd] in *; lia.
    + pose proof (chunk_bounds _ _ _ _ _ Hs Hy) as (_ & _ & _ & _ & [H16 _] & _); [done|].
      unfold SIZEOF_MM_FREENODE in *.
      destruct (chunk_apart _ _ _ _ _ _ _ Hs Hl Hy) as [[_ [=]]|[?|?]]; cbn [fst snd] in *; lia.
Qed.

Lemma heap_inv_frame st H m' P :
  heap_inv nl st H → quiet H P → same_but P (mm_mem st) m' → heap_inv nl (with_mem st m') H.
Proof.
  intros Hi Hq Hs. destruct (hi_wf _ _ _ Hi) as [fl Hw].
  eapply heap_inv_update; [done|done| |by eapply hi_coalesced]. by eapply wf_frame.
Qed.

(** ** A new region *)

Lemma disj_snoc l x : disj l → Forall (apart x) l → disj (l ++ [x]).
Proof.
  induction l as [|y l IH]; cbn [disj app]; [done|].
  intros [Hy Hd] [Hxy Hx]%Forall_cons. split; [|by apply IH].
  apply Forall_app. split; [done|]. apply Forall_singleton. destruct Hxy; [by right|by left].
Qed.

Lemma wf_addregion m H fl fr r :
  wf nl m H fl fr → region_ok m r →
  Forall (apart (extent r)) ((nl, 304) :: (extent <$> H)) → wf nl m (H ++ [r]) fl fr.
Proof.
  intros Hw Hr Ha. split; try (by eapply Hw).
  - apply Forall_app. split; [by eapply Hw|by apply Forall_singleton].
  - rewrite fmap_app. apply (disj_snoc ((nl, 304) :: (extent <$> H))); [by eapply Hw|done].
  - intros x s Hx%(wf_fr _ _ _ _ _ Hw). unfold chunks_of in *. rewrite bind_app.
    apply elem_of_app. by left.
Qed.

(** The six header stores of mm_addregion. *)
Definition region_headers m (b e : Z) : mem :=
  let m := set_size m b SIZEOF_MM_ALLOCNODE in
  let m := set_preceding m b MM_ALLOC_BIT in
  let m := set_size m (b + 8) (e - b - 16) in
  let m := set_preceding m (b + 8) SIZEOF_MM_ALLOCNODE in
  let m := set_size m (e - 8) SIZEOF_MM_ALLOCNODE in
  set_preceding m (e - 8) (e - b - 16 + flag true).

Lemma tot_single s : tot (full [(s, false)]) = s + 16.
Proof. change (tot (full [(s, false)])) with (8 + (s + (8 + 0))). lia. Qed.

Lemma region_headers_ok m b e :
  0 < b → e ≤ 2 ^ 32 → e - b < 2 ^ 31 → (16 | b) → (16 | e) → b + 32 ≤ e →
  region_ok (region_headers m b e) (b, [(e - b - 16, false)]) ∧
  same_but (λ z, b ≤ z < e) m (region_headers m b e).
Proof.
  intros ? ? ? [kb Hb] [ke He] ?. split.
  - unfold region_ok. cbn [fst snd]. rewrite tot_single. split_and!; try lia.
    + exists (2 * kb). lia.
    + apply Forall_singleton. split; cbn [fst]; [unfold SIZEOF_MM_FREENODE; lia|].
      exists (2 * ke - 2 * kb - 2). lia.
    + unfold full, GUARD. cbn [app region].
      unfold region_headers, n_size, n_preceding, set_size, set_preceding.
      change SIZEOF_MM_ALLOCNODE with 8. change MM_ALLOC_BIT with (2 ^ 31).
      change (flag true) with (2 ^ 31). change (flag false) with 0.
      replace (b + 8 + (e - b - 16)) with (e - 8) by lia.
      ldst. rewrite !Z.mod_small by lia. split_and!; lia.
  - unfold region_headers, set_size, set_preceding.
    repeat (eapply same_but_trans; [|apply same_but_st32; cbn beta; lia]). apply same_but_refl.
Qed.

Lemma region_headers_eq m b e : 0 ≤ e - b - 16 < 2 ^ 31 → b + 32 ≤ e →
  (let m := set_size m b SIZEOF_MM_ALLOCNODE in
   let m := set_preceding m b MM_ALLOC_BIT in
   let m := set_size m (b + SIZEOF_MM_ALLOCNODE) (e - b - 16) in
   let m := set_preceding m (b + SIZEOF_MM_ALLOCNODE) SIZEOF_MM_ALLOCNODE in
   let m := set_size m (e - SIZEOF_MM_ALLOCNODE) SIZEOF_MM_ALLOCNODE in
   set_preceding m (e - SIZEOF_MM_ALLOCNODE)
     (Z.lor (n_size m (b + SIZEOF_MM_ALLOCNODE)) MM_ALLOC_BIT)) = region_headers m b e.
Proof.
  intros ? ?. unfold region_headers. cbn zeta. change SIZEOF_MM_ALLOCNODE with 8. f_equal.
  change MM_ALLOC_BIT with (flag true) at 2. rewrite <-lor_flag by lia. f_equal.
  unfold n_size, set_size, set_preceding. ldst. apply Z.mod_small. lia.
Qed.

Lemma heap_bytes_snoc H r : heap_bytes (H ++ [r]) = heap_bytes H + tot (full r.2).
Proof. unfold heap_bytes. induction H; cbn [app foldr]; lia. Qed.

Lemma frees_of_snoc H b s : frees_of (H ++ [(b, [(s, false)])]) = frees_of H ++ [(b + 8, s)].
Proof. unfold frees_of. by rewrite bind_app. Qed.

Lemma mm_fuel_mono a a' : 0 ≤ a ≤ a' → (mm_fuel a ≤ mm_fuel a')%nat.
Proof.
  intros ?. unfold mm_fuel. change SIZEOF_MM_FREENODE with 16. change MM_NNODES with 19.
  assert (0 ≤ a / 16) by (apply Z.div_pos; lia).
  assert (a / 16 ≤ a' / 16) by (apply Z.div_le_mono; lia). lia.
Qed.

(** mm_addregion makes one free chunk of the region, between two guards. *)
Lemma add_abs st H start size :
  let b := start + 15 - (start + 15) mod 16 in
  let e := start + size - (start + size) mod 16 in
  heap_inv nl st H → 0 < start → 0 ≤ size → start + 15 < 2 ^ 32 → start + size < 2 ^ 32 →
  b + 32 ≤ e → e - b < 2 ^ 31 → heap_bytes H + (e - b) < 2 ^ 32 →
  Forall (apart (b, e - b)) ((nl, 304) :: (extent <$> H)) →
  (length H < CONFIG_MM_REGIONS)%nat → length (g_heapstart st) = CONFIG_MM_REGIONS →
  length (g_heapend st) = CONFIG_MM_REGIONS →
  ∃ st', mm_addregion nl start size st = Some st' ∧
    heap_inv nl st' (H ++ [(b, [(e - b - 16, false)])]) ∧
    g_mm_semaphore st' = g_mm_semaphore st ∧ g_holder st' = g_holder st ∧
    g_counts_held st' = g_counts_held st ∧
    payload_kept H (mm_mem st) (mm_mem st').
Proof.
  intros b e Hi H0 Hsz H1 H2 H3 H4 H5 Hap Hn Hls Hle.
  assert (Hb16 : (16 | b)).
  { exists ((start + 15) / 16). unfold b. pose proof (Z.div_mod (start + 15) 16). lia. }
  assert (He16 : (16 | e)).
  { exists ((start + size) / 16). unfold e. pose proof (Z.div_mod (start + size) 16). lia. }
  assert (0 < b) by (unfold b; pose proof (Z.mod_pos_bound (start + 15) 16); lia).
  assert (e ≤ 2 ^ 32) by (unfold e; pose proof (Z.mod_pos_bound (start + size) 16); lia).
  destruct (region_headers_ok (mm_mem st) b e) as [Hrok Hrs]; [done..|].
  destruct (hi_wf _ _ _ Hi) as [fl Hw].
  assert (0 ≤ heap_bytes H).
  { pose proof (frees_of_length _ _ (wf_regions _ _ _ _ _ Hw)). lia. }
  set (r := (b, [(e - b - 16, false)])).
  assert (Ext : extent r = (b, e - b)) by (unfold extent, r; cbn [fst snd]; rewrite tot_single; f_equal; lia).
  assert (Hw1 : wf nl (region_headers (mm_mem st) b e) (H ++ [r]) fl (frees_of H)).
  { apply wf_addregion; [|done|by rewrite Ext]. eapply wf_frame; [|exact Hrs|exact Hw].
    eapply quiet_outside; [by eapply wf_shape|].
    intros x z Hx Hz. rewrite Forall_forall in Hap. specialize (Hap x Hx).
    unfold apart in Hap. cbn [fst snd] in Hap. lia. }
  pose proof (wf_shape _ _ _ _ _ Hw1) as Hs1.
  assert (Hin : (b + 8, (e - b - 16, false)) ∈ chunks_of (H ++ [r])).
  { apply elem_of_frees_of. unfold r. rewrite frees_of_snoc. in_list. }
  assert (Hnot : b + 8 ∉ (frees_of H).*1).
  { intros ((y & t) & Ey & Hy)%list_elem_of_fmap. simpl in Ey. subst y.
    apply elem_of_frees_of in Hy.
    destruct (chunk_in_extent _ _ _ (heap_inv_tidy _ _ _ Hi) Hy) as (x & Hx & ? & ? & ?).
    rewrite Forall_forall in Hap. destruct (Hap x); [in_list|..]; cbn [fst snd] in *; lia. }
  assert (Hfu : (length fl ≤ mm_fuel (w32 (g_heapsize st + (e - b))))%nat).
  { rewrite (hi_size _ _ _ Hi). unfold w32.
    rewrite Z.mod_small by lia. transitivity (mm_fuel (heap_bytes H)); [by eapply wf_fuel|].
    apply mm_fuel_mono. lia. }
  destruct (wf_addfree nl _ _ _ _ _ _ _ Hw1 Hin Hnot Hfu) as (m' & fl' & E & Hw' & Hs').
  assert (Eup : MM_ALIGN_UP start = b) by (apply mm_align_up_eq; lia).
  assert (Edn : MM_ALIGN_DOWN (w32 (start + size)) = e).
  { unfold w32. rewrite (Z.mod_small (start + size)) by lia. apply mm_align_down_eq. lia. }
  assert (Ew : w32 (e - b) = e - b) by (apply Z.mod_small; lia).
  assert (Ew2 : w32 (e - b - 2 * SIZEOF_MM_ALLOCNODE) = e - b - 16).
  { change SIZEOF_MM_ALLOCNODE with 8. unfold w32. rewrite Z.mod_small; lia. }
  unfold mm_addregion. rewrite Eup, Edn, Ew, Ew2, (hi_n _ _ _ Hi), (proj2 (Nat.ltb_lt _ _) Hn).
  cbn [negb]. cbn zeta in *. rewrite region_headers_eq by lia.
  change (b + SIZEOF_MM_ALLOCNODE) with (b + 8). rewrite E. cbn [mbind option_bind].
  eexists. split; [reflexivity|]. split; [|split_and!; [done..|]].
  - split; cbn [mm_mem g_heapsize g_nregions g_heapstart g_heapend].
    + exists fl'. eapply wf_fr_perm; [|exact Hw']. unfold r. rewrite frees_of_snoc. solve_Permutation.
    + apply Forall_app. split; [by eapply hi_coalesced|]. by apply Forall_singleton.
    + rewrite heap_bytes_snoc. unfold r. cbn [snd]. rewrite tot_single, (hi_size _ _ _ Hi).
      unfold w32. rewrite Z.mod_small; lia.
    + rewrite heap_bytes_snoc. unfold r. cbn [snd]. rewrite tot_single. lia.
    + rewrite length_app. simpl. lia.
    + intros i q Hq. apply lookup_snoc_Some in Hq as [[Hlt Hq]|[-> <-]].
      * rewrite !list_lookup_insert_ne by lia. by eapply hi_ends.
      * rewrite !list_lookup_insert_eq by lia. unfold r. cbn [fst snd]. rewrite tot_single.
        split; [done|]. f_equal. change SIZEOF_MM_ALLOCNODE with 8. lia.
  - intros y t z Hy Hz. cbn [mm_mem].
    destruct (chunk_in_extent _ _ _ (heap_inv_tidy _ _ _ Hi) Hy) as (x & Hx & ? & ? & ?).
    rewrite Forall_forall in Hap. specialize (Hap x). unfold apart in Hap. cbn [fst snd] in *.
    assert (z < b ∨ e ≤ z) by (destruct Hap; [in_list|lia|lia]).
    rewrite Hs'.
    2:{ intros (w & [->|Hw0]%elem_of_cons & ?); [lia|].
        apply (links_payload nl (mm_mem st) H (fl.*1) y t z); [by eapply wf_shape|by eapply wf_nodes|exact Hy|lia|by exists w]. }
    apply Hrs. lia.
Qed.

(** ** The empty node list *)

Lemma nodelist_links_frame m i n : 1 ≤ i → i + Z.of_nat n ≤ 19 →
  same_but (in_links (heads nl).*1) m (nodelist_links nl m i n).
Proof.
  revert m i. induction n as [|n IH]; intros m i Hi Hn; [apply same_but_refl|].
  cbn [nodelist_links]. eapply same_but_trans; [|apply IH; lia].
  eapply same_but_trans; [apply same_links_flink|apply same_links_blink]; apply heads_fmap;
    change MM_NNODES with 19.
  - exists (i - 1). split; [lia|done].
  - exists i. split; [lia|done].
Qed.

Lemma nodelist_links_spec m i n j : 0 < nl → nl + 304 ≤ 2 ^ 32 →
  1 ≤ i → i + Z.of_nat n ≤ 19 → 0 ≤ j < 19 →
  n_flink (nodelist_links nl m i n) (nodelist nl j) =
    (if decide (i - 1 ≤ j < i - 1 + Z.of_nat n) then nodelist nl (j + 1)
     else n_flink m (nodelist nl j)) ∧
  n_blink (nodelist_links nl m i n) (nodelist nl j) =
    (if decide (i ≤ j < i + Z.of_nat n) then nodelist nl (j - 1)
     else n_blink m (nodelist nl j)).
Proof.
  intros ? ?. revert m i. induction n as [|n IH]; intros m i Hi Hn Hj.
  { cbn [nodelist_links]. rewrite !decide_False by lia. done. }
  cbn [nodelist_links]. destruct (IH (set_nblink (set_nflink m (nodelist nl (i - 1)) (nodelist nl i))
    (nodelist nl i) (nodelist nl (i - 1))) (i + 1)) as [-> ->]; [lia..|].
  assert (Hnl : ∀ k, nodelist nl k = nl + 16 * k) by done.
  rewrite flink_set_blink, flink_set_flink, blink_set_blink, blink_set_flink by (rewrite !Hnl; lia).
  split; repeat case_decide; rewrite ?Hnl in *; try lia; done.
Qed.

Lemma heads_sorted : StronglySorted (keyle nl) (heads nl).
Proof.
  unfold heads. assert (Hg : ∀ k n, StronglySorted (keyle nl)
    ((λ i : nat, (nodelist nl (Z.of_nat i), 0)) <$> seq k n)); [|apply Hg].
  intros k n. revert k. induction n as [|n IH]; intros k; [constructor|].
  cbn [seq]. rewrite fmap_cons. constructor; [apply IH|].
  apply Forall_fmap, Forall_forall. intros i Hi. apply elem_of_seq in Hi. unfold keyle.
  cbn [compose]. rewrite !key_head by lia.
  assert (2 ^ (Z.of_nat k + 4) ≤ 2 ^ (Z.of_nat i + 4)) by (apply Z.pow_le_mono_r; lia). lia.
Qed.

(** The links of the array, read back as a list. *)
Lemma heads_dll m : (∀ j, 0 ≤ j < 19 →
    n_flink m (nodelist nl j) = (if j =? 18 then 0 else nodelist nl (j + 1)) ∧
    n_blink m (nodelist nl j) = (if j =? 0 then 0 else nodelist nl (j - 1))) →
  dll (n_flink m) (n_blink m) ((heads nl).*1).
Proof.
  intros Hj. unfold heads. cbn [seq fmap list_fmap fst Z.of_nat Pos.of_succ_nat Pos.succ].
  split; cbn [reverse rev_append chain head default].
  all: repeat split;
    match goal with |- _ (nodelist nl ?k) = _ => destruct (Hj k) as [E1 E2]; [lia|]; first [rewrite E1|rewrite E2]; reflexivity end.
Qed.

Lemma wf_empty m : 0 < nl → nl + 304 ≤ 2 ^ 32 →
  wf nl (nodelist_links nl (memset m nl 0 304) 1 18) [] (heads nl) [].
Proof.
  intros H1 H2. set (m0 := memset m nl 0 304).
  assert (Hz : ∀ a, nl ≤ a → a + 4 ≤ nl + 304 → ld32 m0 a = 0).
  { intros a ? ?. Local Transparent ld32. unfold ld32, m0. rewrite !getb_memset.
    change (Z.of_nat 304) with 304. rewrite !decide_True by lia. done. Local Opaque ld32. }
  assert (Hnl : ∀ k, nodelist nl k = nl + 16 * k) by done.
  assert (Hs : same_but (in_links (heads nl).*1) m0 (nodelist_links nl m0 1 18))
    by (apply nodelist_links_frame; lia).
  assert (Hl := λ j, nodelist_links_spec m0 1 18 j H1 H2 ltac:(lia) ltac:(lia)).
  revert Hs Hl. generalize (nodelist_links nl m0 1 18). clearbody m0. intros m1 Hs Hl.
  split; try done.
  - intros i Hi. change MM_NNODES with 19 in Hi.
    unfold n_size. rewrite (same_but_ld32 _ _ _ _ Hs).
    + rewrite Hz; [done|rewrite Hnl; lia..].
    + intros z Hz' (x & (j & Hj & ->)%heads_fmap & ?). rewrite !Hnl in *. lia.
  - apply heads_dll. intros j Hj. destruct (Hl j Hj) as [-> ->].
    unfold n_flink, n_blink. rewrite !Hz by (rewrite Hnl; lia).
    split; case_decide; case_test; try lia; done.
  - apply heads_sorted.
  - by intros x s ?%not_elem_of_nil.
  - constructor.
Qed.

(** The state of the globals before the first region is added. *)
Lemma heap_inv_empty m hs he sem holder counts : 0 < nl → nl + 304 ≤ 2 ^ 32 →
  heap_inv nl (mk_mm (nodelist_links nl (memset m nl 0 304) 1 18) 0 hs he 0 sem holder counts) [].
Proof.
  intros H1 H2. split; cbn [mm_mem g_heapsize g_nregions g_heapstart g_heapend]; try done.
  exists (heads nl). by apply wf_empty.
Qed.

Lemma live_single b s x t : live [(b, [(s, false)])] x t → t = 8.
Proof.
  unfold live.
  change (chunks_of [(b, [(s, false)])]) with [(b, GUARD); (b + 8, (s, false)); (b + 8 + s, GUARD)].
  rewrite !elem_of_cons. intros [[= _ ->]|[[=]|[[= _ ->]|[]%not_elem_of_nil]]]; done.
Qed.

Lemma init_abs st start size :
  let b := start + 15 - (start + 15) mod 16 in
  let e := start + size - (start + size) mod 16 in
  0 < nl → nl + 304 ≤ 2 ^ 32 → 0 < start → 0 ≤ size → start + 15 < 2 ^ 32 →
  start + size < 2 ^ 32 → b + 32 ≤ e → e - b < 2 ^ 31 → apart (b, e - b) (nl, 304) →
  length (g_heapstart st) = CONFIG_MM_REGIONS → length (g_heapend st) = CONFIG_MM_REGIONS →
  ∃ st', mm_initialize nl start size st = Some st' ∧
    heap_inv nl st' [(b, [(e - b - 16, false)])] ∧
    g_mm_semaphore st' = 1 ∧ g_holder st' = -1 ∧ g_counts_held st' = 0.
Proof.
  intros b e H1 H2 H3 H4 H5 H6 H7 H8 Hap Hs He. unfold mm_initialize.
  change (Z.to_nat (SIZEOF_MM_FREENODE * MM_NNODES)) with 304%nat.
  change (Z.to_nat (MM_NNODES - 1)) with 18%nat. unfold mm_seminitialize, with_sem.
  cbn [mm_mem g_heapsize g_heapstart g_heapend g_nregions].
  destruct (add_abs _ [] start size (heap_inv_empty (mm_mem st) (g_heapstart st) (g_heapend st) 1 (-1) 0 H1 H2))
    as (st' & E & Hi & E1 & E2 & E3 & _); fold b e; try done.
  - unfold heap_bytes. cbn [foldr]. lia.
  - by apply Forall_singleton.
  - simpl. unfold CONFIG_MM_REGIONS. lia.
  - exists st'. split_and!; done.
Qed.

(** mm_initialize turns any region that is large enough, aligned or not, into a well-formed
    heap with one free chunk between two guards, and leaves the heap's semaphore ready for use. *)
Theorem mm_initialize_correct st start size my_pid :
  let b := start + 15 - (start + 15) mod 16 in
  let e := start + size - (start + size) mod 16 in
  0 < nl → nl + 304 ≤ 2 ^ 32 → 0 < start → 0 ≤ size → start + 15 < 2 ^ 32 →
  start + size < 2 ^ 32 → b + 32 ≤ e → e - b < 2 ^ 31 → apart (b, e - b) (nl, 304) →
  length (g_heapstart st) = CONFIG_MM_REGIONS → length (g_heapend st) = CONFIG_MM_REGIONS →
  my_pid ≠ -1 →
  ∃ st', mm_initialize nl start size st = Some st' ∧
    represents nl st' [(b, [(e - b - 16, false)])] ∅ ∧ sem_ready my_pid st'.
Proof.
  intros b e H1 H2 H3 H4 H5 H6 H7 H8 Hap Hs He Hp.
  destruct (init_abs st start size) as (st' & E & Hi & E1 & E2 & E3); try done.
  exists st'. split_and!; [done|split; [exact Hi|]|].
  - intros x s. rewrite lookup_empty. split; [done|]. intros [Hl Hx].
    apply live_single in Hl. lia.
  - right. rewrite E1, E2, E3. lia.
Qed.

(** mm_addregion adds a disjoint region to a heap in use: the heap stays well-formed, gains one
    free chunk, and neither the chunks in use nor their contents change. *)
Theorem mm_addregion_correct st H A start size :
  let b := start + 15 - (start + 15) mod 16 in
  let e := start + size - (start + size) mod 16 in
  represents nl st H A → 0 < start → 0 ≤ size → start + 15 < 2 ^ 32 → start + size < 2 ^ 32 →
  b + 32 ≤ e → e - b < 2 ^ 31 → heap_bytes H + (e - b) < 2 ^ 32 →
  Forall (apart (b, e - b)) ((nl, 304) :: (extent <$> H)) →
  (length H < CONFIG_MM_REGIONS)%nat → length (g_heapstart st) = CONFIG_MM_REGIONS →
  length (g_heapend st) = CONFIG_MM_REGIONS →
  ∃ st', mm_addregion nl start size st = Some st' ∧
    represents nl st' (H ++ [(b, [(e - b - 16, false)])]) A ∧
    contents_kept A A (mm_mem st) (mm_mem st').
Proof.
  intros b e [Hi HA] H1 H2 H3 H4 H5 H6 H7 Hap Hn Hs He.
  destruct (add_abs st H start size Hi) as (st' & E & Hi' & _ & _ & _ & Hk); try done.
  exists st'. split; [exact E|]. split; [split; [exact Hi'|]|].
  - intros x s. rewrite HA. unfold live, chunks_of. rewrite bind_app, elem_of_app.
    split; [intuition|]. intros [[Hl|Hl%live_single] Hx]; [done|lia].
  - intros x s z [Hl _]%HA _ Hz. by eapply Hk.
Qed.
End Init.
