(* ===== verification/MmLib.v ===== *)
(** zalloc, calloc and mallinfo on a well-formed heap, what a caller may do with
    the memory it was given, and the calls that break the heap. *)

From stdpp Require Import base numbers gmap sorting list.
From S2P Require Import Prelude Memory Mm MmInv MmOps MmSpec MmThms MmInit.

Section Lib.
Context (nl : Z).
Implicit Types (H : list (Z * list chunk)) (m : mem).

Lemma represents_frame st H A x s m' :
  represents nl st H A → A !! x = Some s →
  same_but (λ z, x + 8 ≤ z < x + s) (mm_mem st) m' → represents nl (with_mem st m') H A.
Proof.
  intros [Hi HA] Hx Hs. split; [|done]. apply HA in Hx as [Hl _].
  destruct (hi_wf _ _ _ Hi) as [fl Hw].
  eapply heap_inv_frame; [done| |exact Hs]. eapply quiet_payload; [by eapply wf_shape|done].
Qed.

(** Writing anywhere inside the payload of a chunk in use keeps the heap well-formed with the
    same chunks and changes no byte of another chunk. *)
Theorem user_writes_safe st H A x s dest n c :
  represents nl st H A → A !! x = Some s → x + 8 ≤ dest → dest + Z.of_nat n ≤ x + s →
  represents nl (with_mem st (memset (mm_mem st) dest c n)) H A ∧
  ∀ y t z, A !! y = Some t → y ≠ x → y ≤ z < y + t →
    getb (memset (mm_mem st) dest c n) z = getb (mm_mem st) z.
Proof.
  intros HR Hx Hd Hn. split.
  - eapply represents_frame; [exact HR|exact Hx|]. apply same_but_memset. intros z ?. cbn beta. lia.
  - intros y t z Hy Hne Hz. destruct HR as [Hi HA]. apply HA in Hx as [Hx _], Hy as [Hy _].
    destruct (live_apart _ _ _ _ _ _ _ Hi Hy Hx Hne); cbn [fst snd] in *;
      rewrite getb_memset, decide_False by lia; done.
Qed.

(** ** zalloc and calloc *)

Lemma zalloc_abs st H my_pid size :
  heap_inv nl st H → sem_ready my_pid st → 0 < size → size + 23 < 2 ^ 32 →
  zalloc nl my_pid size st = Some (0, st) ∨
  ∃ x c m' H', zalloc nl my_pid size st = Some (x + 8, with_mem st m') ∧
    heap_inv nl (with_mem st m') H' ∧ extent <$> H' = extent <$> H ∧ size + 8 ≤ c ∧
    (∀ y t, live H' y t ↔ live H y t ∨ (y = x ∧ t = c)) ∧
    payload_kept H (mm_mem st) m' ∧ (∀ z, x + 8 ≤ z < x + 8 + size → getb m' z = 0) ∧
    16 ≤ c ∧ ∀ t, ¬ live H x t.
Proof.
  intros Hi Hsem H0 H1. unfold zalloc.
  destruct (malloc_abs nl st H my_pid size Hi Hsem H0 H1) as [[-> _]|Hm]; [by left|right].
  destruct Hm as (x & s & c & m' & H' & -> & Hi' & He & Hf & _ & H16 & Hc & Hl & _ & Hk).
  cbn [mbind option_bind mm_mem with_mem].
  assert (Hx : live H' x c) by (apply Hl; by right).
  assert (0 < x).
  { destruct (hi_wf _ _ _ Hi') as [fl Hw].
    pose proof (chunk_bounds _ _ _ _ _ (wf_shape _ _ _ _ _ Hw) Hx). lia. }
  rewrite (proj2 (Z.eqb_neq (x + 8) 0)) by lia. cbn [negb].
  set (m2 := memset m' (x + 8) 0 (Z.to_nat size)).
  assert (Hs : same_but (λ z, x + 8 ≤ z < x + c) m' m2) by (apply same_but_memset; intros z ?; cbn beta; lia).
  exists x, c, m2, H'. split_and!; [done| |done|lia|done| | |lia|by intros t; eapply free_not_live].
  - destruct (hi_wf _ _ _ Hi') as [fl Hw]. change (with_mem st m2) with (with_mem (with_mem st m') m2).
    eapply heap_inv_frame; [done| |exact Hs]. eapply quiet_payload; [by eapply wf_shape|done].
  - intros y t z Hy Hz. rewrite Hs; [by eapply Hk|].
    assert (x ≠ y) by (intros ->; by eapply free_not_live in Hy).
    destruct (live_apart _ _ _ x c y t Hi' Hx) as [?|?]; cbn [fst snd] in *; [apply Hl; by left|done|lia|lia].
  - intros z Hz. unfold m2. rewrite getb_memset, decide_True by lia. done.
Qed.

(** When the product does not overflow, calloc either fails and changes nothing or returns a
    new chunk of at least n * elem_size bytes that are all zero, without touching the payload of the
    other chunks. *)
Theorem calloc_correct st H my_pid n elem_size :
  heap_inv nl st H → sem_ready my_pid st → 0 ≤ n → 0 ≤ elem_size → n * elem_size + 23 < 2 ^ 32 →
  calloc nl my_pid n elem_size st = Some (0, st) ∨
  ∃ x c m' H', calloc nl my_pid n elem_size st = Some (x + 8, with_mem st m') ∧
    heap_inv nl (with_mem st m') H' ∧ extent <$> H' = extent <$> H ∧ n * elem_size + 8 ≤ c ∧
    (∀ y t, live H' y t ↔ live H y t ∨ (y = x ∧ t = c)) ∧
    payload_kept H (mm_mem st) m' ∧
    ∀ z, x + 8 ≤ z < x + 8 + n * elem_size → getb m' z = 0.
Proof.
  intros Hi Hsem Hn He Hsz. unfold calloc. case_test; [|by left].
  assert (0 < n * elem_size) by nia. unfold w32. rewrite Z.mod_small by lia.
  destruct (zalloc_abs st H my_pid (n * elem_size)) as [E|(x & c & m' & H' & Hz)]; [done..|lia|lia| |].
  - by left.
  - right. exists x, c, m', H'. tauto.
Qed.

(** ** mallinfo *)

Definition info_add (i : mallinfo_s) (c : chunk) : mallinfo_s :=
  if c.2 then mk_info (arena i) (ordblks i) (mxordblk i) (uordblks i + c.1) (fordblks i)
  else mk_info (arena i) (ordblks i + 1) (mxordblk i `max` c.1) (uordblks i) (fordblks i + c.1).

Lemma info_add_sum i cs :
  uordblks (foldl info_add i cs) + fordblks (foldl info_add i cs) =
  uordblks i + fordblks i + tot cs.
Proof.
  revert i. induction cs as [|[s al] cs IH]; intros i; cbn [foldl]; [change (tot []) with 0; lia|].
  rewrite IH. change (tot ((s, al) :: cs)) with (s + tot cs). destruct al; simpl; lia.
Qed.

Lemma mallinfo_walk_spec fuel m a p cs i :
  region m a p cs → 0 ≤ p → p < 2 ^ 31 → Forall (λ c : chunk, 0 < c.1) cs → tot cs < 2 ^ 31 →
  (length cs ≤ fuel)%nat → 0 ≤ uordblks i → 0 ≤ fordblks i →
  uordblks i + fordblks i + tot cs < 2 ^ 32 →
  mallinfo_walk fuel m a (a + tot cs) i = Some (a + tot cs, foldl info_add i cs).
Proof.
  revert a p i fuel. induction cs as [|[s al] cs IH]; intros a p i fuel Hr Hp0 Hp Hpos Ht Hf Hu Hfo Hs.
  { change (tot []) with 0. rewrite Z.add_0_r. destruct fuel; simpl; by rewrite Z.ltb_irrefl. }
  destruct Hr as (Hsz & Hpr & Hr). apply Forall_cons in Hpos as [Hs0 Hpos]. cbn [fst] in Hs0.
  change (tot ((s, al) :: cs)) with (s + tot cs) in *.
  assert (0 ≤ tot cs) by (apply tot_nonneg; eapply Forall_impl; [exact Hpos|]; simpl; lia).
  destruct fuel as [|fuel]; [simpl in Hf; lia|]. cbn [mallinfo_walk foldl].
  rewrite (proj2 (Z.ltb_lt _ _)) by lia. rewrite Hsz, Hpr, alloc_bit_flag, flag_zero by lia.
  rewrite Z.add_assoc, negb_involutive.
  assert (E : (if al then mk_info (arena i) (ordblks i) (mxordblk i) (w32 (uordblks i + s)) (fordblks i)
    else mk_info (arena i) (ordblks i + 1) (if mxordblk i <? s then s else mxordblk i)
           (uordblks i) (w32 (fordblks i + s))) = info_add i (s, al)).
  { unfold info_add, w32. cbn [fst snd]. destruct al; rewrite Z.mod_small by lia; [done|].
    f_equal. case_test; lia. }
  rewrite E. apply (IH _ s); try done; try lia.
  - simpl in Hf. lia.
  - unfold info_add. destruct al; simpl; lia.
  - unfold info_add. destruct al; simpl; lia.
  - unfold info_add. destruct al; simpl; lia.
Qed.

(** All the chunks of the heap in address order, guards included. *)
Definition all_chunks H : list chunk := H ≫= λ r, full r.2.

Lemma tot_all H : tot (all_chunks H) = heap_bytes H.
Proof.
  unfold all_chunks. induction H as [|r H IH]; [done|].
  cbn [mbind list_bind heap_bytes foldr]. rewrite tot_app. change (foldr _ 0 H) with (heap_bytes H). lia.
Qed.

(** What the totals say, in terms of the free chunks. *)
Lemma foldl_info_frees i a cs :
  ordblks (foldl info_add i cs) = ordblks i + Z.of_nat (length (frees a cs)) ∧
  fordblks (foldl info_add i cs) = fordblks i + foldr Z.add 0 ((frees a cs).*2) ∧
  mxordblk (foldl info_add i cs) = foldl Z.max (mxordblk i) ((frees a cs).*2).
Proof.
  revert i a. induction cs as [|[s al] cs IH]; intros i a; cbn [foldl frees]; [simpl; lia|].
  destruct (IH (info_add i (s, al)) (a + s)) as (-> & -> & ->). destruct al; cbn; (split_and!; [lia|lia|done]).
Qed.

Lemma foldl_info_all i H :
  ordblks (foldl info_add i (all_chunks H)) = ordblks i + Z.of_nat (length (frees_of H)) ∧
  fordblks (foldl info_add i (all_chunks H)) = fordblks i + foldr Z.add 0 ((frees_of H).*2) ∧
  mxordblk (foldl info_add i (all_chunks H)) = foldl Z.max (mxordblk i) ((frees_of H).*2).
Proof.
  revert i. unfold all_chunks, frees_of. induction H as [|r H IH]; intros i; [simpl; lia|].
  cbn [mbind list_bind]. rewrite foldl_app.
  destruct (IH (foldl info_add i (full r.2))) as (-> & -> & ->).
  destruct (foldl_info_frees i r.1 (full r.2)) as (-> & -> & ->).
  rewrite fmap_app, foldl_app, foldr_app, length_app.
  assert (Hf : ∀ l z, foldr Z.add z l = foldr Z.add 0 l + z).
  { intros l z. induction l as [|w l IHl]; simpl; [lia|]. rewrite IHl. lia. }
  rewrite (Hf _ (foldr _ _ _)). split_and!; [lia|lia|done].
Qed.

Lemma mid_length mid : Forall chunk_ok mid → 16 * Z.of_nat (length mid) ≤ tot mid.
Proof.
  induction 1 as [|c mid [H16 _] _ IH]; [done|]. unfold SIZEOF_MM_FREENODE in H16.
  change (tot (c :: mid)) with (c.1 + tot mid). cbn [length]. lia.
Qed.

Lemma info_add_nonneg i cs : Forall (λ c : chunk, 0 ≤ c.1) cs →
  0 ≤ uordblks i → 0 ≤ fordblks i →
  0 ≤ uordblks (foldl info_add i cs) ∧ 0 ≤ fordblks (foldl info_add i cs).
Proof.
  intros Hc. revert i. induction Hc as [|[s al] cs Hs Hc IH]; intros i Hu Hf; [done|].
  cbn [foldl]. cbn [fst] in Hs. apply IH; unfold info_add; destruct al; simpl; lia.
Qed.

Lemma mallinfo_regions_spec fuel st H1 H2 i :
  (∀ j r, (H1 ++ H2) !! j = Some r →
     g_heapstart st !! j = Some r.1 ∧ g_heapend st !! j = Some (r.1 + tot (full r.2) - 8)) →
  Forall (region_ok (mm_mem st)) H2 → (mm_fuel (heap_bytes H2) ≤ fuel)%nat →
  0 ≤ uordblks i → 0 ≤ fordblks i → uordblks i + fordblks i + heap_bytes H2 < 2 ^ 32 →
  mallinfo_regions fuel st (length H1) (length H2) i = Some (foldl info_add i (all_chunks H2)).
Proof.
  revert H1 i. induction H2 as [|[b mid] H2 IH]; intros H1 i He Hr Hf Hu Hfo Hs; [done|].
  apply Forall_cons in Hr as [(Hb & ? & Hlt & _ & Hok & Hreg) Hr]. cbn [fst snd] in *.
  destruct (He (length H1) (b, mid)) as [Es Ee]; [by rewrite list_lookup_middle|].
  cbn [length mallinfo_regions]. rewrite Es, Ee. cbn [mbind option_bind fst snd].
  change (heap_bytes ((b, mid) :: H2)) with (tot (full mid) + heap_bytes H2) in *.
  assert (Etot : tot (full mid) = 8 + tot mid + 8).
  { unfold full. change (tot (GUARD :: mid ++ [GUARD])) with (8 + tot (mid ++ [GUARD])).
    rewrite tot_app. change (tot [GUARD]) with 8. lia. }
  pose proof (mid_length _ Hok) as Hml.
  assert (Hhb : 0 ≤ heap_bytes H2).
  { pose proof (frees_of_length _ _ Hr). lia. }
  assert (Hpos : Forall (λ c : chunk, 0 < c.1) (GUARD :: mid)).
  { pose proof (full_pos _ Hok) as Hp. unfold full in Hp.
    apply (Forall_app _ (GUARD :: mid) [GUARD]) in Hp. tauto. }
  assert (Hnn : Forall (λ c : chunk, 0 ≤ c.1) (GUARD :: mid)).
  { eapply Forall_impl; [exact Hpos|]. simpl. lia. }
  assert (E1 : tot (GUARD :: mid) = 8 + tot mid) by done.
  replace (b + tot (full mid) - 8) with (b + tot (GUARD :: mid)) by lia.
  rewrite (mallinfo_walk_spec _ _ _ 0); try done; try lia.
  2:{ unfold full in Hreg. apply (region_app _ _ _ (GUARD :: mid) [GUARD]) in Hreg. tauto. }
  2:{ cbn [length]. assert ((S (length mid) ≤ mm_fuel (tot (full mid) + heap_bytes H2))%nat); [|lia].
      unfold mm_fuel. change SIZEOF_MM_FREENODE with 16. change MM_NNODES with 19.
      assert (Z.of_nat (length mid) ≤ (tot (full mid) + heap_bytes H2) / 16)
        by (apply Z.div_le_lower_bound; lia). lia. }
  cbn [mbind option_bind]. rewrite Z.eqb_refl. cbn [negb].
  pose proof (info_add_sum i (GUARD :: mid)) as Hsum.
  destruct (info_add_nonneg i (GUARD :: mid) Hnn Hu Hfo) as [Hu1 Hf1].
  set (i1 := foldl info_add i (GUARD :: mid)) in *.
  assert (Ei : mk_info (arena i1) (ordblks i1) (mxordblk i1)
    (w32 (uordblks i1 + SIZEOF_MM_ALLOCNODE)) (fordblks i1) = foldl info_add i (full mid)).
  { unfold full. change (GUARD :: mid ++ [GUARD]) with ((GUARD :: mid) ++ [GUARD]).
    rewrite foldl_app. fold i1. cbn [foldl info_add GUARD fst snd].
    change SIZEOF_MM_ALLOCNODE with 8. unfold w32. by rewrite Z.mod_small by lia. }
  rewrite Ei. replace (S (length H1)) with (length (H1 ++ [(b, mid)])) by (rewrite length_app; simpl; lia).
  rewrite IH.
  - unfold all_chunks. cbn [mbind list_bind snd]. by rewrite foldl_app.
  - intros j r Hj. apply He. by rewrite <-app_assoc in Hj.
  - done.
  - assert ((mm_fuel (heap_bytes H2) ≤ mm_fuel (tot (full mid) + heap_bytes H2))%nat); [|lia].
    apply mm_fuel_mono. lia.
  - rewrite <-Ei. simpl. apply Z.mod_pos_bound. done.
  - rewrite <-Ei. done.
  - rewrite info_add_sum. lia.
Qed.

(** mallinfo walks every region and returns, and its fields are the size of the heap, the
    number of free chunks, the size of the largest one, the sum of their sizes, and the rest of the
    heap. *)
Theorem mallinfo_correct st H : heap_inv nl st H →
  ∃ u, mallinfo st = Some (mk_info (heap_bytes H) (Z.of_nat (length (frees_of H)))
                             (foldl Z.max 0 ((frees_of H).*2)) u
                             (foldr Z.add 0 ((frees_of H).*2))) ∧
    u + foldr Z.add 0 ((frees_of H).*2) = heap_bytes H.
Proof.
  intros Hi. destruct (hi_wf _ _ _ Hi) as [fl Hw]. pose proof (wf_regions _ _ _ _ _ Hw) as Hr.
  pose proof (frees_of_length _ _ Hr) as Hnn. pose proof (hi_size32 _ _ _ Hi).
  unfold mallinfo. rewrite (hi_n _ _ _ Hi), (hi_size _ _ _ Hi).
  rewrite (mallinfo_regions_spec _ _ [] H); try done; try (simpl; lia).
  2:{ intros j r Hj. by eapply hi_ends. }
  cbn [mbind option_bind].
  pose proof (info_add_sum (mk_info 0 0 0 0 0) (all_chunks H)) as Hsum. rewrite tot_all in Hsum.
  destruct (foldl_info_all (mk_info 0 0 0 0 0) H) as (E1 & E2 & E3).
  set (i := foldl info_add _ _) in *. cbn [ordblks fordblks mxordblk uordblks] in *.
  rewrite E1, E3. exists (uordblks i). rewrite Hsum. unfold w32. rewrite Z.mod_small by lia.
  rewrite (proj2 (Z.eqb_eq _ _)) by lia. cbn [negb]. rewrite E2. split; [f_equal; f_equal; lia|lia].
Qed.
End Lib.

(** A concrete heap of 512 bytes on which the hypotheses of the memory
    manager's theorems hold, and the calls that lead the code astray. *)

(** [g_nodelist] at 0x1000, one region of 0x200 bytes at 0x2000. *)
Definition globals0 : mm_state := mk_mm ∅ 0 [0; 0] [0; 0] 0 0 0 0.
Definition heap0 : mm_state := default globals0 (mm_initialize 0x1000 0x2000 0x200 globals0).

Lemma heap0_ok : heap_inv 0x1000 heap0 [(0x2000, [(0x1f0, false)])] ∧
  g_mm_semaphore heap0 = 1 ∧ g_holder heap0 = -1 ∧ g_counts_held heap0 = 0.
Proof.
  unfold heap0. destruct (init_abs 0x1000 globals0 0x2000 0x200) as (st' & -> & Hi & E);
    [by vm_compute..|by right; vm_compute|done|done|]. by split.
Qed.

#[local] Opaque heap0.

Lemma heap0_ready : sem_ready 3 heap0.
Proof. destruct heap0_ok as (_ & E1 & E2 & E3). right. rewrite E1, E2, E3. lia. Qed.

Lemma heap0_represents : represents 0x1000 heap0 [(0x2000, [(0x1f0, false)])] ∅.
Proof.
  split; [apply heap0_ok|]. intros x s. rewrite lookup_empty.
  split; [done|]. intros [Hl%live_single ?]. lia.
Qed.

Lemma mm_exec_refines_witness : ∃ ret m' H' A',
  mm_exec 0x1000 3 (OpMalloc 100) heap0 = Some (ret, with_mem heap0 m') ∧
  alloc_step (extent <$> [(0x2000, [(0x1f0, false)])]) ∅ (OpMalloc 100) ret A' ∧
  represents 0x1000 (with_mem heap0 m') H' A' ∧
  extent <$> H' = extent <$> [(0x2000, [(0x1f0, false)])] ∧ contents_kept ∅ A' (mm_mem heap0) m'.
Proof.
  apply mm_exec_refines; [apply heap0_represents|apply heap0_ready|]. simpl. lia.
Defined.

Lemma malloc_best_fit_witness : ∃ p st', malloc 0x1000 3 100 heap0 = Some (p, st') ∧
  (p = 0 ∧ st' = heap0 ∧ (∀ y t, (y, t) ∈ [(0x2008, 0x1f0)] → t < MM_ALIGN_UP (100 + 8)) ∨
   ∃ s, p ≠ 0 ∧ (p - 8, s) ∈ [(0x2008, 0x1f0)] ∧ MM_ALIGN_UP (100 + 8) ≤ s ∧
     ∀ y t, (y, t) ∈ [(0x2008, 0x1f0)] → MM_ALIGN_UP (100 + 8) ≤ t → s ≤ t).
Proof.
  apply (malloc_best_fit 0x1000 heap0 [(0x2000, [(0x1f0, false)])] 3 100);
    [apply heap0_ok|apply heap0_ready|lia|lia].
Defined.

Lemma malloc_free_restores_witness :
  ∃ st' m', malloc 0x1000 3 100 heap0 = Some (0x2010, st') ∧
    free 0x1000 3 0x2010 st' = Some (with_mem heap0 m') ∧
    heap_inv 0x1000 (with_mem heap0 m') [(0x2000, [(0x1f0, false)])].
Proof.
  assert (E : fst <$> malloc 0x1000 3 100 heap0 = Some 0x2010) by (vm_compute; reflexivity).
  destruct (malloc 0x1000 3 100 heap0) as [[p st']|] eqn:Em; [|done].
  injection E as ->.
  destruct (malloc_free_restores 0x1000 heap0 [(0x2000, [(0x1f0, false)])] 3 100 0x2010 st')
    as (m' & E & Hi & _); [apply heap0_ok|apply heap0_ready|lia|lia|exact Em|lia|].
  exists st', m'. split_and!; [reflexivity|exact E|exact Hi].
Defined.

Lemma mm_initialize_correct_witness :
  ∃ st', mm_initialize 0x1000 0x2000 0x200 globals0 = Some st' ∧
    represents 0x1000 st' [(0x2000, [(0x1f0, false)])] ∅ ∧ sem_ready 3 st'.
Proof.
  apply (mm_initialize_correct 0x1000 globals0 0x2000 0x200 3);
    [by vm_compute..|by right; vm_compute|done|done|done].
Defined.

Lemma calloc_correct_witness :
  calloc 0x1000 3 10 7 heap0 = Some (0, heap0) ∨
  ∃ x c m' H', calloc 0x1000 3 10 7 heap0 = Some (x + 8, with_mem heap0 m') ∧
    heap_inv 0x1000 (with_mem heap0 m') H' ∧ extent <$> H' = extent <$> [(0x2000, [(0x1f0, false)])] ∧
    10 * 7 + 8 ≤ c ∧ (∀ y t, live H' y t ↔ live [(0x2000, [(0x1f0, false)])] y t ∨ (y = x ∧ t = c)) ∧
    payload_kept [(0x2000, [(0x1f0, false)])] (mm_mem heap0) m' ∧
    ∀ z, x + 8 ≤ z < x + 8 + 10 * 7 → getb m' z = 0.
Proof. apply calloc_correct; [apply heap0_ok|apply heap0_ready|lia|lia|lia]. Defined.

Lemma mallinfo_correct_witness :
  ∃ u, mallinfo heap0 = Some (mk_info 0x200 1 0x1f0 u 0x1f0) ∧ u + 0x1f0 = 0x200.
Proof. apply (mallinfo_correct 0x1000 heap0 [(0x2000, [(0x1f0, false)])]). apply heap0_ok. Defined.

Lemma mm_addregion_correct_witness :
  ∃ st', mm_addregion 0x1000 0x3001 0x10f heap0 = Some st' ∧
    represents 0x1000 st' [(0x2000, [(0x1f0, false)]); (0x3010, [(0xf0, false)])] ∅ ∧
    contents_kept ∅ ∅ (mm_mem heap0) (mm_mem st').
Proof.
  apply (mm_addregion_correct 0x1000 heap0 [(0x2000, [(0x1f0, false)])] ∅ 0x3001 0x10f);
    [apply heap0_represents|by vm_compute..| |vm_compute; lia|by vm_compute|by vm_compute].
  apply Forall_cons. split; [right; by vm_compute|].
  apply Forall_singleton. right. by vm_compute.
Defined.

(** The heap after [malloc(100)]. *)
Lemma heap1_represents : ∃ m H c,
  represents 0x1000 (with_mem heap0 m) H {[ 0x2008 := c ]} ∧ 108 ≤ c.
Proof.
  assert (E : fst <$> malloc 0x1000 3 100 heap0 = Some 0x2010) by (vm_compute; reflexivity).
  destruct heap0_represents as [Hi HA].
  destruct (malloc_abs 0x1000 heap0 [(0x2000, [(0x1f0, false)])] 3 100)
    as [[E0 _]|(x & s & c & m & H & E0 & Hi' & _ & _ & _ & ? & ? & Hl & _)];
    [apply Hi|apply heap0_ready|lia|lia|rewrite E0 in E; discriminate E|].
  rewrite E0 in E. apply (inj Some) in E. cbn [fst] in E. assert (x = 0x2008) as -> by lia.
  clear E E0. exists m, H, c. split; [split; [exact Hi'|]|lia]. intros y t. rewrite lookup_singleton_Some, Hl.
  split; [intros [<- <-]; split; [right; split; reflexivity|lia]|].
  intros [[Hy%live_single|[-> ->]] ?]; [lia|split; reflexivity].
Qed.

Lemma user_writes_safe_witness : ∃ st H A,
  represents 0x1000 st H A ∧ is_Some (A !! 0x2008) ∧
  represents 0x1000 (with_mem st (memset (mm_mem st) 0x2010 255 100)) H A.
Proof.
  destruct heap1_represents as (m & H & c & HR & Hc).
  exists (with_mem heap0 m), H, {[ 0x2008 := c ]}.
  split; [exact HR|]. split; [exists c; apply lookup_singleton_eq|].
  apply (user_writes_safe 0x1000 _ _ _ 0x2008 c);
    [exact HR|apply lookup_singleton_eq|lia|lia].
Defined.

(** ** Calls that lead the code astray *)

(** Finding: malloc(0xffffffff) returns a chunk of 16 bytes, because the aligned size wraps around. *)
Theorem malloc_size_wraps :
  (λ r, (r.1, n_size (mm_mem r.2) (r.1 - 8))) <$> malloc 0x1000 3 0xffffffff heap0 =
  Some (0x2010, 16).
Proof. vm_compute. reflexivity. Qed.

(** Finding: calloc(0x8000001, 0x20) returns a chunk of 48 bytes, because the product wraps around. *)
Theorem calloc_product_wraps :
  (λ r, (r.1, n_size (mm_mem r.2) (r.1 - 8))) <$> calloc 0x1000 3 0x8000001 0x20 heap0 =
  Some (0x2010, 48).
Proof. vm_compute. reflexivity. Qed.

(** A client of the allocator, and the chunk headers it leaves behind. *)
Definition realloc_after_memalign : option (Z * mm_state) :=
  '(a, st) ← memalign 0x1000 3 32 16 heap0;
  '(x, st) ← malloc 0x1000 3 16 st;
  st ← free 0x1000 3 a st;
  realloc 0x1000 3 x 56 st.

(** Finding: On a concrete heap realloc, extending a chunk that memalign left behind an 8-byte
    remainder, produces a heap in which a free chunk is smaller than its header and mallinfo does
    not terminate. *)
Theorem realloc_breaks_heap :
  match realloc_after_memalign with
  | Some (p, st) => p ≠ 0 ∧ mallinfo st = None ∧ n_size (mm_mem st) 0x2008 = 8
  | None => False
  end.
Proof. vm_compute. split; [discriminate|]. split; reflexivity. Qed.
