(* ===== verification/Kmalloc.v ===== *)
(** The kernel's allocator as its clients see it (include/nuttx/kmalloc.h, the
    kernel without CONFIG_NUTTX_KERNEL, where [kzalloc] is zalloc and [kfree] is
    free): an interface, what it promises, and the heap of mm/ as its
    implementation. *)

From stdpp Require Import base numbers gmap sorting list.
From S2P Require Import Prelude Memory Mm MmInv MmOps MmSpec MmThms MmInit MmLib.

(** The state [A] of an allocator; [None] is a failed assertion. *)
Class Kmalloc (A : Type) := {
  kzalloc : Z → A → option (Z * A);
  kfree : Z → A → option A }.

(** Sizes for which the sum with the header and its rounding fit [size_t]. *)
Definition request (n : Z) : Prop := 0 < n ∧ n + 23 < 2 ^ 32.

(** [k_owns a X]: the blocks in use are those at the addresses [X]. *)
Class KmallocLaws (A : Type) `{Kmalloc A} := {
  k_owns : A → gset Z → Prop;
  k_owns_nonnull a X : k_owns a X → 0 ∉ X;
  kzalloc_ok n a X : k_owns a X → request n →
    ∃ p a', kzalloc n a = Some (p, a') ∧
      (p = 0 ∧ a' = a ∨ p ≠ 0 ∧ p ∉ X ∧ k_owns a' ({[p]} ∪ X));
  kfree_ok p a X : k_owns a X → p ∈ X → ∃ a', kfree p a = Some a' ∧ k_owns a' (X ∖ {[p]}) }.

Section Heap.
Context (nl my_pid : Z) (Hpid : my_pid ≠ -1).

(** The heap with its lists at [nl], used by the task [my_pid]. *)
Definition mm_kmalloc : Kmalloc mm_state := {| kzalloc := zalloc nl my_pid; kfree := free nl my_pid |}.
#[local] Existing Instance mm_kmalloc.

(** The semaphore of the heap is free, and [X] holds the payloads of the chunks in use. *)
Definition mm_owns (st : mm_state) (X : gset Z) : Prop :=
  g_holder st = -1 ∧ g_counts_held st = 0 ∧ 0 < g_mm_semaphore st ∧
  ∃ H A, represents nl st H A ∧ ∀ p, p ∈ X ↔ is_Some (A !! (p - 8)).

Lemma mm_owns_ready st X : mm_owns st X → sem_ready my_pid st.
Proof using Hpid. intros (? & ? & ? & _). by right. Qed.

Lemma mm_owns_live st (X : gset Z) H A p : represents nl st H A → (∀ p, p ∈ X ↔ is_Some (A !! (p - 8))) →
  (p ∈ X ↔ ∃ s, live H (p - 8) s ∧ 16 ≤ s).
Proof.
  intros [_ HA] HX. rewrite HX. split; intros [s Hs]; exists s; by apply HA.
Qed.

(** A set of addresses that describes the live chunks of a heap after a call. *)
Lemma mm_owns_intro st H (X : gset Z) : g_holder st = -1 → g_counts_held st = 0 → 0 < g_mm_semaphore st →
  heap_inv nl st H → (∀ p, p ∈ X ↔ ∃ s, live H (p - 8) s ∧ 16 ≤ s) → mm_owns st X.
Proof.
  intros E1 E2 E3 Hi HX. split_and!; try done.
  set (l := filter (λ e : Z * chunk, e.2.2 = true ∧ 16 ≤ e.2.1) (chunks_of H)).
  set (A := list_to_map ((λ e : Z * chunk, (e.1, e.2.1)) <$> l) : gmap Z Z).
  assert (HA : ∀ x s, A !! x = Some s ↔ live H x s ∧ 16 ≤ s).
  { intros x s.
    assert (Hin : (x, s) ∈ (λ e : Z * chunk, (e.1, e.2.1)) <$> l ↔ live H x s ∧ 16 ≤ s).
    { rewrite list_elem_of_fmap. split.
      - intros ([y [t b]] & [= -> ->] & Hf). apply list_elem_of_filter in Hf as [[Hb ?] Hf].
        simpl in Hb. subst b. done.
      - intros [Hl ?]. exists (x, (s, true)). split; [done|]. apply list_elem_of_filter. done. }
    rewrite <-Hin. split; [apply elem_of_list_to_map_2|].
    intros Hxs. apply elem_of_list_to_map_1'; [|done].
    intros t Ht. apply list_elem_of_fmap in Ht as ([y [u b]] & [= -> ->] & Hf).
    apply list_elem_of_filter in Hf as [[Hb ?] Hf]. simpl in Hb. subst b.
    apply Hin in Hxs as [Hl ?]. eapply live_functional; [exact Hi|exact Hl|exact Hf]. }
  exists H, A. split; [by split|]. intros p. rewrite HX. split.
  - intros (s & Hs). exists s. by apply HA.
  - intros [s Hs]. exists s. by apply HA.
Qed.

Lemma mm_owns_nonnull st X : mm_owns st X → 0 ∉ X.
Proof using.
  intros (_ & _ & _ & H & A & Hr & HX) H0.
  apply (mm_owns_live _ _ _ _ _ Hr HX) in H0 as (s & Hl & _).
  destruct Hr as [Hi _]. destruct (hi_wf _ _ _ Hi) as [fl Hw].
  pose proof (chunk_bounds _ _ _ _ _ (wf_shape _ _ _ _ _ Hw) Hl). lia.
Qed.

Lemma mm_zalloc_ok n st X : mm_owns st X → request n →
  ∃ p st', kzalloc n st = Some (p, st') ∧
    (p = 0 ∧ st' = st ∨ p ≠ 0 ∧ p ∉ X ∧ mm_owns st' ({[p]} ∪ X)).
Proof using Hpid.
  intros Ho [Hn Hn']. pose proof (mm_owns_ready _ _ Ho) as Hsem.
  destruct Ho as (E1 & E2 & E3 & H & A & Hr & HX). pose proof (proj1 Hr) as Hi.
  destruct (zalloc_abs nl st H my_pid n Hi Hsem Hn Hn')
    as [E|(x & c & m' & H' & E & Hi' & _ & Hc & Hl & _ & _ & H16 & Hnl)].
  { exists 0, st. split; [exact E|]. by left. }
  assert (Hx : 0 < x).
  { destruct (hi_wf _ _ _ Hi') as [fl Hw].
    by apply (chunk_bounds _ _ _ x (c, true) (wf_shape _ _ _ _ _ Hw)), Hl; right. }
  exists (x + 8), (with_mem st m'). split; [exact E|]. right. split_and!; [lia| |].
  - intros (s & Hs & _)%(mm_owns_live _ _ _ _ _ Hr HX).
    replace (x + 8 - 8) with x in Hs by lia. by apply (Hnl s).
  - apply (mm_owns_intro _ H'); [done..|]. intros p.
    rewrite elem_of_union, elem_of_singleton, (mm_owns_live _ _ _ _ _ Hr HX). split.
    + intros [->|(s & Hs & ?)]; [exists c|exists s]; (split; [apply Hl|done]); [right|by left].
      split; [lia|done].
    + intros (s & Hs & ?). apply Hl in Hs as [Hs|[? ->]]; [right; by exists s|left; lia].
Qed.

Lemma mm_free_ok p st X : mm_owns st X → p ∈ X → ∃ st', kfree p st = Some st' ∧ mm_owns st' (X ∖ {[p]}).
Proof using Hpid.
  intros Ho Hp. pose proof (mm_owns_ready _ _ Ho) as Hsem.
  destruct Ho as (E1 & E2 & E3 & H & A & Hr & HX).
  apply (mm_owns_live _ _ _ _ _ Hr HX) in Hp as (s & Hs & H16).
  destruct (free_abs nl st H my_pid _ _ (proj1 Hr) Hsem Hs H16) as (m' & H' & E & Hi' & _ & Hl & _).
  replace (p - 8 + 8) with p in E by lia.
  exists (with_mem st m'). split; [exact E|]. apply (mm_owns_intro _ H'); [done..|]. intros q.
  rewrite elem_of_difference, elem_of_singleton, (mm_owns_live _ _ _ _ _ Hr HX). split.
  - intros [(t & Ht & ?) Hq]. exists t. split; [|done]. apply Hl. split; [done|lia].
  - intros (t & [Ht Hq]%Hl & ?). split; [by exists t|]. intros ->. done.
Qed.

Definition mm_kmalloc_laws : KmallocLaws mm_state := {|
  k_owns := mm_owns; k_owns_nonnull := mm_owns_nonnull; kzalloc_ok := mm_zalloc_ok; kfree_ok := mm_free_ok |}.
End Heap.
