(* ===== verification/Garbage.v ===== *)
(** Deallocation by the operating system: sched/sched_free.c,
    sched/sched_garbage.c and the round of the idle loop in sched/os_start.c
    that collects what was queued, without CONFIG_SCHED_WORKQUEUE (with it the
    collection is done by the worker thread and [sched_free] also wakes that
    thread, which changes nothing here).

    A block that cannot be freed where [sched_free] is called (in an interrupt
    handler, or when another task holds the memory manager) is linked into
    [g_delayeddeallocations] through its own first word, in the memory of the
    heap.  [kh_repr] describes such a kernel heap; every operation is proved to
    keep it, and [KernelHeap] is what the clients of the heap rely on. *)

From stdpp Require Import base numbers gmap sorting list.
From S2P Require Import Prelude Memory Queue Mm MmInv MmOps MmSpec MmThms MmInit MmLib Kmalloc.

(** [sq_entry_t] at the address of a block: the link is its first word. *)
#[export] Instance mem_sq : SqStore mem := {| flink := ld32; set_flink p v m := st32 m p v |}.

Record kheap := mk_kheap { kh_mm : mm_state; g_delayeddeallocations : queue_t }.

(** os_start.c: [sq_init(&g_delayeddeallocations)]. *)
Definition delayed_init (mm : mm_state) : kheap := mk_kheap mm sq_init.

Section Free.
Context (nl my_pid : Z).
Implicit Types (st : kheap) (address : Z).

Definition delay_free address st : kheap :=
  let '(q, m) := sq_addlast address (g_delayeddeallocations st) (mm_mem (kh_mm st)) in
  mk_kheap (with_mem (kh_mm st) m) q.

(** [irq] is [up_interrupt_context()]. *)
Definition sched_free (irq : bool) address st : option kheap :=
  if irq then Some (delay_free address st) else
  let '(ok, mm) := mm_trysemaphore my_pid (kh_mm st) in
  if negb ok then Some (delay_free address (mk_kheap mm (g_delayeddeallocations st)))
  else
    mm ← free nl my_pid address mm;
    Some (mk_kheap (mm_givesemaphore mm) (g_delayeddeallocations st)).

Fixpoint sched_garbagecollection (fuel : nat) st : option kheap :=
  if negb (q_head (g_delayeddeallocations st) =? 0) then
    match fuel with
    | O => None
    | S fuel =>
        let '(address, q, m) := sq_remfirst (g_delayeddeallocations st) (mm_mem (kh_mm st)) in
        let mm := with_mem (kh_mm st) m in
        mm ← (if negb (address =? 0) then free nl my_pid address mm else Some mm);
        sched_garbagecollection fuel (mk_kheap mm q)
    end
  else Some st.

(** One round of the idle loop. *)
Definition idle_collect (fuel : nat) st : option kheap :=
  let '(ok, mm) := mm_trysemaphore my_pid (kh_mm st) in
  if ok then
    st ← sched_garbagecollection fuel (mk_kheap mm (g_delayeddeallocations st));
    Some (mk_kheap (mm_givesemaphore (kh_mm st)) (g_delayeddeallocations st))
  else Some (mk_kheap mm (g_delayeddeallocations st)).

(** kmalloc() is malloc(). *)
Definition kmalloc (size : Z) st : option (Z * kheap) :=
  '(p, mm) ← malloc nl my_pid size (kh_mm st);
  Some (p, mk_kheap mm (g_delayeddeallocations st)).
End Free.

(** ** The queue of delayed blocks, in raw memory *)

(** Addresses at which links can be kept: 32 bits, and no two words overlap. *)
Definition link_space (l : list Z) : Prop :=
  (∀ a, a ∈ l → 0 ≤ a < 2 ^ 32) ∧ ∀ a b, a ∈ l → b ∈ l → a ≠ b → 4 ≤ Z.abs (a - b).

Lemma link_get l m p v y : link_space l → p ∈ l → y ∈ l → 0 ≤ v < 2 ^ 32 →
  ld32 (st32 m p v) y = if decide (y = p) then v else ld32 m y.
Proof.
  intros [Hr Ha] Hp Hy Hv. case_decide as E.
  - subst. rewrite ld32_st32_eq. by apply Z.mod_small.
  - apply ld32_st32_ne. apply Ha; [done..|]. congruence.
Qed.

Ltac mem_links Hl := repeat (rewrite (link_get _ _ _ _ _ Hl); [|set_solver by lia|set_solver|first [lia|apply Hl; set_solver]]);
  repeat case_decide; try congruence; try set_solver.

Lemma mem_addlast m q l x : sq_repr m q l → x ∉ l → x ≠ 0 → link_space (x :: l) →
  sq_repr (sq_addlast x q m).2 (sq_addlast x q m).1 (l ++ [x]).
Proof.
  intros (Hc & Hnd & H0 & Hh & Ht) Hx Hx0 Hl. unfold sq_addlast. rewrite Hh.
  case_match; zb; simpl.
  - apply head_zero in H as ->; [|done]. split_and!; simpl; [|apply NoDup_singleton|set_solver|done|done].
    split; [|done]. by rewrite ld32_st32_eq.
  - destruct (head_last_nonempty l) as (a & k & z & Ha & Hz & -> & ? & ?); [done..|].
    rewrite Hz in Ht. simpl in Ht. rewrite Ht. assert (0 ≤ x < 2 ^ 32) by (apply Hl; set_solver).
    split_and!; simpl.
    + eapply (chain_insert (ld32 m) _ _ []); rewrite ?app_nil_r; [done|..|done].
      * intros y Hy Hne. rewrite Hz in Hne. mem_links Hl.
      * intros p Hp. rewrite Hz in Hp. injection Hp as <-. mem_links Hl.
      * mem_links Hl.
    + apply NoDup_app. split_and!; [done| |apply NoDup_singleton]. set_solver.
    + set_solver.
    + rewrite Ha. by destruct k; simplify_eq/=.
    + by rewrite last_snoc.
Qed.

Lemma mem_remfirst m q x l : sq_repr m q (x :: l) → link_space (x :: l) →
  ∃ q', sq_remfirst q m = (x, q', st32 m x 0) ∧ sq_repr (st32 m x 0) q' l.
Proof.
  intros (Hc & Hnd & H0 & Hh & Ht) Hl. unfold sq_remfirst. simpl in *.
  destruct Hc as [Ha Hc]. apply NoDup_cons in Hnd as [Hal Hnd].
  rewrite Hh, (proj2 (Z.eqb_neq x 0)) by set_solver. simpl. rewrite Ha.
  eexists. split; [done|]. split_and!; simpl.
  - eapply chain_ext; [|done]. intros y Hy. mem_links Hl.
  - done.
  - set_solver.
  - by destruct (_ =? 0).
  - case_match; zb; simpl.
    + apply head_zero in H as ->; [done|set_solver].
    + destruct l; [done|]. by rewrite last_cons_cons in Ht.
Qed.

(** ** The kernel heap *)

Section Correct.
Context (nl my_pid : Z).
Implicit Types (st : kheap) (H : list (Z * list chunk)) (A : gmap Z Z) (D : list Z) (p : Z).

(** The chunks in use are [A]; the blocks [D], all of them in use, wait to be freed. *)
Record kh_repr st H A D : Prop := {
  kh_heap : represents nl (kh_mm st) H A;
  kh_queue : sq_repr (mm_mem (kh_mm st)) (g_delayeddeallocations st) D;
  kh_inuse : ∀ p, p ∈ D → is_Some (A !! (p - 8)) }.

(** The block at [p], payload of a chunk in use, has room for a link. *)
Lemma block_room mm H A p s : represents nl mm H A → A !! (p - 8) = Some s → 8 < p ∧ 16 ≤ s ∧ p - 8 + s ≤ 2 ^ 32.
Proof.
  intros [Hi HA] [Hl ?]%HA. destruct (hi_wf _ _ _ Hi) as [fl Hw].
  pose proof (chunk_bounds _ _ _ _ _ (wf_shape _ _ _ _ _ Hw) Hl). simpl in *. lia.
Qed.

Lemma blocks_apart mm H A p r s t : represents nl mm H A → A !! (p - 8) = Some s → A !! (r - 8) = Some t → p ≠ r →
  p - 8 + s ≤ r - 8 ∨ r - 8 + t ≤ p - 8.
Proof.
  intros [Hi HA] [Hp ?]%HA [Hr ?]%HA Hne. apply (live_apart _ _ _ _ _ _ _ Hi Hp Hr). lia.
Qed.

Lemma blocks_space mm H A l : represents nl mm H A → (∀ p, p ∈ l → is_Some (A !! (p - 8))) → link_space l.
Proof.
  intros HR Hl. split.
  - intros a [s Hs]%Hl. pose proof (block_room _ _ _ _ _ HR Hs). lia.
  - intros a b [s Hs]%Hl [t Ht]%Hl Hne.
    pose proof (block_room _ _ _ _ _ HR Hs). pose proof (block_room _ _ _ _ _ HR Ht).
    pose proof (blocks_apart _ _ _ _ _ _ _ HR Hs Ht Hne). lia.
Qed.

(** Writing the link of a block in use. *)
Lemma link_heap mm H A p v m : represents nl (with_mem mm m) H A → is_Some (A !! (p - 8)) →
  represents nl (with_mem mm (st32 m p v)) H A.
Proof.
  intros HR [s Hs]. pose proof (block_room _ _ _ _ _ HR Hs).
  change (with_mem mm (st32 m p v)) with (with_mem (with_mem mm m) (st32 m p v)).
  eapply represents_frame; [done..|]. apply same_but_st32. intros b ?. cbn beta. lia.
Qed.

(** The links of the waiting blocks survive whatever keeps the contents of the chunks in use. *)
Lemma queue_kept mm H A A' q D m' : represents nl mm H A → sq_repr (mm_mem mm) q D →
  (∀ p, p ∈ D → is_Some (A !! (p - 8)) ∧ A' !! (p - 8) = A !! (p - 8)) →
  contents_kept A A' (mm_mem mm) m' → sq_repr m' q D.
Proof.
  intros HR Hq HD Hk. eapply sq_repr_links; [|exact Hq]. intros p Hp.
  destruct (HD p Hp) as [[s Hs] Hs']. pose proof (block_room _ _ _ _ _ HR Hs).
  rewrite Hs in Hs'. cbn [flink mem_sq].
  apply (same_but_ld32 (λ b, getb m' b ≠ getb (mm_mem mm) b)).
  - intros b Hb. by destruct (decide (getb m' b = getb (mm_mem mm) b)).
  - intros b Hb Hn. apply Hn. eapply Hk; [done..|lia].
Qed.

(** Linking a block into the queue. *)
Lemma delay_free_ok p st H A D : kh_repr st H A D → is_Some (A !! (p - 8)) → p ∉ D →
  kh_repr (delay_free p st) H A (D ++ [p]) ∧
  ∃ m, kh_mm (delay_free p st) = with_mem (kh_mm st) m.
Proof.
  intros [HR Hq HD] Hp Hnew. unfold delay_free.
  assert (HD' : ∀ a, a ∈ p :: D → is_Some (A !! (a - 8))) by (intros a [->|?]%elem_of_cons; auto).
  assert (p ≠ 0) by (destruct Hp as [s Hs]; pose proof (block_room _ _ _ _ _ HR Hs); lia).
  pose proof (mem_addlast _ _ _ p Hq Hnew) as Ha. specialize (Ha ltac:(done) (blocks_space _ _ _ _ HR HD')).
  assert (Hm : represents nl (with_mem (kh_mm st) (sq_addlast p (g_delayeddeallocations st) (mm_mem (kh_mm st))).2) H A).
  { rewrite <-(with_mem_id (kh_mm st)) in HR. unfold sq_addlast. case_match; zb; simpl; [by apply link_heap|].
    apply link_heap; [by apply link_heap|]. apply HD'. right. by apply (sq_tail_in _ _ _ Hq). }
  destruct (sq_addlast p _ _) as [q m]. cbn [fst snd] in *. split; [|by eexists].
  split; cbn [kh_mm g_delayeddeallocations mm_mem with_mem]; [done|done|].
  intros a Ha'. apply HD'. set_solver.
Qed.

(** ** Freeing *)

Lemma represents_sem mm H A a b c : represents nl mm H A → represents nl (with_sem mm a b c) H A.
Proof. intros [[? ? ? ? ? ?] HA]. split; [|done]. by split. Qed.

(** The semaphore can be had without waiting, and given back. *)
Lemma try_give mm : sem_ready my_pid mm →
  ∃ a b c, mm_trysemaphore my_pid mm = (true, with_sem mm a b c) ∧ sem_ready my_pid (with_sem mm a b c) ∧
    ∀ m, mm_givesemaphore (with_mem (with_sem mm a b c) m) = with_mem mm m.
Proof.
  intros Hr. pose proof Hr as Hr'. destruct (take_give _ _ Hr) as (mm1 & E & _ & _ & Hg).
  unfold mm_takesemaphore in E. unfold mm_trysemaphore, sem_ready in *.
  destruct (g_holder mm =? my_pid) eqn:Eh; [|destruct (0 <? g_mm_semaphore mm) eqn:Es; [|done]]; zb;
    injection E as <-; do 3 eexists; (split; [done|]); (split; [|exact Hg]); simpl; lia.
Qed.

(** Freeing a block that does not wait, with the semaphore of the heap held. *)
Lemma free_repr p st H A D : kh_repr st H A D → sem_ready my_pid (kh_mm st) → is_Some (A !! (p - 8)) → p ∉ D →
  ∃ m H', free nl my_pid p (kh_mm st) = Some (with_mem (kh_mm st) m) ∧
    kh_repr (mk_kheap (with_mem (kh_mm st) m) (g_delayeddeallocations st)) H' (delete (p - 8) A) D ∧
    contents_kept A (delete (p - 8) A) (mm_mem (kh_mm st)) m.
Proof.
  intros [HR Hq HD] Hsem Hp Hnew.
  destruct (free_represents nl _ _ _ _ _ HR Hsem Hp) as (m & H' & E & HR' & _ & Hc).
  exists m, H'. split_and!; [done| |done].
  assert (Hother : ∀ a, a ∈ D → delete (p - 8) A !! (a - 8) = A !! (a - 8)).
  { intros a Ha. apply lookup_delete_ne. intros ?. assert (a = p) by lia. by subst. }
  split; cbn [kh_mm g_delayeddeallocations mm_mem with_mem]; [done| |].
  - eapply queue_kept; [exact HR|exact Hq| |exact Hc]. auto.
  - intros a Ha. rewrite Hother by done. auto.
Qed.

Lemma free_keeps p st H A D : kh_repr st H A D → sem_ready my_pid (kh_mm st) → is_Some (A !! (p - 8)) → p ∉ D →
  ∃ m q, sched_free nl my_pid false p st = Some (mk_kheap (with_mem (kh_mm st) m) q) ∧
    ∃ H', kh_repr (mk_kheap (with_mem (kh_mm st) m) q) H' (delete (p - 8) A) D ∧
      contents_kept A (delete (p - 8) A) (mm_mem (kh_mm st)) m.
Proof.
  intros [HR Hq HD] Hsem Hp Hnew. destruct (try_give _ Hsem) as (a & b & c & E & Hsem' & Hg).
  destruct (free_repr p (mk_kheap (with_sem (kh_mm st) a b c) (g_delayeddeallocations st)) H A D)
    as (m & H' & Ef & [HR' Hq' HD'] & Hc); [by split; [apply represents_sem|..]|done..|].
  cbn [kh_mm g_delayeddeallocations] in *. exists m, (g_delayeddeallocations st).
  unfold sched_free. rewrite E. cbn [negb]. rewrite Ef. cbn [mbind option_bind]. rewrite Hg.
  split; [done|]. exists H'. split; [|done]. split; [|done|done].
  rewrite <-Hg. cbn [kh_mm]. apply (represents_sem _ _ _ (g_mm_semaphore (kh_mm st)) (g_holder (kh_mm st)) (g_counts_held (kh_mm st))) in HR'.
  rewrite Hg. exact HR'.
Qed.

(** The caller cannot have the semaphore without waiting: another task has it. *)
Definition sem_taken mm : Prop := g_holder mm ≠ my_pid ∧ g_mm_semaphore mm ≤ 0.

Lemma try_fails mm : sem_taken mm → mm_trysemaphore my_pid mm = (false, mm).
Proof.
  intros [Hh Hs]. unfold mm_trysemaphore.
  by rewrite (proj2 (Z.eqb_neq _ _) Hh), (proj2 (Z.ltb_ge _ _) Hs).
Qed.

(** sched_free always returns. In a task that can have the memory manager at once it frees the
    block; in an interrupt handler, or when another task has the memory manager, it appends the block
    to the delayed ones and leaves the heap and its semaphore as they are. *)
Theorem sched_free_correct irq p st H A D : kh_repr st H A D → is_Some (A !! (p - 8)) → p ∉ D →
  irq = true ∨ sem_ready my_pid (kh_mm st) ∨ sem_taken (kh_mm st) →
  ∃ m q, sched_free nl my_pid irq p st = Some (mk_kheap (with_mem (kh_mm st) m) q) ∧
    if irq || bool_decide (sem_taken (kh_mm st)) then kh_repr (mk_kheap (with_mem (kh_mm st) m) q) H A (D ++ [p])
    else ∃ H', kh_repr (mk_kheap (with_mem (kh_mm st) m) q) H' (delete (p - 8) A) D ∧
         contents_kept A (delete (p - 8) A) (mm_mem (kh_mm st)) m.
Proof.
  intros Hk Hp Hnew Hctx. destruct (delay_free_ok p st H A D Hk Hp Hnew) as [Hd [m Em]].
  assert (Hdelay : ∃ m q, Some (delay_free p st) = Some (mk_kheap (with_mem (kh_mm st) m) q) ∧
            kh_repr (mk_kheap (with_mem (kh_mm st) m) q) H A (D ++ [p])).
  { exists m, (g_delayeddeallocations (delay_free p st)). rewrite <-Em. by destruct (delay_free p st). }
  unfold sched_free. destruct irq; [done|]. cbn [orb]. destruct Hctx as [[=]|[Hr|Ht]].
  - rewrite bool_decide_eq_false_2 by (unfold sem_taken, sem_ready in *; lia).
    by eapply free_keeps.
  - rewrite bool_decide_eq_true_2, (try_fails _ Ht) by done. cbn [negb]. by destruct st.
Qed.

(** ** Collecting *)

(** The chunks that are left when the blocks of [D] have been freed. *)
Definition without D A : gmap Z Z := foldl (λ A p, delete (p - 8) A) A D.

Lemma lookup_without D A x s : without D A !! x = Some s ↔ A !! x = Some s ∧ x + 8 ∉ D.
Proof.
  revert A. induction D as [|p D IH]; intros A; cbn [without foldl].
  - split; [|by intros []]. intros ?. split; [done|]. apply not_elem_of_nil.
  - fold (without D (delete (p - 8) A)). rewrite (IH (delete (p - 8) A)), lookup_delete_Some, not_elem_of_cons.
    assert (p - 8 ≠ x ↔ x + 8 ≠ p) by lia. tauto.
Qed.

Lemma collect_run D : ∀ st H A fuel, kh_repr st H A D → sem_ready my_pid (kh_mm st) → (length D < fuel)%nat →
  ∃ m H', sched_garbagecollection nl my_pid fuel st = Some (mk_kheap (with_mem (kh_mm st) m) sq_init) ∧
    represents nl (with_mem (kh_mm st) m) H' (without D A) ∧
    contents_kept A (without D A) (mm_mem (kh_mm st)) m.
Proof.
  induction D as [|p D IH]; intros st H A fuel Hk Hsem Hf; destruct fuel as [|fuel]; try (simpl in Hf; lia);
    destruct Hk as [HR Hq HD]; cbn [sched_garbagecollection].
  - destruct Hq as (_ & _ & _ & Eh & Et). simpl in Eh, Et. rewrite Eh. cbn [Z.eqb negb].
    exists (mm_mem (kh_mm st)), H. rewrite with_mem_id. split_and!; [|done|by intros ? ? ?].
    destruct st as [mm [h t]]. simpl in *. by subst.
  - pose proof Hq as (_ & Hnd & H0 & Eh & _). simpl in Eh.
    rewrite Eh, (proj2 (Z.eqb_neq p 0)) by set_solver. cbn [negb].
    destruct (mem_remfirst _ _ _ _ Hq (blocks_space _ _ _ _ HR HD)) as (q' & -> & Hq').
    rewrite (proj2 (Z.eqb_neq p 0)) by set_solver. cbn [negb].
    apply NoDup_cons in Hnd as [Hp Hnd].
    assert (Hin : is_Some (A !! (p - 8))) by (apply HD; set_solver).
    destruct (free_repr p (mk_kheap (with_mem (kh_mm st) (st32 (mm_mem (kh_mm st)) p 0)) q') H A D)
      as (m & H' & E & Hk' & Hc); [split; cbn [kh_mm g_delayeddeallocations mm_mem with_mem]|done..|].
    + apply link_heap; [by rewrite with_mem_id|done].
    + done.
    + intros a Ha. apply HD. set_solver.
    + cbn [kh_mm g_delayeddeallocations] in *. rewrite E. cbn [mbind option_bind].
      destruct (IH _ _ _ fuel Hk' Hsem) as (m2 & H2 & E2 & HR2 & Hc2); [simpl in Hf; lia|].
      exists m2, H2. split_and!; [exact E2|exact HR2|].
      intros x s z Hx Hx' Hz. pose proof Hx' as [Hx'' _]%(lookup_without D).
      rewrite (Hc2 x s z Hx'' Hx' Hz). cbn [kh_mm mm_mem with_mem] in *. rewrite (Hc x s z Hx Hx'' Hz).
      apply getb_st32_ne. apply lookup_delete_Some in Hx'' as [Hne _].
      destruct Hin as [t Ht]. replace x with (x + 8 - 8) in Hx by lia.
      pose proof (blocks_apart _ _ _ _ _ _ _ HR Hx Ht ltac:(lia)).
      pose proof (block_room _ _ _ _ _ HR Ht). lia.
Qed.

(** C21. The collection of the idle loop terminates and loses nothing: when it can have the memory
    manager it empties the queue of delayed deallocations and frees every block that was waiting,
    and no other, whose contents are kept; when another task has the memory manager it changes
    nothing. *)
Theorem idle_collect_correct fuel st H A D : kh_repr st H A D → (length D < fuel)%nat →
  (sem_ready my_pid (kh_mm st) →
   ∃ m H' A', idle_collect nl my_pid fuel st = Some (mk_kheap (with_mem (kh_mm st) m) sq_init) ∧
     kh_repr (mk_kheap (with_mem (kh_mm st) m) sq_init) H' A' [] ∧
     (∀ x s, A' !! x = Some s ↔ A !! x = Some s ∧ x + 8 ∉ D) ∧ contents_kept A A' (mm_mem (kh_mm st)) m) ∧
  (sem_taken (kh_mm st) → idle_collect nl my_pid fuel st = Some st).
Proof.
  intros [HR Hq HD] Hf. split; intros Hs; unfold idle_collect.
  - destruct (try_give _ Hs) as (a & b & c & -> & Hs' & Hg).
    destruct (collect_run D (mk_kheap (with_sem (kh_mm st) a b c) (g_delayeddeallocations st)) H A fuel)
      as (m & H' & E & HR' & Hc); [by split; [apply represents_sem|..]|done..|].
    cbn [kh_mm] in *. exists m, H', (without D A). rewrite E. cbn [mbind option_bind kh_mm g_delayeddeallocations].
    rewrite Hg. split_and!; [done| |apply lookup_without|done].
    split; cbn [kh_mm g_delayeddeallocations]; [|split_and!; [done|apply NoDup_nil_2|set_solver|done|done]|set_solver].
    exact (represents_sem _ _ _ (g_mm_semaphore (kh_mm st)) (g_holder (kh_mm st)) (g_counts_held (kh_mm st)) HR').
  - rewrite (try_fails _ Hs). by destruct st.
Qed.
End Correct.

(** ** What the clients of the kernel heap rely on *)

Class KernelHeap (T : Type) := {
  h_malloc : Z → T → option (Z * T);
  h_free : Z → T → option T }.

(** [h_owns a X]: the blocks in use are those at the addresses [X]; [h_ready a]: the caller can have
    the memory manager; [h_fits n a]: a free chunk is large enough for [n] bytes, which is when the
    allocation succeeds.  A block can be freed whether the memory manager is free or not, and from then on
    is not in use, wherever it is. *)
Class KernelHeapLaws (T : Type) `{KernelHeap T} := {
  h_owns : T → gset Z → Prop;
  h_ready : T → Prop;
  h_fits : Z → T → Prop;
  h_owns_pos a X p : h_owns a X → p ∈ X → 0 < p;
  h_owns_apart a X p r : h_owns a X → p ∈ X → r ∈ X → p ≠ r → 16 ≤ Z.abs (p - r);
  h_malloc_ok n a X : h_owns a X → h_ready a → request n →
    ∃ p a', h_malloc n a = Some (p, a') ∧ h_ready a' ∧
      (¬ h_fits n a ∧ p = 0 ∧ a' = a ∨ h_fits n a ∧ p ≠ 0 ∧ p ∉ X ∧ h_owns a' ({[p]} ∪ X));
  h_free_ok p a X : h_owns a X → p ∈ X →
    ∃ a', h_free p a = Some a' ∧ (h_ready a → h_ready a') ∧ h_owns a' (X ∖ {[p]}) }.

Section Implementation.
Context (nl my_pid : Z).

(** The heap of mm/ behind [kmalloc] and [sched_free], called by the task [my_pid]. *)
Definition kheap_ops : KernelHeap kheap := {| h_malloc := kmalloc nl my_pid; h_free := sched_free nl my_pid false |}.
#[local] Existing Instance kheap_ops.

Definition kheap_owns (st : kheap) (X : gset Z) : Prop :=
  (sem_ready my_pid (kh_mm st) ∨ sem_taken my_pid (kh_mm st)) ∧
  ∃ H A D, kh_repr nl st H A D ∧ ∀ p, p ∈ X ↔ is_Some (A !! (p - 8)) ∧ p ∉ D.
Definition kheap_ready (st : kheap) : Prop := sem_ready my_pid (kh_mm st).
Definition kheap_fits (n : Z) (st : kheap) : Prop := heap_fits nl (kh_mm st) n.

Lemma kheap_pos st X p : kheap_owns st X → p ∈ X → 0 < p.
Proof.
  intros (_ & H & A & D & [HR _ _] & HX) [[s Hs] _]%HX. pose proof (block_room _ _ _ _ _ _ HR Hs). lia.
Qed.

Lemma kheap_apart st X p r : kheap_owns st X → p ∈ X → r ∈ X → p ≠ r → 16 ≤ Z.abs (p - r).
Proof.
  intros (_ & H & A & D & [HR _ _] & HX) [[s Hs] _]%HX [[t Ht] _]%HX Hne.
  pose proof (block_room _ _ _ _ _ _ HR Hs). pose proof (block_room _ _ _ _ _ _ HR Ht).
  pose proof (blocks_apart _ _ _ _ _ _ _ _ HR Hs Ht Hne). lia.
Qed.

Lemma kheap_malloc_ok n st X : kheap_owns st X → kheap_ready st → request n →
  ∃ p st', h_malloc n st = Some (p, st') ∧ kheap_ready st' ∧
    (¬ kheap_fits n st ∧ p = 0 ∧ st' = st ∨ kheap_fits n st ∧ p ≠ 0 ∧ p ∉ X ∧ kheap_owns st' ({[p]} ∪ X)).
Proof.
  intros (_ & H & A & D & [HR Hq HD] & HX) Hsem [Hn Hn']. cbn [h_malloc kheap_ops]. unfold kmalloc.
  pose proof (λ p st', malloc_fits nl _ _ my_pid n p st' (proj1 HR) Hsem Hn Hn') as Hfits.
  destruct (malloc_represents nl _ _ _ my_pid n HR Hsem Hn Hn')
    as [E|(x & c & m & H' & E & HR' & _ & Hk & _ & _ & _ & _ & Hnew & _)]; rewrite E;
    apply Hfits in E; clear Hfits; cbn [mbind option_bind].
  { exists 0, st. split_and!; [by destruct st|done|]. left. split; [|done]. by intros Hf%E. }
  eexists _, _. split; [done|]. split; [done|]. right.
  assert (Hx : <[x:=c]> A !! (x + 8 - 8) = Some c) by (rewrite Z.add_simpl_r; apply lookup_insert_eq).
  assert (Hx0 : x + 8 ≠ 0) by (pose proof (block_room _ _ _ _ _ _ HR' Hx); lia).
  split; [by apply E|].
  assert (Hkeep : ∀ p, p ∈ D → <[x:=c]> A !! (p - 8) = A !! (p - 8)).
  { intros p [s Hs]%HD. apply lookup_insert_ne. intros ->. by rewrite Hs in Hnew. }
  split_and!.
  - exact Hx0.
  - rewrite HX, Z.add_simpl_r, Hnew. by intros [[] _].
  - split; [by left|]. exists H', (<[x:=c]> A), D. split.
    + split; cbn [kh_mm g_delayeddeallocations mm_mem with_mem]; [done| |].
      * eapply queue_kept; [exact HR|exact Hq| |exact Hk]. auto.
      * intros p Hp. rewrite Hkeep by done. auto.
    + intros p. rewrite elem_of_union, elem_of_singleton, HX.
      destruct (decide (p = x + 8)) as [->|Hne].
      * rewrite Hx. split; [|by left]. intros _. split; [done|].
        intros [s Hs]%HD. by rewrite Z.add_simpl_r, Hnew in Hs.
      * rewrite lookup_insert_ne by lia. tauto.
Qed.

Lemma kheap_free_ok p st X : kheap_owns st X → p ∈ X →
  ∃ st', h_free p st = Some st' ∧ (kheap_ready st → kheap_ready st') ∧ kheap_owns st' (X ∖ {[p]}).
Proof.
  intros (Hs & H & A & D & Hk & HX) Hp. pose proof Hp as [Hin Hnew]%HX.
  destruct (sched_free_correct nl my_pid false p st H A D Hk Hin Hnew) as (m & q & E & Hc); [by right|].
  cbn [h_free kheap_ops]. rewrite E. eexists. split; [done|]. split; [done|]. split; [exact Hs|].
  cbn [orb] in Hc. case_bool_decide.
  - exists H, A, (D ++ [p]). split; [done|]. intros a.
    rewrite elem_of_difference, elem_of_singleton, HX, elem_of_app, list_elem_of_singleton. tauto.
  - destruct Hc as (H' & Hk' & _). exists H', (delete (p - 8) A), D. split; [done|]. intros a.
    rewrite elem_of_difference, elem_of_singleton, HX. destruct (decide (a = p)) as [->|Hne].
    + rewrite lookup_delete_eq. split; [tauto|]. by intros [[] _].
    + rewrite lookup_delete_ne by lia. tauto.
Qed.

Definition kheap_laws : KernelHeapLaws kheap := {|
  h_owns := kheap_owns; h_ready := kheap_ready; h_fits := kheap_fits; h_owns_pos := kheap_pos; h_owns_apart := kheap_apart;
  h_malloc_ok := kheap_malloc_ok; h_free_ok := kheap_free_ok |}.
End Implementation.
