(* ===== verification/Sched.v ===== *)
(** The scheduler: the task lists of sched/os_start.c, the list operations of
    sched/sched_*.c and the context switch of arch/arm/src/armv7-m/up_*.c, for
    a configuration without CONFIG_PAGING and CONFIG_PRIORITY_INHERITANCE.

    A task control block is a record at an address; all task lists are threaded
    through the [flink]/[blink] fields of the blocks, so the lists share one
    store and an operation on one list could damage another.  The queue headers
    are the components of [qs], one per list of [g_tasklisttable].

    A context switch is the assignment of [g_running], the block whose registers
    are on the processor.  In the sources every switch saves the registers of
    the old running task and loads those of the task at the head of
    [g_readytorun], either through [current_regs] in an interrupt handler or by
    [up_switchcontext]; both are [up_switch] here.

    [None] is PANIC or a failed ASSERT, or a list walk that outlives its fuel
    (the number of control blocks, enough for lists without duplicates). *)

From stdpp Require Import base numbers functions gmap sorting list.
From S2P Require Import Prelude Queue.

(** ** include/nuttx/sched.h, include/sys/types.h *)

Inductive tstate :=
  | TSTATE_TASK_INVALID | TSTATE_TASK_PENDING | TSTATE_TASK_READYTORUN | TSTATE_TASK_RUNNING
  | TSTATE_TASK_INACTIVE | TSTATE_WAIT_SEM | TSTATE_WAIT_SIG
  | TSTATE_WAIT_MQNOTEMPTY | TSTATE_WAIT_MQNOTFULL.

#[global] Instance tstate_eq_dec : EqDecision tstate.
Proof. solve_decision. Defined.

Definition tstate_num (s : tstate) : Z :=
  match s with
  | TSTATE_TASK_INVALID => 0 | TSTATE_TASK_PENDING => 1 | TSTATE_TASK_READYTORUN => 2
  | TSTATE_TASK_RUNNING => 3 | TSTATE_TASK_INACTIVE => 4 | TSTATE_WAIT_SEM => 5
  | TSTATE_WAIT_SIG => 6 | TSTATE_WAIT_MQNOTEMPTY => 7 | TSTATE_WAIT_MQNOTFULL => 8
  end.

Definition ready_to_run_state (s : tstate) : bool :=
  (tstate_num TSTATE_TASK_READYTORUN <=? tstate_num s) && (tstate_num s <=? tstate_num TSTATE_TASK_RUNNING).
Definition blocked_state (s : tstate) : bool :=
  (tstate_num TSTATE_TASK_INACTIVE <=? tstate_num s) && (tstate_num s <=? tstate_num TSTATE_WAIT_MQNOTFULL).

Definition SCHED_PRIORITY_MAX : Z := 255.
Definition SCHED_PRIORITY_MIN : Z := 1.
Definition MAX_LOCK_COUNT : Z := 127.
Definition TCB_FLAG_ROUND_ROBIN : Z := Z.shiftl 1 4.
Definition CONFIG_RR_INTERVAL : Z := 200.
Definition MSEC_PER_TICK : Z := 10.

(** The fields of [struct _TCB] the scheduler and the waits use. *)
Record tcb := mk_tcb {
  t_flink : Z;
  t_blink : Z;
  sched_priority : Z;
  task_state : tstate;
  flags : Z;
  lockcount : Z;
  timeslice : Z;
  waitsem : Z;
  msgwaitq : Z;
  pterrno : Z;
}.

Definition tcb0 : tcb := mk_tcb 0 0 0 TSTATE_TASK_INVALID 0 0 0 0 0 0.

Definition with_flink (v : Z) (t : tcb) : tcb :=
  mk_tcb v (t_blink t) (sched_priority t) (task_state t) (flags t) (lockcount t) (timeslice t)
    (waitsem t) (msgwaitq t) (pterrno t).
Definition with_blink (v : Z) (t : tcb) : tcb :=
  mk_tcb (t_flink t) v (sched_priority t) (task_state t) (flags t) (lockcount t) (timeslice t)
    (waitsem t) (msgwaitq t) (pterrno t).
Definition with_priority (v : Z) (t : tcb) : tcb :=
  mk_tcb (t_flink t) (t_blink t) v (task_state t) (flags t) (lockcount t) (timeslice t)
    (waitsem t) (msgwaitq t) (pterrno t).
Definition with_state (v : tstate) (t : tcb) : tcb :=
  mk_tcb (t_flink t) (t_blink t) (sched_priority t) v (flags t) (lockcount t) (timeslice t)
    (waitsem t) (msgwaitq t) (pterrno t).
Definition with_lockcount (v : Z) (t : tcb) : tcb :=
  mk_tcb (t_flink t) (t_blink t) (sched_priority t) (task_state t) (flags t) v (timeslice t)
    (waitsem t) (msgwaitq t) (pterrno t).
Definition with_timeslice (v : Z) (t : tcb) : tcb :=
  mk_tcb (t_flink t) (t_blink t) (sched_priority t) (task_state t) (flags t) (lockcount t) v
    (waitsem t) (msgwaitq t) (pterrno t).
Definition with_waitsem (v : Z) (t : tcb) : tcb :=
  mk_tcb (t_flink t) (t_blink t) (sched_priority t) (task_state t) (flags t) (lockcount t) (timeslice t)
    v (msgwaitq t) (pterrno t).
Definition with_msgwaitq (v : Z) (t : tcb) : tcb :=
  mk_tcb (t_flink t) (t_blink t) (sched_priority t) (task_state t) (flags t) (lockcount t) (timeslice t)
    (waitsem t) v (pterrno t).
Definition with_errno (v : Z) (t : tcb) : tcb :=
  mk_tcb (t_flink t) (t_blink t) (sched_priority t) (task_state t) (flags t) (lockcount t) (timeslice t)
    (waitsem t) (msgwaitq t) v.

(** ** The store of control blocks *)

Definition tstore := gmap Z tcb.

Definition tcb_at (ts : tstore) (a : Z) : tcb := default tcb0 (ts !! a).
Definition upd (a : Z) (f : tcb → tcb) (ts : tstore) : tstore := <[a := f (tcb_at ts a)]> ts.

Lemma tcb_at_upd ts p f y :
  tcb_at (upd p f ts) y = if decide (y = p) then f (tcb_at ts p) else tcb_at ts y.
Proof.
  unfold tcb_at, upd, tstore. case_decide as E; subst.
  - by rewrite lookup_insert_eq.
  - by rewrite lookup_insert_ne.
Qed.

#[global] Instance tcb_sq : SqStore tstore :=
  {| flink ts a := t_flink (tcb_at ts a); set_flink p v := upd p (with_flink v) |}.
#[global] Instance tcb_dq : DqStore tstore :=
  {| blink ts a := t_blink (tcb_at ts a); set_blink p v := upd p (with_blink v) |}.
#[global] Instance tcb_dq_laws : DqLaws tstore.
Proof.
  split; [split|..]; intros s p v y; simpl; rewrite tcb_at_upd; case_decide; subst; done.
Qed.

(** ** sched/os_start.c: the task lists and [g_tasklisttable] *)

Inductive tasklist :=
  | g_readytorun | g_pendingtasks | g_inactivetasks | g_waitingforsemaphore
  | g_waitingforsignal | g_waitingformqnotempty | g_waitingformqnotfull.

#[global] Instance tasklist_eq_dec : EqDecision tasklist.
Proof. solve_decision. Defined.

(** [g_tasklisttable[task_state].list] and [.prioritized] *)
Definition list_of (s : tstate) : option tasklist :=
  match s with
  | TSTATE_TASK_INVALID => None
  | TSTATE_TASK_PENDING => Some g_pendingtasks
  | TSTATE_TASK_READYTORUN => Some g_readytorun
  | TSTATE_TASK_RUNNING => Some g_readytorun
  | TSTATE_TASK_INACTIVE => Some g_inactivetasks
  | TSTATE_WAIT_SEM => Some g_waitingforsemaphore
  | TSTATE_WAIT_SIG => Some g_waitingforsignal
  | TSTATE_WAIT_MQNOTEMPTY => Some g_waitingformqnotempty
  | TSTATE_WAIT_MQNOTFULL => Some g_waitingformqnotfull
  end.
Definition prioritized (s : tstate) : bool :=
  match s with
  | TSTATE_TASK_INVALID | TSTATE_TASK_INACTIVE | TSTATE_WAIT_SIG => false
  | _ => true
  end.

Record sched := mk_sched {
  tcbs : tstore;
  qs : tasklist → queue_t;
  g_running : Z;
}.

Definition with_tcbs (st : sched) (ts : tstore) : sched := mk_sched ts (qs st) (g_running st).
Definition on_tcb (a : Z) (f : tcb → tcb) (st : sched) : sched := with_tcbs st (upd a f (tcbs st)).
Definition with_queue (st : sched) (k : tasklist) (q : queue_t) : sched :=
  mk_sched (tcbs st) (<[k := q]> (qs st)) (g_running st).
Definition get (st : sched) (a : Z) : tcb := tcb_at (tcbs st) a.
Definition this_task (st : sched) : Z := q_head (qs st g_readytorun).

(** An operation of Queue.v on one of the task lists. *)
Definition on_list (k : tasklist) (f : queue_t → tstore → queue_t * tstore) (st : sched) : sched :=
  let '(q, ts) := f (qs st k) (tcbs st) in with_queue (with_tcbs st ts) k q.

Definition up_switch (st : sched) : sched := mk_sched (tcbs st) (qs st) (this_task st).

Definition sched_fuel (st : sched) : nat := size (tcbs st).

(** ** sched_addprioritized.c *)

(** [for (next = ..; next && sched_priority <= next->sched_priority; next = next->flink);] *)
Fixpoint prio_search (fuel : nat) (ts : tstore) (prio next : Z) : option Z :=
  if negb (next =? 0) && (prio <=? sched_priority (tcb_at ts next)) then
    match fuel with
    | O => None
    | S fuel => prio_search fuel ts prio (flink ts next)
    end
  else Some next.

(** Link [tcb] in at the place found: the new header, and whether it became
    the head of the list. *)
Definition prio_link (tcb next : Z) (q : queue_t) (ts : tstore) : bool * queue_t * tstore :=
  if next =? 0 then
    let prev := q_tail q in
    if prev =? 0 then
      (true, mk_queue tcb tcb, set_blink tcb 0 (set_flink tcb 0 ts))
    else
      let ts := set_flink tcb 0 ts in
      let ts := set_blink tcb prev ts in
      let ts := set_flink prev tcb ts in
      (false, mk_queue (q_head q) tcb, ts)
  else
    let prev := blink ts next in
    if prev =? 0 then
      let ts := set_flink tcb next ts in
      let ts := set_blink tcb 0 ts in
      let ts := set_blink next tcb ts in
      (true, mk_queue tcb (q_tail q), ts)
    else
      let ts := set_flink tcb next ts in
      let ts := set_blink tcb prev ts in
      let ts := set_flink prev tcb ts in
      let ts := set_blink next tcb ts in
      (false, q, ts).

Definition sched_addprioritized (tcb : Z) (k : tasklist) (st : sched) : option (bool * sched) :=
  let prio := sched_priority (get st tcb) in
  if negb (SCHED_PRIORITY_MIN <=? prio) then None else
  next ← prio_search (sched_fuel st) (tcbs st) prio (q_head (qs st k));
  let '(ret, q, ts) := prio_link tcb next (qs st k) (tcbs st) in
  Some (ret, with_queue (with_tcbs st ts) k q).

(** ** sched_addreadytorun.c *)

Definition sched_addreadytorun (btcb : Z) (st : sched) : option (bool * sched) :=
  let rtcb := this_task st in
  if negb (lockcount (get st rtcb) =? 0) &&
     (sched_priority (get st rtcb) <? sched_priority (get st btcb)) then
    '(_, st) ← sched_addprioritized btcb g_pendingtasks st;
    Some (false, on_tcb btcb (with_state TSTATE_TASK_PENDING) st)
  else
    '(headed, st) ← sched_addprioritized btcb g_readytorun st;
    if (headed : bool) then
      if negb ((lockcount (get st rtcb) =? 0) && negb (t_flink (get st btcb) =? 0)) then None else
      let st := on_tcb btcb (with_state TSTATE_TASK_RUNNING) st in
      Some (true, on_tcb (t_flink (get st btcb)) (with_state TSTATE_TASK_READYTORUN) st)
    else
      Some (false, on_tcb btcb (with_state TSTATE_TASK_READYTORUN) st).

(** ** sched_removereadytorun.c *)

Definition sched_removereadytorun (rtcb : Z) (st : sched) : option (bool * sched) :=
  '(ret, st) ←
    (if t_blink (get st rtcb) =? 0 then
       if t_flink (get st rtcb) =? 0 then None else
       Some (true, on_tcb (t_flink (get st rtcb)) (with_state TSTATE_TASK_RUNNING) st)
     else Some (false, st));
  let st := on_list g_readytorun (dq_rem rtcb) st in
  Some (ret, on_tcb rtcb (with_state TSTATE_TASK_INVALID) st).

(** ** sched_mergepending.c *)

(** [pndtcb] goes just before [rtrtcb]. *)
Definition merge_insert (pndtcb rtrtcb : Z) (ret : bool) (st : sched) : bool * sched :=
  let rtrprev := t_blink (get st rtrtcb) in
  if rtrprev =? 0 then
    let st := on_tcb pndtcb (with_flink rtrtcb) st in
    let st := on_tcb pndtcb (with_blink 0) st in
    let st := on_tcb rtrtcb (with_blink pndtcb) st in
    let st := with_queue st g_readytorun (mk_queue pndtcb (q_tail (qs st g_readytorun))) in
    let st := on_tcb rtrtcb (with_state TSTATE_TASK_READYTORUN) st in
    let st := on_tcb pndtcb (with_state TSTATE_TASK_RUNNING) st in
    (true, st)
  else
    let st := on_tcb pndtcb (with_flink rtrtcb) st in
    let st := on_tcb pndtcb (with_blink rtrprev) st in
    let st := on_tcb rtrprev (with_flink pndtcb) st in
    let st := on_tcb rtrtcb (with_blink pndtcb) st in
    let st := on_tcb pndtcb (with_state TSTATE_TASK_READYTORUN) st in
    (ret, st).

Fixpoint mergepending_loop (n fuel : nat) (pndtcb rtrtcb : Z) (ret : bool) (st : sched) :
    option (bool * sched) :=
  if pndtcb =? 0 then Some (ret, st) else
  match n with
  | O => None
  | S n =>
      let pndnext := t_flink (get st pndtcb) in
      rtrtcb ← prio_search fuel (tcbs st) (sched_priority (get st pndtcb)) rtrtcb;
      if rtrtcb =? 0 then None else
      let '(ret, st) := merge_insert pndtcb rtrtcb ret st in
      mergepending_loop n fuel pndnext pndtcb ret st
  end.

Definition sched_mergepending (st : sched) : option (bool * sched) :=
  '(ret, st) ← mergepending_loop (sched_fuel st) (sched_fuel st)
                 (q_head (qs st g_pendingtasks)) (this_task st) false st;
  Some (ret, with_queue st g_pendingtasks (mk_queue 0 0)).

(** ** sched_addblocked.c, sched_removeblocked.c *)

Definition sched_addblocked (btcb : Z) (s : tstate) (st : sched) : option sched :=
  if negb (blocked_state s) then None else
  k ← list_of s;
  st ←
    (if prioritized s then '(_, st) ← sched_addprioritized btcb k st; Some st
     else Some (on_list k (dq_addlast btcb) st));
  Some (on_tcb btcb (with_state s) st).

Definition sched_removeblocked (btcb : Z) (st : sched) : option sched :=
  let s := task_state (get st btcb) in
  if negb (blocked_state s) then None else
  k ← list_of s;
  let st := on_list k (dq_rem btcb) st in
  Some (on_tcb btcb (with_state TSTATE_TASK_INVALID) st).

(** ** up_blocktask.c, up_unblocktask.c, up_releasepending.c, up_reprioritizertr.c *)

Definition up_block_task (tcb : Z) (s : tstate) (st : sched) : option sched :=
  if negb (ready_to_run_state (task_state (get st tcb))) then None else
  '(switch_needed, st) ← sched_removereadytorun tcb st;
  st ← sched_addblocked tcb s st;
  '(switch_needed, st) ←
    (if negb (q_head (qs st g_pendingtasks) =? 0) then
       '(merged, st) ← sched_mergepending st; Some (switch_needed || merged, st)
     else Some (switch_needed, st));
  Some (if (switch_needed : bool) then up_switch st else st).

Definition up_unblock_task (tcb : Z) (st : sched) : option sched :=
  if negb (blocked_state (task_state (get st tcb))) then None else
  st ← sched_removeblocked tcb st;
  let st := on_tcb tcb (with_timeslice (CONFIG_RR_INTERVAL / MSEC_PER_TICK)) st in
  '(switch_needed, st) ← sched_addreadytorun tcb st;
  Some (if (switch_needed : bool) then up_switch st else st).

Definition up_release_pending (st : sched) : option sched :=
  '(switch_needed, st) ← sched_mergepending st;
  Some (if (switch_needed : bool) then up_switch st else st).

Definition up_reprioritize_rtr (tcb priority : Z) (st : sched) : option sched :=
  if negb (ready_to_run_state (task_state (get st tcb))) || (priority <? SCHED_PRIORITY_MIN) ||
     (SCHED_PRIORITY_MAX <? priority) then None else
  '(removed, st) ← sched_removereadytorun tcb st;
  let st := on_tcb tcb (with_priority priority) st in
  '(added, st) ← sched_addreadytorun tcb st;
  if xorb removed added then
    st ← (if negb (q_head (qs st g_pendingtasks) =? 0) then
            '(_, st) ← sched_mergepending st; Some st
          else Some st);
    Some (up_switch st)
  else Some st.

(** ** sched_lock.c, sched_unlock.c *)

Definition sched_lock (irq : bool) (st : sched) : option sched :=
  let rtcb := this_task st in
  if negb (rtcb =? 0) && negb irq then
    if negb (lockcount (get st rtcb) <? MAX_LOCK_COUNT) then None else
    Some (on_tcb rtcb (with_lockcount (lockcount (get st rtcb) + 1)) st)
  else Some st.

Definition sched_unlock (irq : bool) (st : sched) : option sched :=
  let rtcb := this_task st in
  if negb (rtcb =? 0) && negb irq then
    let st := if negb (lockcount (get st rtcb) =? 0)
              then on_tcb rtcb (with_lockcount (lockcount (get st rtcb) - 1)) st else st in
    if lockcount (get st rtcb) <=? 0 then
      let st := on_tcb rtcb (with_lockcount 0) st in
      if negb (q_head (qs st g_pendingtasks) =? 0) then up_release_pending st else Some st
    else Some st
  else Some st.

(** ** sched_setpriority.c *)

Inductive result := OK | ERROR (errno : Z).
Definition EINVAL : Z := 22.

Definition sched_setpriority (tcb prio : Z) (st : sched) : option (result * sched) :=
  let rtcb := this_task st in
  if (prio <? SCHED_PRIORITY_MIN) || (SCHED_PRIORITY_MAX <? prio) then Some (ERROR EINVAL, st) else
  let s := task_state (get st tcb) in
  match s with
  | TSTATE_TASK_RUNNING =>
      if prio <=? sched_priority (get st (t_flink (get st tcb))) then
        st ← up_reprioritize_rtr tcb prio st; Some (OK, st)
      else Some (OK, on_tcb tcb (with_priority prio) st)
  | TSTATE_TASK_READYTORUN =>
      if sched_priority (get st rtcb) <? prio then
        st ← up_reprioritize_rtr tcb prio st; Some (OK, st)
      else
        '(removed, st) ← sched_removereadytorun tcb st;
        if (removed : bool) then None else
        let st := on_tcb tcb (with_priority prio) st in
        '(added, st) ← sched_addreadytorun tcb st;
        if (added : bool) then None else Some (OK, st)
  | _ =>
      if prioritized s then
        k ← list_of s;
        let st := on_list k (dq_rem tcb) st in
        let st := on_tcb tcb (with_priority prio) st in
        '(_, st) ← sched_addprioritized tcb k st;
        Some (OK, st)
      else Some (OK, on_tcb tcb (with_priority prio) st)
  end.

(** ** sched_processtimer.c *)

Definition sched_process_timeslice (st : sched) : option sched :=
  let rtcb := this_task st in
  let t := get st rtcb in
  if negb (Z.land (flags t) TCB_FLAG_ROUND_ROBIN =? 0) then
    if timeslice t <=? 1 then
      if lockcount t =? 0 then
        let st := on_tcb rtcb (with_timeslice (CONFIG_RR_INTERVAL / MSEC_PER_TICK)) st in
        let next := t_flink (get st rtcb) in
        if negb (next =? 0) && (sched_priority (get st rtcb) <=? sched_priority (get st next)) then
          up_reprioritize_rtr rtcb (sched_priority (get st rtcb)) st
        else Some st
      else Some st
    else Some (on_tcb rtcb (with_timeslice (timeslice t - 1)) st)
  else Some st.
