(* ===== verification/SchedInv.v ===== *)
(** The task lists as lists: what each scheduler primitive does to the abstract
    contents [L : tasklist → list Z] of the task lists. *)

From stdpp Require Import base numbers functions gmap sorting list.
From S2P Require Import Prelude Queue Sched.

(** ** Link updates leave the rest of a control block alone *)

Definition data (t : tcb) : tcb := with_flink 0 (with_blink 0 t).
Definition same_data (ts ts' : tstore) : Prop :=
  ∀ x, data (tcb_at ts' x) = data (tcb_at ts x).

#[global] Instance same_data_preorder : PreOrder same_data.
Proof. split; [by intros ts x|]. intros t1 t2 t3 H12 H23 x. by rewrite H23, H12. Qed.

Lemma same_data_flink p v ts : same_data ts (set_flink p v ts).
Proof. intros x. simpl. rewrite tcb_at_upd. case_decide; subst; done. Qed.
Lemma same_data_blink p v ts : same_data ts (set_blink p v ts).
Proof. intros x. simpl. rewrite tcb_at_upd. case_decide; subst; done. Qed.

#[export] Hint Resolve same_data_flink same_data_blink : nuttx.

Ltac same_data :=
  repeat first [reflexivity | (etransitivity; [|first [apply same_data_flink | apply same_data_blink]])].

(** A field other than the links. *)
Lemma same_data_field {A} (f : tcb → A) ts ts' x :
  (∀ t, f (data t) = f t) → same_data ts ts' → f (tcb_at ts' x) = f (tcb_at ts x).
Proof. intros Hf Hs. rewrite <-Hf, Hs. apply Hf. Qed.

Lemma dom_upd p f ts : dom (upd p f ts) = {[p]} ∪ dom ts.
Proof. unfold upd, tstore. apply dom_insert_L. Qed.

Definition grows (ts ts' : tstore) : Prop := dom ts ⊆ dom ts'.

#[global] Instance grows_preorder : PreOrder grows.
Proof. unfold grows. split; [by intros ts|]. intros ts1 ts2 ts3. apply transitivity. Qed.

Lemma grows_upd p f ts : grows ts (upd p f ts).
Proof. unfold grows. rewrite dom_upd. apply union_subseteq_r. Qed.

Ltac grows :=
  repeat first [reflexivity | (etransitivity; [|apply grows_upd])].

Lemma dq_rem_data x q ts : same_data ts (dq_rem x q ts).2 ∧ grows ts (dq_rem x q ts).2.
Proof. unfold dq_rem. repeat case_match; simplify_eq/=; (split; [same_data|grows]). Qed.

Lemma dq_addlast_data x q ts : same_data ts (dq_addlast x q ts).2 ∧ grows ts (dq_addlast x q ts).2.
Proof. unfold dq_addlast. repeat case_match; simplify_eq/=; (split; [same_data|grows]). Qed.

Lemma prio_link_data x next q ts :
  same_data ts (prio_link x next q ts).2 ∧ grows ts (prio_link x next q ts).2.
Proof. unfold prio_link. repeat case_match; simplify_eq/=; (split; [same_data|grows]). Qed.

(** ** Insertion by priority *)

(** Behind every task of the same or a higher priority. *)
Fixpoint pinsert (pr : Z → Z) (x : Z) (l : list Z) : list Z :=
  match l with
  | [] => [x]
  | y :: l => if pr x <=? pr y then y :: pinsert pr x l else x :: y :: l
  end.

Definition pdesc (pr : Z → Z) (x y : Z) : Prop := pr y ≤ pr x.

Lemma pinsert_split pr x l : ∃ l1 l2, l = l1 ++ l2 ∧ pinsert pr x l = l1 ++ x :: l2 ∧
  (∀ y, y ∈ l1 → pr x ≤ pr y) ∧ (∀ y, head l2 = Some y → pr y < pr x).
Proof.
  induction l as [|a l (l1 & l2 & -> & E & H1 & H2)].
  - exists [], []. split_and!; [done|done|by intros y ?%not_elem_of_nil|done].
  - simpl. case_test.
    + exists (a :: l1), l2. rewrite E. split_and!; [done|done| |done].
      intros y [->|Hy]%elem_of_cons; [done|auto].
    + exists [], (a :: l1 ++ l2). split_and!; [done|done|by intros y ?%not_elem_of_nil|].
      by intros y [= <-].
Qed.

Lemma elem_of_pinsert pr x l y : y ∈ pinsert pr x l ↔ y = x ∨ y ∈ l.
Proof. destruct (pinsert_split pr x l) as (l1 & l2 & -> & -> & _). in_list. Qed.

Lemma pinsert_ne pr x l : pinsert pr x l ≠ [].
Proof. destruct l; simpl; [done|]. by case_test. Qed.

Lemma pinsert_head pr x l : head (pinsert pr x l) =
  match head l with Some y => if pr x <=? pr y then Some y else Some x | None => Some x end.
Proof. destruct l; simpl; [done|]. by case_test. Qed.

Lemma pinsert_last pr x l i : last l = Some i → pr i < pr x → last (pinsert pr x l) = Some i.
Proof.
  intros Hl Hi. destruct (pinsert_split pr x l) as (l1 & l2 & -> & -> & H1 & _).
  destruct l2 as [|b l2].
  - rewrite app_nil_r in Hl. specialize (H1 i). assert (i ∈ l1); [|specialize (H1 H); lia].
    apply last_Some in Hl as [k ->]. in_list.
  - rewrite last_app in Hl. rewrite last_app. cbn in *. destruct l2; done.
Qed.

Lemma pinsert_sorted pr x l :
  StronglySorted (pdesc pr) l → StronglySorted (pdesc pr) (pinsert pr x l).
Proof.
  intros Hs. induction Hs as [|a l Hs IH Ha]; simpl; [repeat constructor|].
  case_test.
  - constructor; [done|]. apply Forall_forall. intros y [->|Hy]%elem_of_pinsert; [done|].
    by eapply Forall_forall in Ha.
  - constructor; [by constructor|]. apply Forall_cons. unfold pdesc. split; [lia|].
    eapply Forall_impl; [exact Ha|]. unfold pdesc. intros; lia.
Qed.

Lemma pinsert_ext pr pr' x l : (∀ y, y ∈ x :: l → pr' y = pr y) → pinsert pr' x l = pinsert pr x l.
Proof.
  intros H. induction l as [|a l IH]; simpl; [done|].
  rewrite !H by in_list. rewrite IH; [done|]. intros y Hy. apply H. in_list.
Qed.

Lemma sorted_ext pr pr' l : (∀ y, y ∈ l → pr' y = pr y) →
  StronglySorted (pdesc pr) l → StronglySorted (pdesc pr') l.
Proof.
  intros He Hs. induction Hs as [|a l Hs IH Ha]; constructor.
  - apply IH. intros y Hy. apply He. by right.
  - rewrite Forall_forall in *. intros y Hy. unfold pdesc in *. rewrite !He by (constructor; done).
    by apply Ha.
Qed.

Lemma sorted_filter {A} (R : A → A → Prop) (P : A → Prop) `{∀ x, Decision (P x)} l :
  StronglySorted R l → StronglySorted R (filter P l).
Proof.
  induction 1 as [|a l Hs IH Ha]; [constructor|]. rewrite filter_cons. case_decide; [|done].
  constructor; [done|]. apply Forall_forall. intros y [_ Hy]%list_elem_of_filter.
  rewrite Forall_forall in Ha. by apply Ha.
Qed.

Lemma sorted_remove {A} (R : A → A → Prop) l1 x l2 :
  StronglySorted R (l1 ++ x :: l2) → StronglySorted R (l1 ++ l2).
Proof.
  induction l1 as [|a l1 IH]; simpl; intros Hs; inversion Hs as [|? ? H1 H2]; subst; [done|].
  constructor; [auto|]. rewrite Forall_app, Forall_cons in *. tauto.
Qed.

(** ** The contents of the task lists *)

Definition prio (ts : tstore) (x : Z) : Z := sched_priority (tcb_at ts x).
Definition tstate_of (ts : tstore) (x : Z) : tstate := task_state (tcb_at ts x).
Definition locks (ts : tstore) (x : Z) : Z := lockcount (tcb_at ts x).

Record lists_ok (st : sched) (L : tasklist → list Z) : Prop := {
  lo_repr : ∀ k, dq_repr (tcbs st) (qs st k) (L k);
  lo_disj : ∀ k1 k2 x, x ∈ L k1 → x ∈ L k2 → k1 = k2;
  lo_dom : ∀ k x, x ∈ L k → x ∈ dom (tcbs st);
}.

Definition fresh (L : tasklist → list Z) (x : Z) : Prop := ∀ k, x ∉ L k.

Lemma lists_length st L k : lists_ok st L → (length (L k) ≤ sched_fuel st)%nat.
Proof.
  intros Ho. destruct (lo_repr _ _ Ho k) as (_ & Hn & _). unfold sched_fuel.
  rewrite <-(size_list_to_set (C:=gset Z) (L k)) by done.
  transitivity (size (dom (tcbs st : gmap Z tcb))).
  - apply subseteq_size. intros x Hx%elem_of_list_to_set. by eapply lo_dom.
  - apply Nat.eq_le_incl, (size_dom (M:=gmap Z)).
Qed.

Lemma fn_insert_eq {A} (L : tasklist → A) k v : <[k := v]> L k = v.
Proof. apply fn_lookup_insert. Qed.
Lemma fn_insert_ne {A} (L : tasklist → A) k v k' : k ≠ k' → <[k := v]> L k' = L k'.
Proof. apply fn_lookup_insert_ne. Qed.

(** Replacing one list by an operation that keeps to its own nodes. *)
Lemma lists_replace st L k q ts l P :
  lists_ok st L → dq_repr ts q l → links_frame P (tcbs st) ts →
  (∀ y k', k' ≠ k → y ∈ L k' → y ∉ P) → (∀ y, y ∈ l → y ∈ dom ts) → grows (tcbs st) ts →
  (∀ y k', y ∈ l → k' ≠ k → y ∉ L k') →
  lists_ok (with_queue (with_tcbs st ts) k q) (<[k := l]> L).
Proof.
  intros Ho Hr Hf HP Hd Hg Hdis. split; cbn [with_queue with_tcbs tcbs qs].
  - intros k'. destruct (decide (k = k')) as [<-|Hne].
    + by rewrite !fn_insert_eq.
    + rewrite !fn_insert_ne by done. eapply dq_repr_frame; [exact Hf| |by apply lo_repr].
      intros y. apply HP. congruence.
  - intros k1 k2 x. destruct (decide (k = k1)) as [<-|H1], (decide (k = k2)) as [<-|H2];
      rewrite ?fn_insert_eq, ?fn_insert_ne by done; intros Hx1 Hx2; try done.
    + exfalso. eapply (Hdis x k2); [done|congruence|done].
    + exfalso. eapply (Hdis x k1); [done|congruence|done].
    + by eapply lo_disj.
  - intros k' x. destruct (decide (k = k')) as [<-|Hne]; rewrite ?fn_insert_eq, ?fn_insert_ne by done.
    + apply Hd.
    + intros Hx. apply Hg. by eapply lo_dom.
Qed.

Lemma lists_ok_ext st st' L :
  (∀ k, qs st' k = qs st k) → tcbs st' = tcbs st → lists_ok st L → lists_ok st' L.
Proof.
  intros Hq Ht [H1 H2 H3]. split; [|done|by rewrite Ht]. intros k. rewrite Hq, Ht. apply H1.
Qed.

Lemma lists_ok_ext_L st L L' : (∀ k, L' k = L k) → lists_ok st L → lists_ok st L'.
Proof.
  intros E [H1 H2 H3]. split.
  - intros k. rewrite E. apply H1.
  - intros k1 k2 x. rewrite !E. apply H2.
  - intros k x. rewrite E. apply H3.
Qed.

(** Updates of fields other than the links. *)
Lemma lists_on_tcb st L a f :
  (∀ t, t_flink (f t) = t_flink t ∧ t_blink (f t) = t_blink t) →
  lists_ok st L → lists_ok (on_tcb a f st) L.
Proof.
  intros Hf Ho. split; cbn [on_tcb with_tcbs tcbs qs].
  - intros k. eapply dq_repr_ext; [..|by apply lo_repr]; intros y; simpl; rewrite tcb_at_upd;
      case_decide; subst; try done; apply Hf.
  - intros. by eapply lo_disj.
  - intros k x Hx. apply grows_upd. by eapply lo_dom.
Qed.

(** ** sched_addprioritized *)

Lemma pinsert_app pr x l1 l2 :
  (∀ y, y ∈ l1 → pr x ≤ pr y) → (∀ y, head l2 = Some y → pr y < pr x) →
  pinsert pr x (l1 ++ l2) = l1 ++ x :: l2.
Proof.
  intros H1 H2. induction l1 as [|a l1 IH]; simpl.
  - destruct l2 as [|b l2]; simpl; [done|]. specialize (H2 b eq_refl).
    by rewrite (proj2 (Z.leb_gt _ _)) by lia.
  - rewrite (proj2 (Z.leb_le _ _)) by (apply H1; constructor). rewrite IH; [done|].
    intros y Hy. apply H1. by constructor.
Qed.

Lemma prio_search_spec fuel ts p l :
  chain (flink ts) l 0 → 0 ∉ l → (length l ≤ fuel)%nat →
  ∃ l1 l2, l = l1 ++ l2 ∧
    prio_search fuel ts p (default 0 (head l)) = Some (default 0 (head l2)) ∧
    (∀ y, y ∈ l1 → p ≤ prio ts y) ∧ (∀ y, head l2 = Some y → prio ts y < p).
Proof.
  revert fuel. induction l as [|a l IH]; intros fuel Hc H0 Hf.
  - exists [], []. split_and!; [done|by destruct fuel|by intros y ?%not_elem_of_nil|done].
  - apply not_elem_of_cons in H0 as [Ha H0]. destruct Hc as [Hn Hc]. cbn [head default].
    assert (E : prio_search fuel ts p a =
      if p <=? prio ts a then
        match fuel with O => None | S fuel => prio_search fuel ts p (default 0 (head l)) end
      else Some a).
    { destruct fuel as [|fuel]; cbn [prio_search]; rewrite (proj2 (Z.eqb_neq a 0)) by done;
        cbn [negb andb]; [done|]. by rewrite Hn. }
    simpl. change (id a) with a. rewrite E. case_test.
    + simpl in Hf. destruct fuel as [|fuel]; [lia|].
      destruct (IH fuel) as (l1 & l2 & -> & -> & H1 & H2); [done|done|lia|].
      exists (a :: l1), l2. split_and!; [done|done| |done].
      intros y [->|Hy]%elem_of_cons; [done|auto].
    + exists [], (a :: l). split_and!; [done|done|by intros y ?%not_elem_of_nil|].
      by intros y [= <-].
Qed.

(** The links and the header after [prio_link], in every case. *)
Lemma prio_link_links ts q x next :
  let prev := if next =? 0 then q_tail q else blink ts next in
  x ≠ next → x ≠ prev →
  let '(ret, q', ts') := prio_link x next q ts in
  (∀ y, flink ts' y = if decide (y = x) then next
                      else if decide (prev ≠ 0 ∧ y = prev) then x else flink ts y) ∧
  (∀ y, blink ts' y = if decide (y = x) then prev
                      else if decide (next ≠ 0 ∧ y = next) then x else blink ts y) ∧
  q_head q' = (if prev =? 0 then x else q_head q) ∧
  q_tail q' = (if next =? 0 then x else q_tail q) ∧ ret = (prev =? 0).
Proof.
  intros prev Hn Hp. unfold prio_link. subst prev.
  destruct (next =? 0) eqn:En; zb.
  - destruct (q_tail q =? 0) eqn:Ep; zb; rewrite ?Ep, ?En; (split_and!; [intros y|intros y|..]);
      simpl; try done; repeat (rewrite ?tcb_at_upd; repeat case_decide; subst; simpl; try tauto).
  - destruct (blink ts next =? 0) eqn:Ep; zb; rewrite ?Ep; (split_and!; [intros y|intros y|..]);
      simpl; try done; repeat (rewrite ?tcb_at_upd; repeat case_decide; subst; simpl; try tauto).
Qed.
Lemma prio_link_spec ts q l1 l2 x :
  dq_repr ts q (l1 ++ l2) → x ∉ l1 ++ l2 → x ≠ 0 →
  let '(ret, q', ts') := prio_link x (default 0 (head l2)) q ts in
  dq_repr ts' q' (l1 ++ x :: l2) ∧ ret = bool_decide (l1 = []) ∧
  links_frame (x :: l1 ++ l2) ts ts'.
Proof.
  intros (Hc & Hnd & H0 & Hh & Ht) Hx Hx0. set (next := default 0 (head l2)).
  assert (Hxl : ∀ y, y ∈ l1 ++ l2 → y ≠ x) by (intros y ? ->; done).
  assert (H0l : ∀ y, y ∈ l1 ++ l2 → y ≠ 0) by (intros y ? ->; done).
  assert (Hl1 : ∀ y, y ∈ l1 → y ∈ l1 ++ l2) by (intros; apply elem_of_app; by left).
  assert (Hl2 : ∀ y, y ∈ l2 → y ∈ l1 ++ l2) by (intros; apply elem_of_app; by right).
  assert (Hnext : next ∈ l2 ∨ next = 0).
  { unfold next. destruct l2; simpl; [by right|left; constructor]. }
  assert (Hn0 : next = 0 ↔ l2 = []).
  { unfold next. destruct l2; simpl; [done|]. split; [intros ->; set_solver|done]. }
  set (prev := if next =? 0 then q_tail q else blink ts next).
  assert (Hprev : prev = default 0 (last l1)).
  { unfold prev, next. destruct l2 as [|b l2]; simpl.
    - by rewrite Ht, app_nil_r.
    - rewrite (proj2 (Z.eqb_neq b 0)) by set_solver. by apply (dll_prev _ _ _ _ _ Hc). }
  assert (Hpin : prev ∈ l1 ∨ prev = 0).
  { rewrite Hprev. destruct (last l1) eqn:E; simpl; [left|by right]. by apply last_Some_elem_of. }
  assert (Hp0 : prev = 0 ↔ l1 = []).
  { rewrite Hprev. split; [|by intros ->]. apply last_zero. set_solver. }
  pose proof (prio_link_links ts q x next) as Hl. fold prev in Hl.
  destruct (prio_link x next q ts) as [[ret q'] ts'].
  assert (x ≠ next) by (destruct Hnext as [?%Hl2%Hxl| ->]; congruence).
  assert (x ≠ prev) by (destruct Hpin as [?%Hl1%Hxl| ->]; congruence).
  destruct Hl as (Hf & Hb & Hqh & Hqt & Hret); [done|done|].
  split_and!.
  - split_and!.
    + apply (dll_insert (flink ts) (blink ts)); try done.
      * intros y Hy Hne. rewrite Hf. rewrite decide_False by auto.
        destruct (decide (prev ≠ 0 ∧ y = prev)) as [[? ->]|]; [|done]. exfalso. apply Hne.
        rewrite Hprev. by destruct (last l1).
      * intros p Hp. rewrite Hf. assert (prev = p) by by rewrite Hprev, Hp.
        apply last_Some_elem_of, Hl1 in Hp. rewrite decide_False, decide_True; [done| |by auto].
        split; [|done]. rewrite H2. auto.
      * rewrite Hf. by rewrite decide_True.
      * intros y Hy Hne. rewrite Hb. rewrite decide_False by auto.
        destruct (decide (next ≠ 0 ∧ y = next)) as [[? ->]|]; [|done]. exfalso. apply Hne.
        unfold next. by destruct l2.
      * intros p Hp. rewrite Hb. assert (next = p) by (unfold next; by rewrite Hp).
        assert (p ∈ l1 ++ l2) by (apply Hl2; destruct l2; simplify_eq/=; constructor).
        rewrite decide_False, decide_True; [done| |by auto]. split; [|done]. rewrite H2. auto.
      * rewrite Hb. by rewrite decide_True.
    + by apply NoDup_mid.
    + rewrite elem_of_app, elem_of_cons in *. intuition congruence.
    + rewrite Hqh. destruct l1 as [|a l1]; simpl.
      * by rewrite (proj2 (Z.eqb_eq prev 0)) by by apply Hp0.
      * rewrite (proj2 (Z.eqb_neq prev 0)); [done|]. intros E%Hp0. done.
    + rewrite Hqt, last_app. destruct l2 as [|b l2].
      * rewrite (proj2 (Z.eqb_eq next 0)) by by apply Hn0. done.
      * rewrite (proj2 (Z.eqb_neq next 0)); [|intros E%Hn0; done].
        rewrite Ht, last_app, last_cons_cons. destruct (last (b :: l2)) eqn:E; [done|].
        by apply last_None in E.
  - rewrite Hret. destruct (Z.eqb_spec prev 0) as [E|E].
    + symmetry. by apply bool_decide_eq_true, Hp0.
    + symmetry. apply bool_decide_eq_false. intros ?%Hp0. done.
  - intros y Hy. rewrite Hf, Hb. apply not_elem_of_cons in Hy as [Hy1 Hy2].
    rewrite !(decide_False (P := y = x)) by done.
    rewrite !decide_False; [done|..]; intros [? ->].
    + destruct Hnext as [?%Hl2|]; done.
    + destruct Hpin as [?%Hl1|]; done.
Qed.

(** sched_addprioritized puts the task behind its equals. *)
Lemma addprioritized_ok st L x k :
  lists_ok st L → fresh L x → x ≠ 0 → x ∈ dom (tcbs st) → 1 ≤ prio (tcbs st) x →
  ∃ st', sched_addprioritized x k st =
    Some (bool_decide (head (pinsert (prio (tcbs st)) x (L k)) = Some x), st') ∧
    lists_ok st' (<[k := pinsert (prio (tcbs st)) x (L k)]> L) ∧
    same_data (tcbs st) (tcbs st') ∧ grows (tcbs st) (tcbs st') ∧ g_running st' = g_running st.
Proof.
  intros Ho Hfr Hx0 Hxd Hp. pose proof (lo_repr _ _ Ho k) as Hr.
  pose proof Hr as ([Hcf _] & _ & H0 & Hh & _).
  unfold sched_addprioritized. unfold prio in Hp. fold (get st x) in Hp.
  rewrite (proj2 (Z.leb_le _ _)) by (unfold SCHED_PRIORITY_MIN; lia). cbn [negb].
  destruct (prio_search_spec (sched_fuel st) (tcbs st) (sched_priority (get st x)) (L k))
    as (l1 & l2 & El & Es & H1 & H2); [done|done|by apply lists_length|].
  rewrite Hh, Es. cbn [mbind option_bind].
  assert (Ei : pinsert (prio (tcbs st)) x (L k) = l1 ++ x :: l2) by (rewrite El; by apply pinsert_app).
  rewrite El in Hr. pose proof (Hfr k) as Hxk. rewrite El in Hxk.
  pose proof (prio_link_spec _ _ _ _ _ Hr Hxk Hx0) as Hl.
  pose proof (prio_link_data x (default 0 (head l2)) (qs st k) (tcbs st)) as [Hd Hg].
  destruct (prio_link x (default 0 (head l2)) (qs st k) (tcbs st)) as [[ret q'] ts'].
  destruct Hl as (Hrep & -> & Hlf). cbn [fst snd] in Hd, Hg. rewrite Ei.
  exists (with_queue (with_tcbs st ts') k q'). split_and!; try done.
  - repeat f_equal. apply bool_decide_ext. destruct l1 as [|a l1]; simpl; [done|].
    split; [done|]. intros [= ->]. set_solver.
  - eapply lists_replace; [done|done|exact Hlf|..]; try done.
    + intros y k' Hne Hy [->|Hin]%elem_of_cons; [by apply (Hfr k')|].
      rewrite <-El in Hin. apply Hne. by eapply lo_disj.
    + intros y Hy. apply Hg. assert (y = x ∨ y ∈ L k) as [->|Hin] by (rewrite El; in_list); [done|].
      by eapply lo_dom.
    + intros y k' Hy Hne Hin. assert (y = x ∨ y ∈ L k) as [->|Hyk] by (rewrite El; in_list).
      * by apply (Hfr k').
      * apply Hne. by eapply lo_disj.
Qed.

(** ** Removal, and addition to a list that is not prioritized *)

Lemma elem_of_remove_first x l y : NoDup l → y ∈ remove_first x l ↔ y ∈ l ∧ y ≠ x.
Proof.
  intros Hn. destruct (decide (x ∈ l)) as [Hx|Hx].
  - apply elem_split_first in Hx as (l1 & l2 & -> & Hx1). rewrite remove_first_split by done.
    apply NoDup_mid in Hn as [Hx _]. rewrite !elem_of_app, elem_of_cons in *.
    split; [|tauto]. intros Hy. split; [tauto|]. intros ->. tauto.
  - assert (E : remove_first x l = l).
    { clear Hn. induction l as [|a l IH]; simpl; [done|]. apply not_elem_of_cons in Hx as [Ha Hx].
      rewrite decide_False by done. by rewrite IH. }
    rewrite E. split; [|tauto]. intros Hy. split; [done|]. by intros ->.
Qed.

Lemma rem_ok st L k x :
  lists_ok st L → x ∈ L k →
  let st' := on_list k (dq_rem x) st in
  lists_ok st' (<[k := remove_first x (L k)]> L) ∧
  fresh (<[k := remove_first x (L k)]> L) x ∧
  same_data (tcbs st) (tcbs st') ∧ grows (tcbs st) (tcbs st') ∧ g_running st' = g_running st.
Proof.
  intros Ho Hx. pose proof (lo_repr _ _ Ho k) as Hr. pose proof Hr as (_ & Hn & _).
  pose proof (elem_of_remove_first x (L k)) as Hrf.
  pose proof (elem_split_first _ _ Hx) as (l1 & l2 & El & Hx1).
  assert (Er : remove_first x (L k) = l1 ++ l2) by (rewrite El; by apply remove_first_split).
  unfold on_list. rewrite El in Hr. destruct (dq_rem_spec _ _ _ _ _ Hr) as (Hr' & _ & _ & Hlf).
  pose proof (dq_rem_data x (qs st k) (tcbs st)) as [Hd Hg].
  destruct (dq_rem x (qs st k) (tcbs st)) as [q' ts']. cbn [fst snd] in *.
  cbn zeta. split_and!; try done.
  - rewrite Er. eapply lists_replace; [done|done|exact Hlf|..]; try done.
    + intros y k' Hne Hy Hin. rewrite <-El in Hin. apply Hne. by eapply lo_disj.
    + intros y Hy. apply Hg. eapply (lo_dom _ _ Ho k). rewrite El. in_list.
    + intros y k' Hy Hne Hin. apply Hne. eapply (lo_disj _ _ Ho k' k y); [done|]. rewrite El. in_list.
  - intros k'. destruct (decide (k = k')) as [<-|Hne].
    + rewrite fn_insert_eq, Hrf by done. tauto.
    + rewrite fn_insert_ne by done. intros Hin. apply Hne. by eapply lo_disj.
Qed.

Lemma addlast_ok st L k x :
  lists_ok st L → fresh L x → x ≠ 0 → x ∈ dom (tcbs st) →
  let st' := on_list k (dq_addlast x) st in
  lists_ok st' (<[k := L k ++ [x]]> L) ∧
  same_data (tcbs st) (tcbs st') ∧ grows (tcbs st) (tcbs st') ∧ g_running st' = g_running st.
Proof.
  intros Ho Hfr Hx0 Hxd. pose proof (lo_repr _ _ Ho k) as Hr.
  destruct (dq_addlast_spec _ _ _ _ Hr (Hfr k) Hx0) as [Hr' Hlf].
  pose proof (dq_addlast_data x (qs st k) (tcbs st)) as [Hd Hg].
  unfold on_list. destruct (dq_addlast x (qs st k) (tcbs st)) as [q' ts']. cbn [fst snd] in *.
  cbn zeta. split_and!; try done.
  eapply lists_replace; [done|done|exact Hlf|..]; try done.
  - intros y k' Hne Hy [->|Hin]%elem_of_cons; [by apply (Hfr k')|]. apply Hne. by eapply lo_disj.
  - intros y [Hy|Hy]%elem_of_app; apply Hg; [by eapply lo_dom|].
    apply list_elem_of_singleton in Hy as ->. done.
  - intros y k' [Hy|Hy]%elem_of_app Hne Hin; [apply Hne; by eapply lo_disj|].
    apply list_elem_of_singleton in Hy as ->. by apply (Hfr k').
Qed.

(** ** sched_mergepending *)

(** Inserting a list of tasks one after the other. *)
Definition pmerge (pr : Z → Z) (P R : list Z) : list Z := foldl (λ l x, pinsert pr x l) R P.

Definition stateless (t : tcb) : tcb := with_state TSTATE_TASK_INVALID (data t).
(** Only links and states differ. *)
Definition same_tasks (ts ts' : tstore) : Prop :=
  ∀ x, stateless (tcb_at ts' x) = stateless (tcb_at ts x).

#[global] Instance same_tasks_preorder : PreOrder same_tasks.
Proof. split; [by intros ts x|]. intros t1 t2 t3 H12 H23 x. by rewrite H23, H12. Qed.

Lemma same_data_tasks ts ts' : same_data ts ts' → same_tasks ts ts'.
Proof. intros H x. unfold stateless. by rewrite H. Qed.

Lemma same_tasks_state a v ts : same_tasks ts (upd a (with_state v) ts).
Proof. intros x. rewrite tcb_at_upd. case_decide; subst; done. Qed.

Lemma same_tasks_field {A} (f : tcb → A) ts ts' x :
  (∀ t, f (stateless t) = f t) → same_tasks ts ts' → f (tcb_at ts' x) = f (tcb_at ts x).
Proof. intros Hf Hs. rewrite <-Hf, Hs. apply Hf. Qed.

Lemma same_tasks_prio ts ts' x : same_tasks ts ts' → prio ts' x = prio ts x.
Proof. by apply (same_tasks_field sched_priority). Qed.
Lemma same_tasks_locks ts ts' x : same_tasks ts ts' → locks ts' x = locks ts x.
Proof. by apply (same_tasks_field lockcount). Qed.

(** Only links, states and time slices differ. *)
Definition essence (t : tcb) : tcb := with_timeslice 0 (stateless t).
Definition same_essence (ts ts' : tstore) : Prop :=
  ∀ x, essence (tcb_at ts' x) = essence (tcb_at ts x).

#[global] Instance same_essence_preorder : PreOrder same_essence.
Proof. split; [by intros ts x|]. intros t1 t2 t3 H12 H23 x. by rewrite H23, H12. Qed.

Lemma same_tasks_essence ts ts' : same_tasks ts ts' → same_essence ts ts'.
Proof. intros H x. unfold essence. by rewrite H. Qed.

Lemma same_essence_timeslice a v ts : same_essence ts (upd a (with_timeslice v) ts).
Proof. intros x. rewrite tcb_at_upd. case_decide; subst; done. Qed.

Lemma same_essence_field {A} (f : tcb → A) ts ts' x :
  (∀ t, f (essence t) = f t) → same_essence ts ts' → f (tcb_at ts' x) = f (tcb_at ts x).
Proof. intros Hf Hs. rewrite <-Hf, Hs. apply Hf. Qed.

Lemma same_essence_prio ts ts' x : same_essence ts ts' → prio ts' x = prio ts x.
Proof. by apply (same_essence_field sched_priority). Qed.
Lemma same_essence_locks ts ts' x : same_essence ts ts' → locks ts' x = locks ts x.
Proof. by apply (same_essence_field lockcount). Qed.

Lemma tstate_upd a v ts x :
  tstate_of (upd a (with_state v) ts) x = if decide (x = a) then v else tstate_of ts x.
Proof. unfold tstate_of. rewrite tcb_at_upd. by case_decide; subst. Qed.

Lemma same_data_state ts ts' x : same_data ts ts' → tstate_of ts' x = tstate_of ts x.
Proof. by apply (same_data_field task_state). Qed.

(** The head of the ready list runs, the others are ready. *)
Definition run_states (ts : tstore) (R : list Z) : Prop :=
  ∀ x, x ∈ R → tstate_of ts x =
    if decide (head R = Some x) then TSTATE_TASK_RUNNING else TSTATE_TASK_READYTORUN.

Lemma merge_insert_ok st L A n B p ret :
  let st0 := with_queue st g_pendingtasks (mk_queue 0 0) in
  lists_ok st0 L → L g_readytorun = A ++ n :: B → fresh L p → p ≠ 0 → p ∈ dom (tcbs st) →
  run_states (tcbs st) (A ++ n :: B) →
  ∃ st', merge_insert p n ret st = (bool_decide (A = []) || ret, st') ∧
    lists_ok (with_queue st' g_pendingtasks (mk_queue 0 0)) (<[g_readytorun := A ++ p :: n :: B]> L) ∧
    same_tasks (tcbs st) (tcbs st') ∧ grows (tcbs st) (tcbs st') ∧ g_running st' = g_running st ∧
    links_frame (p :: A ++ n :: B) (tcbs st) (tcbs st') ∧
    run_states (tcbs st') (A ++ p :: n :: B) ∧
    (∀ x, x ∉ p :: A ++ n :: B → tstate_of (tcbs st') x = tstate_of (tcbs st) x).
Proof.
  intros st0 Ho EL Hfr Hp0 Hpd Hrs. pose proof (lo_repr _ _ Ho g_readytorun) as Hr. rewrite EL in Hr.
  pose proof Hr as (_ & Hnd & H0 & _).
  assert (Hn0 : n ≠ 0) by (intros ->; apply H0; in_list).
  assert (HpR : p ∉ A ++ n :: B) by (rewrite <-EL; apply Hfr).
  pose proof (prio_link_spec _ _ A (n :: B) p Hr HpR Hp0) as Hl.
  change (default 0 (head (n :: B))) with n in Hl.
  change (qs st0 g_readytorun) with (qs st g_readytorun) in Hl.
  change (tcbs st0) with (tcbs st) in Hl.
  pose proof (prio_link_data p n (qs st g_readytorun) (tcbs st)) as [Hd Hg].
  assert (E : merge_insert p n ret st =
    let '(headed, q', ts') := prio_link p n (qs st g_readytorun) (tcbs st) in
    if headed then
      (true, mk_sched (upd p (with_state TSTATE_TASK_RUNNING) (upd n (with_state TSTATE_TASK_READYTORUN) ts'))
               (<[g_readytorun := q']> (qs st)) (g_running st))
    else (ret, mk_sched (upd p (with_state TSTATE_TASK_READYTORUN) ts') (qs st) (g_running st))).
  { unfold merge_insert, prio_link. rewrite (proj2 (Z.eqb_neq n 0)) by done.
    change (blink (tcbs st) n) with (t_blink (get st n)).
    by destruct (t_blink (get st n) =? 0). }
  rewrite E. clear E.
  assert (Hq2 : (prio_link p n (qs st g_readytorun) (tcbs st)).1.1 = false →
    (prio_link p n (qs st g_readytorun) (tcbs st)).1.2 = qs st g_readytorun).
  { unfold prio_link. rewrite (proj2 (Z.eqb_neq n 0)) by done. by destruct (blink _ _ =? 0). }
  destruct (prio_link p n (qs st g_readytorun) (tcbs st)) as [[headed q'] ts'].
  destruct Hl as (Hrep & Hhd & Hlf). cbn [fst snd] in *.
  assert (Hlo : lists_ok (with_queue (with_tcbs st0 ts') g_readytorun q')
    (<[g_readytorun := A ++ p :: n :: B]> L)).
  { eapply lists_replace; [exact Ho|exact Hrep|exact Hlf|..]; try done.
    - intros y k' Hne Hy [->|Hin]%elem_of_cons; [by apply (Hfr k')|].
      rewrite <-EL in Hin. apply Hne. by eapply (lo_disj _ _ Ho).
    - intros y Hy. apply Hg. assert (y = p ∨ y ∈ A ++ n :: B) as [->|Hin] by in_list; [done|].
      rewrite <-EL in Hin. by apply (lo_dom _ _ Ho) in Hin.
    - intros y k' Hy Hne Hin. assert (y = p ∨ y ∈ A ++ n :: B) as [->|Hyk] by in_list.
      + by apply (Hfr k').
      + rewrite <-EL in Hyk. apply Hne. by eapply (lo_disj _ _ Ho). }
  pose proof (λ x, same_data_state _ _ x Hd) as Hst.
  destruct headed.
  - symmetry in Hhd. apply bool_decide_eq_true in Hhd. subst A. simpl in *.
    eexists. split; [reflexivity|]. cbn [tcbs g_running]. split_and!; try done.
    + apply (lists_ok_ext (on_tcb p (with_state TSTATE_TASK_RUNNING)
        (on_tcb n (with_state TSTATE_TASK_READYTORUN) (with_queue (with_tcbs st0 ts') g_readytorun q'))));
        [intros k; by destruct k|done|].
      apply lists_on_tcb; [done|]. by apply lists_on_tcb.
    + etransitivity; [apply same_data_tasks; exact Hd|]. etransitivity; apply same_tasks_state.
    + etransitivity; [exact Hg|]. grows.
    + intros y Hy. apply not_elem_of_cons in Hy as Hy'. rewrite not_elem_of_cons in Hy'.
      simpl. rewrite !tcb_at_upd, !decide_False by tauto. by apply Hlf.
    + intros x Hx. rewrite !tstate_upd. cbn [head].
      destruct (decide (x = p)) as [->|Hxp]; [by rewrite decide_True|].
      rewrite (decide_False (P := Some p = Some x)) by congruence.
      destruct (decide (x = n)) as [->|Hxn]; [done|].
      rewrite Hst. assert (x ∈ n :: B) as HxR by in_list. rewrite (Hrs _ HxR).
      by rewrite decide_False by (simpl; congruence).
    + intros x Hx. rewrite !tstate_upd. rewrite !not_elem_of_cons in Hx.
      by rewrite !decide_False by tauto.
  - symmetry in Hhd. pose proof Hhd as HA. apply bool_decide_eq_false in HA. rewrite Hhd.
    specialize (Hq2 eq_refl). subst q'.
    eexists. split; [reflexivity|]. cbn [tcbs g_running]. split_and!; try done.
    + apply (lists_ok_ext (on_tcb p (with_state TSTATE_TASK_READYTORUN)
        (with_queue (with_tcbs st0 ts') g_readytorun (qs st g_readytorun))));
        [intros k; by destruct k|done|].
      by apply lists_on_tcb.
    + etransitivity; [apply same_data_tasks; exact Hd|]. apply same_tasks_state.
    + etransitivity; [exact Hg|]. grows.
    + intros y Hy. apply not_elem_of_cons in Hy as Hy'.
      simpl. rewrite !tcb_at_upd, !decide_False by tauto. by apply Hlf.
    + intros x Hx. rewrite !tstate_upd.
      assert (Hh : head (A ++ p :: n :: B) = head (A ++ n :: B)) by (by destruct A).
      rewrite Hh. destruct (decide (x = p)) as [->|Hxp].
      * rewrite decide_False; [done|]. intros Hp%head_Some_elem_of. done.
      * rewrite Hst. apply Hrs. in_list.
    + intros x Hx. rewrite !tstate_upd. rewrite !not_elem_of_cons in Hx.
      by rewrite !decide_False by tauto.
Qed.

Lemma pmerge_cons pr x P R : pmerge pr (x :: P) R = pmerge pr P (pinsert pr x R).
Proof. done. Qed.

Lemma elem_of_pmerge pr P R y : y ∈ pmerge pr P R ↔ y ∈ P ∨ y ∈ R.
Proof.
  revert R. induction P as [|x P IH]; intros R; [simpl; rewrite elem_of_nil; tauto|].
  rewrite pmerge_cons, IH, elem_of_pinsert, elem_of_cons. tauto.
Qed.

Lemma pmerge_sorted pr P R :
  StronglySorted (pdesc pr) R → StronglySorted (pdesc pr) (pmerge pr P R).
Proof. revert R. induction P; intros R HR; [done|]. rewrite pmerge_cons. auto using pinsert_sorted. Qed.

Lemma pmerge_ext pr pr' P R : (∀ y, y ∈ P ++ R → pr' y = pr y) → pmerge pr' P R = pmerge pr P R.
Proof.
  revert R. induction P as [|x P IH]; intros R He; [done|]. rewrite !pmerge_cons.
  rewrite (pinsert_ext pr pr'); [|intros y Hy; apply He; in_list].
  apply IH. intros y [Hy|Hy]%elem_of_app; apply He; [in_list|].
  apply elem_of_pinsert in Hy. in_list.
Qed.

Lemma pmerge_last pr P R i : last R = Some i → (∀ p, p ∈ P → pr i < pr p) →
  last (pmerge pr P R) = Some i.
Proof.
  revert R. induction P as [|x P IH]; intros R Hl Hi; [done|]. rewrite pmerge_cons.
  apply IH; [apply pinsert_last; [done|apply Hi; constructor]|]. intros p Hp. apply Hi. by right.
Qed.

(** The head changes only to a merged task. *)
Lemma pmerge_head pr P R :
  head (pmerge pr P R) = head R ∨ ∃ p, p ∈ P ∧ head (pmerge pr P R) = Some p.
Proof.
  revert R. induction P as [|x P IH]; intros R; [by left|]. rewrite pmerge_cons.
  destruct (IH (pinsert pr x R)) as [->|(p & Hp & ->)]; [|right; exists p; split; [by right|done]].
  rewrite pinsert_head. destruct (head R); [case_test|]; [by left|..];
    right; exists x; (split; [constructor|done]).
Qed.

Definition dq0 : queue_t := mk_queue 0 0.

Lemma mergepending_loop_ok n fuel st L P A c B ret idle :
  lists_ok (with_queue st g_pendingtasks dq0) L → L g_readytorun = A ++ c :: B →
  run_states (tcbs st) (A ++ c :: B) →
  chain (flink (tcbs st)) P 0 → NoDup P → 0 ∉ P → (∀ p, p ∈ P → fresh L p ∧ p ∈ dom (tcbs st)) →
  StronglySorted (pdesc (prio (tcbs st))) P →
  (∀ p y, p ∈ P → y ∈ A → prio (tcbs st) p ≤ prio (tcbs st) y) →
  last (c :: B) = Some idle → (∀ p, p ∈ P → prio (tcbs st) idle < prio (tcbs st) p) →
  (length P ≤ n)%nat → (length (A ++ c :: B) + length P ≤ fuel)%nat →
  let R' := pmerge (prio (tcbs st)) P (A ++ c :: B) in
  ∃ st', mergepending_loop n fuel (default 0 (head P)) c ret st =
      Some (ret || bool_decide (head R' ≠ head (A ++ c :: B)), st') ∧
    lists_ok (with_queue st' g_pendingtasks dq0) (<[g_readytorun := R']> L) ∧
    same_tasks (tcbs st) (tcbs st') ∧ grows (tcbs st) (tcbs st') ∧ g_running st' = g_running st ∧
    run_states (tcbs st') R' ∧
    (∀ x, x ∉ P ++ A ++ c :: B → tstate_of (tcbs st') x = tstate_of (tcbs st) x).
Proof.
  revert st L A c B ret n. induction P as [|p P IH];
    intros st L A c B ret n Ho EL Hrs Hc Hnd H0 HP Hso HA Hla Hid Hn Hfu R'.
  { exists st. unfold R'. cbn [pmerge foldl].
    rewrite bool_decide_eq_false_2, orb_false_r by (intros H; by apply H).
    split_and!; try done.
    - destruct n; done.
    - eapply lists_ok_ext_L; [|exact Ho]. intros k.
      destruct (decide (g_readytorun = k)) as [<-|]; [by rewrite fn_insert_eq|by rewrite fn_insert_ne]. }
  set (ts := tcbs st) in *. destruct Hc as [Hpn Hc]. apply NoDup_cons in Hnd as [HpP Hnd].
  apply not_elem_of_cons in H0 as [Hp0 H0]. apply StronglySorted_inv in Hso as [Hso Hfp].
  destruct (HP p) as [Hfr Hpd]; [constructor|].
  pose proof (lo_repr _ _ Ho g_readytorun) as Hr. rewrite EL in Hr. cbn [with_queue tcbs] in Hr. fold ts in Hr.
  pose proof Hr as ([Hcf _] & HndR & H0R & _). apply chain_app in Hcf as [_ Hcf].
  destruct n as [|n]; [simpl in Hn; lia|].
  change (default 0 (head (p :: P))) with p. cbn [mergepending_loop].
  rewrite (proj2 (Z.eqb_neq p 0)) by done. change (tcbs st) with ts.
  destruct (prio_search_spec fuel ts (sched_priority (get st p)) (c :: B)) as (l1 & l2 & El & Es & H1 & H2);
    [done|intros ?; apply H0R; apply elem_of_app; by right| |].
  { rewrite length_app in Hfu. lia. }
  change (default 0 (head (c :: B))) with c in Es. rewrite Es. cbn [mbind option_bind].
  change (sched_priority (get st p)) with (prio ts p) in H1, H2.
  destruct l2 as [|m l2].
  { exfalso. rewrite app_nil_r in El. apply last_Some_elem_of in Hla. rewrite El in Hla.
    specialize (H1 _ Hla). specialize (Hid p (list_elem_of_here _ _)). lia. }
  change (default 0 (head (m :: l2))) with m.
  assert (Hm0 : m ≠ 0).
  { intros ->. apply H0R. rewrite El. rewrite !elem_of_app, elem_of_cons. tauto. }
  rewrite (proj2 (Z.eqb_neq m 0)) by done.
  assert (ER : A ++ c :: B = (A ++ l1) ++ m :: l2) by (by rewrite El, app_assoc).
  rewrite ER in *. 
  destruct (merge_insert_ok st L (A ++ l1) m l2 p ret Ho EL Hfr (not_eq_sym Hp0) Hpd Hrs)
    as (st1 & E1 & Ho1 & Hst1 & Hg1 & Hr1 & Hlf1 & Hrs1 & Hx1).
  fold ts in Hst1, Hg1, Hlf1, Hx1. rewrite E1.
  assert (Hpr : ∀ y, prio (tcbs st1) y = prio ts y) by (intros y; by apply same_tasks_prio).
  assert (Epi : pinsert (prio ts) p ((A ++ l1) ++ m :: l2) = (A ++ l1) ++ p :: m :: l2).
  { apply pinsert_app; [|done]. intros y [Hy|Hy]%elem_of_app; [|auto]. apply HA; [constructor|done]. }
  assert (Hfrz : ∀ y, y ∈ P → y ∉ p :: (A ++ l1) ++ m :: l2).
  { intros y Hy [->|Hin]%elem_of_cons; [done|]. rewrite <-EL in Hin.
    destruct (HP y) as [Hfy _]; [by right|]. by apply (Hfy g_readytorun). }
  change (t_flink (get st p)) with (flink ts p). rewrite Hpn.
  destruct (IH st1 (<[g_readytorun := (A ++ l1) ++ p :: m :: l2]> L) (A ++ l1) p (m :: l2)
              (bool_decide (A ++ l1 = []) || ret) n)
    as (st' & E & Ho' & Hst' & Hg' & Hr' & Hrs' & Hx'); try done.
  - eapply chain_ext; [|exact Hc]. intros y Hy. apply Hlf1. by apply Hfrz.
  - intros y Hy. destruct (HP y) as [Hfy Hyd]; [by right|]. split; [|by apply Hg1].
    intros k. destruct (decide (g_readytorun = k)) as [<-|]; [rewrite fn_insert_eq|by rewrite fn_insert_ne].
    specialize (Hfrz _ Hy). rewrite !elem_of_app, !elem_of_cons, !elem_of_app, ?elem_of_cons in *. tauto.
  - eapply sorted_ext; [|exact Hso]. auto.
  - intros y z Hy Hz. rewrite !Hpr. apply elem_of_app in Hz as [Hz|Hz].
    + apply HA; [by right|done].
    + rewrite Forall_forall in Hfp. specialize (Hfp _ Hy). unfold pdesc in Hfp. specialize (H1 _ Hz). lia.
  - rewrite last_cons_cons. rewrite El, last_app in Hla.
    destruct (last (m :: l2)) eqn:E; [done|]. by apply last_None in E.
  - intros y Hy. rewrite !Hpr. apply Hid. by right.
  - simpl in Hn. lia.
  - rewrite !length_app in *. simpl in *. lia.
  - exists st'. rewrite E. unfold R'. rewrite ER, pmerge_cons, Epi.
    rewrite (pmerge_ext (prio ts)) in * by auto.
    set (R2 := pmerge (prio ts) P ((A ++ l1) ++ p :: m :: l2)) in *.
    assert (Hhead : bool_decide (A ++ l1 = []) || ret ||
        bool_decide (head R2 ≠ head ((A ++ l1) ++ p :: m :: l2)) =
      ret || bool_decide (head R2 ≠ head ((A ++ l1) ++ m :: l2))).
    { destruct ret; [by rewrite !orb_true_r|]. rewrite orb_false_r. simpl.
      destruct (A ++ l1) as [|a A']; [|done]. simpl. symmetry. apply bool_decide_eq_true.
      destruct (pmerge_head (prio ts) P ([] ++ p :: m :: l2)) as [Eh|(z & Hz & Eh)].
      - fold R2 in Eh. rewrite Eh. simpl. intros [= ->].
        apply (Hfr g_readytorun). rewrite EL. constructor.
      - fold R2 in Eh. rewrite Eh. intros [= ->]. apply (Hfrz _ Hz). right. constructor. }
    split_and!; try done.
    + by rewrite Hhead.
    + eapply lists_ok_ext_L; [|exact Ho']. intros k.
      destruct (decide (g_readytorun = k)) as [<-|]; [by rewrite !fn_insert_eq|by rewrite !fn_insert_ne].
    + by etransitivity.
    + by etransitivity.
    + by rewrite Hr'.
    + intros x Hx. rewrite Hx', Hx1; [done|..];
        rewrite ?elem_of_app, ?elem_of_cons, ?elem_of_app, ?elem_of_cons in *; tauto.
Qed.
