(* ===== verification/SchedThms.v ===== *)
(** The scheduler invariant and its preservation by every operation: the ready
    list is in priority order and ends with the idle task, its head is the task
    that runs, every task is in exactly the list its state says, and tasks are
    held back in [g_pendingtasks] only while the running task has disabled
    pre-emption. *)

From stdpp Require Import base numbers functions gmap sorting list.
From S2P Require Import Prelude Queue Sched SchedInv.

Definition prio_sorted (ts : tstore) (L : tasklist → list Z) (k : tasklist) : Prop :=
  StronglySorted (pdesc (prio ts)) (L k).

(** The lists kept in priority order. *)
Definition is_prio (k : tasklist) : bool :=
  match k with g_inactivetasks | g_waitingforsignal => false | _ => true end.

Record sched_wf (st : sched) (L : tasklist → list Z) (idle : Z) : Prop := {
  sw_lists : lists_ok st L;
  sw_state : ∀ k x, x ∈ L k → list_of (tstate_of (tcbs st) x) = Some k;
  sw_member : ∀ x k, list_of (tstate_of (tcbs st) x) = Some k → x ∈ L k;
  sw_run : run_states (tcbs st) (L g_readytorun);
  sw_sorted : ∀ k, is_prio k = true → prio_sorted (tcbs st) L k;
  sw_idle : last (L g_readytorun) = Some idle ∧ prio (tcbs st) idle = 0;
  sw_prio : ∀ k x, x ∈ L k → x ≠ idle → 1 ≤ prio (tcbs st) x ≤ 255;
  sw_locks : ∀ x, 0 ≤ locks (tcbs st) x;
}.

(** Tasks are pending only while pre-emption is disabled. *)
Definition lock_ok (st : sched) (L : tasklist → list Z) : Prop :=
  L g_pendingtasks ≠ [] → 0 < locks (tcbs st) (this_task st).

Definition sched_inv (st : sched) (L : tasklist → list Z) (idle : Z) : Prop :=
  sched_wf st L idle ∧ lock_ok st L ∧ g_running st = this_task st.

(** [x] is a task that is in no list. *)
Definition detached (st : sched) (L : tasklist → list Z) (x idle : Z) : Prop :=
  fresh L x ∧ x ≠ 0 ∧ x ∈ dom (tcbs st) ∧ x ≠ idle.

Section Wf.
Implicit Types (st : sched) (L : tasklist → list Z) (x y idle : Z) (k : tasklist).

Lemma wf_ready_split st L idle : sched_wf st L idle →
  ∃ r R, L g_readytorun = r :: R ∧ this_task st = r ∧ r ≠ 0.
Proof.
  intros Hw. destruct (sw_idle _ _ _ Hw) as [Hl _].
  destruct (lo_repr _ _ (sw_lists _ _ _ Hw) g_readytorun) as (_ & _ & H0 & Hh & _).
  destruct (L g_readytorun) as [|r R] eqn:E; [done|]. exists r, R.
  split_and!; [done|exact Hh|]. intros ->. apply H0. constructor.
Qed.

Lemma wf_head st L idle : sched_wf st L idle → head (L g_readytorun) = Some (this_task st).
Proof. intros (r & R & -> & <- & _)%wf_ready_split. done. Qed.

Lemma wf_nonzero st L idle k x : sched_wf st L idle → x ∈ L k → x ≠ 0 ∧ x ∈ dom (tcbs st).
Proof.
  intros Hw Hx. destruct (lo_repr _ _ (sw_lists _ _ _ Hw) k) as (_ & _ & H0 & _).
  split; [intros ->; done|]. by eapply (lo_dom _ _ (sw_lists _ _ _ Hw)).
Qed.

Lemma wf_idle_ready st L idle : sched_wf st L idle → idle ∈ L g_readytorun.
Proof. intros Hw. apply last_Some_elem_of. apply Hw. Qed.

(** A detached task has no state. *)
Lemma wf_invalid st L idle x : sched_wf st L idle → fresh L x →
  tstate_of (tcbs st) x = TSTATE_TASK_INVALID.
Proof.
  intros Hw Hf. destruct (tstate_of (tcbs st) x) eqn:E; try done;
    exfalso; eapply Hf; apply (sw_member _ _ _ Hw x); by rewrite E.
Qed.

(** Moving from one description of the same tasks to another. *)
Lemma wf_change st st' L L' idle :
  sched_wf st L idle → lists_ok st' L' →
  (∀ y, prio (tcbs st') y = prio (tcbs st) y) → (∀ y, 0 ≤ locks (tcbs st') y) →
  (∀ k y, y ∈ L' k → list_of (tstate_of (tcbs st') y) = Some k) →
  (∀ y k, list_of (tstate_of (tcbs st') y) = Some k → y ∈ L' k) →
  run_states (tcbs st') (L' g_readytorun) →
  (∀ k, is_prio k = true → prio_sorted (tcbs st) L' k) →
  last (L' g_readytorun) = Some idle →
  (∀ k y, y ∈ L' k → y ≠ idle → 1 ≤ prio (tcbs st) y ≤ 255) →
  sched_wf st' L' idle.
Proof.
  intros Hw Ho Hp Hlk Hs Hm Hr Hso Hi Hpr. split; try done.
  - intros k Hk. eapply sorted_ext; [|by apply Hso]. auto.
  - split; [done|]. rewrite Hp. by apply (sw_idle _ _ _ Hw).
  - intros k y Hy Hne. rewrite Hp. eauto.
Qed.

(** ** Taking a task out of the ready list *)

Lemma same_tasks_upd st a v : same_tasks (tcbs st) (tcbs (on_tcb a (with_state v) st)).
Proof. apply same_tasks_state. Qed.

Lemma remove_first_last x l i : NoDup l → last l = Some i → x ≠ i →
  last (remove_first x l) = Some i.
Proof.
  intros Hn Hl Hx. destruct (decide (x ∈ l)) as [Hin|Hin].
  - apply elem_split_first in Hin as (l1 & l2 & -> & Hx1). rewrite remove_first_split by done.
    rewrite last_app in *. destruct l2 as [|b l2].
    + simpl in Hl. congruence.
    + by rewrite last_cons_cons in Hl.
  - replace (remove_first x l) with l; [done|]. clear Hn Hl.
    induction l as [|a l IH]; simpl; [done|]. apply not_elem_of_cons in Hin as [? ?].
    rewrite decide_False by done. f_equal. auto.
Qed.

Lemma remove_first_head x l1 l2 : NoDup (l1 ++ x :: l2) →
  head (l1 ++ x :: l2) = Some x ↔ l1 = [].
Proof.
  intros Hn. destruct l1 as [|a l1]; simpl; [done|]. split; [|done].
  intros [= ->]. apply NoDup_cons in Hn as [Hn _]. exfalso. apply Hn. in_list.
Qed.

Lemma sorted_remove_first x pr l : StronglySorted (pdesc pr) l → x ∈ l →
  StronglySorted (pdesc pr) (remove_first x l).
Proof.
  intros Hs Hx. apply elem_split_first in Hx as (l1 & l2 & -> & Hx1).
  rewrite remove_first_split by done. by eapply sorted_remove.
Qed.

(** The links of the running task tell whether it heads the ready list. *)
Lemma ready_links st L idle l1 x l2 : sched_wf st L idle → L g_readytorun = l1 ++ x :: l2 →
  t_flink (get st x) = default 0 (head l2) ∧ t_blink (get st x) = default 0 (last l1).
Proof.
  intros Hw E. destruct (lo_repr _ _ (sw_lists _ _ _ Hw) g_readytorun) as (Hd & _).
  rewrite E in Hd. split; [by apply (dll_next _ _ _ _ _ Hd)|by apply (dll_prev _ _ _ _ _ Hd)].
Qed.

Lemma removeready_ok st L idle x :
  sched_wf st L idle → x ∈ L g_readytorun → x ≠ idle →
  let L' := <[g_readytorun := remove_first x (L g_readytorun)]> L in
  ∃ st', sched_removereadytorun x st = Some (bool_decide (head (L g_readytorun) = Some x), st') ∧
    sched_wf st' L' idle ∧ detached st' L' x idle ∧
    same_tasks (tcbs st) (tcbs st') ∧ g_running st' = g_running st.
Proof.
  intros Hw Hx Hne L'. pose proof (sw_lists _ _ _ Hw) as Ho.
  destruct (lo_repr _ _ Ho g_readytorun) as (_ & Hnd & H0 & _).
  destruct (sw_idle _ _ _ Hw) as [Hla _].
  pose proof Hx as (l1 & l2 & El & Hx1)%elem_split_first.
  destruct (ready_links _ _ _ _ _ _ Hw El) as [Efl Ebl].
  destruct (wf_nonzero _ _ _ _ _ Hw Hx) as [Hx0 Hxd].
  assert (Erf : remove_first x (L g_readytorun) = l1 ++ l2) by (rewrite El; by apply remove_first_split).
  assert (H12 : l1 ++ l2 ≠ []).
  { intros E. rewrite El in Hla. apply app_eq_nil in E as [-> ->]. simpl in Hla. congruence. }
(* the state after the promotion of the next task *)
  set (st1 := if decide (l1 = []) then on_tcb (default 0 (head l2)) (with_state TSTATE_TASK_RUNNING) st else st).
  assert (E1 : sched_removereadytorun x st =
    Some (bool_decide (head (L g_readytorun) = Some x),
          on_tcb x (with_state TSTATE_TASK_INVALID) (on_list g_readytorun (dq_rem x) st1))).
  { unfold sched_removereadytorun, st1. rewrite El. rewrite Ebl, Efl.
    destruct (decide (l1 = [])) as [->|Hl1]; cbn [last].
    - simpl. destruct l2 as [|b l2]; [done|].
      change (default 0 (head (b :: l2))) with b.
      rewrite (proj2 (Z.eqb_neq b 0)) by (intros ->; apply H0; rewrite El; in_list).
      cbn [mbind option_bind]. by rewrite bool_decide_eq_true_2.
    - destruct (last l1) as [z|] eqn:Ez; [|by apply last_None in Ez].
      change (default 0 (Some z)) with z. apply last_Some_elem_of in Ez.
      rewrite (proj2 (Z.eqb_neq z 0)) by (intros ->; apply H0; rewrite El; in_list).
      cbn [mbind option_bind]. rewrite bool_decide_eq_false_2; [done|].
      rewrite El in Hnd. by rewrite remove_first_head. }
  assert (Ho1 : lists_ok st1 L) by (unfold st1; destruct (decide (l1 = [])); [by apply lists_on_tcb|done]).
  assert (Ht1 : same_tasks (tcbs st) (tcbs st1)) by (unfold st1; destruct (decide (l1 = [])); [apply same_tasks_upd|done]).
  destruct (rem_ok st1 L g_readytorun x Ho1 Hx) as (Ho2 & Hfr & Hd2 & Hg2 & Hr2).
  set (st2 := on_list g_readytorun (dq_rem x) st1) in *.
  set (st3 := on_tcb x (with_state TSTATE_TASK_INVALID) st2).
  assert (Ht3 : same_tasks (tcbs st) (tcbs st3)).
  { etransitivity; [exact Ht1|]. etransitivity; [apply same_data_tasks, Hd2|]. apply same_tasks_upd. }
  assert (Hst : ∀ y, tstate_of (tcbs st3) y = if decide (y = x) then TSTATE_TASK_INVALID
    else if decide (head (L g_readytorun) = Some x ∧ head l2 = Some y) then TSTATE_TASK_RUNNING
    else tstate_of (tcbs st) y).
  { intros y. unfold st3. cbn [on_tcb with_tcbs tcbs]. rewrite tstate_upd.
    destruct (decide (y = x)); [done|]. rewrite (same_data_state _ _ _ Hd2). unfold st1.
    rewrite El. rewrite El in Hnd. pose proof (remove_first_head x l1 l2 Hnd) as Hh.
    destruct (decide (l1 = [])) as [E|E].
    - cbn [on_tcb with_tcbs tcbs]. rewrite tstate_upd. apply Hh in E.
      destruct l2 as [|b l2]; [by rewrite app_nil_r in H12; apply Hh in E|].
      change (default 0 (head (b :: l2))) with b. cbn [head].
      destruct (decide (y = b)) as [->|]; [by rewrite decide_True|].
      rewrite decide_False; [done|]. intros [_ [=]]. congruence.
    - rewrite (decide_False (P := _ ∧ _)); [done|]. intros [?%Hh _]. done. }
  pose proof Hnd as Hnd'. rewrite El in Hnd'. pose proof (remove_first_head x l1 l2 Hnd') as Hh.
  assert (HL' : ∀ k y, y ∈ L' k ↔ y ∈ L k ∧ y ≠ x).
  { intros k y. unfold L'. destruct (decide (g_readytorun = k)) as [<-|Hk].
    - rewrite fn_insert_eq. by apply elem_of_remove_first.
    - rewrite fn_insert_ne by done. split; [|tauto]. intros Hy. split; [done|]. intros ->.
      apply Hk. by eapply (lo_disj _ _ Ho). }
  assert (Hlist : ∀ y, y ≠ x → list_of (tstate_of (tcbs st3) y) = list_of (tstate_of (tcbs st) y)).
  { intros y Hy. rewrite Hst, decide_False by done. destruct (decide (_ ∧ _)) as [[_ Hy2]|]; [|done].
    assert (y ∈ L g_readytorun) as Hin.
    { rewrite El. apply head_Some_elem_of in Hy2. in_list. }
    rewrite (sw_run _ _ _ Hw _ Hin). by destruct (decide (head (L g_readytorun) = Some y)). }
  exists st3. split_and!; [exact E1| | |done|].
  - eapply (wf_change st); [done| |intros y; by apply same_tasks_prio|..].
    + apply lists_on_tcb; [done|exact Ho2].
    + intros y. rewrite (same_tasks_locks (tcbs st)) by done. apply (sw_locks _ _ _ Hw).
    + intros k y [Hy Hyx]%HL'. rewrite Hlist by done. by apply (sw_state _ _ _ Hw).
    + intros y k Hy. destruct (decide (y = x)) as [->|Hyx].
      * by rewrite Hst, decide_True in Hy.
      * rewrite Hlist in Hy by done. apply HL'. split; [by apply (sw_member _ _ _ Hw)|done].
    + unfold L'. rewrite fn_insert_eq, Erf. intros y Hy.
      assert (y ∈ L g_readytorun ∧ y ≠ x) as [Hyr Hyx].
      { rewrite <-Erf in Hy. by apply elem_of_remove_first in Hy. }
      rewrite Hst, decide_False by done. rewrite (sw_run _ _ _ Hw _ Hyr). rewrite El.
      destruct l1 as [|a l1]; cbn [app head].
      * destruct (decide (head l2 = Some y)) as [E|E].
        -- by rewrite decide_True.
        -- rewrite !decide_False; [done|congruence|by intros [_ ?]].
      * rewrite (decide_False (P := _ ∧ _)); [done|].
        intros [[= ->] _]. apply Hx1. constructor.
    + intros k Hk. pose proof (sw_sorted _ _ _ Hw k Hk) as Hso. unfold prio_sorted, L' in *.
      destruct (decide (g_readytorun = k)) as [<-|]; [rewrite fn_insert_eq|by rewrite fn_insert_ne].
      by apply sorted_remove_first.
    + unfold L'. rewrite fn_insert_eq. by apply remove_first_last.
    + intros k y [Hy _]%HL' Hyi. by eapply (sw_prio _ _ _ Hw).
  - split_and!; [exact Hfr|done| |done]. cbn. apply grows_upd, Hg2. unfold st1.
    destruct (decide (l1 = [])); [by apply grows_upd|done].
  - cbn. rewrite Hr2. unfold st1. by destruct (decide (l1 = [])).
Qed.

(** ** Putting a detached task into a list *)

Lemma elem_of_insert_list L k l y k' :
  y ∈ <[k := l]> L k' ↔ if decide (k = k') then y ∈ l else y ∈ L k'.
Proof.
  destruct (decide (k = k')) as [<-|]; [by rewrite fn_insert_eq|by rewrite fn_insert_ne].
Qed.

Lemma attach_wf st st1 L idle x k s l :
  sched_wf st L idle → detached st L x idle → 1 ≤ prio (tcbs st) x ≤ 255 →
  lists_ok st1 (<[k := l]> L) → same_data (tcbs st) (tcbs st1) →
  (∀ y, y ∈ l ↔ y = x ∨ y ∈ L k) → list_of s = Some k → k ≠ g_readytorun →
  (is_prio k = true → StronglySorted (pdesc (prio (tcbs st))) l) →
  sched_wf (on_tcb x (with_state s) st1) (<[k := l]> L) idle.
Proof.
  intros Hw (Hfr & Hx0 & Hxd & Hxi) Hpx Ho1 Hd Hl Hs Hk Hso.
  assert (Hst : ∀ y, tstate_of (tcbs (on_tcb x (with_state s) st1)) y =
    if decide (y = x) then s else tstate_of (tcbs st) y).
  { intros y. cbn [on_tcb with_tcbs tcbs]. rewrite tstate_upd.
    destruct (decide (y = x)); [done|]. by apply same_data_state. }
  assert (Ht : same_tasks (tcbs st) (tcbs (on_tcb x (with_state s) st1))).
  { etransitivity; [by apply same_data_tasks|]. apply same_tasks_upd. }
  assert (HrL : <[k := l]> L g_readytorun = L g_readytorun) by by apply fn_insert_ne.
  eapply (wf_change st); [done| |intros y; by apply same_tasks_prio|..].
  - by apply lists_on_tcb.
  - intros y. rewrite (same_tasks_locks (tcbs st)) by done. apply (sw_locks _ _ _ Hw).
  - intros k' y. rewrite elem_of_insert_list, Hst. destruct (decide (k = k')) as [<-|Hkk].
    + intros [->|Hy]%Hl; [by rewrite decide_True|].
      rewrite decide_False by (intros ->; by apply (Hfr k)). by apply (sw_state _ _ _ Hw).
    + intros Hy. rewrite decide_False by (intros ->; by apply (Hfr k')).
      by apply (sw_state _ _ _ Hw).
  - intros y k'. rewrite elem_of_insert_list, Hst. destruct (decide (y = x)) as [->|Hyx].
    + rewrite Hs. intros [= <-]. rewrite decide_True by done. apply Hl. by left.
    + intros Hy%(sw_member _ _ _ Hw). destruct (decide (k = k')) as [<-|]; [|done].
      apply Hl. by right.
  - rewrite HrL. intros y Hy. rewrite Hst, decide_False by (intros ->; by apply (Hfr g_readytorun)).
    by apply (sw_run _ _ _ Hw).
  - intros k' Hk'. unfold prio_sorted. destruct (decide (k = k')) as [<-|].
    + rewrite fn_insert_eq. auto.
    + rewrite fn_insert_ne by done. by apply (sw_sorted _ _ _ Hw).
  - rewrite HrL. apply (sw_idle _ _ _ Hw).
  - intros k' y. rewrite elem_of_insert_list. destruct (decide (k = k')) as [<-|].
    + intros [->|Hy]%Hl Hyi; [done|]. by eapply (sw_prio _ _ _ Hw).
    + intros Hy Hyi. by eapply (sw_prio _ _ _ Hw).
Qed.

(** sched_addblocked *)
Lemma addblocked_ok st L idle x s k :
  sched_wf st L idle → detached st L x idle → 1 ≤ prio (tcbs st) x ≤ 255 →
  blocked_state s = true → list_of s = Some k →
  let l := if prioritized s then pinsert (prio (tcbs st)) x (L k) else L k ++ [x] in
  ∃ st', sched_addblocked x s st = Some st' ∧ sched_wf st' (<[k := l]> L) idle ∧
    same_tasks (tcbs st) (tcbs st') ∧ g_running st' = g_running st.
Proof.
  intros Hw Hdet Hpx Hb Hs l. pose proof Hdet as (Hfr & Hx0 & Hxd & Hxi).
  unfold sched_addblocked. rewrite Hb, Hs. cbn [negb mbind option_bind].
  assert (Hkr : k ≠ g_readytorun) by (intros ->; destruct s; done).
  destruct (prioritized s) eqn:Ep.
  - destruct (addprioritized_ok st L x k (sw_lists _ _ _ Hw) Hfr Hx0 Hxd) as (st1 & -> & Ho1 & Hd1 & _ & Hr1); [lia|].
    cbn [mbind option_bind]. eexists. split; [reflexivity|]. split_and!.
    + eapply attach_wf; try done.
      * intros y. apply elem_of_pinsert.
      * intros Hk. apply pinsert_sorted. by apply (sw_sorted _ _ _ Hw).
    + etransitivity; [by apply same_data_tasks|]. apply same_tasks_upd.
    + done.
  - destruct (addlast_ok st L k x (sw_lists _ _ _ Hw) Hfr Hx0 Hxd) as (Ho1 & Hd1 & _ & Hr1).
    eexists. split; [reflexivity|]. split_and!.
    + eapply attach_wf; try done.
      * intros y. unfold l. rewrite elem_of_app, list_elem_of_singleton. tauto.
      * intros Hk. destruct s; simplify_eq/=.
    + etransitivity; [by apply same_data_tasks|]. apply same_tasks_upd.
    + done.
Qed.

(** sched_addreadytorun: behind the tasks of the same priority, or among the
    pending tasks when it would pre-empt a task that holds the lock. *)
Definition held_back st x : bool :=
  negb (locks (tcbs st) (this_task st) =? 0) &&
  (prio (tcbs st) (this_task st) <? prio (tcbs st) x).

Definition add_ready st L x : tasklist → list Z :=
  if held_back st x
  then <[g_pendingtasks := pinsert (prio (tcbs st)) x (L g_pendingtasks)]> L
  else <[g_readytorun := pinsert (prio (tcbs st)) x (L g_readytorun)]> L.

(** The ready list after an insertion, given the states of its tasks. *)
Lemma add_ready_wf st st' L idle x l :
  sched_wf st L idle → detached st L x idle → 1 ≤ prio (tcbs st) x ≤ 255 →
  l = pinsert (prio (tcbs st)) x (L g_readytorun) →
  lists_ok st' (<[g_readytorun := l]> L) → same_tasks (tcbs st) (tcbs st') →
  run_states (tcbs st') l → (∀ y, y ∉ l → tstate_of (tcbs st') y = tstate_of (tcbs st) y) →
  sched_wf st' (<[g_readytorun := l]> L) idle.
Proof.
  intros Hw (Hfr & Hx0 & Hxd & Hxi) Hpx El Ho Ht Hrs Hst.
  destruct (sw_idle _ _ _ Hw) as [Hla Hpi].
  assert (Hl : ∀ y, y ∈ l ↔ y = x ∨ y ∈ L g_readytorun) by (intros y; rewrite El; apply elem_of_pinsert).
  assert (Hin : ∀ y, y ∈ l → list_of (tstate_of (tcbs st') y) = Some g_readytorun).
  { intros y Hy. rewrite (Hrs y Hy). by destruct (decide (head l = Some y)). }
  assert (Hno : ∀ y k, y ∈ L k → k ≠ g_readytorun → y ∉ l).
  { intros y k Hy Hk [->|Hyr]%Hl; [by apply (Hfr k)|]. apply Hk.
    by eapply (lo_disj _ _ (sw_lists _ _ _ Hw)). }
  eapply (wf_change st); [done|done|intros y; by apply same_tasks_prio|..].
  - intros y. rewrite (same_tasks_locks (tcbs st)) by done. apply (sw_locks _ _ _ Hw).
  - intros k y. rewrite elem_of_insert_list. destruct (decide (g_readytorun = k)) as [<-|Hk]; [auto|].
    intros Hy. rewrite Hst by (apply (Hno y k); [done|congruence]). by apply (sw_state _ _ _ Hw).
  - intros y k Hy. rewrite elem_of_insert_list. destruct (decide (y ∈ l)) as [Hyl|Hyl].
    + rewrite (Hin _ Hyl) in Hy. injection Hy as <-. by rewrite decide_True.
    + rewrite (Hst _ Hyl) in Hy. apply (sw_member _ _ _ Hw) in Hy.
      destruct (decide (g_readytorun = k)) as [<-|]; [|done]. apply Hl. by right.
  - by rewrite fn_insert_eq.
  - intros k Hk. unfold prio_sorted. destruct (decide (g_readytorun = k)) as [<-|].
    + rewrite fn_insert_eq, El. apply pinsert_sorted. by apply (sw_sorted _ _ _ Hw).
    + rewrite fn_insert_ne by done. by apply (sw_sorted _ _ _ Hw).
  - rewrite fn_insert_eq, El. apply pinsert_last; [done|]. lia.
  - intros k y. rewrite elem_of_insert_list. destruct (decide (g_readytorun = k)) as [<-|].
    + intros [->|Hy]%Hl Hyi; [done|]. by eapply (sw_prio _ _ _ Hw).
    + intros Hy Hyi. by eapply (sw_prio _ _ _ Hw).
Qed.

Lemma addready_ok st L idle x :
  sched_wf st L idle → detached st L x idle → 1 ≤ prio (tcbs st) x ≤ 255 →
  ∃ st', sched_addreadytorun x st =
      Some (negb (held_back st x) && (prio (tcbs st) (this_task st) <? prio (tcbs st) x), st') ∧
    sched_wf st' (add_ready st L x) idle ∧
    same_tasks (tcbs st) (tcbs st') ∧ g_running st' = g_running st.
Proof.
  intros Hw Hdet Hpx. pose proof Hdet as (Hfr & Hx0 & Hxd & Hxi).
  destruct (wf_ready_split _ _ _ Hw) as (r & R & ER & Er & Hr0).
  unfold sched_addreadytorun, add_ready, held_back.
  change (lockcount (get st (this_task st))) with (locks (tcbs st) (this_task st)).
  change (sched_priority (get st (this_task st))) with (prio (tcbs st) (this_task st)).
  change (sched_priority (get st x)) with (prio (tcbs st) x).
  destruct (negb (locks (tcbs st) (this_task st) =? 0) && (prio (tcbs st) (this_task st) <? prio (tcbs st) x)) eqn:Eh.
  - destruct (addprioritized_ok st L x g_pendingtasks (sw_lists _ _ _ Hw) Hfr Hx0 Hxd)
      as (st1 & -> & Ho1 & Hd1 & _ & Hr1); [lia|].
    cbn [mbind option_bind]. eexists. split; [reflexivity|]. split_and!.
    + eapply attach_wf; try done.
      * intros y. apply elem_of_pinsert.
      * intros Hk. apply pinsert_sorted. by apply (sw_sorted _ _ _ Hw).
    + etransitivity; [by apply same_data_tasks|]. apply same_tasks_upd.
    + done.
  - destruct (addprioritized_ok st L x g_readytorun (sw_lists _ _ _ Hw) Hfr Hx0 Hxd)
      as (st1 & -> & Ho1 & Hd1 & _ & Hr1); [lia|].
    cbn [mbind option_bind].
    assert (Ehd : bool_decide (head (pinsert (prio (tcbs st)) x (L g_readytorun)) = Some x) =
      (prio (tcbs st) r <? prio (tcbs st) x)).
    { rewrite pinsert_head, ER. cbn [head]. destruct (Z.leb_spec (prio (tcbs st) x) (prio (tcbs st) r)).
      - rewrite (proj2 (Z.ltb_ge _ _)) by lia. apply bool_decide_eq_false. intros [= ->].
        apply (Hfr g_readytorun). rewrite ER. constructor.
      - rewrite (proj2 (Z.ltb_lt _ _)) by lia. by apply bool_decide_eq_true. }
    set (l := pinsert (prio (tcbs st)) x (L g_readytorun)) in *.
    rewrite Ehd, Er in *. cbn [negb andb].
    destruct (Z.ltb_spec (prio (tcbs st) r) (prio (tcbs st) x)) as [Hlt|Hge].
    + assert (El : l = x :: r :: R).
      { unfold l. rewrite ER. simpl. by rewrite (proj2 (Z.leb_gt _ _)) by lia. }
      assert (Efl : t_flink (get st1 x) = r).
      { destruct (lo_repr _ _ Ho1 g_readytorun) as (Hdl & _). rewrite fn_insert_eq, El in Hdl.
        apply (dll_next _ _ [] x (r :: R) Hdl). }
      assert (Elk : lockcount (get st1 r) = 0).
      { change (locks (tcbs st1) r = 0). rewrite (same_tasks_locks (tcbs st)) by by apply same_data_tasks.
        rewrite andb_true_r in Eh. by zb. }
      rewrite Elk, Efl, (proj2 (Z.eqb_neq r 0)) by done. cbn [negb andb Z.eqb].
      assert (Efl2 : t_flink (get (on_tcb x (with_state TSTATE_TASK_RUNNING) st1) x) = r).
      { unfold get. cbn [on_tcb with_tcbs tcbs]. by rewrite tcb_at_upd, decide_True. }
      rewrite Efl2. eexists. split; [reflexivity|]. split_and!.
      * eapply (add_ready_wf st); [done|done|done|reflexivity|..]; fold l.
        -- apply lists_on_tcb; [done|]. by apply lists_on_tcb.
        -- etransitivity; [by apply same_data_tasks|]. etransitivity; apply same_tasks_upd.
        -- intros y Hy. cbn [on_tcb with_tcbs tcbs]. rewrite !tstate_upd, El. cbn [head].
           assert (x ≠ r) by (intros ->; apply (Hfr g_readytorun); rewrite ER; constructor).
           destruct (decide (y = r)) as [->|Hyr]; [by rewrite decide_False by congruence|].
           destruct (decide (y = x)) as [->|Hyx]; [by rewrite decide_True|].
           rewrite decide_False by congruence. rewrite (same_data_state (tcbs st)) by done.
           rewrite El in Hy. assert (y ∈ L g_readytorun) as Hyr' by (rewrite ER; in_list).
           rewrite (sw_run _ _ _ Hw _ Hyr'), ER. cbn [head]. by rewrite decide_False by congruence.
        -- intros y Hy. cbn [on_tcb with_tcbs tcbs]. rewrite !tstate_upd. rewrite El, !not_elem_of_cons in Hy.
           rewrite !decide_False by tauto. by apply same_data_state.
      * etransitivity; [by apply same_data_tasks|]. etransitivity; apply same_tasks_upd.
      * done.
    + assert (Ehl : head l = Some r).
      { unfold l. rewrite pinsert_head, ER. cbn [head]. by rewrite (proj2 (Z.leb_le _ _)) by lia. }
      eexists. split; [reflexivity|]. split_and!.
      * eapply (add_ready_wf st); [done|done|done|reflexivity|..]; fold l.
        -- by apply lists_on_tcb.
        -- etransitivity; [by apply same_data_tasks|]. apply same_tasks_upd.
        -- intros y Hy. cbn [on_tcb with_tcbs tcbs]. rewrite tstate_upd, Ehl.
           apply elem_of_pinsert in Hy as Hy'.
           destruct (decide (y = x)) as [->|Hyx].
           ++ rewrite decide_False; [done|]. intros [= ->]. apply (Hfr g_readytorun). rewrite ER. constructor.
           ++ destruct Hy' as [?|Hy']; [done|]. rewrite (same_data_state (tcbs st)) by done.
              by rewrite (sw_run _ _ _ Hw _ Hy'), ER.
        -- intros y Hy. cbn [on_tcb with_tcbs tcbs]. rewrite tstate_upd. rewrite decide_False.
           ++ by apply same_data_state.
           ++ intros ->. apply Hy. unfold l. apply elem_of_pinsert. by left.
      * etransitivity; [by apply same_data_tasks|]. apply same_tasks_upd.
      * done.
Qed.

(** sched_removeblocked *)
Lemma removeblocked_ok st L idle x k :
  sched_wf st L idle → x ∈ L k → blocked_state (tstate_of (tcbs st) x) = true →
  let L' := <[k := remove_first x (L k)]> L in
  ∃ st', sched_removeblocked x st = Some st' ∧
    sched_wf st' L' idle ∧ detached st' L' x idle ∧
    same_tasks (tcbs st) (tcbs st') ∧ g_running st' = g_running st.
Proof.
  intros Hw Hx Hb L'. pose proof (sw_lists _ _ _ Hw) as Ho. unfold sched_removeblocked.
  change (task_state (get st x)) with (tstate_of (tcbs st) x).
  rewrite Hb, (sw_state _ _ _ Hw _ _ Hx). cbn [negb mbind option_bind].
  destruct (wf_nonzero _ _ _ _ _ Hw Hx) as [Hx0 Hxd].
  assert (Hk : k ≠ g_readytorun).
  { intros ->. rewrite (sw_run _ _ _ Hw _ Hx) in Hb. by destruct (decide _). }
  destruct (rem_ok st L k x Ho Hx) as (Ho2 & Hfr & Hd2 & Hg2 & Hr2). fold L' in Ho2, Hfr.
  set (st2 := on_list k (dq_rem x) st) in *.
  set (st3 := on_tcb x (with_state TSTATE_TASK_INVALID) st2).
  assert (Ht3 : same_tasks (tcbs st) (tcbs st3)).
  { etransitivity; [apply same_data_tasks, Hd2|]. apply same_tasks_upd. }
  assert (Hst : ∀ y, tstate_of (tcbs st3) y =
    if decide (y = x) then TSTATE_TASK_INVALID else tstate_of (tcbs st) y).
  { intros y. unfold st3. cbn [on_tcb with_tcbs tcbs]. rewrite tstate_upd.
    destruct (decide (y = x)); [done|]. by apply same_data_state. }
  assert (HL' : ∀ k' y, y ∈ L' k' ↔ y ∈ L k' ∧ y ≠ x).
  { intros k' y. unfold L'. rewrite elem_of_insert_list. destruct (decide (k = k')) as [<-|Hkk].
    - apply elem_of_remove_first. apply (lo_repr _ _ Ho k).
    - split; [|tauto]. intros Hy. split; [done|]. intros ->.
      apply Hkk. by eapply (lo_disj _ _ Ho). }
  assert (HrL : L' g_readytorun = L g_readytorun) by by apply fn_insert_ne.
  exists st3. split_and!; [done| | |done|done].
  - eapply (wf_change st); [done| |intros y; by apply same_tasks_prio|..].
    + by apply lists_on_tcb.
    + intros y. rewrite (same_tasks_locks (tcbs st)) by done. apply (sw_locks _ _ _ Hw).
    + intros k' y [Hy Hyx]%HL'. rewrite Hst, decide_False by done. by apply (sw_state _ _ _ Hw).
    + intros y k'. rewrite Hst. destruct (decide (y = x)) as [->|Hyx]; [done|].
      intros Hy%(sw_member _ _ _ Hw). by apply HL'.
    + rewrite HrL. intros y Hy. rewrite <-HrL in Hy. apply HL' in Hy as [Hy Hyx].
      rewrite Hst, decide_False by done. by apply (sw_run _ _ _ Hw).
    + intros k' Hk'. pose proof (sw_sorted _ _ _ Hw k' Hk') as Hso. unfold prio_sorted, L' in *.
      destruct (decide (k = k')) as [<-|]; [rewrite fn_insert_eq|by rewrite fn_insert_ne].
      by apply sorted_remove_first.
    + rewrite HrL. apply (sw_idle _ _ _ Hw).
    + intros k' y [Hy _]%HL' Hyi. by eapply (sw_prio _ _ _ Hw).
  - split_and!; [exact Hfr|done| |].
    + cbn. by apply grows_upd, Hg2.
    + intros ->. apply Hk. eapply (lo_disj _ _ Ho); [done|]. by apply (wf_idle_ready _ _ _ Hw).
Qed.

(** Fields other than the links, the state and the priority. *)
Lemma detached_tcb st L idle x a f :
  (∀ t, t_flink (f t) = t_flink t ∧ t_blink (f t) = t_blink t) →
  detached st L x idle → detached (on_tcb a f st) L x idle.
Proof. intros Hf (? & ? & ? & ?). split_and!; try done. cbn. by apply grows_upd. Qed.

(** An update of a task that keeps its links, its state and its locks, and its
    priority unless the task is detached. *)
Lemma wf_on_tcb st L idle a f :
  (∀ t, t_flink (f t) = t_flink t ∧ t_blink (f t) = t_blink t ∧ task_state (f t) = task_state t) →
  (∀ t, 0 ≤ lockcount t → 0 ≤ lockcount (f t)) →
  fresh L a ∨ (∀ t, sched_priority (f t) = sched_priority t) →
  sched_wf st L idle → sched_wf (on_tcb a f st) L idle.
Proof.
  intros Hf Hl Hp Hw.
  assert (Hst : ∀ y, tstate_of (tcbs (on_tcb a f st)) y = tstate_of (tcbs st) y).
  { intros y. unfold tstate_of. cbn [on_tcb with_tcbs tcbs]. rewrite tcb_at_upd.
    destruct (decide (y = a)) as [->|]; [|done]. apply Hf. }
  assert (Hpr : ∀ k y, y ∈ L k → prio (tcbs (on_tcb a f st)) y = prio (tcbs st) y).
  { intros k y Hy. unfold prio. cbn [on_tcb with_tcbs tcbs]. rewrite tcb_at_upd.
    destruct (decide (y = a)) as [->|]; [|done]. destruct Hp as [Hp|Hp]; [by apply Hp in Hy|apply Hp]. }
  pose proof (wf_idle_ready _ _ _ Hw) as Hi.
  split.
  - apply lists_on_tcb; [|apply Hw]. intros t. split; apply Hf.
  - intros k y Hy. rewrite Hst. by apply (sw_state _ _ _ Hw).
  - intros y k. rewrite Hst. apply (sw_member _ _ _ Hw).
  - intros y Hy. rewrite Hst. by apply (sw_run _ _ _ Hw).
  - intros k Hk. eapply sorted_ext; [|by apply (sw_sorted _ _ _ Hw)]. intros y Hy. by eapply Hpr.
  - rewrite (Hpr _ _ Hi). apply (sw_idle _ _ _ Hw).
  - intros k y Hy. rewrite (Hpr _ _ Hy). by eapply (sw_prio _ _ _ Hw).
  - intros y. unfold locks. cbn [on_tcb with_tcbs tcbs]. rewrite tcb_at_upd.
    destruct (decide (y = a)) as [->|]; [apply Hl|]; apply (sw_locks _ _ _ Hw).
Qed.

(** sched_mergepending *)
Definition merged st L : list Z := pmerge (prio (tcbs st)) (L g_pendingtasks) (L g_readytorun).

Lemma lists_length2 st L k1 k2 : lists_ok st L → k1 ≠ k2 →
  (length (L k1) + length (L k2) ≤ sched_fuel st)%nat.
Proof.
  intros Ho Hne. rewrite <-length_app. unfold sched_fuel.
  assert (NoDup (L k1 ++ L k2)).
  { apply NoDup_app. split_and!; [apply (lo_repr _ _ Ho k1)| |apply (lo_repr _ _ Ho k2)].
    intros x H1 H2. apply Hne. by eapply (lo_disj _ _ Ho). }
  rewrite <-(size_list_to_set (C:=gset Z) (L k1 ++ L k2)) by done.
  transitivity (size (dom (tcbs st : gmap Z tcb))).
  - apply subseteq_size. intros x [Hx|Hx]%elem_of_list_to_set%elem_of_app; by eapply (lo_dom _ _ Ho).
  - apply Nat.eq_le_incl, (size_dom (M:=gmap Z)).
Qed.

Lemma mergepending_ok st L idle : sched_wf st L idle →
  let L' := <[g_pendingtasks := []]> (<[g_readytorun := merged st L]> L) in
  ∃ st', sched_mergepending st =
      Some (bool_decide (head (merged st L) ≠ head (L g_readytorun)), st') ∧
    sched_wf st' L' idle ∧ same_tasks (tcbs st) (tcbs st') ∧ g_running st' = g_running st.
Proof.
  intros Hw L'. pose proof (sw_lists _ _ _ Hw) as Ho.
  destruct (wf_ready_split _ _ _ Hw) as (r & R & ER & Er & Hr0).
  destruct (lo_repr _ _ Ho g_pendingtasks) as ([Hcp _] & Hnp & H0p & Hhp & _).
  destruct (sw_idle _ _ _ Hw) as [Hla Hpi]. rewrite ER in Hla.
  set (L0 := <[g_pendingtasks := []]> L).
  assert (Ho0 : lists_ok (with_queue st g_pendingtasks dq0) L0).
  { apply (lists_replace st L g_pendingtasks dq0 (tcbs st) [] []); try done.
    - split_and!; try done; [constructor|apply not_elem_of_nil].
    - intros y k' _ _. apply not_elem_of_nil.
    - intros y ?%not_elem_of_nil. done.
    - intros y k' ?%not_elem_of_nil. done. }
  assert (Hpnd : ∀ p, p ∈ L g_pendingtasks → p ≠ idle).
  { intros p Hp ->. pose proof (lo_disj _ _ Ho _ _ _ Hp (wf_idle_ready _ _ _ Hw)). done. }
  destruct (mergepending_loop_ok (sched_fuel st) (sched_fuel st) st L0 (L g_pendingtasks) [] r R false idle)
    as (st' & E & Ho' & Ht & Hg & Hr & Hrs & Hx); try done.
  - simpl. rewrite <-ER. apply (sw_run _ _ _ Hw).
  - intros p Hp. split; [|by eapply (lo_dom _ _ Ho)]. intros k. unfold L0. rewrite elem_of_insert_list.
    destruct (decide (g_pendingtasks = k)) as [<-|Hk]; [apply not_elem_of_nil|].
    intros Hp2. apply Hk. by eapply (lo_disj _ _ Ho).
  - by apply (sw_sorted _ _ _ Hw g_pendingtasks).
  - by intros p y _ ?%not_elem_of_nil.
  - intros p Hp. destruct (sw_prio _ _ _ Hw _ _ Hp); [auto|]. lia.
  - by apply lists_length.
  - pose proof (lists_length2 st L g_readytorun g_pendingtasks Ho) as Hlen. rewrite ER in Hlen.
    by apply Hlen.
  - cbn [app] in *. rewrite <-ER in *. fold (merged st L) in *.
    unfold sched_mergepending. rewrite Hhp, Er. rewrite E. cbn [mbind option_bind orb].
    eexists. split; [reflexivity|]. split_and!; [|done|done].
    assert (Hin : ∀ y, y ∈ merged st L ↔ y ∈ L g_pendingtasks ∨ y ∈ L g_readytorun) by (intros; apply elem_of_pmerge).
    assert (HinL : ∀ y, y ∈ merged st L → list_of (tstate_of (tcbs st') y) = Some g_readytorun).
    { intros y Hy. rewrite (Hrs y Hy). by destruct (decide (head (merged st L) = Some y)). }
    assert (Hout : ∀ y, y ∉ merged st L → tstate_of (tcbs st') y = tstate_of (tcbs st) y).
    { intros y Hy. apply Hx. by rewrite elem_of_app, <-Hin. }
    eapply (wf_change st); [done| |intros y; by apply same_tasks_prio|..]; cbn [with_queue tcbs].
    + eapply lists_ok_ext_L; [|exact Ho']. intros k. by destruct k.
    + intros y. rewrite (same_tasks_locks (tcbs st)) by done. apply (sw_locks _ _ _ Hw).
    + intros k y. unfold L'. rewrite elem_of_insert_list. destruct (decide (g_pendingtasks = k)) as [<-|Hkp].
      { by intros ?%not_elem_of_nil. }
      rewrite elem_of_insert_list. destruct (decide (g_readytorun = k)) as [<-|Hkr]; [auto|].
      intros Hy. rewrite Hout; [by apply (sw_state _ _ _ Hw)|].
      intros [Hy'|Hy']%Hin; [apply Hkp|apply Hkr]; by eapply (lo_disj _ _ Ho).
    + intros y k Hy. destruct (decide (y ∈ merged st L)) as [Hyl|Hyl].
      * rewrite (HinL _ Hyl) in Hy. injection Hy as <-. exact Hyl.
      * rewrite (Hout _ Hyl) in Hy. apply (sw_member _ _ _ Hw) in Hy. rewrite Hin in Hyl.
        unfold L'. rewrite elem_of_insert_list.
        destruct (decide (g_pendingtasks = k)) as [<-|Hkp]; [tauto|]. rewrite elem_of_insert_list.
        destruct (decide (g_readytorun = k)) as [<-|Hkr]; [tauto|done].
    + done.
    + intros k Hk. unfold prio_sorted. pose proof (sw_sorted _ _ _ Hw k Hk) as Hso. unfold prio_sorted in Hso.
      destruct k; try done; [|constructor]. by apply pmerge_sorted.
    + change (L' g_readytorun) with (merged st L). apply pmerge_last; [done|].
      intros p Hp. destruct (sw_prio _ _ _ Hw _ _ Hp); [auto|]. lia.
    + intros k y Hy Hyi. unfold L' in Hy. rewrite !elem_of_insert_list in Hy.
      destruct (decide (g_pendingtasks = k)) as [<-|Hkp]; [by apply not_elem_of_nil in Hy|].
      rewrite ?elem_of_insert_list in Hy. destruct (decide (g_readytorun = k)) as [<-|Hkr].
      * apply Hin in Hy as [Hy|Hy]; by eapply (sw_prio _ _ _ Hw).
      * by eapply (sw_prio _ _ _ Hw).
Qed.

(** ** The context switch *)

Lemma wf_up_switch st L idle : sched_wf st L idle → sched_wf (up_switch st) L idle.
Proof. intros [[] ]. by split. Qed.

Lemma switch_inv st L idle (b : bool) :
  sched_wf st L idle → lock_ok st L → (b = false → g_running st = this_task st) →
  sched_inv (if b then up_switch st else st) L idle.
Proof.
  intros Hw Hl Hb. destruct b; [|split_and!; [done|done|auto]].
  split_and!; [by apply wf_up_switch|done|done].
Qed.

(** The merge that block and reprioritize do when tasks are pending; without
    pending tasks merging would change nothing. *)
Lemma merge_if_pending st L idle : sched_wf st L idle →
  ∃ st' b,
    (if negb (q_head (qs st g_pendingtasks) =? 0) then sched_mergepending st else Some (false, st))
      = Some (b, st') ∧
    sched_wf st' (<[g_pendingtasks := []]> (<[g_readytorun := merged st L]> L)) idle ∧
    same_tasks (tcbs st) (tcbs st') ∧ g_running st' = g_running st ∧
    (b = false → head (merged st L) = head (L g_readytorun)).
Proof.
  intros Hw. pose proof (dq_head_zero _ _ _ (lo_repr _ _ (sw_lists _ _ _ Hw) g_pendingtasks)) as Hz.
  destruct (Z.eqb_spec (q_head (qs st g_pendingtasks)) 0) as [E|E]; cbn [negb].
  - apply Hz in E. exists st, false. split_and!; try done.
    + assert (Em : merged st L = L g_readytorun) by (unfold merged; by rewrite E).
      rewrite Em. destruct Hw as [Ho ? ? ? ? ? ?].
      assert (EL : ∀ k, <[g_pendingtasks := []]> (<[g_readytorun := L g_readytorun]> L) k = L k).
      { intros k. by destruct k. }
      split; try done.
      * by eapply lists_ok_ext_L.
      * intros k x. rewrite EL. auto.
      * intros x k. rewrite EL. auto.
      * intros k Hk. unfold prio_sorted. rewrite EL. by apply sw_sorted0.
      * intros k x. rewrite EL. eauto.
    + intros _. unfold merged. by rewrite E.
  - destruct (mergepending_ok st L idle Hw) as (st' & -> & Hw' & Ht & Hr).
    exists st', (bool_decide (head (merged st L) ≠ head (L g_readytorun))). split_and!; try done.
    intros Hb%bool_decide_eq_false. by apply dec_stable in Hb.
Qed.

Lemma head_remove_first x l : head l ≠ Some x → head (remove_first x l) = head l.
Proof. destruct l as [|a l]; simpl; [done|]. intros H. by rewrite decide_False by congruence. Qed.

Lemma this_task_head st L idle st' L' idle' : sched_wf st L idle → sched_wf st' L' idle' →
  head (L' g_readytorun) = head (L g_readytorun) → this_task st' = this_task st.
Proof. intros H1%wf_head H2%wf_head. rewrite H1, H2. by intros [= ->]. Qed.
End Wf.

(** ** The operations *)

Section Ops.
Implicit Types (st : sched) (L : tasklist → list Z) (x y idle : Z) (k : tasklist).

Lemma ready_state st L idle x : sched_wf st L idle → x ∈ L g_readytorun →
  ready_to_run_state (task_state (get st x)) = true.
Proof.
  intros Hw Hx. change (task_state (get st x)) with (tstate_of (tcbs st) x).
  rewrite (sw_run _ _ _ Hw _ Hx). by destruct (decide (head (L g_readytorun) = Some x)).
Qed.

Lemma block_abs st L idle x s k :
  sched_inv st L idle → x ∈ L g_readytorun → x ≠ idle →
  blocked_state s = true → list_of s = Some k →
  let L1 := <[g_readytorun := remove_first x (L g_readytorun)]> L in
  let L2 := <[k := if prioritized s then pinsert (prio (tcbs st)) x (L k) else L k ++ [x]]> L1 in
  let R := pmerge (prio (tcbs st)) (L g_pendingtasks) (L1 g_readytorun) in
  ∃ st', up_block_task x s st = Some st' ∧
    sched_inv st' (<[g_pendingtasks := []]> (<[g_readytorun := R]> L2)) idle ∧
    same_tasks (tcbs st) (tcbs st').
Proof.
  intros (Hw & Hl & Hr) Hx Hxi Hb Hs L1 L2 R. unfold up_block_task.
  rewrite (ready_state _ _ _ _ Hw Hx). cbn [negb].
  destruct (removeready_ok st L idle x Hw Hx Hxi) as (st1 & E1 & Hw1 & Hd1 & Ht1 & Hr1).
  rewrite E1. cbn [mbind option_bind]. fold L1 in Hw1, Hd1.
  assert (Hpr1 : ∀ y, prio (tcbs st1) y = prio (tcbs st) y) by (intros; by apply same_tasks_prio).
  assert (Hkr : k ≠ g_readytorun) by (intros ->; destruct s; done).
  assert (Hkp : k ≠ g_pendingtasks) by (intros ->; destruct s; done).
  assert (HL1k : L1 k = L k) by (unfold L1; by rewrite fn_insert_ne).
  destruct (addblocked_ok st1 L1 idle x s k Hw1 Hd1) as (st2 & E2 & Hw2 & Ht2 & Hr2); [|done|done|].
  { rewrite Hpr1. by eapply (sw_prio _ _ _ Hw). }
  rewrite E2. cbn [mbind option_bind]. rewrite HL1k, (pinsert_ext (prio (tcbs st))) in Hw2 by auto.
  fold L2 in Hw2.
  destruct (merge_if_pending st2 L2 idle Hw2) as (st3 & b & E3 & Hw3 & Ht3 & Hr3 & Hb3).
  assert (Em : merged st2 L2 = R).
  { unfold merged, R, L2. rewrite !fn_insert_ne by done. change (L1 g_pendingtasks) with (L g_pendingtasks).
    apply pmerge_ext. intros y _. rewrite (same_tasks_prio (tcbs st1)) by done. auto. }
  rewrite Em in *.
  assert (E : (if negb (q_head (qs st2 g_pendingtasks) =? 0)
    then '(merged, st0) ← sched_mergepending st2; Some (bool_decide (head (L g_readytorun) = Some x) || merged, st0)
    else Some (bool_decide (head (L g_readytorun) = Some x), st2)) =
    Some (bool_decide (head (L g_readytorun) = Some x) || b, st3)).
  { destruct (negb _); [by rewrite E3|]. injection E3 as <- <-. by rewrite orb_false_r. }
  rewrite E. cbn [mbind option_bind]. eexists. split; [reflexivity|]. split.
  - apply switch_inv; [done|by intros []|]. intros [Hb1 Hb2]%orb_false_iff. apply bool_decide_eq_false in Hb1.
    rewrite Hr3, Hr2, Hr1, Hr. symmetry. eapply (this_task_head st L _ st3); [done|done|].
    specialize (Hb3 Hb2). change ((<[_:=[]]> (<[g_readytorun:=R]> L2)) g_readytorun) with R.
    rewrite Hb3. unfold L2. rewrite fn_insert_ne by done. unfold L1. rewrite fn_insert_eq.
    by apply head_remove_first.
  - etransitivity; [exact Ht1|]. etransitivity; [exact Ht2|].
    by destruct (bool_decide (head (L g_readytorun) = Some x) || b).
Qed.

(** A task joins the ready list, or waits among the pending tasks. *)
Lemma addready_inv st L idle x :
  sched_wf st L idle → lock_ok st L → detached st L x idle → 1 ≤ prio (tcbs st) x ≤ 255 →
  g_running st = this_task st →
  ∃ b st', sched_addreadytorun x st = Some (b, st') ∧
    sched_inv (if b : bool then up_switch st' else st') (add_ready st L x) idle ∧
    same_tasks (tcbs st) (tcbs st').
Proof.
  intros Hw Hl Hd Hp Hr. destruct (addready_ok st L idle x Hw Hd Hp) as (st' & E & Hw' & Ht & Hr').
  eexists _, st'. split; [exact E|]. split; [|done].
  pose proof (wf_head _ _ _ Hw) as Hh. pose proof Hd as (Hfr & _).
  assert (Hsame : held_back st x || (prio (tcbs st) x <=? prio (tcbs st) (this_task st)) = true →
    this_task st' = this_task st).
  { intros Hc. eapply this_task_head; [exact Hw|exact Hw'|]. unfold add_ready.
    destruct (held_back st x); [by rewrite fn_insert_ne|].
    rewrite fn_insert_eq, pinsert_head, Hh. cbn [orb] in Hc. by rewrite Hc. }
  apply switch_inv; [done|..].
  - intros Hne. rewrite (same_tasks_locks (tcbs st)) by done.
    unfold add_ready in Hne. destruct (held_back st x) eqn:Eh.
    + rewrite Hsame by done. unfold held_back in Eh. apply andb_prop in Eh as [Eh _].
      pose proof (sw_locks _ _ _ Hw (this_task st)). zb. lia.
    + rewrite fn_insert_ne in Hne by done. specialize (Hl Hne).
      rewrite Hsame; [done|]. unfold held_back in Eh.
      rewrite (proj2 (Z.eqb_neq _ 0)) in Eh by lia. cbn [negb andb orb] in *. zb.
      by apply Z.leb_le.
  - intros Hb. rewrite Hr', Hr. symmetry. apply Hsame.
    destruct (held_back st x); [done|]. cbn [negb andb orb] in *. zb. by apply Z.leb_le.
Qed.

Lemma unblock_abs st L idle x k :
  sched_inv st L idle → x ∈ L k → blocked_state (tstate_of (tcbs st) x) = true →
  ∃ st', up_unblock_task x st = Some st' ∧
    sched_inv st' (add_ready st (<[k := remove_first x (L k)]> L) x) idle ∧
    same_essence (tcbs st) (tcbs st').
Proof.
  intros (Hw & Hl & Hr) Hx Hb. unfold up_unblock_task.
  change (task_state (get st x)) with (tstate_of (tcbs st) x). rewrite Hb. cbn [negb].
  destruct (removeblocked_ok st L idle x k Hw Hx Hb) as (st1 & E1 & Hw1 & Hd1 & Ht1 & Hr1).
  rewrite E1. cbn [mbind option_bind]. set (L1 := <[k := remove_first x (L k)]> L) in *.
  set (st2 := on_tcb x (with_timeslice (CONFIG_RR_INTERVAL / MSEC_PER_TICK)) st1).
  assert (Hw2 : sched_wf st2 L1 idle) by (apply wf_on_tcb; [done|done|by left; apply Hd1|done]).
  assert (He2 : same_essence (tcbs st) (tcbs st2)).
  { etransitivity; [by apply same_tasks_essence|]. apply same_essence_timeslice. }
  assert (Hkr : k ≠ g_readytorun ∧ k ≠ g_pendingtasks).
  { pose proof (sw_state _ _ _ Hw _ _ Hx) as Hs.
    split; intros ->; destruct (tstate_of (tcbs st) x); done. }
  assert (Hth : this_task st2 = this_task st).
  { eapply this_task_head; [exact Hw|exact Hw2|]. unfold L1. by rewrite fn_insert_ne by apply Hkr. }
  destruct (addready_inv st2 L1 idle x) as (b & st3 & E3 & Hi3 & Ht3); try done.
  - intros Hne. rewrite (same_essence_locks (tcbs st)), Hth by done. apply Hl.
    unfold L1 in Hne. by rewrite fn_insert_ne in Hne by apply Hkr.
  - by apply detached_tcb.
  - rewrite (same_essence_prio (tcbs st)) by done. eapply (sw_prio _ _ _ Hw); [done|].
    apply Hd1.
  - change (g_running st2) with (g_running st1). by rewrite Hr1, Hth.
  - rewrite E3. cbn [mbind option_bind]. eexists. split; [reflexivity|]. split.
    + assert (Ea : add_ready st2 L1 x = add_ready st L1 x); [|by rewrite <-Ea].
      unfold add_ready, held_back. rewrite Hth, !(same_essence_prio (tcbs st) (tcbs st2)) by done.
      rewrite (same_essence_locks (tcbs st) (tcbs st2)) by done.
      rewrite !(pinsert_ext (prio (tcbs st)) (prio (tcbs st2))) by (intros; by apply same_essence_prio).
      done.
    + etransitivity; [exact He2|]. apply same_tasks_essence. by destruct b.
Qed.

(** ** Pre-emption locks *)

Lemma release_abs st L idle : sched_wf st L idle → g_running st = this_task st →
  ∃ st', up_release_pending st = Some st' ∧
    sched_inv st' (<[g_pendingtasks := []]> (<[g_readytorun := merged st L]> L)) idle ∧
    same_tasks (tcbs st) (tcbs st').
Proof.
  intros Hw Hr. unfold up_release_pending.
  destruct (mergepending_ok st L idle Hw) as (st1 & -> & Hw1 & Ht1 & Hr1). cbn [mbind option_bind].
  eexists. split; [reflexivity|]. split; [|by destruct (bool_decide _)].
  apply switch_inv; [done|by intros []|]. intros Hb%bool_decide_eq_false%dec_stable.
  rewrite Hr1, Hr. symmetry. by eapply this_task_head.
Qed.

Lemma lock_inv_on_tcb st L idle f :
  sched_inv st L idle →
  (∀ t, t_flink (f t) = t_flink t ∧ t_blink (f t) = t_blink t ∧ task_state (f t) = task_state t) →
  (∀ t, 0 ≤ lockcount t → 0 ≤ lockcount (f t)) →
  (∀ t, sched_priority (f t) = sched_priority t) →
  sched_wf (on_tcb (this_task st) f st) L idle ∧
  this_task (on_tcb (this_task st) f st) = this_task st ∧
  locks (tcbs (on_tcb (this_task st) f st)) (this_task st) = lockcount (f (get st (this_task st))).
Proof.
  intros (Hw & Hl & Hr) Hf Hk Hp. split_and!.
  - by apply wf_on_tcb; [..|right|].
  - done.
  - unfold locks. cbn [on_tcb with_tcbs tcbs]. by rewrite tcb_at_upd, decide_True.
Qed.

Lemma locks_on_tcb st a f y : (∀ t, lockcount (f t) = lockcount t) →
  locks (tcbs (on_tcb a f st)) y = locks (tcbs st) y.
Proof.
  intros Hf. unfold locks. cbn. rewrite tcb_at_upd. by destruct (decide (y = a)) as [->|].
Qed.

(** The same tasks are runnable, and nothing else changed lists. *)
Definition conserved L L' : Prop :=
  (∀ y, y ∈ L' g_readytorun ∨ y ∈ L' g_pendingtasks ↔ y ∈ L g_readytorun ∨ y ∈ L g_pendingtasks) ∧
  (∀ k, k ≠ g_readytorun → k ≠ g_pendingtasks → L' k = L k).

Lemma conserved_merge st L :
  conserved L (<[g_pendingtasks := []]> (<[g_readytorun := merged st L]> L)).
Proof.
  split; [|intros k; by destruct k]. intros y.
  change (_ g_readytorun) with (merged st L) at 1. change (_ g_pendingtasks) with (nil : list Z) at 1.
  unfold merged. rewrite elem_of_pmerge, elem_of_nil. tauto.
Qed.

Lemma sched_lock_abs st L idle irq :
  sched_inv st L idle → locks (tcbs st) (this_task st) < MAX_LOCK_COUNT →
  ∃ st', sched_lock irq st = Some st' ∧ sched_inv st' L idle ∧ this_task st' = this_task st ∧
    (irq = false → 0 < locks (tcbs st') (this_task st')).
Proof.
  intros Hi Hm. pose proof Hi as (Hw & Hl & Hr). unfold sched_lock.
  destruct (wf_ready_split _ _ _ Hw) as (r & R & _ & Er & Hr0).
  rewrite (proj2 (Z.eqb_neq _ 0)) by congruence. destruct irq; cbn [negb andb].
  { exists st. by split_and!. }
  change (lockcount (get st (this_task st))) with (locks (tcbs st) (this_task st)).
  rewrite (proj2 (Z.ltb_lt _ _)) by done. cbn [negb].
  pose proof (sw_locks _ _ _ Hw (this_task st)) as Hlk.
  destruct (lock_inv_on_tcb st L idle (with_lockcount (locks (tcbs st) (this_task st) + 1)) Hi)
    as (Hw1 & Hth & Hlk1); [done|simpl; lia|done|].
  eexists. split; [reflexivity|]. split_and!; try done.
  - split_and!; [done| |done]. intros _. rewrite Hth, Hlk1. simpl. lia.
  - intros _. rewrite Hth, Hlk1. simpl. lia.
Qed.

Lemma sched_unlock_abs st L idle irq :
  sched_inv st L idle →
  ∃ st' L', sched_unlock irq st = Some st' ∧ sched_inv st' L' idle ∧ conserved L L' ∧
    (∀ y, prio (tcbs st') y = prio (tcbs st) y) ∧
    (irq = false → locks (tcbs st) (this_task st) ≤ 1 → L' g_pendingtasks = []).
Proof.
  intros Hi. pose proof Hi as (Hw & Hl & Hr). unfold sched_unlock.
  destruct (wf_ready_split _ _ _ Hw) as (r & R & _ & Er & Hr0).
  rewrite (proj2 (Z.eqb_neq _ 0)) by congruence. destruct irq; cbn [negb andb].
  { exists st, L. by split_and!. }
  pose proof (sw_locks _ _ _ Hw (this_task st)) as Hlk.
  change (lockcount (get st (this_task st))) with (locks (tcbs st) (this_task st)).
  set (n := locks (tcbs st) (this_task st)) in *. set (me := this_task st) in *.
  set (st1 := if negb (n =? 0) then on_tcb me (with_lockcount (n - 1)) st else st).
  assert (Hst1 : sched_wf st1 L idle ∧ this_task st1 = me ∧ g_running st1 = me ∧
    locks (tcbs st1) me = Z.max 0 (n - 1) ∧ ∀ y, prio (tcbs st1) y = prio (tcbs st) y).
  { unfold st1. destruct (Z.eqb_spec n 0) as [E|E]; cbn [negb].
    - split_and!; try done. unfold n in *. lia.
    - destruct (lock_inv_on_tcb st L idle (with_lockcount (n - 1)) Hi) as (Hw1 & Hth & Hlk1);
        [done|simpl; lia|done|]. fold me in Hw1, Hth, Hlk1. split_and!; try done.
      + rewrite Hlk1. simpl. lia.
      + intros y. unfold prio. cbn. rewrite tcb_at_upd. by destruct (decide (y = me)) as [->|]. }
  destruct Hst1 as (Hw1 & Hth1 & Hr1 & Hlk1 & Hp1).
  change (lockcount (get st1 me)) with (locks (tcbs st1) me). rewrite Hlk1.
  destruct (Z.leb_spec (Z.max 0 (n - 1)) 0) as [Hz|Hnz].
  - set (st2 := on_tcb me (with_lockcount 0) st1).
    assert (Hw2 : sched_wf st2 L idle) by (apply wf_on_tcb; [done|simpl; lia|by right|done]).
    assert (Hp2 : ∀ y, prio (tcbs st2) y = prio (tcbs st) y).
    { intros y. unfold prio. cbn. rewrite tcb_at_upd. destruct (decide (y = me)) as [->|]; apply Hp1. }
    pose proof (dq_head_zero _ _ _ (lo_repr _ _ (sw_lists _ _ _ Hw2) g_pendingtasks)) as Hqz.
    destruct (Z.eqb_spec (q_head (qs st2 g_pendingtasks)) 0) as [E|E]; cbn [negb].
    + apply Hqz in E. exists st2, L. split_and!; try done.
      split_and!; [done|by intros []|]. change (g_running st2) with (g_running st1).
      change (this_task st2) with (this_task st1). congruence.
    + destruct (release_abs st2 L idle Hw2) as (st3 & -> & Hi3 & Ht3).
      { change (g_running st2) with (g_running st1). change (this_task st2) with (this_task st1). congruence. }
      eexists _, _. split; [reflexivity|]. split_and!; [exact Hi3|apply conserved_merge| |done].
      intros y. rewrite (same_tasks_prio _ _ _ Ht3). apply Hp2.
  - exists st1, L. split_and!; try done; [|intros; lia]. split_and!; [done| |congruence].
    intros _. rewrite Hth1, Hlk1. lia.
Qed.

(** ** Priorities *)

(** Taking a runnable task out, giving it another priority and putting it back. *)
Lemma readd_abs st L idle x p :
  sched_wf st L idle → x ∈ L g_readytorun → x ≠ idle → 1 ≤ p ≤ 255 →
  ∃ st1 st3 b L3, sched_removereadytorun x st = Some (bool_decide (head (L g_readytorun) = Some x), st1) ∧
    sched_addreadytorun x (on_tcb x (with_priority p) st1) = Some (b, st3) ∧
    sched_wf st3 L3 idle ∧ conserved L L3 ∧ g_running st3 = g_running st ∧
    (∀ y, prio (tcbs st3) y = if decide (y = x) then p else prio (tcbs st) y) ∧
    (∀ y, locks (tcbs st3) y = locks (tcbs st) y) ∧
    (b = false → this_task st3 = this_task (on_tcb x (with_priority p) st1) ∧
       (L3 g_pendingtasks = L g_pendingtasks ∨ locks (tcbs st) (this_task st3) ≠ 0)) ∧
    (b = true → this_task st3 = x ∧ L3 g_pendingtasks = L g_pendingtasks ∧
       prio (tcbs st3) (this_task (on_tcb x (with_priority p) st1)) < p) ∧
    (head (L g_readytorun) ≠ Some x → this_task (on_tcb x (with_priority p) st1) = this_task st) ∧
    L3 = add_ready (on_tcb x (with_priority p) st1)
           (<[g_readytorun := remove_first x (L g_readytorun)]> L) x.
Proof.
  intros Hw Hx Hxi Hp.
  destruct (removeready_ok st L idle x Hw Hx Hxi) as (st1 & E1 & Hw1 & Hd1 & Ht1 & Hr1).
  set (L1 := <[g_readytorun := remove_first x (L g_readytorun)]> L) in *.
  set (st2 := on_tcb x (with_priority p) st1).
  assert (Hw2 : sched_wf st2 L1 idle) by (apply wf_on_tcb; [done|done|by left; apply Hd1|done]).
  assert (Hd2 : detached st2 L1 x idle) by by apply detached_tcb.
  assert (Hp2 : ∀ y, prio (tcbs st2) y = if decide (y = x) then p else prio (tcbs st) y).
  { intros y. unfold prio. cbn [st2 on_tcb with_tcbs tcbs]. rewrite tcb_at_upd.
    destruct (decide (y = x)) as [->|]; [done|]. by apply (same_tasks_prio (tcbs st)). }
  assert (Hk2 : ∀ y, locks (tcbs st2) y = locks (tcbs st) y).
  { intros y. unfold locks. cbn [st2 on_tcb with_tcbs tcbs]. rewrite tcb_at_upd.
    destruct (decide (y = x)) as [->|]; by apply (same_tasks_locks (tcbs st)). }
  assert (Hpx : prio (tcbs st2) x = p) by by rewrite Hp2, decide_True.
  destruct (addready_ok st2 L1 idle x Hw2 Hd2) as (st3 & E3 & Hw3 & Ht3 & Hr3); [by rewrite Hpx|].
  pose proof (wf_head _ _ _ Hw2) as Hh2. pose proof (wf_head _ _ _ Hw3) as Hh3.
  destruct (lo_repr _ _ (sw_lists _ _ _ Hw) g_readytorun) as (_ & Hnd & _).
  eexists st1, st3, _, _. split_and!; [exact E1|exact E3|exact Hw3| |by rewrite Hr3|..].
  - unfold add_ready, conserved. split.
    + intros y. destruct (held_back st2 x).
      * rewrite fn_insert_eq, fn_insert_ne, elem_of_pinsert by done. unfold L1.
        rewrite fn_insert_eq, fn_insert_ne, elem_of_remove_first by done.
        destruct (decide (y = x)) as [->|]; tauto.
      * rewrite fn_insert_eq, fn_insert_ne, elem_of_pinsert by done. unfold L1.
        rewrite fn_insert_eq, fn_insert_ne, elem_of_remove_first by done.
        destruct (decide (y = x)) as [->|]; tauto.
    + intros k ? ?. destruct (held_back st2 x); rewrite fn_insert_ne by done; unfold L1;
        by rewrite fn_insert_ne.
  - intros y. by rewrite (same_tasks_prio _ _ _ Ht3).
  - intros y. by rewrite (same_tasks_locks _ _ _ Ht3).
  - intros Hb. unfold add_ready in *. destruct (held_back st2 x) eqn:Eh.
    + assert (Eth : this_task st3 = this_task st2).
      { eapply this_task_head; [exact Hw2|exact Hw3|]. by rewrite fn_insert_ne. }
      split; [done|]. right. rewrite Eth. unfold held_back in Eh. apply andb_prop in Eh as [Eh _].
      rewrite Hk2 in Eh. by zb.
    + split; [|by left]. cbn [negb andb] in Hb. zb.
      eapply this_task_head; [exact Hw2|exact Hw3|].
      rewrite fn_insert_eq, pinsert_head, Hh2. by rewrite (proj2 (Z.leb_le _ _)).
  - intros [Hb1 Hb2]%andb_prop. unfold add_ready in *. destruct (held_back st2 x) eqn:Eh; [done|].
    zb. rewrite fn_insert_eq, pinsert_head, Hh2 in Hh3.
    rewrite (proj2 (Z.leb_gt _ _)) in Hh3 by done. split_and!; [by injection Hh3|done|].
    rewrite (same_tasks_prio _ _ _ Ht3). fold st2. lia.
  - intros Hne. eapply this_task_head; [exact Hw|exact Hw2|]. unfold L1. rewrite fn_insert_eq.
    by apply head_remove_first.
  - done.
Qed.

Lemma reprioritize_abs st L idle x p :
  sched_inv st L idle → x ∈ L g_readytorun → x ≠ idle → 1 ≤ p ≤ 255 →
  ∃ st' L', up_reprioritize_rtr x p st = Some st' ∧ sched_inv st' L' idle ∧ conserved L L' ∧
    (∀ y, prio (tcbs st') y = if decide (y = x) then p else prio (tcbs st) y) ∧
    (∀ y, locks (tcbs st') y = locks (tcbs st) y).
Proof.
  intros (Hw & Hl & Hr) Hx Hxi Hp. unfold up_reprioritize_rtr.
  rewrite (ready_state _ _ _ _ Hw Hx).
  rewrite (proj2 (Z.ltb_ge p SCHED_PRIORITY_MIN)) by (unfold SCHED_PRIORITY_MIN; lia).
  rewrite (proj2 (Z.ltb_ge SCHED_PRIORITY_MAX p)) by (unfold SCHED_PRIORITY_MAX; lia). cbn [negb orb].
  destruct (readd_abs st L idle x p Hw Hx Hxi Hp)
    as (st1 & st3 & b & L3 & -> & E3 & Hw3 & Hc3 & Hr3 & Hp3 & Hk3 & Hf & Ht & Hn & _).
  cbn [mbind option_bind]. rewrite E3. cbn [mbind option_bind].
  destruct (xorb (bool_decide (head (L g_readytorun) = Some x)) b) eqn:Ex.
  - destruct (merge_if_pending st3 L3 idle Hw3) as (st4 & b4 & E4 & Hw4 & Ht4 & Hr4 & _).
    assert (E : (if negb (q_head (qs st3 g_pendingtasks) =? 0)
      then '(_, st0) ← sched_mergepending st3; Some st0 else Some st3) = Some st4).
    { destruct (negb _); [by rewrite E4|]. by injection E4 as <- <-. }
    rewrite E. cbn [mbind option_bind]. eexists _, _. split; [reflexivity|]. split_and!.
    + apply (switch_inv st4 _ _ true); [exact Hw4|by intros []|done].
    + destruct Hc3 as [Hc1 Hc2]. destruct (conserved_merge st3 L3) as [Hm1 Hm2].
      split; [intros y; by rewrite Hm1|]. intros k H1 H2. rewrite Hm2 by done. auto.
    + intros y. cbn. by rewrite (same_tasks_prio _ _ _ Ht4).
    + intros y. cbn. by rewrite (same_tasks_locks _ _ _ Ht4).
  - exists st3, L3. split_and!; try done. destruct b.
    + destruct (Ht eq_refl) as (Eth & Epn & _). rewrite xorb_true_r in Ex. zb.
      apply bool_decide_eq_true in Ex. rewrite (wf_head _ _ _ Hw) in Ex. injection Ex as Ex.
      split_and!; [done| |congruence]. intros Hne. rewrite Hk3, Eth, <-Ex. apply Hl. by rewrite <-Epn.
    + destruct (Hf eq_refl) as [Eth Hpn]. rewrite xorb_false_r in Ex. apply bool_decide_eq_false in Ex.
      specialize (Hn Ex). split_and!; [done| |congruence]. intros Hne. rewrite Hk3.
      destruct Hpn as [Epn|Hlk].
      * rewrite Eth, Hn. apply Hl. by rewrite <-Epn.
      * pose proof (sw_locks _ _ _ Hw (this_task st3)). lia.
Qed.

Lemma wf_set_priority st L idle x k p :
  sched_wf st L idle → x ∈ L k → x ≠ idle → 1 ≤ p ≤ 255 →
  (is_prio k = true →
     StronglySorted (pdesc (λ y, if decide (y = x) then p else prio (tcbs st) y)) (L k)) →
  sched_wf (on_tcb x (with_priority p) st) L idle.
Proof.
  intros Hw Hx Hxi Hp Hso.
  assert (Hst : ∀ y, tstate_of (tcbs (on_tcb x (with_priority p) st)) y = tstate_of (tcbs st) y).
  { intros y. unfold tstate_of. cbn. rewrite tcb_at_upd. by destruct (decide (y = x)) as [->|]. }
  assert (Hpr : ∀ y, prio (tcbs (on_tcb x (with_priority p) st)) y = if decide (y = x) then p else prio (tcbs st) y).
  { intros y. unfold prio. cbn. rewrite tcb_at_upd. by destruct (decide (y = x)) as [->|]. }
  split.
  - apply lists_on_tcb; [done|apply Hw].
  - intros k' y Hy. rewrite Hst. by apply (sw_state _ _ _ Hw).
  - intros y k'. rewrite Hst. apply (sw_member _ _ _ Hw).
  - intros y Hy. rewrite Hst. by apply (sw_run _ _ _ Hw).
  - intros k' Hk'. unfold prio_sorted. destruct (decide (k = k')) as [<-|Hne].
    + eapply sorted_ext; [|by apply Hso]. intros y _. apply Hpr.
    + eapply sorted_ext; [|by apply (sw_sorted _ _ _ Hw)]. intros y Hy. rewrite Hpr, decide_False; [done|].
      intros ->. apply Hne. by eapply (lo_disj _ _ (sw_lists _ _ _ Hw)).
  - split; [apply (sw_idle _ _ _ Hw)|]. rewrite Hpr, decide_False by congruence. apply (sw_idle _ _ _ Hw).
  - intros k' y Hy Hyi. rewrite Hpr. destruct (decide (y = x)); [done|]. by eapply (sw_prio _ _ _ Hw).
  - intros y. unfold locks. cbn. rewrite tcb_at_upd.
    destruct (decide (y = x)) as [->|]; apply (sw_locks _ _ _ Hw).
Qed.

(** A task that waits in a prioritized list is moved to its new place. *)
Lemma relist_abs st L idle x k p :
  sched_wf st L idle → x ∈ L k → k ≠ g_readytorun → 1 ≤ p ≤ 255 →
  let st2 := on_tcb x (with_priority p) (on_list k (dq_rem x) st) in
  let l := pinsert (prio (tcbs st2)) x (remove_first x (L k)) in
  ∃ b st3, sched_addprioritized x k st2 = Some (b, st3) ∧ sched_wf st3 (<[k := l]> L) idle ∧
    g_running st3 = g_running st ∧ (∀ y, y ∈ l ↔ y ∈ L k) ∧
    (∀ y, prio (tcbs st3) y = if decide (y = x) then p else prio (tcbs st) y) ∧
    (∀ y, locks (tcbs st3) y = locks (tcbs st) y).
Proof.
  intros Hw Hx Hk Hp st2 l. pose proof (sw_lists _ _ _ Hw) as Ho.
  destruct (wf_nonzero _ _ _ _ _ Hw Hx) as [Hx0 Hxd].
  assert (Hxi : x ≠ idle).
  { intros ->. apply Hk. eapply (lo_disj _ _ Ho); [done|]. by apply (wf_idle_ready _ _ _ Hw). }
  destruct (rem_ok st L k x Ho Hx) as (Ho1 & Hfr & Hd1 & Hg1 & Hr1).
  set (L1 := <[k := remove_first x (L k)]> L) in *. set (st1 := on_list k (dq_rem x) st) in *.
  assert (Hp2 : ∀ y, prio (tcbs st2) y = if decide (y = x) then p else prio (tcbs st) y).
  { intros y. unfold prio. cbn [st2 on_tcb with_tcbs tcbs]. rewrite tcb_at_upd.
    destruct (decide (y = x)) as [->|]; [done|]. by apply (same_data_field sched_priority). }
  assert (Ho2 : lists_ok st2 L1) by by apply lists_on_tcb.
  destruct (addprioritized_ok st2 L1 x k Ho2 Hfr Hx0) as (st3 & E3 & Ho3 & Hd3 & Hg3 & Hr3).
  { cbn. by apply grows_upd, Hg1. }
  { rewrite Hp2, decide_True by done. lia. }
  change (L1 k) with (<[k := remove_first x (L k)]> L k) in Ho3, E3. rewrite fn_insert_eq in Ho3, E3. fold l in Ho3, E3.
  destruct (lo_repr _ _ Ho k) as (_ & Hnd & _).
  assert (Hl : ∀ y, y ∈ l ↔ y ∈ L k).
  { intros y. unfold l. rewrite elem_of_pinsert, elem_of_remove_first by done.
    destruct (decide (y = x)) as [->|]; tauto. }
  assert (HL : ∀ k' y, y ∈ <[k := l]> L k' ↔ y ∈ L k').
  { intros k' y. rewrite elem_of_insert_list. destruct (decide (k = k')) as [<-|]; [apply Hl|done]. }
  assert (Hst : ∀ y, tstate_of (tcbs st3) y = tstate_of (tcbs st) y).
  { intros y. rewrite (same_data_state _ _ _ Hd3). unfold tstate_of. cbn [st2 on_tcb with_tcbs tcbs].
    rewrite tcb_at_upd. destruct (decide (y = x)) as [->|]; by apply (same_data_field task_state). }
  assert (Hlk : ∀ y, locks (tcbs st3) y = locks (tcbs st) y).
  { intros y. unfold locks. rewrite (same_data_field lockcount _ _ _ (λ _, eq_refl) Hd3). cbn [st2 on_tcb with_tcbs tcbs].
    rewrite tcb_at_upd. destruct (decide (y = x)) as [->|]; by apply (same_data_field lockcount). }
  assert (Hp3 : ∀ y, prio (tcbs st3) y = if decide (y = x) then p else prio (tcbs st) y).
  { intros y. rewrite <-Hp2. by apply (same_data_field sched_priority). }
  eexists _, st3. split; [exact E3|]. split_and!; [|by rewrite Hr3|done|done|done].
  assert (HrL : <[k := l]> L g_readytorun = L g_readytorun) by by apply fn_insert_ne.
  split.
  - eapply lists_ok_ext_L; [|exact Ho3]. intros k'. unfold L1.
    destruct (decide (k = k')) as [<-|]; [by rewrite !fn_insert_eq|by rewrite !fn_insert_ne].
  - intros k' y Hy%HL. rewrite Hst. by apply (sw_state _ _ _ Hw).
  - intros y k'. rewrite Hst, HL. apply (sw_member _ _ _ Hw).
  - rewrite HrL. intros y Hy. rewrite Hst. by apply (sw_run _ _ _ Hw).
  - intros k' Hk'. unfold prio_sorted. pose proof (sw_sorted _ _ _ Hw k' Hk') as Hso. unfold prio_sorted in Hso.
    destruct (decide (k = k')) as [<-|Hne].
    + rewrite fn_insert_eq. apply (sorted_ext (prio (tcbs st2))); [intros y _; by rewrite Hp3, Hp2|].
      apply pinsert_sorted. eapply sorted_ext; [|by apply sorted_remove_first].
      intros y Hy%elem_of_remove_first; [|done]. rewrite Hp2, decide_False by tauto. done.
    + rewrite fn_insert_ne by done. eapply sorted_ext; [|exact Hso]. intros y Hy. rewrite Hp3, decide_False; [done|].
      intros ->. apply Hne. by eapply (lo_disj _ _ Ho).
  - rewrite HrL. split; [apply (sw_idle _ _ _ Hw)|]. rewrite Hp3, decide_False by congruence. apply (sw_idle _ _ _ Hw).
  - intros k' y Hy%HL Hyi. rewrite Hp3. destruct (decide (y = x)); [done|]. by eapply (sw_prio _ _ _ Hw).
  - intros y. rewrite Hlk. apply (sw_locks _ _ _ Hw).
Qed.

(** No task is lost: runnable tasks stay runnable, the others stay in their list. *)
Definition kept L L' : Prop :=
  (∀ y, y ∈ L' g_readytorun ∨ y ∈ L' g_pendingtasks ↔ y ∈ L g_readytorun ∨ y ∈ L g_pendingtasks) ∧
  (∀ k y, k ≠ g_readytorun → k ≠ g_pendingtasks → y ∈ L' k ↔ y ∈ L k).

Lemma conserved_refl L : conserved L L.
Proof. done. Qed.

Lemma conserved_kept L L' : conserved L L' → kept L L'.
Proof. intros [H1 H2]. split; [done|]. intros k y ? ?. by rewrite H2. Qed.

Lemma kept_refl L : kept L L.
Proof. by split. Qed.

Lemma kept_perm L k l : (∀ y, y ∈ l ↔ y ∈ L k) → kept L (<[k := l]> L).
Proof.
  intros Hl. assert (HL : ∀ k' y, y ∈ <[k := l]> L k' ↔ y ∈ L k').
  { intros k' y. rewrite elem_of_insert_list. destruct (decide (k = k')) as [<-|]; [apply Hl|done]. }
  split; intros; rewrite !HL; done.
Qed.

Lemma setpriority_abs st L idle x k p :
  sched_inv st L idle → x ∈ L k → x ≠ idle → 1 ≤ p ≤ 255 →
  ∃ st' L', sched_setpriority x p st = Some (OK, st') ∧ sched_inv st' L' idle ∧ kept L L' ∧
    (∀ y, prio (tcbs st') y = if decide (y = x) then p else prio (tcbs st) y).
Proof.
  intros Hi Hx Hxi Hp. pose proof Hi as (Hw & Hl & Hr). unfold sched_setpriority.
  rewrite (proj2 (Z.ltb_ge p SCHED_PRIORITY_MIN)) by (unfold SCHED_PRIORITY_MIN; lia).
  rewrite (proj2 (Z.ltb_ge SCHED_PRIORITY_MAX p)) by (unfold SCHED_PRIORITY_MAX; lia). cbn [orb].
  change (task_state (get st x)) with (tstate_of (tcbs st) x).
  assert (Hset : is_prio k = false → ∃ st' L', Some (OK, on_tcb x (with_priority p) st) = Some (OK, st') ∧
    sched_inv st' L' idle ∧ kept L L' ∧
    (∀ y, prio (tcbs st') y = if decide (y = x) then p else prio (tcbs st) y)).
  { intros Hk. exists (on_tcb x (with_priority p) st), L. split_and!; [done| |apply kept_refl|].
    - split_and!; [|intros Hne|done].
      + eapply wf_set_priority; [done|exact Hx|done|done|]. by rewrite Hk.
      + specialize (Hl Hne). by rewrite locks_on_tcb.
    - intros y. unfold prio. cbn. rewrite tcb_at_upd. by destruct (decide (y = x)) as [->|]. }
  assert (Hre : is_prio k = true → k ≠ g_readytorun → ∃ st' L',
    ('(_, st0) ← sched_addprioritized x k (on_tcb x (with_priority p) (on_list k (dq_rem x) st)); Some (OK, st0)) = Some (OK, st') ∧
    sched_inv st' L' idle ∧ kept L L' ∧
    (∀ y, prio (tcbs st') y = if decide (y = x) then p else prio (tcbs st) y)).
  { intros _ Hk. destruct (relist_abs st L idle x k p Hw Hx Hk Hp) as (b & st3 & -> & Hw3 & Hr3 & Hl3 & Hp3 & Hk3).
    cbn [mbind option_bind]. eexists _, _. split; [reflexivity|]. split_and!; [|by apply kept_perm|done].
    assert (Hth : this_task st3 = this_task st).
    { eapply this_task_head; [exact Hw|exact Hw3|]. by rewrite fn_insert_ne. }
    split_and!; [done| |congruence]. intros Hne. rewrite Hk3, Hth. apply Hl.
    intros E. apply Hne. destruct (decide (k = g_pendingtasks)) as [->|]; [|by rewrite fn_insert_ne].
    rewrite E in Hx. by apply not_elem_of_nil in Hx. }
  pose proof (sw_state _ _ _ Hw _ _ Hx) as Hs.
  destruct (tstate_of (tcbs st) x) eqn:Es; cbn [list_of] in Hs; simplify_eq; cbn [prioritized list_of mbind option_bind];
    try (by apply Hset); try (by apply Hre).
  - (* ready to run *)
    assert (Hnh : head (L g_readytorun) ≠ Some x).
    { intros E. pose proof (sw_run _ _ _ Hw _ Hx) as E2. by rewrite Es, decide_True in E2. }
    change (sched_priority (get st (this_task st))) with (prio (tcbs st) (this_task st)).
    destruct (Z.ltb_spec (prio (tcbs st) (this_task st)) p) as [Hlt|Hge].
    + destruct (reprioritize_abs st L idle x p Hi Hx Hxi Hp) as (st' & L' & -> & Hi' & Hc & Hp' & _).
      eexists _, _. split; [reflexivity|]. split_and!; [done|by apply conserved_kept|done].
    + destruct (readd_abs st L idle x p Hw Hx Hxi Hp)
        as (st1 & st3 & b & L3 & -> & E3 & Hw3 & Hc3 & Hr3 & Hp3 & Hk3 & Hf & Ht & Hn & _).
      specialize (Hn Hnh). rewrite bool_decide_eq_false_2 by done. cbn [mbind option_bind]. rewrite E3.
      cbn [mbind option_bind]. destruct b.
      { exfalso. destruct (Ht eq_refl) as (_ & _ & Hlt). rewrite Hn, Hp3 in Hlt.
        rewrite (wf_head _ _ _ Hw) in Hnh. rewrite decide_False in Hlt by congruence. lia. }
      destruct (Hf eq_refl) as [Eth Hpn]. exists st3, L3. split_and!; [done| |by apply conserved_kept|done].
      split_and!; [done| |congruence]. intros Hne. rewrite Hk3. destruct Hpn as [Epn|Hlk].
      * rewrite Eth, Hn. apply Hl. by rewrite <-Epn.
      * pose proof (sw_locks _ _ _ Hw (this_task st3)). lia.
  - (* running *)
    assert (Hh : head (L g_readytorun) = Some x).
    { pose proof (sw_run _ _ _ Hw _ Hx) as E2. rewrite Es in E2. by destruct (decide _). }
    destruct (L g_readytorun) as [|r [|n R]] eqn:ER; [done|..]; injection Hh as ->.
    { exfalso. destruct (sw_idle _ _ _ Hw) as [Hla _]. rewrite ER in Hla. by injection Hla. }
    destruct (ready_links st L idle [] x (n :: R) Hw ER) as [Efl _]. rewrite Efl.
    change (default 0 (head (n :: R))) with n. change (sched_priority (get st n)) with (prio (tcbs st) n).
    destruct (Z.leb_spec p (prio (tcbs st) n)) as [Hle|Hgt].
    + rewrite <-ER in Hx.
      destruct (reprioritize_abs st L idle x p Hi Hx Hxi Hp) as (st' & L' & -> & Hi' & Hc & Hp' & _).
      eexists _, _. split; [reflexivity|]. split_and!; [done|by apply conserved_kept|done].
    + exists (on_tcb x (with_priority p) st), L. split_and!; [done| |apply kept_refl|].
      * split_and!; [|intros Hne|done].
        -- eapply (wf_set_priority _ _ _ _ g_readytorun); [done|rewrite ER; constructor|done|done|].
           intros _. rewrite ER. pose proof (sw_sorted _ _ _ Hw g_readytorun eq_refl) as Hso.
           unfold prio_sorted in Hso. rewrite ER in Hso. apply StronglySorted_inv in Hso as [Hso _].
           pose proof (lo_repr _ _ (sw_lists _ _ _ Hw) g_readytorun) as (_ & Hnd & _).
           rewrite ER in Hnd. apply NoDup_cons in Hnd as [Hxn _].
           pose proof Hso as Hso'. apply StronglySorted_inv in Hso' as [_ Hf].
           constructor.
           ++ eapply sorted_ext; [|exact Hso]. intros y Hy. by rewrite decide_False by (intros ->; done).
           ++ apply Forall_forall. intros y Hy. unfold pdesc. rewrite (decide_True (P := x = x)) by done.
              rewrite decide_False by (intros ->; done). rewrite Forall_forall in Hf.
              apply elem_of_cons in Hy as [->|Hy]; [lia|]. specialize (Hf _ Hy). unfold pdesc in Hf. lia.
        -- specialize (Hl Hne). by rewrite locks_on_tcb.
      * intros y. unfold prio. cbn. rewrite tcb_at_upd. by destruct (decide (y = x)) as [->|].
Qed.

Lemma timeslice_abs st L idle :
  sched_inv st L idle → Z.land (flags (get st idle)) TCB_FLAG_ROUND_ROBIN = 0 →
  ∃ st' L', sched_process_timeslice st = Some st' ∧ sched_inv st' L' idle ∧ conserved L L' ∧
    (∀ y, prio (tcbs st') y = prio (tcbs st) y).
Proof.
  intros Hi Hidle. pose proof Hi as (Hw & Hl & Hr). unfold sched_process_timeslice.
  set (me := this_task st). pose proof (wf_head _ _ _ Hw) as Hh. fold me in Hh.
  assert (Hx : me ∈ L g_readytorun) by by apply head_Some_elem_of.
  assert (Hts : ∀ v, sched_inv (on_tcb me (with_timeslice v) st) L idle ∧
    ∀ y, prio (tcbs (on_tcb me (with_timeslice v) st)) y = prio (tcbs st) y).
  { intros v. split.
    - split_and!; [apply wf_on_tcb; [done|done|by right|done]|intros Hne|done].
      specialize (Hl Hne). by rewrite locks_on_tcb.
    - intros y. unfold prio. cbn. rewrite tcb_at_upd. by destruct (decide (y = me)) as [->|]. }
  assert (Hsame : ∃ st' L', Some st = Some st' ∧ sched_inv st' L' idle ∧ conserved L L' ∧
    (∀ y, prio (tcbs st') y = prio (tcbs st) y)).
  { exists st, L. split_and!; try done; apply conserved_refl. }
  destruct (Z.eqb_spec (Z.land (flags (get st me)) TCB_FLAG_ROUND_ROBIN) 0) as [Efl|Efl]; cbn [negb]; [done|].
  assert (Hmi : me ≠ idle) by congruence.
  destruct (timeslice (get st me) <=? 1).
  2:{ destruct (Hts (timeslice (get st me) - 1)). eexists _, L. split; [reflexivity|].
      split_and!; try done; apply conserved_refl. }
  destruct (lockcount (get st me) =? 0); [|done].
  destruct (Hts (CONFIG_RR_INTERVAL / MSEC_PER_TICK)) as [Hi1 Hp1].
  set (st1 := on_tcb me (with_timeslice (CONFIG_RR_INTERVAL / MSEC_PER_TICK)) st) in *.
  destruct (negb _ && _).
  - change (sched_priority (get st1 me)) with (prio (tcbs st1) me). rewrite Hp1.
    destruct (reprioritize_abs st1 L idle me (prio (tcbs st) me) Hi1 Hx Hmi)
      as (st' & L' & -> & Hi' & Hc & Hp' & _); [by eapply (sw_prio _ _ _ Hw)|].
    exists st', L'. split_and!; [done|done|done|].
    intros y. rewrite Hp', Hp1. by destruct (decide (y = me)) as [->|].
  - exists st1, L. split_and!; try done; apply conserved_refl.
Qed.

(** The running task gives way to the tasks of its priority behind it. *)
Lemma rotate_abs st L idle x n R :
  sched_inv st L idle → L g_readytorun = x :: n :: R → x ≠ idle →
  locks (tcbs st) x = 0 → prio (tcbs st) n = prio (tcbs st) x →
  ∃ st' L', up_reprioritize_rtr x (prio (tcbs st) x) st = Some st' ∧ sched_inv st' L' idle ∧
    L' g_readytorun = n :: pinsert (prio (tcbs st)) x R ∧ g_running st' = n.
Proof.
  intros (Hw & Hl & Hr) ER Hxi Hlk Hpn. unfold up_reprioritize_rtr.
  assert (Hx : x ∈ L g_readytorun) by (rewrite ER; constructor).
  pose proof (wf_head _ _ _ Hw) as Hh. rewrite ER in Hh. injection Hh as Hth.
  assert (Hpe : L g_pendingtasks = []).
  { destruct (decide (L g_pendingtasks = [])) as [|Hne]; [done|]. specialize (Hl Hne). rewrite <-Hth in Hl. lia. }
  pose proof (sw_prio _ _ _ Hw _ _ Hx Hxi) as Hp. rewrite (ready_state _ _ _ _ Hw Hx).
  rewrite (proj2 (Z.ltb_ge _ SCHED_PRIORITY_MIN)) by (unfold SCHED_PRIORITY_MIN; lia).
  rewrite (proj2 (Z.ltb_ge SCHED_PRIORITY_MAX _)) by (unfold SCHED_PRIORITY_MAX; lia). cbn [negb orb].
  destruct (removeready_ok st L idle x Hw Hx Hxi) as (st1 & E1 & Hw1 & Hd1 & Ht1 & Hr1).
  rewrite E1. cbn [mbind option_bind]. rewrite ER. rewrite (bool_decide_eq_true_2 (head (x :: n :: R) = Some x)) by done.
  assert (Erf : remove_first x (L g_readytorun) = n :: R) by (rewrite ER; simpl; by rewrite decide_True).
  rewrite Erf in *. set (L1 := <[g_readytorun := n :: R]> L) in *.
  set (st2 := on_tcb x (with_priority (prio (tcbs st) x)) st1).
  assert (Hw2 : sched_wf st2 L1 idle) by (apply wf_on_tcb; [done|done|by left; apply Hd1|done]).
  assert (Hd2 : detached st2 L1 x idle) by by apply detached_tcb.
  assert (Hp2 : ∀ y, prio (tcbs st2) y = prio (tcbs st) y).
  { intros y. unfold prio. cbn [st2 on_tcb with_tcbs tcbs]. rewrite tcb_at_upd.
    destruct (decide (y = x)) as [->|]; [done|]. by apply (same_tasks_prio (tcbs st)). }
  assert (Hth2 : this_task st2 = n).
  { pose proof (wf_head _ _ _ Hw2) as E. unfold L1 in E. rewrite fn_insert_eq in E. by injection E. }
  destruct (addready_ok st2 L1 idle x Hw2 Hd2) as (st3 & E3 & Hw3 & Ht3 & Hr3); [by rewrite Hp2|].
  rewrite Hth2, !Hp2, Hpn, Z.ltb_irrefl, andb_false_r in E3.
  change (on_tcb x (with_priority (prio (tcbs st) x)) st1) with st2. rewrite E3. cbn [mbind option_bind xorb].
  set (L3 := add_ready st2 L1 x) in *.
  assert (EL3 : L3 = <[g_readytorun := n :: pinsert (prio (tcbs st)) x R]> L1).
  { unfold L3, add_ready, held_back. rewrite Hth2, !Hp2, Hpn, Z.ltb_irrefl, andb_false_r.
    unfold L1. rewrite fn_insert_eq. rewrite (pinsert_ext (prio (tcbs st))) by auto. simpl.
    by rewrite (proj2 (Z.leb_le _ _)) by lia. }
  destruct (merge_if_pending st3 L3 idle Hw3) as (st4 & b4 & E4 & Hw4 & Ht4 & Hr4 & _).
  assert (E : (if negb (q_head (qs st3 g_pendingtasks) =? 0)
    then '(_, st0) ← sched_mergepending st3; Some st0 else Some st3) = Some st4).
  { destruct (negb _); [by rewrite E4|]. by injection E4 as <- <-. }
  rewrite E. cbn [mbind option_bind].
  assert (Em : merged st3 L3 = n :: pinsert (prio (tcbs st)) x R).
  { unfold merged. rewrite EL3. rewrite fn_insert_ne, fn_insert_eq by done.
    unfold L1. rewrite fn_insert_ne by done. by rewrite Hpe. }
  pose proof (switch_inv st4 _ _ true Hw4) as Hi4. cbn beta iota in Hi4.
  eexists _, _. split; [reflexivity|]. split_and!.
  - apply Hi4; [by intros []|done].
  - by rewrite fn_insert_ne, fn_insert_eq, Em by done.
  - cbn. pose proof (wf_head _ _ _ Hw4) as E5. rewrite fn_insert_ne, fn_insert_eq, Em in E5 by done.
    by injection E5.
Qed.
End Ops.
