(* ===== verification/SchedFields.v ===== *)
(** Fields of control blocks that pre-emption locks, time slices, blocking and
    unblocking leave alone. *)

From stdpp Require Import base numbers functions gmap sorting list.
From S2P Require Import Prelude Queue Sched SchedInv SchedThms.

(** ** Fields that pre-emption locks do not change *)

Section LockFields.
Implicit Types (st : sched).

Definition lockless (t : tcb) : tcb := with_lockcount 0 (stateless t).
Definition same_lockless (ts ts' : tstore) : Prop := ∀ x, lockless (tcb_at ts' x) = lockless (tcb_at ts x).

#[global] Instance same_lockless_preorder : PreOrder same_lockless.
Proof. split; [by intros ? ?|]. intros s1 s2 s3 H1 H2 x. by rewrite H2. Qed.

Lemma same_lockless_field {A} (f : tcb → A) ts ts' x :
  (∀ t, f (lockless t) = f t) → same_lockless ts ts' → f (tcb_at ts' x) = f (tcb_at ts x).
Proof. intros Hf E. by rewrite <-(Hf (tcb_at ts' x)), E. Qed.

Lemma same_lockless_upd a f ts : (∀ t, lockless (f t) = lockless t) → same_lockless ts (upd a f ts).
Proof. intros Hf x. rewrite tcb_at_upd. destruct (decide (x = a)) as [->|]; [apply Hf|done]. Qed.

Lemma mergepending_lockless n fuel p r ret st b st' :
  mergepending_loop n fuel p r ret st = Some (b, st') → same_lockless (tcbs st) (tcbs st').
Proof.
  revert p r ret st. induction n as [|n IH]; intros p r ret st; cbn [mergepending_loop].
  { destruct (p =? 0); [|done]. by intros [= _ <-]. }
  destruct (p =? 0); [by intros [= _ <-]|]. destruct (prio_search _ _ _ _) as [r'|]; [|done].
  cbn [mbind option_bind]. destruct (r' =? 0); [done|]. unfold merge_insert. case_test; intros E%IH;
    (etransitivity; [|exact E]); cbn [on_tcb with_tcbs with_queue tcbs];
    repeat (etransitivity; [|by apply same_lockless_upd]); reflexivity.
Qed.

Lemma sched_lock_lockless irq st st' : sched_lock irq st = Some st' → same_lockless (tcbs st) (tcbs st').
Proof.
  unfold sched_lock. repeat case_match; intros [=]; subst; [|done]. by apply same_lockless_upd.
Qed.

Lemma sched_unlock_lockless irq st st' : sched_unlock irq st = Some st' → same_lockless (tcbs st) (tcbs st').
Proof.
  unfold sched_unlock. set (me := this_task st). case_test; [|by intros [= <-]].
  set (st1 := if negb (lockcount (get st me) =? 0) then _ else st).
  assert (H1 : same_lockless (tcbs st) (tcbs st1)).
  { unfold st1. case_test; [by apply same_lockless_upd|done]. }
  case_test; [|by intros [= <-]]. set (st2 := on_tcb me (with_lockcount 0) st1).
  assert (H2 : same_lockless (tcbs st) (tcbs st2)) by (etransitivity; [exact H1|by apply same_lockless_upd]).
  case_test; [|by intros [= <-]]. unfold up_release_pending, sched_mergepending.
  destruct (mergepending_loop _ _ _ _ _ _) as [[b st3]|] eqn:E; [|done]. cbn [mbind option_bind].
  apply mergepending_lockless in E. destruct b; intros [= <-]; by rewrite H2.
Qed.

(** ** Time slices *)

(** Links, states, time slices, locks and priorities aside. *)
Definition coredata (t : tcb) : tcb := with_priority 0 (with_timeslice 0 (lockless t)).
Definition same_core (ts ts' : tstore) : Prop := ∀ x, coredata (tcb_at ts' x) = coredata (tcb_at ts x).

#[global] Instance same_core_preorder : PreOrder same_core.
Proof. split; [by intros ? ?|]. intros s1 s2 s3 H1 H2 x. by rewrite H2. Qed.

Lemma same_core_field {A} (f : tcb → A) ts ts' x :
  (∀ t, f (coredata t) = f t) → same_core ts ts' → f (tcb_at ts' x) = f (tcb_at ts x).
Proof. intros Hf E. by rewrite <-(Hf (tcb_at ts' x)), E. Qed.

Lemma same_core_upd a f ts : (∀ t, coredata (f t) = coredata t) → same_core ts (upd a f ts).
Proof. intros Hf x. rewrite tcb_at_upd. destruct (decide (x = a)) as [->|]; [apply Hf|done]. Qed.

Lemma same_lockless_core ts ts' : same_lockless ts ts' → same_core ts ts'.
Proof. intros H x. unfold coredata. by rewrite H. Qed.

Lemma same_data_core ts ts' : same_data ts ts' → same_core ts ts'.
Proof. intros H x. unfold coredata, lockless, stateless. by rewrite H. Qed.

Lemma addprioritized_core x k st b st' : sched_addprioritized x k st = Some (b, st') → same_core (tcbs st) (tcbs st').
Proof.
  unfold sched_addprioritized. case_match; [done|]. destruct (prio_search _ _ _ _) as [n|]; [|done].
  cbn [mbind option_bind]. pose proof (prio_link_data x n (qs st k) (tcbs st)) as [Hd _].
  destruct (prio_link _ _ _ _) as [[r q] ts]. intros [= _ <-]. by apply same_data_core.
Qed.

Lemma addready_core x st b st' : sched_addreadytorun x st = Some (b, st') → same_core (tcbs st) (tcbs st').
Proof.
  unfold sched_addreadytorun. case_test.
  - destruct (sched_addprioritized x g_pendingtasks st) as [[r st1]|] eqn:E; [|done]. intros [= _ <-].
    etransitivity; [by eapply addprioritized_core|]. by apply same_core_upd.
  - destruct (sched_addprioritized x g_readytorun st) as [[r st1]|] eqn:E; [|done].
    apply addprioritized_core in E. cbn [mbind option_bind]. destruct r.
    + case_match; [done|]. intros [= _ <-]. etransitivity; [exact E|].
      etransitivity; [by apply (same_core_upd x (with_state TSTATE_TASK_RUNNING))|]. by apply same_core_upd.
    + intros [= _ <-]. etransitivity; [exact E|]. by apply same_core_upd.
Qed.

Lemma removeready_core x st b st' : sched_removereadytorun x st = Some (b, st') → same_core (tcbs st) (tcbs st').
Proof.
  unfold sched_removereadytorun.
  assert (H : ∀ st1, same_core (tcbs st) (tcbs st1) →
    same_core (tcbs st) (tcbs (on_tcb x (with_state TSTATE_TASK_INVALID) (on_list g_readytorun (dq_rem x) st1)))).
  { intros st1 H1. etransitivity; [exact H1|]. unfold on_list.
    pose proof (dq_rem_data x (qs st1 g_readytorun) (tcbs st1)) as [Hd _].
    destruct (dq_rem x _ _) as [q ts]. etransitivity; [by apply same_data_core|]. by apply same_core_upd. }
  destruct (t_blink (get st x) =? 0).
  - destruct (t_flink (get st x) =? 0); [done|]. intros [= _ <-]. apply H. by apply same_core_upd.
  - intros [= _ <-]. by apply H.
Qed.

Lemma reprioritize_core x p st st' : up_reprioritize_rtr x p st = Some st' → same_core (tcbs st) (tcbs st').
Proof.
  unfold up_reprioritize_rtr. case_match; [done|].
  destruct (sched_removereadytorun x st) as [[r1 st1]|] eqn:E1; [|done]. cbn [mbind option_bind].
  destruct (sched_addreadytorun x (on_tcb x (with_priority p) st1)) as [[r2 st2]|] eqn:E2; [|done]. cbn [mbind option_bind].
  assert (H2 : same_core (tcbs st) (tcbs st2)).
  { etransitivity; [by eapply removeready_core|]. etransitivity; [|by eapply addready_core].
    by apply same_core_upd. }
  case_match; [|by intros [= <-]]. case_match; [|by intros [= <-]]. unfold sched_mergepending.
  destruct (mergepending_loop _ _ _ _ _ _) as [[b st3]|] eqn:E3; [|done]. cbn [mbind option_bind].
  intros [= <-]. etransitivity; [exact H2|]. apply same_lockless_core. by apply mergepending_lockless in E3.
Qed.

Lemma timeslice_core st st' : sched_process_timeslice st = Some st' → same_core (tcbs st) (tcbs st').
Proof.
  unfold sched_process_timeslice. set (me := this_task st).
  case_match; [|by intros [= <-]]. case_match; [|intros [= <-]; by apply same_core_upd].
  case_match; [|by intros [= <-]]. case_match; [|intros [= <-]; by apply same_core_upd].
  intros E%reprioritize_core. etransitivity; [|exact E]. by apply same_core_upd.
Qed.
Lemma mergepending_core st b st' : sched_mergepending st = Some (b, st') → same_core (tcbs st) (tcbs st').
Proof.
  unfold sched_mergepending. destruct (mergepending_loop _ _ _ _ _ _) as [[r st1]|] eqn:E; [|done].
  intros [= _ <-]. apply same_lockless_core. by apply mergepending_lockless in E.
Qed.

Lemma addblocked_core x s st st' : sched_addblocked x s st = Some st' → same_core (tcbs st) (tcbs st').
Proof.
  unfold sched_addblocked. case_match; [done|]. destruct (list_of s) as [k|]; [|done]. cbn [mbind option_bind].
  destruct (prioritized s).
  - destruct (sched_addprioritized x k st) as [[r st1]|] eqn:E; [|done]. intros [= <-].
    etransitivity; [by eapply addprioritized_core|]. by apply same_core_upd.
  - intros [= <-]. unfold on_list. pose proof (dq_addlast_data x (qs st k) (tcbs st)) as [Hd _].
    destruct (dq_addlast x _ _) as [q ts]. etransitivity; [by apply same_data_core|]. by apply same_core_upd.
Qed.

Lemma block_core x s st st' : up_block_task x s st = Some st' → same_core (tcbs st) (tcbs st').
Proof.
  unfold up_block_task. case_match; [done|].
  destruct (sched_removereadytorun x st) as [[r1 st1]|] eqn:E1; [|done]. cbn [mbind option_bind].
  destruct (sched_addblocked x s st1) as [st2|] eqn:E2; [|done]. cbn [mbind option_bind].
  assert (H2 : same_core (tcbs st) (tcbs st2)).
  { etransitivity; [by eapply removeready_core|by eapply addblocked_core]. }
  assert (Hsw : ∀ (b : bool) t, tcbs (if b then up_switch t else t) = tcbs t) by by intros [].
  case_match.
  - destruct (sched_mergepending st2) as [[r3 st3]|] eqn:E3; [|done]. intros [= <-]. rewrite Hsw.
    etransitivity; [done|by eapply mergepending_core].
  - intros [= <-]. by rewrite Hsw.
Qed.

Lemma unblock_core x st st' : up_unblock_task x st = Some st' → same_core (tcbs st) (tcbs st').
Proof.
  unfold up_unblock_task, sched_removeblocked. case_match; [done|].
  destruct (list_of _) as [k|]; [|done]. cbn [mbind option_bind]. unfold on_list.
  pose proof (dq_rem_data x (qs st k) (tcbs st)) as [Hd _]. destruct (dq_rem x _ _) as [q ts].
  destruct (sched_addreadytorun x _) as [[r st2]|] eqn:E2; [|done]. intros [= <-].
  assert (Hsw : ∀ (b : bool) t, tcbs (if b then up_switch t else t) = tcbs t) by by intros [].
  rewrite Hsw. etransitivity; [by apply same_data_core|]. etransitivity; [|by eapply addready_core].
  etransitivity; [by apply (same_core_upd x (with_state TSTATE_TASK_INVALID))|]. by apply same_core_upd.
Qed.
End LockFields.
