(* ===== verification/SchedSpec.v ===== *)
(** What the scheduler promises: every legal sequence of kernel events keeps the
    invariant and never panics, the running task is the head of the ready list
    and of the highest priority, wake-ups and time slices are fair among equals,
    and disabling pre-emption keeps the running task on the processor. *)

From stdpp Require Import base numbers functions gmap sorting list.
From S2P Require Import Prelude Queue Sched SchedInv SchedThms.

(** The events that move tasks between lists. *)
Inductive sched_op :=
  | OpBlock (tcb : Z) (s : tstate)
  | OpUnblock (tcb : Z)
  | OpLock (irq : bool)
  | OpUnlock (irq : bool)
  | OpSetPriority (tcb p : Z)
  | OpTimeslice.

Definition sched_exec (op : sched_op) (st : sched) : option sched :=
  match op with
  | OpBlock tcb s => up_block_task tcb s st
  | OpUnblock tcb => up_unblock_task tcb st
  | OpLock irq => sched_lock irq st
  | OpUnlock irq => sched_unlock irq st
  | OpSetPriority tcb p => '(_, st) ← sched_setpriority tcb p st; Some st
  | OpTimeslice => sched_process_timeslice st
  end.

(** The callers' obligations: the idle task never blocks, never changes its
    priority and has no time slice; a task is unblocked only when it is blocked;
    locks do not nest deeper than the counter allows. *)
Definition sched_legal (idle : Z) (op : sched_op) (st : sched) : Prop :=
  match op with
  | OpBlock tcb s =>
      ready_to_run_state (tstate_of (tcbs st) tcb) = true ∧ tcb ≠ idle ∧ blocked_state s = true
  | OpUnblock tcb => blocked_state (tstate_of (tcbs st) tcb) = true
  | OpLock _ => locks (tcbs st) (this_task st) < MAX_LOCK_COUNT
  | OpUnlock _ => True
  | OpSetPriority tcb _ => tcb ≠ idle ∧ tstate_of (tcbs st) tcb ≠ TSTATE_TASK_INVALID
  | OpTimeslice => Z.land (flags (get st idle)) TCB_FLAG_ROUND_ROBIN = 0
  end.

Definition sched_step (idle : Z) (st st' : sched) : Prop :=
  ∃ op, sched_legal idle op st ∧ sched_exec op st = Some st'.

Lemma sched_exec_inv st L idle op :
  sched_inv st L idle → sched_legal idle op st →
  ∃ st' L', sched_exec op st = Some st' ∧ sched_inv st' L' idle.
Proof.
  intros Hi Hop. pose proof Hi as (Hw & _). destruct op as [x s|x|irq|irq|x p|]; cbn [sched_legal sched_exec] in *.
  - destruct Hop as (Hs & Hx & Hb). assert (Hin : x ∈ L g_readytorun).
    { apply (sw_member _ _ _ Hw). by destruct (tstate_of (tcbs st) x). }
    destruct (list_of s) as [k|] eqn:Ek; [|by destruct s].
    destruct (block_abs st L idle x s k Hi Hin Hx Hb Ek) as (st' & E & Hi' & _). eauto.
  - destruct (list_of (tstate_of (tcbs st) x)) as [k|] eqn:Ek; [|by destruct (tstate_of (tcbs st) x)].
    apply (sw_member _ _ _ Hw) in Ek.
    destruct (unblock_abs st L idle x k Hi Ek Hop) as (st' & E & Hi' & _). eauto.
  - destruct (sched_lock_abs st L idle irq Hi Hop) as (st' & E & Hi' & _). eauto.
  - destruct (sched_unlock_abs st L idle irq Hi) as (st' & L' & E & Hi' & _). eauto.
  - destruct Hop as [Hx Hs].
    destruct (decide (1 ≤ p ≤ 255)) as [Hp|Hp].
    + destruct (list_of (tstate_of (tcbs st) x)) as [k|] eqn:Ek; [|by destruct (tstate_of (tcbs st) x)].
      apply (sw_member _ _ _ Hw) in Ek.
      destruct (setpriority_abs st L idle x k p Hi Ek Hx Hp) as (st' & L' & -> & Hi' & _). eauto.
    + exists st, L. split; [|done]. unfold sched_setpriority, SCHED_PRIORITY_MIN, SCHED_PRIORITY_MAX.
      destruct (Z.ltb_spec p 1); [done|]. by rewrite (proj2 (Z.ltb_lt 255 p)) by lia.
  - destruct (timeslice_abs st L idle Hi Hop) as (st' & L' & E & Hi' & _). eauto.
Qed.

(** The running task heads the ready list and no ready task has a higher priority. *)
Lemma running_highest st L idle x : sched_inv st L idle →
  ready_to_run_state (tstate_of (tcbs st) x) = true →
  prio (tcbs st) x ≤ prio (tcbs st) (g_running st) ∧
  (tstate_of (tcbs st) x = TSTATE_TASK_RUNNING ↔ x = g_running st).
Proof.
  intros (Hw & _ & Hr) Hs. pose proof (wf_head _ _ _ Hw) as Hh. rewrite <-Hr in Hh.
  assert (Hin : x ∈ L g_readytorun).
  { apply (sw_member _ _ _ Hw). by destruct (tstate_of (tcbs st) x). }
  pose proof (sw_sorted _ _ _ Hw g_readytorun eq_refl) as Hso. unfold prio_sorted in Hso.
  destruct (L g_readytorun) as [|r R] eqn:ER; [done|]. injection Hh as Hh. split.
  - apply StronglySorted_inv in Hso as [_ Hf]. rewrite Forall_forall in Hf. rewrite <-Hh.
    apply elem_of_cons in Hin as [->|Hin]; [done|]. by apply Hf.
  - pose proof (sw_run _ _ _ Hw x) as Hrun. rewrite ER in Hrun. rewrite (Hrun Hin). cbn [head].
    rewrite <-Hh. destruct (decide (Some r = Some x)) as [[= ->]|]; [done|]. split; [done|congruence].
Qed.

(** C2. In every state reachable by blocking, unblocking, locking, unlocking, changing priorities
    and timer ticks, the scheduler's invariant holds, every legal operation returns (no loop runs
    out, no assertion fails), and the running task is the only one in the running state and has the
    highest priority of all tasks that are ready to run. *)
Theorem sched_reachable_safe st L idle st' :
  sched_inv st L idle → rtc (sched_step idle) st st' →
  (∃ L', sched_inv st' L' idle) ∧
  (∀ op, sched_legal idle op st' → is_Some (sched_exec op st')) ∧
  (∀ x, ready_to_run_state (tstate_of (tcbs st') x) = true →
     prio (tcbs st') x ≤ prio (tcbs st') (g_running st') ∧
     (tstate_of (tcbs st') x = TSTATE_TASK_RUNNING ↔ x = g_running st')).
Proof.
  intros Hi Hstep. assert (∃ L', sched_inv st' L' idle) as [L' Hi'].
  { revert L Hi. induction Hstep as [st|st st1 st' (op & Hop & E) _ IH]; intros L Hi; [eauto|].
    destruct (sched_exec_inv st L idle op Hi Hop) as (st2 & L2 & E2 & Hi2).
    rewrite E in E2. injection E2 as <-. eauto. }
  split_and!; [eauto| |].
  - intros op Hop. destruct (sched_exec_inv st' L' idle op Hi' Hop) as (st2 & _ & E & _). eauto.
  - intros x. by apply (running_highest st' L' idle).
Qed.

(** Blocking a task removes it from the ready-to-run list, puts it in the list of its new state
    (by priority, first come first served, or at the end of a list without priorities), merges the
    pending tasks into the ready list by priority and runs the first task of the result; the other
    lists stay the same. *)
Theorem up_block_task_correct st L idle x s k :
  sched_inv st L idle → x ∈ L g_readytorun → x ≠ idle →
  blocked_state s = true → list_of s = Some k →
  let pr := prio (tcbs st) in
  let R := pmerge pr (L g_pendingtasks) (remove_first x (L g_readytorun)) in
  let W := if prioritized s then pinsert pr x (L k) else L k ++ [x] in
  ∃ st' L', up_block_task x s st = Some st' ∧ sched_inv st' L' idle ∧
    L' g_readytorun = R ∧ L' k = W ∧ L' g_pendingtasks = [] ∧
    Some (g_running st') = head R ∧ tstate_of (tcbs st') x = s ∧
    (∀ k', k' ≠ g_readytorun → k' ≠ g_pendingtasks → k' ≠ k → L' k' = L k').
Proof.
  intros Hi Hx Hxi Hb Hs pr R W.
  destruct (block_abs st L idle x s k Hi Hx Hxi Hb Hs) as (st' & E & Hi' & _).
  assert (Hk : k ≠ g_readytorun ∧ k ≠ g_pendingtasks) by (split; intros ->; destruct s; done).
  eexists st', _. split; [exact E|]. split; [exact Hi'|].
  assert (ER : ∀ (L0 : tasklist → list Z), <[g_pendingtasks := []]> (<[g_readytorun := R]> L0) g_readytorun = R) by done.
  split_and!.
  - by rewrite fn_insert_ne, !fn_insert_eq by done.
  - rewrite !fn_insert_ne by (symmetry; apply Hk). by rewrite fn_insert_eq.
  - by rewrite fn_insert_eq.
  - destruct Hi' as (Hw' & _ & Hr'). rewrite Hr', <-(wf_head _ _ _ Hw').
    by rewrite fn_insert_ne, !fn_insert_eq by done.
  - destruct Hi' as (Hw' & _). assert (Hin : x ∈ (<[g_pendingtasks := []]> (<[g_readytorun := R]>
      (<[k := W]> (<[g_readytorun := remove_first x (L g_readytorun)]> L)))) k).
    { rewrite !fn_insert_ne by (symmetry; apply Hk). rewrite fn_insert_eq. unfold W.
      destruct (prioritized s); [apply elem_of_pinsert; by left|]. apply elem_of_app. right. constructor. }
    apply (sw_state _ _ _ Hw') in Hin. destruct s, (tstate_of (tcbs st') x); simplify_eq/=; done.
  - intros k' H1 H2 H3. by rewrite !fn_insert_ne by done.
Qed.

(** C36. Unblocking a task takes it off its wait list and makes it ready behind the tasks of the
    same or a higher priority; it runs at once exactly when its priority is higher than that of the
    running task, and while the running task holds the scheduler lock it is kept in the pending list
    instead. *)
Theorem up_unblock_task_correct st L idle x k :
  sched_inv st L idle → x ∈ L k → blocked_state (tstate_of (tcbs st) x) = true →
  let pr := prio (tcbs st) in
  let me := g_running st in
  ∃ st' L', up_unblock_task x st = Some st' ∧ sched_inv st' L' idle ∧
    L' k = remove_first x (L k) ∧
    (if (0 <? locks (tcbs st) me) && (pr me <? pr x) then
       L' g_pendingtasks = pinsert pr x (L g_pendingtasks) ∧ L' g_readytorun = L g_readytorun ∧
       g_running st' = me
     else
       L' g_pendingtasks = L g_pendingtasks ∧ L' g_readytorun = pinsert pr x (L g_readytorun) ∧
       g_running st' = if pr me <? pr x then x else me).
Proof.
  intros Hi Hx Hb pr me. destruct (unblock_abs st L idle x k Hi Hx Hb) as (st' & E & Hi' & _).
  pose proof Hi as (Hw & _ & Hr). pose proof Hi' as (Hw' & _ & Hr').
  pose proof (sw_locks _ _ _ Hw me) as Hlk.
  assert (Hkr : k ≠ g_readytorun ∧ k ≠ g_pendingtasks).
  { pose proof (sw_state _ _ _ Hw _ _ Hx) as Hs. split; intros ->; destruct (tstate_of (tcbs st) x); done. }
  assert (Hheld : held_back st x = (0 <? locks (tcbs st) me) && (pr me <? pr x)).
  { unfold held_back, me in *. rewrite Hr in *. unfold pr. f_equal.
    destruct (Z.eqb_spec (locks (tcbs st) (this_task st)) 0), (Z.ltb_spec 0 (locks (tcbs st) (this_task st))); simpl; lia. }
  eexists st', _. split; [exact E|]. split; [exact Hi'|].
  pose proof (wf_head _ _ _ Hw') as Hh'. pose proof (wf_head _ _ _ Hw) as Hh.
  destruct Hkr as [Hkr Hkp]. rewrite <-Hheld. unfold add_ready in *.
  destruct (held_back st x) eqn:Eh; split_and!.
  - rewrite fn_insert_ne by done. by rewrite fn_insert_eq.
  - rewrite fn_insert_eq. by rewrite fn_insert_ne.
  - by rewrite !fn_insert_ne.
  - unfold me. rewrite Hr', Hr. rewrite !fn_insert_ne in Hh' by done. congruence.
  - rewrite fn_insert_ne by done. by rewrite fn_insert_eq.
  - by rewrite !fn_insert_ne.
  - rewrite fn_insert_eq. by rewrite fn_insert_ne.
  - unfold me. rewrite Hr', Hr. rewrite fn_insert_eq, fn_insert_ne, pinsert_head, Hh in Hh' by done.
    unfold pr. destruct (Z.leb_spec (prio (tcbs st) x) (prio (tcbs st) (this_task st))).
    + rewrite (proj2 (Z.ltb_ge _ _)) by done. congruence.
    + rewrite (proj2 (Z.ltb_lt _ _)) by done. congruence.
Qed.

(** sched_unlock loses no task, and when it drops the last lock it empties the pending list
    into the ready list and leaves a running task with the highest priority of all of them. *)
Theorem sched_unlock_correct st L idle :
  sched_inv st L idle →
  ∃ st' L', sched_unlock false st = Some st' ∧ sched_inv st' L' idle ∧ conserved L L' ∧
    (locks (tcbs st) (g_running st) ≤ 1 → L' g_pendingtasks = [] ∧
       ∀ y, y ∈ L g_readytorun ∨ y ∈ L g_pendingtasks →
         prio (tcbs st') y ≤ prio (tcbs st') (g_running st')).
Proof.
  intros Hi. pose proof Hi as (Hw & _ & Hr).
  destruct (sched_unlock_abs st L idle false Hi) as (st' & L' & E & Hi' & Hc & Hp & Hpe).
  exists st', L'. split_and!; [done|done|done|]. intros Hle. rewrite Hr in Hle.
  specialize (Hpe eq_refl Hle). split; [done|]. intros y Hy.
  apply (running_highest st' L' idle); [done|]. destruct Hi' as (Hw' & _).
  destruct Hc as [Hc _]. apply Hc in Hy as [Hy|Hy].
  - by apply (ready_state _ _ _ _ Hw').
  - rewrite Hpe in Hy. by apply not_elem_of_nil in Hy.
Qed.

(** When the time slice of a round-robin task runs out and another task of the same priority is
    ready, the tick puts the task behind all ready tasks of its priority and switches to the next
    one. *)
Theorem sched_process_timeslice_rotates st L idle x n R :
  sched_inv st L idle → L g_readytorun = x :: n :: R → x ≠ idle →
  Z.land (flags (get st x)) TCB_FLAG_ROUND_ROBIN ≠ 0 → timeslice (get st x) ≤ 1 →
  locks (tcbs st) x = 0 → prio (tcbs st) n = prio (tcbs st) x →
  ∃ st' L', sched_process_timeslice st = Some st' ∧ sched_inv st' L' idle ∧
    L' g_readytorun = n :: pinsert (prio (tcbs st)) x R ∧ g_running st' = n.
Proof.
  intros Hi ER Hxi Hfl Hts Hlk Hpn. pose proof Hi as (Hw & Hl & Hr).
  pose proof (wf_head _ _ _ Hw) as Hh. rewrite ER in Hh. injection Hh as Hth.
  destruct (ready_links st L idle [] x (n :: R) Hw ER) as [Efl _].
  unfold sched_process_timeslice. rewrite <-Hth.
  rewrite (proj2 (Z.eqb_neq _ 0)) by done. rewrite (proj2 (Z.leb_le _ _)) by done. cbn [negb].
  change (lockcount (get st x)) with (locks (tcbs st) x). rewrite Hlk. cbn [Z.eqb].
  set (st1 := on_tcb x (with_timeslice (CONFIG_RR_INTERVAL / MSEC_PER_TICK)) st).
  assert (Hget : ∀ {A} (f : tcb → A) y, (∀ t v, f (with_timeslice v t) = f t) → f (get st1 y) = f (get st y)).
  { intros A f y Hf. unfold get. cbn. rewrite tcb_at_upd. destruct (decide (y = x)) as [->|]; [apply Hf|done]. }
  rewrite !Hget by done. rewrite Efl. change (default 0 (head (n :: R))) with n.
  assert (Hn0 : n ≠ 0) by (eapply (wf_nonzero _ _ _ g_readytorun); [exact Hw|]; rewrite ER; in_list).
  rewrite (proj2 (Z.eqb_neq n 0)) by done.
  change (sched_priority (get st x)) with (prio (tcbs st) x).
  change (sched_priority (get st n)) with (prio (tcbs st) n).
  rewrite (proj2 (Z.leb_le (prio (tcbs st) x) _)) by lia. cbn [negb andb].
  assert (Hp1 : ∀ y, prio (tcbs st1) y = prio (tcbs st) y) by (intros y; by apply (Hget _ sched_priority)).
  destruct (rotate_abs st1 L idle x n R) as (st' & L' & E & Hi' & EL' & Hr'); try done.
  - split_and!; [apply wf_on_tcb; [done|done|by right|done]| |done].
    intros Hne. unfold st1. rewrite locks_on_tcb by done. by apply Hl.
  - unfold st1. by rewrite locks_on_tcb.
  - by rewrite !Hp1.
  - rewrite Hp1 in E. exists st', L'. split_and!; [done|done| |done].
    rewrite EL'. f_equal. apply pinsert_ext. auto.
Qed.

(** sched_setpriority refuses priorities outside 1..255 with EINVAL and no effect; otherwise it
    gives the task its priority, keeps every task's priority list sorted and loses no task. *)
Theorem sched_setpriority_correct st L idle x k p :
  sched_inv st L idle → x ∈ L k → x ≠ idle →
  ∃ r st' L', sched_setpriority x p st = Some (r, st') ∧ sched_inv st' L' idle ∧ kept L L' ∧
    (if (1 <=? p) && (p <=? 255)
     then r = OK ∧ ∀ y, prio (tcbs st') y = if decide (y = x) then p else prio (tcbs st) y
     else r = ERROR EINVAL ∧ st' = st).
Proof.
  intros Hi Hx Hxi. destruct (decide (1 ≤ p ≤ 255)) as [Hp|Hp].
  - destruct (setpriority_abs st L idle x k p Hi Hx Hxi Hp) as (st' & L' & E & Hi' & Hk & Hpr).
    exists OK, st', L'. split_and!; [done|done|done|].
    rewrite (proj2 (Z.leb_le 1 p)), (proj2 (Z.leb_le p 255)) by lia. done.
  - exists (ERROR EINVAL), st, L. split_and!; [|done|apply kept_refl|].
    + unfold sched_setpriority, SCHED_PRIORITY_MIN, SCHED_PRIORITY_MAX.
      destruct (Z.ltb_spec p 1); [done|]. by rewrite (proj2 (Z.ltb_lt 255 p)) by lia.
    + destruct (Z.leb_spec 1 p); [|done]. by rewrite (proj2 (Z.leb_gt p 255)) by lia.
Qed.

(** A concrete system on which the hypotheses of the scheduler's theorems hold:
    the idle task, two round-robin tasks of priority 100 that are ready, and a
    task of priority 120 that waits for a semaphore. *)

Definition idle0 : Z := 0x100.
Definition taskA : Z := 0x200.
Definition taskB : Z := 0x300.
Definition taskC : Z := 0x400.

Definition sched0 : sched :=
  mk_sched
    {[ idle0 := mk_tcb 0 taskB 0 TSTATE_TASK_READYTORUN 0 0 0 0 0 0;
       taskA := mk_tcb taskB 0 100 TSTATE_TASK_RUNNING 16 0 1 0 0 0;
       taskB := mk_tcb idle0 taskA 100 TSTATE_TASK_READYTORUN 16 0 20 0 0 0;
       taskC := mk_tcb 0 0 120 TSTATE_WAIT_SEM 16 0 20 0x50 0 0 ]}
    (λ k, match k with
          | g_readytorun => mk_queue taskA idle0
          | g_waitingforsemaphore => mk_queue taskC taskC
          | _ => mk_queue 0 0
          end)
    taskA.

Definition lists0 : tasklist → list Z := λ k,
  match k with
  | g_readytorun => [taskA; taskB; idle0]
  | g_waitingforsemaphore => [taskC]
  | _ => []
  end.

(** Every address is one of the four tasks or holds no control block. *)
Lemma sched0_tcb x : x ∈ [idle0; taskA; taskB; taskC] ∨ tcb_at (tcbs sched0) x = tcb0.
Proof.
  destruct (decide (x ∈ [idle0; taskA; taskB; taskC])) as [|Hn]; [by left|right].
  rewrite !not_elem_of_cons in Hn. unfold tcb_at, sched0, tstore. cbn [tcbs].
  rewrite !lookup_insert_ne by (intros <-; tauto). by rewrite lookup_singleton_ne by (intros <-; tauto).
Qed.

Lemma sched0_inv : sched_inv sched0 lists0 idle0.
Proof.
  split_and!; [split|by intros []|done].
  - split.
    + intros k. destruct k; (split_and!; [split|..]); cbn [lists0]; try done;
        repeat (constructor || (apply not_elem_of_cons; split; [done|]) || apply not_elem_of_nil || done).
    + intros k1 k2 x. destruct k1, k2; cbn [lists0]; try done;
        rewrite ?elem_of_cons, ?elem_of_nil; unfold idle0, taskA, taskB, taskC; intros; lia.
    + intros k x Hx. assert (x ∈ [idle0; taskA; taskB; taskC]) as Hin.
      { destruct k; cbn [lists0] in Hx; rewrite ?elem_of_cons, ?elem_of_nil in *; tauto. }
      rewrite !elem_of_cons, elem_of_nil in Hin. unfold sched0, tstore. cbn [tcbs].
      rewrite !dom_insert_L, dom_singleton_L. set_solver.
  - intros k x Hx. destruct k; cbn [lists0] in Hx; rewrite ?elem_of_cons, ?elem_of_nil in Hx;
      try done; destruct_or?; subst; done.
  - intros x k. destruct (sched0_tcb x) as [Hx|Hx].
    + rewrite !elem_of_cons, elem_of_nil in Hx. destruct Hx as [->|[->|[->|[->|[]]]]];
        intros [= <-]; apply (bool_decide_unpack (_ ∈ _)); by vm_compute.
    + unfold tstate_of. by rewrite Hx.
  - intros x Hx. cbn [lists0] in *. rewrite !elem_of_cons, elem_of_nil in Hx.
    destruct Hx as [->|[->|[->|[]]]]; done.
  - intros k _. destruct k; repeat constructor; done.
  - done.
  - intros k x Hx Hi. destruct k; cbn [lists0] in Hx; rewrite ?elem_of_cons, ?elem_of_nil in Hx;
      try done; destruct_or?; subst; done.
  - intros x. destruct (sched0_tcb x) as [Hx|Hx]; unfold locks.
    + rewrite !elem_of_cons, elem_of_nil in Hx. by destruct Hx as [->|[->|[->|[->|[]]]]].
    + by rewrite Hx.
Qed.

Lemma sched_reachable_safe_witness : ∃ st', rtc (sched_step idle0) sched0 st' ∧
  g_running st' = taskC ∧ (∃ L', sched_inv st' L' idle0).
Proof.
  assert (E : ∃ st', sched_exec (OpUnblock taskC) sched0 = Some st' ∧ g_running st' = taskC).
  { eexists. split; vm_compute; reflexivity. }
  destruct E as (st' & E & Hr). assert (Hs : rtc (sched_step idle0) sched0 st').
  { eapply rtc_once. exists (OpUnblock taskC). split; [reflexivity|exact E]. }
  exists st'. split; [exact Hs|]. split; [exact Hr|].
  apply (sched_reachable_safe sched0 lists0 idle0 st' sched0_inv Hs).
Defined.

Lemma up_block_task_correct_witness : ∃ st' L',
  up_block_task taskA TSTATE_WAIT_SEM sched0 = Some st' ∧ sched_inv st' L' idle0 ∧
  L' g_readytorun = [taskB; idle0] ∧ L' g_waitingforsemaphore = [taskC; taskA].
Proof.
  destruct (up_block_task_correct sched0 lists0 idle0 taskA TSTATE_WAIT_SEM g_waitingforsemaphore sched0_inv)
    as (st' & L' & E & Hi & ER & EW & _); [constructor|done|reflexivity|reflexivity|].
  exists st', L'. split_and!; [exact E|exact Hi|exact ER|exact EW].
Defined.

Lemma up_unblock_task_correct_witness : ∃ st' L',
  up_unblock_task taskC sched0 = Some st' ∧ sched_inv st' L' idle0 ∧
  L' g_readytorun = [taskC; taskA; taskB; idle0] ∧ g_running st' = taskC.
Proof.
  destruct (up_unblock_task_correct sched0 lists0 idle0 taskC g_waitingforsemaphore sched0_inv)
    as (st' & L' & E & Hi & _ & _ & ER & Er); [constructor|reflexivity|].
  exists st', L'. split_and!; [exact E|exact Hi|exact ER|exact Er].
Defined.

Lemma sched_unlock_correct_witness : ∃ st' L',
  sched_unlock false sched0 = Some st' ∧ sched_inv st' L' idle0 ∧ L' g_pendingtasks = [].
Proof.
  destruct (sched_unlock_correct sched0 lists0 idle0 sched0_inv) as (st' & L' & E & Hi & _ & Hp).
  exists st', L'. split_and!; [exact E|exact Hi|]. apply Hp. by vm_compute.
Defined.

Lemma sched_process_timeslice_rotates_witness : ∃ st' L',
  sched_process_timeslice sched0 = Some st' ∧ sched_inv st' L' idle0 ∧
  L' g_readytorun = [taskB; taskA; idle0] ∧ g_running st' = taskB.
Proof.
  apply (sched_process_timeslice_rotates sched0 lists0 idle0 taskA taskB [idle0] sched0_inv);
    [reflexivity|done|by vm_compute|by vm_compute|reflexivity|reflexivity].
Defined.

Lemma sched_setpriority_correct_witness : ∃ r st' L',
  sched_setpriority taskC 50 sched0 = Some (r, st') ∧ sched_inv st' L' idle0 ∧ kept lists0 L' ∧
  r = OK ∧ ∀ y, prio (tcbs st') y = if decide (y = taskC) then 50 else prio (tcbs sched0) y.
Proof.
  apply (sched_setpriority_correct sched0 lists0 idle0 taskC g_waitingforsemaphore 50 sched0_inv);
    [constructor|done].
Defined.

(** Finding: A task that holds the scheduler lock loses the processor to another task when it lowers its
    own priority. *)
Theorem setpriority_ignores_lock :
  match sched_lock false sched0 with
  | Some st =>
      match sched_setpriority taskA 50 st with
      | Some (_, st') => g_running st = taskA ∧ 0 < locks (tcbs st) taskA ∧ g_running st' = taskB
      | None => False
      end
  | None => False
  end.
Proof. vm_compute. split_and!; reflexivity. Qed.
