(* ===== verification/Sem.v ===== *)
(** Counting semaphores: sched/sem_wait.c, sem_trywait.c, sem_post.c,
    sem_waitirq.c, sem_destroy.c and lib/semaphore/sem_init.c, sem_getvalue.c,
    without CONFIG_PRIORITY_INHERITANCE (where the holder functions are empty
    macros) and without CONFIG_DEBUG (where DEBUGASSERT is empty).

    A [sem_t] is its count, an [int16_t] at an address.  [sem_wait] either
    returns or leaves its caller in [g_waitingforsemaphore]; what it does when
    the caller runs again is [sem_wait_resume]. *)

From stdpp Require Import base numbers functions gmap sorting list.
From S2P Require Import Prelude Queue Sched.

Definition SEM_VALUE_MAX : Z := 0x7fff.
Definition EINTR : Z := 4.
Definition EAGAIN : Z := 11.
Definition ETIMEDOUT : Z := 110.

(** Signed 16-bit wrap-around. *)
Definition i16 (z : Z) : Z := (z + 2 ^ 15) mod 2 ^ 16 - 2 ^ 15.

Record semst := mk_semst { sch : sched; sems : gmap Z Z }.

Definition semcount (st : semst) (sem : Z) : Z := default 0 (sems st !! sem).
Definition set_semcount (sem v : Z) (st : semst) : semst :=
  mk_semst (sch st) (<[sem := i16 v]> (sems st)).
Definition with_sched (st : semst) (s : sched) : semst := mk_semst s (sems st).
Definition sem_tcb (a : Z) (f : tcb → tcb) (st : semst) : semst := with_sched st (on_tcb a f (sch st)).

(** [errno = v] outside interrupt handlers. *)
Definition set_errno (v : Z) (st : semst) : semst := sem_tcb (this_task (sch st)) (with_errno v) st.

(** What a call returns: OK, ERROR, or nothing yet. *)
Inductive sem_ret := SemOK | SemERROR | SemBlocked.

(** ** lib/semaphore *)

Definition sem_init (sem value : Z) (st : semst) : sem_ret * semst :=
  if negb (sem =? 0) && (value <=? SEM_VALUE_MAX) then (SemOK, set_semcount sem value st)
  else (SemERROR, set_errno EINVAL st).

(** The value read, when [sval] is not null. *)
Definition sem_getvalue (sem sval : Z) (st : semst) : sem_ret * option Z * semst :=
  if negb (sem =? 0) && negb (sval =? 0) then (SemOK, Some (semcount st sem), st)
  else (SemERROR, None, set_errno EINVAL st).

(** ** sem_wait.c *)

Definition sem_wait (sem : Z) (st : semst) : option (sem_ret * semst) :=
  let rtcb := this_task (sch st) in
  let st := set_errno EINVAL st in
  if sem =? 0 then Some (SemERROR, st) else
  if 0 <? semcount st sem then
    let st := set_semcount sem (semcount st sem - 1) st in
    Some (SemOK, sem_tcb rtcb (with_waitsem 0) st)
  else
    if negb (waitsem (get (sch st) rtcb) =? 0) then None else
    let st := set_semcount sem (semcount st sem - 1) st in
    let st := sem_tcb rtcb (with_waitsem sem) st in
    let st := set_errno 0 st in
    s ← up_block_task rtcb TSTATE_WAIT_SEM (sch st);
    Some (SemBlocked, with_sched st s).

(** The rest of [sem_wait], when its caller [rtcb] runs again. *)
Definition sem_wait_resume (rtcb : Z) (st : semst) : sem_ret :=
  let err := pterrno (get (sch st) rtcb) in
  if negb (err =? EINTR) && negb (err =? ETIMEDOUT) then SemOK else SemERROR.

(** ** sem_trywait.c *)

Definition sem_trywait (sem : Z) (st : semst) : sem_ret * semst :=
  let rtcb := this_task (sch st) in
  let st := set_errno EINVAL st in
  if sem =? 0 then (SemERROR, st) else
  let st := set_errno EAGAIN st in
  if 0 <? semcount st sem then
    let st := set_semcount sem (semcount st sem - 1) st in
    (SemOK, sem_tcb rtcb (with_waitsem 0) st)
  else (SemERROR, st).

(** ** sem_post.c *)

(** [for (stcb = head; stcb && stcb->field != key; stcb = stcb->flink);], where
    the field is [waitsem] here and [msgwaitq] for message queues. *)
Fixpoint waiter_search (field : tcb → Z) (fuel : nat) (ts : tstore) (key stcb : Z) : option Z :=
  if negb (stcb =? 0) && negb (field (tcb_at ts stcb) =? key) then
    match fuel with
    | O => None
    | S fuel => waiter_search field fuel ts key (t_flink (tcb_at ts stcb))
    end
  else Some stcb.

Definition sem_post (sem : Z) (st : semst) : option (sem_ret * semst) :=
  if sem =? 0 then Some (SemERROR, st) else
  if negb (semcount st sem <? SEM_VALUE_MAX) then None else
  let st := set_semcount sem (semcount st sem + 1) st in
  if semcount st sem <=? 0 then
    stcb ← waiter_search waitsem (sched_fuel (sch st)) (tcbs (sch st)) sem
             (q_head (qs (sch st) g_waitingforsemaphore));
    if negb (stcb =? 0) then
      let st := sem_tcb stcb (with_waitsem 0) st in
      s ← up_unblock_task stcb (sch st);
      Some (SemOK, with_sched st s)
    else Some (SemOK, st)
  else Some (SemOK, st).

(** ** sem_waitirq.c *)

Definition sem_waitirq (wtcb errcode : Z) (st : semst) : option semst :=
  match task_state (get (sch st) wtcb) with
  | TSTATE_WAIT_SEM =>
      let sem := waitsem (get (sch st) wtcb) in
      let st := set_semcount sem (semcount st sem + 1) st in
      let st := sem_tcb wtcb (with_waitsem 0) st in
      let st := sem_tcb wtcb (with_errno errcode) st in
      s ← up_unblock_task wtcb (sch st);
      Some (with_sched st s)
  | _ => Some st
  end.

(** ** sem_destroy.c *)

Definition sem_destroy (sem : Z) (st : semst) : sem_ret * semst :=
  if negb (sem =? 0) then
    (SemOK, if 0 <=? semcount st sem then set_semcount sem 1 st else st)
  else (SemERROR, set_errno (- EINVAL) st).
