(* ===== verification/SemThms.v ===== *)
(** Semaphores: the count and the waiting tasks agree, a post wakes the waiting
    task of the highest priority, and no task waits for a semaphore that is
    available. *)

From stdpp Require Import base numbers functions gmap sorting list.
From S2P Require Import Prelude Queue Sched SchedInv SchedThms SchedSpec Sem.

(** The tasks waiting for [sem], in the order they will be served. *)
Definition waiting (ts : tstore) (L : tasklist → list Z) (sem : Z) : list Z :=
  filter (λ x, waitsem (tcb_at ts x) = sem) (L g_waitingforsemaphore).

(** A negative count counts the waiting tasks; a task waits for a semaphore
    exactly when it is in the list of waiting tasks. *)
Record sem_inv (st : semst) (L : tasklist → list Z) (idle : Z) : Prop := {
  sv_sched : sched_inv (sch st) L idle;
  sv_count : ∀ sem, sem ≠ 0 →
    Z.of_nat (length (waiting (tcbs (sch st)) L sem)) = Z.max 0 (- semcount st sem);
  sv_range : ∀ sem, - 2 ^ 15 ≤ semcount st sem ≤ SEM_VALUE_MAX;
  sv_waits : ∀ x, waitsem (get (sch st) x) ≠ 0 ↔ x ∈ L g_waitingforsemaphore;
}.

Definition ZMAX_WAITERS : Z := 0x7fff.

(** Fields the scheduler's invariant does not mention. *)
Lemma inv_on_tcb st L idle a f :
  (∀ t, t_flink (f t) = t_flink t ∧ t_blink (f t) = t_blink t ∧ task_state (f t) = task_state t) →
  (∀ t, lockcount (f t) = lockcount t) → (∀ t, sched_priority (f t) = sched_priority t) →
  sched_inv st L idle → sched_inv (on_tcb a f st) L idle.
Proof.
  intros Hf Hk Hp (Hw & Hl & Hr). split_and!; [|intros Hne|done].
  - apply wf_on_tcb; [done| |by right|done]. intros t ?. by rewrite Hk.
  - rewrite locks_on_tcb by done. by apply Hl.
Qed.

Lemma i16_small z : - 2 ^ 15 ≤ z < 2 ^ 15 → i16 z = z.
Proof. intros ?. unfold i16. rewrite Z.mod_small; lia. Qed.

Lemma semcount_set sem v st sem' :
  semcount (set_semcount sem v st) sem' = if decide (sem' = sem) then i16 v else semcount st sem'.
Proof.
  unfold semcount, set_semcount. cbn [sems]. case_decide as E; subst.
  - by rewrite lookup_insert_eq.
  - by rewrite lookup_insert_ne.
Qed.

Lemma filter_pinsert (P : Z → Prop) `{∀ x, Decision (P x)} pr x l :
  length (filter P (pinsert pr x l)) = (length (filter P l) + if decide (P x) then 1 else 0)%nat.
Proof.
  destruct (pinsert_split pr x l) as (l1 & l2 & -> & -> & _).
  rewrite !filter_app, filter_cons, !length_app. destruct (decide (P x)); simpl; lia.
Qed.

Lemma filter_remove_first (P : Z → Prop) `{∀ x, Decision (P x)} x l : x ∈ l →
  length (filter P l) = (length (filter P (remove_first x l)) + if decide (P x) then 1 else 0)%nat.
Proof.
  intros (l1 & l2 & -> & Hx)%elem_split_first. rewrite remove_first_split by done.
  rewrite !filter_app, filter_cons, !length_app. destruct (decide (P x)); simpl; lia.
Qed.

Lemma filter_agree (P Q : Z → Prop) `{∀ x, Decision (P x)} `{∀ x, Decision (Q x)} (l : list Z) :
  (∀ x, x ∈ l → P x ↔ Q x) → filter P l = filter Q l.
Proof.
  induction l as [|a l IH]; intros Hpq; [done|]. rewrite !filter_cons, IH.
  - specialize (Hpq a (list_elem_of_here _ _)). repeat case_decide; tauto.
  - intros x Hx. apply Hpq. by right.
Qed.

Lemma waiter_search_spec (field : tcb → Z) fuel ts sem l :
  chain (flink ts) l 0 → 0 ∉ l → (length l ≤ fuel)%nat →
  waiter_search field fuel ts sem (default 0 (head l)) =
    Some (default 0 (head (filter (λ x, field (tcb_at ts x) = sem) l))).
Proof.
  revert fuel. induction l as [|a l IH]; intros fuel Hc H0 Hf; [by destruct fuel|].
  apply not_elem_of_cons in H0 as [Ha H0]. destruct Hc as [Hn Hc].
  change (default 0 (head (a :: l))) with a. rewrite filter_cons.
  assert (E : waiter_search field fuel ts sem a =
    if field (tcb_at ts a) =? sem then Some a else
      match fuel with O => None | S fuel => waiter_search field fuel ts sem (default 0 (head l)) end).
  { change (t_flink (tcb_at ts a) = default 0 (head l)) in Hn.
    destruct fuel; cbn [waiter_search]; rewrite (proj2 (Z.eqb_neq a 0)) by done; cbn [negb andb];
      destruct (_ =? sem); cbn [negb]; try done. by rewrite Hn. }
  rewrite E. destruct (Z.eqb_spec (field (tcb_at ts a)) sem) as [Es|Es].
  - by rewrite decide_True.
  - rewrite decide_False by done. simpl in Hf. destruct fuel as [|fuel]; [lia|]. apply IH; [done|done|lia].
Qed.

Section SemInv.
Implicit Types (st : semst) (L : tasklist → list Z).

Lemma set_errno_inv st L idle v : sem_inv st L idle → sem_inv (set_errno v st) L idle.
Proof.
  intros [Hs Hc Hm Hw]. split; [| |done|].
  - by apply inv_on_tcb.
  - intros sem Hsem. change (semcount (set_errno v st) sem) with (semcount st sem).
    rewrite <-(Hc sem Hsem). f_equal. f_equal. apply filter_agree.
    intros x _. unfold set_errno, sem_tcb. cbn. rewrite tcb_at_upd. by destruct (decide (x = _)) as [->|].
  - intros x. rewrite <-Hw. unfold set_errno, sem_tcb, get. cbn. rewrite tcb_at_upd.
    by destruct (decide (x = _)) as [->|].
Qed.

Lemma semcount_errno v st sem : semcount (set_errno v st) sem = semcount st sem.
Proof. done. Qed.

Lemma waiting_length st L idle sem : sem_inv st L idle → sem ≠ 0 →
  Z.of_nat (length (L g_waitingforsemaphore)) < ZMAX_WAITERS → - ZMAX_WAITERS < semcount st sem.
Proof.
  intros Hi Hs Hl. pose proof (sv_count _ _ _ Hi sem Hs) as Hc.
  pose proof (length_filter (λ x, waitsem (tcb_at (tcbs (sch st)) x) = sem) (L g_waitingforsemaphore)).
  unfold waiting in Hc. lia.
Qed.

(** A task that does not wait takes or frees a count. *)
Lemma take_inv st L idle sem v a :
  sem_inv st L idle → sem ≠ 0 → 0 ≤ semcount st sem → 0 ≤ v ≤ SEM_VALUE_MAX →
  a ∉ L g_waitingforsemaphore →
  sem_inv (sem_tcb a (with_waitsem 0) (set_semcount sem v st)) L idle.
Proof.
  intros [Hs Hc Hm Hw] Hsem H0 Hv Ha. unfold SEM_VALUE_MAX in *.
  assert (Hws : ∀ x, waitsem (tcb_at (upd a (with_waitsem 0) (tcbs (sch st))) x) = waitsem (get (sch st) x)).
  { intros x. rewrite tcb_at_upd. destruct (decide (x = a)) as [->|]; [|done].
    destruct (decide (waitsem (get (sch st) a) = 0)) as [->|Hne]; [done|]. by apply Hw in Hne. }
  split.
  - by apply inv_on_tcb.
  - intros sem' Hsem'. transitivity (Z.of_nat (length (waiting (tcbs (sch st)) L sem'))).
    + f_equal. f_equal. apply filter_agree. intros x _. cbn. by rewrite Hws.
    + rewrite Hc by done. change (semcount (sem_tcb _ _ ?s) _) with (semcount s sem').
      rewrite semcount_set. destruct (decide (sem' = sem)) as [->|]; [|done].
      rewrite i16_small by lia. lia.
  - intros sem'. change (semcount (sem_tcb _ _ ?s) _) with (semcount s sem').
    rewrite semcount_set. destruct (decide (sem' = sem)); [|apply Hm].
    rewrite i16_small; unfold SEM_VALUE_MAX; lia.
  - intros x. rewrite <-Hw. unfold get. cbn. by rewrite Hws.
Qed.

(** A waiting task is woken: its count is given back and it leaves the list. *)
Lemma wake_inv st L idle x sem f s' :
  sem_inv st L idle → x ∈ L g_waitingforsemaphore → waitsem (get (sch st) x) = sem →
  (∀ t, t_flink (f t) = t_flink t ∧ t_blink (f t) = t_blink t ∧ task_state (f t) = task_state t) →
  (∀ t, lockcount (f t) = lockcount t) → (∀ t, sched_priority (f t) = sched_priority t) →
  (∀ t, waitsem (f t) = 0) →
  up_unblock_task x (on_tcb x f (sch st)) = Some s' →
  sem_inv (with_sched (set_semcount sem (semcount st sem + 1) st) s')
    (add_ready (on_tcb x f (sch st)) (<[g_waitingforsemaphore := remove_first x (L g_waitingforsemaphore)]> L) x) idle.
Proof.
  intros Hi Hx Hs Hf Hk Hp H0 E. pose proof Hi as [Hsch Hc Hm Hw].
  assert (Hne : sem ≠ 0) by (rewrite <-Hs; by apply Hw).
  set (s1 := on_tcb x f (sch st)) in *.
  assert (Hi1 : sched_inv s1 L idle) by by apply inv_on_tcb.
  assert (Hst1 : tstate_of (tcbs s1) x = TSTATE_WAIT_SEM).
  { destruct Hi1 as (Hw1 & _). pose proof (sw_state _ _ _ Hw1 _ _ Hx) as Hl.
    by destruct (tstate_of (tcbs s1) x). }
  destruct (unblock_abs s1 L idle x g_waitingforsemaphore Hi1 Hx) as (s2 & E2 & Hi2 & He2); [by rewrite Hst1|].
  rewrite E in E2. injection E2 as <-.
  set (L1 := <[g_waitingforsemaphore := remove_first x (L g_waitingforsemaphore)]> L) in *.
  assert (EL : add_ready s1 L1 x g_waitingforsemaphore = remove_first x (L g_waitingforsemaphore)).
  { unfold add_ready. by destruct (held_back s1 x). }
  assert (Hws : ∀ y, waitsem (tcb_at (tcbs s') y) = if decide (y = x) then 0 else waitsem (get (sch st) y)).
  { intros y. rewrite (same_essence_field waitsem _ _ _ (λ _, eq_refl) He2). cbn [s1 on_tcb with_tcbs tcbs].
    rewrite tcb_at_upd. destruct (decide (y = x)) as [->|]; [apply H0|done]. }
  destruct Hsch as (Hwf & _). destruct (lo_repr _ _ (sw_lists _ _ _ Hwf) g_waitingforsemaphore) as (_ & Hnd & _).
  pose proof (Hc sem Hne) as Hcs. pose proof (Hm sem) as Hms. unfold SEM_VALUE_MAX in Hms.
  assert (Hlen : ∀ sem', sem' ≠ 0 → length (waiting (tcbs (sch st)) L sem') =
    (length (waiting (tcbs s') (add_ready s1 L1 x) sem') + if decide (sem' = sem) then 1 else 0)%nat).
  { intros sem' Hne'. unfold waiting. rewrite EL. rewrite (filter_remove_first _ x) by done. f_equal.
    - f_equal. apply filter_agree. intros y Hy%elem_of_remove_first; [|done].
      rewrite Hws, decide_False by tauto. done.
    - change (waitsem (tcb_at (tcbs (sch st)) x)) with (waitsem (get (sch st) x)). rewrite Hs.
      by repeat case_decide. }
  assert (Hneg : semcount st sem < 0).
  { specialize (Hlen sem Hne). rewrite decide_True in Hlen by done. lia. }
  assert (Hcnt : ∀ sem', semcount (with_sched (set_semcount sem (semcount st sem + 1) st) s') sem' =
    if decide (sem' = sem) then semcount st sem + 1 else semcount st sem').
  { intros sem'. change (semcount (with_sched ?s _) _) with (semcount s sem'). rewrite semcount_set.
    destruct (decide (sem' = sem)); [|done]. apply i16_small. lia. }
  split; [exact Hi2|..]; cbn [with_sched sch set_semcount].
  - intros sem' Hne'. rewrite Hcnt. specialize (Hlen sem' Hne'). specialize (Hc sem' Hne').
    destruct (decide (sem' = sem)) as [->|]; lia.
  - intros sem'. rewrite Hcnt. specialize (Hm sem'). destruct (decide (sem' = sem)); [|done].
    unfold SEM_VALUE_MAX. lia.
  - intros y. unfold get. rewrite Hws, EL, elem_of_remove_first by done.
    destruct (decide (y = x)) as [->|]; [tauto|]. rewrite <-Hw. tauto.
Qed.

Lemma running_not_waiting st L idle : sem_inv st L idle →
  this_task (sch st) ∉ L g_waitingforsemaphore ∧ waitsem (get (sch st) (this_task (sch st))) = 0.
Proof.
  intros [(Hw & _) Hc Hm Hws]. pose proof (wf_head _ _ _ Hw) as Hh%head_Some_elem_of.
  assert (Hn : this_task (sch st) ∉ L g_waitingforsemaphore).
  { intros Hx. pose proof (lo_disj _ _ (sw_lists _ _ _ Hw) _ _ _ Hh Hx). done. }
  split; [done|]. destruct (decide (waitsem (get (sch st) (this_task (sch st))) = 0)) as [|Hne]; [done|].
  by apply Hws in Hne.
Qed.

(** The running task blocks on a semaphore. *)
Lemma sleep_inv st L idle sem :
  sem_inv st L idle → sem ≠ 0 → semcount st sem ≤ 0 → this_task (sch st) ≠ idle →
  Z.of_nat (length (L g_waitingforsemaphore)) < ZMAX_WAITERS →
  let x := this_task (sch st) in
  let st1 := set_errno 0 (sem_tcb x (with_waitsem sem) (set_semcount sem (semcount st sem - 1) st)) in
  ∃ s' L', up_block_task x TSTATE_WAIT_SEM (sch st1) = Some s' ∧
    sem_inv (with_sched st1 s') L' idle ∧
    L' g_waitingforsemaphore = pinsert (prio (tcbs (sch st))) x (L g_waitingforsemaphore).
Proof.
  intros Hi Hne Hle Hidle Hmax x st1. pose proof Hi as [Hsch Hc Hm Hw].
  pose proof (waiting_length _ _ _ _ Hi Hne Hmax) as Hlow. unfold ZMAX_WAITERS in Hlow.
  destruct (running_not_waiting _ _ _ Hi) as [Hnx Hx0]. fold x in Hnx, Hx0.
  assert (Hi1 : sched_inv (sch st1) L idle).
  { unfold st1, set_errno, sem_tcb. cbn [with_sched sch]. apply inv_on_tcb; [done..|]. by apply inv_on_tcb. }
  assert (Hxr : x ∈ L g_readytorun) by (apply head_Some_elem_of, wf_head with (idle := idle); apply Hsch).
  destruct (block_abs (sch st1) L idle x TSTATE_WAIT_SEM g_waitingforsemaphore Hi1 Hxr Hidle eq_refl eq_refl)
    as (s' & E & Hi' & Ht'). cbn [prioritized] in Hi'.
  assert (Hp1 : ∀ y, prio (tcbs (sch st1)) y = prio (tcbs (sch st)) y).
  { intros y. unfold prio. cbn [st1 set_errno sem_tcb with_sched sch on_tcb with_tcbs tcbs].
    rewrite !tcb_at_upd. repeat (case_decide; subst); done. }
  match type of Hi' with sched_inv _ ?L0 _ => set (L' := L0) in * end.
  exists s', L'. split; [exact E|]. split.
  - assert (Hws : ∀ y, waitsem (tcb_at (tcbs s') y) = if decide (y = x) then sem else waitsem (get (sch st) y)).
    { intros y. rewrite (same_tasks_field waitsem _ _ _ (λ _, eq_refl) Ht').
      cbn [st1 set_errno sem_tcb with_sched sch on_tcb with_tcbs tcbs set_semcount].
      change (this_task (mk_sched _ ?q _)) with (q_head (q g_readytorun)).
      rewrite !tcb_at_upd. unfold get, x, this_task.
      repeat (case_decide; subst; try done). }
    assert (EL : L' g_waitingforsemaphore = pinsert (prio (tcbs (sch st1))) x (L g_waitingforsemaphore)) by done.
    assert (Hcnt : ∀ sem', semcount (with_sched st1 s') sem' =
      if decide (sem' = sem) then semcount st sem - 1 else semcount st sem').
    { intros sem'. change (semcount (with_sched st1 s') sem') with (semcount (set_semcount sem (semcount st sem - 1) st) sem').
      rewrite semcount_set. destruct (decide (sem' = sem)); [|done]. apply i16_small. lia. }
    split; [exact Hi'|..]; cbn [with_sched sch].
    + intros sem' Hne'. rewrite Hcnt. specialize (Hc sem' Hne').
      unfold waiting in *. rewrite EL, filter_pinsert.
      rewrite (filter_agree (λ y, waitsem (tcb_at (tcbs s') y) = sem') (λ y, waitsem (tcb_at (tcbs (sch st)) y) = sem')).
      2:{ intros y Hy. rewrite Hws, decide_False by (intros ->; done). done. }
      rewrite Hws, (decide_True (P := x = x)) by done.
      destruct (decide (sem' = sem)) as [->|Hss].
      * rewrite decide_True by done. lia.
      * rewrite decide_False by congruence. lia.
    + intros sem'. rewrite Hcnt. specialize (Hm sem'). destruct (decide (sem' = sem)); [|done].
      unfold SEM_VALUE_MAX. lia.
    + intros y. unfold get. rewrite Hws, EL, elem_of_pinsert.
      destruct (decide (y = x)) as [->|]; [tauto|]. rewrite <-Hw. tauto.
  - transitivity (pinsert (prio (tcbs (sch st1))) x (L g_waitingforsemaphore)); [done|].
    by apply pinsert_ext.
Qed.
End SemInv.
