(* ===== verification/SemSpec.v ===== *)
(** What semaphores promise their users. *)

From stdpp Require Import base numbers functions gmap sorting list.
From S2P Require Import Prelude Queue Sched SchedInv SchedThms SchedSpec Sem SemThms.

Inductive sem_op :=
  | OpInit (sem value : Z) | OpWait (sem : Z) | OpTryWait (sem : Z) | OpPost (sem : Z)
  | OpWaitIrq (tcb errcode : Z) | OpDestroy (sem : Z).

Definition sem_exec (op : sem_op) (st : semst) : option (sem_ret * semst) :=
  match op with
  | OpInit sem value => Some (sem_init sem value st)
  | OpWait sem => sem_wait sem st
  | OpTryWait sem => Some (sem_trywait sem st)
  | OpPost sem => sem_post sem st
  | OpWaitIrq tcb errcode => st ← sem_waitirq tcb errcode st; Some (SemOK, st)
  | OpDestroy sem => Some (sem_destroy sem st)
  end.

(** The callers' obligations: a semaphore is initialized while nobody waits for
    it, the idle task does not wait, a count does not overflow, and there are
    fewer tasks than the count can express. *)
Definition sem_legal (idle : Z) (op : sem_op) (st : semst) : Prop :=
  match op with
  | OpInit sem value => 0 ≤ semcount st sem ∧ 0 ≤ value
  | OpWait sem => this_task (sch st) ≠ idle ∧ Z.of_nat (sched_fuel (sch st)) < ZMAX_WAITERS
  | OpPost sem => semcount st sem < SEM_VALUE_MAX
  | _ => True
  end.

Definition sem_step (idle : Z) (st st' : semst) : Prop :=
  ∃ op r, sem_legal idle op st ∧ sem_exec op st = Some (r, st').

Section SemOps.
Implicit Types (st : semst) (L : tasklist → list Z).

Lemma set_count_inv st L idle sem v :
  sem_inv st L idle → sem ≠ 0 → 0 ≤ semcount st sem → 0 ≤ v ≤ SEM_VALUE_MAX →
  sem_inv (set_semcount sem v st) L idle.
Proof.
  intros [Hs Hc Hm Hw] Hne H0 Hv. unfold SEM_VALUE_MAX in *. split; [done|..|done].
  - intros sem' Hne'. rewrite semcount_set. cbn [set_semcount sch]. rewrite Hc by done.
    destruct (decide (sem' = sem)) as [->|]; [|done]. rewrite i16_small by lia. lia.
  - intros sem'. rewrite semcount_set. destruct (decide (sem' = sem)); [|apply Hm].
    rewrite i16_small; unfold SEM_VALUE_MAX; lia.
Qed.

Lemma this_task_errno v st : this_task (sch (set_errno v st)) = this_task (sch st).
Proof. done. Qed.

Lemma sem_wait_len st L idle sem :
  sem_inv st L idle → this_task (sch st) ≠ idle → Z.of_nat (length (L g_waitingforsemaphore)) < ZMAX_WAITERS →
  ∃ r st' L', sem_wait sem st = Some (r, st') ∧ sem_inv st' L' idle ∧
    (if sem =? 0 then r = SemERROR
     else if 0 <? semcount st sem then r = SemOK ∧ L' = L
     else r = SemBlocked ∧
          L' g_waitingforsemaphore = pinsert (prio (tcbs (sch st))) (this_task (sch st)) (L g_waitingforsemaphore)) ∧
    (sem ≠ 0 → semcount st' sem = semcount st sem - 1).
Proof.
  intros Hi Hidle Hlen. unfold sem_wait. pose proof (set_errno_inv st L idle EINVAL Hi) as Hi1.
  destruct (Z.eqb_spec sem 0) as [E|Hne].
  { exists SemERROR, (set_errno EINVAL st), L. split_and!; done. }
  change (semcount (set_errno EINVAL st) sem) with (semcount st sem).
  pose proof (sv_range _ _ _ Hi sem) as Hrg. unfold SEM_VALUE_MAX in Hrg.
  destruct (running_not_waiting _ _ _ Hi1) as [Hnx Hx0]. rewrite this_task_errno in Hnx, Hx0.
  destruct (Z.ltb_spec 0 (semcount st sem)) as [Hpos|Hneg].
  - eexists _, _, L. split; [reflexivity|]. split_and!; [|done|done|].
    + apply take_inv; [done|done|change (0 ≤ semcount st sem); lia|unfold SEM_VALUE_MAX; lia|done].
    + intros _. change (semcount (sem_tcb _ _ ?s) _) with (semcount s sem).
      rewrite semcount_set, decide_True by done. apply i16_small. lia.
  - rewrite Hx0. cbn [Z.eqb negb].
    destruct (sleep_inv (set_errno EINVAL st) L idle sem Hi1 Hne Hneg Hidle Hlen) as (s' & L' & E & Hi' & EL).
    change (semcount (set_errno EINVAL st) sem) with (semcount st sem) in E, Hi'.
    rewrite this_task_errno in E, Hi', EL. rewrite E. cbn [mbind option_bind].
    pose proof (waiting_length _ _ _ _ Hi Hne Hlen) as Hlow. unfold ZMAX_WAITERS in Hlow.
    eexists _, _, L'. split; [reflexivity|]. split_and!; [exact Hi'|done| |].
    + rewrite EL. apply pinsert_ext. intros y _. unfold prio. cbn. rewrite tcb_at_upd.
      by destruct (decide (y = _)) as [->|].
    + intros _. change (semcount (with_sched ?a _) sem) with (semcount (set_semcount sem (semcount st sem - 1) st) sem).
      rewrite semcount_set, decide_True by done. apply i16_small. lia.
Qed.

Lemma waiting_few st L idle : sem_inv st L idle → Z.of_nat (sched_fuel (sch st)) < ZMAX_WAITERS →
  Z.of_nat (length (L g_waitingforsemaphore)) < ZMAX_WAITERS.
Proof.
  intros Hi Hmax. destruct (sv_sched _ _ _ Hi) as (Hw & _).
  pose proof (lists_length (sch st) L g_waitingforsemaphore (sw_lists _ _ _ Hw)). lia.
Qed.

Lemma sem_wait_abs st L idle sem :
  sem_inv st L idle → this_task (sch st) ≠ idle → Z.of_nat (sched_fuel (sch st)) < ZMAX_WAITERS →
  ∃ r st' L', sem_wait sem st = Some (r, st') ∧ sem_inv st' L' idle ∧
    (if sem =? 0 then r = SemERROR
     else if 0 <? semcount st sem then r = SemOK ∧ L' = L
     else r = SemBlocked ∧
          L' g_waitingforsemaphore = pinsert (prio (tcbs (sch st))) (this_task (sch st)) (L g_waitingforsemaphore)) ∧
    (sem ≠ 0 → semcount st' sem = semcount st sem - 1).
Proof. intros Hi Hidle Hmax. apply sem_wait_len; [done|done|by eapply waiting_few]. Qed.

Lemma sem_trywait_abs st L idle sem :
  sem_inv st L idle →
  sem_inv (sem_trywait sem st).2 L idle ∧
  ((sem_trywait sem st).1 = if negb (sem =? 0) && (0 <? semcount st sem) then SemOK else SemERROR).
Proof.
  intros Hi. unfold sem_trywait. pose proof (set_errno_inv st L idle EINVAL Hi) as Hi1.
  destruct (Z.eqb_spec sem 0) as [E|Hne]; [done|].
  pose proof (set_errno_inv _ L idle EAGAIN Hi1) as Hi2.
  change (semcount (set_errno EAGAIN (set_errno EINVAL st)) sem) with (semcount st sem).
  destruct (Z.ltb_spec 0 (semcount st sem)) as [Hpos|Hneg]; [|done]. split; [|done].
  pose proof (sv_range _ _ _ Hi sem) as Hrg. unfold SEM_VALUE_MAX in Hrg.
  apply take_inv; [done|done|change (0 ≤ semcount st sem); lia|unfold SEM_VALUE_MAX; lia|]. by apply (running_not_waiting _ _ _ Hi2).
Qed.

(** A post gives the count back, or hands it to the first waiting task. *)
Lemma sem_post_abs st L idle sem :
  sem_inv st L idle → sem ≠ 0 → semcount st sem < SEM_VALUE_MAX →
  ∃ st' L', sem_post sem st = Some (SemOK, st') ∧ sem_inv st' L' idle ∧
    semcount st' sem = semcount st sem + 1 ∧
    match waiting (tcbs (sch st)) L sem with
    | [] => L' = L ∧ sch st' = sch st
    | x :: _ =>
        L' = add_ready (sch st) (<[g_waitingforsemaphore := remove_first x (L g_waitingforsemaphore)]> L) x ∧
        (∀ y, pterrno (get (sch st') y) = pterrno (get (sch st) y))
    end.
Proof.
  intros Hi Hne Hmax. pose proof Hi as [Hsch Hc Hm Hw]. unfold sem_post.
  rewrite (proj2 (Z.eqb_neq sem 0)) by done. rewrite (proj2 (Z.ltb_lt _ _)) by done. cbn [negb].
  pose proof (Hc sem Hne) as Hcs. pose proof (Hm sem) as Hms. unfold SEM_VALUE_MAX in *.
  rewrite semcount_set, decide_True, i16_small by (done || lia).
  assert (Hcnt : ∀ s, semcount (with_sched (set_semcount sem (semcount st sem + 1) st) s) sem = semcount st sem + 1).
  { intros s. change (semcount (with_sched ?s _) _) with (semcount s sem). rewrite semcount_set, decide_True by done.
    apply i16_small. lia. }
  destruct (Z.leb_spec (semcount st sem + 1) 0) as [Hle|Hgt].
  - destruct Hsch as (Hwf & _). destruct (lo_repr _ _ (sw_lists _ _ _ Hwf) g_waitingforsemaphore)
      as ([Hcf _] & _ & H0 & Hh & _).
    cbn [set_semcount sch]. rewrite Hh, waiter_search_spec; [|done|done|by apply lists_length, Hwf].
    fold (waiting (tcbs (sch st)) L sem). cbn [mbind option_bind].
    destruct (waiting (tcbs (sch st)) L sem) as [|x W] eqn:EW; [simpl in Hcs; lia|].
    change (default 0 (head (x :: W))) with x.
    assert (Hx : waitsem (tcb_at (tcbs (sch st)) x) = sem ∧ x ∈ L g_waitingforsemaphore).
    { apply (list_elem_of_filter (λ y, waitsem (tcb_at (tcbs (sch st)) y) = sem)). fold (waiting (tcbs (sch st)) L sem).
      rewrite EW. constructor. }
    destruct Hx as [Hxs Hxin]. rewrite (proj2 (Z.eqb_neq x 0)) by (intros ->; done). cbn [negb].
    cbn [sem_tcb with_sched sch set_semcount].
    assert (Hi1 : sched_inv (on_tcb x (with_waitsem 0) (sch st)) L idle) by by apply inv_on_tcb, Hi.
    destruct (unblock_abs (on_tcb x (with_waitsem 0) (sch st)) L idle x g_waitingforsemaphore Hi1 Hxin) as (s' & E & _ & He).
    { pose proof (sw_state _ _ _ (proj1 Hi1) _ _ Hxin) as Hl.
      by destruct (tstate_of (tcbs (on_tcb x (with_waitsem 0) (sch st))) x). }
    rewrite E. cbn [mbind option_bind].
    pose proof (wake_inv st L idle x sem (with_waitsem 0) s' Hi Hxin Hxs) as Hwk.
    eexists _, _. split; [reflexivity|]. split_and!.
    + by apply Hwk.
    + apply Hcnt.
    + unfold add_ready, held_back. rewrite locks_on_tcb by done.
      assert (Hp1 : ∀ y, prio (tcbs (on_tcb x (with_waitsem 0) (sch st))) y = prio (tcbs (sch st)) y).
      { intros y. unfold prio. cbn. rewrite tcb_at_upd. by destruct (decide (y = x)) as [->|]. }
      rewrite !Hp1, !(pinsert_ext (prio (tcbs (sch st))) (prio (tcbs (on_tcb x (with_waitsem 0) (sch st))))) by auto. done.
    + intros y. unfold get. cbn [with_sched sch]. rewrite (same_essence_field pterrno _ _ _ (λ _, eq_refl) He).
      cbn. rewrite tcb_at_upd. by destruct (decide (y = x)) as [->|].
  - destruct (waiting (tcbs (sch st)) L sem) as [|x W] eqn:EW; [|simpl in Hcs; lia].
    eexists _, L. split; [reflexivity|]. split_and!; [| |done|done].
    + apply set_count_inv; [done|done|simpl in Hcs; lia|unfold SEM_VALUE_MAX; lia].
    + by rewrite semcount_set, decide_True, i16_small by (done || lia).
Qed.
End SemOps.

(** [add_ready] makes one task runnable. *)
Lemma elem_of_add_ready s L x y :
  y ∈ add_ready s L x g_readytorun ∨ y ∈ add_ready s L x g_pendingtasks ↔
  y = x ∨ y ∈ L g_readytorun ∨ y ∈ L g_pendingtasks.
Proof.
  unfold add_ready. destruct (held_back _ _); rewrite fn_insert_eq, fn_insert_ne, elem_of_pinsert by done; tauto.
Qed.

Lemma sem_waitirq_abs st L idle x err :
  sem_inv st L idle →
  ∃ st' L', sem_waitirq x err st = Some st' ∧ sem_inv st' L' idle ∧
    (if decide (x ∈ L g_waitingforsemaphore) then
       let sem := waitsem (get (sch st) x) in
       semcount st' sem = semcount st sem + 1 ∧ pterrno (get (sch st') x) = err ∧
       L' g_waitingforsemaphore = remove_first x (L g_waitingforsemaphore) ∧
       ∀ y, y ∈ L' g_readytorun ∨ y ∈ L' g_pendingtasks ↔ y = x ∨ y ∈ L g_readytorun ∨ y ∈ L g_pendingtasks
     else st' = st ∧ L' = L).
Proof.
  intros Hi. pose proof Hi as [Hsch Hc Hm Hw]. pose proof Hsch as (Hwf & _). unfold sem_waitirq.
  change (task_state (get (sch st) x)) with (tstate_of (tcbs (sch st)) x).
  destruct (decide (x ∈ L g_waitingforsemaphore)) as [Hx|Hx].
  - assert (Hs : tstate_of (tcbs (sch st)) x = TSTATE_WAIT_SEM).
    { pose proof (sw_state _ _ _ Hwf _ _ Hx). by destruct (tstate_of (tcbs (sch st)) x). }
    rewrite Hs. set (sem := waitsem (get (sch st) x)).
    set (f := λ t, with_errno err (with_waitsem 0 t)).
    assert (E1 : sch (sem_tcb x (with_errno err) (sem_tcb x (with_waitsem 0) (set_semcount sem (semcount st sem + 1) st)))
      = on_tcb x f (sch st)).
    { unfold sem_tcb, with_sched, on_tcb, with_tcbs, upd. cbn [sch set_semcount tcbs qs g_running].
      f_equal. unfold tcb_at, tstore in *. rewrite (lookup_insert_eq (M:=gmap Z)).
      apply (insert_insert_eq (M:=gmap Z)). }
    rewrite E1.
    assert (Hi1 : sched_inv (on_tcb x f (sch st)) L idle) by by apply inv_on_tcb.
    destruct (unblock_abs (on_tcb x f (sch st)) L idle x g_waitingforsemaphore Hi1 Hx) as (s' & E & _ & He).
    { pose proof (sw_state _ _ _ (proj1 Hi1) _ _ Hx) as Hl. by destruct (tstate_of (tcbs (on_tcb x f (sch st))) x). }
    rewrite E. cbn [mbind option_bind].
    pose proof (wake_inv st L idle x sem f s' Hi Hx eq_refl) as Hwk.
    eexists _, _. split; [reflexivity|]. split; [by apply Hwk|]. split; [|split; [|split]].
    + change (semcount (set_semcount sem (semcount st sem + 1) st) sem = semcount st sem + 1).
      assert (Hne : sem ≠ 0) by by apply Hw. specialize (Hm sem). specialize (Hc sem Hne).
      assert (0 < length (waiting (tcbs (sch st)) L sem))%nat.
      { destruct (waiting (tcbs (sch st)) L sem) eqn:EW; [|simpl; lia].
        assert (Hin : x ∈ waiting (tcbs (sch st)) L sem) by (apply list_elem_of_filter; done).
        rewrite EW in Hin. by apply not_elem_of_nil in Hin. }
      rewrite semcount_set, decide_True, i16_small by (done || lia). done.
    + unfold get. cbn [with_sched sch]. rewrite (same_essence_field pterrno _ _ _ (λ _, eq_refl) He).
      cbn. by rewrite tcb_at_upd, decide_True.
    + unfold add_ready. by destruct (held_back _ _).
    + intros y. by rewrite elem_of_add_ready, !fn_insert_ne.
  - assert (Hs : tstate_of (tcbs (sch st)) x ≠ TSTATE_WAIT_SEM).
    { intros E. apply Hx, (sw_member _ _ _ Hwf). by rewrite E. }
    exists st, L. split_and!; [by destruct (tstate_of (tcbs (sch st)) x)|done..].
Qed.

Lemma sem_exec_inv st L idle op :
  sem_inv st L idle → sem_legal idle op st →
  ∃ r st' L', sem_exec op st = Some (r, st') ∧ sem_inv st' L' idle.
Proof.
  intros Hi Hop. destruct op as [sem v|sem|sem|sem|x err|sem]; cbn [sem_legal sem_exec] in *.
  - unfold sem_init. destruct (Z.eqb_spec sem 0), (Z.leb_spec v SEM_VALUE_MAX); cbn [negb andb];
      (eexists _, _, L; split; [reflexivity|]); try (by apply set_errno_inv).
    apply set_count_inv; tauto.
  - destruct Hop as [H1 H2]. destruct (sem_wait_abs st L idle sem Hi H1 H2) as (r & st' & L' & E & Hi' & _). eauto.
  - destruct (sem_trywait_abs st L idle sem Hi) as [Hi' _].
    destruct (sem_trywait sem st) as [r st']. eauto.
  - destruct (Z.eqb_spec sem 0) as [->|Hne]; [exists SemERROR, st, L; split; [done|done]|].
    destruct (sem_post_abs st L idle sem Hi Hne Hop) as (st' & L' & E & Hi' & _). eauto.
  - destruct (sem_waitirq_abs st L idle x err Hi) as (st' & L' & -> & Hi' & _). eauto.
  - unfold sem_destroy. destruct (Z.eqb_spec sem 0) as [|Hne]; cbn [negb].
    + eexists _, _, L. split; [reflexivity|]. by apply set_errno_inv.
    + eexists _, _, L. split; [reflexivity|]. destruct (Z.leb_spec 0 (semcount st sem)); [|done].
      by apply set_count_inv.
Qed.

(** C4. In every state reachable by legal semaphore operations a semaphore's negative count is the
    number of tasks waiting for it, the scheduler's invariant holds, and every legal operation
    returns. *)
Theorem sem_reachable_safe st L idle st' :
  sem_inv st L idle → rtc (sem_step idle) st st' →
  (∃ L', sem_inv st' L' idle) ∧ ∀ op, sem_legal idle op st' → is_Some (sem_exec op st').
Proof.
  intros Hi Hstep. assert (∃ L', sem_inv st' L' idle) as [L' Hi'].
  { revert L Hi. induction Hstep as [st|st st1 st' (op & r & Hop & E) _ IH]; intros L Hi; [eauto|].
    destruct (sem_exec_inv st L idle op Hi Hop) as (r2 & st2 & L2 & E2 & Hi2).
    rewrite E in E2. injection E2 as <- <-. eauto. }
  split; [eauto|]. intros op Hop.
  destruct (sem_exec_inv st' L' idle op Hi' Hop) as (r2 & st2 & _ & E & _). eauto.
Qed.

(** Posting a semaphore with waiting tasks wakes a task that waits for that semaphore and has
    the highest priority of those that do; the task leaves the wait list, becomes ready or pending,
    and its sem_wait returns OK. *)
Theorem sem_post_wakes_highest st L idle sem :
  sem_inv st L idle → sem ≠ 0 → semcount st sem < 0 →
  ∃ x st' L', sem_post sem st = Some (SemOK, st') ∧ sem_inv st' L' idle ∧
    x ∈ L g_waitingforsemaphore ∧ waitsem (get (sch st) x) = sem ∧
    (∀ y, y ∈ L g_waitingforsemaphore → waitsem (get (sch st) y) = sem →
       prio (tcbs (sch st)) y ≤ prio (tcbs (sch st)) x) ∧
    semcount st' sem = semcount st sem + 1 ∧
    L' g_waitingforsemaphore = remove_first x (L g_waitingforsemaphore) ∧
    (x ∈ L' g_readytorun ∨ x ∈ L' g_pendingtasks) ∧
    (pterrno (get (sch st) x) = 0 → sem_wait_resume x st' = SemOK).
Proof.
  intros Hi Hne Hneg. pose proof Hi as [(Hw & _) Hc _ _].
  destruct (sem_post_abs st L idle sem Hi Hne) as (st' & L' & E & Hi' & Ecnt & Hm); [unfold SEM_VALUE_MAX; lia|].
  specialize (Hc sem Hne). destruct (waiting (tcbs (sch st)) L sem) as [|x W] eqn:EW; [simpl in Hc; lia|].
  assert (Hin : ∀ y, y ∈ x :: W ↔ waitsem (get (sch st) y) = sem ∧ y ∈ L g_waitingforsemaphore).
  { intros y. rewrite <-EW.
    apply (list_elem_of_filter (λ y, waitsem (tcb_at (tcbs (sch st)) y) = sem)). }
  destruct Hm as [EL Herr]. exists x, st', L'.
  destruct (Hin x) as [Hx _]. destruct Hx as [Hxs Hxin]; [constructor|].
  split_and!; try done.
  - intros y Hy Hys. assert (y ∈ x :: W) as [->|HyW]%elem_of_cons by (by apply Hin); [done|].
    pose proof (sw_sorted _ _ _ Hw g_waitingforsemaphore eq_refl) as Hso. unfold prio_sorted in Hso.
    assert (Hsf : StronglySorted (pdesc (prio (tcbs (sch st)))) (x :: W)) by (rewrite <-EW; by apply sorted_filter).
    apply StronglySorted_inv in Hsf as [_ Hf]. rewrite Forall_forall in Hf. by apply Hf.
  - rewrite EL. unfold add_ready. by destruct (held_back _ _).
  - rewrite EL. apply elem_of_add_ready. by left.
  - intros He. unfold sem_wait_resume. rewrite Herr, He. done.
Qed.

(** sem_wait decrements the count and returns OK without a context switch when the count is
    positive, and otherwise blocks the caller in the list of waiting tasks behind those of the same
    or a higher priority. *)
Theorem sem_wait_correct st L idle sem :
  sem_inv st L idle → sem ≠ 0 → this_task (sch st) ≠ idle →
  Z.of_nat (sched_fuel (sch st)) < ZMAX_WAITERS →
  ∃ r st' L', sem_wait sem st = Some (r, st') ∧ sem_inv st' L' idle ∧
    semcount st' sem = semcount st sem - 1 ∧
    (if 0 <? semcount st sem then r = SemOK ∧ L' = L
     else r = SemBlocked ∧ L' g_waitingforsemaphore =
            pinsert (prio (tcbs (sch st))) (this_task (sch st)) (L g_waitingforsemaphore)).
Proof.
  intros Hi Hne Hidle Hmax.
  destruct (sem_wait_abs st L idle sem Hi Hidle Hmax) as (r & st' & L' & E & Hi' & Hr & Hc).
  rewrite (proj2 (Z.eqb_neq sem 0)) in Hr by done. exists r, st', L'. split_and!; auto.
Qed.

(** Interrupting a waiting task by a signal or a timeout gives its count back to the semaphore,
    takes exactly that task off the wait list, and makes its sem_wait return ERROR with the given
    errno. *)
Theorem sem_waitirq_cancels st L idle x err :
  sem_inv st L idle → x ∈ L g_waitingforsemaphore → err = EINTR ∨ err = ETIMEDOUT →
  let sem := waitsem (get (sch st) x) in
  ∃ st' L', sem_waitirq x err st = Some st' ∧ sem_inv st' L' idle ∧
    semcount st' sem = semcount st sem + 1 ∧
    L' g_waitingforsemaphore = remove_first x (L g_waitingforsemaphore) ∧
    sem_wait_resume x st' = SemERROR.
Proof.
  intros Hi Hx Herr sem. destruct (sem_waitirq_abs st L idle x err Hi) as (st' & L' & E & Hi' & H).
  rewrite decide_True in H by done. destruct H as (Hc & He & HL & _). exists st', L'. split_and!; try done.
  unfold sem_wait_resume. rewrite He. by destruct Herr as [-> | ->].
Qed.

(** ** A concrete system *)

(** Task C of [sched0] waits for the semaphore at 0x50. *)
Definition sem0 : semst := mk_semst sched0 {[ 0x50 := -1; 0x60 := 2 ]}.

Lemma sem0_inv : sem_inv sem0 lists0 idle0.
Proof.
  split; [apply sched0_inv|..].
  - intros sem Hs. destruct (decide (sem = 0x50)) as [->|H5]; [done|].
    unfold waiting. cbn [lists0 sch sem0]. rewrite filter_cons, decide_False by (vm_compute; congruence).
    unfold semcount. cbn [sems sem0]. rewrite lookup_insert_ne by done.
    destruct (decide (sem = 0x60)) as [->|]; [done|]. by rewrite lookup_singleton_ne.
  - intros sem. unfold semcount. cbn [sems sem0].
    destruct (decide (sem = 0x50)) as [->|]; [done|]. rewrite lookup_insert_ne by done.
    destruct (decide (sem = 0x60)) as [->|]; [done|]. by rewrite lookup_singleton_ne.
  - intros x. cbn [sch sem0 lists0]. rewrite list_elem_of_singleton. destruct (sched0_tcb x) as [Hx|Hx].
    + rewrite !elem_of_cons, elem_of_nil in Hx. by destruct Hx as [->|[->|[->|[->|[]]]]].
    + unfold get. rewrite Hx. split; [done|]. intros ->. discriminate Hx.
Qed.

Lemma sem_reachable_safe_witness : ∃ st', rtc (sem_step idle0) sem0 st' ∧
  semcount st' 0x50 = 0 ∧ (∃ L', sem_inv st' L' idle0).
Proof.
  assert (E : ∃ st', sem_exec (OpPost 0x50) sem0 = Some (SemOK, st') ∧ semcount st' 0x50 = 0).
  { eexists. split; vm_compute; reflexivity. }
  destruct E as (st' & E & Hc). assert (Hs : rtc (sem_step idle0) sem0 st').
  { eapply rtc_once. exists (OpPost 0x50), SemOK. split; [by vm_compute|exact E]. }
  exists st'. split; [exact Hs|]. split; [exact Hc|].
  apply (sem_reachable_safe sem0 lists0 idle0 st' sem0_inv Hs).
Defined.

Lemma sem_post_wakes_highest_witness : ∃ x st' L',
  sem_post 0x50 sem0 = Some (SemOK, st') ∧ sem_inv st' L' idle0 ∧ waitsem (get (sch sem0) x) = 0x50.
Proof.
  destruct (sem_post_wakes_highest sem0 lists0 idle0 0x50 sem0_inv)
    as (x & st' & L' & E & Hi & _ & Hx & _); [done|by vm_compute|].
  exists x, st', L'. split_and!; [exact E|exact Hi|exact Hx].
Defined.

Lemma sem_wait_correct_witness : ∃ r st' L',
  sem_wait 0x60 sem0 = Some (r, st') ∧ sem_inv st' L' idle0 ∧ semcount st' 0x60 = 1 ∧ r = SemOK ∧ L' = lists0.
Proof. apply (sem_wait_correct sem0 lists0 idle0 0x60 sem0_inv); [done|by vm_compute|by vm_compute]. Defined.

Lemma sem_waitirq_cancels_witness : ∃ st' L',
  sem_waitirq taskC ETIMEDOUT sem0 = Some st' ∧ sem_inv st' L' idle0 ∧ semcount st' 0x50 = 0 ∧
  L' g_waitingforsemaphore = [] ∧ sem_wait_resume taskC st' = SemERROR.
Proof. apply (sem_waitirq_cancels sem0 lists0 idle0 taskC ETIMEDOUT sem0_inv); [constructor|by right]. Defined.
