(* ===== verification/SemView.v ===== *)
(** Semaphores seen through three functions: the counts, the semaphore each task
    waits for and the errno of each task.  Every operation changes them at a
    point; scheduling does not change them. *)

From stdpp Require Import base numbers functions gmap sorting list.
From S2P Require Import Prelude Queue Sched SchedInv SchedThms SchedFields Sem SemThms SemSpec.

Definition wsem (s : semst) (x : Z) : Z := waitsem (get (sch s) x).
Definition errno_of (s : semst) (x : Z) : Z := pterrno (get (sch s) x).

(** [f] and [g] agree but for the value [v] at [k]. *)
Definition point (f g : Z → Z) (k v : Z) : Prop := ∀ j, g j = if decide (j = k) then v else f j.

Record same_view (s s' : semst) : Prop := {
  sv_sems : ∀ k, semcount s' k = semcount s k;
  sv_wsem : ∀ x, wsem s' x = wsem s x;
  sv_errno : ∀ x, errno_of s' x = errno_of s x;
}.

Section View.
Implicit Types (s : semst) (L : tasklist → list Z).

Lemma field_on_tcb {B} (g : tcb → B) a f (s : sched) y :
  (∀ t, g (f t) = g t) → g (get (on_tcb a f s) y) = g (get s y).
Proof. intros Hg. unfold get. cbn. rewrite tcb_at_upd. by destruct (decide (y = a)) as [->|]. Qed.

Lemma field_on_tcb_eq {B} (g : tcb → B) a f (s : sched) : g (get (on_tcb a f s) a) = g (f (get s a)).
Proof. unfold get. cbn. by rewrite tcb_at_upd, decide_True. Qed.

Lemma field_core {B} (g : tcb → B) (s t : sched) y :
  (∀ t, g (coredata t) = g t) → same_core (tcbs s) (tcbs t) → g (get t y) = g (get s y).
Proof. intros Hg Hc. by apply (same_core_field g). Qed.

(** Changing the running task keeps the number of control blocks. *)
Lemma sched_fuel_running (s : sched) L idle f : sched_wf s L idle →
  sched_fuel (on_tcb (this_task s) f s) = sched_fuel s.
Proof.
  intros Hw. unfold sched_fuel. cbn. unfold upd, tstore.
  assert (Hin : this_task s ∈ dom (tcbs s)).
  { eapply (lo_dom _ _ (sw_lists _ _ _ Hw) g_readytorun), head_Some_elem_of, wf_head, Hw. }
  apply (map_size_insert_Some (M:=gmap Z)). by apply (elem_of_dom (M:=gmap Z)).
Qed.

(** A change of the scheduler's state that keeps the waiting tasks. *)
Lemma sem_inv_sched s t L L' idle : sem_inv s L idle → sched_inv t L' idle →
  L' g_waitingforsemaphore = L g_waitingforsemaphore → same_core (tcbs (sch s)) (tcbs t) →
  sem_inv (with_sched s t) L' idle ∧ same_view s (with_sched s t).
Proof.
  intros [Hs Hc Hr Hw] Ht HL Hco.
  assert (Hws : ∀ x, waitsem (tcb_at (tcbs t) x) = waitsem (tcb_at (tcbs (sch s)) x)).
  { intros x. by apply (same_core_field waitsem). }
  split; [split; [done| |done|]|split; [done|exact Hws|intros x; by apply (field_core pterrno)]].
  - intros sem Hne. change (semcount (with_sched s t) sem) with (semcount s sem). rewrite <-(Hc sem Hne).
    unfold waiting. rewrite HL. do 2 f_equal. apply filter_agree. intros x _. cbn. by rewrite Hws.
  - intros x. unfold get. cbn. rewrite Hws, HL. apply Hw.
Qed.

Lemma sem_lock_view s L idle : sem_inv s L idle → locks (tcbs (sch s)) (this_task (sch s)) < MAX_LOCK_COUNT →
  ∃ t, sched_lock false (sch s) = Some t ∧ sem_inv (with_sched s t) L idle ∧ same_view s (with_sched s t) ∧
    this_task t = this_task (sch s) ∧ same_core (tcbs (sch s)) (tcbs t) ∧ sched_fuel t = sched_fuel (sch s).
Proof.
  intros Hi Hm. pose proof Hi as [Hs _ _ _]. destruct (sched_lock_abs _ _ _ false Hs Hm) as (t & E & Ht & Hth & _).
  pose proof (same_lockless_core _ _ (sched_lock_lockless _ _ _ E)) as Hco.
  destruct (sem_inv_sched s t L L idle Hi Ht eq_refl Hco) as [Hi' Hv]. exists t. split_and!; try done.
  unfold sched_lock in E. case_match; [|by simplify_eq]. case_match; [done|]. injection E as <-.
  apply (sched_fuel_running _ L idle), Hs.
Qed.

Lemma sem_unlock_view s L idle : sem_inv s L idle →
  ∃ t L', sched_unlock false (sch s) = Some t ∧ sem_inv (with_sched s t) L' idle ∧ same_view s (with_sched s t) ∧
    same_core (tcbs (sch s)) (tcbs t).
Proof.
  intros Hi. pose proof Hi as [Hs _ _ _]. destruct (sched_unlock_abs _ _ _ false Hs) as (t & L' & E & Ht & [_ Hc] & _).
  pose proof (same_lockless_core _ _ (sched_unlock_lockless _ _ _ E)) as Hco.
  destruct (sem_inv_sched s t L L' idle Hi Ht ltac:(by apply Hc) Hco) as [Hi' Hv]. by exists t, L'.
Qed.

Lemma sem_tick_view s L idle : sem_inv s L idle → Z.land (flags (get (sch s) idle)) TCB_FLAG_ROUND_ROBIN = 0 →
  ∃ t L', sched_process_timeslice (sch s) = Some t ∧ sem_inv (with_sched s t) L' idle ∧ conserved L L' ∧
    same_view s (with_sched s t) ∧ same_core (tcbs (sch s)) (tcbs t).
Proof.
  intros Hi Hf. pose proof Hi as [Hs _ _ _]. destruct (timeslice_abs _ _ _ Hs Hf) as (t & L' & E & Ht & Hc & _).
  pose proof (timeslice_core _ _ E) as Hco.
  destruct (sem_inv_sched s t L L' idle Hi Ht ltac:(by apply Hc) Hco) as [Hi' Hv]. by exists t, L'.
Qed.

(** What [sem_wait] does to the caller and to everybody else. *)
Lemma sem_wait_effect sem s r s' : sem_wait sem s = Some (r, s') → sem ≠ 0 →
  let x := this_task (sch s) in
  (∀ k, k ≠ sem → semcount s' k = semcount s k) ∧
  (∀ y, y ≠ x → wsem s' y = wsem s y ∧ errno_of s' y = errno_of s y) ∧
  (∀ y, flags (get (sch s') y) = flags (get (sch s) y)) ∧
  (r = SemOK → wsem s' x = 0 ∧ this_task (sch s') = x) ∧
  (r = SemBlocked → wsem s' x = sem ∧ errno_of s' x = 0).
Proof.
  intros E Hne x. revert E. unfold sem_wait. rewrite (proj2 (Z.eqb_neq sem 0)) by done.
  assert (Hcnt : ∀ k, k ≠ sem → ∀ v s0, semcount (set_semcount sem v s0) k = semcount s0 k).
  { intros k Hk v s0. by rewrite semcount_set, decide_False. }
  case_match.
  { intros [= <- <-]. unfold wsem, errno_of, sem_tcb. cbn [with_sched sch set_semcount set_errno sem_tcb]. fold x.
    split_and!; try done; [intros k Hk; exact (Hcnt k Hk (semcount s sem - 1) s)|..].
    - intros y Hy. unfold get. cbn. by rewrite !tcb_at_upd, !decide_False.
    - intros y. by rewrite !field_on_tcb.
    - intros _. split; [by rewrite field_on_tcb_eq|done]. }
  case_match; [done|]. cbn [set_errno sem_tcb with_sched sch set_semcount]. fold x.
  destruct (up_block_task _ _ _) as [t|] eqn:E; [|done]. intros [= <- <-]. apply block_core in E.
  unfold wsem, errno_of. cbn [with_sched sch].
  split_and!; try done; [intros k Hk; exact (Hcnt k Hk (semcount s sem - 1) s)|..].
  - intros y Hy. rewrite (field_core waitsem _ _ _ (λ _, eq_refl) E), (field_core pterrno _ _ _ (λ _, eq_refl) E).
    unfold get. cbn. by rewrite !tcb_at_upd, !decide_False.
  - intros y. by rewrite (field_core flags _ _ _ (λ _, eq_refl) E), !field_on_tcb.
  - intros _. rewrite (field_core waitsem _ _ _ (λ _, eq_refl) E), (field_core pterrno _ _ _ (λ _, eq_refl) E).
    split; unfold get; cbn; by rewrite !tcb_at_upd, !decide_True.
Qed.

(** ** Round-robin flags, and the errno of the tasks a call does not concern *)

Lemma sem_trywait_flags sem (s : semst) y : flags (get (sch (sem_trywait sem s).2) y) = flags (get (sch s) y).
Proof.
  unfold sem_trywait. case_match; [by apply field_on_tcb|].
  case_match; unfold sem_tcb; cbn [snd with_sched sch set_semcount set_errno sem_tcb]; by rewrite !field_on_tcb.
Qed.

Lemma sem_waitirq_fields x err (s s' : semst) : sem_waitirq x err s = Some s' →
  (∀ y, flags (get (sch s') y) = flags (get (sch s) y)) ∧
  (∀ y, y ≠ x → pterrno (get (sch s') y) = pterrno (get (sch s) y)).
Proof.
  unfold sem_waitirq. case_match; try by intros [= <-].
  cbn [set_errno sem_tcb with_sched sch set_semcount].
  destruct (up_unblock_task _ _) as [t|] eqn:E; [|done]. intros [= <-]. apply unblock_core in E. cbn [with_sched sch].
  split; intros y; [|intros Hne].
  - by rewrite (field_core flags _ _ _ (λ _, eq_refl) E), !field_on_tcb.
  - rewrite (field_core pterrno _ _ _ (λ _, eq_refl) E). unfold get. cbn. by rewrite !tcb_at_upd, !decide_False.
Qed.

Lemma sem_waitirq_others x err s s' : sem_waitirq x err s = Some s' →
  (∀ k, k ≠ wsem s x → semcount s' k = semcount s k) ∧ (∀ y, y ≠ x → wsem s' y = wsem s y).
Proof.
  unfold sem_waitirq. case_match; try by intros [= <-].
  cbn [set_errno sem_tcb with_sched sch set_semcount].
  destruct (up_unblock_task _ _) as [t|] eqn:E; [|done]. intros [= <-]. apply unblock_core in E.
  split; [intros k Hk; fold (wsem s x)|intros y Hy].
  - change (semcount (with_sched ?a _) k) with (semcount (set_semcount (wsem s x) (semcount s (wsem s x) + 1) s) k).
    by rewrite semcount_set, decide_False.
  - unfold wsem. cbn [with_sched sch]. rewrite (field_core waitsem _ _ _ (λ _, eq_refl) E). unfold get. cbn.
    by rewrite !tcb_at_upd, !decide_False.
Qed.

Lemma errno_of_set v s y : errno_of (set_errno v s) y = if decide (y = this_task (sch s)) then v else errno_of s y.
Proof.
  unfold errno_of. cbn. case_decide as Hy; [subst; by rewrite field_on_tcb_eq|].
  unfold get. cbn. by rewrite tcb_at_upd, decide_False.
Qed.

Lemma wsem_errno v s y : wsem (set_errno v s) y = wsem s y.
Proof. unfold wsem. cbn. by rewrite field_on_tcb. Qed.

Lemma sem_trywait_effect s L idle sem : sem_inv s L idle → sem ≠ 0 →
  let x := this_task (sch s) in
  let '(r, s') := sem_trywait sem s in
  sem_inv s' L idle ∧ (∀ y, wsem s' y = wsem s y) ∧ (∀ y, y ≠ x → errno_of s' y = errno_of s y) ∧
  (∀ y, flags (get (sch s') y) = flags (get (sch s) y)) ∧ this_task (sch s') = x ∧
  if 0 <? semcount s sem then r = SemOK ∧ point (semcount s) (semcount s') sem (semcount s sem - 1)
  else r = SemERROR ∧ errno_of s' x = EAGAIN ∧ ∀ k, semcount s' k = semcount s k.
Proof.
  intros Hi Hne x. destruct (sem_trywait_abs s L idle sem Hi) as [Hi' _].
  destruct (running_not_waiting _ _ _ Hi) as [_ Hx0]. fold x in Hx0.
  pose proof (sv_range _ _ _ Hi sem) as Hr. unfold SEM_VALUE_MAX in Hr.
  pose proof (sem_trywait_flags sem s) as Hf.
  revert Hi' Hf. unfold sem_trywait. rewrite (proj2 (Z.eqb_neq sem 0)) by done. rewrite !semcount_errno.
  destruct (Z.ltb_spec 0 (semcount s sem)) as [Hpos|Hneg]; cbn [fst snd]; intros Hi' Hf; (split; [exact Hi'|]).
  - unfold sem_tcb. cbn [with_sched sch set_semcount]. split_and!; try done.
    + intros y. destruct (decide (y = x)) as [Ey|Hy].
      * rewrite Ey. unfold wsem at 2. rewrite Hx0. unfold wsem. cbn [with_sched sch]. by rewrite field_on_tcb_eq.
      * unfold wsem, get. cbn. fold x. by rewrite !tcb_at_upd, !decide_False.
    + intros y Hy. unfold errno_of, get. cbn. fold x. by rewrite !tcb_at_upd, !decide_False.
    + intros k. change (semcount (with_sched ?a _) k) with (semcount a k). rewrite semcount_set.
      case_decide; [apply i16_small; lia|done].
  - split_and!; try done.
    + intros y. by rewrite !wsem_errno.
    + intros y Hy. by rewrite !errno_of_set, !decide_False.
    + by rewrite errno_of_set, decide_True.
Qed.

Lemma sem_post_others sem s r s' : sem_post sem s = Some (r, s') →
  (∀ k, k ≠ sem → semcount s' k = semcount s k) ∧ (∀ y, errno_of s' y = errno_of s y) ∧
  (∀ y, flags (get (sch s') y) = flags (get (sch s) y)) ∧ ∃ x, ∀ y, y ≠ x → wsem s' y = wsem s y.
Proof.
  unfold sem_post. case_match; [intros [= _ <-]; split_and!; try done; by exists 0|]. case_match; [done|].
  assert (Hcnt : ∀ k, k ≠ sem → ∀ v s0, semcount (set_semcount sem v s0) k = semcount s0 k).
  { intros k Hk v s0. by rewrite semcount_set, decide_False. }
  assert (Hsame : ∀ s1, s1 = set_semcount sem (semcount s sem + 1) s →
    (∀ k, k ≠ sem → semcount s1 k = semcount s k) ∧ (∀ y, errno_of s1 y = errno_of s y) ∧
    (∀ y, flags (get (sch s1) y) = flags (get (sch s) y)) ∧ ∃ x, ∀ y, y ≠ x → wsem s1 y = wsem s y).
  { intros s1 ->. split_and!; [intros k Hk; by apply Hcnt|done|done|by exists 0]. }
  case_match; [|intros [= _ <-]; by apply Hsame].
  destruct (waiter_search _ _ _ _ _) as [x|]; [|done]. cbn [mbind option_bind].
  case_match; [|intros [= _ <-]; by apply Hsame].
  destruct (up_unblock_task _ _) as [t|] eqn:E; [|done]. intros [= _ <-]. apply unblock_core in E.
  unfold errno_of, wsem. cbn [with_sched sch]. split_and!.
  - intros k Hk. exact (Hcnt k Hk (semcount s sem + 1) s).
  - intros y. rewrite (field_core pterrno _ _ _ (λ _, eq_refl) E). by apply field_on_tcb.
  - intros y. rewrite (field_core flags _ _ _ (λ _, eq_refl) E). by apply field_on_tcb.
  - exists x. intros y Hy. rewrite (field_core waitsem _ _ _ (λ _, eq_refl) E). unfold get. cbn.
    by rewrite tcb_at_upd, decide_False.
Qed.

(** With pre-emption disabled a task that becomes ready does not take the processor. *)
Lemma add_ready_running (t t' : sched) L l x idle : sched_inv t L idle → 0 < locks (tcbs t) (this_task t) →
  sched_inv t' (add_ready t (<[g_waitingforsemaphore := l]> L) x) idle → this_task t' = this_task t.
Proof.
  intros (Hw & _) Hl (Hw' & _). apply wf_head in Hw, Hw'. unfold add_ready, held_back in Hw'.
  rewrite (proj2 (Z.eqb_neq _ 0)) in Hw' by lia. cbn [negb andb] in Hw'. destruct (Z.ltb_spec (prio (tcbs t) (this_task t)) (prio (tcbs t) x)).
  - rewrite !fn_insert_ne, Hw in Hw' by done. by injection Hw'.
  - rewrite fn_insert_eq, fn_insert_ne in Hw' by done. destruct (L g_readytorun) as [|r R]; [done|].
    injection Hw as ->. cbn [pinsert] in Hw'. rewrite (proj2 (Z.leb_le _ _)) in Hw' by done. by injection Hw'.
Qed.

(** A post wakes one waiting task, if there is one. *)
Lemma sem_post_wakes s L idle sem : sem_inv s L idle → sem ≠ 0 → semcount s sem < SEM_VALUE_MAX →
  ∃ s' L', ((length (L' g_waitingforsemaphore) ≤ length (L g_waitingforsemaphore))%nat ∧
      (0 < locks (tcbs (sch s)) (this_task (sch s)) → this_task (sch s') = this_task (sch s))) ∧
    sem_post sem s = Some (SemOK, s') ∧ sem_inv s' L' idle ∧
    point (semcount s) (semcount s') sem (semcount s sem + 1) ∧ (∀ y, errno_of s' y = errno_of s y) ∧
    (∀ y, flags (get (sch s') y) = flags (get (sch s) y)) ∧
    if semcount s sem <? 0 then
      ∃ x, head (waiting (tcbs (sch s)) L sem) = Some x ∧ wsem s x = sem ∧ point (wsem s) (wsem s') x 0
    else ∀ y, wsem s' y = wsem s y.
Proof.
  intros Hi Hne Hm. destruct (sem_post_abs s L idle sem Hi Hne Hm) as (s' & L' & E & Hi' & Hc & H).
  destruct (sem_post_others _ _ _ _ E) as (Hk & He & Hf & x0 & Hx0). exists s', L'. split_and!; try done.
  { destruct (waiting _ _ _) as [|x W]; destruct H as [-> _]; [done|]. unfold add_ready.
    destruct (held_back _ _); rewrite fn_insert_ne, fn_insert_eq by done; apply remove_first_length. }
  { intros Hl. destruct (waiting _ _ _) as [|x W]; destruct H as [EL Hsch]; [by rewrite Hsch|].
    eapply add_ready_running; [apply Hi|done|]. rewrite <-EL. apply Hi'. }
  { intros k. case_decide as Ek; [by subst|by apply Hk]. }
  pose proof (sv_count _ _ _ Hi sem Hne) as Hcs.
  assert (Hin : ∀ y, y ∈ waiting (tcbs (sch s)) L sem → wsem s y = sem ∧ y ∈ L g_waitingforsemaphore).
  { intros y Hy. by apply (list_elem_of_filter (λ y, waitsem (tcb_at (tcbs (sch s)) y) = sem)) in Hy. }
  destruct (waiting (tcbs (sch s)) L sem) as [|x W].
  - rewrite (proj2 (Z.ltb_ge _ _)) by (simpl in Hcs; lia). destruct H as [_ H]. intros y. unfold wsem. by rewrite H.
  - rewrite (proj2 (Z.ltb_lt _ _)) by (simpl in Hcs; lia). destruct H as [HL _].
    destruct (Hin x) as [Hx HxL]; [by left|]. exists x. split_and!; [done|done|].
    pose proof (sv_sched _ _ _ Hi) as (Hw & _).
    destruct (lo_repr _ _ (sw_lists _ _ _ Hw) g_waitingforsemaphore) as (_ & Hnd & _).
    assert (Hxw : wsem s' x = 0).
    { destruct (Z.eq_dec (wsem s' x) 0) as [|Hx']; [done|]. apply (sv_waits _ _ _ Hi') in Hx'. revert Hx'.
      rewrite HL. unfold add_ready. destruct (held_back _ _);
        rewrite fn_insert_ne, fn_insert_eq, elem_of_remove_first by done; tauto. }
    intros y. case_decide as Hy; [by subst|]. apply Hx0. intros ->.
    assert (x ≠ x0) by congruence. rewrite (Hx0 x) in Hxw by done. congruence.
Qed.

Lemma sem_post_effect s L idle sem : sem_inv s L idle → sem ≠ 0 → semcount s sem < SEM_VALUE_MAX →
  ∃ s' L', sem_post sem s = Some (SemOK, s') ∧ sem_inv s' L' idle ∧
    point (semcount s) (semcount s') sem (semcount s sem + 1) ∧ (∀ y, errno_of s' y = errno_of s y) ∧
    (∀ y, flags (get (sch s') y) = flags (get (sch s) y)) ∧
    if semcount s sem <? 0 then
      ∃ x, head (waiting (tcbs (sch s)) L sem) = Some x ∧ wsem s x = sem ∧ point (wsem s) (wsem s') x 0
    else ∀ y, wsem s' y = wsem s y.
Proof. intros Hi Hne Hm. destruct (sem_post_wakes s L idle sem Hi Hne Hm) as (s' & L' & _ & H). by exists s', L'. Qed.

(** An interrupted wait. *)
Lemma sem_waitirq_effect s L idle x err : sem_inv s L idle →
  ∃ s' L', sem_waitirq x err s = Some s' ∧ sem_inv s' L' idle ∧
    (∀ y, flags (get (sch s') y) = flags (get (sch s) y)) ∧
    if decide (wsem s x = 0) then s' = s
    else point (semcount s) (semcount s') (wsem s x) (semcount s (wsem s x) + 1) ∧
         point (wsem s) (wsem s') x 0 ∧ point (errno_of s) (errno_of s') x err.
Proof.
  intros Hi. destruct (sem_waitirq_abs s L idle x err Hi) as (s' & L' & E & Hi' & H).
  destruct (sem_waitirq_fields _ _ _ _ E) as [Hf He]. exists s', L'. split_and!; [done..|].
  pose proof (sv_waits _ _ _ Hi x) as Hx. fold (wsem s x) in Hx.
  destruct (decide (x ∈ L g_waitingforsemaphore)) as [Hin|Hin].
  - rewrite decide_False by tauto. destruct H as (Hc & Hex & HL & _). fold (wsem s x) in Hc.
    destruct (sem_waitirq_others _ _ _ _ E) as [Hk Hy].
    pose proof (sv_sched _ _ _ Hi) as (Hw & _).
    destruct (lo_repr _ _ (sw_lists _ _ _ Hw) g_waitingforsemaphore) as (_ & Hnd & _).
    split_and!; intros k; case_decide as Hkx; subst; try done.
    + by apply Hk.
    + destruct (Z.eq_dec (wsem s' x) 0) as [|Hx']; [done|]. apply (sv_waits _ _ _ Hi') in Hx'. revert Hx'.
      rewrite HL, elem_of_remove_first by done. tauto.
    + by apply Hy.
    + by apply He.
  - rewrite decide_True by (destruct (Z.eq_dec (wsem s x) 0); tauto). apply H.
Qed.
End View.
