(* ===== verification/Wdog.v ===== *)
(** Watchdog timers: sched/wd_initialize.c, wd_create.c, wd_start.c,
    wd_cancel.c, wd_gettime.c and wd_delete.c.

    A watchdog is a [wdog_t] at an address; the store of watchdogs is an
    [SqStore], so the two queues are those of lib/queue.  [int] fields keep
    their 32-bit width ([i32]).  Functions that loop take their fuel from the
    number of watchdogs; [None] is a panic or a loop that does not end. *)

From stdpp Require Import base numbers functions gmap sorting list.
From S2P Require Import Prelude Queue Memory.

Definition CONFIG_MAX_WDOGPARMS : Z := 2.
Definition CONFIG_PREALLOC_WDOGS : nat := 4.
Definition OK : Z := 0.
Definition ERROR : Z := -1.
Definition EINVAL : Z := 22.
Definition INT_MAX : Z := 2 ^ 31 - 1.

(** [struct wdog_s]. *)
Record wdog_t := mk_wdog {
  wnext : Z; func : Z; lag : Z; active : bool; argc : Z; parm : list Z
}.

Definition sizeof_wdog_t : Z := 24.

Definition wdog0 : wdog_t := mk_wdog 0 0 0 false 0 [0; 0].
Definition with_next v w := mk_wdog v (func w) (lag w) (active w) (argc w) (parm w).
Definition with_lag v w := mk_wdog (wnext w) (func w) (i32 v) (active w) (argc w) (parm w).
Definition with_active v w := mk_wdog (wnext w) (func w) (lag w) v (argc w) (parm w).
Definition with_func v w := mk_wdog (wnext w) v (lag w) (active w) (argc w) (parm w).
Definition with_argc v w := mk_wdog (wnext w) (func w) (lag w) (active w) (v mod 2 ^ 8) (parm w).
Definition with_parm v w := mk_wdog (wnext w) (func w) (lag w) (active w) (argc w) v.

Definition wdogs := gmap Z wdog_t.
Definition wdog_at (s : wdogs) (p : Z) : wdog_t := default wdog0 (s !! p).
Definition on_wdog (p : Z) (f : wdog_t → wdog_t) (s : wdogs) : wdogs := <[p := f (wdog_at s p)]> s.

#[export] Instance wdogs_sq : SqStore wdogs := {
  flink s p := wnext (wdog_at s p);
  set_flink p v s := on_wdog p (with_next v) s;
}.

(** The variables of wd_initialize.c, and the caller's [errno]. *)
Record wdst := mk_wdst {
  store : wdogs; g_wdactivelist : queue_t; g_wdfreelist : queue_t; wd_errno : Z
}.

Definition wget (st : wdst) (p : Z) : wdog_t := wdog_at (store st) p.
Definition with_store (s : wdogs) (st : wdst) : wdst :=
  mk_wdst s (g_wdactivelist st) (g_wdfreelist st) (wd_errno st).
Definition wupd (p : Z) (f : wdog_t → wdog_t) (st : wdst) : wdst :=
  with_store (on_wdog p f (store st)) st.
Definition with_activelist (r : queue_t * wdogs) (st : wdst) : wdst :=
  mk_wdst r.2 r.1 (g_wdfreelist st) (wd_errno st).
Definition with_freelist (r : queue_t * wdogs) (st : wdst) : wdst :=
  mk_wdst r.2 (g_wdactivelist st) r.1 (wd_errno st).
Definition with_wd_errno (v : Z) (st : wdst) : wdst :=
  mk_wdst (store st) (g_wdactivelist st) (g_wdfreelist st) v.

Definition wd_fuel (st : wdst) : nat := size (store st).

(** ** wd_initialize.c *)

(** The pool of watchdogs at [pool], the address [kmalloc] returned. *)
Fixpoint wd_fill (n : nat) (wdog : Z) (st : wdst) : wdst :=
  match n with
  | O => st
  | S n =>
      wd_fill n (wdog + sizeof_wdog_t) (with_freelist (sq_addlast wdog (g_wdfreelist st) (store st)) st)
  end.

Definition wd_initialize (pool : Z) (st : wdst) : wdst :=
  let st := with_freelist (sq_init, store st) st in
  let st := if negb (pool =? 0) then wd_fill CONFIG_PREALLOC_WDOGS pool st else st in
  with_activelist (sq_init, store st) st.

(** ** wd_create.c *)

Definition wd_create (st : wdst) : Z * wdst :=
  let '(wdog, q, s) := sq_remfirst (g_wdfreelist st) (store st) in
  let st := with_freelist (q, s) st in
  if negb (wdog =? 0) then (wdog, wupd wdog (with_active false) (wupd wdog (with_next 0) st))
  else (wdog, st).

(** ** wd_cancel.c *)

(** [while (curr && curr != wdid) { prev = curr; curr = curr->next; }] *)
Fixpoint wd_search (fuel : nat) (s : wdogs) (wdid prev curr : Z) : option (Z * Z) :=
  if negb (curr =? 0) && negb (curr =? wdid) then
    match fuel with
    | O => None
    | S fuel => wd_search fuel s wdid curr (wnext (wdog_at s curr))
    end
  else Some (prev, curr).

Definition wd_cancel (wdid : Z) (st : wdst) : option (Z * wdst) :=
  if negb (wdid =? 0) && active (wget st wdid) then
    '(prev, curr) ← wd_search (wd_fuel st) (store st) wdid 0 (q_head (g_wdactivelist st));
    if curr =? 0 then None else
    let next := wnext (wget st curr) in
    let st := if negb (next =? 0)
              then wupd next (with_lag (lag (wget st next) + lag (wget st curr))) st else st in
    let '(_, q, s) := if negb (prev =? 0) then sq_remafter prev (g_wdactivelist st) (store st)
                      else sq_remfirst (g_wdactivelist st) (store st) in
    let st := with_activelist (q, s) st in
    let st := wupd wdid (with_next 0) st in
    Some (OK, wupd wdid (with_active false) st)
  else Some (ERROR, st).

(** ** wd_gettime.c *)

Fixpoint wd_sumlags (fuel : nat) (s : wdogs) (wdog delay curr : Z) : option Z :=
  if curr =? 0 then Some 0 else
  let delay := i32 (delay + lag (wdog_at s curr)) in
  if curr =? wdog then Some delay else
  match fuel with
  | O => None
  | S fuel => wd_sumlags fuel s wdog delay (wnext (wdog_at s curr))
  end.

Definition wd_gettime (wdog : Z) (st : wdst) : option Z :=
  if negb (wdog =? 0) && active (wget st wdog)
  then wd_sumlags (wd_fuel st) (store st) wdog 0 (q_head (g_wdactivelist st))
  else Some 0.

(** ** wd_start.c *)

(** [while ((now += curr->lag) < 0 && curr->next)] *)
Fixpoint wd_positive (fuel : nat) (s : wdogs) (now prev curr : Z) : option (Z * Z * Z) :=
  let now := i32 (now + lag (wdog_at s curr)) in
  if (now <? 0) && negb (wnext (wdog_at s curr) =? 0) then
    match fuel with
    | O => None
    | S fuel => wd_positive fuel s now curr (wnext (wdog_at s curr))
    end
  else Some (now, prev, curr).

(** [while (now <= delay && curr->next)] *)
Fixpoint wd_shorter (fuel : nat) (s : wdogs) (delay now prev curr : Z) : option (Z * Z * Z) :=
  if (now <=? delay) && negb (wnext (wdog_at s curr) =? 0) then
    match fuel with
    | O => None
    | S fuel =>
        let next := wnext (wdog_at s curr) in
        wd_shorter fuel s delay (i32 (now + lag (wdog_at s next))) curr next
    end
  else Some (now, prev, curr).

(** Insertion in the queue of active watchdogs; returns the relative delay. *)
Definition wd_insert (wdog delay : Z) (st : wdst) : option (Z * wdst) :=
  let head := q_head (g_wdactivelist st) in
  if head =? 0 then
    Some (delay, with_activelist (sq_addlast wdog (g_wdactivelist st) (store st)) st)
  else
    '(now, prev, curr) ← wd_positive (wd_fuel st) (store st) 0 head head;
    '(now, prev, curr) ← wd_shorter (wd_fuel st) (store st) delay now prev curr;
    if delay <? now then
      let delay := i32 (delay - (now - lag (wget st curr))) in
      let st := wupd curr (with_lag (lag (wget st curr) - delay)) st in
      Some (delay, with_activelist
        (if curr =? q_head (g_wdactivelist st)
         then sq_addfirst wdog (g_wdactivelist st) (store st)
         else sq_addafter prev wdog (g_wdactivelist st) (store st)) st)
    else
      let delay := i32 (delay - now) in
      let next := wnext (wget st curr) in
      if next =? 0 then
        Some (delay, with_activelist (sq_addlast wdog (g_wdactivelist st) (store st)) st)
      else
        let st := wupd next (with_lag (lag (wget st next) - delay)) st in
        Some (delay, with_activelist (sq_addafter curr wdog (g_wdactivelist st) (store st)) st).

(** Delay plus one, forced into the range of [int]. *)
Definition wd_delay (delay : Z) : Z :=
  if delay <=? 0 then 1
  else let delay := i32 (delay + 1) in if delay <=? 0 then i32 (delay - 1) else delay.

(** [ap] is the variable part of the argument list. *)
Definition wd_start (wdog delay wdentry argc : Z) (ap : list Z) (st : wdst) : option (Z * wdst) :=
  if (wdog =? 0) || (CONFIG_MAX_WDOGPARMS <? argc) || (delay <? 0) then
    Some (ERROR, with_wd_errno EINVAL st)
  else
    st ← (if active (wget st wdog) then '(_, st) ← wd_cancel wdog st; Some st else Some st);
    let st := wupd wdog (with_func wdentry) st in
    let st := wupd wdog (with_argc argc) st in
    if (length ap <? Z.to_nat argc)%nat then None else
    let st := wupd wdog (with_parm (take (Z.to_nat argc) ap ++ drop (Z.to_nat argc) (parm (wget st wdog)))) st in
    '(delay, st) ← wd_insert wdog (wd_delay delay) st;
    Some (OK, wupd wdog (with_active true) (wupd wdog (with_lag delay) st)).

(** ** wd_delete.c *)

Definition wd_delete (wdId : Z) (st : wdst) : option (Z * wdst) :=
  if wdId =? 0 then Some (ERROR, with_wd_errno EINVAL st) else
  st ← (if active (wget st wdId) then '(_, st) ← wd_cancel wdId st; Some st else Some st);
  Some (OK, with_freelist (sq_addlast wdId (g_wdfreelist st) (store st)) st).

(** ** Calls of the interface, and [wd_timer] *)

Inductive wd_op :=
  | WdCreate | WdStart (wdog delay wdentry argc : Z) (ap : list Z)
  | WdCancel (wdog : Z) | WdDelete (wdog : Z).

Definition wd_exec (op : wd_op) (st : wdst) : option (Z * wdst) :=
  match op with
  | WdCreate => Some (wd_create st)
  | WdStart wdog delay wdentry argc ap => wd_start wdog delay wdentry argc ap st
  | WdCancel wdog => wd_cancel wdog st
  | WdDelete wdog => wd_delete wdog st
  end.

Fixpoint wd_execs (ops : list wd_op) (st : wdst) : option wdst :=
  match ops with
  | [] => Some st
  | op :: ops => '(_, st) ← wd_exec op st; wd_execs ops st
  end.

(** The arguments [wd_timer] passes to the function of a watchdog. *)
Definition wd_args (w : wdog_t) : list Z :=
  if argc w =? 1 then take 1 (parm w) else if argc w =? 2 then take 2 (parm w) else [].

Section Timer.
(** What the function [func], called with the arguments, asks of this
    interface in a given state. *)
Variable callback : Z → list Z → wdst → list wd_op.

(** The watchdogs that expired and the calls of their functions, in order. *)
Fixpoint wd_expire (fuel : nat) (st : wdst) : option (list (Z * (Z * list Z)) * wdst) :=
  let head := q_head (g_wdactivelist st) in
  if negb (head =? 0) && (lag (wget st head) <=? 0) then
    match fuel with
    | O => None
    | S fuel =>
        let '(wdog, q, s) := sq_remfirst (g_wdactivelist st) (store st) in
        let st := with_activelist (q, s) st in
        let head := q_head (g_wdactivelist st) in
        let st := if negb (head =? 0)
                  then wupd head (with_lag (lag (wget st head) + lag (wget st wdog))) st else st in
        let st := wupd wdog (with_active false) st in
        let '(f, args) := (func (wget st wdog), wd_args (wget st wdog)) in
        st ← wd_execs (callback f args st) st;
        '(fired, st) ← wd_expire fuel st;
        Some ((wdog, (f, args)) :: fired, st)
    end
  else Some ([], st).

Definition wd_timer (st : wdst) : option (list (Z * (Z * list Z)) * wdst) :=
  let head := q_head (g_wdactivelist st) in
  if negb (head =? 0) then
    let st := wupd head (with_lag (lag (wget st head) - 1)) st in
    if lag (wget st head) <=? 0 then wd_expire (wd_fuel st) st else Some ([], st)
  else Some ([], st).
End Timer.
