(* ===== verification/WdogInv.v ===== *)
(** The timer queue as a list of watchdogs with their remaining times, and what
    each operation on watchdogs does to it.

    [wd_repr lo st A F]: the active queue holds the watchdogs of [A], each with
    the time that remains until it expires; the stored lags are the differences
    of these times, which ascend from [lo] and fit an [int].  [F] is the free
    list.  Between ticks [lo] is 1; while [wd_timer] runs it is 0. *)

From stdpp Require Import base numbers functions gmap sorting list.
From S2P Require Import Prelude Queue Memory Wdog.

Fixpoint deltas (s : wdogs) (base : Z) (A : list (Z * Z)) : Prop :=
  match A with
  | [] => True
  | (x, t) :: A => lag (wdog_at s x) = t - base ∧ deltas s t A
  end.

Fixpoint ascending (lo : Z) (A : list (Z * Z)) : Prop :=
  match A with
  | [] => True
  | (x, t) :: A => lo ≤ t ≤ INT_MAX ∧ ascending t A
  end.

Record wd_repr (lo : Z) (st : wdst) (A : list (Z * Z)) (F : list Z) : Prop := {
  wr_active : sq_repr (store st) (g_wdactivelist st) A.*1;
  wr_free : sq_repr (store st) (g_wdfreelist st) F;
  wr_disj : ∀ x, x ∈ A.*1 → x ∉ F;
  wr_lags : deltas (store st) 0 A;
  wr_times : ascending lo A;
  wr_flags : ∀ x, x ∉ F → active (wget st x) = true ↔ x ∈ A.*1;
  wr_dom : ∀ x, x ∈ A.*1 → is_Some (store st !! x);
}.

(** The order of the queue: by time, first come first served. *)
Fixpoint tinsert (x d : Z) (A : list (Z * Z)) : list (Z * Z) :=
  match A with
  | [] => [(x, d)]
  | (y, t) :: A' => if d <? t then (x, d) :: A else (y, t) :: tinsert x d A'
  end.

Fixpoint tremove (x : Z) (A : list (Z * Z)) : list (Z * Z) :=
  match A with
  | [] => []
  | (y, t) :: A => if y =? x then A else (y, t) :: tremove x A
  end.

Fixpoint remaining (A : list (Z * Z)) (x : Z) : option Z :=
  match A with
  | [] => None
  | (y, t) :: A => if y =? x then Some t else remaining A x
  end.

(** ** Integers *)

Lemma wd_delay_spec d : 0 ≤ d ≤ INT_MAX → wd_delay d = Z.min (d + 1) INT_MAX.
Proof.
  intros Hd. unfold wd_delay. unfold INT_MAX in *. case_test; [lia|].
  destruct (decide (d = 2 ^ 31 - 1)) as [->|Hne]; [reflexivity|].
  rewrite i32_small by lia. case_test; lia.
Qed.

(** ** The store *)

Section Store.
Implicit Types (s : wdogs) (st : wdst) (A : list (Z * Z)) (F l : list Z).

Lemma wdog_at_on p f s y :
  wdog_at (on_wdog p f s) y = if decide (y = p) then f (wdog_at s y) else wdog_at s y.
Proof.
  unfold on_wdog. unfold wdog_at at 1. unfold wdogs in *. case_decide as E.
  - subst. by rewrite lookup_insert_eq.
  - by rewrite lookup_insert_ne.
Qed.

#[export] Instance wdogs_laws : SqLaws wdogs.
Proof. split. intros s p v y. simpl. rewrite wdog_at_on. by case_decide. Qed.

Lemma on_is_Some p f s y : is_Some (s !! y) → is_Some (on_wdog p f s !! y).
Proof.
  unfold on_wdog, wdogs in *. destruct (decide (y = p)) as [->|];
    [rewrite lookup_insert_eq; eauto|by rewrite lookup_insert_ne].
Qed.

Lemma on_is_Some_self p f s : is_Some (on_wdog p f s !! p).
Proof. unfold on_wdog, wdogs in *. rewrite lookup_insert_eq. eauto. Qed.

(** Only the links of [P] may differ. *)
Definition links_only (P : list Z) s s' : Prop :=
  (∀ y, y ∉ P → wdog_at s' y = wdog_at s y) ∧
  (∀ y, with_next 0 (wdog_at s' y) = with_next 0 (wdog_at s y)) ∧
  (∀ y, is_Some (s !! y) → is_Some (s' !! y)).

Lemma links_only_refl P s : links_only P s s.
Proof. by split_and!. Qed.

Lemma links_only_trans P s1 s2 s3 : links_only P s1 s2 → links_only P s2 s3 → links_only P s1 s3.
Proof.
  intros (H1 & H2 & H3) (H4 & H5 & H6). split_and!; [|congruence|auto].
  intros y Hy. rewrite H4, H1; done.
Qed.

Lemma links_only_flink P p v s : p ∈ P → links_only P s (set_flink p v s).
Proof.
  intros Hp. split_and!; simpl; [intros y Hy|intros y|intros y; apply on_is_Some];
    rewrite wdog_at_on; case_decide; by subst.
Qed.

Lemma links_only_data P s s' y : links_only P s s' →
  lag (wdog_at s' y) = lag (wdog_at s y) ∧ active (wdog_at s' y) = active (wdog_at s y) ∧
  func (wdog_at s' y) = func (wdog_at s y) ∧ wd_args (wdog_at s' y) = wd_args (wdog_at s y).
Proof.
  intros (_ & H & _). specialize (H y). unfold wd_args.
  destruct (wdog_at s' y), (wdog_at s y). unfold with_next in H. simpl in *.
  inversion H. subst. done.
Qed.

Lemma deltas_ext s s' b A : (∀ y, y ∈ A.*1 → lag (wdog_at s' y) = lag (wdog_at s y)) →
  deltas s b A → deltas s' b A.
Proof.
  revert b. induction A as [|[x t] A IH]; intros b He; simpl in *; [done|]. intros [H1 H2].
  split; [rewrite He by in_list; done|]. apply IH; [|done]. intros y Hy. apply He. in_list.
Qed.

Definition tlast (b : Z) A : Z := default b (last A.*2).

Lemma tlast_cons b x t A : tlast b ((x, t) :: A) = tlast t A.
Proof. unfold tlast. rewrite fmap_cons, last_cons. by destruct (last A.*2). Qed.

Lemma deltas_app s b A1 A2 : deltas s b (A1 ++ A2) ↔ deltas s b A1 ∧ deltas s (tlast b A1) A2.
Proof.
  revert b. induction A1 as [|[x t] A1 IH]; intros b; simpl.
  - unfold tlast; simpl. tauto.
  - rewrite tlast_cons, IH. tauto.
Qed.

Lemma ascending_app b A1 A2 : ascending b (A1 ++ A2) ↔ ascending b A1 ∧ ascending (tlast b A1) A2.
Proof.
  revert b. induction A1 as [|[x t] A1 IH]; intros b; simpl.
  - unfold tlast; simpl. tauto.
  - rewrite tlast_cons, IH. tauto.
Qed.

Lemma ascending_weaken b b' A : b' ≤ b → ascending b A → ascending b' A.
Proof. destruct A as [|[x t] A]; simpl; [done|]. intros ? [? ?]. split; [lia|done]. Qed.

Lemma ascending_tlast b A : b ≤ INT_MAX → ascending b A → b ≤ tlast b A ≤ INT_MAX.
Proof.
  revert b. induction A as [|[x t] A IH]; intros b Hb; simpl.
  - unfold tlast. simpl. lia.
  - intros [H1 H2]. rewrite tlast_cons. destruct (IH t); [lia|done|lia].
Qed.

Lemma wd_length lo st A F : wd_repr lo st A F → (length A ≤ wd_fuel st)%nat.
Proof.
  intros Hr. destruct (wr_active _ _ _ _ Hr) as (_ & Hn & _). unfold wd_fuel.
  rewrite <-(length_fmap fst), <-(size_list_to_set (C:=gset Z) A.*1) by done.
  etransitivity; [apply (subseteq_size _ (dom (store st)))|].
  - intros x Hx%elem_of_list_to_set. apply elem_of_dom. by eapply wr_dom.
  - apply Nat.eq_le_incl, (size_dom (M:=gmap Z)).
Qed.
End Store.
