(* ===== verification/WdogOps.v ===== *)
(** What wd_cancel, wd_start, wd_create and wd_delete do to the timer queue. *)

From stdpp Require Import base numbers functions gmap sorting list.
From S2P Require Import Prelude Queue Memory Wdog WdogInv.

Section Ops.
Implicit Types (s : wdogs) (st : wdst) (A : list (Z * Z)) (F l : list Z).

Lemma wget_wupd p f st y :
  wget (wupd p f st) y = if decide (y = p) then f (wget st y) else wget st y.
Proof. apply wdog_at_on. Qed.

(** ** The queue operations touch only links *)

Lemma flinks_only P s s' : flinks P s s' → links_only P s s'.
Proof.
  induction 1 as [|s s' p v Hp _ IH]; [apply links_only_refl|].
  eapply links_only_trans; [exact IH|by apply links_only_flink].
Qed.

Lemma sq_addlast_only s q l x : sq_repr s q l → links_only (x :: l) s (sq_addlast x q s).2.
Proof. intros Hr. by apply flinks_only, sq_addlast_flinks. Qed.

Lemma sq_addfirst_only s q l x : links_only (x :: l) s (sq_addfirst x q s).2.
Proof. apply flinks_only, sq_addfirst_flinks. Qed.

Lemma sq_addafter_only s q l p x : sq_repr s q l → p ∈ l → links_only (x :: l) s (sq_addafter p x q s).2.
Proof. intros Hr Hp. by apply flinks_only, sq_addafter_flinks. Qed.

Lemma sq_remfirst_only s q l : sq_repr s q l → links_only l s (sq_remfirst q s).2.
Proof. intros Hr. by apply flinks_only, sq_remfirst_flinks. Qed.

Lemma sq_remafter_only s q l1 p x l2 : sq_repr s q (l1 ++ p :: x :: l2) →
  links_only (l1 ++ p :: x :: l2) s (sq_remafter p q s).2.
Proof. intros Hr. by apply flinks_only, sq_remafter_flinks. Qed.

(** ** Searching *)

Lemma default_last_cons (p c : Z) l : default p (last (c :: l)) = default c (last l).
Proof. rewrite last_cons. by destruct (last l). Qed.

Lemma wd_search_spec fuel s l1 x l2 prev :
  chain (flink s) (l1 ++ x :: l2) 0 → NoDup (l1 ++ x :: l2) → 0 ∉ l1 ++ x :: l2 →
  (length l1 ≤ fuel)%nat →
  wd_search fuel s x prev (default 0 (head (l1 ++ x :: l2))) = Some (default prev (last l1), x).
Proof.
  revert fuel prev. induction l1 as [|a l1 IH]; intros fuel prev Hc Hn H0 Hf.
  - simpl. destruct fuel; simpl; rewrite Z.eqb_refl, andb_false_r; done.
  - simpl in Hf. destruct fuel as [|fuel]; [lia|]. simpl in Hc. destruct Hc as [Ha Hc].
    simpl in Hn. apply NoDup_cons in Hn as [Ha' Hn].
    change (default 0 (head ((a :: l1) ++ x :: l2))) with a. simpl.
    rewrite (proj2 (Z.eqb_neq a 0)), (proj2 (Z.eqb_neq a x)) by in_list. simpl.
    simpl in Ha. rewrite Ha, IH, default_last_cons; [done|done|done|in_list|lia].
Qed.

Lemma wd_sumlags_spec fuel s l1 A1 x t A2 b :
  l1 = A1.*1 → chain (flink s) (l1 ++ x :: A2.*1) 0 → NoDup (l1 ++ x :: A2.*1) →
  0 ∉ l1 ++ x :: A2.*1 → deltas s b (A1 ++ (x, t) :: A2) → 0 ≤ b → ascending b (A1 ++ (x, t) :: A2) →
  (length A1 ≤ fuel)%nat →
  wd_sumlags fuel s x b (default 0 (head (l1 ++ x :: A2.*1))) = Some t.
Proof.
  revert fuel A1 b. induction l1 as [|a l1 IH]; intros fuel A1 b Hl Hc Hn H0 Hd Hb Ha Hf.
  - destruct A1 as [|[? ?] A1]; [|done]. simpl in *. destruct Hd as [Hx _], Ha as [Ha _].
    unfold INT_MAX in Ha.
    destruct fuel; simpl; rewrite (proj2 (Z.eqb_neq x 0)), Z.eqb_refl, Hx by in_list;
      rewrite i32_small by lia; f_equal; lia.
  - destruct A1 as [|[a' u] A1]; [done|]. simpl in Hl. simplify_eq.
    simpl in Hf. destruct fuel as [|fuel]; [lia|]. simpl in Hc. destruct Hc as [Hnx Hc].
    simpl in Hn. apply NoDup_cons in Hn as [Ha' Hn]. simpl in Hd, Ha.
    destruct Hd as [Hx Hd], Ha as [Hu Ha]. unfold INT_MAX in Hu.
    change (default 0 (head (a' :: A1.*1 ++ x :: A2.*1))) with a'. simpl.
    change (default 0 (head ((a' :: A1.*1) ++ x :: A2.*1))) with a'. simpl.
    rewrite (proj2 (Z.eqb_neq a' 0)), (proj2 (Z.eqb_neq a' x)) by in_list. simpl.
    rewrite Hx, i32_small by lia. replace (b + (u - b)) with u by lia.
    simpl in Hnx. rewrite Hnx. apply (IH fuel A1 u); [done|done|done|in_list|done|lia|done|lia].
Qed.

(** The search for the place of a watchdog that expires in [d] ticks. *)
Lemma wd_shorter_spec fuel s d c t A prev :
  chain (flink s) (c :: A.*1) 0 → 0 ∉ A.*1 → deltas s t A → 0 ≤ t → ascending t A →
  (length A ≤ fuel)%nat →
  ∃ B y ty C, (c, t) :: A = B ++ (y, ty) :: C ∧
    wd_shorter fuel s d t prev c = Some (ty, default prev (last B.*1), y) ∧
    (∀ z tz, (z, tz) ∈ B → tz ≤ d) ∧ (d < ty ∨ C = []).
Proof.
  revert fuel c t prev. induction A as [|[a u] A IH]; intros fuel c t prev Hc H0 Hd Ht Ha Hf.
  - exists [], c, t, []. split_and!; [done| |intros ? ? []%not_elem_of_nil|by right].
    simpl in Hc. destruct Hc as [Hc _]. simpl in Hc.
    destruct fuel; simpl; rewrite Hc; simpl; by rewrite andb_false_r.
  - simpl in Hc. destruct Hc as [Hc Hc']. simpl in Hc, Hd, Ha, Hf. destruct Hd as [Hl Hd], Ha as [Hu Ha].
    destruct fuel as [|fuel]; [lia|]. simpl. rewrite Hc. simpl in H0.
    rewrite (proj2 (Z.eqb_neq a 0)) by in_list. rewrite andb_true_r. case_test.
    + unfold INT_MAX in Hu. rewrite Hl, i32_small by lia. replace (t + (u - t)) with u by lia.
      destruct (IH fuel a u c) as (B & y & ty & C & HA & Hs & HB & Hd'); [done|in_list|done|lia|done|lia|].
      exists ((c, t) :: B), y, ty, C. split_and!; [by rewrite HA| |intros z tz Hz|done].
      * by rewrite Hs, fmap_cons, default_last_cons.
      * apply elem_of_cons in Hz as [[= -> ->]|Hz]; [done|]. by eapply HB.
    + exists [], c, t, ((a, u) :: A). split_and!; [done|done|intros ? ? []%not_elem_of_nil|left; lia].
Qed.

Lemma tinsert_app x d B C : (∀ z tz, (z, tz) ∈ B → tz ≤ d) → tinsert x d (B ++ C) = B ++ tinsert x d C.
Proof.
  induction B as [|[z tz] B IH]; intros HB; simpl; [done|].
  assert (tz ≤ d) by (eapply HB; in_list). case_test; [lia|]. f_equal. apply IH.
  intros y ty Hy. apply (HB y). in_list.
Qed.

Lemma tremove_app x t A1 A2 : x ∉ A1.*1 → tremove x (A1 ++ (x, t) :: A2) = A1 ++ A2.
Proof.
  induction A1 as [|[z tz] A1 IH]; intros HA; simpl in *; [by rewrite Z.eqb_refl|].
  rewrite (proj2 (Z.eqb_neq z x)) by in_list. f_equal. apply IH. in_list.
Qed.

(** ** Leaving the queue *)

(** The functions and arguments of the watchdogs are the same. *)
Definition same_calls st st' : Prop :=
  ∀ y, func (wget st' y) = func (wget st y) ∧ wd_args (wget st' y) = wd_args (wget st y).

(** Only lags differ. *)
Definition lags_only st st' : Prop :=
  (∀ y, wnext (wget st' y) = wnext (wget st y) ∧ active (wget st' y) = active (wget st y)) ∧
  same_calls st st' ∧ (∀ y, is_Some (store st !! y) → is_Some (store st' !! y)) ∧
  g_wdactivelist st' = g_wdactivelist st ∧ g_wdfreelist st' = g_wdfreelist st ∧ wd_errno st' = wd_errno st.

Lemma lags_only_refl st : lags_only st st.
Proof. by split_and!. Qed.

Lemma lags_only_upd p v st : lags_only st (wupd p (with_lag v) st).
Proof.
  split_and!; [intros y|intros y|intros y; apply on_is_Some|done..];
    rewrite !wget_wupd; by case_decide.
Qed.

Lemma wd_parts lo st A1 x t A2 F : wd_repr lo st (A1 ++ (x, t) :: A2) F →
  NoDup (A1.*1 ++ x :: A2.*1) ∧ 0 ∉ A1.*1 ++ x :: A2.*1 ∧ x ∉ A1.*1 ++ A2.*1 ∧ x ∉ F ∧
  sq_repr (store st) (g_wdactivelist st) (A1.*1 ++ x :: A2.*1).
Proof.
  intros Hr. pose proof (wr_active _ _ _ _ Hr) as Ha. rewrite fmap_app in Ha. simpl in Ha.
  pose proof Ha as (_ & Hn & H0 & _).
  split_and!; [done|done| | |done].
  - by apply NoDup_mid in Hn as [].
  - eapply wr_disj; [exact Hr|]. rewrite fmap_app. simpl. in_list.
Qed.

Lemma wd_inherit s b A1 x t A2 nx :
  deltas s b (A1 ++ (x, t) :: A2) → NoDup (A1.*1 ++ x :: A2.*1) → 0 ∉ A1.*1 ++ x :: A2.*1 →
  0 ≤ b ≤ INT_MAX → ascending b (A1 ++ (x, t) :: A2) → nx = default 0 (head A2.*1) →
  deltas (if negb (nx =? 0)
          then on_wdog nx (with_lag (lag (wdog_at s nx) + lag (wdog_at s x))) s else s) b (A1 ++ A2).
Proof.
  intros [Hd1 Hd2]%deltas_app Hn H0 Hb [Ha1 Ha2]%ascending_app ->.
  pose proof (ascending_tlast b A1 ltac:(lia) Ha1) as Ht. simpl in Hd2, Ha2.
  destruct Hd2 as [Hx Hd2], Ha2 as [Ha2 Ha3].
  destruct A2 as [|[y u] A2]; simpl in *; [by rewrite app_nil_r|].
  rewrite (proj2 (Z.eqb_neq y 0)) by in_list. simpl. destruct Hd2 as [Hy Hd2], Ha3 as [Hu Ha3].
  apply NoDup_app in Hn as (_ & Hn & [_ [Hn2 _]%NoDup_cons]%NoDup_cons).
  apply deltas_app. split; [|simpl; split].
  - eapply deltas_ext; [|exact Hd1]. intros z Hz. rewrite wdog_at_on. case_decide; [|done].
    subst. destruct (Hn y Hz). in_list.
  - rewrite wdog_at_on, decide_True by done. simpl. unfold INT_MAX in *. rewrite i32_small; lia.
  - eapply deltas_ext; [|exact Hd2]. intros z Hz. rewrite wdog_at_on. case_decide; [|done]. by subst.
Qed.

Lemma ascending_remove lo A1 x t A2 : ascending lo (A1 ++ (x, t) :: A2) → ascending lo (A1 ++ A2).
Proof.
  intros [Ha1 [Ht Ha2]]%ascending_app. apply ascending_app. split; [done|].
  eapply ascending_weaken; [|exact Ha2]. lia.
Qed.

Lemma wd_repr_remove lo st st' A1 x t A2 F :
  wd_repr lo st (A1 ++ (x, t) :: A2) F →
  sq_repr (store st') (g_wdactivelist st') (A1.*1 ++ A2.*1) →
  g_wdfreelist st' = g_wdfreelist st → (∀ y, y ∈ F → wnext (wget st' y) = wnext (wget st y)) →
  deltas (store st') 0 (A1 ++ A2) →
  (∀ y, y ≠ x → active (wget st' y) = active (wget st y)) → active (wget st' x) = false →
  (∀ y, is_Some (store st !! y) → is_Some (store st' !! y)) →
  wd_repr lo st' (A1 ++ A2) F.
Proof.
  intros Hr Hq Hf Hfl Hd Hact Hx Hdom. destruct (wd_parts _ _ _ _ _ _ _ Hr) as (_ & _ & Hnx & HxF & _).
  assert (Hin : ∀ y, y ∈ (A1 ++ A2).*1 → y ∈ (A1 ++ (x, t) :: A2).*1).
  { intros y. rewrite !fmap_app. simpl. intros. in_list. }
  split; rewrite ?fmap_app in *; try done.
  - rewrite Hf. eapply sq_repr_links; [|apply (wr_free _ _ _ _ Hr)]. exact Hfl.
  - intros y Hy. eapply wr_disj; [exact Hr|]. rewrite fmap_app. by apply Hin.
  - eapply ascending_remove, wr_times, Hr.
  - intros y Hy. destruct (decide (y = x)) as [->|Hne].
    + rewrite Hx. split; [done|]. intros; by destruct Hnx.
    + rewrite Hact by done. rewrite (wr_flags _ _ _ _ Hr y Hy), !fmap_app. simpl. in_list.
  - intros y Hy. apply Hdom. eapply wr_dom; [exact Hr|]. rewrite fmap_app. by apply Hin.
Qed.

Lemma sq_head_mid s q l1 x l2 : sq_repr s q (l1 ++ x :: l2) → q_head q = default 0 (head (l1 ++ x :: l2)).
Proof. by intros (_ & _ & _ & ? & _). Qed.

(** Unlinking [x] with its predecessor, 0 when it is the first. *)
Lemma wd_unlink s q l1 x l2 :
  sq_repr s q (l1 ++ x :: l2) →
  let r := if negb (default 0 (last l1) =? 0) then sq_remafter (default 0 (last l1)) q s
           else sq_remfirst q s in
  sq_repr r.2 r.1.2 (l1 ++ l2) ∧ links_only (l1 ++ x :: l2) s r.2 ∧ r.1.1 = x.
Proof.
  intros Hr. pose proof Hr as (_ & _ & H0 & _). destruct (last l1) as [p|] eqn:El; simpl.
  - pose proof El as [k ->]%last_Some. rewrite <-app_assoc in Hr, H0 |- *. rewrite <-(app_assoc k). simpl in *.
    rewrite (proj2 (Z.eqb_neq p 0)) by in_list. simpl.
    pose proof (sq_remafter_spec _ _ _ _ _ _ Hr) as Hs.
    pose proof (sq_remafter_only _ _ _ _ _ _ Hr) as Ho.
    destruct (sq_remafter p q s) as [[ret q'] s']. destruct Hs as (-> & Hs & _).
    done.
  - apply last_None in El as ->. simpl in *.
    pose proof (sq_remfirst_spec _ _ _ Hr) as Hs. pose proof (sq_remfirst_only _ _ _ Hr) as Ho.
    destruct (sq_remfirst q s) as [[ret q'] s']. by destruct Hs as (-> & Hs & _).
Qed.

Lemma wd_cancel_active lo st A1 x t A2 F :
  wd_repr lo st (A1 ++ (x, t) :: A2) F → 0 ≤ lo →
  ∃ st', wd_cancel x st = Some (OK, st') ∧ wd_repr lo st' (A1 ++ A2) F ∧ same_calls st st' ∧
    wd_errno st' = wd_errno st ∧ active (wget st' x) = false.
Proof.
  intros Hr Hlo. destruct (wd_parts _ _ _ _ _ _ _ Hr) as (Hn & H0 & Hnx & HxF & Hq).
  pose proof Hq as (Hc & _). pose proof (chain_next _ _ _ _ _ Hc : wnext (wget st x) = _) as Hnext.
  assert (Hx0 : x ≠ 0) by in_list.
  unfold wd_cancel. rewrite (proj2 (Z.eqb_neq x 0)) by done.
  rewrite (proj2 (wr_flags _ _ _ _ Hr x HxF)) by (rewrite fmap_app; simpl; in_list). cbn [negb andb].
  rewrite (sq_head_mid _ _ _ _ _ Hq), wd_search_spec; [|done..|].
  2:{ pose proof (wd_length _ _ _ _ Hr) as Hl. rewrite length_app in Hl. rewrite length_fmap. lia. }
  cbn [mbind option_bind]. rewrite (proj2 (Z.eqb_neq x 0)) by done. rewrite Hnext.
  pose proof (wd_inherit _ 0 _ _ _ _ _ (wr_lags _ _ _ _ Hr) Hn H0 ltac:(unfold INT_MAX; lia)
    (ascending_weaken _ 0 _ Hlo (wr_times _ _ _ _ Hr)) eq_refl) as Hd.
  set (nx := default 0 (head A2.*1)) in *.
  set (st1 := if negb (nx =? 0) then _ else st).
  assert (Hst1 : store st1 = if negb (nx =? 0)
    then on_wdog nx (with_lag (lag (wdog_at (store st) nx) + lag (wdog_at (store st) x))) (store st)
    else store st) by (unfold st1; by destruct (negb _)).
  rewrite <-Hst1 in Hd.
  assert (Hlo1 : lags_only st st1) by
    (unfold st1; destruct (negb _); [apply lags_only_upd|apply lags_only_refl]).
  destruct Hlo1 as (Hone & Hcalls & Hdom1 & Hqa & Hqf & He).
  clearbody st1. rewrite Hqa.
  assert (Hq1 : sq_repr (store st1) (g_wdactivelist st) (A1.*1 ++ x :: A2.*1)).
  { eapply sq_repr_links; [|exact Hq]. intros y _. apply Hone. }
  destruct (wd_unlink _ _ _ _ _ Hq1) as (Hq2 & Ho & _).
  destruct (if negb (default 0 (last A1.*1) =? 0) then _ else _) as [[r q'] s']. simpl in Hq2, Ho.
  assert (Hw : ∀ y, y ≠ x → wget (wupd x (with_active false) (wupd x (with_next 0)
    (with_activelist (q', s') st1))) y = wdog_at s' y).
  { intros y Hy. rewrite !wget_wupd, !decide_False by done. done. }
  eexists. split; [reflexivity|]. split_and!.
  - eapply wd_repr_remove; [exact Hr|..]; cbn [g_wdactivelist g_wdfreelist wupd with_store with_activelist fst snd].
    + eapply sq_repr_links; [|exact Hq2]. intros y Hy. apply (f_equal wnext), Hw. by intros ->.
    + done.
    + intros y Hy. rewrite Hw by (by intros ->). destruct Ho as (Ho & _). rewrite Ho.
      * apply Hone.
      * intros Hy'. eapply (wr_disj _ _ _ _ Hr); [|exact Hy]. by rewrite fmap_app.
    + eapply deltas_ext; [|exact Hd]. intros y Hy. rewrite fmap_app in Hy.
      destruct (links_only_data _ _ _ y Ho) as (<- & _). apply (f_equal lag), Hw. by intros ->.
    + intros y Hy. rewrite Hw by done. destruct (links_only_data _ _ _ y Ho) as (_ & -> & _). apply Hone.
    + by rewrite wget_wupd, decide_True.
    + intros y Hy. do 2 apply on_is_Some. apply Ho. by apply Hdom1.
  - intros y. assert (Hy : ∀ {B} (f : wdog_t → B),
      (∀ v w, f (with_active v w) = f w) → (∀ v w, f (with_next v w) = f w) →
      f (wget (wupd x (with_active false) (wupd x (with_next 0)
    (with_activelist (q', s') st1))) y) = f (wdog_at s' y)).
    { intros B f H1 H2. rewrite !wget_wupd. case_decide; [by rewrite H1, H2|done]. }
    rewrite !Hy by done. destruct (links_only_data _ _ _ y Ho) as (_ & _ & -> & ->).
    apply Hcalls.
  - exact He.
  - by rewrite wget_wupd, decide_True.
Qed.

Lemma wd_cancel_inactive lo st A F x :
  wd_repr lo st A F → x ∉ F → x ∉ A.*1 → wd_cancel x st = Some (ERROR, st).
Proof.
  intros Hr HF HA. unfold wd_cancel. destruct (active (wget st x)) eqn:E.
  - by apply (wr_flags _ _ _ _ Hr) in E.
  - by rewrite andb_false_r.
Qed.

(** ** Joining the queue *)

Lemma wd_place lo st st1 A1 A2 F x d dl r :
  wd_repr lo st (A1 ++ A2) F → x ∉ A1.*1 ++ A2.*1 → x ∉ F → lags_only st st1 →
  deltas (store st1) 0 A1 → deltas (store st1) d A2 → i32 dl = d - tlast 0 A1 →
  ascending lo (A1 ++ (x, d) :: A2) → sq_repr r.2 r.1 (A1.*1 ++ x :: A2.*1) →
  links_only (x :: A1.*1 ++ A2.*1) (store st1) r.2 →
  let st' := wupd x (with_active true) (wupd x (with_lag dl) (with_activelist r st1)) in
  wd_repr lo st' (A1 ++ (x, d) :: A2) F ∧ same_calls st st' ∧ wd_errno st' = wd_errno st.
Proof.
  intros Hr HxA HxF (Hone & Hcalls & Hdom & Hqa & Hqf & He) Hd1 Hd2 Hdl Hasc Hq Ho st'.
  assert (Hw : ∀ {B} (f : wdog_t → B) y, (y = x → ∀ v w, f (with_active v w) = f w) →
     (y = x → ∀ v w, f (with_lag v w) = f w) → f (wget st' y) = f (wdog_at r.2 y)).
  { intros B f y H1 H2. unfold st'. rewrite !wget_wupd. case_decide; [by rewrite H1, H2|done]. }
  assert (Hsplit : ∀ y, y ∈ (A1 ++ (x, d) :: A2).*1 ↔ y = x ∨ y ∈ (A1 ++ A2).*1).
  { intros y. rewrite !fmap_app. simpl. in_list. }
  split_and!; [split|intros y|exact He].
  - rewrite fmap_app. eapply sq_repr_links; [|exact Hq]. intros y _. by apply (Hw _ wnext).
  - unfold st'. cbn [g_wdfreelist wupd with_store with_activelist]. rewrite Hqf.
    eapply sq_repr_links; [|apply (wr_free _ _ _ _ Hr)]. intros y Hy.
    etransitivity; [by apply (Hw _ wnext)|]. destruct Ho as [Ho _]. rewrite Ho; [apply Hone|].
    intros [->|Hy']%elem_of_cons; [done|]. eapply (wr_disj _ _ _ _ Hr); [|exact Hy]. by rewrite fmap_app.
  - intros y [->|Hy]%Hsplit; [done|]. by eapply wr_disj.
  - assert (Hlag : ∀ y, y ≠ x → lag (wget st' y) = lag (wget st1 y)).
    { intros y Hy. rewrite (Hw _ lag y) by done. apply (links_only_data _ _ _ y Ho). }
    apply deltas_app. split; [|split].
    + eapply deltas_ext; [|exact Hd1]. intros y Hy. apply Hlag. intros ->. in_list.
    + unfold st'. cbn [wupd with_store store]. rewrite !wdog_at_on, !decide_True by done. done.
    + eapply deltas_ext; [|exact Hd2]. intros y Hy. apply Hlag. intros ->. in_list.
  - done.
  - intros y Hy. rewrite Hsplit. destruct (decide (y = x)) as [->|Hne].
    + unfold st'. rewrite wget_wupd, decide_True by done. tauto.
    + rewrite (Hw _ active y) by done. destruct (links_only_data _ _ _ y Ho) as (_ & -> & _).
      destruct (Hone y) as [_ Ha]. unfold wget at 1 in Ha. rewrite Ha.
      rewrite (wr_flags _ _ _ _ Hr y Hy). tauto.
  - intros y [->|Hy]%Hsplit; [apply on_is_Some_self|]. do 2 apply on_is_Some. apply Ho, Hdom.
    by eapply wr_dom.
  - rewrite (Hw _ func y), (Hw _ wd_args y) by done.
    destruct (links_only_data _ _ _ y Ho) as (_ & _ & -> & ->). apply Hcalls.
Qed.

Lemma ascending_insert lo A1 x d A2 :
  ascending lo (A1 ++ A2) → lo ≤ d ≤ INT_MAX → (∀ z tz, (z, tz) ∈ A1 → tz ≤ d) →
  (∀ z tz, head A2 = Some (z, tz) → d ≤ tz) → ascending lo (A1 ++ (x, d) :: A2).
Proof.
  intros [Ha1 Ha2]%ascending_app Hd H1 H2. apply ascending_app. split; [done|]. split; [split; [|lia]|].
  - unfold tlast. destruct (last A1.*2) as [u|] eqn:E; simpl; [|lia].
    apply last_Some_elem_of, list_elem_of_fmap in E as ([z tz] & -> & Hz). by eapply H1.
  - destruct A2 as [|[z tz] A2]; [done|]. simpl in *. destruct Ha2. split; [|done].
    specialize (H2 z tz eq_refl). lia.
Qed.

(** Inserting before [y], the first watchdog that expires later. *)
Lemma wd_place_before lo st B y ty C F x d prev :
  wd_repr lo st (B ++ (y, ty) :: C) F → 0 ≤ lo ≤ d → d < ty → x ∉ B.*1 ++ y :: C.*1 → x ∉ F → x ≠ 0 →
  (∀ z tz, (z, tz) ∈ B → tz ≤ d) → (∀ p, last B.*1 = Some p → prev = p) →
  let dl := i32 (d - (ty - lag (wget st y))) in
  let st1 := wupd y (with_lag (lag (wget st y) - dl)) st in
  let st2 := with_activelist
    (if y =? q_head (g_wdactivelist st1) then sq_addfirst x (g_wdactivelist st1) (store st1)
     else sq_addafter prev x (g_wdactivelist st1) (store st1)) st1 in
  let st' := wupd x (with_active true) (wupd x (with_lag dl) st2) in
  wd_repr lo st' (B ++ (x, d) :: (y, ty) :: C) F ∧ same_calls st st' ∧ wd_errno st' = wd_errno st.
Proof.
  intros Hr Hd Hdt HxA HxF Hx0 HB Hprev dl st1 st2 st'.
  destruct (wd_parts _ _ _ _ _ _ _ Hr) as (Hn & H0 & Hny & HyF & Hq).
  pose proof (wr_times _ _ _ _ Hr) as Ht. pose proof (wr_lags _ _ _ _ Hr) as Hl.
  apply (ascending_weaken _ 0) in Ht; [|lia].
  apply ascending_app in Ht as [Ht1 [Ht2 _]]. apply deltas_app in Hl as [Hl1 [Hl2 Hl3]].
  pose proof (ascending_tlast 0 B ltac:(unfold INT_MAX; lia) Ht1) as HtB. unfold INT_MAX in *.
  assert (Hdl : dl = d - tlast 0 B).
  { unfold dl, wget. rewrite Hl2. rewrite i32_small; lia. }
  pose proof (lags_only_upd y (lag (wget st y) - dl) st : lags_only st st1) as Hlo.
  assert (Hq1 : sq_repr (store st1) (g_wdactivelist st1) (B.*1 ++ y :: C.*1)).
  { eapply sq_repr_links; [|exact Hq]. intros z _. apply Hlo. }
  assert (Hlag : ∀ z, z ≠ y → lag (wget st1 z) = lag (wget st z)).
  { intros z Hz. unfold st1. by rewrite wget_wupd, decide_False. }
  apply (wd_place _ _ st1); try done.
  - eapply deltas_ext; [|exact Hl1]. intros z Hz. apply Hlag. intros ->. in_list.
  - split.
    + unfold st1. cbn [wupd with_store store]. rewrite wdog_at_on, decide_True by done.
      simpl. unfold wget. rewrite Hl2, Hdl. rewrite i32_small; lia.
    + eapply deltas_ext; [|exact Hl3]. intros z Hz. apply Hlag. intros ->. in_list.
  - rewrite Hdl. apply i32_small. lia.
  - apply ascending_insert; [apply (wr_times _ _ _ _ Hr)|unfold INT_MAX; lia|done|].
    intros z tz [= -> ->]. lia.
  - destruct (Z.eqb_spec y (q_head (g_wdactivelist st1))) as [E|E].
    + rewrite (sq_head_mid _ _ _ _ _ Hq1) in E. apply head_iff in E; [|done..].
      rewrite E in *. by apply sq_addfirst_spec.
    + rewrite (sq_head_mid _ _ _ _ _ Hq1) in E. rewrite head_iff in E by done.
      destruct (last B.*1) as [p|] eqn:EB; [|by apply last_None in EB].
      rewrite (Hprev p eq_refl). apply last_Some in EB as [k EB]. rewrite EB in *.
      rewrite <-app_assoc in *. by apply sq_addafter_spec.
  - case_test; [apply sq_addfirst_only|]. apply sq_addafter_only; [exact Hq1|].
    destruct (last B.*1) as [p|] eqn:EB.
    + rewrite (Hprev p eq_refl). apply last_Some_elem_of in EB. in_list.
    + apply last_None in EB. rewrite EB in *. destruct Heqb.
      rewrite (sq_head_mid _ _ _ _ _ Hq1). done.
Qed.

(** Inserting at the end, when no watchdog expires later. *)
Lemma wd_place_last lo st A F x d :
  wd_repr lo st A F → 0 ≤ lo ≤ d → d ≤ INT_MAX → x ∉ A.*1 → x ∉ F → x ≠ 0 →
  (∀ z tz, (z, tz) ∈ A → tz ≤ d) →
  let dl := i32 (d - tlast 0 A) in
  let st2 := with_activelist (sq_addlast x (g_wdactivelist st) (store st)) st in
  let st' := wupd x (with_active true) (wupd x (with_lag dl) st2) in
  wd_repr lo st' (A ++ [(x, d)]) F ∧ same_calls st st' ∧ wd_errno st' = wd_errno st.
Proof.
  intros Hr Hd Hm HxA HxF Hx0 HA dl st2 st'. pose proof (wr_active _ _ _ _ Hr) as Hq.
  pose proof (wr_times _ _ _ _ Hr) as Ht. apply (ascending_weaken _ 0) in Ht; [|lia].
  apply ascending_tlast in Ht; [|unfold INT_MAX; lia].
  apply (wd_place _ _ st); rewrite ?app_nil_r; try done.
  - apply (wr_lags _ _ _ _ Hr).
  - unfold dl. unfold INT_MAX in *. rewrite (i32_small (d - _)) by lia. apply i32_small. lia.
  - apply ascending_insert; [|lia|done|by intros]. rewrite app_nil_r. apply (wr_times _ _ _ _ Hr).
  - by apply sq_addlast_spec.
  - by apply sq_addlast_only.
Qed.

Lemma wd_insert_spec lo st A F x d :
  wd_repr lo st A F → 0 ≤ lo ≤ d → d ≤ INT_MAX → x ∉ A.*1 → x ∉ F → x ≠ 0 →
  ∃ dl st2, wd_insert x d st = Some (dl, st2) ∧
    let st' := wupd x (with_active true) (wupd x (with_lag dl) st2) in
    wd_repr lo st' (tinsert x d A) F ∧ same_calls st st' ∧ wd_errno st' = wd_errno st.
Proof.
  intros Hr Hd Hm HxA HxF Hx0. pose proof (wr_active _ _ _ _ Hr) as (Hc & _ & H0 & Hh & _).
  unfold wd_insert. rewrite Hh. destruct A as [|[h th] A0].
  { simpl. eexists _, _. split; [reflexivity|]. apply (wd_place_last _ _ [] _ x d) in Hr; try done.
    - unfold tlast in Hr. simpl in Hr. rewrite Z.sub_0_r in Hr.
      unfold INT_MAX in *. rewrite i32_small in Hr by lia. exact Hr.
    - intros ? ? []%not_elem_of_nil. }
  change (default 0 (head (((h, th) :: A0).*1))) with h. simpl in H0.
  rewrite (proj2 (Z.eqb_neq h 0)) by in_list.
  pose proof (wr_lags _ _ _ _ Hr) as [Hl1 Hl2]. pose proof (wr_times _ _ _ _ Hr) as [Ht1 Ht2].
  assert (Hpos : wd_positive (wd_fuel st) (store st) 0 h h = Some (th, h, h)).
  { unfold INT_MAX in *. destruct (wd_fuel st); simpl; rewrite Hl1, i32_small by lia;
      rewrite (proj2 (Z.ltb_ge _ 0)) by lia; simpl; repeat f_equal; lia. }
  rewrite Hpos. cbn [mbind option_bind].
  destruct (wd_shorter_spec (wd_fuel st) (store st) d h th A0 h) as (B & y & ty & C & HA & Hs & HB & HC);
    [done|in_list|done|lia|done|pose proof (wd_length _ _ _ _ Hr) as Hl; simpl in Hl; lia|].
  rewrite Hs. cbn [mbind option_bind]. rewrite HA in *. clear HA Hs Hpos.
  rewrite tinsert_app by done. rewrite fmap_app in HxA. simpl in HxA.
  case_test.
  - eexists _, _. split; [reflexivity|]. simpl. rewrite (proj2 (Z.ltb_lt d ty)) by done.
    eapply wd_place_before; try done. by intros p ->.
  - destruct HC as [HC| ->]; [lia|].
    destruct (wd_parts _ _ _ _ _ _ _ Hr) as (_ & _ & _ & _ & Hq). pose proof Hq as (Hc' & _).
    rewrite (chain_next _ _ _ _ _ Hc' : wnext (wget st y) = 0). simpl.
    rewrite (proj2 (Z.ltb_ge d ty)) by lia.
    eexists _, _. split; [reflexivity|].
    assert (Htl : tlast 0 (B ++ [(y, ty)]) = ty) by (unfold tlast; rewrite fmap_app; simpl; by rewrite last_snoc).
    assert (HxB : x ∉ (B ++ [(y, ty)]).*1) by (rewrite fmap_app; simpl; in_list).
    assert (HBd : ∀ z tz, (z, tz) ∈ B ++ [(y, ty)] → tz ≤ d).
    { intros z tz [Hz|[= -> ->]%list_elem_of_singleton]%elem_of_app; [by eapply HB|lia]. }
    pose proof (wd_place_last _ _ _ _ x d Hr Hd Hm HxB HxF Hx0 HBd) as HP.
    rewrite Htl, <-app_assoc in HP. exact HP.
Qed.
End Ops.
