(* ===== verification/WdogSpec.v ===== *)
(** The interface of watchdogs as operations on a list of remaining times, and
    the refinement: every call does to the queue what its specification does to
    the list. *)

From stdpp Require Import base numbers functions gmap sorting list.
From S2P Require Import Prelude Queue Memory Wdog WdogInv WdogOps.

(** The specification of a call: its result, the new list, the new free list. *)
Definition wd_spec (op : wd_op) (A : list (Z * Z)) (F : list Z) : Z * list (Z * Z) * list Z :=
  match op with
  | WdCreate => (default 0 (head F), A, tail F)
  | WdStart x d _ argc _ =>
      if (x =? 0) || (CONFIG_MAX_WDOGPARMS <? argc) || (d <? 0) then (ERROR, A, F)
      else (OK, tinsert x (Z.min (d + 1) INT_MAX) (tremove x A), F)
  | WdCancel x => (if remaining A x then OK else ERROR, tremove x A, F)
  | WdDelete x => if x =? 0 then (ERROR, A, F) else (OK, tremove x A, F ++ [x])
  end.

(** The caller's obligations: a watchdog that was created and not deleted, an
    [int] delay, as many arguments as announced. *)
Definition wd_legal (op : wd_op) (F : list Z) : Prop :=
  match op with
  | WdCreate => True
  | WdStart x d _ argc ap => x ∉ F ∧ d ≤ INT_MAX ∧ (Z.to_nat argc ≤ length ap)%nat
  | WdCancel x | WdDelete x => x ∉ F
  end.

Fixpoint wd_legal_run (ops : list wd_op) (A : list (Z * Z)) (F : list Z) : Prop :=
  match ops with
  | [] => True
  | op :: ops => wd_legal op F ∧ let '(_, A, F) := wd_spec op A F in wd_legal_run ops A F
  end.

Fixpoint wd_specs (ops : list wd_op) (A : list (Z * Z)) (F : list Z) : list (Z * Z) * list Z :=
  match ops with
  | [] => (A, F)
  | op :: ops => let '(_, A, F) := wd_spec op A F in wd_specs ops A F
  end.

Section Spec.
Implicit Types (st : wdst) (A : list (Z * Z)) (F : list Z) (op : wd_op).

Lemma remaining_None A x : remaining A x = None ↔ x ∉ A.*1.
Proof.
  induction A as [|[y t] A IH]; simpl; [split; [intros _; apply not_elem_of_nil|done]|].
  case_test; subst; [split; [done|intros []; in_list]|]. rewrite IH. in_list.
Qed.

Lemma tremove_None A x : x ∉ A.*1 → tremove x A = A.
Proof.
  induction A as [|[y t] A IH]; simpl; intros Hx; [done|].
  rewrite (proj2 (Z.eqb_neq y x)) by in_list. f_equal. apply IH. in_list.
Qed.

Lemma remaining_split A x t : remaining A x = Some t → ∃ A1 A2, A = A1 ++ (x, t) :: A2 ∧ x ∉ A1.*1.
Proof.
  induction A as [|[y u] A IH]; simpl; [done|]. case_test; subst.
  - intros [= ->]. exists [], A. split; [done|apply not_elem_of_nil].
  - intros (A1 & A2 & -> & Hx)%IH. exists ((y, u) :: A1), A2. split; [done|]. simpl. in_list.
Qed.

(** Fields that no queue depends on. *)
Lemma wd_repr_upd lo st A F x f :
  wd_repr lo st A F → (∀ w, wnext (f w) = wnext w ∧ lag (f w) = lag w ∧ active (f w) = active w) →
  wd_repr lo (wupd x f st) A F.
Proof.
  intros Hr Hf.
  assert (Hw : ∀ {B} (g : wdog_t → B) y, (∀ w, g (f w) = g w) →
    g (wdog_at (on_wdog x f (store st)) y) = g (wdog_at (store st) y)).
  { intros B g y Hg. rewrite wdog_at_on. case_decide; [by rewrite Hg|done]. }
  destruct Hr as [Ha Hfr Hd Hl Ht Hfl Hdom]. split; try done.
  - eapply sq_repr_links; [|exact Ha]. intros y _. apply (Hw _ wnext). apply Hf.
  - eapply sq_repr_links; [|exact Hfr]. intros y _. apply (Hw _ wnext). apply Hf.
  - eapply deltas_ext; [|exact Hl]. intros y _. apply (Hw _ lag). apply Hf.
  - intros y Hy. etransitivity; [|by apply Hfl]. unfold wget at 1. simpl.
    rewrite (Hw _ active y) by apply Hf. done.
  - intros y Hy. simpl. by apply on_is_Some, Hdom.
Qed.

Lemma wd_repr_errno lo st A F v : wd_repr lo st A F → wd_repr lo (with_wd_errno v st) A F.
Proof. by intros []. Qed.

(** [if (wdog->active) wd_cancel(wdog);] *)
Lemma wd_stop_spec lo st A F x :
  wd_repr lo st A F → 0 ≤ lo → x ∉ F →
  ∃ st', (if active (wget st x) then '(_, st) ← wd_cancel x st; Some st else Some st) = Some st' ∧
    wd_repr lo st' (tremove x A) F ∧ same_calls st st' ∧ x ∉ (tremove x A).*1 ∧ wd_errno st' = wd_errno st.
Proof.
  intros Hr Hlo HF. destruct (remaining A x) as [t|] eqn:E.
  - apply remaining_split in E as (A1 & A2 & -> & Hx).
    destruct (wd_parts _ _ _ _ _ _ _ Hr) as (_ & _ & Hnx & _).
    rewrite (proj2 (wr_flags _ _ _ _ Hr x HF)) by (rewrite fmap_app; simpl; in_list).
    destruct (wd_cancel_active _ _ _ _ _ _ _ Hr Hlo) as (st' & Hc & Hr' & Hs & He & _).
    rewrite Hc, tremove_app by done. exists st'. split; [done|]. by rewrite fmap_app.
  - apply remaining_None in E. rewrite tremove_None by done. exists st. split_and!; try done.
    destruct (active (wget st x)) eqn:Ea; [|done]. by apply (wr_flags _ _ _ _ Hr) in Ea.
Qed.

Lemma wd_cancel_spec lo st A F x :
  wd_repr lo st A F → 0 ≤ lo → x ∉ F →
  ∃ st', wd_cancel x st = Some (if remaining A x then OK else ERROR, st') ∧
    wd_repr lo st' (tremove x A) F ∧ same_calls st st'.
Proof.
  intros Hr Hlo HF. destruct (remaining A x) as [t|] eqn:E.
  - apply remaining_split in E as (A1 & A2 & -> & Hx).
    destruct (wd_cancel_active _ _ _ _ _ _ _ Hr Hlo) as (st' & Hc & Hr' & Hs & _).
    rewrite tremove_app by done. eauto.
  - apply remaining_None in E. rewrite tremove_None by done. exists st.
    by rewrite (wd_cancel_inactive _ _ _ _ _ Hr HF E).
Qed.

Definition wd_call st x : Z * list Z := (func (wget st x), wd_args (wget st x)).

Lemma same_calls_call st st' y : same_calls st st' → wd_call st' y = wd_call st y.
Proof. intros H. unfold wd_call. destruct (H y). congruence. Qed.

Lemma start_args (w : wdog_t) n f ap :
  0 ≤ n ≤ CONFIG_MAX_WDOGPARMS → (Z.to_nat n ≤ length ap)%nat →
  wd_args (with_parm (take (Z.to_nat n) ap ++ drop (Z.to_nat n) (parm w)) (with_argc n (with_func f w))) =
  take (Z.to_nat n) ap.
Proof.
  intros Hn Hl. unfold CONFIG_MAX_WDOGPARMS in Hn. unfold wd_args.
  cbn [argc parm with_parm with_argc with_func]. rewrite Z.mod_small by lia.
  assert (n = 0 ∨ n = 1 ∨ n = 2) as [->|[->| ->]] by lia; [done|..];
    cbn [Z.eqb Pos.eqb]; rewrite take_app_le, take_take; try done; rewrite length_take; lia.
Qed.

Lemma wd_start_spec lo st A F x d f n ap :
  wd_repr lo st A F → 0 ≤ lo ≤ 1 → x ∉ F → x ≠ 0 → 0 ≤ d ≤ INT_MAX → n ≤ CONFIG_MAX_WDOGPARMS →
  (Z.to_nat n ≤ length ap)%nat →
  ∃ st', wd_start x d f n ap st = Some (OK, st') ∧
    wd_repr lo st' (tinsert x (Z.min (d + 1) INT_MAX) (tremove x A)) F ∧
    (∀ y, y ≠ x → wd_call st' y = wd_call st y) ∧
    (0 ≤ n → wd_call st' x = (f, take (Z.to_nat n) ap)) ∧ wd_errno st' = wd_errno st.
Proof.
  intros Hr Hlo HF Hx0 Hd Hn Hl. unfold wd_start.
  rewrite (proj2 (Z.eqb_neq x 0)), (proj2 (Z.ltb_ge _ n)), (proj2 (Z.ltb_ge d 0)) by lia. cbn [orb].
  destruct (wd_stop_spec _ _ _ _ x Hr ltac:(lia) HF) as (st1 & Hst & Hr1 & Hs1 & Hx1 & He1). rewrite Hst.
  cbn [mbind option_bind]. rewrite (proj2 (Nat.ltb_ge _ _)) by lia.
  set (st2 := wupd x (with_parm _) _).
  assert (Hr2 : wd_repr lo st2 (tremove x A) F) by (by do 3 (apply wd_repr_upd; [|done])).
  assert (Hc2 : ∀ y, y ≠ x → wd_call st2 y = wd_call st1 y).
  { intros y Hy. unfold wd_call, st2. rewrite !wget_wupd, !decide_False by done. done. }
  assert (Hx2 : 0 ≤ n → wd_call st2 x = (f, take (Z.to_nat n) ap)).
  { intros Hn0. unfold wd_call, st2. rewrite !wget_wupd, !decide_True by done. simpl.
    f_equal. by rewrite start_args. }
  assert (He2 : wd_errno st2 = wd_errno st1) by done. clearbody st2.
  rewrite wd_delay_spec by done.
  destruct (wd_insert_spec lo st2 (tremove x A) F x (Z.min (d + 1) INT_MAX))
    as (dl & st3 & Hi & Hr3 & Hs3 & He3); try done; [unfold INT_MAX; lia|lia|].
  rewrite Hi. cbn [mbind option_bind]. eexists. split; [reflexivity|]. split_and!; [done|..|].
  - intros y Hy. rewrite (same_calls_call _ _ y Hs3), Hc2 by done. by apply same_calls_call.
  - intros Hn0. rewrite (same_calls_call _ _ x Hs3). auto.
  - congruence.
Qed.

(** Changing only links of watchdogs that are not active. *)
Lemma wd_repr_free lo st A F P q s F' :
  wd_repr lo st A F → links_only P (store st) s → (∀ y, y ∈ A.*1 → y ∉ P) →
  sq_repr s q F' → (∀ y, y ∈ A.*1 → y ∉ F') → (∀ y, y ∉ F' → y ∉ F) →
  wd_repr lo (with_freelist (q, s) st) A F' ∧ same_calls st (with_freelist (q, s) st).
Proof.
  intros [Ha Hfr Hd Hl Ht Hfl Hdom] Ho HP Hq Hdj Hsub.
  assert (HA : ∀ y, y ∈ A.*1 → wdog_at s y = wdog_at (store st) y) by (intros y Hy; by apply Ho, HP).
  split; [split; try done|].
  - eapply sq_repr_links; [|exact Ha]. intros y Hy. apply (f_equal wnext), HA, Hy.
  - eapply deltas_ext; [|exact Hl]. intros y Hy. apply (f_equal lag), HA, Hy.
  - intros y Hy. unfold wget. simpl. destruct (links_only_data _ _ _ y Ho) as (_ & -> & _).
    apply Hfl. auto.
  - intros y Hy. by apply Ho, Hdom.
  - intros y. apply (links_only_data _ _ _ y Ho).
Qed.

Lemma wd_create_spec lo st A F :
  wd_repr lo st A F →
  ∃ st', wd_create st = (default 0 (head F), st') ∧ wd_repr lo st' A (tail F) ∧ same_calls st st'.
Proof.
  intros Hr. pose proof (wr_free _ _ _ _ Hr) as Hf. unfold wd_create.
  pose proof (sq_remfirst_spec _ _ _ Hf) as Hs. pose proof (sq_remfirst_only _ _ _ Hf) as Ho.
  destruct F as [|x F].
  { destruct (sq_remfirst _ _) as [[r q] s] eqn:E. destruct Hs as (-> & _ & _).
    unfold sq_remfirst in E. destruct Hf as (_ & _ & _ & Hh & _). rewrite Hh in E. simpl in E.
    injection E as Eq Es. subst. simpl. eexists. split; [reflexivity|]. by destruct st. }
  destruct (sq_remfirst _ _) as [[r q] s]. destruct Hs as (-> & Hs & Hz).
  change (default 0 (head (x :: F))) with x in *. cbn [tail] in *. simpl in Ho.
  destruct Hf as (_ & [HxF Hn]%NoDup_cons & H0 & _). assert (x ≠ 0) by in_list.
  rewrite (proj2 (Z.eqb_neq x 0)) by done. cbn [negb].
  assert (HxA : x ∉ A.*1) by (intros Hx; eapply (wr_disj _ _ _ _ Hr); [exact Hx|in_list]).
  set (st' := wupd x _ _). exists st'. split; [done|].
  assert (Hw : ∀ {B} (g : wdog_t → B) y, (y = x → ∀ w, g (with_active false (with_next 0 w)) = g w) →
    g (wget st' y) = g (wdog_at s y)).
  { intros B g y Hg. unfold st'. rewrite !wget_wupd. case_decide; [by apply Hg|done]. }
  pose proof Hr as [Ha Hfr Hd Hl Ht Hfl Hdom].
  assert (HA : ∀ y, y ∈ A.*1 → wdog_at s y = wdog_at (store st) y).
  { intros y Hy. apply Ho. by apply Hd. }
  split; [split; try done|].
  - eapply sq_repr_links; [|exact Ha]. intros y Hy.
    transitivity (wnext (wdog_at s y)); [apply (Hw _ wnext); by intros ->|by apply (f_equal wnext), HA].
  - eapply sq_repr_links; [|exact Hs]. intros y Hy. apply (Hw _ wnext). by intros ->.
  - intros y Hy. pose proof (Hd y Hy). in_list.
  - eapply deltas_ext; [|exact Hl]. intros y Hy.
    transitivity (lag (wdog_at s y)); [apply (Hw _ lag); by intros ->|by apply (f_equal lag), HA].
  - intros y Hy. destruct (decide (y = x)) as [->|Hne].
    + unfold st'. rewrite wget_wupd, decide_True by done. split; [done|by intros].
    + rewrite (Hw _ active y) by done. destruct (links_only_data _ _ _ y Ho) as (_ & -> & _).
      apply Hfl. in_list.
  - intros y Hy. do 2 apply on_is_Some. by apply Ho, Hdom.
  - intros y. rewrite (Hw _ func y), (Hw _ wd_args y) by done. apply (links_only_data _ _ _ y Ho).
Qed.

Lemma wd_delete_spec lo st A F x :
  wd_repr lo st A F → 0 ≤ lo → x ∉ F → x ≠ 0 →
  ∃ st', wd_delete x st = Some (OK, st') ∧ wd_repr lo st' (tremove x A) (F ++ [x]) ∧ same_calls st st'.
Proof.
  intros Hr Hlo HF Hx0. unfold wd_delete. rewrite (proj2 (Z.eqb_neq x 0)) by done.
  destruct (wd_stop_spec _ _ _ _ x Hr Hlo HF) as (st1 & Hst & Hr1 & Hs1 & Hx1 & He1). rewrite Hst.
  cbn [mbind option_bind]. pose proof (wr_free _ _ _ _ Hr1) as Hf.
  eexists. split; [reflexivity|]. pose proof (sq_addlast_spec _ _ _ x Hf HF Hx0) as Hq.
  pose proof (sq_addlast_only _ _ _ x Hf) as Ho.
  destruct (sq_addlast x _ _) as [q s]. simpl in Hq, Ho.
  assert (Hin : ∀ y, y ∈ (tremove x A).*1 → y ≠ x ∧ y ∉ F).
  { intros y Hy. split; [by intros ->|]. by apply (wr_disj _ _ _ _ Hr1). }
  destruct (wd_repr_free _ _ _ _ _ q s (F ++ [x]) Hr1 Ho) as [Hr2 Hs2]; [|done|..|].
  - intros y Hy. destruct (Hin y Hy). in_list.
  - intros y Hy. destruct (Hin y Hy). rewrite elem_of_app, list_elem_of_singleton. tauto.
  - intros y Hy. in_list.
  - split; [done|]. intros y. destruct (Hs1 y), (Hs2 y). split; congruence.
Qed.

(** Every legal call implements its specification; the functions of the
    watchdogs it does not start stay the same. *)
Lemma wd_exec_spec lo st A F op :
  wd_repr lo st A F → 0 ≤ lo ≤ 1 → wd_legal op F →
  ∃ st', let '(r, A', F') := wd_spec op A F in
    wd_exec op st = Some (r, st') ∧ wd_repr lo st' A' F' ∧
    (∀ y, (∀ d f n ap, op ≠ WdStart y d f n ap) → wd_call st' y = wd_call st y).
Proof.
  intros Hr Hlo. destruct op as [|x d f n ap|x|x]; simpl; intros Hleg.
  - destruct (wd_create_spec _ _ _ _ Hr) as (st' & -> & Hr' & Hs). exists st'.
    split_and!; [done..|]. intros y _. by apply same_calls_call.
  - destruct Hleg as (HF & Hd & Hap). case_test.
    + exists (with_wd_errno EINVAL st). unfold wd_start. rewrite Heqb.
      split_and!; [done|by apply wd_repr_errno|done].
    + apply orb_false_iff in Heqb as [[H1 H2]%orb_false_iff H3]. zb.
      destruct (wd_start_spec lo st A F x d f n ap) as (st' & Hst & Hr' & Hy & _); try done.
      exists st'. split_and!; [done..|]. intros y Hne. apply Hy. intros ->. by eapply Hne.
  - destruct (wd_cancel_spec _ _ _ _ _ Hr ltac:(lia) Hleg) as (st' & Hst & Hr' & Hs). exists st'.
    split_and!; [done..|]. intros y _. by apply same_calls_call.
  - unfold wd_delete at 1. destruct (Z.eqb_spec x 0) as [->|Hne].
    + exists (with_wd_errno EINVAL st). split_and!; [done|by apply wd_repr_errno|done].
    + destruct (wd_delete_spec _ _ _ _ _ Hr ltac:(lia) Hleg Hne) as (st' & Hst & Hr' & Hs). exists st'.
      unfold wd_delete in Hst. rewrite (proj2 (Z.eqb_neq x 0)) in Hst by done.
      split_and!; [done..|]. intros y _. by apply same_calls_call.
Qed.

Definition starts y op : Prop := ∃ d f n ap, op = WdStart y d f n ap.

Lemma wd_execs_spec lo ops st A F :
  wd_repr lo st A F → 0 ≤ lo ≤ 1 → wd_legal_run ops A F →
  ∃ st', wd_execs ops st = Some st' ∧ wd_repr lo st' (wd_specs ops A F).1 (wd_specs ops A F).2 ∧
    (∀ y, (∀ op, op ∈ ops → ¬ starts y op) → wd_call st' y = wd_call st y).
Proof.
  intros Hr Hlo. revert st A F Hr. induction ops as [|op ops IH]; intros st A F Hr; simpl; [eauto|].
  intros [Hleg Hrun]. destruct (wd_exec_spec _ _ _ _ op Hr Hlo Hleg) as (st1 & H1).
  destruct (wd_spec op A F) as [[r A'] F']. destruct H1 as (He & Hr1 & Hc1). rewrite He.
  destruct (IH st1 A' F' Hr1 Hrun) as (st2 & Hx & Hr2 & Hc2). exists st2. split_and!; [done..|].
  intros y Hy. rewrite Hc2, Hc1; [done|..].
  - intros d f n ap ->. eapply Hy; [in_list|]. by repeat eexists.
  - intros o Ho. apply Hy. in_list.
Qed.

Lemma wd_gettime_spec lo st A F x :
  wd_repr lo st A F → 0 ≤ lo → x ∉ F → wd_gettime x st = Some (default 0 (remaining A x)).
Proof.
  intros Hr Hlo HF. unfold wd_gettime. destruct (remaining A x) as [t|] eqn:E.
  - apply remaining_split in E as (A1 & A2 & -> & Hx).
    destruct (wd_parts _ _ _ _ _ _ _ Hr) as (Hn & H0 & Hnx & _ & Hq).
    rewrite (proj2 (wr_flags _ _ _ _ Hr x HF)) by (rewrite fmap_app; simpl; in_list).
    rewrite (proj2 (Z.eqb_neq x 0)) by in_list. cbn [negb andb].
    rewrite (sq_head_mid _ _ _ _ _ Hq). pose proof Hq as (Hc & _).
    eapply wd_sumlags_spec; try done; [apply (wr_lags _ _ _ _ Hr)| |].
    + eapply ascending_weaken, wr_times, Hr. done.
    + pose proof (wd_length _ _ _ _ Hr) as Hl. rewrite length_app in Hl. lia.
  - apply remaining_None in E. destruct (active (wget st x)) eqn:Ea; [|by rewrite andb_false_r].
    by apply (wr_flags _ _ _ _ Hr) in Ea.
Qed.
End Spec.
