(* ===== verification/WdogTimer.v ===== *)
(** [wd_timer]: what a tick of the clock does, with functions of watchdogs that
    may themselves call the interface, and when a watchdog expires. *)

From stdpp Require Import base numbers functions gmap sorting list.
From S2P Require Import Prelude Queue Memory Wdog WdogInv WdogOps WdogSpec.

(** The calls that concern the watchdog [x]. *)
Definition about (x : Z) (op : wd_op) : bool :=
  match op with
  | WdCreate => false
  | WdStart y _ _ _ _ | WdCancel y | WdDelete y => y =? x
  end.

(** The watchdogs that are due. *)
Definition due (A : list (Z * Z)) : list (Z * Z) := filter (λ e, e.2 ≤ 0) A.

(** One tick less for every watchdog. *)
Definition tick (A : list (Z * Z)) : list (Z * Z) := prod_map id Z.pred <$> A.

Section Lists.
Implicit Types (A : list (Z * Z)) (F : list Z) (op : wd_op).

Lemma remaining_tinsert A x d y : x ∉ A.*1 →
  remaining (tinsert x d A) y = if x =? y then Some d else remaining A y.
Proof.
  induction A as [|[z t] A IH]; intros Hx; simpl in *; [done|].
  case_test; simpl; [done|]. rewrite IH by in_list.
  destruct (Z.eqb_spec z y), (Z.eqb_spec x y); subst; try done. in_list.
Qed.

Lemma remaining_tremove_ne A x y : x ≠ y → remaining (tremove x A) y = remaining A y.
Proof.
  intros Hne. induction A as [|[z t] A IH]; simpl; [done|]. case_test; subst.
  - by rewrite (proj2 (Z.eqb_neq x y)).
  - simpl. by rewrite IH.
Qed.

Lemma tremove_not_in A x : NoDup A.*1 → x ∉ (tremove x A).*1.
Proof.
  induction A as [|[z t] A IH]; simpl; intros Hn; [apply not_elem_of_nil|].
  apply NoDup_cons in Hn as [Hz Hn]. case_test; subst; [done|]. simpl. specialize (IH Hn). in_list.
Qed.

Lemma remaining_elem A x t : NoDup A.*1 → remaining A x = Some t ↔ (x, t) ∈ A.
Proof.
  intros Hn. split.
  - intros (A1 & A2 & -> & _)%remaining_split. in_list.
  - intros (A1 & A2 & ->)%list_elem_of_split. rewrite fmap_app in Hn. simpl in Hn.
    apply NoDup_mid in Hn as [Hx _]. induction A1 as [|[z u] A1 IH]; simpl in *.
    + by rewrite Z.eqb_refl.
    + rewrite (proj2 (Z.eqb_neq z x)) by in_list. apply IH. in_list.
Qed.

Lemma due_tremove A x : due (tremove x A) `sublist_of` due A.
Proof.
  unfold due. induction A as [|[z t] A IH]; simpl; [done|]. case_test.
  - rewrite filter_cons. case_decide; [by apply sublist_cons|done].
  - rewrite !filter_cons. case_decide; [by apply sublist_skip|done].
Qed.

Lemma due_tinsert A x d : 0 < d → due (tinsert x d A) = due A.
Proof.
  intros Hd. unfold due. induction A as [|[z t] A IH]; simpl.
  - rewrite filter_cons, decide_False by (simpl; lia). done.
  - case_test.
    + rewrite filter_cons, decide_False by (simpl; lia). done.
    + by rewrite !filter_cons, IH.
Qed.

(** What a call does to the time of a watchdog. *)
Lemma wd_spec_remaining op A F x : NoDup A.*1 →
  (about x op = false → remaining (wd_spec op A F).1.2 x = remaining A x) ∧
  (∀ t, remaining (wd_spec op A F).1.2 x = Some t → t ≤ 0 → remaining A x = Some t).
Proof.
  intros Hn.
  assert (Hrem : ∀ y t, remaining (tremove y A) x = Some t → remaining A x = Some t).
  { intros y t Ht. destruct (decide (y = x)) as [->|Hne].
    - pose proof (tremove_not_in _ x Hn) as Hx%remaining_None. congruence.
    - by rewrite remaining_tremove_ne in Ht. }
  destruct op as [|y d f n ap|y|y]; simpl; try done.
  - case_test; simpl; [done|]. apply orb_false_iff in Heqb as [[H1 H2]%orb_false_iff H3]. zb.
    rewrite remaining_tinsert by (by apply tremove_not_in). split.
    + intros E. rewrite E. zb. by apply remaining_tremove_ne.
    + intros t. case_test; [intros [= <-]; unfold INT_MAX; lia|]. eauto.
  - split; [intros Hxy%Z.eqb_neq; by apply remaining_tremove_ne|eauto].
  - case_test; simpl; [done|].
    split; [intros Hxy%Z.eqb_neq; by apply remaining_tremove_ne|eauto].
Qed.

Lemma wd_spec_due op A F : due (wd_spec op A F).1.2 `sublist_of` due A.
Proof.
  destruct op as [|y d f n ap|y|y]; simpl; try done.
  - case_test; simpl; [done|]. apply orb_false_iff in Heqb as [[H1 H2]%orb_false_iff H3]. zb.
    rewrite due_tinsert by (unfold INT_MAX; lia). apply due_tremove.
  - apply due_tremove.
  - case_test; simpl; [done|]. apply due_tremove.
Qed.

Lemma wd_specs_due ops A F : due (wd_specs ops A F).1 `sublist_of` due A.
Proof.
  revert A F. induction ops as [|op ops IH]; intros A F; simpl; [done|].
  pose proof (wd_spec_due op A F) as H. destruct (wd_spec op A F) as [[r A'] F'].
  etransitivity; [apply IH|exact H].
Qed.

Lemma wd_spec_free op A F x : about x op = false → x ∉ F → x ∉ (wd_spec op A F).2.
Proof.
  destruct op as [|y d f n ap|y|y]; simpl; intros Ha Hx; zb; try done.
  - intros Hx'. apply Hx. destruct F; [done|]. simpl in *. in_list.
  - by case_test.
  - case_test; simpl; [done|]. rewrite elem_of_app, list_elem_of_singleton. intuition congruence.
Qed.

Lemma wd_specs_free ops A F x : (∀ op, op ∈ ops → about x op = false) → x ∉ F → x ∉ (wd_specs ops A F).2.
Proof.
  revert A F. induction ops as [|op ops IH]; intros A F Ha Hx; simpl; [done|].
  pose proof (wd_spec_free op A F x (Ha op ltac:(in_list)) Hx) as H.
  destruct (wd_spec op A F) as [[r A'] F']. apply IH; [|done]. intros o Ho. apply Ha. in_list.
Qed.

Lemma tick_fst A : (tick A).*1 = A.*1.
Proof. unfold tick. rewrite <-list_fmap_compose. apply list_fmap_ext. by intros i [x t]. Qed.

Lemma remaining_tick A x : remaining (tick A) x = Z.pred <$> remaining A x.
Proof. induction A as [|[y t] A IH]; simpl; [done|]. by case_test. Qed.

Lemma ascending_tick lo A : ascending lo A → ascending (lo - 1) (tick A).
Proof.
  revert lo. induction A as [|[y t] A IH]; intros lo; simpl; [done|]. intros [Ht Ha].
  replace (Z.pred t) with (t - 1) by lia. split; [lia|]. by apply IH.
Qed.

Lemma due_positive lo A : 0 < lo → ascending lo A → due A = [].
Proof.
  revert lo. induction A as [|[y t] A IH]; intros lo Hlo; simpl; [done|]. intros [Ht Ha].
  unfold due. rewrite filter_cons, decide_False by (simpl; lia). apply (IH t); [lia|done].
Qed.

Lemma due_tick lo A : 1 ≤ lo → ascending lo A → (due (tick A)).*1 = (filter (λ e, e.2 = 1) A).*1.
Proof.
  unfold due. revert lo. induction A as [|[x t] A IH]; intros lo Hlo; simpl; [done|]. intros [Ht Ha].
  assert (IHt := IH t ltac:(lia) Ha). rewrite !filter_cons. simpl.
  destruct (decide (t = 1)) as [->|Hne]; simpl.
  - f_equal. exact IHt.
  - rewrite decide_False by lia. exact IHt.
Qed.

Lemma remaining_ge lo A x t : ascending lo A → remaining A x = Some t → lo ≤ t.
Proof.
  revert lo. induction A as [|[y u] A IH]; intros lo; simpl; [done|]. intros [Hu Ha].
  case_test; [intros [= ->]; lia|]. intros Hx%(IH u Ha). lia.
Qed.
End Lists.

Section Timer.
Context (callback : Z → list Z → wdst → list wd_op).

(** The functions of watchdogs call the interface legally. *)
Definition callbacks_legal : Prop := ∀ f args st A F,
  wd_repr 0 st A F → wd_legal_run (callback f args st) A F.

(** No function of a watchdog concerns [x]. *)
Definition callbacks_spare (x : Z) : Prop := ∀ f args st op,
  op ∈ callback f args st → about x op = false.

Implicit Types (st : wdst) (A : list (Z * Z)) (F : list Z) (op : wd_op).

Lemma wd_repr_nodup lo st A F : wd_repr lo st A F → NoDup A.*1.
Proof. intros Hr. by destruct (wr_active _ _ _ _ Hr) as (_ & ? & _). Qed.

(** A sequence of calls keeps the time of the watchdogs it does not concern,
    and makes no watchdog due. *)
Lemma wd_execs_remaining ops st A F lo x :
  wd_repr lo st A F → 0 ≤ lo ≤ 1 → wd_legal_run ops A F →
  ((∀ op, op ∈ ops → about x op = false) → remaining (wd_specs ops A F).1 x = remaining A x) ∧
  (∀ t, remaining (wd_specs ops A F).1 x = Some t → t ≤ 0 → remaining A x = Some t).
Proof.
  intros Hr Hlo. revert st A F Hr. induction ops as [|op ops IH]; intros st A F Hr; simpl; [done|].
  intros [Hleg Hrun]. destruct (wd_exec_spec _ _ _ _ op Hr Hlo Hleg) as (st1 & H1).
  pose proof (wd_spec_remaining op A F x (wd_repr_nodup _ _ _ _ Hr)) as [H2 H3].
  destruct (wd_spec op A F) as [[r A'] F']. destruct H1 as (He & Hr1 & _). simpl in *.
  destruct (IH st1 A' F' Hr1 Hrun) as [H4 H5]. split.
  - intros Ha. rewrite H4; [apply H2, Ha; in_list|]. intros o Ho. apply Ha. in_list.
  - intros t Ht Ht0. apply H3; auto.
Qed.

(** Removing the head of the queue, which is due. *)
Lemma wd_pop_spec st x A F :
  wd_repr 0 st ((x, 0) :: A) F →
  let '(wdog, q, s) := sq_remfirst (g_wdactivelist st) (store st) in
  let st1 := with_activelist (q, s) st in
  let head := q_head (g_wdactivelist st1) in
  let st2 := if negb (head =? 0)
             then wupd head (with_lag (lag (wget st1 head) + lag (wget st1 wdog))) st1 else st1 in
  let st3 := wupd wdog (with_active false) st2 in
  wdog = x ∧ wd_repr 0 st3 A F ∧ same_calls st st3.
Proof.
  intros Hr. destruct (wd_parts _ _ [] _ _ _ _ Hr) as (Hn & H0 & Hnx & HxF & Hq). simpl in *.
  pose proof (sq_remfirst_spec _ _ _ Hq) as Hs. pose proof (sq_remfirst_only _ _ _ Hq) as Ho.
  destruct (sq_remfirst _ _) as [[w q] s]. simpl in Ho. destruct Hs as (-> & Hs & _). simpl in Hs.
  change (default 0 (head (x :: A.*1))) with x in *.
  pose proof (wr_lags _ _ _ _ Hr) as [Hlx Hl]. pose proof (wr_times _ _ _ _ Hr) as [_ Ht].
  cbn [g_wdactivelist with_activelist fst snd].
  assert (Hh : q_head q = default 0 (head A.*1)) by by destruct Hs as (_ & _ & _ & ? & _).
  set (st1 := with_activelist (q, s) st).
  assert (Hd : deltas s 0 A).
  { eapply deltas_ext; [|exact Hl]. intros y _. apply (links_only_data _ _ _ y Ho). }
  set (st2 := if negb _ then _ else st1).
  assert (Hlo : lags_only st1 st2) by
    (unfold st2; destruct (negb _); [apply lags_only_upd|apply lags_only_refl]).
  assert (Hd2 : deltas (store st2) 0 A).
  { unfold st2. destruct (negb _); [|done]. eapply deltas_ext; [|exact Hd]. intros y Hy.
    cbn [wupd with_store store]. rewrite wdog_at_on. case_decide as E; [|done]. subst y. simpl.
    unfold wget. cbn [st1 with_activelist store snd].
    destruct (links_only_data _ _ _ x Ho) as (-> & _). rewrite Hlx.
    destruct A as [|[y u] A]; [by apply not_elem_of_nil in Hy|].
    rewrite Hh. change (default 0 (head ((y, u) :: A).*1)) with y.
    simpl in Hd, Ht. destruct Hd as [Hy' _], Ht as [Ht _]. unfold INT_MAX in Ht.
    rewrite Hy', i32_small; lia. }
  clearbody st2. destruct Hlo as (Hone & Hcalls & Hdom & Hqa & Hqf & He).
  assert (Hw : ∀ {B} (g : wdog_t → B) y, (y = x → ∀ w, g (with_active false w) = g w) →
    g (wget (wupd x (with_active false) st2) y) = g (wget st2 y)).
  { intros B g y Hg. rewrite wget_wupd. case_decide; [by apply Hg|done]. }
  split_and!; [done| |].
  - apply (wd_repr_remove 0 st _ [] x 0 A F Hr); cbn [g_wdactivelist g_wdfreelist wupd with_store].
    + rewrite Hqa. eapply sq_repr_links; [|exact Hs]. intros y _.
      etransitivity; [by apply (Hw _ wnext)|]. apply Hone.
    + by rewrite Hqf.
    + intros y Hy. rewrite (Hw _ wnext y) by done. destruct (Hone y) as [-> _].
      apply (f_equal wnext), Ho. intros Hy'. eapply (wr_disj _ _ _ _ Hr); [exact Hy'|exact Hy].
    + eapply deltas_ext; [|exact Hd2]. intros y _. by apply (Hw _ lag).
    + intros y Hy. rewrite (Hw _ active y) by done. destruct (Hone y) as [_ ->].
      apply (links_only_data _ _ _ y Ho).
    + by rewrite wget_wupd, decide_True.
    + intros y Hy. apply on_is_Some, Hdom. by apply Ho.
  - intros y. rewrite (Hw _ func y), (Hw _ wd_args y) by done. destruct (Hcalls y) as [-> ->].
    apply (links_only_data _ _ _ y Ho).
Qed.

(** The state after the loop: the watchdogs that were due and that nobody
    stopped have run, once and in order, and the others are untouched. *)
Definition expired st A F (fired : list (Z * (Z * list Z))) st' A' F' : Prop :=
  fired.*1 `sublist_of` (due A).*1 ∧
  ∀ x, callbacks_spare x → wd_call st' x = wd_call st x ∧ (x ∉ F → x ∉ F') ∧
    match remaining A x with
    | Some t => if t <=? 0 then (x, wd_call st x) ∈ fired ∧ remaining A' x = None
                else remaining A' x = Some t
    | None => remaining A' x = None
    end.

Lemma due_fst A x : x ∈ (due A).*1 → ∃ t, (x, t) ∈ A ∧ t ≤ 0.
Proof.
  intros ([y t] & -> & Hy)%list_elem_of_fmap. apply list_elem_of_filter in Hy as [Ht Hy]. eauto.
Qed.

(** Either nothing is due, or the first watchdog is. *)
Lemma due_cases st A F : wd_repr 0 st A F →
  (due A = [] ∧ ascending 1 A) ∨ ∃ x A0, A = (x, 0) :: A0 ∧ due A = (x, 0) :: due A0.
Proof.
  intros Hr. pose proof (wr_times _ _ _ _ Hr) as Ha. destruct A as [|[x t] A]; [by left|].
  destruct Ha as [Ht Ha]. destruct (decide (t = 0)) as [->|Hne].
  - right. exists x, A. by unfold due; rewrite filter_cons, decide_True.
  - left. assert (Ha1 : ascending 1 ((x, t) :: A)) by (split; [lia|done]). split; [|done].
    by apply (due_positive 1).
Qed.

Lemma wd_idle_spec fuel st A F :
  wd_repr 0 st A F → due A = [] → ascending 1 A →
  wd_expire callback fuel st = Some ([], st) ∧ wd_repr 1 st A F ∧ expired st A F [] st A F.
Proof.
  intros Hr Hdue Ha. split_and!.
  - pose proof (wr_active _ _ _ _ Hr) as (_ & _ & _ & Hh & _). pose proof (wr_lags _ _ _ _ Hr) as Hl.
    destruct A as [|[x t] A]; [by destruct fuel; simpl; rewrite Hh|].
    destruct Hl as [Hl _], Ha as [Ha _].
    assert (Hle : lag (wget st (q_head (g_wdactivelist st))) <=? 0 = false).
    { rewrite Hh. apply Z.leb_gt. unfold wget. simpl. lia. }
    destruct fuel; simpl; by rewrite Hle, andb_false_r.
  - by destruct Hr; split.
  - split; [apply sublist_nil_l|]. intros x _. split_and!; [done..|].
    destruct (remaining A x) as [t|] eqn:E; [|done].
    apply remaining_elem in E; [|by eapply wd_repr_nodup]. case_test; [|done]. exfalso.
    assert ((x, t) ∈ due A) as Hd by (by apply list_elem_of_filter).
    rewrite Hdue in Hd. by apply not_elem_of_nil in Hd.
Qed.

Lemma spare_calls st st' (ops : list wd_op) y :
  (∀ z, (∀ op, op ∈ ops → ¬ starts z op) → wd_call st' z = wd_call st z) →
  (∀ op, op ∈ ops → about y op = false) → wd_call st' y = wd_call st y.
Proof.
  intros H Hy. apply H. intros op Hop (d & f & n & ap & ->). apply Hy in Hop. simpl in Hop. by zb.
Qed.

Lemma wd_expire_spec fuel st A F :
  callbacks_legal → wd_repr 0 st A F → (length (due A) ≤ fuel)%nat →
  ∃ fired st' A' F', wd_expire callback fuel st = Some (fired, st') ∧ wd_repr 1 st' A' F' ∧
    expired st A F fired st' A' F'.
Proof.
  intros Hcb. revert st A F. induction fuel as [|fuel IH]; intros st A F Hr Hf;
    destruct (due_cases _ _ _ Hr) as [[Hdue Ha]|(x & A0 & -> & Hdue)];
    try (destruct (wd_idle_spec 0 _ _ _ Hr Hdue Ha) as (He & Hr' & Hx); exists [], st, A, F; by split_and!);
    [rewrite Hdue in Hf; simpl in Hf; lia| |].
  { destruct (wd_idle_spec (S fuel) _ _ _ Hr Hdue Ha) as (He & Hr' & Hx). exists [], st, A, F. by split_and!. }
  pose proof (wr_active _ _ _ _ Hr) as (_ & Hn & H0 & Hh & _). simpl. rewrite Hh.
  change (default 0 (head ((x, 0) :: A0).*1)) with x. simpl in H0, Hn. apply NoDup_cons in Hn as [HxA Hn].
  rewrite (proj2 (Z.eqb_neq x 0)) by in_list. destruct (wr_lags _ _ _ _ Hr) as [Hlx _].
  unfold wget at 1. rewrite Hlx. cbn [negb andb Z.leb Z.sub Z.add Z.opp Z.compare].
  pose proof (wd_pop_spec st x A0 F Hr) as Hp.
  destruct (sq_remfirst _ _) as [[w q] s]. destruct Hp as (-> & Hr1 & Hc1).
  set (st1 := wupd x (with_active false) _) in *. clearbody st1. set (ops := callback _ _ st1).
  pose proof (Hcb _ _ st1 A0 F Hr1 : wd_legal_run ops A0 F) as Hleg.
  destruct (wd_execs_spec 0 ops st1 A0 F Hr1 ltac:(lia) Hleg) as (st2 & Hx & Hr2 & Hc2).
  pose proof (λ y, wd_execs_remaining ops st1 A0 F 0 y Hr1 ltac:(lia) Hleg) as Hrem.
  pose proof (wd_specs_due ops A0 F) as Hsub0. pose proof (wd_specs_free ops A0 F) as Hfree. rewrite Hx. cbn [mbind option_bind].
  destruct (wd_specs ops A0 F) as [A2 F2]. simpl in Hr2, Hrem, Hsub0, Hfree.
  destruct (IH st2 A2 F2 Hr2) as (fired & st' & A' & F' & He & Hr' & [Hsub Hsp]).
  { rewrite Hdue in Hf. apply sublist_length in Hsub0. simpl in Hf. lia. }
  rewrite He. cbn [mbind option_bind].
  exists ((x, (func (wget st1 x), wd_args (wget st1 x))) :: fired), st', A', F'.
  split_and!; [done|done|split].
  - rewrite Hdue. simpl. apply sublist_skip. etransitivity; [exact Hsub|]. by apply fmap_sublist.
  - intros y Hy. destruct (Hsp y Hy) as (Hc & HF' & Hm). destruct (Hrem y) as [Hry _].
    rewrite Hry in Hm by (intros op; apply Hy).
    assert (Hc' : wd_call st2 y = wd_call st y).
    { rewrite (spare_calls st1 st2 ops y Hc2) by (intros op; apply Hy). by apply same_calls_call. }
    split_and!; [by rewrite Hc|intros HyF; apply HF', Hfree; [intros op; apply Hy|done]|].
    simpl. destruct (Z.eqb_spec x y) as [<-|Hne].
    + rewrite (proj2 (remaining_None A0 x) HxA) in Hm. split; [|done].
      apply elem_of_cons. left. f_equal. destruct (Hc1 x) as [-> ->]. done.
    + rewrite Hc' in Hm. destruct (remaining A0 y) as [u|]; [|done]. case_test; [|done].
      destruct Hm. split; [in_list|done].
Qed.

Lemma wd_tick_spec st x t A F :
  wd_repr 1 st ((x, t) :: A) F →
  let st1 := wupd x (with_lag (lag (wget st x) - 1)) st in
  wd_repr 0 st1 (tick ((x, t) :: A)) F ∧ same_calls st st1 ∧ lag (wget st1 x) = t - 1.
Proof.
  intros Hr st1. destruct (lags_only_upd x (lag (wget st x) - 1) st : lags_only st st1)
    as (Hone & Hcalls & Hdom & _).
  pose proof (wd_repr_nodup _ _ _ _ Hr) as [HxA _]%NoDup_cons.
  pose proof (wr_lags _ _ _ _ Hr) as [Hlx Hl]. pose proof (wr_times _ _ _ _ Hr) as Ha.
  pose proof Ha as [Ht _]. unfold INT_MAX in Ht.
  assert (Hx : lag (wget st1 x) = t - 1).
  { unfold st1. rewrite wget_wupd, decide_True by done. simpl. unfold wget. rewrite Hlx, i32_small; lia. }
  split_and!; [|done|done]. destruct Hr as [Hq Hf Hd _ _ Hfl Hdm].
  split; rewrite ?tick_fst; try done.
  - eapply sq_repr_links; [|exact Hq]. intros y _. apply Hone.
  - eapply sq_repr_links; [|exact Hf]. intros y _. apply Hone.
  - split; [change (lag (wget st1 x) = Z.pred t - 0); lia|].
    assert (Hlag : ∀ y, y ∈ A.*1 → lag (wdog_at (store st1) y) = lag (wdog_at (store st) y)).
    { intros y Hy. change (lag (wget st1 y) = lag (wget st y)). unfold st1.
      rewrite wget_wupd, decide_False; [done|]. by intros ->. }
    clear - Hl Hlag. revert t Hl. induction A as [|[y u] A IH]; intros t Hl; simpl in *; [done|].
    destruct Hl as [Hy Hl]. split; [rewrite Hlag by in_list; lia|].
    apply IH; [|done]. intros z Hz. apply Hlag. in_list.
  - apply (ascending_tick 1). done.
  - intros y Hy. destruct (Hone y) as [_ ->]. by apply Hfl.
  - intros y Hy. by apply Hdom, Hdm.
Qed.

Lemma wd_timer_spec st A F :
  callbacks_legal → wd_repr 1 st A F →
  ∃ fired st' A' F', wd_timer callback st = Some (fired, st') ∧ wd_repr 1 st' A' F' ∧
    expired st (tick A) F fired st' A' F'.
Proof.
  intros Hcb Hr. unfold wd_timer. pose proof (wr_active _ _ _ _ Hr) as (_ & _ & H0 & Hh & _). rewrite Hh.
  destruct A as [|[x t] A].
  { exists [], st, [], F. split_and!; [done|done|]. split; [apply sublist_nil_l|by intros]. }
  change (default 0 (head ((x, t) :: A).*1)) with x. simpl in H0.
  rewrite (proj2 (Z.eqb_neq x 0)) by in_list. cbn [negb].
  destruct (wd_tick_spec _ _ _ _ _ Hr) as (Hr1 & Hc1 & Hx).
  set (st1 := wupd x _ st) in *. clearbody st1. rewrite Hx.
  assert (Hcall : ∀ fired st' A' F', expired st1 (tick ((x, t) :: A)) F fired st' A' F' →
                                   expired st (tick ((x, t) :: A)) F fired st' A' F').
  { intros fired st' A' F' [Hs Hy]. split; [done|]. intros y Hsp. specialize (Hy y Hsp).
    by rewrite (same_calls_call _ _ y Hc1) in Hy. }
  case_test.
  - destruct (wd_expire_spec (wd_fuel st1) st1 _ F Hcb Hr1) as (fired & st' & A' & F' & He & Hr' & Hx').
    { etransitivity; [|by eapply wd_length]. apply sublist_length, sublist_filter. }
    exists fired, st', A', F'. auto.
  - pose proof (wr_times _ _ _ _ Hr1) as [Ht Ha]. destruct (due_cases _ _ _ Hr1) as [[Hd H1]|(z & A0 & E & _)].
    + destruct (wd_idle_spec 0 _ _ _ Hr1 Hd H1) as (_ & Hr' & Hx').
      exists [], st1, (tick ((x, t) :: A)), F. auto.
    + simpl in E. injection E as _ E _. lia.
Qed.
End Timer.
