(* ===== verification/WdogThms.v ===== *)
(** What watchdog timers promise: every call refines its specification, a tick
    runs what is due, and a watchdog runs exactly when its delay has passed,
    whatever happens to the others. *)

From stdpp Require Import base numbers functions gmap sorting list.
From S2P Require Import Prelude Queue Memory Wdog WdogInv WdogOps WdogSpec WdogTimer.

(** What happens to the system: ticks of the clock and calls. *)
Inductive wd_event := EvTick | EvCall (op : wd_op).

(** A run, with the list of expirations of each tick. *)
Fixpoint wd_run (callback : Z → list Z → wdst → list wd_op) (evs : list wd_event) (st : wdst) :
    option (list (list (Z * (Z * list Z))) * wdst) :=
  match evs with
  | [] => Some ([], st)
  | EvTick :: evs =>
      '(fired, st) ← wd_timer callback st;
      '(ticks, st) ← wd_run callback evs st;
      Some (fired :: ticks, st)
  | EvCall op :: evs => '(_, st) ← wd_exec op st; wd_run callback evs st
  end.

(** Every call is legal in the state where it is made, and leaves [x] alone. *)
Fixpoint calls_legal (callback : Z → list Z → wdst → list wd_op) (x : Z) (evs : list wd_event) (st : wdst) : Prop :=
  match evs with
  | [] => True
  | EvTick :: evs => ∀ fired st1, wd_timer callback st = Some (fired, st1) → calls_legal callback x evs st1
  | EvCall op :: evs => about x op = false ∧ (∃ A F, wd_repr 1 st A F ∧ wd_legal op F) ∧
      ∀ r st1, wd_exec op st = Some (r, st1) → calls_legal callback x evs st1
  end.

Fixpoint ticks_of (evs : list wd_event) : nat :=
  match evs with [] => 0 | EvTick :: evs => S (ticks_of evs) | EvCall _ :: evs => ticks_of evs end.

Section Fill.
Lemma wd_fill_spec n p st F :
  sq_repr (store st) (g_wdfreelist st) F → (∀ x, x ∈ F → 0 < x < p) → 0 < p →
  let ids := (λ i, p + Z.of_nat i * sizeof_wdog_t) <$> seq 0 n in
  sq_repr (store (wd_fill n p st)) (g_wdfreelist (wd_fill n p st)) (F ++ ids) ∧
  (∀ y, active (wget (wd_fill n p st) y) = active (wget st y)).
Proof.
  revert p st F. induction n as [|n IH]; intros p st F Hq HF Hp; [simpl; by rewrite app_nil_r|].
  cbn [wd_fill]. set (st1 := with_freelist _ st).
  assert (HpF : p ∉ F) by (intros ?%HF; lia).
  assert (Hq1 : sq_repr (store st1) (g_wdfreelist st1) (F ++ [p])) by (apply sq_addlast_spec; [done|done|lia]).
  destruct (IH (p + sizeof_wdog_t) st1 (F ++ [p])) as [H1 H2]; [done| |unfold sizeof_wdog_t; lia|].
  { intros x [Hx%HF| ->%list_elem_of_singleton]%elem_of_app; unfold sizeof_wdog_t; lia. }
  split.
  - rewrite <-app_assoc in H1. replace (_ <$> seq 0 (S n)) with
      (p :: ((λ i, p + sizeof_wdog_t + Z.of_nat i * sizeof_wdog_t) <$> seq 0 n)); [done|].
    cbn [seq fmap list_fmap]. f_equal; [lia|]. rewrite <-seq_shift.
    fold (fmap (M:=list) S (seq 0 n)). rewrite <-list_fmap_compose.
    apply list_fmap_ext. intros i j _. simpl. unfold sizeof_wdog_t. lia.
  - intros y. rewrite H2. apply (links_only_data _ _ _ y (sq_addlast_only _ _ _ p Hq)).
Qed.
End Fill.

(** The watchdogs of the pool at [pool]. *)
Definition wd_pool (pool : Z) : list Z :=
  if pool =? 0 then []
  else (λ i, pool + Z.of_nat i * sizeof_wdog_t) <$> seq 0 CONFIG_PREALLOC_WDOGS.

Lemma wd_initialize_repr pool st :
  0 ≤ pool → (∀ y, active (wget st y) = false) → wd_repr 1 (wd_initialize pool st) [] (wd_pool pool).
Proof.
  intros Hp Hact. unfold wd_initialize, wd_pool. set (st1 := with_freelist (sq_init, store st) st).
  assert (Hq : sq_repr (store st1) (g_wdfreelist st1) []).
  { by split_and!; [|apply NoDup_nil|apply not_elem_of_nil|..]. }
  destruct (Z.eqb_spec pool 0) as [->|Hne]; cbn [negb].
  - split; try done; [by intros ? ?%not_elem_of_nil|intros y _|by intros ? ?%not_elem_of_nil].
    change (active (wget st y) = true ↔ y ∈ ([] : list Z)). rewrite Hact.
    split; [done|by intros ?%not_elem_of_nil].
  - destruct (wd_fill_spec CONFIG_PREALLOC_WDOGS pool st1 [] Hq) as [H1 H2];
      [by intros ? ?%not_elem_of_nil|lia|].
    set (st2 := wd_fill _ _ _) in *. clearbody st2.
    split; try done; [by intros ? ?%not_elem_of_nil|intros y _|by intros ? ?%not_elem_of_nil].
    change (active (wget st2 y) = true ↔ y ∈ ([] : list Z)). rewrite H2. rewrite (Hact y : active (wget st1 y) = _).
    split; [done|by intros ?%not_elem_of_nil].
Qed.

(** [n] calls of [wd_create]. *)
Fixpoint wd_creates (n : nat) (st : wdst) : list Z * wdst :=
  match n with
  | O => ([], st)
  | S n => let '(r, st) := wd_create st in let '(rs, st) := wd_creates n st in (r :: rs, st)
  end.

(** After wd_initialize the first wd_create calls return the watchdogs of the pool one by one
    and the later ones return NULL; without a pool all of them do. *)
Theorem wd_initialize_correct pool st n :
  0 ≤ pool → (∀ y, active (wget st y) = false) →
  ∃ st', wd_creates n (wd_initialize pool st) =
      (take n (wd_pool pool) ++ replicate (n - length (wd_pool pool)) 0, st') ∧
    wd_repr 1 st' [] (drop n (wd_pool pool)).
Proof.
  intros Hp Hact. pose proof (wd_initialize_repr pool st Hp Hact) as Hr.
  revert Hr. generalize (wd_initialize pool st) (wd_pool pool). clear Hp Hact.
  induction n as [|n IH]; intros st1 F Hr; simpl; [eauto|].
  destruct (wd_create_spec _ _ _ _ Hr) as (st2 & Hc & Hr2 & _). rewrite Hc.
  destruct (IH st2 (tail F) Hr2) as (st3 & -> & Hr3). exists st3.
  destruct F as [|x F]; simpl in *; [by rewrite take_nil, drop_nil, Nat.sub_0_r in *|done].
Qed.

(** C38. Every legal call of wd_create, wd_start, wd_cancel and wd_delete returns and does to the
    delta-coded timer queue and the free list what its specification does to a list of absolute
    remaining times (insertion behind equal times, removal, everything else in place), with the
    specified result; wd_gettime reads that list. *)
Theorem wd_exec_refines st A F op :
  wd_repr 1 st A F → wd_legal op F →
  ∃ st', wd_exec op st = Some ((wd_spec op A F).1.1, st') ∧
    wd_repr 1 st' (wd_spec op A F).1.2 (wd_spec op A F).2 ∧
    (∀ y, y ∉ (wd_spec op A F).2 →
       wd_gettime y st' = Some (default 0 (remaining (wd_spec op A F).1.2 y))).
Proof.
  intros Hr Hleg. destruct (wd_exec_spec 1 st A F op Hr ltac:(lia) Hleg) as (st' & H).
  destruct (wd_spec op A F) as [[r A'] F']. destruct H as (He & Hr' & _).
  exists st'. split_and!; [done..|]. intros y Hy. eapply wd_gettime_spec; [done|lia|done].
Qed.

(** A tick returns even when the functions of watchdogs start, stop, create and delete
    watchdogs: the functions that run belong to watchdogs with one tick left, each at most once and
    in queue order; a watchdog that no function concerns runs if it had one tick left and otherwise
    has one tick less. *)
Theorem wd_timer_correct callback st A F :
  callbacks_legal callback → wd_repr 1 st A F →
  ∃ fired st' A' F', wd_timer callback st = Some (fired, st') ∧ wd_repr 1 st' A' F' ∧
    fired.*1 `sublist_of` (filter (λ e, e.2 = 1) A).*1 ∧
    ∀ x, callbacks_spare callback x →
      (remaining A x = Some 1 → (x, wd_call st x) ∈ fired ∧ remaining A' x = None) ∧
      (∀ t, remaining A x = Some t → t ≠ 1 → remaining A' x = Some (t - 1)) ∧
      (remaining A x = None → remaining A' x = None).
Proof.
  intros Hcb Hr. destruct (wd_timer_spec callback st A F Hcb Hr) as (fired & st' & A' & F' & He & Hr' & Hsub & Hx).
  exists fired, st', A', F'. split_and!; [done|done| |].
  - by rewrite <-(due_tick 1 A ltac:(lia) (wr_times _ _ _ _ Hr)).
  - intros x Hsp. destruct (Hx x Hsp) as (_ & _ & Hm). rewrite remaining_tick in Hm. split_and!.
    + intros E. rewrite E in Hm. exact Hm.
    + intros t E Hne. rewrite E in Hm. simpl in Hm.
      pose proof (remaining_ge _ _ _ _ (wr_times _ _ _ _ Hr) E).
      rewrite (proj2 (Z.leb_gt (Z.pred t) 0)) in Hm by lia. by rewrite Hm.
    + intros E. by rewrite E in Hm.
Qed.

Section OnTime.
Context (callback : Z → list Z → wdst → list wd_op) (x : Z).
Context (Hlegal : callbacks_legal callback) (Hspare : callbacks_spare callback x).

Lemma chain_unique (nx : Z → Z) l l' :
  chain nx l 0 → chain nx l' 0 → 0 ∉ l → 0 ∉ l' → default 0 (head l) = default 0 (head l') → l = l'.
Proof.
  revert l'. induction l as [|a l IH]; intros [|b l']; simpl; try done.
  - intros _ _ _ H0 Hb. exfalso. in_list.
  - intros _ _ H0 _ Ha. exfalso. in_list.
  - intros [Ha Hl] [Hb Hl'] H0 H0' E. unfold id in *. f_equal; [done|].
    apply IH; [done|done|in_list|in_list|congruence].
Qed.

Lemma wd_free_unique lo st A A' F F' : wd_repr lo st A F → wd_repr lo st A' F' → F = F'.
Proof.
  intros [_ (Hc & _ & H0 & Hh & _) _ _ _ _ _] [_ (Hc' & _ & H0' & Hh' & _) _ _ _ _ _].
  eapply chain_unique; try done. congruence.
Qed.

(** [x] expires in [D] ticks, or does not when [D] is 0. *)
Definition expects (D : Z) (c : Z * list Z) st : Prop :=
  0 ≤ D ∧ wd_call st x = c ∧
  ∃ A F, wd_repr 1 st A F ∧ x ∉ F ∧ remaining A x = if D =? 0 then None else Some D.

Lemma expects_tick D c st : expects D c st → ∃ fired st', wd_timer callback st = Some (fired, st') ∧
  expects (Z.max 0 (D - 1)) c st' ∧ if D =? 1 then (x, c) ∈ fired else x ∉ fired.*1.
Proof.
  intros (HD & Hc & A & F & Hr & HF & Hrem).
  destruct (wd_timer_spec callback st A F Hlegal Hr) as (fired & st' & A' & F' & He & Hr' & Hsub & Hx).
  exists fired, st'. split; [exact He|]. destruct (Hx x Hspare) as (Hc' & HF' & Hm).
  rewrite remaining_tick, Hrem in Hm.
  assert (Hnot : remaining A x ≠ Some 1 → x ∉ fired.*1).
  { intros Hne Hin. apply Hne. apply (sublist_subseteq _ _ Hsub) in Hin.
    rewrite (due_tick 1 A ltac:(lia) (wr_times _ _ _ _ Hr)) in Hin.
    apply list_elem_of_fmap in Hin as ([y t] & -> & [Hy HA]%list_elem_of_filter). simpl in *. subst.
    apply remaining_elem; [by eapply wd_repr_nodup|done]. }
  split.
  - split_and!; [lia|congruence|]. exists A', F'. split_and!; [done|auto|].
    destruct (Z.eqb_spec D 0) as [->|HD0]; simpl in Hm; [done|].
    destruct (Z.leb_spec (Z.pred D) 0).
    + destruct Hm as [_ ->]. by replace (Z.max 0 (D - 1)) with 0 by lia.
    + rewrite Hm, (proj2 (Z.eqb_neq _ 0)) by lia. f_equal. lia.
  - destruct (Z.eqb_spec D 1) as [->|HD1].
    + simpl in Hm. destruct Hm as [Hm _]. by rewrite Hc in Hm.
    + apply Hnot. rewrite Hrem. destruct (Z.eqb_spec D 0); congruence.
Qed.

Lemma expects_call D c st op : expects D c st → (∃ A F, wd_repr 1 st A F ∧ wd_legal op F) → about x op = false →
  ∃ r st', wd_exec op st = Some (r, st') ∧ expects D c st'.
Proof.
  intros (HD & Hc & A0 & F0 & Hr0 & HF & Hrem) (A & F & Hr & Hleg) Ha.
  rewrite (wd_free_unique _ _ _ _ _ _ Hr Hr0) in Hleg.
  destruct (wd_exec_spec 1 st A0 F0 op Hr0 ltac:(lia) Hleg) as (st1 & H).
  pose proof (wd_spec_remaining op A0 F0 x (wd_repr_nodup _ _ _ _ Hr0)) as [Hx _].
  pose proof (wd_spec_free op A0 F0 x Ha HF) as HF'.
  destruct (wd_spec op A0 F0) as [[r' A'] F']. destruct H as (He' & Hr' & Hcalls). simpl in *.
  exists r', st1. split; [exact He'|]. split_and!; [done| |].
  - rewrite Hcalls; [done|]. intros d f n ap ->. simpl in Ha. zb. done.
  - exists A', F'. split_and!; [done|done|]. by rewrite Hx.
Qed.

Lemma expects_run D c evs st : expects D c st → calls_legal callback x evs st →
  ∃ ticks st', wd_run callback evs st = Some (ticks, st') ∧ length ticks = ticks_of evs ∧
    (∀ i fired, ticks !! i = Some fired →
       if Z.of_nat i + 1 =? D then (x, c) ∈ fired else x ∉ fired.*1) ∧
    expects (Z.max 0 (D - Z.of_nat (length ticks))) c st'.
Proof.
  revert D st. induction evs as [|[|op] evs IH]; intros D st He Hl; cbn [wd_run].
  - exists [], st. split_and!; [done|done|done|]. pose proof He as [HD _].
    replace (Z.max 0 _) with D by (simpl; lia). done.
  - destruct (expects_tick _ _ _ He) as (fired & st1 & Et & He1 & Hf). rewrite Et. cbn [mbind option_bind].
    destruct (IH _ st1 He1 (Hl _ _ Et)) as (ticks & st' & -> & Hlen & Hi & He2). cbn [mbind option_bind].
    exists (fired :: ticks), st'. split_and!; [done|by cbn; rewrite Hlen| |].
    + intros [|i] fr Hli.
      * injection Hli as <-. rewrite (Z.eqb_sym D 1) in Hf. exact Hf.
      * specialize (Hi i fr Hli). revert Hi.
        destruct (Z.eqb_spec (Z.of_nat i + 1) (Z.max 0 (D - 1))),
          (Z.eqb_spec (Z.of_nat (S i) + 1) D); try lia; done.
    + replace (Z.max 0 (D - Z.of_nat (length (fired :: ticks))))
        with (Z.max 0 (Z.max 0 (D - 1) - Z.of_nat (length ticks))) by (simpl; lia). done.
  - destruct Hl as (Ha & Hl & Hnext). destruct (expects_call _ _ _ _ He Hl Ha) as (r & st1 & E & He1).
    rewrite E. cbn [mbind option_bind]. destruct (IH _ st1 He1 (Hnext _ _ E)) as (ticks & st' & -> & Hlen & Hr).
    exists ticks, st'. split_and!; try apply Hr; [done|]. rewrite Hlen. done.
Qed.
End OnTime.

(** C6. wd_start of a watchdog that is not in the pool, with a delay d >= 0 and at most
    CONFIG_MAX_WDOGPARMS arguments, returns OK. Whatever legal calls on other watchdogs, from tasks
    and from the functions of watchdogs, come between the following ticks of the clock, every tick
    and every call returns, and the watchdog runs its function, with the arguments it was started
    with, on exactly the (d+1)-th tick (the INT_MAX-th when d is INT_MAX) and on no other;
    wd_gettime answers at every moment the number of ticks that remain. *)
Theorem wd_fires_on_time callback st A F x d f n ap :
  callbacks_legal callback → callbacks_spare callback x →
  wd_repr 1 st A F → x ∉ F → x ≠ 0 → 0 ≤ d ≤ INT_MAX → 0 ≤ n ≤ CONFIG_MAX_WDOGPARMS →
  (Z.to_nat n ≤ length ap)%nat →
  ∃ st0, wd_start x d f n ap st = Some (OK, st0) ∧
  ∀ evs, calls_legal callback x evs st0 →
  ∃ ticks st', wd_run callback evs st0 = Some (ticks, st') ∧ length ticks = ticks_of evs ∧
    let D := Z.min (d + 1) INT_MAX in
    (∀ i fired, ticks !! i = Some fired →
       if Z.of_nat i + 1 =? D then (x, (f, take (Z.to_nat n) ap)) ∈ fired else x ∉ fired.*1) ∧
    wd_gettime x st' = Some (Z.max 0 (D - Z.of_nat (length ticks))).
Proof.
  intros Hcb Hsp Hr HF Hx0 Hd Hn Hap.
  destruct (wd_start_spec 1 st A F x d f n ap) as (st0 & Hst & Hr1 & _ & Hc & _); try done; [lia|].
  exists st0. split; [exact Hst|]. intros evs Hl. cbv zeta. set (D := Z.min (d + 1) INT_MAX).
  assert (He : expects x D (f, take (Z.to_nat n) ap) st0).
  { assert (0 < D) by (unfold D, INT_MAX; lia). split_and!; [lia|apply Hc; lia|].
    eexists _, F. split_and!; [exact Hr1|done|].
    rewrite remaining_tinsert by (by eapply tremove_not_in, wd_repr_nodup).
    rewrite Z.eqb_refl. by rewrite (proj2 (Z.eqb_neq D 0)) by lia. }
  destruct (expects_run callback x Hcb Hsp _ _ _ _ He Hl) as (ticks & st' & E & Hlen & Hi & HD & _ & A' & F' & Hr' & HF' & Hrem).
  exists ticks, st'. split_and!; [exact E|exact Hlen|exact Hi|]. rewrite (wd_gettime_spec 1 st' A' F' x Hr' ltac:(lia) HF'), Hrem.
  destruct (Z.eqb_spec (Z.max 0 (D - Z.of_nat (length ticks))) 0) as [->|]; done.
Qed.

(** ** A concrete system *)

Definition wd0 : wdst := wd_initialize 0x1000 (mk_wdst ∅ sq_init sq_init 0).

(** Two watchdogs of four, one to run 3 ticks after the other. *)
Definition wd_setup : list wd_op :=
  [WdCreate; WdCreate; WdStart 0x1000 4 0x8000 1 [7]; WdStart 0x1018 1 0x9000 0 []].
Definition wd1 : wdst := default wd0 (wd_execs wd_setup wd0).
Definition wd1_times : list (Z * Z) := [(0x1018, 2); (0x1000, 5)].
Definition wd1_free : list Z := [0x1030; 0x1048].

Lemma wd1_repr : wd_repr 1 wd1 wd1_times wd1_free.
Proof.
  assert (Hr : wd_repr 1 wd0 [] (wd_pool 0x1000)).
  { apply wd_initialize_repr; [lia|]. intros y. reflexivity. }
  destruct (wd_execs_spec 1 wd_setup wd0 _ _ Hr) as (st' & E & Hr' & _); [lia| |].
  - vm_compute. repeat split; repeat match goal with
      | |- list_elem_of _ _ → False => intros Hx; repeat (apply elem_of_cons in Hx as [Hx|Hx]; [discriminate|]);
          by apply not_elem_of_nil in Hx
      | _ => discriminate || lia end.
  - unfold wd1. rewrite E. exact Hr'.
Qed.

(** The function at 0x9000 postpones the watchdog that would run next and
    allocates another one; the other functions do not use watchdogs. *)
Definition wd_cb : Z → list Z → wdst → list wd_op := λ f _ st,
  if f =? 0x9000 then [WdStart (q_head (g_wdactivelist st)) 10 0xa000 0 []; WdCreate] else [].

Lemma wd_cb_legal : callbacks_legal wd_cb.
Proof.
  intros f args st A F Hr. unfold wd_cb. case_test; [|done]. split; [|by destruct (wd_spec _ A F) as [[? ?] ?]].
  destruct (wr_free _ _ _ _ Hr) as (_ & _ & H0 & _). destruct (wr_active _ _ _ _ Hr) as (_ & _ & _ & Hh & _).
  split_and!; [|unfold INT_MAX; lia|simpl; lia]. rewrite Hh.
  destruct A as [|[x t] A]; [done|]. apply (wr_disj _ _ _ _ Hr). simpl. in_list.
Qed.

Definition wd_cb2 : Z → list Z → wdst → list wd_op := λ f _ _, if f =? 0x9000 then [WdCreate] else [].

Lemma wd_cb2_legal : callbacks_legal wd_cb2.
Proof. intros f args st A F Hr. unfold wd_cb2. by case_test. Qed.

Lemma wd_cb2_spare x : callbacks_spare wd_cb2 x.
Proof.
  intros f args st op. unfold wd_cb2. case_test; [|by intros ?%not_elem_of_nil].
  by intros ->%list_elem_of_singleton.
Qed.

Lemma wd_initialize_correct_witness :
  ∃ st', wd_creates 5 (wd_initialize 0x1000 (mk_wdst ∅ sq_init sq_init 0)) =
    ([0x1000; 0x1018; 0x1030; 0x1048; 0], st') ∧ wd_repr 1 st' [] [].
Proof.
  apply (wd_initialize_correct 0x1000 (mk_wdst ∅ sq_init sq_init 0) 5); [lia|intros y; reflexivity].
Defined.

Lemma wd_exec_refines_witness :
  ∃ st', wd_exec (WdStart 0x1018 7 0x9000 0 []) wd1 = Some (OK, st') ∧
    wd_repr 1 st' [(0x1000, 5); (0x1018, 8)] wd1_free ∧ wd_gettime 0x1018 st' = Some 8.
Proof.
  destruct (wd_exec_refines wd1 wd1_times wd1_free (WdStart 0x1018 7 0x9000 0 []) wd1_repr)
    as (st' & He & Hr & Hg).
  - split_and!; [|unfold INT_MAX; lia|simpl; lia]. unfold wd1_free.
    rewrite !elem_of_cons. intros [?|[?|?%not_elem_of_nil]]; [lia..|done].
  - exists st'. split_and!; [exact He|exact Hr|]. apply Hg. unfold wd1_free. simpl.
    rewrite !elem_of_cons. intros [?|[?|?%not_elem_of_nil]]; [lia..|done].
Defined.

Lemma wd_timer_correct_witness :
  ∃ fired st' A' F', wd_timer wd_cb wd1 = Some (fired, st') ∧ wd_repr 1 st' A' F' ∧
    fired.*1 `sublist_of` [].
Proof.
  destruct (wd_timer_correct wd_cb wd1 wd1_times wd1_free wd_cb_legal wd1_repr)
    as (fired & st' & A' & F' & He & Hr & Hs & _).
  exists fired, st', A', F'. split_and!; [exact He|exact Hr|exact Hs].
Defined.

(** Start the watchdog at 0x1000 anew; it runs on the third tick, and a watchdog is
    allocated in between. *)
Lemma wd_fires_on_time_witness : ∃ st0 t1 t2 t3 st',
  wd_start 0x1000 2 0x8000 1 [9] wd1 = Some (OK, st0) ∧
  wd_run wd_cb2 [EvTick; EvCall WdCreate; EvTick; EvTick] st0 = Some ([t1; t2; t3], st') ∧
  0x1000 ∉ t1.*1 ∧ 0x1000 ∉ t2.*1 ∧ (0x1000, (0x8000, [9])) ∈ t3 ∧ wd_gettime 0x1000 st' = Some 0.
Proof.
  destruct (wd_fires_on_time wd_cb2 wd1 wd1_times wd1_free 0x1000 2 0x8000 1 [9]
              wd_cb2_legal (wd_cb2_spare 0x1000) wd1_repr) as (st0 & E0 & H);
    [|lia|unfold INT_MAX; lia|unfold CONFIG_MAX_WDOGPARMS; lia|simpl; lia|].
  { unfold wd1_free. rewrite !elem_of_cons. intros [?|[?|?%not_elem_of_nil]]; [lia..|done]. }
  destruct (H [EvTick; EvCall WdCreate; EvTick; EvTick]) as (ticks & st' & E & Hlen & Hi & Hg).
  - intros fired st1 E1. split; [reflexivity|]. split; [|repeat intro; exact I].
    destruct (wd_start_spec 1 wd1 wd1_times wd1_free 0x1000 2 0x8000 1 [9]) as (st0' & E0' & Hr & _);
      [apply wd1_repr|lia| |lia|unfold INT_MAX; lia|unfold CONFIG_MAX_WDOGPARMS; lia|simpl; lia|].
    { unfold wd1_free. rewrite !elem_of_cons. intros [?|[?|?%not_elem_of_nil]]; [lia..|done]. }
    rewrite E0 in E0'. injection E0' as <-.
    destruct (wd_timer_spec wd_cb2 st0 _ _ wd_cb2_legal Hr) as (fired' & st1' & A' & F' & E1' & Hr' & _).
    rewrite E1 in E1'. injection E1' as <- <-. exists A', F'. split; [exact Hr'|exact I].
  - destruct ticks as [|t1 [|t2 [|t3 [|t4 ticks]]]]; try discriminate Hlen.
    exists st0, t1, t2, t3, st'. split_and!; [exact E0|exact E|exact (Hi 0%nat _ eq_refl)|exact (Hi 1%nat _ eq_refl)|exact (Hi 2%nat _ eq_refl)|exact Hg].
Defined.
