(* ===== verification/Calendar.v ===== *)
(** Calendar time: lib/time/lib_isleapyear.c, lib_daysbeforemonth.c,
    lib_calendar2utc.c, lib_gmtimer.c, lib_mktime.c.

    The three configurations of the sources are modelled: the simple one (no
    CONFIG_GREGORIAN_TIME), the Gregorian one, and the one that adds
    CONFIG_JULIAN_TIME.  [time_t] is a [uint32_t]; [int] and [long] have 32
    bits and are wrapped at every assignment.  [None] is a read outside the
    table of days or a loop that does not end. *)

From stdpp Require Import base numbers list.
From S2P Require Import Prelude Memory.

(** A year, a month from 1 and a day of the month from 1. *)
Definition date : Type := Z * Z * Z.

(** [struct tm]. *)
Record tm := mk_tm { tm_sec : Z; tm_min : Z; tm_hour : Z; tm_mday : Z; tm_mon : Z; tm_year : Z }.

(** ** lib_isleapyear.c, lib_daysbeforemonth.c *)

Definition clock_isleapyear (year : Z) : bool :=
  if negb (Z.rem year 400 =? 0) then
    if negb (Z.rem year 100 =? 0) then
      if negb (Z.rem year 4 =? 0) then false else true
    else false
  else true.

Definition g_daysbeforemonth : list Z := [0; 31; 59; 90; 120; 151; 181; 212; 243; 273; 304; 334; 365].

Definition clock_daysbeforemonth (month : Z) (leapyear : bool) : option Z :=
  retval ← (if month <? 0 then None else g_daysbeforemonth !! Z.to_nat month);
  Some (if (2 <=? month) && leapyear then retval + 1 else retval).

(** ** The simple configuration *)

(** [for (;;)]: count whole years. *)
Fixpoint utc_years (fuel : nat) (value days : Z) : option (Z * Z * bool) :=
  let leapyear := clock_isleapyear (value + 1970) in
  let tmp := if leapyear then 366 else 365 in
  if tmp <=? days then
    match fuel with
    | O => None
    | S fuel => utc_years fuel (value + 1) (w32 (days - tmp))
    end
  else Some (value, days, leapyear).

(** [do .. while (min < max)]: bisect the months. *)
Fixpoint utc_months (fuel : nat) (days : Z) (leapyear : bool) (min max : Z) : option Z :=
  match fuel with
  | O => None
  | S fuel =>
      let value := Z.shiftr (min + max) 1 in
      tmp ← clock_daysbeforemonth (value + 1) leapyear;
      if days <? tmp then
        tmp ← clock_daysbeforemonth value leapyear;
        if days <? tmp then
          let max := value - 1 in
          if min <? max then utc_months fuel days leapyear min max else Some min
        else Some value
      else
        let min := value + 1 in
        if min <? max then utc_months fuel days leapyear min max else Some min
  end.

Definition clock_utc2calendar (days : Z) : option date :=
  let value := i32 (days / (4 * 365 + 1)) in
  let days := w32 (days - value * (4 * 365 + 1)) in
  let value := i32 (Z.shiftl value 2) in
  '(value, days, leapyear) ← utc_years 5 value days;
  let year := 1970 + value in
  value ← utc_months 12 days leapyear 0 11;
  tmp ← clock_daysbeforemonth value leapyear;
  let days := w32 (days - tmp) in
  Some (year, value + 1, days + 1).

Definition mktime (tp : tm) : option Z :=
  let days := w32 (i32 ((tm_year tp - 70) * 365)) in
  let days := w32 (days + Z.shiftr (tm_year tp - 69) 2) in
  before ← clock_daysbeforemonth (tm_mon tp) (clock_isleapyear (tm_year tp + 1900));
  let days := w32 (days + before) in
  let days := w32 (days + (tm_mday tp - 1)) in
  Some (w32 (((days * 24 + tm_hour tp) * 60 + tm_min tp) * 60 + tm_sec tp)).

Definition clock_calendar2utc (year month day : Z) : option Z :=
  mktime (mk_tm 0 0 0 day month year).

(** ** CONFIG_GREGORIAN_TIME *)

Definition JD_OF_EPOCH : Z := 2440588.

Definition clock_gregorian2utc (year month day : Z) : Z :=
  let temp := if month <=? 2 then -1 else 0 in
  w32 (i32 (Z.quot (i32 (1461 * (year + 4800 + temp))) 4
    + Z.quot (i32 (367 * (month - 2 - 12 * temp))) 12
    - Z.quot (i32 (3 * Z.quot (year + 4900 + temp) 100)) 4 + day - 32075)).

(** Shift the month into 1..12. *)
Definition calendar_norm (year month : Z) : Z * Z :=
  let dyear := Z.quot (month - 1) 12 in
  let month := month - 12 * dyear in
  let year := year + dyear in
  if month <? 1 then (year - 1, month + 12) else (year, month).

Definition clock_calendar2utc_greg (year month day : Z) : Z :=
  let '(year, month) := calendar_norm year month in
  w32 (clock_gregorian2utc year month day - JD_OF_EPOCH).

Definition clock_utc2gregorian (jd : Z) : date :=
  let l := i32 (w32 (jd + 68569)) in
  let n := Z.quot (i32 (4 * l)) 146097 in
  let l := i32 (l - Z.quot (i32 (146097 * n + 3)) 4) in
  let i := Z.quot (i32 (4000 * (l + 1))) 1461001 in
  let l := i32 (l - Z.quot (i32 (1461 * i)) 4 + 31) in
  let j := Z.quot (i32 (80 * l)) 2447 in
  let d := i32 (l - Z.quot (i32 (2447 * j)) 80) in
  let l := Z.quot j 11 in
  let m := i32 (j + 2 - 12 * l) in
  let y := i32 (100 * (n - 49) + i + l) in
  (y, m, d).

Definition clock_utc2calendar_greg (utc : Z) : date := clock_utc2gregorian (w32 (utc + JD_OF_EPOCH)).

Definition mktime_greg (tp : tm) : Z :=
  let jdn := clock_calendar2utc_greg (tm_year tp + 1900) (tm_mon tp + 1) (tm_mday tp) in
  w32 (((jdn * 24 + tm_hour tp) * 60 + tm_min tp) * 60 + tm_sec tp).

(** ** CONFIG_JULIAN_TIME *)

Definition GREG_DUTC : Z := -141427.

Definition clock_utc2julian (jd : Z) : date :=
  let j := i32 (w32 (jd + 1402)) in
  let k := Z.quot (j - 1) 1461 in
  let l := i32 (j - 1461 * k) in
  let n := i32 (Z.quot (l - 1) 365 - Z.quot l 1461) in
  let i := i32 (l - 365 * n + 30) in
  let j := Z.quot (i32 (80 * i)) 2447 in
  let d := i32 (i - Z.quot (i32 (2447 * j)) 80) in
  let i := Z.quot j 11 in
  let m := i32 (j + 2 - 12 * i) in
  let y := i32 (4 * k + n + i - 4716) in
  (y, m, d).

(** The comparison converts [GREG_DUTC] to the unsigned type of [utc]. *)
Definition clock_utc2calendar_julian (utc : Z) : date :=
  if w32 GREG_DUTC <=? utc then clock_utc2gregorian (w32 (utc + JD_OF_EPOCH))
  else clock_utc2julian (w32 (utc + JD_OF_EPOCH)).

(** ** gmtime_r, over the calendar conversion of the configuration *)

Definition SEC_PER_MIN : Z := 60.
Definition SEC_PER_HOUR : Z := 60 * SEC_PER_MIN.
Definition SEC_PER_DAY : Z := 24 * SEC_PER_HOUR.

Definition gmtime_r (utc2calendar : Z → option date) (timer : Z) : option tm :=
  let epoch := timer in
  let jdn := epoch / SEC_PER_DAY in
  let epoch := w32 (epoch - SEC_PER_DAY * jdn) in
  let hour := epoch / SEC_PER_HOUR in
  let epoch := w32 (epoch - SEC_PER_HOUR * hour) in
  let min := epoch / SEC_PER_MIN in
  let epoch := w32 (epoch - SEC_PER_MIN * min) in
  let sec := epoch in
  '(year, month, day) ← utc2calendar jdn;
  Some (mk_tm sec min hour day (month - 1) (year - 1900)).

(** ** The calendar *)

(** The Gregorian rule. *)
Definition is_leap (y : Z) : bool := (y mod 4 =? 0) && (negb (y mod 100 =? 0) || (y mod 400 =? 0)).

Definition days_in_month (y m : Z) : Z :=
  if m =? 2 then if is_leap y then 29 else 28
  else if (m =? 4) || (m =? 6) || (m =? 9) || (m =? 11) then 30 else 31.

Definition next_date (d : date) : date :=
  let '(y, m, d) := d in
  if d <? days_in_month y m then (y, m, d + 1)
  else if m <? 12 then (y, m + 1, 1) else (y + 1, 1, 1).

(** The date [n] days after 1 January 1970. *)
Definition civil (n : nat) : date := Nat.iter n next_date (1970, 1, 1).
