(* ===== verification/CalendarThms.v ===== *)
(** The calendar conversions compute the Gregorian calendar.

    The reference is [civil], which counts days one by one from 1 January 1970.
    [day_number] is a closed form of it, by years that begin in March; dates are
    determined by their number, so a conversion is correct when it yields a valid
    date with the right number. *)

From stdpp Require Import base numbers list.
From S2P Require Import Prelude Memory Calendar.

(** Division by constants, for [lia]. *)
Ltac divs := Z.to_euclidean_division_equations; lia.

Definition valid (dt : date) : Prop :=
  let '(y, m, d) := dt in 1 ≤ m ≤ 12 ∧ 1 ≤ d ≤ days_in_month y m.

Definition day_number (dt : date) : Z :=
  let '(y, m, d) := dt in
  let y' := if m <=? 2 then y - 1 else y in
  let m' := if m <=? 2 then m + 9 else m - 3 in
  365 * y' + y' / 4 - y' / 100 + y' / 400 + (153 * m' + 2) / 5 + d - 1 - 719468.


(** The twelve months. *)
Ltac months m :=
  let H := fresh in
  assert (H : m = 1 ∨ m = 2 ∨ m = 3 ∨ m = 4 ∨ m = 5 ∨ m = 6 ∨ m = 7 ∨ m = 8 ∨ m = 9 ∨ m = 10 ∨ m = 11 ∨ m = 12) by lia;
  repeat (destruct H as [H|H]); subst m.

Lemma next_valid dt : valid dt → valid (next_date dt).
Proof.
  destruct dt as [[y m] d]. intros [Hm Hd]. unfold next_date.
  case_test; [split; lia|]. case_test; split; try lia.
  - unfold days_in_month. repeat case_test; lia.
  - unfold days_in_month. simpl. lia.
Qed.

Lemma is_leap_cases y : 
  (is_leap y = true ∧ y mod 4 = 0 ∧ (y mod 100 ≠ 0 ∨ y mod 400 = 0)) ∨
  (is_leap y = false ∧ (y mod 4 ≠ 0 ∨ (y mod 100 = 0 ∧ y mod 400 ≠ 0))).
Proof.
  unfold is_leap. destruct (Z.eqb_spec (y mod 4) 0), (Z.eqb_spec (y mod 100) 0), (Z.eqb_spec (y mod 400) 0); simpl; tauto.
Qed.

Lemma month_le_31 y m : days_in_month y m ≤ 31.
Proof. unfold days_in_month. repeat case_test; lia. Qed.

Lemma next_number dt : valid dt → day_number (next_date dt) = day_number dt + 1.
Proof.
  destruct dt as [[y m] d]. intros [Hm Hd]. unfold next_date.
  destruct (is_leap_cases y) as [(E & H)|(E & H)]; unfold days_in_month in *; rewrite E in *.
  all: months m; cbn -[Z.add Z.mul Z.sub Z.div Z.modulo] in *; repeat case_test; simpl; try lia.
  all: divs.
Qed.

Definition year_start (y : Z) : Z := day_number (y, 1, 1).
Lemma year_start_step y : year_start y + 365 ≤ year_start (y + 1).
Proof. unfold year_start. simpl. divs. Qed.

Definition month_start (lp : bool) (m : Z) : Z :=
  (if lp && (3 <=? m) then 1 else 0) + (153 * ((m + 9) mod 12) + 2) / 5 - (if m <=? 2 then 306 else -59).
Lemma day_number_split y m d : 1 ≤ m ≤ 12 → day_number (y, m, d) = year_start y + month_start (is_leap y) m + d - 1.
Proof.
  intros Hm. unfold year_start, month_start.
  destruct (is_leap_cases y) as [(E & H)|(E & H)]; rewrite E.
  all: months m; cbn -[Z.add Z.mul Z.sub Z.div Z.modulo] in *; divs.
Qed.

Lemma month_bound y m d : valid (y, m, d) → 0 ≤ month_start (is_leap y) m + d - 1 < 365 + Z.b2z (is_leap y).
Proof.
  intros [Hm Hd]. unfold days_in_month in Hd. unfold month_start.
  destruct (is_leap y); months m; cbn -[Z.add Z.mul Z.sub Z.div Z.modulo] in *; divs.
Qed.

Lemma year_length y : year_start (y + 1) = year_start y + 365 + Z.b2z (is_leap y).
Proof. unfold year_start. destruct (is_leap_cases y) as [(E & H)|(E & H)]; rewrite E; simpl; divs. Qed.

Lemma year_start_mono y y' : y ≤ y' → year_start y + 365 * (y' - y) ≤ year_start y'.
Proof. unfold year_start. simpl. intros. divs. Qed.

Lemma month_start_nonneg lp m : 1 ≤ m ≤ 12 → 0 ≤ month_start lp m.
Proof. intros Hm. unfold month_start. months m; destruct lp; vm_compute; done. Qed.

Lemma month_start_mono (lp : bool) m m' d : 1 ≤ m < m' → m' ≤ 12 → 
  d ≤ (if m =? 2 then if lp then 29 else 28
  else if (m =? 4) || (m =? 6) || (m =? 9) || (m =? 11) then 30 else 31) → month_start lp m + d ≤ month_start lp m'.
Proof. intros H1 H2 Hd. assert (1 ≤ m' ≤ 12) by lia. assert (1 ≤ m ≤ 12) by lia. unfold month_start.
  months m; months m'; try lia; destruct lp; cbn -[Z.add Z.mul Z.sub Z.div Z.modulo] in *; divs. Qed.

Lemma day_number_inj a b : valid a → valid b → day_number a = day_number b → a = b.
Proof.
  destruct a as [[y m] d], b as [[y' m'] d']. intros Ha Hb He.
  pose proof (month_bound _ _ _ Ha). pose proof (month_bound _ _ _ Hb).
  destruct Ha as [Hm Hd], Hb as [Hm' Hd']. rewrite !day_number_split in He by done.
  assert (y = y') as <-.
  { destruct (Z.lt_trichotomy y y') as [Hy|[?|Hy]]; [|done|].
    - pose proof (year_start_mono (y + 1) y' ltac:(lia)). pose proof (year_length y). lia.
    - pose proof (year_start_mono (y' + 1) y ltac:(lia)). pose proof (year_length y'). lia. }
  assert (m = m') as <-.
  { destruct (Z.lt_trichotomy m m') as [Hy|[?|Hy]]; [|done|].
    - pose proof (month_start_mono (is_leap y) m m' d ltac:(lia) ltac:(lia) ltac:(apply Hd)). lia.
    - pose proof (month_start_mono (is_leap y) m' m d' ltac:(lia) ltac:(lia) ltac:(apply Hd')). lia. }
  f_equal. lia.
Qed.
(** ** The Gregorian configuration *)

Lemma greg_ok u : 0 ≤ u < 49711 → valid (clock_utc2calendar_greg u) ∧ day_number (clock_utc2calendar_greg u) = u.
Proof.
  intros Hu. unfold clock_utc2calendar_greg, clock_utc2gregorian, JD_OF_EPOCH.
  rewrite (w32_small (u + _)), (w32_small (u + _ + _)), (i32_small (u + _ + _)) by lia.
  set (l := u + 2440588 + 68569). assert (Hl : l = u + 2509157) by (unfold l; lia). clearbody l.
  rewrite (i32_small (4 * l)) by lia. rewrite (Z.quot_div_nonneg (4 * l)) by lia.
  set (n := (4 * l) / 146097).
  assert (Hn : 146097 * n ≤ 4 * l < 146097 * (n + 1)) by (unfold n; divs). clearbody n.
  assert (68 ≤ n ≤ 70) by lia.
  rewrite (i32_small (146097 * n + 3)) by lia. rewrite (Z.quot_div_nonneg (146097 * n + 3)) by lia.
  rewrite (i32_small (l - _)) by divs.
  set (l1 := l - (146097 * n + 3) / 4).
  assert (Hl1 : l1 = l - (146097 * n + 3) / 4) by done. clearbody l1.
  assert (0 ≤ l1 ≤ 36524) by divs.
  rewrite (i32_small (4000 * _)) by lia. rewrite (Z.quot_div_nonneg (4000 * _)) by lia.
  set (i := (4000 * (l1 + 1)) / 1461001).
  assert (Hi : 1461001 * i ≤ 4000 * (l1 + 1) < 1461001 * (i + 1)) by (unfold i; divs). clearbody i.
  assert (0 ≤ i ≤ 99) by lia.
  rewrite (i32_small (1461 * i)) by lia. rewrite (Z.quot_div_nonneg (1461 * i)) by lia.
  rewrite (i32_small (l1 - _ + _)) by divs.
  set (l2 := l1 - (1461 * i) / 4 + 31).
  assert (Hl2 : l2 = l1 - (1461 * i) / 4 + 31) by done. clearbody l2.
  assert (Hb : 31 ≤ l2 ≤ 396) by divs.
  rewrite (i32_small (80 * l2)) by lia. rewrite (Z.quot_div_nonneg (80 * l2)) by lia.
  set (j := 80 * l2 / 2447).
  assert (Hj : 2447 * j ≤ 80 * l2 < 2447 * (j + 1)) by (unfold j; divs). clearbody j.
  assert (1 ≤ j ≤ 12) by lia.
  rewrite (i32_small (2447 * j)) by lia. rewrite (Z.quot_div_nonneg (2447 * j)) by lia.
  rewrite (i32_small (l2 - _)) by divs.
  rewrite (Z.quot_div_nonneg j) by lia.
  rewrite (i32_small (j + 2 - _)) by divs.
  rewrite (i32_small (100 * _ + _ + _)) by divs.
  months j; repeat match goal with
    | |- context [?a + 2 - 12 * (?a / 11)] =>
        let v := eval vm_compute in (a + 2 - 12 * (a / 11)) in change (a + 2 - 12 * (a / 11)) with v
    | |- context [?a / 11] => let v := eval vm_compute in (a / 11) in change (a / 11) with v
    | |- context [2447 * ?a / 80] =>
        let v := eval vm_compute in (2447 * a / 80) in change (2447 * a / 80) with v
    end; cbn -[Z.add Z.mul Z.sub Z.div Z.modulo is_leap]; (split; [split; [lia|]|]).
  all: try match goal with |- context [is_leap ?y] => destruct (is_leap_cases y) as [(E & Hy)|(E & Hy)]; rewrite E end.
  all: divs.
Qed.

Lemma greg_inverse y m d : valid (y, m, d) → 1900 ≤ y ≤ 2200 → 0 ≤ day_number (y, m, d) →
  clock_calendar2utc_greg y m d = day_number (y, m, d).
Proof.
  intros [Hm Hd] Hy Hn. unfold clock_calendar2utc_greg.
  assert (E : calendar_norm y m = (y, m)).
  { unfold calendar_norm. rewrite Z.quot_small by lia. rewrite (proj2 (Z.ltb_ge _ 1)) by lia. f_equal; lia. }
  rewrite E. unfold clock_gregorian2utc, JD_OF_EPOCH.
  assert (Hd31 : d ≤ 31) by (pose proof (month_le_31 y m); lia).
  set (temp := if m <=? 2 then -1 else 0). assert (-1 ≤ temp ≤ 0) by (unfold temp; case_test; lia).
  rewrite (i32_small (1461 * _)), (i32_small (367 * _)) by (unfold temp; case_test; lia).
  rewrite (Z.quot_div_nonneg (y + 4900 + temp)) by lia.
  rewrite (i32_small (3 * _)) by divs.
  rewrite !Z.quot_div_nonneg by (unfold temp; try case_test; divs).
  rewrite (i32_small (_ - 32075)) by (unfold temp; try case_test; divs).
  rewrite (w32_small (_ - 32075)) by (unfold temp; try case_test; divs).
  assert (Hfin : 1461 * (y + 4800 + temp) / 4 + 367 * (m - 2 - 12 * temp) / 12 -
    3 * ((y + 4900 + temp) / 100) / 4 + d - 32075 - 2440588 = day_number (y, m, d)).
  { unfold temp. clear temp H. months m; cbn -[Z.add Z.mul Z.sub Z.div Z.modulo] in *; divs. }
  rewrite Hfin. apply w32_small. split; [done|].
  assert (day_number (y, m, d) < 100000); [|lia].
  months m; cbn -[Z.add Z.mul Z.sub Z.div Z.modulo] in *; divs.
Qed.

(** ** The simple configuration *)

Lemma clock_isleapyear_eq y : 0 ≤ y → clock_isleapyear y = is_leap y.
Proof.
  intros Hy. unfold clock_isleapyear, is_leap. rewrite !Z.rem_mod_nonneg by lia.
  destruct (Z.eqb_spec (y mod 4) 0), (Z.eqb_spec (y mod 100) 0), (Z.eqb_spec (y mod 400) 0); simpl; divs.
Qed.

Lemma utc_years_spec fuel v r :
  0 ≤ v → 0 ≤ r < 2 ^ 32 → r < 365 * (Z.of_nat fuel + 1) →
  ∃ v' r', utc_years fuel v r = Some (v', r', is_leap (1970 + v')) ∧ v ≤ v' ≤ v + Z.of_nat fuel ∧
    year_start (1970 + v') + r' = year_start (1970 + v) + r ∧
    0 ≤ r' < 365 + Z.b2z (is_leap (1970 + v')).
Proof.
  revert v r. induction fuel as [|fuel IH]; intros v r Hv Hr Hf; simpl utc_years;
    rewrite Z.add_comm, clock_isleapyear_eq by lia; pose proof (year_length (1970 + v)) as Hl;
    assert (Ht : (if is_leap (1970 + v) then 366 else 365) = 365 + Z.b2z (is_leap (1970 + v)))
      by (by destruct (is_leap _));
    rewrite Ht; (assert (0 ≤ Z.b2z (is_leap (1970 + v)) ≤ 1) by (destruct (is_leap _); simpl; lia));
    (case_test; [|exists v, r; split_and!; try done; lia]).
  - lia.
  - rewrite w32_small by lia.
    destruct (IH (v + 1) (r - (365 + Z.b2z (is_leap (1970 + v))))) as (v' & r' & E & Hv' & Hs & Hr');
      [lia..|]. rewrite E. exists v', r'. split; [done|]. split; [lia|]. split; [|done].
    rewrite Hs. replace (1970 + (v + 1)) with (1970 + v + 1) by lia. lia.
Qed.

(** The bisection finds the month of every day of a year. *)
Definition month_ok (lp : bool) (r : Z) : bool :=
  match utc_months 12 r lp 0 11 with
  | Some v =>
      match clock_daysbeforemonth v lp with
      | Some b => (0 <=? v) && (v <=? 11) && (b =? month_start lp (v + 1)) && (b <=? r) &&
                  (r - b <? (if v + 1 =? 2 then if lp then 29 else 28
                             else if (v + 1 =? 4) || (v + 1 =? 6) || (v + 1 =? 9) || (v + 1 =? 11) then 30 else 31))
      | None => false
      end
  | None => false
  end.

Lemma utc_months_table :
  forallb (month_ok true) (Z.of_nat <$> seq 0 366) && forallb (month_ok false) (Z.of_nat <$> seq 0 365) = true.
Proof. vm_compute. reflexivity. Qed.

Lemma utc_months_spec y r : 0 ≤ r < 365 + Z.b2z (is_leap y) →
  ∃ v b, utc_months 12 r (is_leap y) 0 11 = Some v ∧ clock_daysbeforemonth v (is_leap y) = Some b ∧
    0 ≤ v ≤ 11 ∧ b = month_start (is_leap y) (v + 1) ∧ b ≤ r < b + days_in_month y (v + 1).
Proof.
  intros Hr. assert (Hok : month_ok (is_leap y) r = true).
  { pose proof utc_months_table as [H1 H2]%andb_prop. rewrite forallb_forall in H1, H2.
    destruct (is_leap y); simpl in Hr; [apply H1|apply H2];
      (apply list_elem_of_In, list_elem_of_fmap; exists (Z.to_nat r);
       split; [lia|]; apply elem_of_seq; lia). }
  unfold month_ok in Hok. destruct (utc_months _ _ _ _ _) as [v|]; [|done].
  destruct (clock_daysbeforemonth v _) as [b|] eqn:Eb; [|done]. exists v, b.
  zb. unfold days_in_month. split_and!; try done; lia.
Qed.

Lemma year_start_group g : 0 ≤ g ≤ 32 → year_start (1970 + 4 * g) = 1461 * g.
Proof. intros Hg. unfold year_start. simpl. divs. Qed.

Lemma simple_ok u : 0 ≤ u < 48213 →
  ∃ dt, clock_utc2calendar u = Some dt ∧ valid dt ∧ day_number dt = u.
Proof.
  intros Hu. unfold clock_utc2calendar. change (4 * 365 + 1) with 1461.
  set (g := u / 1461). assert (Hg : 0 ≤ g ≤ 32 ∧ 0 ≤ u - 1461 * g < 1461) by (unfold g; divs).
  clearbody g. rewrite (i32_small g), (w32_small (u - _)) by lia.
  rewrite Z.shiftl_mul_pow2, (i32_small (g * _)) by lia.
  destruct (utc_years_spec 5 (g * 2 ^ 2) (u - g * 1461)) as (v & r & -> & Hv & Hs & Hr); [lia..|].
  cbn [mbind option_bind].
  destruct (utc_months_spec (1970 + v) r Hr) as (mo & b & -> & Hb & Hmo & Eb & Hbr). cbn [mbind option_bind].
  rewrite Hb. cbn [mbind option_bind]. rewrite w32_small.
  2:{ assert (Z.b2z (is_leap (1970 + v)) ≤ 1) by (destruct (is_leap _); simpl; lia).
      assert (0 ≤ b); [|lia]. rewrite Eb. by apply month_start_nonneg; lia. }
  eexists. split; [done|]. split; [split; lia|].
  rewrite day_number_split by lia. rewrite <-Eb.
  replace (g * 2 ^ 2) with (4 * g) in Hs by lia. rewrite year_start_group in Hs by lia. lia.
Qed.

Lemma mktime_days y m d : valid (y, m, d) → 1970 ≤ y ≤ 2100 →
  ∃ b, clock_daysbeforemonth (m - 1) (clock_isleapyear y) = Some b ∧
    day_number (y, m, d) = (y - 1970) * 365 + Z.shiftr (y - 1969) 2 + b + (d - 1) ∧
    0 ≤ day_number (y, m, d) < 47847 ∧ 0 ≤ b < 366 ∧ d ≤ 31.
Proof.
  intros Hv Hy. pose proof (month_bound _ _ _ Hv) as Hb. destruct Hv as [Hm Hd].
  pose proof (month_le_31 y m). rewrite clock_isleapyear_eq, day_number_split by lia.
  rewrite Z.shiftr_div_pow2 by lia.
  assert (Hys : year_start y = (y - 1970) * 365 + (y - 1969) / 2 ^ 2) by (unfold year_start; simpl; divs).
  assert (Hb2 : Z.b2z (is_leap y) ≤ 1) by (destruct (is_leap y); simpl; lia).
  assert (Hyb : 0 ≤ year_start y ∧ year_start y + Z.b2z (is_leap y) ≤ 47482).
  { destruct (decide (y = 2100)) as [->|]; [vm_compute; done|]. rewrite Hys. divs. }
  assert (0 ≤ month_start (is_leap y) m < 366).
  { pose proof (month_start_nonneg (is_leap y) m Hm). lia. }
  exists (month_start (is_leap y) m). split; [|lia].
  unfold month_start. destruct (is_leap y); months m; reflexivity.
Qed.

(** ** Broken-down time *)

Lemma civil_spec n : valid (civil n) ∧ day_number (civil n) = Z.of_nat n.
Proof.
  induction n as [|n [Hv Hn]]; [vm_compute; done|]. unfold civil in *. rewrite Nat.iter_succ.
  split; [by apply next_valid|]. rewrite next_number by done. lia.
Qed.

Lemma civil_unique dt u : valid dt → day_number dt = u → 0 ≤ u → dt = civil (Z.to_nat u).
Proof.
  intros Hv Hn Hu. destruct (civil_spec (Z.to_nat u)) as [Hv' Hn'].
  apply day_number_inj; [done|done|]. lia.
Qed.

(** The time [t] on the date [dt]. *)
Definition tm_of (t : Z) (dt : date) : tm :=
  let '(y, m, d) := dt in mk_tm (t mod 60) ((t / 60) mod 60) ((t / 3600) mod 24) d (m - 1) (y - 1900).

Lemma gmtime_r_fields conv t : 0 ≤ t < 2 ^ 32 →
  gmtime_r conv t = (dt ← conv (t / 86400); Some (tm_of t dt)).
Proof.
  intros Ht. unfold gmtime_r. change SEC_PER_DAY with 86400. change SEC_PER_HOUR with 3600.
  change SEC_PER_MIN with 60. rewrite (w32_small (t - _)) by divs.
  rewrite (w32_small (t - _ - _)) by divs. rewrite (w32_small (t - _ - _ - _)) by divs.
  destruct (conv (t / 86400)) as [[[y m] d]|]; simpl; [|done]. do 2 f_equal; divs.
Qed.

Lemma seconds_split t : ((t / 86400 * 24 + (t / 3600) mod 24) * 60 + (t / 60) mod 60) * 60 + t mod 60 = t.
Proof. divs. Qed.

Lemma civil_year u y m d : civil (Z.to_nat u) = (y, m, d) → 0 ≤ u < 49711 → 1970 ≤ y ≤ 2106.
Proof.
  intros E Hu. destruct (civil_spec (Z.to_nat u)) as [Hv Hn]. rewrite E in Hv, Hn.
  pose proof (month_bound _ _ _ Hv). destruct Hv as [Hm _]. rewrite day_number_split in Hn by done.
  assert (year_start 1970 = 0 ∧ year_start 2107 = 50038) as [H0 H1] by done.
  assert (Z.b2z (is_leap y) ≤ 1) by (destruct (is_leap y); simpl; lia).
  destruct (Z.le_gt_cases 1970 y), (Z.le_gt_cases y 2106); try lia.
  - pose proof (year_start_mono 2107 y ltac:(lia)). lia.
  - pose proof (year_start_mono (y + 1) 1970 ltac:(lia)). pose proof (year_length y). lia.
Qed.

(** C30. With CONFIG_GREGORIAN_TIME gmtime_r gives, for every 32-bit time, the date obtained by
    counting days from 1970-01-01 with the Gregorian leap years, and the time of day; mktime maps it
    back. *)
Theorem gmtime_r_gregorian t : 0 ≤ t < 2 ^ 32 →
  gmtime_r (Some ∘ clock_utc2calendar_greg) t = Some (tm_of t (civil (Z.to_nat (t / 86400)))) ∧
  mktime_greg (tm_of t (civil (Z.to_nat (t / 86400)))) = t.
Proof.
  intros Ht. assert (Hu : 0 ≤ t / 86400 < 49711) by divs.
  destruct (greg_ok _ Hu) as [Hv Hn].
  apply civil_unique in Hn as E; [|done|lia]. split.
  - rewrite gmtime_r_fields by done. unfold compose. by rewrite E.
  - destruct (civil (Z.to_nat (t / 86400))) as [[y m] d] eqn:Ec.
    pose proof (civil_year _ _ _ _ Ec Hu). rewrite E in Hv, Hn. unfold mktime_greg, tm_of.
    cbn [tm_sec tm_min tm_hour tm_mday tm_mon tm_year].
    replace (y - 1900 + 1900) with y by lia. replace (m - 1 + 1) with m by lia.
    rewrite greg_inverse by (done || lia). rewrite Hn, seconds_split. by apply w32_small.
Qed.

(** Without CONFIG_GREGORIAN_TIME gmtime_r gives the same dates for all times before 2102, its
    searches for the year and the month terminate, and mktime maps them back for all times before
    2101. *)
Theorem gmtime_r_simple t : 0 ≤ t < 48213 * 86400 →
  gmtime_r clock_utc2calendar t = Some (tm_of t (civil (Z.to_nat (t / 86400)))) ∧
  (t < 47847 * 86400 → mktime (tm_of t (civil (Z.to_nat (t / 86400)))) = Some t).
Proof.
  intros Ht. assert (Hu : 0 ≤ t / 86400 < 48213) by divs.
  destruct (simple_ok _ Hu) as (dt & Hdt & Hv & Hn). apply civil_unique in Hn as E; [|done|lia]. split.
  - rewrite gmtime_r_fields by lia. by rewrite Hdt, E.
  - intros Hlt. rewrite <-E. destruct dt as [[y m] d]. symmetry in E.
    pose proof (civil_year _ _ _ _ E ltac:(lia)) as Hy.
    assert (y ≤ 2100).
    { destruct (Z.le_gt_cases y 2100); [done|]. pose proof (year_start_mono 2101 y ltac:(lia)).
      pose proof (month_bound _ _ _ Hv). destruct Hv as [Hm _]. rewrite day_number_split in Hn by done.
      assert (year_start 2101 = 47847) by done. assert (t / 86400 < 47847) by divs. lia. }
    destruct (mktime_days y m d Hv ltac:(lia)) as (b & Hb & Hdn & ? & ? & ?). unfold mktime, tm_of.
    cbn [tm_sec tm_min tm_hour tm_mday tm_mon tm_year].
    replace (y - 1900 + 1900) with y by lia. replace (y - 1900 - 70) with (y - 1970) by lia.
    replace (y - 1900 - 69) with (y - 1969) by lia. rewrite Hb. cbn [mbind option_bind].
    rewrite Z.shiftr_div_pow2 in * by lia.
    rewrite i32_small, (w32_small ((y - 1970) * 365)), (w32_small (_ + (y - 1969) / _)),
      (w32_small (_ + b)), (w32_small (_ + (d - 1))), <-Hdn, Hn, seconds_split, w32_small; try done;
      destruct Hv; divs.
Qed.

Lemma gmtime_r_gregorian_witness :
  gmtime_r (Some ∘ clock_utc2calendar_greg) 68173261 = Some (mk_tm 1 1 1 29 1 72) ∧
  mktime_greg (mk_tm 1 1 1 29 1 72) = 68173261.
Proof.
  assert (E : tm_of 68173261 (civil (Z.to_nat (68173261 / 86400))) = mk_tm 1 1 1 29 1 72)
    by (vm_compute; reflexivity).
  rewrite <-E. exact (gmtime_r_gregorian 68173261 ltac:(lia)).
Defined.

Lemma gmtime_r_simple_witness :
  gmtime_r clock_utc2calendar 68173261 = Some (mk_tm 1 1 1 29 1 72) ∧
  mktime (mk_tm 1 1 1 29 1 72) = Some 68173261.
Proof.
  assert (E : tm_of 68173261 (civil (Z.to_nat (68173261 / 86400))) = mk_tm 1 1 1 29 1 72)
    by (vm_compute; reflexivity).
  rewrite <-E. destruct (gmtime_r_simple 68173261 ltac:(lia)) as [H1 H2].
  split; [exact H1|apply H2; lia].
Defined.

(** Finding: with CONFIG_JULIAN_TIME the epoch is shown as 1969-12-19. *)
Theorem julian_calendar_off :
  gmtime_r (Some ∘ clock_utc2calendar_julian) 0 = Some (mk_tm 0 0 0 19 11 69) ∧ civil 0 = (1970, 1, 1).
Proof. vm_compute. done. Qed.
