(* ===== verification/Clock.v ===== *)
(** System time: sched/clock_initialize.c, clock_gettime.c, clock_settime.c,
    clock_systimer.c, clock_gettimeofday.c, clock_ticks2time.c,
    clock_time2ticks.c, clock_abstime2ticks.c and lib/time/lib_time.c, without
    CONFIG_RTC and CONFIG_SYSTEM_TIME64.

    The counters and [time_t] are [uint32_t] and wrap ([w32]); [int] and [long]
    have 32 bits ([i32]).  A call that fails leaves [errno]. *)

From stdpp Require Import base numbers list.
From S2P Require Import Prelude Memory Calendar CalendarThms.

Definition OK : Z := 0.
Definition ERROR : Z := -1.
Definition EINVAL : Z := 22.
Definition CLOCK_REALTIME : Z := 0.

(** include/nuttx/clock.h *)
Definition NSEC_PER_SEC : Z := 1000000000.
Definition USEC_PER_SEC : Z := 1000000.
Definition MSEC_PER_SEC : Z := 1000.
Definition NSEC_PER_MSEC : Z := 1000000.
Definition USEC_PER_MSEC : Z := 1000.
Definition NSEC_PER_USEC : Z := 1000.
Definition MSEC_PER_TICK : Z := 10.
Definition TICK_PER_SEC : Z := MSEC_PER_SEC / MSEC_PER_TICK.
Definition NSEC_PER_TICK : Z := MSEC_PER_TICK * NSEC_PER_MSEC.
Definition USEC_PER_TICK : Z := MSEC_PER_TICK * USEC_PER_MSEC.

(** The configured start of time. *)
Definition CONFIG_START_YEAR : Z := 2011.
Definition CONFIG_START_MONTH : Z := 12.
Definition CONFIG_START_DAY : Z := 6.

Record timespec := mk_ts { tv_sec : Z; tv_nsec : Z }.

(** The variables of clock_initialize.c. *)
Record clockst := mk_clock {
  g_system_timer : Z; g_tickbias : Z; g_basetime : timespec; clock_errno : Z
}.

(** ** clock_initialize.c *)

Definition clock_inittime : option timespec :=
  jdn ← clock_calendar2utc CONFIG_START_YEAR CONFIG_START_MONTH CONFIG_START_DAY;
  Some (mk_ts (w32 (jdn * SEC_PER_DAY)) 0).

Definition clock_initialize (st : clockst) : option clockst :=
  base ← clock_inittime;
  Some (mk_clock 0 0 base (clock_errno st)).

Definition clock_timer (st : clockst) : clockst :=
  mk_clock (w32 (g_system_timer st + 1)) (g_tickbias st) (g_basetime st) (clock_errno st).

(** ** clock_systimer.c *)

Definition clock_systimer (st : clockst) : Z := g_system_timer st.

(** ** clock_settime.c, clock_gettime.c *)

Definition clock_settime (clock_id : Z) (tp : timespec) (st : clockst) : Z * clockst :=
  if clock_id =? CLOCK_REALTIME then
    (OK, mk_clock (g_system_timer st) (g_system_timer st) tp (clock_errno st))
  else (ERROR, mk_clock (g_system_timer st) (g_tickbias st) (g_basetime st) EINVAL).

(** The time returned, when the clock exists. *)
Definition clock_gettime (clock_id : Z) (st : clockst) : Z * option timespec * clockst :=
  if clock_id =? CLOCK_REALTIME then
    let msecs := w32 (MSEC_PER_TICK * w32 (g_system_timer st - g_tickbias st)) in
    let secs := msecs / MSEC_PER_SEC in
    let nsecs := w32 ((msecs - secs * MSEC_PER_SEC) * NSEC_PER_MSEC) in
    let secs := w32 (secs + tv_sec (g_basetime st)) in
    let nsecs := w32 (nsecs + w32 (tv_nsec (g_basetime st))) in
    let '(secs, nsecs) :=
      if NSEC_PER_SEC <? nsecs then
        let dwCarrySecs := nsecs / NSEC_PER_SEC in
        (w32 (secs + dwCarrySecs), w32 (nsecs - dwCarrySecs * NSEC_PER_SEC))
      else (secs, nsecs) in
    (OK, Some (mk_ts secs (i32 nsecs)), st)
  else (ERROR, None, mk_clock (g_system_timer st) (g_tickbias st) (g_basetime st) EINVAL).

(** ** clock_gettimeofday.c, lib_time.c *)

(** Seconds and microseconds. *)
Definition gettimeofday (st : clockst) : Z * option (Z * Z) * clockst :=
  let '(ret, ts, st) := clock_gettime CLOCK_REALTIME st in
  if ret =? OK then (ret, (λ ts, (tv_sec ts, Z.quot (tv_nsec ts) NSEC_PER_USEC)) <$> ts, st)
  else (ret, None, st).

Definition time (st : clockst) : Z * clockst :=
  let '(ret, tp, st) := gettimeofday st in
  if ret =? OK then (default 0 (fst <$> tp), st) else (w32 ERROR, st).

(** ** clock_ticks2time.c, clock_time2ticks.c *)

Definition clock_ticks2time (ticks : Z) : Z * timespec :=
  let sec := w32 (Z.quot ticks TICK_PER_SEC) in
  let remainder := i32 (ticks - TICK_PER_SEC * sec) in
  (OK, mk_ts sec (i32 (remainder * NSEC_PER_TICK))).

Definition clock_time2ticks (reltime : timespec) : Z * Z :=
  let relusec := i32 (tv_sec reltime * USEC_PER_SEC + Z.quot (tv_nsec reltime) NSEC_PER_USEC) in
  (OK, Z.quot relusec USEC_PER_TICK).

(** ** clock_abstime2ticks.c *)

(** The result and, when it is OK, the ticks. *)
Definition clock_abstime2ticks (clockid : Z) (abstime : timespec) (st : clockst) : Z * option Z * clockst :=
  let '(ret, currtime, st) := clock_gettime clockid st in
  match currtime with
  | Some currtime =>
      let nsec := i32 (tv_nsec abstime - tv_nsec currtime) in
      let sec := w32 (tv_sec abstime - tv_sec currtime) in
      let reltime := if nsec <? 0 then mk_ts (w32 (sec - 1)) (i32 (nsec + NSEC_PER_SEC)) else mk_ts sec nsec in
      let '(ret, ticks) := clock_time2ticks reltime in
      (ret, Some ticks, st)
  | None => (EINVAL, None, st)
  end.

(** ** Properties *)

Definition nanos (ts : timespec) : Z := tv_sec ts * NSEC_PER_SEC + tv_nsec ts.

Definition ts_valid (ts : timespec) : Prop := 0 ≤ tv_sec ts < 2 ^ 32 ∧ 0 ≤ tv_nsec ts < NSEC_PER_SEC.

(** The clock has run for [n] ticks since it was set to [base]. *)
Definition clock_since (st : clockst) (base : timespec) (n : Z) : Prop :=
  g_basetime st = base ∧ w32 (g_system_timer st - g_tickbias st) = n.

Lemma clock_timer_since st base n : clock_since st base n → n + 1 < 2 ^ 32 →
  clock_since (clock_timer st) base (n + 1).
Proof.
  intros [Hb Hn] Hlt. split; [done|]. simpl. unfold w32 in *.
  rewrite Zminus_mod_idemp_l. rewrite <-Hn in *.
  rewrite <-(Z.mod_small ((g_system_timer st - g_tickbias st) mod 2 ^ 32 + 1) (2 ^ 32)).
  - rewrite Zplus_mod_idemp_l. f_equal. lia.
  - pose proof (Z.mod_pos_bound (g_system_timer st - g_tickbias st) (2 ^ 32)). lia.
Qed.

Lemma clock_timers_since n st base m : clock_since st base m → m + Z.of_nat n < 2 ^ 32 →
  clock_since (Nat.iter n clock_timer st) base (m + Z.of_nat n).
Proof.
  revert m. induction n as [|n IH]; intros m Hs Hlt; [by rewrite Z.add_0_r|].
  rewrite Nat.iter_succ. replace (m + Z.of_nat (S n)) with (m + Z.of_nat n + 1) by lia.
  apply clock_timer_since; [|lia]. apply IH; [done|lia].
Qed.

Lemma clock_gettime_since st base n : clock_since st base n → ts_valid base → 0 ≤ n → n * MSEC_PER_TICK < 2 ^ 32 →
  nanos base + n * NSEC_PER_TICK < 2 ^ 32 * NSEC_PER_SEC →
  ∃ ts, clock_gettime CLOCK_REALTIME st = (OK, Some ts, st) ∧
    nanos ts = nanos base + n * NSEC_PER_TICK ∧ 0 ≤ tv_sec ts ∧ 0 ≤ tv_nsec ts ≤ NSEC_PER_SEC.
Proof.
  intros [Hb Hn] [Hs Hns] H0 Hlt Hmax. unfold clock_gettime, nanos in *. simpl. rewrite Hb, Hn.
  unfold MSEC_PER_TICK, MSEC_PER_SEC, NSEC_PER_MSEC, NSEC_PER_SEC, NSEC_PER_TICK, MSEC_PER_TICK, NSEC_PER_MSEC in *.
  rewrite (w32_small (10 * n)) by lia.
  rewrite (w32_small ((10 * n - _) * _)) by divs.
  rewrite (w32_small (10 * n / 1000 + _)) by divs.
  rewrite (w32_small (tv_nsec base)) by lia.
  rewrite (w32_small (_ + tv_nsec base)) by divs.
  case_test; eexists; (split; [reflexivity|]); cbn [tv_sec tv_nsec].
  - rewrite w32_small, w32_small, i32_small by divs. divs.
  - rewrite i32_small by divs. divs.
Qed.

(** After clock_settime, n ticks of the timer interrupt later, clock_gettime returns the time
    that was set plus n ticks with nanoseconds from 0 to 10^9, and time returns the seconds of that
    instant unless the nanoseconds are exactly 10^9, as long as the milliseconds since the setting
    fit 32 bits. *)
Theorem clock_settime_gettime st tp n :
  ts_valid tp → Z.of_nat n * MSEC_PER_TICK < 2 ^ 32 →
  nanos tp + Z.of_nat n * NSEC_PER_TICK < 2 ^ 32 * NSEC_PER_SEC →
  let st' := Nat.iter n clock_timer (clock_settime CLOCK_REALTIME tp st).2 in
  ∃ ts, clock_gettime CLOCK_REALTIME st' = (OK, Some ts, st') ∧
    nanos ts = nanos tp + Z.of_nat n * NSEC_PER_TICK ∧ 0 ≤ tv_nsec ts ≤ NSEC_PER_SEC ∧
    (tv_nsec ts ≠ NSEC_PER_SEC → time st' = ((nanos tp + Z.of_nat n * NSEC_PER_TICK) / NSEC_PER_SEC, st')).
Proof.
  intros Hv Hn Hmax st'.
  assert (Hs : clock_since (clock_settime CLOCK_REALTIME tp st).2 tp 0).
  { split; [done|]. simpl. unfold w32. by rewrite Z.sub_diag. }
  apply (clock_timers_since n) in Hs; [|unfold MSEC_PER_TICK in Hn; lia].
  rewrite Z.add_0_l in Hs. destruct (clock_gettime_since _ _ _ Hs Hv ltac:(lia) Hn Hmax) as (ts & E & Hts & Hsec & Hns).
  fold st' in E. exists ts. split_and!; [done|done|lia|lia|]. intros Hne. unfold time, gettimeofday. rewrite E. simpl.
  f_equal. rewrite <-Hts. unfold nanos, NSEC_PER_SEC in *. divs.
Qed.

(** Times of less than half an hour convert to the ticks that fit. *)
Lemma clock_time2ticks_spec ts : 0 ≤ tv_sec ts → 0 ≤ tv_nsec ts < NSEC_PER_SEC →
  nanos ts < 2147483648 * NSEC_PER_USEC → clock_time2ticks ts = (OK, nanos ts / NSEC_PER_TICK).
Proof.
  intros Hs Hn Hlt. unfold clock_time2ticks, nanos in *.
  unfold USEC_PER_SEC, NSEC_PER_USEC, NSEC_PER_SEC, USEC_PER_TICK, NSEC_PER_TICK, MSEC_PER_TICK,
    USEC_PER_MSEC, NSEC_PER_MSEC in *.
  rewrite (Z.quot_div_nonneg (tv_nsec ts)) by lia. rewrite i32_small by divs.
  rewrite Z.quot_div_nonneg by divs. f_equal. divs.
Qed.

(** Converting ticks to a relative time and back gives the same number of ticks, for times
    below 2^31 microseconds. *)
Theorem clock_ticks_roundtrip ticks : 0 ≤ ticks ≤ 214748 →
  nanos (clock_ticks2time ticks).2 = ticks * NSEC_PER_TICK ∧
  clock_time2ticks (clock_ticks2time ticks).2 = (OK, ticks).
Proof.
  intros Ht. unfold clock_ticks2time. change TICK_PER_SEC with 100. change NSEC_PER_TICK with 10000000.
  cbn [snd]. rewrite (Z.quot_div_nonneg ticks) by lia. rewrite (w32_small (ticks / 100)) by divs.
  rewrite (i32_small (ticks - _)) by divs. rewrite (i32_small (_ * 10000000)) by divs.
  assert (E : nanos (mk_ts (ticks / 100) ((ticks - 100 * (ticks / 100)) * 10000000)) = ticks * 10000000)
    by (unfold nanos, NSEC_PER_SEC; simpl; divs).
  split; [exact E|]. rewrite clock_time2ticks_spec.
  - rewrite E. f_equal. by apply Z.div_mul.
  - simpl. divs.
  - unfold NSEC_PER_SEC. simpl. divs.
  - rewrite E. unfold NSEC_PER_USEC. lia.
Qed.

(** Signed arithmetic that wrapped gives the value in range. *)
Lemma i32_wrap x y k : x = y + k * 2 ^ 32 → - 2 ^ 31 ≤ y < 2 ^ 31 → i32 x = y.
Proof. intros -> ?. unfold i32. rewrite Z.add_shuffle0, Z.mod_add by lia. rewrite Z.mod_small; lia. Qed.

Lemma clock_time2ticks_wrap sec nsec k d : 0 ≤ nsec → (sec - k * 2 ^ 32) * NSEC_PER_SEC + nsec = d →
  Z.abs d < 2147483648 * NSEC_PER_USEC →
  clock_time2ticks (mk_ts sec nsec) = (OK, Z.quot (d / NSEC_PER_USEC) USEC_PER_TICK).
Proof.
  intros Hn <- Hd. unfold clock_time2ticks. cbn [tv_sec tv_nsec]. unfold NSEC_PER_USEC, NSEC_PER_SEC, USEC_PER_SEC in *.
  assert (E : ((sec - k * 2 ^ 32) * 1000000000 + nsec) / 1000 = (sec - k * 2 ^ 32) * 1000000 + nsec / 1000).
  { replace (_ * 1000000000 + nsec) with (nsec + ((sec - k * 2 ^ 32) * 1000000) * 1000) by lia.
    rewrite Z.div_add by lia. lia. }
  rewrite (i32_wrap _ (((sec - k * 2 ^ 32) * 1000000000 + nsec) / 1000) (k * 1000000)); [done|..].
  - rewrite Z.quot_div_nonneg, E by lia. lia.
  - split; [apply Z.div_le_lower_bound|apply Z.div_lt_upper_bound]; lia.
Qed.

(** A deadline less than 2147 seconds away, in the future or in the past. *)
Lemma clock_abstime2ticks_spec st base n abstime :
  clock_since st base n → ts_valid base → 0 ≤ n → n * MSEC_PER_TICK < 2 ^ 32 →
  let now := nanos base + n * NSEC_PER_TICK in
  0 ≤ tv_sec abstime < 2 ^ 32 → 0 ≤ tv_nsec abstime ≤ NSEC_PER_SEC →
  now < 2 ^ 32 * NSEC_PER_SEC → Z.abs (nanos abstime - now) < 2147 * NSEC_PER_SEC →
  clock_abstime2ticks CLOCK_REALTIME abstime st =
    (OK, Some (Z.quot ((nanos abstime - now) / NSEC_PER_USEC) USEC_PER_TICK), st).
Proof.
  intros Hs Hv H0 Hn now Ha1 Ha2 Hmax Hnow.
  destruct (clock_gettime_since _ _ _ Hs Hv H0 Hn Hmax) as (ts & E & Hts & Hsec & Hns).
  unfold clock_abstime2ticks. rewrite E. fold now in Hts. clearbody now.
  unfold nanos, NSEC_PER_SEC in *. rewrite (i32_small (_ - _)) by lia.
  set (d := tv_sec abstime - tv_sec ts). case_test.
  - rewrite i32_small by lia. unfold w32.
    rewrite (clock_time2ticks_wrap _ _ (- ((d mod 2 ^ 32 - 1) / 2 ^ 32) - d / 2 ^ 32)
      (tv_sec abstime * 1000000000 + tv_nsec abstime - now)); [done|lia| |unfold NSEC_PER_USEC; lia].
    unfold NSEC_PER_SEC. rewrite (Z.mod_eq (d mod 2 ^ 32 - 1)), (Z.mod_eq d) by lia. unfold d. lia.
  - unfold w32. rewrite (clock_time2ticks_wrap _ _ (- (d / 2 ^ 32))
      (tv_sec abstime * 1000000000 + tv_nsec abstime - now)); [done|lia| |unfold NSEC_PER_USEC; lia].
    unfold NSEC_PER_SEC. rewrite (Z.mod_eq d) by lia. unfold d. lia.
Qed.

(** clock_abstime2ticks returns the number of whole ticks from the current time to a later
    absolute time, for delays below 2^31 microseconds. *)
Theorem clock_abstime2ticks_correct st base n abstime :
  clock_since st base n → ts_valid base → 0 ≤ n → n * MSEC_PER_TICK < 2 ^ 32 →
  let now := nanos base + n * NSEC_PER_TICK in
  ts_valid abstime → now < 2 ^ 32 * NSEC_PER_SEC → now ≤ nanos abstime < now + 2147 * NSEC_PER_SEC →
  clock_abstime2ticks CLOCK_REALTIME abstime st = (OK, Some ((nanos abstime - now) / NSEC_PER_TICK), st).
Proof.
  intros Hs Hv H0 Hn now [Ha1 Ha2] Hmax Hnow.
  rewrite (clock_abstime2ticks_spec st base n) by (done || lia). fold now.
  rewrite Z.quot_div_nonneg, Z.div_div; [done|done..|by apply Z.div_pos; [lia|]|done].
Qed.

(** ** Defects *)

(** Finding: half a second after 100.5 s the clock shows 100 s and 10^9 ns. *)
Theorem clock_gettime_full_second :
  let st := mk_clock 50 0 (mk_ts 100 500000000) 0 in
  clock_gettime CLOCK_REALTIME st = (OK, Some (mk_ts 100 1000000000), st).
Proof. vm_compute. reflexivity. Qed.

(** Finding: a delay of 2148 s converts to a negative number of ticks. *)
Theorem clock_time2ticks_wraps : clock_time2ticks (mk_ts 2148 0) = (OK, -214696).
Proof. vm_compute. reflexivity. Qed.

(** Finding: the configured start, 2011-12-06, becomes the time 3586260992, not
    1323129600. *)
Theorem clock_initialize_start st :
  clock_initialize st = Some (mk_clock 0 0 (mk_ts 3586260992 0) (clock_errno st)) ∧
  day_number (2011, 12, 6) * SEC_PER_DAY = 1323129600.
Proof. vm_compute. done. Qed.

(** ** Witnesses *)

Lemma clock_settime_gettime_witness :
  let st := Nat.iter 7 clock_timer (clock_settime 0 (mk_ts 5 950000000) (mk_clock 0xfffffffd 0 (mk_ts 0 0) 0)).2 in
  ∃ ts, clock_gettime 0 st = (OK, Some ts, st) ∧ nanos ts = 6020000000.
Proof.
  destruct (clock_settime_gettime (mk_clock 0xfffffffd 0 (mk_ts 0 0) 0) (mk_ts 5 950000000) 7)
    as (ts & E & Hn & _).
  - split; simpl; unfold NSEC_PER_SEC; lia.
  - vm_compute. reflexivity.
  - vm_compute. reflexivity.
  - exists ts. split; [exact E|exact Hn].
Defined.

Lemma clock_ticks_roundtrip_witness :
  nanos (clock_ticks2time 214748).2 = 2147480000000 ∧
  clock_time2ticks (clock_ticks2time 214748).2 = (OK, 214748).
Proof. apply (clock_ticks_roundtrip 214748). lia. Defined.

Lemma clock_abstime2ticks_correct_witness :
  clock_abstime2ticks 0 (mk_ts 8 100000000) (mk_clock 107 100 (mk_ts 5 950000000) 0) =
  (OK, Some 208, mk_clock 107 100 (mk_ts 5 950000000) 0).
Proof.
  apply (clock_abstime2ticks_correct (mk_clock 107 100 (mk_ts 5 950000000) 0) (mk_ts 5 950000000) 7);
    try (split; simpl; unfold NSEC_PER_SEC; lia); try (vm_compute; reflexivity); try lia.
  - split; [reflexivity|vm_compute; reflexivity].
  - split; vm_compute; [discriminate|reflexivity].
Defined.
