(* ===== verification/Pid.v ===== *)
(** Process IDs: the table [g_pidhash] of sched/os_start.c, [task_assignpid] of
    sched/task_setup.c, [sched_gettcb] and [sched_releasepid].

    A process ID selects the entry of the table at its low bits, so two live
    tasks never share an entry; the idle task has ID 0 and owns the first one.
    The increment of the last ID wraps as two's complement does. *)

From stdpp Require Import base numbers gmap list.
From S2P Require Import Prelude Memory Sched.

Definition CONFIG_MAX_TASKS : nat := 16.
Definition MAX_TASKS_MASK : Z := Z.of_nat CONFIG_MAX_TASKS - 1.
Definition PIDHASH (pid : Z) : Z := Z.land pid MAX_TASKS_MASK.
Definition INVALID_PROCESS_ID : Z := 0.
Definition PID_MAX : Z := 2 ^ 31 - 1.

Record pidhash_t := mk_pidhash { h_tcb : Z; h_pid : Z }.

(** The table, the last ID given, and the [pid] field of the control blocks. *)
Record pidst := mk_pidst { g_pidhash : gmap Z pidhash_t; g_lastpid : Z; tcb_pid : gmap Z Z }.

Definition pidhash_at (st : pidst) (h : Z) : pidhash_t :=
  default (mk_pidhash 0 INVALID_PROCESS_ID) (g_pidhash st !! h).
Definition pid_of (st : pidst) (tcb : Z) : Z := default 0 (tcb_pid st !! tcb).
Definition set_pidhash (h : Z) (e : pidhash_t) (st : pidst) : pidst :=
  mk_pidst (<[h := e]> (g_pidhash st)) (g_lastpid st) (tcb_pid st).

(** The IDs are reset, and the idle task gets ID 0. *)
Definition pid_initialize (idletcb : Z) : pidst :=
  set_pidhash (PIDHASH 0) (mk_pidhash idletcb 0) (mk_pidst ∅ 0 ∅).

Definition sched_gettcb (pid : Z) (st : pidst) : Z :=
  if 0 <=? pid then
    let e := pidhash_at st (PIDHASH pid) in
    if pid =? h_pid e then h_tcb e else 0
  else 0.

(** sched/getpid.c: the ID of the task that heads the ready-to-run list. *)
Definition getpid (s : sched) (st : pidst) : Z := pid_of st (this_task s).

(** [++g_lastpid], forced into the valid range. *)
Definition next_pid (p : Z) : Z := let p := i32 (p + 1) in if p <=? 0 then 1 else p.

Fixpoint assignpid_loop (tries : nat) (tcb : Z) (st : pidst) : bool * pidst :=
  match tries with
  | O => (false, st)
  | S tries =>
      let pid := next_pid (g_lastpid st) in
      let st := mk_pidst (g_pidhash st) pid (tcb_pid st) in
      let hash_ndx := PIDHASH pid in
      if h_tcb (pidhash_at st hash_ndx) =? 0 then
        (true, mk_pidst (<[hash_ndx := mk_pidhash tcb pid]> (g_pidhash st)) pid (<[tcb := pid]> (tcb_pid st)))
      else assignpid_loop tries tcb st
  end.

(** Whether an ID was found. *)
Definition task_assignpid (tcb : Z) (st : pidst) : bool * pidst := assignpid_loop CONFIG_MAX_TASKS tcb st.

Definition sched_releasepid (pid : Z) (st : pidst) : pidst :=
  set_pidhash (PIDHASH pid) (mk_pidhash 0 INVALID_PROCESS_ID) st.

(** ** Properties *)

(** The entries in use are those of live tasks, each at the hash of its ID, and
    name the task that has the ID; the first is the idle task's. *)
Record pid_inv (st : pidst) : Prop := {
  pi_last : 0 ≤ g_lastpid st ≤ PID_MAX;
  pi_idle : h_tcb (pidhash_at st 0) ≠ 0 ∧ h_pid (pidhash_at st 0) = 0;
  pi_entry : ∀ h, h_tcb (pidhash_at st h) ≠ 0 →
    0 ≤ h_pid (pidhash_at st h) ∧ PIDHASH (h_pid (pidhash_at st h)) = h ∧
    pid_of st (h_tcb (pidhash_at st h)) = h_pid (pidhash_at st h);
  pi_free : ∀ h, h_tcb (pidhash_at st h) = 0 → h_pid (pidhash_at st h) = INVALID_PROCESS_ID;
}.

(** The tasks that have an ID. *)
Definition live (st : pidst) (tcb : Z) : Prop := tcb ≠ 0 ∧ ∃ h, h_tcb (pidhash_at st h) = tcb.

Lemma pidhash_mod p : PIDHASH p = p mod 16.
Proof. unfold PIDHASH, MAX_TASKS_MASK. change (Z.of_nat CONFIG_MAX_TASKS - 1) with (Z.ones 4). by rewrite Z.land_ones. Qed.

Lemma pidhash_at_set h e st h' :
  pidhash_at (set_pidhash h e st) h' = if decide (h' = h) then e else pidhash_at st h'.
Proof.
  unfold pidhash_at, set_pidhash. cbn. case_decide; [subst; by rewrite lookup_insert_eq|by rewrite lookup_insert_ne].
Qed.

Section Pid.
Implicit Types (st : pidst).

(** A live task is found by its ID, and no other ID finds a task. *)
Lemma gettcb_live st t : pid_inv st → live st t → sched_gettcb (pid_of st t) st = t.
Proof.
  intros Hi (Ht & h & <-). destruct (pi_entry _ Hi h Ht) as (H0 & Hh & Hp). rewrite Hp.
  unfold sched_gettcb. by rewrite (proj2 (Z.leb_le _ _)), Hh, Z.eqb_refl.
Qed.

Lemma gettcb_sound st p : pid_inv st → sched_gettcb p st ≠ 0 →
  live st (sched_gettcb p st) ∧ pid_of st (sched_gettcb p st) = p.
Proof.
  intros Hi. unfold sched_gettcb. case_test; [|done]. case_test; [|done]. intros Ht.
  split; [split; [done|by eexists]|]. by destruct (pi_entry _ Hi _ Ht) as (_ & _ & ->).
Qed.

(** ** The candidates of [task_assignpid] *)

Definition candidate (p : Z) (k : Z) : Z := if p + k <=? PID_MAX then p + k else p + k - PID_MAX.

Lemma next_pid_spec p : 0 ≤ p ≤ PID_MAX → next_pid p = candidate p 1 ∧ 1 ≤ next_pid p ≤ PID_MAX.
Proof.
  unfold next_pid, candidate, PID_MAX. intros Hp. destruct (decide (p = 2 ^ 31 - 1)) as [->|Hne].
  - change (i32 (2 ^ 31 - 1 + 1)) with (- 2 ^ 31). repeat case_test; lia.
  - rewrite i32_small by lia. repeat case_test; lia.
Qed.

(** The candidates reach every entry but perhaps the first. *)
Lemma candidate_hash p h : 0 ≤ p ≤ PID_MAX → 1 ≤ h < 16 → ∃ k, 1 ≤ k ≤ 16 ∧ PIDHASH (candidate p k) = h.
Proof.
  intros Hp Hh. unfold candidate, PID_MAX in *. set (k := (h - p - 1) mod 16 + 1).
  assert (1 ≤ k ≤ 16 ∧ (p + k) mod 16 = h) by (unfold k; split; Z.to_euclidean_division_equations; lia).
  destruct (decide (p + k ≤ 2 ^ 31 - 1)) as [Hle|Hgt].
  - exists k. split; [lia|]. rewrite (proj2 (Z.leb_le _ _)), pidhash_mod by lia. tauto.
  - exists (2 ^ 31 - 1 - p + h). assert (2 ^ 31 - 1 - p + h ≤ 15) by (Z.to_euclidean_division_equations; lia).
    split; [lia|]. rewrite (proj2 (Z.leb_gt _ _)), pidhash_mod by lia.
    replace (p + (2 ^ 31 - 1 - p + h) - (2 ^ 31 - 1)) with h by lia. apply Z.mod_small. lia.
Qed.

Lemma candidate_next p k : 0 ≤ p ≤ PID_MAX → 0 ≤ k ≤ 15 → candidate (next_pid p) k = candidate p (k + 1).
Proof.
  intros Hp Hk. destruct (next_pid_spec p Hp) as [-> _]. unfold candidate, PID_MAX in *.
  repeat case_test; lia.
Qed.

(** What the loop returns: a candidate whose entry is free, or nothing when the
    entries of all candidates are in use. *)
Lemma assignpid_loop_spec tries : ∀ tcb st, 0 ≤ g_lastpid st ≤ PID_MAX → Z.of_nat tries ≤ 16 →
  let '(ok, st') := assignpid_loop tries tcb st in
  let p := g_lastpid st' in
  if ok : bool then
    1 ≤ p ≤ PID_MAX ∧ h_tcb (pidhash_at st (PIDHASH p)) = 0 ∧
    st' = mk_pidst (<[PIDHASH p := mk_pidhash tcb p]> (g_pidhash st)) p (<[tcb := p]> (tcb_pid st))
  else
    0 ≤ p ≤ PID_MAX ∧ st' = mk_pidst (g_pidhash st) p (tcb_pid st) ∧
    ∀ k, 1 ≤ k ≤ Z.of_nat tries → h_tcb (pidhash_at st (PIDHASH (candidate (g_lastpid st) k))) ≠ 0.
Proof.
  induction tries as [|tries IH]; intros tcb st Hp Ht; cbn [assignpid_loop].
  { split_and!; [lia|lia|by destruct st|intros k; lia]. }
  destruct (next_pid_spec _ Hp) as [En Hn]. case_test.
  - cbn [g_lastpid]. by split_and!; [lia|lia|..].
  - set (st1 := mk_pidst (g_pidhash st) (next_pid (g_lastpid st)) (tcb_pid st)) in *.
    specialize (IH tcb st1 ltac:(cbn; lia) ltac:(lia)).
    destruct (assignpid_loop tries tcb st1) as [ok st']. destruct ok; [done|].
    destruct IH as (Hp' & E & Hk). split_and!; [lia|lia|done|]. intros k Hk1.
    destruct (decide (k = 1)) as [->|Hne]; [by rewrite <-En|].
    replace k with (k - 1 + 1) by lia. rewrite <-candidate_next by lia.
    apply (Hk (k - 1)). lia.
Qed.

(** A task takes the free entry of the ID [p]. *)
Lemma assigned_inv st tcb p :
  pid_inv st → tcb ≠ 0 → ¬ live st tcb → 1 ≤ p ≤ PID_MAX → h_tcb (pidhash_at st (PIDHASH p)) = 0 →
  let st' := mk_pidst (<[PIDHASH p := mk_pidhash tcb p]> (g_pidhash st)) p (<[tcb := p]> (tcb_pid st)) in
  pid_inv st' ∧ pid_of st' tcb = p ∧ (∀ t, live st' t ↔ t = tcb ∨ live st t) ∧
  (∀ h, pidhash_at st' h = if decide (h = PIDHASH p) then mk_pidhash tcb p else pidhash_at st h).
Proof.
  intros Hi Ht Hnl Hp Hfree st'.
  assert (He : ∀ h, pidhash_at st' h = if decide (h = PIDHASH p) then mk_pidhash tcb p else pidhash_at st h).
  { intros h. apply (pidhash_at_set (PIDHASH p) (mk_pidhash tcb p) st). }
  assert (Hpid : ∀ t, pid_of st' t = if decide (t = tcb) then p else pid_of st t).
  { intros t. unfold pid_of, st'. cbn. case_decide; [subst; by rewrite lookup_insert_eq|by rewrite lookup_insert_ne]. }
  split_and!; [|by rewrite Hpid, decide_True| |done].
  - split.
    + cbn. lia.
    + rewrite He, decide_False; [apply (pi_idle _ Hi)|]. intros E. rewrite <-E in Hfree. by apply (pi_idle _ Hi) in Hfree.
    + intros h. rewrite He. case_decide as E; cbn [h_tcb h_pid].
      * intros _. rewrite Hpid, decide_True by done. split_and!; [lia|congruence|done].
      * intros Hh. rewrite Hpid, decide_False; [by apply (pi_entry _ Hi)|]. intros E'. apply Hnl. split; [done|eauto].
    + intros h. rewrite He. case_decide; cbn [h_tcb h_pid]; [done|apply (pi_free _ Hi)].
  - intros t. split.
    + intros (Ht' & h & Hh). rewrite He in Hh. case_decide; [by left|]. right. split; [done|eauto].
    + intros [->|(Ht' & h & Hh)]; (split; [done|]).
      * exists (PIDHASH p). by rewrite He, decide_True.
      * exists h. rewrite He, decide_False; [done|]. intros ->. congruence.
Qed.

(** task_assignpid gives a new task an ID that no live task has and under which sched_gettcb
    then finds exactly it, leaving the IDs of the other tasks alone; it fails only when all entries
    of the table are in use, and then nothing changes. *)
Theorem task_assignpid_correct tcb st :
  pid_inv st → tcb ≠ 0 → ¬ live st tcb →
  let '(ok, st') := task_assignpid tcb st in
  pid_inv st' ∧
  if ok : bool then
    sched_gettcb (pid_of st' tcb) st = 0 ∧ sched_gettcb (pid_of st' tcb) st' = tcb ∧
    (∀ p, p ≠ pid_of st' tcb → sched_gettcb p st' = sched_gettcb p st) ∧
    (∀ t, live st' t ↔ t = tcb ∨ live st t)
  else
    (∀ p, sched_gettcb p st' = sched_gettcb p st) ∧ ∀ h, 0 ≤ h < 16 → h_tcb (pidhash_at st h) ≠ 0.
Proof.
  intros Hi Ht Hnl. pose proof (assignpid_loop_spec CONFIG_MAX_TASKS tcb st (pi_last _ Hi) ltac:(done)) as Hs.
  unfold task_assignpid. destruct (assignpid_loop CONFIG_MAX_TASKS tcb st) as [[] st'].
  - destruct Hs as (Hp & Hfree & E). set (p := g_lastpid st') in *. clearbody p.
    destruct (assigned_inv st tcb p Hi Ht Hnl Hp Hfree) as (Hi' & Hpid & Hl & He). rewrite <-E in *.
    rewrite Hpid. split_and!; [done| | | |done].
    + unfold sched_gettcb. rewrite (proj2 (Z.leb_le _ _)) by lia. rewrite (pi_free _ Hi _ Hfree).
      unfold INVALID_PROCESS_ID. by rewrite (proj2 (Z.eqb_neq p 0)) by lia.
    + unfold sched_gettcb. by rewrite (proj2 (Z.leb_le _ _)), He, decide_True, Z.eqb_refl by (done || lia).
    + intros p' Hne. unfold sched_gettcb. rewrite He. case_decide as Eh; [|done]. rewrite Eh, Hfree. cbn.
      rewrite (proj2 (Z.eqb_neq p' p)) by done. by repeat case_match.
  - destruct Hs as (Hp & E & Hk). rewrite E in *. split_and!.
    + destruct Hi as [_ H1 H2 H3]. by split.
    + done.
    + intros h Hh. destruct (decide (h = 0)) as [->|Hh0]; [apply (pi_idle _ Hi)|].
      destruct (candidate_hash (g_lastpid st) h (pi_last _ Hi) ltac:(lia)) as (k & Hk1 & <-). apply Hk. done.
Qed.

(** Releasing the ID of a live task other than the idle task removes exactly that task: no ID
    finds it any more, and every other ID finds the task it found before. *)
Theorem sched_releasepid_correct tcb st :
  pid_inv st → live st tcb → pid_of st tcb ≠ 0 →
  let st' := sched_releasepid (pid_of st tcb) st in
  pid_inv st' ∧ (∀ t, live st' t ↔ t ≠ tcb ∧ live st t) ∧
  (∀ p, sched_gettcb p st' = if decide (p = pid_of st tcb) then 0 else sched_gettcb p st).
Proof.
  intros Hi Hl Hp0 st'. pose proof Hl as (Ht & h & Hh). subst tcb.
  destruct (pi_entry _ Hi h Ht) as (Hp & Hph & Hpid). rewrite Hpid in Hp0.
  assert (He : ∀ h', pidhash_at st' h' = if decide (h' = h) then mk_pidhash 0 INVALID_PROCESS_ID else pidhash_at st h').
  { intros h'. unfold st', sched_releasepid. by rewrite pidhash_at_set, Hpid, Hph. }
  split_and!.
  - split.
    + apply (pi_last _ Hi).
    + rewrite He, decide_False; [apply (pi_idle _ Hi)|]. intros <-. by apply Hp0, (pi_idle _ Hi).
    + intros h'. rewrite He. case_decide; [done|]. apply (pi_entry _ Hi).
    + intros h'. rewrite He. case_decide; [done|]. apply (pi_free _ Hi).
  - intros t. split.
    + intros (Ht' & h' & E). rewrite He in E. case_decide as Eh; [by subst|]. split; [|by split; eauto].
      intros ->. apply Eh. destruct (pi_entry _ Hi h') as (_ & Hh' & Hp'); [congruence|].
      rewrite E, Hpid in Hp'. congruence.
    + intros (Hne & Ht' & h' & E). split; [done|]. exists h'. rewrite He, decide_False; [done|]. by intros ->.
  - intros p. unfold sched_gettcb. rewrite He. destruct (decide (p = pid_of st (h_tcb (pidhash_at st h)))) as [Ep|Ep].
    + rewrite Ep, Hpid, Hph, decide_True by done. by repeat case_match.
    + case_decide as Eh; [|done]. rewrite Eh. rewrite Hpid in Ep.
      rewrite (proj2 (Z.eqb_neq p (h_pid (pidhash_at st h)))) by done.
      by repeat case_match.
Qed.
End Pid.

(** ** A concrete table *)

Definition pid0 : pidst := pid_initialize 0x100.

Lemma pid0_inv : pid_inv pid0.
Proof.
  assert (He : ∀ h, pidhash_at pid0 h = if decide (h = 0) then mk_pidhash 0x100 0 else mk_pidhash 0 0).
  { intros h. unfold pid0, pid_initialize. by rewrite pidhash_at_set. }
  split; [by vm_compute|..].
  - by rewrite He.
  - intros h. rewrite He. by case_decide; subst.
  - intros h. rewrite He. by case_decide; subst.
Qed.

Lemma task_assignpid_correct_witness :
  (task_assignpid 0x200 pid0).1 = true ∧ sched_gettcb 1 (task_assignpid 0x200 pid0).2 = 0x200 ∧
  pid_inv (task_assignpid 0x200 pid0).2.
Proof.
  pose proof (task_assignpid_correct 0x200 pid0 pid0_inv ltac:(done)) as H.
  assert (Hn : ¬ live pid0 0x200).
  { intros (_ & h & Hh). revert Hh. unfold pid0, pid_initialize. rewrite pidhash_at_set. by case_decide. }
  specialize (H Hn). split; [by vm_compute|]. split; [by vm_compute|].
  destruct (task_assignpid 0x200 pid0) as [ok st']. exact (proj1 H).
Defined.

Lemma sched_releasepid_correct_witness :
  sched_gettcb 1 (sched_releasepid 1 (task_assignpid 0x200 pid0).2) = 0 ∧
  pid_inv (sched_releasepid 1 (task_assignpid 0x200 pid0).2).
Proof.
  split; [by vm_compute|].
  assert (Hn : ¬ live pid0 0x200).
  { intros (_ & h & Hh). revert Hh. unfold pid0, pid_initialize. rewrite pidhash_at_set. by case_decide. }
  destruct (assigned_inv pid0 0x200 1 pid0_inv) as (Hi & Hp & Hl & _); [done|done|by vm_compute|by vm_compute|].
  change (task_assignpid 0x200 pid0).2 with (mk_pidst (<[PIDHASH 1 := mk_pidhash 0x200 1]> (g_pidhash pid0)) 1
    (<[0x200 := 1]> (tcb_pid pid0))).
  rewrite <-Hp at 3. apply (sched_releasepid_correct 0x200); [exact Hi|apply Hl; by left|by rewrite Hp].
Defined.
