(* ===== verification/SemTimed.v ===== *)
(** Waiting for a semaphore with a deadline: sched/sem_timedwait.c on top of
    semaphores, watchdogs, the clock and process IDs, and the timer interrupt of
    sched/sched_processtimer.c that drives them.

    [sem_timeout] is the function of the watchdogs that [sem_timedwait] starts, at
    the address [sem_timeout_entry].  Functions at other addresses are taken to
    change none of the modelled state, and in particular not to use watchdogs (a
    periodic POSIX timer, which restarts its own, is outside this model), so it
    makes no difference that all of them are applied after the loop of [wd_timer].
    A call that waits answers [TwWaits wdog]; [sem_timedwait_resume] is what it
    does when it runs again. *)

From stdpp Require Import base numbers functions gmap sorting list.
From S2P Require Import Prelude Queue Memory Sched SchedInv SchedThms SchedFields Sem SemThms SemSpec SemView.
From S2P Require Import Wdog WdogInv WdogOps WdogSpec WdogTimer Calendar Clock Pid.

Definition ENOMEM : Z := 12.

Record twst := mk_tw { tw_sem : semst; tw_wd : wdst; tw_clk : clockst; tw_pid : pidst }.

Definition with_sem (s : semst) st := mk_tw s (tw_wd st) (tw_clk st) (tw_pid st).
Definition with_wd (w : wdst) st := mk_tw (tw_sem st) w (tw_clk st) (tw_pid st).
Definition with_clk (c : clockst) st := mk_tw (tw_sem st) (tw_wd st) c (tw_pid st).

Inductive tw_ret := TwRet (r : sem_ret) | TwWaits (wdog : Z).

Section Timed.
Variable sem_timeout_entry : Z.

(** ** sem_timedwait.c *)

Definition sem_timeout (pid : Z) (st : twst) : option twst :=
  let wtcb := sched_gettcb pid (tw_pid st) in
  if negb (wtcb =? 0) then
    match task_state (get (sch (tw_sem st)) wtcb) with
    | TSTATE_WAIT_SEM => s ← sem_waitirq wtcb ETIMEDOUT (tw_sem st); Some (with_sem s st)
    | _ => Some st
    end
  else Some st.

(** [wd_delete], [set_errno(err)] and ERROR. *)
Definition timedwait_fail (wdog err : Z) (st : twst) : option (tw_ret * twst) :=
  '(_, w) ← wd_delete wdog (tw_wd st);
  Some (TwRet SemERROR, with_sem (set_errno err (tw_sem st)) (with_wd w st)).

(** What follows [sem_wait]. *)
Definition timedwait_end (wdog : Z) (ret : sem_ret) (st : twst) : option (tw_ret * twst) :=
  '(_, w) ← wd_cancel wdog (tw_wd st);
  '(_, w) ← wd_delete wdog w;
  Some (TwRet ret, with_wd w st).

(** What follows a [sem_trywait] that failed. *)
Definition timedwait_block (wdog sem : Z) (abstime : timespec) (st : twst) : option (tw_ret * twst) :=
  if (tv_sec abstime <? 0) || (1000000000 <? tv_nsec abstime) then timedwait_fail wdog Sched.EINVAL st else
  let '(err, ticks, c) := clock_abstime2ticks CLOCK_REALTIME abstime (tw_clk st) in
  let ticks := default 0 ticks in
  let st := with_clk c st in
  if (err =? OK) && (ticks <=? 0) then timedwait_fail wdog ETIMEDOUT st else
  if negb (err =? OK) then timedwait_fail wdog err st else
  '(_, w) ← wd_start wdog ticks sem_timeout_entry 1 [getpid (sch (tw_sem st)) (tw_pid st)] (tw_wd st);
  let st := with_wd w st in
  '(ret, s) ← sem_wait sem (tw_sem st);
  let st := with_sem s st in
  match ret with
  | SemBlocked => Some (TwWaits wdog, st)
  | _ => timedwait_end wdog ret st
  end.

Definition sem_timedwait (sem : Z) (abstime : timespec) (st : twst) : option (tw_ret * twst) :=
  let '(wdog, w) := wd_create (tw_wd st) in
  let st := with_wd w st in
  if wdog =? 0 then Some (TwRet SemERROR, with_sem (set_errno ENOMEM (tw_sem st)) st) else
  let '(ret, s) := sem_trywait sem (tw_sem st) in
  let st := with_sem s st in
  match ret with
  | SemOK => '(_, w) ← wd_delete wdog (tw_wd st); Some (TwRet SemOK, with_wd w st)
  | _ => timedwait_block wdog sem abstime st
  end.

(** The caller [rtcb] runs again. *)
Definition sem_timedwait_resume (rtcb wdog : Z) (st : twst) : option (tw_ret * twst) :=
  timedwait_end wdog (sem_wait_resume rtcb (tw_sem st)) st.

(** ** sched_processtimer.c *)

Definition run_wdentry (call : Z * list Z) (st : twst) : option twst :=
  let '(f, args) := call in
  if f =? sem_timeout_entry then sem_timeout (default 0 (head args)) st else Some st.

Fixpoint run_wdentries (fired : list (Z * (Z * list Z))) (st : twst) : option twst :=
  match fired with
  | [] => Some st
  | (_, call) :: fired => st ← run_wdentry call st; run_wdentries fired st
  end.

Definition sched_process_timer (st : twst) : option twst :=
  let st := with_clk (clock_timer (tw_clk st)) st in
  '(fired, w) ← wd_timer (λ _ _ _, []) (tw_wd st);
  st ← run_wdentries fired (with_wd w st);
  s ← sched_process_timeslice (sch (tw_sem st));
  Some (with_sem (with_sched (tw_sem st) s) st).

Fixpoint timer_interrupts (n : nat) (st : twst) : option twst :=
  match n with O => Some st | S n => st ← sched_process_timer st; timer_interrupts n st end.

(** ** The invariant *)

Record tw_inv (st : twst) (L : tasklist → list Z) (idle : Z) (A : list (Z * Z)) (F : list Z) : Prop := {
  ti_sem : sem_inv (tw_sem st) L idle;
  ti_wd : wd_repr 1 (tw_wd st) A F;
  ti_pid : pid_inv (tw_pid st);
  ti_idle : Z.land (flags (get (sch (tw_sem st)) idle)) TCB_FLAG_ROUND_ROBIN = 0;
}.

(** The call of a watchdog's function is a timeout for the task [x]. *)
Definition times_out (p : pidst) (x : Z) (call : Z * list Z) : Prop :=
  call.1 = sem_timeout_entry ∧ default 0 (head call.2) = pid_of p x.

#[global] Instance times_out_dec p x call : Decision (times_out p x call) := _.

(** The task [x] waits with the watchdog [w], which expires in [n] ticks; no
    other watchdog will interrupt it. *)
Record timed_waiting (x w n : Z) (st : twst) (L : tasklist → list Z) (A : list (Z * Z)) : Prop := {
  tt_waits : x ∈ L g_waitingforsemaphore;
  tt_errno : pterrno (get (sch (tw_sem st)) x) = 0;
  tt_live : live (tw_pid st) x;
  tt_watch : remaining A w = Some n;
  tt_call : times_out (tw_pid st) x (wd_call (tw_wd st) w);
  tt_only : ∀ y, y ≠ w → y ∈ A.*1 → ¬ times_out (tw_pid st) x (wd_call (tw_wd st) y);
}.

Implicit Types (st : twst) (L : tasklist → list Z) (A : list (Z * Z)) (F : list Z).

(** ** One timeout *)

Definition runnable L x : Prop := x ∈ L g_readytorun ∨ x ∈ L g_pendingtasks.

(** [x] has been woken by a timeout. *)
Definition timed_out (s : sched) L x : Prop := runnable L x ∧ pterrno (get s x) = ETIMEDOUT.

Lemma runnable_not_waiting (s : sched) L idle x : sched_wf s L idle → runnable L x → x ∉ L g_waitingforsemaphore.
Proof. intros Hw [H|H] Hx; pose proof (lo_disj _ _ (sw_lists _ _ _ Hw) _ _ _ H Hx); done. Qed.

(** What a run of timeouts keeps: everything but tasks that wait for semaphores. *)
Definition only_sem st st' : Prop :=
  tw_wd st' = tw_wd st ∧ tw_clk st' = tw_clk st ∧ tw_pid st' = tw_pid st ∧
  ∀ y, flags (get (sch (tw_sem st')) y) = flags (get (sch (tw_sem st)) y).

(** What a call did to the tasks: those woken by a timeout stay so, and a task
    that waits for a semaphore is woken exactly when [P] holds of it. *)
Definition wakes (P : Z → Prop) `{∀ x, Decision (P x)} st L st' L' : Prop :=
  ∀ x, (timed_out (sch (tw_sem st)) L x → timed_out (sch (tw_sem st')) L' x) ∧
    (x ∈ L g_waitingforsemaphore → live (tw_pid st) x →
     if decide (P x) then timed_out (sch (tw_sem st')) L' x
     else x ∈ L' g_waitingforsemaphore ∧
          pterrno (get (sch (tw_sem st')) x) = pterrno (get (sch (tw_sem st)) x)).

Lemma sem_timeout_spec st L idle pid :
  sem_inv (tw_sem st) L idle → pid_inv (tw_pid st) →
  ∃ st' L', sem_timeout pid st = Some st' ∧ sem_inv (tw_sem st') L' idle ∧ only_sem st st' ∧
    wakes (λ x, pid = pid_of (tw_pid st) x) st L st' L'.
Proof.
  intros Hi Hp. pose proof Hi as [(Hw & _) _ _ _]. unfold sem_timeout. set (t := sched_gettcb pid (tw_pid st)).
  assert (Hstay : t ∉ L g_waitingforsemaphore →
    ∃ st' L', Some st = Some st' ∧ sem_inv (tw_sem st') L' idle ∧ only_sem st st' ∧
      wakes (λ x, pid = pid_of (tw_pid st) x) st L st' L').
  { intros Ht. exists st, L. split_and!; [done|done|done|]. intros x. split; [done|]. intros Hx Hl.
    case_decide as E; [|done]. destruct Ht. unfold t. by rewrite E, gettcb_live. }
  destruct (sem_waitirq_abs (tw_sem st) L idle t ETIMEDOUT Hi) as (s' & L' & E & Hi' & H).
  destruct (sem_waitirq_fields _ _ _ _ E) as [Hf He].
  destruct (decide (t ∈ L g_waitingforsemaphore)) as [Ht|Ht].
  - assert (Hs : task_state (get (sch (tw_sem st)) t) = TSTATE_WAIT_SEM).
    { pose proof (sw_state _ _ _ Hw _ _ Ht) as Hl. change (task_state (get (sch (tw_sem st)) t)) with (tstate_of (tcbs (sch (tw_sem st))) t).
      by destruct (tstate_of (tcbs (sch (tw_sem st))) t). }
    destruct (lo_repr _ _ (sw_lists _ _ _ Hw) g_waitingforsemaphore) as (_ & Hnd & H0 & _).
    rewrite (proj2 (Z.eqb_neq t 0)) by (by intros E0; rewrite E0 in Ht). cbn [negb]. rewrite Hs, E.
    exists (with_sem s' st), L'. destruct H as (_ & Het & HL & Hr). split_and!; try done.
    intros x. split.
    + intros [Hx Hex]. split; [apply Hr; by right|]. cbn. rewrite He; [done|]. intros ->.
      by eapply runnable_not_waiting.
    + intros Hx Hl. case_decide as Ep.
      * assert (Etx : t = x) by (unfold t; by rewrite Ep, gettcb_live). rewrite <-Etx. split; [|done].
        apply Hr. by left.
      * assert (Hne : x ≠ t); [|split; [rewrite HL; by apply elem_of_remove_first|by apply He]].
        intros ->. apply Ep. symmetry. apply (gettcb_sound _ pid Hp). by intros E0; unfold t in H0, Ht; rewrite E0 in Ht.
  - case_match; [|by apply Hstay]. destruct (task_state _) eqn:Es; try by apply Hstay.
    destruct Ht. apply (sw_member _ _ _ Hw). unfold tstate_of. change (tcb_at _ t) with (get (sch (tw_sem st)) t). by rewrite Es.
Qed.

Lemma only_sem_trans st1 st2 st3 : only_sem st1 st2 → only_sem st2 st3 → only_sem st1 st3.
Proof.
  intros (E1 & E2 & E3 & E4) (F1 & F2 & F3 & F4). split_and!; [congruence..|]. intros y. by rewrite F4.
Qed.

Lemma run_wdentry_spec st L idle call :
  sem_inv (tw_sem st) L idle → pid_inv (tw_pid st) →
  ∃ st' L', run_wdentry call st = Some st' ∧ sem_inv (tw_sem st') L' idle ∧ only_sem st st' ∧
    wakes (λ x, times_out (tw_pid st) x call) st L st' L'.
Proof.
  intros Hi Hp. destruct call as [f args]. unfold run_wdentry, times_out. cbn [fst snd].
  destruct (Z.eqb_spec f sem_timeout_entry) as [->|Hf].
  - destruct (sem_timeout_spec st L idle (default 0 (head args)) Hi Hp) as (st' & L' & E & Hi' & Ho & Hx).
    exists st', L'. split_and!; [done|done|done|]. intros x. destruct (Hx x) as [H1 H2]. split; [done|].
    intros Hx1 Hx2. specialize (H2 Hx1 Hx2). repeat case_decide; tauto.
  - exists st, L. split_and!; [done..|]. intros x. split; [done|]. intros Hx _. rewrite decide_False; [done|]. tauto.
Qed.

Lemma run_wdentries_spec fired : ∀ st L idle,
  sem_inv (tw_sem st) L idle → pid_inv (tw_pid st) →
  ∃ st' L', run_wdentries fired st = Some st' ∧ sem_inv (tw_sem st') L' idle ∧ only_sem st st' ∧
    wakes (λ x, Exists (λ e, times_out (tw_pid st) x e.2) fired) st L st' L'.
Proof.
  induction fired as [|[w call] fired IH]; intros st L idle Hi Hp; cbn [run_wdentries].
  - exists st, L. split_and!; [done..|]. intros x. split; [done|]. intros Hx _.
    rewrite decide_False; [done|]. by intros ?%Exists_nil.
  - destruct (run_wdentry_spec st L idle call Hi Hp) as (st1 & L1 & -> & Hi1 & Ho1 & H1). cbn [mbind option_bind].
    assert (Ep : tw_pid st1 = tw_pid st) by apply Ho1.
    destruct (IH st1 L1 idle Hi1) as (st2 & L2 & E2 & Hi2 & Ho2 & H2); [by rewrite Ep|].
    exists st2, L2. split_and!; [done|done|by eapply only_sem_trans|].
    intros x. destruct (H1 x) as [Ha1 Hb1], (H2 x) as [Ha2 Hb2]. rewrite Ep in Hb2. split; [tauto|].
    intros Hx Hl. specialize (Hb1 Hx Hl). rewrite (decide_ext _ _ _ _ (Exists_cons _ _ _)). cbn [snd].
    destruct (decide (times_out (tw_pid st) x call)) as [Ht|Ht].
    + rewrite decide_True by tauto. tauto.
    + destruct Hb1 as [Hb1 He1]. specialize (Hb2 Hb1 Hl). rewrite He1 in Hb2. repeat case_decide; tauto.
Qed.

(** ** One tick *)

Lemma sched_process_timer_spec st L idle A F :
  tw_inv st L idle A F →
  ∃ fired st' L' A' F', sched_process_timer st = Some st' ∧ tw_inv st' L' idle A' F' ∧ tw_pid st' = tw_pid st ∧
    expired (λ _ _ _, []) (tw_wd st) (tick A) F fired (tw_wd st') A' F' ∧
    wakes (λ x, Exists (λ e, times_out (tw_pid st) x e.2) fired) st L st' L'.
Proof.
  intros [Hi Hw Hp Hid]. unfold sched_process_timer. cbn [with_clk tw_wd].
  destruct (wd_timer_spec (λ _ _ _, []) (tw_wd st) A F) as (fired & w & A' & F' & E & Hw' & He); [|done|].
  { by intros f args s B G. }
  rewrite E. cbn [mbind option_bind]. set (st1 := with_wd w _).
  destruct (run_wdentries_spec fired st1 L idle Hi Hp) as (st2 & L2 & E2 & Hi2 & (Ew & Ec & Ep & Ef) & Hx).
  rewrite E2. cbn [mbind option_bind].
  destruct (sem_tick_view (tw_sem st2) L2 idle Hi2) as (t & L3 & E3 & Hi3 & [Hc1 Hc2] & _ & Hco); [by rewrite Ef|].
  rewrite E3. exists fired, (with_sem (with_sched (tw_sem st2) t) st2), L3, A', F'.
  split_and!; [done| |done| |].
  - split; cbn; [done|by rewrite Ew|by rewrite Ep|]. rewrite (field_core flags _ _ _ (λ _, eq_refl) Hco). by rewrite Ef.
  - cbn. by rewrite Ew.
  - intros x. destruct (Hx x) as [H1 H2].
    assert (Ht : timed_out (sch (tw_sem st2)) L2 x → timed_out t L3 x).
    { intros [Hr Hpe]. split; [by apply Hc1|]. by rewrite (field_core pterrno _ _ _ (λ _, eq_refl) Hco). }
    split; [intros H; by apply Ht, H1|]. intros Hwx Hl. specialize (H2 Hwx Hl).
    change (tw_pid st1) with (tw_pid st) in H2. case_decide; [by apply Ht|]. rewrite Hc2 by done.
    split; [apply H2|]. cbn [with_sem tw_sem with_sched sch]. rewrite (field_core pterrno _ _ _ (λ _, eq_refl) Hco).
    apply H2.
Qed.

Lemma watched_not_free lo (s : wdst) A F x n : wd_repr lo s A F → remaining A x = Some n → x ∉ F ∧ x ≠ 0.
Proof.
  intros Hw Hr. assert (Hx : x ∈ A.*1).
  { destruct (decide (x ∈ A.*1)) as [|Hn]; [done|]. apply remaining_None in Hn. congruence. }
  split; [by apply (wr_disj _ _ _ _ Hw)|]. intros ->. destruct (wr_active _ _ _ _ Hw) as (_ & _ & H0 & _). done.
Qed.

(** What fired was due and has the call it was started with. *)
Lemma expired_calls (s s' : wdst) A F fired A' F' e : NoDup A.*1 →
  expired (λ _ _ _, []) s A F fired s' A' F' → e ∈ fired →
  ∃ t, remaining A e.1 = Some t ∧ t ≤ 0 ∧ e.2 = wd_call s e.1.
Proof.
  intros Hnd [Hsub Hx] He. destruct e as [y call]. cbn [fst snd].
  assert (Hin : y ∈ fired.*1) by by apply (list_elem_of_fmap_2' fst fired (y, call)).
  assert (Hy : y ∈ (due A).*1) by by eapply elem_of_sublist.
  apply due_fst in Hy as (t & Ht & Hle). apply remaining_elem in Ht; [|done]. exists t. split_and!; [done|done|].
  assert (Hsp : callbacks_spare (λ _ _ _, []) y) by by intros ? ? ? ? ?%not_elem_of_nil.
  destruct (Hx y Hsp) as (_ & _ & H). rewrite Ht in H. rewrite (proj2 (Z.leb_le _ _)) in H by done.
  destruct H as [H _].
  assert (Hnf : NoDup fired.*1).
  { eapply sublist_NoDup; [|exact Hsub]. eapply sublist_NoDup; [exact Hnd|]. apply fmap_sublist, sublist_filter. }
  by apply (nodup_fst_unique fired y).
Qed.

(** A tick brings the deadline of a waiting task closer, or wakes the task. *)
Lemma timed_waiting_tick st L idle A F x w n :
  tw_inv st L idle A F → timed_waiting x w n st L A →
  ∃ st' L' A' F', sched_process_timer st = Some st' ∧ tw_inv st' L' idle A' F' ∧
    if n <=? 1 then timed_out (sch (tw_sem st')) L' x ∧ w ∉ F' ∧ w ≠ 0
    else timed_waiting x w (n - 1) st' L' A'.
Proof.
  intros Hi [Hwt Hz Hl Hr Hc Ho].
  destruct (sched_process_timer_spec st L idle A F Hi) as (fired & st' & L' & A' & F' & E & Hi' & Ep & He & Hwk).
  exists st', L', A', F'. split_and!; [done|done|].
  assert (Hsp : ∀ y, callbacks_spare (λ _ _ _, []) y) by by intros y ? ? ? ? ?%not_elem_of_nil.
  destruct (watched_not_free _ _ _ _ _ _ (ti_wd _ _ _ _ _ Hi) Hr) as [HwF Hw0].
  assert (Hnd : NoDup (tick A).*1) by (rewrite tick_fst; by eapply wd_repr_nodup, Hi).
  pose proof (proj2 He w (Hsp w)) as (Hcw & HF & Hm). rewrite remaining_tick, Hr in Hm. cbn [fmap option_fmap option_map] in Hm.
  destruct (Hwk x) as [_ Hx]. specialize (Hx Hwt Hl).
  destruct (Z.leb_spec n 1) as [Hn|Hn].
  - rewrite (proj2 (Z.leb_le _ _)) in Hm by lia. split_and!; [|auto|done].
    rewrite decide_True in Hx; [done|]. apply Exists_exists. exists (w, wd_call (tw_wd st) w). by split; [apply Hm|].
  - rewrite (proj2 (Z.leb_gt _ _)) in Hm by lia.
    assert (Hcall : ∀ y, y ∈ A'.*1 → wd_call (tw_wd st') y = wd_call (tw_wd st) y ∧ y ∈ A.*1).
    { intros y Hy. destruct (proj2 He y (Hsp y)) as (Hcy & _ & Hy'). split; [done|].
      destruct (decide (y ∈ A.*1)) as [|Hno]; [done|].
      rewrite <-tick_fst in Hno. apply remaining_None in Hno. rewrite Hno in Hy'. by apply remaining_None in Hy'. }
    rewrite decide_False in Hx.
    { destruct Hx as [Hx1 Hx2]. split; rewrite ?Ep, ?Hcw; [done|by rewrite Hx2|done..|]. intros y Hyw Hy. destruct (Hcall y Hy) as [-> Hy'].
      by apply Ho. }
    intros ([y call] & Hin & Hto)%Exists_exists. destruct (expired_calls _ _ _ _ _ _ _ _ Hnd He Hin) as (t & Ht & Hle & Ec).
    cbn [fst snd] in *. subst call. rewrite remaining_tick in Ht. destruct (remaining A y) as [t0|] eqn:Hy; [|done].
    assert (Hyn : y ≠ w) by (intros ->; rewrite Hr in Hy; simplify_eq/=; lia).
    apply (Ho y Hyn); [|done]. destruct (decide (y ∈ A.*1)) as [|Hno]; [done|]. apply remaining_None in Hno. congruence.
Qed.

Lemma timer_interrupts_S_r n st : timer_interrupts (S n) st = st ← timer_interrupts n st; sched_process_timer st.
Proof.
  revert st. induction n as [|n IH]; intros st; cbn [timer_interrupts mbind option_bind].
  - by destruct (sched_process_timer st).
  - destruct (sched_process_timer st) as [st1|]; [|done]. cbn [mbind option_bind]. rewrite <-IH. done.
Qed.

Lemma timed_waiting_ticks m st L idle A F x w n :
  tw_inv st L idle A F → timed_waiting x w n st L A → Z.of_nat m < n →
  ∃ st' L' A' F', timer_interrupts m st = Some st' ∧ tw_inv st' L' idle A' F' ∧
    timed_waiting x w (n - Z.of_nat m) st' L' A'.
Proof.
  intros Hi Ht. induction m as [|m IH]; intros Hn.
  - exists st, L, A, F. rewrite Z.sub_0_r. done.
  - destruct IH as (st1 & L1 & A1 & F1 & E1 & Hi1 & Ht1); [lia|].
    destruct (timed_waiting_tick _ _ _ _ _ _ _ _ Hi1 Ht1) as (st2 & L2 & A2 & F2 & E2 & Hi2 & H2).
    rewrite (proj2 (Z.leb_gt _ _)) in H2 by lia. exists st2, L2, A2, F2.
    rewrite timer_interrupts_S_r, E1. split_and!; [done..|].
    by replace (n - Z.of_nat (S m)) with (n - Z.of_nat m - 1) by lia.
Qed.

(** ** The end of a wait *)

Lemma timedwait_end_spec st L idle A F w ret :
  tw_inv st L idle A F → w ∉ F → w ≠ 0 →
  ∃ st', timedwait_end w ret st = Some (TwRet ret, st') ∧ tw_inv st' L idle (tremove w A) (F ++ [w]) ∧
    tw_sem st' = tw_sem st ∧ tw_clk st' = tw_clk st ∧ tw_pid st' = tw_pid st.
Proof.
  intros [Hi Hw Hp Hid] HF H0. unfold timedwait_end.
  destruct (wd_cancel_spec 1 _ _ _ w Hw ltac:(lia) HF) as (s1 & -> & Hw1 & _). cbn [mbind option_bind].
  destruct (wd_delete_spec 1 _ _ _ w Hw1 ltac:(lia) HF H0) as (s2 & -> & Hw2 & _). cbn [mbind option_bind].
  eexists. split; [done|]. split_and!; [|done..]. split; [done| |done|done]. cbn.
  rewrite (tremove_None (tremove w A)) in Hw2; [done|]. apply tremove_not_in. by eapply wd_repr_nodup.
Qed.
End Timed.
