(* ===== verification/SemTimedThms.v ===== *)
(** What [sem_timedwait] promises: its result on every branch, that a wait ends
    with ETIMEDOUT at the tick after the deadline and not before, and that a post
    in time ends it with success. *)

From stdpp Require Import base numbers functions gmap sorting list.
From S2P Require Import Prelude Queue Memory Sched SchedInv SchedThms SchedFields Sem SemThms SemSpec SemView.
From S2P Require Import Wdog WdogInv WdogOps WdogSpec WdogTimer WdogThms Calendar Clock Pid SemTimed.
From S2P Require Import SchedSpec.

Section Thms.
Context (entry : Z).
Implicit Types (st : twst) (L : tasklist → list Z) (A : list (Z * Z)) (F : list Z).

Lemma tw_inv_sem st s L L' idle A F : tw_inv st L idle A F → sem_inv s L' idle →
  (∀ y, flags (get (sch s) y) = flags (get (sch (tw_sem st)) y)) → tw_inv (with_sem s st) L' idle A F.
Proof. intros [Hi Hw Hp Hid] Hi' Hf. split; cbn; [done..|]. by rewrite Hf. Qed.

Lemma tw_inv_wd st w L idle A F A' F' : tw_inv st L idle A F → wd_repr 1 w A' F' → tw_inv (with_wd w st) L idle A' F'.
Proof. by intros [Hi Hw Hp Hid] Hw'. Qed.

Lemma tw_inv_errno st L idle A F v : tw_inv st L idle A F → tw_inv (with_sem (set_errno v (tw_sem st)) st) L idle A F.
Proof.
  intros Hi. eapply tw_inv_sem; [exact Hi|by apply set_errno_inv, Hi|]. intros y. by apply field_on_tcb.
Qed.

Lemma timedwait_fail_spec st L idle A F w err :
  tw_inv st L idle A F → w ∉ F → w ∉ A.*1 → w ≠ 0 →
  ∃ st', timedwait_fail w err st = Some (TwRet SemERROR, st') ∧ tw_inv st' L idle A (F ++ [w]) ∧
    pterrno (get (sch (tw_sem st')) (this_task (sch (tw_sem st)))) = err ∧
    ∀ sem, semcount (tw_sem st') sem = semcount (tw_sem st) sem.
Proof.
  intros Hi HF HA H0. unfold timedwait_fail.
  destruct (wd_delete_spec 1 _ _ _ w (ti_wd _ _ _ _ _ Hi) ltac:(lia) HF H0) as (s & -> & Hw & _).
  cbn [mbind option_bind]. rewrite (tremove_None A) in Hw by done. eexists. split; [done|]. split_and!; [|cbn|done].
  - eapply (tw_inv_errno (with_wd s st)), tw_inv_wd; done.
  - unfold get. cbn. by rewrite tcb_at_upd, decide_True.
Qed.

(** The calls of [sem_timedwait] that block. *)
Lemma timedwait_start_spec st L idle A F w sem ticks :
  let x := this_task (sch (tw_sem st)) in
  tw_inv st L idle A F → w ∉ F → w ∉ A.*1 → w ≠ 0 → sem ≠ 0 → x ≠ idle → live (tw_pid st) x →
  Z.of_nat (sched_fuel (sch (tw_sem st))) < ZMAX_WAITERS →
  (∀ y, y ∈ A.*1 → ¬ times_out entry (tw_pid st) x (wd_call (tw_wd st) y)) →
  0 ≤ ticks < INT_MAX → semcount (tw_sem st) sem ≤ 0 →
  ∃ wd s st' L', wd_start w ticks entry 1 [getpid (sch (tw_sem st)) (tw_pid st)] (tw_wd st) = Some (Wdog.OK, wd) ∧
    sem_wait sem (tw_sem st) = Some (SemBlocked, s) ∧ st' = with_sem s (with_wd wd st) ∧
    tw_inv st' L' idle (tinsert w (ticks + 1) A) F ∧ semcount s sem = semcount (tw_sem st) sem - 1 ∧
    L' g_waitingforsemaphore = pinsert (prio (tcbs (sch (tw_sem st)))) x (L g_waitingforsemaphore) ∧
    timed_waiting entry x w (ticks + 1) st' L' (tinsert w (ticks + 1) A).
Proof.
  intros x Hi HF HA H0 Hne Hid Hl Hfuel Ho Ht Hc. pose proof Hi as [Hs Hw Hp _].
  destruct (wd_start_spec 1 _ _ _ w ticks entry 1 [getpid (sch (tw_sem st)) (tw_pid st)] Hw ltac:(lia) HF H0) as (wd & E1 & Hw1 & Hcalls & Hcall & _);
    [lia|done|simpl; lia|].
  rewrite (tremove_None A), Z.min_l in Hw1 by (done || lia).
  destruct (sem_wait_abs _ _ _ sem Hs Hid Hfuel) as (r & s & L' & E2 & Hs' & Hr & Hcnt).
  rewrite (proj2 (Z.eqb_neq sem 0)), (proj2 (Z.ltb_ge 0 _)) in Hr by done. destruct Hr as [-> HL].
  destruct (sem_wait_effect _ _ _ _ E2 Hne) as (_ & _ & Hf & _ & He).
  exists wd, s, (with_sem s (with_wd wd st)), L'. split_and!; [done|done|done| |auto|done|].
  - eapply tw_inv_sem; [by eapply tw_inv_wd|done|done].
  - split; cbn.
    + rewrite HL. apply elem_of_pinsert. by left.
    + by apply He.
    + done.
    + rewrite remaining_tinsert by done. by rewrite Z.eqb_refl.
    + rewrite Hcall by lia. by split.
    + intros y Hy Hin. rewrite Hcalls by done. apply Ho.
      destruct (decide (y ∈ A.*1)) as [|Hno]; [done|]. apply remaining_None in Hno.
      assert (Hr : remaining (tinsert w (ticks + 1) A) y = None).
      { rewrite remaining_tinsert by done. by rewrite (proj2 (Z.eqb_neq w y)). }
      by apply remaining_None in Hr.
Qed.

Lemma sched_fuel_errno (s : semst) L idle v : sem_inv s L idle → sched_fuel (sch (set_errno v s)) = sched_fuel (sch s).
Proof. intros Hi. apply (sched_fuel_running _ L idle), Hi. Qed.

Lemma trywait_fail (s : semst) L idle sem : sem_inv s L idle → sem ≠ 0 → semcount s sem ≤ 0 →
  sem_trywait sem s = (SemERROR, set_errno EAGAIN (set_errno Sched.EINVAL s)).
Proof.
  intros Hi Hne Hc. unfold sem_trywait. rewrite (proj2 (Z.eqb_neq sem 0)), !semcount_errno by done.
  by rewrite (proj2 (Z.ltb_ge 0 _)).
Qed.

Lemma trywait_take (s : semst) L idle sem : sem_inv s L idle → sem ≠ 0 → 0 < semcount s sem →
  (sem_trywait sem s).1 = SemOK ∧ semcount (sem_trywait sem s).2 sem = semcount s sem - 1.
Proof.
  intros Hi Hne Hc. unfold sem_trywait. rewrite (proj2 (Z.eqb_neq sem 0)), !semcount_errno by done.
  rewrite (proj2 (Z.ltb_lt 0 _)) by done. split; [done|].
  change (semcount (snd (SemOK, sem_tcb _ _ ?s)) _) with (semcount s sem).
  rewrite semcount_set, decide_True by done. pose proof (sv_range _ _ _ Hi sem) as Hr. unfold SEM_VALUE_MAX in Hr.
  apply i16_small. lia.
Qed.

(** A deadline at least a tick away converts to the whole ticks before it. *)
Lemma deadline_ticks t now : Z.abs (t - now) < 2147 * NSEC_PER_SEC →
  let q := Z.quot ((t - now) / NSEC_PER_USEC) USEC_PER_TICK in
  if t <? now + NSEC_PER_TICK then q ≤ 0 else q = (t - now) / NSEC_PER_TICK ∧ 0 < (t - now) / NSEC_PER_TICK < INT_MAX.
Proof.
  intros Hd q. unfold NSEC_PER_SEC in Hd. change NSEC_PER_TICK with (1000 * 10000). unfold INT_MAX.
  set (d := t - now) in *. destruct (Z.ltb_spec t (now + 1000 * 10000)) as [H|H].
  - apply (Z.quot_le_mono (d / 1000) 9999 10000); [lia|]. enough (d / 1000 < 10000) by lia.
    apply Z.div_lt_upper_bound; lia.
  - assert (0 ≤ d / 1000) by (apply Z.div_pos; lia).
    change q with (Z.quot (d / 1000) 10000). rewrite Z.quot_div_nonneg, Z.div_div by lia.
    split; [done|]. split; [apply Z.div_str_pos; lia|apply Z.div_lt_upper_bound; lia].
Qed.

(** A call that failed with [err] and took nothing. *)
Definition failed st (x err sem : Z) (r : tw_ret) st' : Prop :=
  r = TwRet SemERROR ∧ pterrno (get (sch (tw_sem st')) x) = err ∧ semcount (tw_sem st') sem = semcount (tw_sem st) sem.

(** No watchdog that is running times the task [x] out. *)
Definition no_timeouts st A x : Prop := ∀ y, y ∈ A.*1 → ¬ times_out entry (tw_pid st) x (wd_call (tw_wd st) y).

(** The clock shows [now], and the deadline is less than 2147 seconds away. *)
Record clock_shows (c : clockst) (now : Z) (abstime : timespec) : Prop := {
  cs_time : ∃ base k, clock_since c base k ∧ ts_valid base ∧ 0 ≤ k ∧ k * MSEC_PER_TICK < 2 ^ 32 ∧
    now = nanos base + k * NSEC_PER_TICK;
  cs_range : now < 2 ^ 32 * NSEC_PER_SEC;
  cs_abs : 0 ≤ tv_sec abstime < 2 ^ 32 ∧ 0 ≤ tv_nsec abstime;
  cs_near : Z.abs (nanos abstime - now) < 2147 * NSEC_PER_SEC;
}.

Lemma deadline_spec (c : clockst) now abstime : clock_shows c now abstime → tv_nsec abstime ≤ NSEC_PER_SEC →
  ∃ q, clock_abstime2ticks CLOCK_REALTIME abstime c = (Clock.OK, Some q, c) ∧
    if nanos abstime <? now + NSEC_PER_TICK then q ≤ 0
    else q = (nanos abstime - now) / NSEC_PER_TICK ∧ 0 < q < INT_MAX.
Proof.
  intros [(base & k & Hck & Hb & Hk & Hkm & ->) Hr [Ha1 Ha2] Hd] Hns.
  rewrite (clock_abstime2ticks_spec _ base k) by done. eexists. split; [done|].
  pose proof (deadline_ticks _ _ Hd) as Hq. cbv zeta in Hq. case_match; [done|]. destruct Hq as [-> Hq]. done.
Qed.

(** The part of [sem_timedwait] behind a [sem_trywait] that failed. *)
Lemma timedwait_block_spec st L idle A F w sem abstime now :
  let x := this_task (sch (tw_sem st)) in
  tw_inv st L idle A F → w ∉ F → w ∉ A.*1 → w ≠ 0 → sem ≠ 0 → x ≠ idle → live (tw_pid st) x →
  Z.of_nat (sched_fuel (sch (tw_sem st))) < ZMAX_WAITERS → no_timeouts st A x →
  clock_shows (tw_clk st) now abstime → semcount (tw_sem st) sem ≤ 0 →
  ∃ r st' L' A' F', timedwait_block entry w sem abstime st = Some (r, st') ∧ tw_inv st' L' idle A' F' ∧
    if NSEC_PER_SEC <? tv_nsec abstime then
      failed st x Sched.EINVAL sem r st' ∧ L' = L ∧ A' = A ∧ F' = F ++ [w]
    else if nanos abstime <? now + NSEC_PER_TICK then
      failed st x ETIMEDOUT sem r st' ∧ L' = L ∧ A' = A ∧ F' = F ++ [w]
    else
      let n := (nanos abstime - now) / NSEC_PER_TICK + 1 in
      r = TwWaits w ∧ semcount (tw_sem st') sem = semcount (tw_sem st) sem - 1 ∧
      L' g_waitingforsemaphore = pinsert (prio (tcbs (sch (tw_sem st)))) x (L g_waitingforsemaphore) ∧
      timed_waiting entry x w n st' L' A' ∧ A' = tinsert w n A ∧ F' = F.
Proof.
  intros x Hi HwF HwA Hw0 Hne Hid Hl Hfuel Ho Hck Hneg. unfold timedwait_block.
  assert (Hfail : ∀ err, ∃ r st' L' A' F', timedwait_fail w err st = Some (r, st') ∧ tw_inv st' L' idle A' F' ∧
    failed st x err sem r st' ∧ L' = L ∧ A' = A ∧ F' = F ++ [w]).
  { intros err. destruct (timedwait_fail_spec st L idle A F w err Hi HwF HwA Hw0) as (st' & E & Hi' & He & Hc).
    exists (TwRet SemERROR), st', L, A, (F ++ [w]). unfold failed. rewrite Hc. done. }
  destruct (cs_abs _ _ _ Hck) as [Ha1 Ha2].
  rewrite (proj2 (Z.ltb_ge (tv_sec abstime) 0)) by lia. cbn [orb]. change 1000000000 with NSEC_PER_SEC.
  destruct (Z.ltb_spec NSEC_PER_SEC (tv_nsec abstime)) as [|Hns]; [by apply Hfail|].
  destruct (deadline_spec _ _ _ Hck Hns) as (q & -> & Hq). cbn [default from_option id].
  replace (with_clk (tw_clk st) st) with st by (by destruct st).
  destruct (nanos abstime <? now + NSEC_PER_TICK).
  - rewrite (proj2 (Z.leb_le _ _)) by done. by apply Hfail.
  - destruct Hq as [Eq Hq]. rewrite (proj2 (Z.leb_gt _ _)) by lia. cbn [Clock.OK Z.eqb andb negb].
    destruct (timedwait_start_spec st L idle A F w sem q) as (wd & s' & st' & L' & E3 & E4 & -> & Hi' & Hc & HL & Ht);
      try done; [lia|].
    rewrite E3. cbn [mbind option_bind]. change (tw_sem (with_wd wd st)) with (tw_sem st). rewrite E4. cbn [mbind option_bind].
    eexists _, _, L', _, F. split; [done|]. rewrite <-Eq. split_and!; done.
Qed.

(** The result of [sem_timedwait] on every branch. *)
Lemma sem_timedwait_abs st L idle A F sem abstime now :
  let x := this_task (sch (tw_sem st)) in
  tw_inv st L idle A F → sem ≠ 0 → x ≠ idle → live (tw_pid st) x →
  Z.of_nat (sched_fuel (sch (tw_sem st))) < ZMAX_WAITERS → no_timeouts st A x → clock_shows (tw_clk st) now abstime →
  ∃ r st' L' A' F', sem_timedwait entry sem abstime st = Some (r, st') ∧ tw_inv st' L' idle A' F' ∧
    match F with
    | [] => failed st x ENOMEM sem r st' ∧ L' = L ∧ A' = A ∧ F' = []
    | w :: F0 =>
        if 0 <? semcount (tw_sem st) sem then
          r = TwRet SemOK ∧ semcount (tw_sem st') sem = semcount (tw_sem st) sem - 1 ∧ L' = L ∧ A' = A ∧ F' = F0 ++ [w]
        else if NSEC_PER_SEC <? tv_nsec abstime then
          failed st x Sched.EINVAL sem r st' ∧ L' = L ∧ A' = A ∧ F' = F0 ++ [w]
        else if nanos abstime <? now + NSEC_PER_TICK then
          failed st x ETIMEDOUT sem r st' ∧ L' = L ∧ A' = A ∧ F' = F0 ++ [w]
        else
          let n := (nanos abstime - now) / NSEC_PER_TICK + 1 in
          r = TwWaits w ∧ semcount (tw_sem st') sem = semcount (tw_sem st) sem - 1 ∧
          L' g_waitingforsemaphore = pinsert (prio (tcbs (sch (tw_sem st)))) x (L g_waitingforsemaphore) ∧
          timed_waiting entry x w n st' L' A' ∧ A' = tinsert w n A ∧ F' = F0
    end.
Proof.
  intros x Hi Hne Hid Hl Hfuel Ho Hck. pose proof Hi as [Hs Hw Hp Hrr].
  unfold sem_timedwait. destruct (wd_create_spec _ _ _ _ Hw) as (w1 & -> & Hw1 & Hcalls).
  pose proof (wr_free _ _ _ _ Hw) as (_ & HndF & HF0 & _). destruct F as [|w F].
  { cbn [head default]. eexists _, _, L, A, []. split; [done|]. split; [|split_and!; try done].
    - apply (tw_inv_errno (with_wd w1 st)). by eapply tw_inv_wd.
    - unfold failed, get. cbn. by rewrite tcb_at_upd, decide_True. }
  change (default 0 (head (w :: F))) with w. cbn [tail] in Hw1.
  assert (Hw0 : w ≠ 0) by (intros ->; apply HF0; by left). apply NoDup_cons in HndF as [HwF _].
  assert (HwA : w ∉ A.*1) by (intros H; apply (wr_disj _ _ _ _ Hw w H); by left).
  rewrite (proj2 (Z.eqb_neq w 0)) by done. cbn [with_wd tw_sem].
  assert (Hi1 : tw_inv (with_wd w1 st) L idle A F) by by eapply tw_inv_wd.
  destruct (Z.ltb_spec 0 (semcount (tw_sem st) sem)) as [Hpos|Hneg].
  - destruct (trywait_take _ _ _ sem Hs Hne Hpos) as [Er Ec]. destruct (sem_trywait_abs _ _ _ sem Hs) as [Hs' _].
    pose proof (sem_trywait_flags sem (tw_sem st)) as Hf.
    destruct (sem_trywait sem (tw_sem st)) as [r s]. cbn [fst snd] in *. subst r. cbn [with_sem with_wd tw_wd].
    destruct (wd_delete_spec 1 _ _ _ w Hw1 ltac:(lia) HwF Hw0) as (w2 & -> & Hw2 & _). cbn [mbind option_bind].
    rewrite (tremove_None A) in Hw2 by done. eexists _, _, L, A, (F ++ [w]). split; [done|]. split_and!; try done.
    eapply tw_inv_wd; [|done]. by eapply (tw_inv_sem (with_wd w1 st)).
  - rewrite (trywait_fail _ _ _ _ Hs) by done.
    set (s := set_errno EAGAIN (set_errno Sched.EINVAL (tw_sem st))). set (st1 := with_sem s _).
    assert (Hi2 : tw_inv st1 L idle A F).
    { exact (tw_inv_errno _ _ _ _ _ EAGAIN (tw_inv_errno _ _ _ _ _ Sched.EINVAL Hi1)). }
    destruct (timedwait_block_spec st1 L idle A F w sem abstime now) as (r & st' & L' & A' & F' & E & Hi' & H); try done.
    { change (sch (tw_sem st1)) with (sch s). unfold s. rewrite (sched_fuel_errno _ L idle) by by apply set_errno_inv.
      by rewrite (sched_fuel_errno _ L idle). }
    { intros y Hy. change (wd_call (tw_wd st1) y) with (wd_call w1 y). rewrite (same_calls_call _ _ _ Hcalls). by apply Ho. }
    exists r, st', L', A', F'. split_and!; [done..|]. case_match; [done|]. case_match; [done|].
    destruct H as (-> & Hc & HL & H). split_and!; try apply H; try done.
    rewrite HL. apply pinsert_ext. intros y _. unfold prio. cbn. rewrite !tcb_at_upd. by repeat case_decide; subst.
Qed.
(** C10. sem_timedwait with a deadline less than 2147 seconds away (further ones wrap, a finding on
    clock_time2ticks) takes a semaphore that is available; it fails, taking nothing, with ENOMEM
    when no watchdog is free, with EINVAL when the nanoseconds exceed 10^9, and with ETIMEDOUT when
    the deadline is past or less than a tick ahead, up to a tick too early; otherwise it blocks the
    caller behind the waiting tasks of the same or a higher priority, and its watchdog expires on
    the first tick strictly after the deadline, a tick late when the deadline is on a tick. Every
    return puts the watchdog back in the pool. *)
Theorem sem_timedwait_correct st L idle A F sem abstime now :
  let x := this_task (sch (tw_sem st)) in
  tw_inv st L idle A F → sem ≠ 0 → x ≠ idle → live (tw_pid st) x →
  Z.of_nat (sched_fuel (sch (tw_sem st))) < ZMAX_WAITERS → no_timeouts st A x → clock_shows (tw_clk st) now abstime →
  ∃ r st' L' A' F', sem_timedwait entry sem abstime st = Some (r, st') ∧ tw_inv st' L' idle A' F' ∧
    match F with
    | [] => failed st x ENOMEM sem r st' ∧ L' = L ∧ A' = A ∧ F' = []
    | w :: F0 =>
        if 0 <? semcount (tw_sem st) sem then
          r = TwRet SemOK ∧ semcount (tw_sem st') sem = semcount (tw_sem st) sem - 1 ∧ L' = L ∧ A' = A ∧ F' = F0 ++ [w]
        else if NSEC_PER_SEC <? tv_nsec abstime then
          failed st x Sched.EINVAL sem r st' ∧ L' = L ∧ A' = A ∧ F' = F0 ++ [w]
        else if nanos abstime <? now + NSEC_PER_TICK then
          failed st x ETIMEDOUT sem r st' ∧ L' = L ∧ A' = A ∧ F' = F0 ++ [w]
        else
          let n := (nanos abstime - now) / NSEC_PER_TICK + 1 in
          r = TwWaits w ∧ semcount (tw_sem st') sem = semcount (tw_sem st) sem - 1 ∧
          L' g_waitingforsemaphore = pinsert (prio (tcbs (sch (tw_sem st)))) x (L g_waitingforsemaphore) ∧
          timed_waiting entry x w n st' L' A' ∧ A' = tinsert w n A ∧ F' = F0
    end.
Proof. exact (sem_timedwait_abs st L idle A F sem abstime now). Qed.

(** C7. A task that waits in sem_timedwait with n ticks left, and whose semaphore nobody posts,
    still waits after each of the first n-1 timer interrupts, whatever other timeouts and time
    slices they carry out; the n-th makes it ready or pending with errno ETIMEDOUT, and its call
    then returns ERROR and puts the watchdog back in the pool. *)
Theorem sem_timedwait_times_out st L idle A F x w n :
  tw_inv st L idle A F → timed_waiting entry x w (Z.of_nat n) st L A →
  (∀ m, (m < n)%nat → ∃ st' L', timer_interrupts entry m st = Some st' ∧
     sem_inv (tw_sem st') L' idle ∧ x ∈ L' g_waitingforsemaphore) ∧
  ∃ st' L' A' F' st'', timer_interrupts entry n st = Some st' ∧ tw_inv st' L' idle A' F' ∧
    runnable L' x ∧ pterrno (get (sch (tw_sem st')) x) = ETIMEDOUT ∧
    sem_timedwait_resume x w st' = Some (TwRet SemERROR, st'') ∧ tw_inv st'' L' idle (tremove w A') (F' ++ [w]).
Proof.
  intros Hi Ht. split.
  - intros m Hm. destruct (timed_waiting_ticks entry m _ _ _ _ _ _ _ _ Hi Ht) as (st' & L' & A' & F' & E & Hi' & Ht'); [lia|].
    exists st', L'. split_and!; [done|apply Hi'|apply Ht'].
  - assert (Hn : 1 ≤ Z.of_nat n).
    { apply (remaining_ge 1 A w); [apply Hi|apply Ht]. }
    destruct n as [|n]; [lia|].
    destruct (timed_waiting_ticks entry n _ _ _ _ _ _ _ _ Hi Ht) as (st1 & L1 & A1 & F1 & E1 & Hi1 & Ht1); [lia|].
    destruct (timed_waiting_tick entry _ _ _ _ _ _ _ _ Hi1 Ht1) as (st2 & L2 & A2 & F2 & E2 & Hi2 & H2).
    rewrite (proj2 (Z.leb_le _ _)) in H2 by lia. destruct H2 as ([Hr He] & HwF & Hw0).
    destruct (timedwait_end_spec _ _ _ _ _ w SemERROR Hi2 HwF Hw0) as (st3 & E3 & Hi3 & _).
    exists st2, L2, A2, F2, st3. rewrite timer_interrupts_S_r, E1. split_and!; try done.
    unfold sem_timedwait_resume, sem_wait_resume. by rewrite He.
Qed.

(** When the semaphore is posted before the deadline and the task is the first that waits for
    it, the task becomes ready or pending and its sem_timedwait returns OK, stops its watchdog and
    puts it back in the pool. *)
Theorem sem_timedwait_posted st L idle A F x w n :
  tw_inv st L idle A F → timed_waiting entry x w n st L A →
  let sem := waitsem (get (sch (tw_sem st)) x) in
  head (waiting (tcbs (sch (tw_sem st))) L sem) = Some x →
  ∃ s L' st', sem_post sem (tw_sem st) = Some (SemOK, s) ∧ runnable L' x ∧
    semcount s sem = semcount (tw_sem st) sem + 1 ∧
    sem_timedwait_resume x w (with_sem s st) = Some (TwRet SemOK, st') ∧
    tw_inv st' L' idle (tremove w A) (F ++ [w]).
Proof.
  intros Hi Ht sem Hh. pose proof Hi as [Hs Hw _ _]. pose proof Ht as [Hwt Hz _ Hr _ _].
  assert (Hne : sem ≠ 0) by by apply (sv_waits _ _ _ Hs).
  destruct (watched_not_free _ _ _ _ _ _ Hw Hr) as [HwF Hw0].
  assert (Hc : semcount (tw_sem st) sem < SEM_VALUE_MAX).
  { pose proof (sv_count _ _ _ Hs sem Hne) as Hc. unfold SEM_VALUE_MAX.
    destruct (waiting (tcbs (sch (tw_sem st))) L sem); [done|simpl in Hc; lia]. }
  destruct (sem_post_abs _ _ _ sem Hs Hne Hc) as (s & L' & E & Hs' & Hcnt & H).
  destruct (waiting (tcbs (sch (tw_sem st))) L sem) as [|y W]; [done|]. injection Hh as ->. destruct H as [HL He].
  assert (Hi' : tw_inv (with_sem s st) L' idle A F).
  { eapply tw_inv_sem; [done|done|]. intros y. by apply (sem_post_others _ _ _ _ E). }
  destruct (timedwait_end_spec _ _ _ _ _ w SemOK Hi' HwF Hw0) as (st' & E' & Hi2 & _).
  exists s, L', st'. split_and!; [done| |done| |done].
  - rewrite HL. apply elem_of_add_ready. by left.
  - unfold sem_timedwait_resume, sem_wait_resume. cbn [with_sem tw_sem]. by rewrite He, Hz.
Qed.
End Thms.

(** ** A concrete system *)

(** [taskA] of [sched0] runs with process ID 1; nobody has taken the semaphore at
    0x70, the clock shows 6.02 s and all watchdogs are free. *)
Definition entry0 : Z := 0x8000.
Definition tw0 : twst := mk_tw sem0 wd0 (mk_clock 107 100 (mk_ts 5 950000000) 0) (task_assignpid taskA pid0).2.

Lemma tw0_pid : pid_inv (tw_pid tw0) ∧ live (tw_pid tw0) taskA.
Proof.
  assert (Hn : ¬ live pid0 taskA).
  { intros (_ & h & Hh). revert Hh. unfold pid0, pid_initialize. rewrite pidhash_at_set. by case_decide. }
  destruct (assigned_inv pid0 taskA 1 pid0_inv) as (Hi & _ & Hl & _); [done|done|by vm_compute|by vm_compute|].
  split; [exact Hi|]. apply Hl. by left.
Qed.

Lemma tw0_inv : tw_inv tw0 lists0 idle0 [] (wd_pool 0x1000).
Proof.
  split; [apply sem0_inv| |apply tw0_pid|by vm_compute].
  apply wd_initialize_repr; [lia|]. intros y. reflexivity.
Qed.

Lemma tw0_clock : clock_shows (tw_clk tw0) 6020000000 (mk_ts 6 50000000).
Proof.
  split; [|by vm_compute|by vm_compute|by vm_compute].
  exists (mk_ts 5 950000000), 7. split_and!; by vm_compute.
Qed.

(** [taskA] waits until 6.05 s. *)
Definition tw1 : twst := default tw0 (snd <$> sem_timedwait entry0 0x70 (mk_ts 6 50000000) tw0).

Lemma tw1_waiting : ∃ L A F, tw_inv tw1 L idle0 A F ∧ timed_waiting entry0 taskA 0x1000 4 tw1 L A ∧
  L g_waitingforsemaphore = [taskC; taskA].
Proof.
  destruct (sem_timedwait_abs entry0 tw0 lists0 idle0 [] (wd_pool 0x1000) 0x70 (mk_ts 6 50000000) 6020000000)
    as (r & st' & L' & A' & F' & E & Hi' & H);
    [apply tw0_inv|done|done|apply tw0_pid|by vm_compute|by intros y ?%not_elem_of_nil|apply tw0_clock|].
  assert (E1 : tw1 = st') by (unfold tw1; by rewrite E).
  rewrite E1. exists L', A', F'. cbn [wd_pool] in H. destruct H as (_ & _ & HL & Ht & _ & _).
  split_and!; [done|exact Ht|]. rewrite HL. by vm_compute.
Qed.

Lemma sem_timedwait_correct_witness : ∃ st' L', sem_timedwait entry0 0x70 (mk_ts 6 50000000) tw0 = Some (TwWaits 0x1000, st') ∧
  semcount (tw_sem st') 0x70 = -1 ∧ L' g_waitingforsemaphore = [taskC; taskA] ∧
  timed_waiting entry0 taskA 0x1000 4 st' L' [(0x1000, 4)].
Proof.
  destruct (sem_timedwait_correct entry0 tw0 lists0 idle0 [] (wd_pool 0x1000) 0x70 (mk_ts 6 50000000) 6020000000)
    as (r & st' & L' & A' & F' & E & Hi' & H);
    [apply tw0_inv|done|done|apply tw0_pid|by vm_compute|by intros y ?%not_elem_of_nil|apply tw0_clock|].
  cbn [wd_pool] in H. destruct H as (-> & Hc & HL & Ht & -> & _).
  exists st', L'. split_and!; [exact E|exact Hc| |exact Ht]. rewrite HL. by vm_compute.
Defined.

Lemma sem_timedwait_times_out_witness : ∃ st' st'', timer_interrupts entry0 4 tw1 = Some st' ∧
  sem_timedwait_resume taskA 0x1000 st' = Some (TwRet SemERROR, st'').
Proof.
  destruct tw1_waiting as (L & A & F & Hi & Ht & _).
  destruct (sem_timedwait_times_out entry0 tw1 L idle0 A F taskA 0x1000 4 Hi Ht) as (_ & st' & _ & _ & _ & st'' & E & _ & _ & _ & E2 & _).
  eauto.
Defined.

Lemma sem_timedwait_posted_witness : ∃ s st', sem_post 0x70 (tw_sem tw1) = Some (SemOK, s) ∧
  sem_timedwait_resume taskA 0x1000 (with_sem s tw1) = Some (TwRet SemOK, st').
Proof.
  destruct tw1_waiting as (L & A & F & Hi & Ht & HL).
  assert (Hw : waitsem (get (sch (tw_sem tw1)) taskA) = 0x70) by by vm_compute.
  destruct (sem_timedwait_posted entry0 tw1 L idle0 A F taskA 0x1000 4 Hi Ht) as (s & L' & st' & E & _ & _ & E2 & _).
  - rewrite Hw. unfold waiting. rewrite HL. by vm_compute.
  - rewrite Hw in E. eauto.
Defined.

(** Nanoseconds of 10^9, and negative ones, are accepted, and the caller waits. *)
Lemma sem_timedwait_nanoseconds :
  fst <$> sem_timedwait entry0 0x70 (mk_ts 6 1000000000) tw0 = Some (TwWaits 0x1000) ∧
  fst <$> sem_timedwait entry0 0x70 (mk_ts 7 (-1)) tw0 = Some (TwWaits 0x1000).
Proof. by vm_compute. Qed.
