(* ===== verification/Mutex.v ===== *)
(** Mutexes: sched/pthread_mutexinit.c, pthread_mutexlock.c, pthread_mutextrylock.c,
    pthread_mutexunlock.c, pthread_mutexdestroy.c and the two functions of
    pthread_initialize.c that take and give their semaphores.

    A [pthread_mutex_t] is its record and, four bytes behind, its semaphore.  The
    parameter [mutex_types] is CONFIG_MUTEX_TYPES: whether there are recursive
    mutexes.  A call that waits answers [MxWaits];
    [pthread_mutex_lock_resume] is what it does when its caller runs again. *)

From stdpp Require Import base numbers functions gmap sorting list.
From S2P Require Import Prelude Queue Memory Sched Sem Pid.

Definition EPERM : Z := 1.
Definition EBUSY : Z := 16.
Definition EDEADLK : Z := 35.
Definition ERROR : Z := -1.
Definition PTHREAD_MUTEX_DEFAULT : Z := 0.
Definition PTHREAD_MUTEX_RECURSIVE : Z := 2.

(** [struct pthread_mutex_s] without its semaphore. *)
Record mutex_t := mk_mutex { m_pid : Z; m_type : Z; m_nlocks : Z }.

Definition with_mpid v x := mk_mutex v (m_type x) (m_nlocks x).
Definition with_mtype v x := mk_mutex (m_pid x) (v mod 2 ^ 8) (m_nlocks x).
Definition with_nlocks v x := mk_mutex (m_pid x) (m_type x) (i32 v).

(** The address of the semaphore of a mutex. *)
Definition msem (mutex : Z) : Z := mutex + 4.

Record mxst := mk_mx { mx_sem : semst; mx_pids : pidst; mutexes : gmap Z mutex_t }.

Definition mutex_at (st : mxst) (m : Z) : mutex_t := default (mk_mutex 0 0 0) (mutexes st !! m).
Definition on_mutex (m : Z) (f : mutex_t → mutex_t) (st : mxst) : mxst :=
  mk_mx (mx_sem st) (mx_pids st) (<[m := f (mutex_at st m)]> (mutexes st)).
Definition with_semst (s : semst) (st : mxst) : mxst := mk_mx s (mx_pids st) (mutexes st).

Definition mx_sched (st : mxst) : sched := sch (mx_sem st).
Definition on_sched (f : sched → option sched) (st : mxst) : option mxst :=
  s ← f (mx_sched st); Some (with_semst (with_sched (mx_sem st) s) st).
Definition mx_getpid (st : mxst) : Z := getpid (mx_sched st) (mx_pids st).

(** The result of a call, or nothing yet. *)
Inductive mx_ret := MxRet (ret : Z) | MxWaits.

(** ** pthread_initialize.c *)

Definition get_errno (st : semst) : Z := pterrno (get (sch st) (this_task (sch st))).

(** [while (sem_wait(sem) != OK)]; only a wait that was interrupted is repeated. *)
Fixpoint takesemaphore_loop (fuel : nat) (sem : Z) (st : semst) : option (sem_ret * semst) :=
  match fuel with
  | O => None
  | S fuel =>
      '(ret, st) ← sem_wait sem st;
      match ret with
      | SemERROR =>
          if negb (get_errno st =? EINTR) then Some (SemERROR, set_errno EINVAL st)
          else takesemaphore_loop fuel sem st
      | _ => Some (ret, st)
      end
  end.

Definition pthread_takesemaphore (sem : Z) (st : semst) : option (sem_ret * semst) :=
  if negb (sem =? 0) then takesemaphore_loop 1 sem st else Some (SemERROR, set_errno EINVAL st).

(** The caller, which runs again, was waiting in [sem_wait]. *)
Definition pthread_takesemaphore_resume (sem : Z) (st : semst) : option (sem_ret * semst) :=
  match sem_wait_resume (this_task (sch st)) st with
  | SemERROR =>
      if negb (get_errno st =? EINTR) then Some (SemERROR, set_errno EINVAL st)
      else takesemaphore_loop 1 sem st
  | ret => Some (ret, st)
  end.

Definition pthread_givesemaphore (sem : Z) (st : semst) : option (sem_ret * semst) :=
  if negb (sem =? 0) then
    '(ret, st) ← sem_post sem st;
    match ret with
    | SemOK => Some (SemOK, st)
    | _ => Some (SemERROR, set_errno EINVAL st)
    end
  else Some (SemERROR, set_errno EINVAL st).

Section Mutex.
Variable mutex_types : bool.

Definition set_nlocks (m v : Z) (st : mxst) : mxst := if mutex_types then on_mutex m (with_nlocks v) st else st.

(** ** pthread_mutexinit.c: [attr] is the type, if there are attributes *)

Definition pthread_mutex_init (mutex : Z) (attr : option Z) (st : mxst) : Z * mxst :=
  if mutex =? 0 then (EINVAL, st) else
  let type := default PTHREAD_MUTEX_DEFAULT attr in
  let st := on_mutex mutex (with_mpid 0) st in
  let '(status, s) := sem_init (msem mutex) 1 (mx_sem st) in
  let st := with_semst s st in
  let ret := match status with SemOK => 0 | _ => EINVAL end in
  let st := if mutex_types then on_mutex mutex (with_mtype type) st else st in
  (ret, set_nlocks mutex 0 st).

(** ** pthread_mutexlock.c *)

(** What follows the semaphore. *)
Definition mutex_lock_end (mutex : Z) (ret : sem_ret) (st : mxst) : option (mx_ret * mxst) :=
  match ret with
  | SemBlocked => Some (MxWaits, st)
  | SemOK =>
      let st := on_mutex mutex (with_mpid (mx_getpid st)) st in
      let st := set_nlocks mutex 1 st in
      st ← on_sched (sched_unlock false) st;
      Some (MxRet 0, st)
  | SemERROR => st ← on_sched (sched_unlock false) st; Some (MxRet ERROR, st)
  end.

Definition pthread_mutex_lock (mutex : Z) (st : mxst) : option (mx_ret * mxst) :=
  let mypid := mx_getpid st in
  if mutex =? 0 then Some (MxRet EINVAL, st) else
  st ← on_sched (sched_lock false) st;
  if m_pid (mutex_at st mutex) =? mypid then
    let '(ret, st) :=
      if mutex_types && (m_type (mutex_at st mutex) =? PTHREAD_MUTEX_RECURSIVE)
      then (0, set_nlocks mutex (m_nlocks (mutex_at st mutex) + 1) st) else (EDEADLK, st) in
    st ← on_sched (sched_unlock false) st;
    Some (MxRet ret, st)
  else
    '(ret, s) ← pthread_takesemaphore (msem mutex) (mx_sem st);
    mutex_lock_end mutex ret (with_semst s st).

Definition pthread_mutex_lock_resume (mutex : Z) (st : mxst) : option (mx_ret * mxst) :=
  '(ret, s) ← pthread_takesemaphore_resume (msem mutex) (mx_sem st);
  mutex_lock_end mutex ret (with_semst s st).

(** ** pthread_mutextrylock.c *)

Definition pthread_mutex_trylock (mutex : Z) (st : mxst) : option (Z * mxst) :=
  if mutex =? 0 then Some (EINVAL, st) else
  st ← on_sched (sched_lock false) st;
  let '(ret, s) := sem_trywait (msem mutex) (mx_sem st) in
  let st := with_semst s st in
  let '(ret, st) :=
    match ret with
    | SemOK => (0, on_mutex mutex (with_mpid (mx_getpid st)) st)
    | _ => (if get_errno (mx_sem st) =? EAGAIN then EBUSY else EINVAL, st)
    end in
  st ← on_sched (sched_unlock false) st;
  Some (ret, st).

(** ** pthread_mutexunlock.c *)

Definition pthread_mutex_unlock (mutex : Z) (st : mxst) : option (Z * mxst) :=
  if mutex =? 0 then Some (EINVAL, st) else
  st ← on_sched (sched_lock false) st;
  '(ret, st) ←
    (if negb (m_pid (mutex_at st mutex) =? mx_getpid st) then Some (EPERM, st)
     else if mutex_types && (m_type (mutex_at st mutex) =? PTHREAD_MUTEX_RECURSIVE) &&
             (1 <? m_nlocks (mutex_at st mutex))
     then Some (0, set_nlocks mutex (m_nlocks (mutex_at st mutex) - 1) st)
     else
       let st := on_mutex mutex (with_mpid 0) st in
       let st := set_nlocks mutex 0 st in
       '(ret, s) ← pthread_givesemaphore (msem mutex) (mx_sem st);
       Some (match ret with SemOK => 0 | _ => ERROR end, with_semst s st));
  st ← on_sched (sched_unlock false) st;
  Some (ret, st).

(** ** pthread_mutexdestroy.c *)

Definition pthread_mutex_destroy (mutex : Z) (st : mxst) : option (Z * mxst) :=
  if mutex =? 0 then Some (EINVAL, st) else
  st ← on_sched (sched_lock false) st;
  let '(ret, st) :=
    if negb (m_pid (mutex_at st mutex) =? 0) then (EBUSY, st)
    else
      let '(status, s) := sem_destroy (msem mutex) (mx_sem st) in
      (match status with SemOK => 0 | _ => EINVAL end, with_semst s st) in
  st ← on_sched (sched_unlock false) st;
  Some (ret, st).
End Mutex.
