(* ===== verification/MutexInv.v ===== *)
(** The invariant of mutexes: who holds each of them.

    A configuration is a state, the calls of [pthread_mutex_lock] that wait (by
    task), and how many locks each task holds of each mutex, counted from the
    results of its calls.  Every mutex has one token: it is free, granted to a
    task that was woken and has not run yet, or held by a task. *)

From stdpp Require Import base numbers functions gmap sorting list.
From S2P Require Import Prelude Queue Memory Sched SchedInv SchedThms Sem SemThms SemSpec SemView Pid Mutex.

Inductive token := Free | Granted (x : Z) | Held (x : Z).
#[global] Instance token_eq_dec : EqDecision token.
Proof. solve_decision. Defined.

Record cfg := mk_cfg { c_st : mxst; c_in : gmap Z Z; c_held : Z * Z → nat }.

Definition INT_MAX : Z := 2 ^ 31 - 1.

Section Inv.
Context (mutex_types : bool).
Implicit Types (s : semst) (p : pidst) (mt : gmap Z mutex_t) (I : gmap Z Z) (H : Z * Z → nat) (o : Z → token).

Definition recursive (e : mutex_t) : bool := mutex_types && (m_type e =? PTHREAD_MUTEX_RECURSIVE).

(** The locks that the holder of a mutex holds. *)
Definition depth (e : mutex_t) : nat := if recursive e then Z.to_nat (m_nlocks e) else 1%nat.

Definition unheld H (m : Z) (P : Z → Prop) : Prop := ∀ y, P y → H (y, m) = 0%nat.

Definition tok_ok s p I H (m : Z) (e : mutex_t) (t : token) : Prop :=
  match t with
  | Free => semcount s (msem m) = 1 ∧ m_pid e = 0 ∧ unheld H m (λ _, True)
  | Granted x => semcount s (msem m) ≤ 0 ∧ m_pid e = 0 ∧ I !! x = Some m ∧ unheld H m (λ _, True)
  | Held x => semcount s (msem m) ≤ 0 ∧ live p x ∧ pid_of p x ≠ 0 ∧ m_pid e = pid_of p x ∧
      unheld H m (λ y, y ≠ x) ∧ H (x, m) = depth e ∧ (recursive e = true → 1 ≤ m_nlocks e ≤ INT_MAX)
  end.

Definition stranger o (x m : Z) : Prop := o m ≠ Granted x ∧ o m ≠ Held x.

(** A task inside [pthread_mutex_lock]: it waits, or it was woken with the mutex
    or by a signal. *)
Definition in_ok s o (x m : Z) : Prop :=
  (wsem s x = msem m ∧ errno_of s x = 0 ∧ stranger o x m) ∨
  (wsem s x = 0 ∧ errno_of s x = 0 ∧ o m = Granted x) ∨
  (wsem s x = 0 ∧ errno_of s x = EINTR ∧ stranger o x m).

Record tok_inv s p mt I H o : Prop := {
  ti_addr : ∀ m, is_Some (mt !! m) → 0 < m;
  ti_in : ∀ x m, I !! x = Some m → is_Some (mt !! m) ∧ live p x ∧ pid_of p x ≠ 0 ∧ in_ok s o x m;
  ti_wait : ∀ x m, is_Some (mt !! m) → wsem s x = msem m → I !! x = Some m;
  ti_tok : ∀ m e, mt !! m = Some e → tok_ok s p I H m e (o m);
}.

(** Operations that concern no mutex. *)
Lemma tok_frame s s' p mt I H o : tok_inv s p mt I H o →
  (∀ m, is_Some (mt !! m) → semcount s' (msem m) = semcount s (msem m)) →
  (∀ y, is_Some (I !! y) → wsem s' y = wsem s y ∧ errno_of s' y = errno_of s y) →
  (∀ y m, is_Some (mt !! m) → wsem s' y = msem m → wsem s y = msem m) →
  tok_inv s' p mt I H o.
Proof.
  intros [Ha Hi Hw Ht] Hc Hy Hm. split; [done| | |].
  - intros x m Hx. destruct (Hi x m Hx) as (? & ? & ? & Hok). destruct (Hy x) as [E1 E2]; [done|].
    unfold in_ok. by rewrite E1, E2.
  - intros x m Hs Hx. by apply Hw, Hm.
  - intros m e Hm'. pose proof (Ht m e Hm') as Hok. unfold tok_ok in *. by rewrite Hc.
Qed.

Lemma tok_view s s' p mt I H o : same_view s s' → tok_inv s p mt I H o → tok_inv s' p mt I H o.
Proof. intros [H1 H2 H3] Hi. apply (tok_frame s); [done|by intros|by intros|intros y m _; by rewrite H2]. Qed.

Lemma msem_inj m m' : msem m = msem m' ↔ m = m'.
Proof. unfold msem. lia. Qed.

(** The token of a mutex that an operation does not concern. *)
Lemma tok_ok_frame s s' p I I' H H' m e t : tok_ok s p I H m e t →
  semcount s' (msem m) = semcount s (msem m) → (∀ y, H' (y, m) = H (y, m)) →
  (∀ z, t = Granted z → I' !! z = Some m) → tok_ok s' p I' H' m e t.
Proof.
  intros Hok Hc HH HI. unfold tok_ok, unheld in *. rewrite Hc. destruct t as [|z|z]; rewrite ?HH.
  - split_and!; [apply Hok..|]. intros y Hy. rewrite HH. by apply Hok.
  - split_and!; [apply Hok..|by apply HI|]. intros y Hy. rewrite HH. by apply Hok.
  - destruct Hok as (? & ? & ? & ? & HU & ? & ?). split_and!; try done. intros y Hy. rewrite HH. by apply HU.
Qed.

Lemma held_other H x m m' v y : m' ≠ m → (<[(x, m) := v]> H) (y, m') = H (y, m').
Proof. intros Hne. apply fn_lookup_insert_ne. congruence. Qed.

Lemma mutex_dom m (e : mutex_t) mt m' : is_Some (mt !! m) → is_Some (<[m := e]> mt !! m') ↔ is_Some (mt !! m').
Proof. intros Hm. destruct (decide (m' = m)) as [->|]; [rewrite lookup_insert_eq|by rewrite lookup_insert_ne]. by split. Qed.

(** The mutex changes hands from nobody to [x]. *)
Lemma tok_acquire s s' p mt I H o x m e e' :
  tok_inv s p mt I H o → mt !! m = Some e → o m = Free ∨ o m = Granted x →
  live p x → pid_of p x ≠ 0 → I !! x = None ∨ I !! x = Some m → wsem s x = 0 →
  point (semcount s) (semcount s') (msem m) 0 ∨ (o m = Granted x ∧ ∀ k, semcount s' k = semcount s k) →
  (∀ y, wsem s' y = wsem s y) → (∀ y, y ≠ x → errno_of s' y = errno_of s y) →
  m_pid e' = pid_of p x → depth e' = 1%nat → (recursive e' = true → 1 ≤ m_nlocks e' ≤ INT_MAX) →
  tok_inv s' p (<[m := e']> mt) (delete x I) (<[(x, m) := 1%nat]> H) (<[m := Held x]> o).
Proof.
  intros [Ha Hi Hw Ht] Hm Ho Hl Hp HI Hwx Hc Hws He Hpid Hd Hr.
  pose proof (Ht m e Hm) as Hok.
  assert (Hun : unheld H m (λ _, True)) by (destruct Ho as [E|E]; rewrite E in Hok; apply Hok).
  assert (Hc0 : semcount s' (msem m) ≤ 0).
  { destruct Hc as [Hc|[E Hc]]; [by rewrite Hc, decide_True|]. rewrite E in Hok. rewrite Hc. apply Hok. }
  assert (Hck : ∀ m', m' ≠ m → semcount s' (msem m') = semcount s (msem m')).
  { intros m' Hne. destruct Hc as [Hc|[_ Hc]]; [|done]. rewrite Hc, decide_False; [done|]. by rewrite msem_inj. }
  assert (Hin : ∀ m', is_Some (<[m := e']> mt !! m') ↔ is_Some (mt !! m')) by (intros; by apply mutex_dom; eexists).
  split.
  - intros m' Hs. apply Ha. by apply Hin.
  - intros y m' [Hne Hy]%lookup_delete_Some. destruct (Hi y m' Hy) as (Hs & Hly & Hpy & Hoky). split_and!; [|done|done|].
    { by apply Hin. }
    unfold in_ok, stranger in *. rewrite Hws, He by congruence. destruct (decide (m' = m)) as [->|Hm'].
    + rewrite fn_lookup_insert. assert (o m ≠ Granted y) by (destruct Ho; congruence). naive_solver congruence.
    + by rewrite fn_lookup_insert_ne.
  - intros y m' Hs%Hin. rewrite Hws. intros Hy. pose proof (Hw y m' Hs Hy) as HIy. rewrite lookup_delete_ne; [done|].
    intros <-. pose proof (Ha m' Hs). unfold msem in Hy. lia.
  - intros m' e1. destruct (decide (m' = m)) as [->|Hm'].
    + rewrite lookup_insert_eq. intros [= <-]. rewrite fn_lookup_insert. split_and!; try done.
      * intros y Hy. rewrite fn_lookup_insert_ne; [by apply Hun|congruence].
      * by rewrite fn_lookup_insert.
    + rewrite lookup_insert_ne by done. intros Hm1. rewrite fn_lookup_insert_ne by done.
      apply (tok_ok_frame s _ _ I _ H); [by apply Ht|by apply Hck|intros y; by apply held_other|].
      intros z Ez. pose proof (Ht m' e1 Hm1) as Hz. rewrite Ez in Hz. destruct Hz as (_ & _ & Hz & _).
      rewrite lookup_delete_ne; [done|]. intros <-. destruct HI; congruence.
Qed.

(** [x] waits. *)
Lemma tok_block s s' p mt I H o x m e :
  tok_inv s p mt I H o → mt !! m = Some e → stranger o x m →
  live p x → pid_of p x ≠ 0 → I !! x = None ∨ I !! x = Some m →
  semcount s (msem m) ≤ 0 → point (semcount s) (semcount s') (msem m) (semcount s (msem m) - 1) →
  point (wsem s) (wsem s') x (msem m) → errno_of s' x = 0 → (∀ y, y ≠ x → errno_of s' y = errno_of s y) →
  tok_inv s' p mt (<[x := m]> I) H o.
Proof.
  intros [Ha Hi Hw Ht] Hm Ho Hl Hp HI Hc0 Hc Hws He0 He. pose proof Ho as [Hog _]. split; [done| | |].
  - intros y m' Hy. destruct (decide (y = x)) as [->|Hne].
    + rewrite lookup_insert_eq in Hy. injection Hy as <-. split_and!; [by eexists|done|done|].
      left. by rewrite Hws, decide_True.
    + rewrite lookup_insert_ne in Hy by done. unfold in_ok. rewrite Hws, decide_False, He by done. by apply Hi.
  - intros y m' Hs Hy. rewrite Hws in Hy. destruct (decide (y = x)) as [->|Hne].
    + apply msem_inj in Hy as ->. apply lookup_insert_eq.
    + rewrite lookup_insert_ne by done. by apply Hw.
  - intros m' e' Hm'. pose proof (Ht m' e' Hm') as Hok. destruct (decide (m' = m)) as [->|Hne].
    + unfold tok_ok in *. rewrite Hc, decide_True by done. destruct (o m) as [|z|z].
      * lia.
      * destruct Hok as (? & ? & Hz & ?). split_and!; [lia|done| |done]. rewrite lookup_insert_ne; [done|congruence].
      * destruct Hok as (? & Hok). split; [lia|done].
    + apply (tok_ok_frame s _ _ I _ H); [done| |done|].
      { rewrite Hc, decide_False; [done|]. by rewrite msem_inj. }
      intros z Ez. rewrite Ez in Hok. destruct Hok as (_ & _ & Hz & _). rewrite lookup_insert_ne; [done|].
      intros <-. destruct HI; congruence.
Qed.

(** The holder takes or gives back a lock of a recursive mutex. *)
Lemma tok_relock s p mt I H o x m e e' :
  tok_inv s p mt I H o → mt !! m = Some e → o m = Held x → m_pid e' = m_pid e →
  recursive e' = true → 1 ≤ m_nlocks e' ≤ INT_MAX →
  tok_inv s p (<[m := e']> mt) I (<[(x, m) := depth e']> H) o.
Proof.
  intros [Ha Hi Hw Ht] Hm Ho Hpid Hr Hn.
  assert (Hin : ∀ m', is_Some (<[m := e']> mt !! m') ↔ is_Some (mt !! m')) by (intros; by apply mutex_dom; eexists).
  split.
  - intros m' Hs. by apply Ha, Hin.
  - intros y m' Hy. rewrite Hin. by apply Hi.
  - intros y m' Hs. rewrite Hin in Hs. by apply Hw.
  - intros m' e1. destruct (decide (m' = m)) as [->|Hne].
    + rewrite lookup_insert_eq. intros [= <-]. pose proof (Ht m e Hm) as Hok. rewrite Ho in *.
      destruct Hok as (? & ? & ? & ? & HU & _ & _). split_and!; try done; [congruence| |by rewrite fn_lookup_insert].
      intros y Hy. rewrite fn_lookup_insert_ne by congruence. by apply HU.
    + rewrite lookup_insert_ne by done. intros Hm1. pose proof (Ht m' e1 Hm1) as Hok.
      eapply tok_ok_frame; [done|done|intros y; by apply held_other|]. intros z Ez. rewrite Ez in Hok. apply Hok.
Qed.

(** The holder releases the mutex to the first task that waits, if any. *)
Lemma tok_release s s' p mt I H o x m e e' (w : option Z) :
  tok_inv s p mt I H o → mt !! m = Some e → o m = Held x → m_pid e' = 0 →
  point (semcount s) (semcount s') (msem m) (semcount s (msem m) + 1) → (∀ y, errno_of s' y = errno_of s y) →
  match w with
  | Some y => semcount s (msem m) < 0 ∧ wsem s y = msem m ∧ point (wsem s) (wsem s') y 0
  | None => 0 ≤ semcount s (msem m) ∧ ∀ y, wsem s' y = wsem s y
  end →
  tok_inv s' p (<[m := e']> mt) I (<[(x, m) := 0%nat]> H) (<[m := default Free (Granted <$> w)]> o).
Proof.
  intros [Ha Hi Hw Ht] Hm Ho Hpid Hc He Hws.
  assert (Hin : ∀ m', is_Some (<[m := e']> mt !! m') ↔ is_Some (mt !! m')) by (intros; by apply mutex_dom; eexists).
  pose proof (Ht m e Hm) as Hok. rewrite Ho in Hok. destruct Hok as (Hc0 & Hl & Hp & _ & HU & _ & _).
  assert (Hck : ∀ m', m' ≠ m → semcount s' (msem m') = semcount s (msem m')).
  { intros m' Hne. rewrite Hc, decide_False; [done|]. by rewrite msem_inj. }
  assert (HU' : unheld (<[(x, m) := 0%nat]> H) m (λ _, True)).
  { intros y _. destruct (decide (y = x)) as [->|]; [apply fn_lookup_insert|].
    rewrite fn_lookup_insert_ne by congruence. by apply HU. }
  assert (Hother : ∀ t m' e1, m' ≠ m → mt !! m' = Some e1 → tok_ok s' p I (<[(x, m) := 0%nat]> H) m' e1 ((<[m := t]> o) m')).
  { intros t m' e1 Hne Hm1. rewrite fn_lookup_insert_ne by done. pose proof (Ht m' e1 Hm1) as Hok.
    eapply tok_ok_frame; [done|by apply Hck|intros y; by apply held_other|]. intros z Ez. rewrite Ez in Hok. apply Hok. }
  destruct w as [y|]; cbn [fmap option_fmap option_map default from_option id].
  - destruct Hws as (Hneg & Hy & Hws). assert (HIy : I !! y = Some m) by (apply Hw; [by eexists|done]).
    destruct (Hi y m HIy) as (_ & _ & _ & Hoky). assert (0 < m) by (apply Ha; by eexists).
    assert (Hey : errno_of s y = 0) by (destruct Hoky as [?|[[? ?]|[? ?]]]; [tauto|unfold msem in *; lia..]).
    split.
    + intros m' Hs. by apply Ha, Hin.
    + intros z m' Hz. rewrite Hin. destruct (Hi z m' Hz) as (? & ? & ? & Hokz). split_and!; try done.
      unfold in_ok, stranger in *. rewrite Hws, He. destruct (decide (z = y)) as [->|Hzy].
      * rewrite HIy in Hz. injection Hz as <-. rewrite fn_lookup_insert. right. left. done.
      * destruct (decide (m' = m)) as [->|]; [rewrite fn_lookup_insert|by rewrite fn_lookup_insert_ne].
        rewrite Ho in Hokz. naive_solver.
    + intros z m' Hs. rewrite Hin in Hs. rewrite Hws. case_decide; [|by apply Hw].
      pose proof (Ha m' Hs). unfold msem. lia.
    + intros m' e1. destruct (decide (m' = m)) as [->|Hne]; [rewrite lookup_insert_eq|rewrite lookup_insert_ne by done].
      * intros [= <-]. rewrite fn_lookup_insert. split_and!; [|done|done|done]. rewrite Hc, decide_True by done. lia.
      * by apply Hother.
  - destruct Hws as [Hpos Hws]. split.
    + intros m' Hs. by apply Ha, Hin.
    + intros z m' Hz. rewrite Hin. destruct (Hi z m' Hz) as (? & ? & ? & Hokz). split_and!; try done.
      unfold in_ok, stranger in *. rewrite Hws, He.
      destruct (decide (m' = m)) as [->|]; [rewrite fn_lookup_insert|by rewrite fn_lookup_insert_ne].
      rewrite Ho in Hokz. naive_solver.
    + intros z m' Hs. rewrite Hin in Hs. rewrite Hws. by apply Hw.
    + intros m' e1. destruct (decide (m' = m)) as [->|Hne]; [rewrite lookup_insert_eq|rewrite lookup_insert_ne by done].
      * intros [= <-]. rewrite fn_lookup_insert. split_and!; [|done|done]. rewrite Hc, decide_True by done. lia.
      * by apply Hother.
Qed.

(** A signal interrupts a wait. *)
Lemma tok_signal s s' p mt I H o x :
  tok_inv s p mt I H o → wsem s x ≠ 0 →
  (∀ m, is_Some (mt !! m) → wsem s x = msem m → semcount s (msem m) < 0) →
  point (semcount s) (semcount s') (wsem s x) (semcount s (wsem s x) + 1) →
  point (wsem s) (wsem s') x 0 → point (errno_of s) (errno_of s') x EINTR →
  tok_inv s' p mt I H o.
Proof.
  intros [Ha Hi Hw Ht] Hx Hneg Hc Hws He. split; [done| | |].
  - intros y m Hy. destruct (Hi y m Hy) as (? & ? & ? & Hok). split_and!; try done.
    unfold in_ok in *. rewrite Hws, He. case_decide; [subst; naive_solver|done].
  - intros y m Hs. rewrite Hws. case_decide; [|by apply Hw]. pose proof (Ha m Hs). unfold msem. lia.
  - intros m e Hm. pose proof (Ht m e Hm) as Hok. assert (Hs : is_Some (mt !! m)) by by eexists.
    specialize (Hneg m Hs). unfold tok_ok in *. rewrite Hc. case_decide as Em; [|done].
    rewrite Em in *. specialize (Hneg eq_refl). destruct (o m); [lia|..]; (split; [lia|apply Hok]).
Qed.
End Inv.
