(* ===== verification/MutexThms.v ===== *)
(** What mutexes promise: no two tasks ever hold one, a task that waits gets it
    from the task that releases it, and every legal call returns. *)

From stdpp Require Import base numbers functions gmap sorting list.
From S2P Require Import Prelude Queue Memory Sched SchedInv SchedThms SchedFields Sem SemThms SemSpec SemView.
From S2P Require Import Pid Mutex MutexInv.

Section Ops.
Context (mutex_types : bool).
Implicit Types (st : mxst) (I : gmap Z Z) (H : Z * Z → nat) (o : Z → token).

Record mx_inv (c : cfg) (L : tasklist → list Z) (idle : Z) (o : Z → token) : Prop := {
  mi_sem : sem_inv (mx_sem (c_st c)) L idle;
  mi_pid : pid_inv (mx_pids (c_st c));
  mi_idle : Z.land (flags (get (mx_sched (c_st c)) idle)) TCB_FLAG_ROUND_ROBIN = 0;
  mi_tok : tok_inv mutex_types (mx_sem (c_st c)) (mx_pids (c_st c)) (mutexes (c_st c)) (c_in c) (c_held c) o;
}.

(** A new state of the semaphores. *)
Lemma mx_inv_sem st I H L idle o s I' H' o' mt L' : mx_inv (mk_cfg st I H) L idle o →
  sem_inv s L' idle → (∀ y, flags (get (sch s) y) = flags (get (mx_sched st) y)) →
  tok_inv mutex_types s (mx_pids st) mt I' H' o' →
  mx_inv (mk_cfg (mk_mx s (mx_pids st) mt) I' H') L' idle o'.
Proof. intros [Hs Hp Hid Ht] Hs' Hf Ht'. split; cbn; [done..| |done]. unfold mx_sched. cbn. by rewrite Hf. Qed.

Lemma mx_lock_inv st I H L idle o : mx_inv (mk_cfg st I H) L idle o →
  locks (tcbs (mx_sched st)) (this_task (mx_sched st)) < MAX_LOCK_COUNT →
  ∃ s, on_sched (sched_lock false) st = Some (with_semst s st) ∧ mx_inv (mk_cfg (with_semst s st) I H) L idle o ∧
    same_view (mx_sem st) s ∧ this_task (sch s) = this_task (mx_sched st) ∧ sched_fuel (sch s) = sched_fuel (mx_sched st).
Proof.
  intros Hi Hm. pose proof Hi as [Hs Hp Hid Ht]. destruct (sem_lock_view _ _ _ Hs Hm) as (t & E & Hs' & Hv & Hth & Hco & Hfu).
  exists (with_sched (mx_sem st) t). unfold on_sched, mx_sched. cbn [c_st] in E. rewrite E. split_and!; try done.
  eapply mx_inv_sem; [done|done| |by eapply tok_view]. intros y. by apply (field_core flags).
Qed.

Lemma mx_unlock_inv st I H L idle o : mx_inv (mk_cfg st I H) L idle o →
  ∃ s L', on_sched (sched_unlock false) st = Some (with_semst s st) ∧ mx_inv (mk_cfg (with_semst s st) I H) L' idle o.
Proof.
  intros Hi. pose proof Hi as [Hs Hp Hid Ht]. destruct (sem_unlock_view _ _ _ Hs) as (t & L' & E & Hs' & Hv & Hco).
  exists (with_sched (mx_sem st) t), L'. unfold on_sched, mx_sched. cbn [c_st] in E. rewrite E. split; [done|].
  eapply mx_inv_sem; [done|done| |by eapply tok_view]. intros y. by apply (field_core flags).
Qed.

(** The record of a mutex after its owner and its count of locks are set. *)
Definition owned (pid v : Z) (e : mutex_t) : mutex_t :=
  let e := with_mpid pid e in if mutex_types then with_nlocks v e else e.

Lemma set_owner_eq st m e pid v : mutexes st !! m = Some e →
  set_nlocks mutex_types m v (on_mutex m (with_mpid pid) st) = mk_mx (mx_sem st) (mx_pids st) (<[m := owned pid v e]> (mutexes st)).
Proof.
  intros Hm. unfold set_nlocks, owned, on_mutex, mutex_at. cbn [mutexes mx_sem mx_pids]. rewrite Hm. cbn [default from_option id].
  destruct mutex_types; [|done]. cbn [mutexes mx_sem mx_pids]. by rewrite lookup_insert_eq, insert_insert_eq.
Qed.

Lemma owned_depth pid e : depth mutex_types (owned pid 1 e) = 1%nat ∧ m_pid (owned pid 1 e) = pid ∧
  (recursive mutex_types (owned pid 1 e) = true → 1 ≤ m_nlocks (owned pid 1 e) ≤ INT_MAX).
Proof. unfold depth, recursive, owned. destruct mutex_types; cbn; [|done]. by destruct (_ =? _). Qed.

(** [sem_wait] in one lemma. *)
Lemma sem_wait_view_len (s : semst) L idle sem : sem_inv s L idle → sem ≠ 0 → this_task (sch s) ≠ idle →
  Z.of_nat (length (L g_waitingforsemaphore)) < ZMAX_WAITERS →
  let x := this_task (sch s) in
  ∃ r s' L', sem_wait sem s = Some (r, s') ∧ sem_inv s' L' idle ∧
    point (semcount s) (semcount s') sem (semcount s sem - 1) ∧
    (∀ y, flags (get (sch s') y) = flags (get (sch s) y)) ∧ (∀ y, y ≠ x → errno_of s' y = errno_of s y) ∧
    if 0 <? semcount s sem then r = SemOK ∧ this_task (sch s') = x ∧ ∀ y, wsem s' y = wsem s y
    else r = SemBlocked ∧ errno_of s' x = 0 ∧ point (wsem s) (wsem s') x sem.
Proof.
  intros Hi Hne Hid Hf x. destruct (sem_wait_len _ _ _ sem Hi Hid Hf) as (r & s' & L' & E & Hi' & Hr & Hc).
  destruct (sem_wait_effect _ _ _ _ E Hne) as (Hk & Hy & Hfl & Hok & Hbl). fold x in Hy, Hok, Hbl.
  destruct (running_not_waiting _ _ _ Hi) as [_ Hx]. fold x in Hx. fold (wsem s x) in Hx.
  rewrite (proj2 (Z.eqb_neq sem 0)) in Hr by done.
  exists r, s', L'. split_and!; [done|done| |done|by intros y ?; apply Hy|].
  - intros k. case_decide as Ek; [subst; by apply Hc|by apply Hk].
  - destruct (0 <? semcount s sem); destruct Hr as [-> _].
    + destruct Hok as [Hw Ht]; [done|]. split_and!; [done|done|]. intros y.
      destruct (decide (y = x)) as [->|]; [congruence|by apply Hy].
    + destruct Hbl as [Hw He]; [done|]. split_and!; [done|done|]. intros y. case_decide; [by subst|by apply Hy].
Qed.

Lemma sem_wait_view (s : semst) L idle sem : sem_inv s L idle → sem ≠ 0 → this_task (sch s) ≠ idle →
  Z.of_nat (sched_fuel (sch s)) < ZMAX_WAITERS →
  let x := this_task (sch s) in
  ∃ r s' L', sem_wait sem s = Some (r, s') ∧ sem_inv s' L' idle ∧
    point (semcount s) (semcount s') sem (semcount s sem - 1) ∧
    (∀ y, flags (get (sch s') y) = flags (get (sch s) y)) ∧ (∀ y, y ≠ x → errno_of s' y = errno_of s y) ∧
    if 0 <? semcount s sem then r = SemOK ∧ this_task (sch s') = x ∧ ∀ y, wsem s' y = wsem s y
    else r = SemBlocked ∧ errno_of s' x = 0 ∧ point (wsem s) (wsem s') x sem.
Proof. intros Hi Hne Hid Hf. apply (sem_wait_view_len s L idle sem); [done..|by eapply waiting_few]. Qed.

(** The end of a call that got the semaphore. *)
Lemma lock_end_ok st I H L idle o m e (s : semst) L0 x :
  mx_inv (mk_cfg st I H) L idle o → mutexes st !! m = Some e → o m = Free ∨ o m = Granted x →
  live (mx_pids st) x → pid_of (mx_pids st) x ≠ 0 → I !! x = None ∨ I !! x = Some m → wsem (mx_sem st) x = 0 →
  sem_inv s L0 idle → (∀ y, flags (get (sch s) y) = flags (get (mx_sched st) y)) → this_task (sch s) = x →
  point (semcount (mx_sem st)) (semcount s) (msem m) 0 ∨
    (o m = Granted x ∧ ∀ k, semcount s k = semcount (mx_sem st) k) →
  (∀ y, wsem s y = wsem (mx_sem st) y) → (∀ y, y ≠ x → errno_of s y = errno_of (mx_sem st) y) →
  ∃ st' L' o', mutex_lock_end mutex_types m SemOK (with_semst s st) = Some (MxRet 0, st') ∧
    mx_inv (mk_cfg st' (delete x I) (<[(x, m) := 1%nat]> H)) L' idle o'.
Proof.
  intros Hi Hm Ho Hl Hp HI Hx0 Hs' Hfl Hth Hc Hws He. pose proof Hi as [Hs Hpi Hrr Ht]. cbn [c_st c_in c_held] in Ht.
  assert (Eg : mx_getpid (with_semst s st) = pid_of (mx_pids st) x).
  { unfold mx_getpid, getpid, mx_sched. cbn [with_semst mx_sem mx_pids]. by rewrite Hth. }
  destruct (owned_depth (pid_of (mx_pids st) x) e) as (Hd & Hpd & Hrec).
  destruct (mx_unlock_inv (mk_mx s (mx_pids st) (<[m := owned (pid_of (mx_pids st) x) 1 e]> (mutexes st)))
    (delete x I) (<[(x, m) := 1%nat]> H) L0 idle (<[m := Held x]> o)) as (s2 & L2 & E2 & Hi2).
  { eapply mx_inv_sem; [done|done|done|]. by eapply tok_acquire. }
  eexists _, L2, _. unfold mutex_lock_end. cbv beta zeta iota.
  rewrite (set_owner_eq _ _ e), Eg by done. cbn [with_semst mx_sem mx_pids mutexes]. by rewrite E2.
Qed.

(** Taking the semaphore of a mutex that the caller neither holds nor was granted. *)
Lemma lock_take st I H L idle o m e :
  let x := this_task (mx_sched st) in
  mx_inv (mk_cfg st I H) L idle o → mutexes st !! m = Some e → o m ≠ Held x → o m ≠ Granted x →
  I !! x = None ∨ I !! x = Some m → x ≠ idle → live (mx_pids st) x → pid_of (mx_pids st) x ≠ 0 →
  Z.of_nat (sched_fuel (mx_sched st)) < ZMAX_WAITERS →
  ∃ ret s r st' L' o', takesemaphore_loop 1 (msem m) (mx_sem st) = Some (ret, s) ∧
    mutex_lock_end mutex_types m ret (with_semst s st) = Some (r, st') ∧
    if decide (o m = Free) then r = MxRet 0 ∧ mx_inv (mk_cfg st' (delete x I) (<[(x, m) := 1%nat]> H)) L' idle o'
    else r = MxWaits ∧ mx_inv (mk_cfg st' (<[x := m]> I) H) L' idle o'.
Proof.
  intros x Hi Hm Hh Hg HI Hid Hl Hp Hf. pose proof Hi as [Hs Hpi Hrr Ht]. cbn [c_st c_in c_held] in Hs, Hpi, Hrr, Ht.
  assert (Hm0 : 0 < m) by (apply (ti_addr _ _ _ _ _ _ _ Ht); by eexists). assert (Hne : msem m ≠ 0) by (unfold msem; lia).
  destruct (sem_wait_view _ _ _ _ Hs Hne Hid Hf) as (r & s & L' & E & Hs' & Hc & Hfl & He & Hr).
  change (this_task (sch (mx_sem st))) with x in *.
  pose proof (ti_tok _ _ _ _ _ _ _ Ht m e Hm) as Hok. cbn [takesemaphore_loop]. rewrite E. cbn [mbind option_bind].
  destruct (running_not_waiting _ _ _ Hs) as [_ Hx0]. fold (wsem (mx_sem st) x) in Hx0.
  case_decide as Ho.
  - rewrite Ho in Hok. destruct Hok as (Hc1 & _ & HU). rewrite Hc1 in *. destruct Hr as (-> & Hth & Hws).
    destruct (lock_end_ok st I H L idle o m e s L' x) as (st' & L2 & o' & E2 & Hi2); try done; [by left|by left|].
    by exists SemOK, s, (MxRet 0), st', L2, o'.
  - assert (Hc0 : semcount (mx_sem st) (msem m) ≤ 0) by (destruct (o m); [done|apply Hok..]).
    rewrite (proj2 (Z.ltb_ge _ _)) in Hr by done. destruct Hr as (-> & He0 & Hws).
    eexists _, _, _, _, L', o. split; [done|]. split; [done|]. split; [done|].
    eapply mx_inv_sem; [done|done|done|]. eapply tok_block; try done.
Qed.

(** ** The calls *)

(** The configuration after a call by [x] on [m] that answered [r]. *)
Definition locked_by (x m : Z) (H : Z * Z → nat) : Z * Z → nat := <[(x, m) := S (H (x, m))]> H.

Definition after_lock (x m : Z) (r : mx_ret) st' (c : cfg) : cfg :=
  match r with
  | MxWaits => mk_cfg st' (<[x := m]> (c_in c)) (c_held c)
  | MxRet v => mk_cfg st' (delete x (c_in c)) (if v =? 0 then locked_by x m (c_held c) else c_held c)
  end.

(** What a task that calls [pthread_mutex_lock] and its like must satisfy. *)
Record may_call (idle : Z) (c : cfg) : Prop := {
  mc_idle : this_task (mx_sched (c_st c)) ≠ idle;
  mc_live : live (mx_pids (c_st c)) (this_task (mx_sched (c_st c)));
  mc_pid : pid_of (mx_pids (c_st c)) (this_task (mx_sched (c_st c))) ≠ 0;
  mc_fuel : Z.of_nat (sched_fuel (mx_sched (c_st c))) < ZMAX_WAITERS;
  mc_locks : locks (tcbs (mx_sched (c_st c))) (this_task (mx_sched (c_st c))) < MAX_LOCK_COUNT;
}.

(** The owner recorded in a mutex is the task that holds it. *)
Lemma owner_held st I H L idle o m e x : mx_inv (mk_cfg st I H) L idle o → mutexes st !! m = Some e →
  live (mx_pids st) x → pid_of (mx_pids st) x ≠ 0 → m_pid e = pid_of (mx_pids st) x ↔ o m = Held x.
Proof.
  intros [_ Hp _ Ht] Hm Hl Hp0. cbn [c_st c_in c_held] in *. pose proof (ti_tok _ _ _ _ _ _ _ Ht m e Hm) as Hok.
  destruct (o m) as [|y|y]; cbn in Hok.
  - split; [|done]. intros E. exfalso. apply Hp0. rewrite <-E. apply Hok.
  - split; [|done]. intros E. exfalso. apply Hp0. rewrite <-E. apply Hok.
  - destruct Hok as (_ & Hy & _ & -> & _). split; [|by intros [= ->]]. intros E. f_equal.
    by rewrite <-(gettcb_live _ _ Hp Hl), <-E, (gettcb_live _ _ Hp Hy).
Qed.

Lemma mutex_at_eq st m e : mutexes st !! m = Some e → mutex_at st m = e.
Proof. intros Hm. unfold mutex_at. by rewrite Hm. Qed.

Lemma set_nlocks_eq st m v e : mutexes st !! m = Some e → recursive mutex_types e = true →
  set_nlocks mutex_types m v st = mk_mx (mx_sem st) (mx_pids st) (<[m := with_nlocks v e]> (mutexes st)).
Proof.
  intros Hm Hr. unfold recursive in Hr. unfold set_nlocks, on_mutex. destruct mutex_types; [|done]. by rewrite (mutex_at_eq _ _ _ Hm).
Qed.

Lemma pthread_mutex_lock_inv st I H L idle o m e :
  let x := this_task (mx_sched st) in
  mx_inv (mk_cfg st I H) L idle o → may_call idle (mk_cfg st I H) → mutexes st !! m = Some e → I !! x = None →
  (recursive mutex_types e = true → m_nlocks e < INT_MAX) →
  ∃ r st' L' o', pthread_mutex_lock mutex_types m st = Some (r, st') ∧
    mx_inv (after_lock x m r st' (mk_cfg st I H)) L' idle o' ∧
    r = if decide (o m = Held x) then MxRet (if recursive mutex_types e then 0 else EDEADLK)
        else if decide (o m = Free) then MxRet 0 else MxWaits.
Proof.
  intros x Hi [Hid Hl Hp Hf Hlk] Hm HI Hn. cbn [c_st] in *. fold x in Hid, Hl, Hp.
  pose proof (ti_tok _ _ _ _ _ _ _ (mi_tok _ _ _ _ Hi) m e Hm) as Hok. cbn [c_st c_in c_held] in Hok.
  assert (Hm0 : 0 < m) by (apply (ti_addr _ _ _ _ _ _ _ (mi_tok _ _ _ _ Hi)); by eexists).
  unfold pthread_mutex_lock. rewrite (proj2 (Z.eqb_neq m 0)) by lia.
  destruct (mx_lock_inv _ _ _ _ _ _ Hi Hlk) as (s & -> & Hi1 & Hv & Hth & Hfu). cbn [mbind option_bind].
  set (st1 := with_semst s st) in *. rewrite (mutex_at_eq st1 m e Hm).
  change (mx_getpid st) with (pid_of (mx_pids st) x). change (mx_pids st) with (mx_pids st1).
  pose proof (owner_held _ _ _ _ _ _ _ _ x Hi1 Hm Hl Hp) as Hown.
  destruct (Z.eqb_spec (m_pid e) (pid_of (mx_pids st1) x)) as [Ep|Ep].
  - apply Hown in Ep. rewrite decide_True by done. fold (recursive mutex_types e).
    rewrite Ep in Hok. destruct Hok as (_ & _ & _ & _ & _ & HH & Hr).
    destruct (recursive mutex_types e) eqn:Er.
    + rewrite (set_nlocks_eq st1 m _ e) by done. specialize (Hn eq_refl). specialize (Hr eq_refl). unfold INT_MAX in *.
      set (e' := with_nlocks (m_nlocks e + 1) e).
      assert (Ee : m_nlocks e' = m_nlocks e + 1) by (unfold e'; cbn; apply i32_small; lia).
      destruct (mx_unlock_inv (mk_mx (mx_sem st1) (mx_pids st1) (<[m := e']> (mutexes st1))) I (locked_by x m H) L idle o)
        as (s2 & L2 & E2 & Hi2).
      { eapply mx_inv_sem; [exact Hi1|apply Hi1|done|].
        assert (Ed : S (H (x, m)) = depth mutex_types e').
        { rewrite HH. unfold depth. rewrite Er, Ee. change (recursive mutex_types e') with (recursive mutex_types e). rewrite Er. lia. }
        unfold locked_by. rewrite Ed. eapply tok_relock; [apply Hi1|done|done|done|done|]. rewrite Ee. unfold INT_MAX. lia. }
      rewrite E2. eexists _, _, L2, o. split; [done|]. split; [|done]. cbn [after_lock Z.eqb c_in c_held].
      by rewrite delete_id.
    + destruct (mx_unlock_inv _ _ _ _ _ _ Hi1) as (s2 & L2 & E2 & Hi2). rewrite E2.
      eexists _, _, L2, o. split; [done|]. split; [|done]. cbn [after_lock Z.eqb c_in c_held EDEADLK].
      by rewrite delete_id.
  - assert (Ho : o m ≠ Held x) by tauto. rewrite decide_False by done.
    unfold pthread_takesemaphore. rewrite (proj2 (Z.eqb_neq (msem m) 0)) by (unfold msem; lia). cbn [negb].
    destruct (lock_take st1 I H L idle o m e) as (ret & s2 & r & st' & L' & o' & E & E2 & Hr); cbn [st1 with_semst mx_sem mx_pids];
      change (mx_sched st1) with (sch s); rewrite ?Hth, ?Hfu; try done; [|by left|].
    { intros Eg. rewrite Eg in Hok. destruct Hok as (_ & _ & HIx & _). fold x in HIx. congruence. }
    assert (Hx1 : this_task (mx_sched st1) = x) by exact Hth. rewrite Hx1 in Hr.
    change (mx_sem st1) with s in *. rewrite E. cbn [mbind option_bind].
    replace (with_semst s2 st1) with (with_semst s2 st) in E2 by done. exists r, st', L', o'. split; [exact E2|].
    case_decide as Ef.
    + destruct Hr as [-> Hr]. split; [|done]. cbn [after_lock Z.eqb c_in c_held]. unfold locked_by.
      rewrite Ef in Hok. destruct Hok as (_ & _ & HU). by rewrite HU.
    + destruct Hr as [-> Hr]. by split.
Qed.

Lemma running_wsem st I H L idle o : mx_inv (mk_cfg st I H) L idle o → wsem (mx_sem st) (this_task (mx_sched st)) = 0.
Proof. intros Hi. by apply (running_not_waiting _ L idle), Hi. Qed.

Lemma pthread_mutex_lock_resume_inv st I H L idle o m :
  let x := this_task (mx_sched st) in
  mx_inv (mk_cfg st I H) L idle o → may_call idle (mk_cfg st I H) → I !! x = Some m →
  ∃ r st' L' o', pthread_mutex_lock_resume mutex_types m st = Some (r, st') ∧
    mx_inv (after_lock x m r st' (mk_cfg st I H)) L' idle o' ∧
    r = if decide (o m = Free ∨ o m = Granted x) then MxRet 0 else MxWaits.
Proof.
  intros x Hi [Hid Hl Hp Hf Hlk] HI. cbn [c_st] in *. fold x in Hid, Hl, Hp.
  destruct (ti_in _ _ _ _ _ _ _ (mi_tok _ _ _ _ Hi) x m HI) as ([e Hm] & _ & _ & Hok). cbn [c_st c_in c_held] in Hm, Hok.
  pose proof (running_wsem _ _ _ _ _ _ Hi) as Hx0. fold x in Hx0.
  pose proof (ti_tok _ _ _ _ _ _ _ (mi_tok _ _ _ _ Hi) m e Hm) as Htok. cbn [c_st c_in c_held] in Htok.
  assert (HH : o m = Free ∨ o m = Granted x → locked_by x m H = <[(x, m) := 1%nat]> H).
  { intros Ho. unfold locked_by. f_equal. enough (H (x, m) = 0%nat) by lia.
    destruct Ho as [E|E]; rewrite E in Htok; by apply Htok. }
  assert (0 < m) by (apply (ti_addr _ _ _ _ _ _ _ (mi_tok _ _ _ _ Hi)); by eexists).
  unfold pthread_mutex_lock_resume, pthread_takesemaphore_resume, sem_wait_resume, get_errno.
  change (pterrno (get (sch (mx_sem st)) (this_task (sch (mx_sem st))))) with (errno_of (mx_sem st) x).
  destruct Hok as [(Hw & _)|[(_ & He & Ho)|(_ & He & Ho)]]; [unfold msem in Hw; lia| |]; rewrite He; cbn [Z.eqb negb andb].
  - rewrite decide_True by auto.
    destruct (lock_end_ok st I H L idle o m e (mx_sem st) L x) as (st' & L' & o' & E & Hi'); try done; [by right|by right|apply Hi|by right|].
    exists (MxRet 0), st', L', o'. cbn [mbind option_bind]. split_and!; [done| |done]. cbn [after_lock Z.eqb c_in c_held].
    rewrite HH by auto. done.
  - destruct (lock_take st I H L idle o m e) as (ret & s & r & st' & L' & o' & E & E2 & Hr); try done; try apply Ho; [by right|].
    cbn [Z.eqb]. rewrite E. cbn [mbind option_bind]. exists r, st', L', o'. split; [exact E2|]. fold x in Hr.
    destruct (decide (o m = Free)) as [Ef|Ef].
    + rewrite decide_True by auto. destruct Hr as [-> Hr]. split; [|done]. cbn [after_lock Z.eqb c_in c_held].
      rewrite HH by auto. done.
    + rewrite decide_False by (destruct Ho; tauto). destruct Hr as [-> Hr]. by split.
Qed.

(** The configuration after [pthread_mutex_trylock] and [pthread_mutex_unlock]. *)
Definition after_trylock (x m r : Z) st' (c : cfg) : cfg :=
  mk_cfg st' (c_in c) (if r =? 0 then locked_by x m (c_held c) else c_held c).
Definition unlocked_by (x m : Z) (H : Z * Z → nat) : Z * Z → nat := <[(x, m) := pred (H (x, m))]> H.
Definition after_unlock (x m r : Z) st' (c : cfg) : cfg :=
  mk_cfg st' (c_in c) (if r =? 0 then unlocked_by x m (c_held c) else c_held c).

Lemma pthread_mutex_trylock_inv st I H L idle o m e :
  let x := this_task (mx_sched st) in
  mx_inv (mk_cfg st I H) L idle o → may_call idle (mk_cfg st I H) → mutexes st !! m = Some e → I !! x = None →
  recursive mutex_types e = false →
  ∃ r st' L' o', pthread_mutex_trylock m st = Some (r, st') ∧
    mx_inv (after_trylock x m r st' (mk_cfg st I H)) L' idle o' ∧ r = if decide (o m = Free) then 0 else EBUSY.
Proof.
  intros x Hi [Hid Hl Hp Hf Hlk] Hm HI Hrec. cbn [c_st] in *. fold x in Hid, Hl, Hp.
  assert (Hm0 : 0 < m) by (apply (ti_addr _ _ _ _ _ _ _ (mi_tok _ _ _ _ Hi)); by eexists).
  unfold pthread_mutex_trylock. rewrite (proj2 (Z.eqb_neq m 0)) by lia.
  destruct (mx_lock_inv _ _ _ _ _ _ Hi Hlk) as (s & -> & Hi1 & _ & Hth & _). cbn [mbind option_bind].
  set (st1 := with_semst s st) in *. change (mx_sem st1) with s. fold x in Hth.
  pose proof Hi1 as [Hs _ _ Ht]. cbn [c_st c_in c_held] in Hs, Ht. change (mx_sem st1) with s in Hs, Ht.
  pose proof (ti_tok _ _ _ _ _ _ _ Ht m e Hm) as Hok. pose proof (running_wsem _ _ _ _ _ _ Hi1) as Hx0.
  change (wsem s (this_task (sch s)) = 0) in Hx0. rewrite Hth in Hx0.
  pose proof (sem_trywait_effect s L idle (msem m) Hs ltac:(unfold msem; lia)) as Hsem. cbv zeta in Hsem. rewrite Hth in Hsem.
  destruct (sem_trywait (msem m) s) as [ret s2]. destruct Hsem as (Hs2 & Hws & He & Hfl & Hth2 & Hr).
  case_decide as Ef.
  - rewrite Ef in Hok. destruct Hok as (Hc1 & _ & HU). rewrite Hc1 in Hr. destruct Hr as [-> Hc].
    destruct (mx_unlock_inv (mk_mx s2 (mx_pids st) (<[m := with_mpid (pid_of (mx_pids st) x) e]> (mutexes st)))
      I (<[(x, m) := 1%nat]> H) L idle (<[m := Held x]> o)) as (s3 & L3 & E3 & Hi3).
    { eapply (mx_inv_sem st1); [exact Hi1|done|done|]. rewrite <-(delete_id I x HI).
      eapply tok_acquire; try done; [by left|by left|by left|..]; unfold depth;
        change (recursive mutex_types (with_mpid _ e)) with (recursive mutex_types e); by rewrite Hrec. }
    assert (Eg : mx_getpid (with_semst s2 st1) = pid_of (mx_pids st) x).
    { unfold mx_getpid, getpid, mx_sched. cbn [with_semst mx_sem mx_pids]. by rewrite Hth2. }
    assert (Eo : on_mutex m (with_mpid (mx_getpid (with_semst s2 st1))) (with_semst s2 st1) =
      mk_mx s2 (mx_pids st) (<[m := with_mpid (pid_of (mx_pids st) x) e]> (mutexes st))).
    { unfold on_mutex. by rewrite (mutex_at_eq _ m e), Eg. }
    cbv beta zeta iota. rewrite Eo, E3. eexists _, _, L3, _. split; [done|]. split; [|done].
    unfold after_trylock, locked_by. cbn [Z.eqb c_in c_held]. by rewrite HU.
  - assert (Hc0 : semcount s (msem m) ≤ 0) by (destruct (o m); [done|apply Hok..]).
    rewrite (proj2 (Z.ltb_ge _ _)) in Hr by done. destruct Hr as (-> & Hea & Hc).
    destruct (mx_unlock_inv (with_semst s2 st1) I H L idle o) as (s3 & L3 & E3 & Hi3).
    { eapply mx_inv_sem; [exact Hi1|done|done|]. eapply tok_frame; [exact Ht|by intros| |].
      - intros y [m' Hy]. split; [done|]. apply He. congruence.
      - intros y m' _. by rewrite Hws. }
    cbv beta zeta iota. unfold get_errno. change (mx_sem (with_semst s2 st1)) with s2. rewrite Hth2.
    change (pterrno (get (sch s2) x)) with (errno_of s2 x). rewrite Hea, E3. by eexists _, _, L3, o.
Qed.

Lemma waiting_view (s s' : semst) L sem : same_view s s' →
  waiting (tcbs (sch s')) L sem = waiting (tcbs (sch s)) L sem.
Proof. intros Hv. apply filter_agree. intros y _. pose proof (sv_wsem _ _ Hv y) as E. unfold wsem, get in E. by rewrite E. Qed.

Lemma pthread_mutex_unlock_inv st I H L idle o m e :
  let x := this_task (mx_sched st) in
  mx_inv (mk_cfg st I H) L idle o → may_call idle (mk_cfg st I H) → mutexes st !! m = Some e → I !! x = None →
  ∃ r st' L' o', pthread_mutex_unlock mutex_types m st = Some (r, st') ∧
    mx_inv (after_unlock x m r st' (mk_cfg st I H)) L' idle o' ∧
    if decide (o m = Held x) then
      r = 0 ∧ o' = if (1 <? H (x, m))%nat then o
                   else <[m := default Free (Granted <$> head (waiting (tcbs (mx_sched st)) L (msem m)))]> o
    else r = EPERM ∧ o' = o.
Proof.
  intros x Hi [Hid Hl Hp Hf Hlk] Hm HI. cbn [c_st] in *. fold x in Hid, Hl, Hp.
  assert (Hm0 : 0 < m) by (apply (ti_addr _ _ _ _ _ _ _ (mi_tok _ _ _ _ Hi)); by eexists).
  unfold pthread_mutex_unlock. rewrite (proj2 (Z.eqb_neq m 0)) by lia.
  destruct (mx_lock_inv _ _ _ _ _ _ Hi Hlk) as (s & -> & Hi1 & Hv & Hth & _). cbn [mbind option_bind].
  change (tcbs (mx_sched st)) with (tcbs (sch (mx_sem st))). rewrite <-(waiting_view (mx_sem st) s L (msem m) Hv).
  set (st1 := with_semst s st) in *. rewrite (mutex_at_eq st1 m e Hm). fold x in Hth.
  pose proof Hi1 as [Hs _ _ Ht]. cbn [c_st c_in c_held] in Hs, Ht. change (mx_sem st1) with s in Hs, Ht.
  pose proof (ti_tok _ _ _ _ _ _ _ Ht m e Hm) as Hok.
  assert (Eg : mx_getpid st1 = pid_of (mx_pids st1) x).
  { unfold mx_getpid, getpid. change (mx_sched st1) with (sch s). by rewrite Hth. }
  rewrite Eg. pose proof (owner_held _ _ _ _ _ _ _ _ x Hi1 Hm Hl Hp) as Hown.
  destruct (Z.eqb_spec (m_pid e) (pid_of (mx_pids st1) x)) as [Ep|Ep]; cbn [negb].
  - apply Hown in Ep. destruct (decide (o m = Held x)) as [_|]; [|done]. fold (recursive mutex_types e). rewrite Ep in Hok.
    destruct Hok as (Hc0 & _ & _ & _ & HU & HH & Hr). destruct (recursive mutex_types e && (1 <? m_nlocks e)) eqn:Er.
    + apply andb_prop in Er as [Er Hn%Z.ltb_lt]. specialize (Hr Er). unfold INT_MAX in Hr.
      rewrite (set_nlocks_eq st1 m _ e) by done. set (e' := with_nlocks (m_nlocks e - 1) e).
      assert (Ee : m_nlocks e' = m_nlocks e - 1) by (unfold e'; cbn; apply i32_small; lia).
      destruct (mx_unlock_inv (mk_mx (mx_sem st1) (mx_pids st1) (<[m := e']> (mutexes st1))) I (unlocked_by x m H) L idle o)
        as (s2 & L2 & E2 & Hi2).
      { eapply mx_inv_sem; [exact Hi1|done|done|].
        assert (Ed : pred (H (x, m)) = depth mutex_types e').
        { rewrite HH. unfold depth. change (recursive mutex_types e') with (recursive mutex_types e). rewrite Er, Ee. lia. }
        unfold unlocked_by. rewrite Ed. eapply tok_relock; [exact Ht|done..|]. rewrite Ee. unfold INT_MAX. lia. }
      cbn [mbind option_bind]. rewrite E2. eexists _, _, L2, o. rewrite (proj2 (Nat.ltb_lt 1 _)); [done|].
      rewrite HH. unfold depth. rewrite Er. lia.
    + cbv beta zeta. rewrite (set_owner_eq st1 m e) by done. unfold pthread_givesemaphore.
      rewrite (proj2 (Z.eqb_neq (msem m) 0)) by (unfold msem; lia). cbn [negb mx_sem]. change (mx_sem st1) with s.
      destruct (sem_post_effect s L idle (msem m) Hs) as (s2 & L2 & E & Hs2 & Hc & He & Hfl & Hws);
        [unfold msem; lia|unfold SEM_VALUE_MAX; lia|].
      rewrite E. cbn [mbind option_bind].
      assert (H1 : pred (H (x, m)) = 0%nat).
      { rewrite HH. unfold depth. destruct (recursive mutex_types e); [|done]. cbn [andb] in Er. apply Z.ltb_ge in Er. lia. }
      set (w := head (waiting (tcbs (sch s)) L (msem m))) in *.
      assert (Ht' : tok_inv mutex_types s2 (mx_pids st1) (<[m := owned 0 0 e]> (mutexes st1)) I (unlocked_by x m H)
        (<[m := default Free (Granted <$> w)]> o)).
      { unfold unlocked_by. rewrite H1. eapply tok_release; try done; [by unfold owned; destruct mutex_types|].
        destruct (Z.ltb_spec (semcount s (msem m)) 0) as [Hneg|Hpos].
        - destruct Hws as (y & -> & Hy & Hws). done.
        - pose proof (sv_count _ _ _ Hs (msem m) ltac:(unfold msem; lia)) as Hcs. unfold w.
          destruct (waiting _ _ _); [done|simpl in Hcs; lia]. }
      destruct (mx_unlock_inv (mk_mx s2 (mx_pids st1) (<[m := owned 0 0 e]> (mutexes st1))) I (unlocked_by x m H) L2 idle
        (<[m := default Free (Granted <$> w)]> o)) as (s3 & L3 & E3 & Hi3).
      { by eapply mx_inv_sem. }
      assert (Eo : with_semst s2 (mk_mx s (mx_pids st1) (<[m := owned 0 0 e]> (mutexes st1))) =
        mk_mx s2 (mx_pids st1) (<[m := owned 0 0 e]> (mutexes st1))) by done.
      change (mx_sem st1) with s in *. rewrite Eo, E3. eexists _, _, L3, _. split; [done|].
      split; [done|]. split; [done|]. rewrite (proj2 (Nat.ltb_ge 1 _)) by lia. done.
  - destruct (decide (o m = Held x)) as [|_]; [tauto|]. cbn [mbind option_bind].
    destruct (mx_unlock_inv _ _ _ _ _ _ Hi1) as (s2 & L2 & E2 & Hi2). rewrite E2. by eexists _, _, L2, o.
Qed.
End Ops.
