(* ===== verification/MutexSpec.v ===== *)
(** Mutual exclusion: the runs of tasks that use mutexes, and what holds in all
    of them. *)

From stdpp Require Import base numbers functions gmap sorting list relations.
From S2P Require Import Prelude Queue Memory Sched SchedInv SchedThms SchedFields SchedSpec.
From S2P Require Import Sem SemThms SemSpec SemView Pid Mutex MutexInv MutexThms.

(** The running task calls a function or goes on with one, a signal interrupts a
    wait, or the clock ticks. *)
Inductive mx_op :=
  | MxLock (m : Z) | MxResume | MxTryLock (m : Z) | MxUnlock (m : Z)
  | MxSignal (x : Z) | MxTick | MxSemWait (sem : Z) | MxSemPost (sem : Z).

Section Spec.
Context (mutex_types : bool).
Implicit Types (c : cfg) (L : tasklist → list Z) (o : Z → token).

Definition current c : Z := this_task (mx_sched (c_st c)).

(** The configuration with another state of the semaphores. *)
Definition with_sems (s : semst) c : cfg := mk_cfg (with_semst s (c_st c)) (c_in c) (c_held c).

Definition mx_exec (op : mx_op) c : option cfg :=
  match op with
  | MxLock m => '(r, st) ← pthread_mutex_lock mutex_types m (c_st c); Some (after_lock (current c) m r st c)
  | MxResume =>
      m ← c_in c !! current c;
      '(r, st) ← pthread_mutex_lock_resume mutex_types m (c_st c); Some (after_lock (current c) m r st c)
  | MxTryLock m => '(r, st) ← pthread_mutex_trylock m (c_st c); Some (after_trylock (current c) m r st c)
  | MxUnlock m => '(r, st) ← pthread_mutex_unlock mutex_types m (c_st c); Some (after_unlock (current c) m r st c)
  | MxSignal x => s ← sem_waitirq x EINTR (mx_sem (c_st c)); Some (with_sems s c)
  | MxTick => st ← on_sched sched_process_timeslice (c_st c); Some (mk_cfg st (c_in c) (c_held c))
  | MxSemWait sem => '(_, s) ← sem_wait sem (mx_sem (c_st c)); Some (with_sems s c)
  | MxSemPost sem => '(_, s) ← sem_post sem (mx_sem (c_st c)); Some (with_sems s c)
  end.

(** The callers' obligations: a task that is inside [pthread_mutex_lock] goes on
    with it before it calls anything else, the idle task does not wait, a
    recursive mutex is not locked more often than its counter can count and not
    with [pthread_mutex_trylock], and the semaphores of mutexes are left to them. *)
Definition mx_legal (idle : Z) (op : mx_op) c : Prop :=
  match op with
  | MxLock m => may_call idle c ∧ c_in c !! current c = None ∧
      ∃ e, mutexes (c_st c) !! m = Some e ∧ (recursive mutex_types e = true → m_nlocks e < INT_MAX)
  | MxResume => may_call idle c ∧ is_Some (c_in c !! current c)
  | MxTryLock m => may_call idle c ∧ c_in c !! current c = None ∧
      ∃ e, mutexes (c_st c) !! m = Some e ∧ recursive mutex_types e = false
  | MxUnlock m => may_call idle c ∧ c_in c !! current c = None ∧ is_Some (mutexes (c_st c) !! m)
  | MxSignal _ | MxTick => True
  | MxSemWait sem => may_call idle c ∧ c_in c !! current c = None ∧ sem ≠ 0 ∧
      ∀ m, is_Some (mutexes (c_st c) !! m) → sem ≠ msem m
  | MxSemPost sem => sem ≠ 0 ∧ semcount (mx_sem (c_st c)) sem < SEM_VALUE_MAX ∧
      ∀ m, is_Some (mutexes (c_st c) !! m) → sem ≠ msem m
  end.

Definition mx_step (idle : Z) c c' : Prop := ∃ op, mx_legal idle op c ∧ mx_exec op c = Some c'.

(** Nobody has called anything yet, and every mutex is initialized. *)
Record mx_start c L (idle : Z) : Prop := {
  ms_sem : sem_inv (mx_sem (c_st c)) L idle;
  ms_pid : pid_inv (mx_pids (c_st c));
  ms_idle : Z.land (flags (get (mx_sched (c_st c)) idle)) TCB_FLAG_ROUND_ROBIN = 0;
  ms_in : c_in c = ∅;
  ms_held : ∀ k, c_held c k = 0%nat;
  ms_mutex : ∀ m e, mutexes (c_st c) !! m = Some e →
    0 < m ∧ semcount (mx_sem (c_st c)) (msem m) = 1 ∧ m_pid e = 0;
}.

(** A task that waits for a semaphore counts. *)
Lemma waits_negative (s : semst) L idle x : sem_inv s L idle → wsem s x ≠ 0 → semcount s (wsem s x) < 0.
Proof.
  intros Hi Hx. pose proof (sv_count _ _ _ Hi _ Hx) as Hc.
  assert (Hin : x ∈ waiting (tcbs (sch s)) L (wsem s x)).
  { apply list_elem_of_filter. split; [done|]. by apply (sv_waits _ _ _ Hi). }
  destruct (waiting _ _ _); [by apply not_elem_of_nil in Hin|simpl in Hc; lia].
Qed.

(** The first task that waits has the highest priority of those that do. *)
Lemma waiting_highest (s : semst) L idle sem : sem_inv s L idle → sem ≠ 0 →
  match waiting (tcbs (sch s)) L sem with
  | [] => True
  | y :: _ => ∀ z, wsem s z = sem → prio (tcbs (sch s)) z ≤ prio (tcbs (sch s)) y
  end.
Proof.
  intros Hi Hne. pose proof Hi as [(Hw & _) _ _ _]. destruct (waiting _ _ _) as [|y W] eqn:EW; [done|]. intros z Hz.
  assert (Hin : z ∈ y :: W).
  { rewrite <-EW. apply list_elem_of_filter. split; [done|]. apply (sv_waits _ _ _ Hi). unfold wsem in Hz. by rewrite Hz. }
  apply elem_of_cons in Hin as [->|Hin]; [done|].
  pose proof (sw_sorted _ _ _ Hw g_waitingforsemaphore eq_refl) as Hso. unfold prio_sorted in Hso.
  assert (Hsf : StronglySorted (pdesc (prio (tcbs (sch s)))) (y :: W)) by (rewrite <-EW; by apply sorted_filter).
  apply StronglySorted_inv in Hsf as [_ Hf]. rewrite Forall_forall in Hf. by apply Hf.
Qed.

Lemma mx_start_inv c L idle : mx_start c L idle → mx_inv mutex_types c L idle (λ _, Free).
Proof.
  intros [Hs Hp Hid HI HH Hm]. split; [done..|]. split.
  - intros m [e He]. by apply (Hm m e).
  - rewrite HI. intros x m. by rewrite lookup_empty.
  - intros x m [e He] Hx. destruct (Hm m e He) as (H0 & Hc & _).
    assert (Hne : wsem (mx_sem (c_st c)) x ≠ 0) by (unfold msem in Hx; lia).
    apply (waits_negative _ L idle) in Hne; [|done]. rewrite Hx in Hne. lia.
  - intros m e He. destruct (Hm m e He) as (_ & Hc & Hpid). split_and!; [done|done|]. intros y _. apply HH.
Qed.

(** A call that concerns no mutex. *)
Lemma mx_other_inv c L idle o s L' : mx_inv mutex_types c L idle o → sem_inv s L' idle →
  (∀ y, flags (get (sch s) y) = flags (get (mx_sched (c_st c)) y)) →
  (∀ m, is_Some (mutexes (c_st c) !! m) → semcount s (msem m) = semcount (mx_sem (c_st c)) (msem m)) →
  (∀ y, is_Some (c_in c !! y) → wsem s y = wsem (mx_sem (c_st c)) y ∧ errno_of s y = errno_of (mx_sem (c_st c)) y) →
  (∀ y m, is_Some (mutexes (c_st c) !! m) → wsem s y = msem m → wsem (mx_sem (c_st c)) y = msem m) →
  mx_inv mutex_types (with_sems s c) L' idle o.
Proof.
  intros Hi Hs Hf H1 H2 H3. destruct c as [st I H]. eapply mx_inv_sem; [exact Hi|done|done|].
  eapply tok_frame; [apply Hi|done..].
Qed.

Lemma mx_signal_inv c L idle o x : mx_inv mutex_types c L idle o →
  ∃ s L', sem_waitirq x EINTR (mx_sem (c_st c)) = Some s ∧ mx_inv mutex_types (with_sems s c) L' idle o.
Proof.
  intros Hi. pose proof Hi as [Hs _ _ Ht].
  destruct (sem_waitirq_effect _ _ _ x EINTR Hs) as (s & L' & E & Hs' & Hf & H). exists s, L'. split; [done|].
  case_decide as Hx.
  - subst s. eapply mx_other_inv; [exact Hi|done..].
  - destruct c as [st I HH]. eapply mx_inv_sem; [exact Hi|done|done|]. destruct H as (Hc & Hw & He).
    eapply tok_signal; [exact Ht|done| |done..]. intros m _ Em. rewrite <-Em. by eapply waits_negative.
Qed.

Lemma mx_semwait_inv c L idle o sem : mx_inv mutex_types c L idle o → mx_legal idle (MxSemWait sem) c →
  ∃ r s L', sem_wait sem (mx_sem (c_st c)) = Some (r, s) ∧ mx_inv mutex_types (with_sems s c) L' idle o.
Proof.
  intros Hi ([Hid Hl Hp Hfu Hlk] & HI & Hne & Hm). pose proof Hi as [Hs _ _ Ht].
  destruct (sem_wait_view _ _ _ _ Hs Hne Hid Hfu) as (r & s & L' & E & Hs' & Hc & Hf & He & Hr).
  exists r, s, L'. split; [done|]. fold (mx_sched (c_st c)) in He, Hr, Hf. fold (current c) in He, Hr.
  eapply mx_other_inv; [exact Hi|done|done| | |].
  - intros m Hs1. rewrite Hc, decide_False; [done|]. intros E1. by apply (Hm m Hs1).
  - intros y [m Hy]. assert (Hyx : y ≠ current c) by congruence. split; [|by apply He].
    destruct (0 <? _); [by apply Hr|]. destruct Hr as (_ & _ & Hw). by rewrite Hw, decide_False.
  - intros y m Hs1. destruct (0 <? _); [destruct Hr as (_ & _ & Hw); by rewrite Hw|].
    destruct Hr as (_ & _ & Hw). rewrite Hw. case_decide; [|done]. intros E1. by destruct (Hm m Hs1).
Qed.

Lemma mx_sempost_inv c L idle o sem : mx_inv mutex_types c L idle o → mx_legal idle (MxSemPost sem) c →
  ∃ r s L', sem_post sem (mx_sem (c_st c)) = Some (r, s) ∧ mx_inv mutex_types (with_sems s c) L' idle o.
Proof.
  intros Hi (Hne & Hmax & Hm). pose proof Hi as [Hs _ _ Ht].
  destruct (sem_post_effect _ _ _ _ Hs Hne Hmax) as (s & L' & E & Hs' & Hc & He & Hf & Hr).
  exists SemOK, s, L'. split; [done|]. eapply mx_other_inv; [exact Hi|done|done| | |].
  - intros m Hs1. rewrite Hc, decide_False; [done|]. intros E1. by apply (Hm m Hs1).
  - intros y [m Hy]. split; [|by apply He]. destruct (_ <? 0); [|done]. destruct Hr as (z & _ & Hz & Hw).
    rewrite Hw, decide_False; [done|]. intros ->.
    destruct (ti_in _ _ _ _ _ _ _ Ht z m Hy) as (Hs1 & _ & _ & Hok).
    destruct Hok as [[Hok _]|[[Hok _]|[Hok _]]]; [|congruence..]. apply (Hm m Hs1). congruence.
  - intros y m Hs1. destruct (_ <? 0); [|by rewrite Hr]. destruct Hr as (z & _ & Hz & Hw). rewrite Hw.
    case_decide; [|done]. pose proof (ti_addr _ _ _ _ _ _ _ Ht m Hs1). unfold msem. lia.
Qed.

Lemma mx_tick_inv c L idle o : mx_inv mutex_types c L idle o →
  ∃ s L', on_sched sched_process_timeslice (c_st c) = Some (with_semst s (c_st c)) ∧
    mx_inv mutex_types (with_sems s c) L' idle o.
Proof.
  intros Hi. pose proof Hi as [Hs _ Hid Ht]. destruct (sem_tick_view _ _ _ Hs Hid) as (t & L' & E & Hs' & _ & Hv & Hco).
  exists (with_sched (mx_sem (c_st c)) t), L'. unfold on_sched, mx_sched. rewrite E. split; [done|].
  destruct Hv as [Hv1 Hv2 Hv3]. eapply mx_other_inv; [exact Hi|done| |by intros|by intros|].
  - intros y. by apply (field_core flags).
  - intros y m _. by rewrite Hv2.
Qed.

(** Every legal step returns and keeps the invariant. *)
Lemma mx_exec_inv c L idle o op : mx_inv mutex_types c L idle o → mx_legal idle op c →
  ∃ c' L' o', mx_exec op c = Some c' ∧ mx_inv mutex_types c' L' idle o'.
Proof.
  intros Hi Hop. destruct op as [m| |m|m|x| |sem|sem]; cbn [mx_exec].
  - destruct Hop as (Hc & HI & e & Hm & Hr), c as [st I H].
    destruct (pthread_mutex_lock_inv mutex_types st I H L idle o m e) as (r & st' & L' & o' & E & Hi' & _); try done.
    cbn [c_st]. rewrite E. by eexists _, L', o'.
  - destruct Hop as (Hc & m & Hm), c as [st I H]. rewrite Hm. cbn [mbind option_bind c_st].
    destruct (pthread_mutex_lock_resume_inv mutex_types st I H L idle o m) as (r & st' & L' & o' & E & Hi' & _); try done.
    rewrite E. by eexists _, L', o'.
  - destruct Hop as (Hc & HI & e & Hm & Hr), c as [st I H].
    destruct (pthread_mutex_trylock_inv mutex_types st I H L idle o m e) as (r & st' & L' & o' & E & Hi' & _); try done.
    cbn [c_st]. rewrite E. by eexists _, L', o'.
  - destruct Hop as (Hc & HI & e & Hm), c as [st I H].
    destruct (pthread_mutex_unlock_inv mutex_types st I H L idle o m e) as (r & st' & L' & o' & E & Hi' & _); try done.
    cbn [c_st]. rewrite E. by eexists _, L', o'.
  - destruct (mx_signal_inv c L idle o x Hi) as (s & L' & E & Hi'). rewrite E. by eexists _, L', o.
  - destruct (mx_tick_inv c L idle o Hi) as (s & L' & E & Hi'). rewrite E. by eexists _, L', o.
  - destruct (mx_semwait_inv c L idle o sem Hi Hop) as (r & s & L' & E & Hi'). rewrite E. by eexists _, L', o.
  - destruct (mx_sempost_inv c L idle o sem Hi Hop) as (r & s & L' & E & Hi'). rewrite E. by eexists _, L', o.
Qed.

Lemma mx_reachable_inv c L idle o c' : mx_inv mutex_types c L idle o → rtc (mx_step idle) c c' →
  ∃ L' o', mx_inv mutex_types c' L' idle o'.
Proof.
  intros Hi Hs. revert L o Hi. induction Hs as [c|c c1 c' (op & Hop & E) _ IH]; intros L o Hi; [eauto|].
  destruct (mx_exec_inv c L idle o op Hi Hop) as (c2 & L2 & o2 & E2 & Hi2). rewrite E in E2. injection E2 as <-. eauto.
Qed.

(** C5. In every run in which tasks lock and unlock mutexes, try to lock mutexes that are not
    recursive (recursive ones are the finding on pthread_mutex_trylock), wait for and post
    semaphores other than those of mutexes, are interrupted by signals and lose the processor at
    ticks, no two tasks ever hold the same mutex; a mutex that is held names its holder and its
    semaphore is taken, a mutex whose semaphore is available is held by nobody; and every such step
    returns, as long as the idle task makes no call, a recursive mutex is locked fewer than INT_MAX
    times and the counts of semaphores and of scheduler locks stay below their maximum. *)
Theorem mutex_exclusion c L idle c' : mx_start c L idle → rtc (mx_step idle) c c' →
  (∀ m e x y, mutexes (c_st c') !! m = Some e → (0 < c_held c' (x, m))%nat → (0 < c_held c' (y, m))%nat →
     x = y ∧ m_pid e = pid_of (mx_pids (c_st c')) x ∧ semcount (mx_sem (c_st c')) (msem m) ≤ 0) ∧
  (∀ m e, mutexes (c_st c') !! m = Some e → 0 < semcount (mx_sem (c_st c')) (msem m) →
     m_pid e = 0 ∧ ∀ x, c_held c' (x, m) = 0%nat) ∧
  ∀ op, mx_legal idle op c' → is_Some (mx_exec op c').
Proof.
  intros Hs Hr. destruct (mx_reachable_inv c L idle _ c' (mx_start_inv _ _ _ Hs) Hr) as (L' & o & Hi).
  pose proof (ti_tok _ _ _ _ _ _ _ (mi_tok _ _ _ _ _ Hi)) as Ht. split_and!.
  - intros m e x y Hm Hx Hy. specialize (Ht m e Hm). destruct (o m) as [|z|z]; cbn in Ht.
    + destruct Ht as (_ & _ & HU). rewrite HU in Hx by done. lia.
    + destruct Ht as (_ & _ & _ & HU). rewrite HU in Hx by done. lia.
    + destruct Ht as (Hc & _ & _ & Hp & HU & _). assert (x = z ∧ y = z) as [-> ->]; [|done].
      split; [destruct (decide (x = z)) as [|Hne]; [done|rewrite (HU x Hne) in Hx; lia]|
              destruct (decide (y = z)) as [|Hne]; [done|rewrite (HU y Hne) in Hy; lia]].
  - intros m e Hm Hc. specialize (Ht m e Hm). destruct (o m) as [|z|z]; cbn in Ht; [|lia..].
    destruct Ht as (_ & Hp & HU). split; [done|]. intros x. by apply HU.
  - intros op Hop. destruct (mx_exec_inv c' L' idle o op Hi Hop) as (c2 & _ & _ & E & _). by rewrite E.
Qed.

(** C14. pthread_mutex_lock, called by a task other than the idle task with its count of scheduler
    locks below the maximum, takes a free mutex at once; when the caller holds it already it counts
    another lock of a recursive mutex, locked fewer than INT_MAX times, and fails with EDEADLK for
    every other type, also for PTHREAD_MUTEX_NORMAL, where the descriptions say that it deadlocks (a
    finding); when another task holds it, or was granted it and has not run yet, the caller waits. *)
Theorem pthread_mutex_lock_correct c L idle o m e :
  let x := current c in
  mx_inv mutex_types c L idle o → may_call idle c → mutexes (c_st c) !! m = Some e → c_in c !! x = None →
  (recursive mutex_types e = true → m_nlocks e < INT_MAX) →
  ∃ r st' L' o', pthread_mutex_lock mutex_types m (c_st c) = Some (r, st') ∧
    mx_inv mutex_types (after_lock x m r st' c) L' idle o' ∧
    match o m with
    | Free => r = MxRet 0
    | Granted _ => r = MxWaits
    | Held y => r = if decide (y = x) then MxRet (if recursive mutex_types e then 0 else EDEADLK) else MxWaits
    end.
Proof.
  intros x Hi Hc Hm HI Hr. destruct c as [st I H].
  destruct (pthread_mutex_lock_inv mutex_types st I H L idle o m e Hi Hc Hm HI Hr) as (r & st' & L' & o' & E & Hi' & Er).
  exists r, st', L', o'. split_and!; [done|done|]. rewrite Er. fold (mx_sched st).
  change (this_task (mx_sched st)) with x. destruct (o m) as [|y|y]; [done|done|].
  destruct (decide (y = x)) as [->|Hne]; [by rewrite decide_True|].
  rewrite decide_False by congruence. by rewrite decide_False.
Qed.

(** C13. pthread_mutex_unlock by a task that does not hold the mutex fails with EPERM and leaves its
    owner alone; by the holder it gives back one lock, and the last one passes the mutex to the
    waiting task of the highest priority, to whom it is reserved until that task runs, or frees it
    when nobody waits. *)
Theorem pthread_mutex_unlock_correct c L idle o m e :
  let x := current c in
  mx_inv mutex_types c L idle o → may_call idle c → mutexes (c_st c) !! m = Some e → c_in c !! x = None →
  ∃ r st' L' o', pthread_mutex_unlock mutex_types m (c_st c) = Some (r, st') ∧
    mx_inv mutex_types (after_unlock x m r st' c) L' idle o' ∧
    if decide (o m = Held x) then
      r = 0 ∧
      if (1 <? c_held c (x, m))%nat then o' m = Held x
      else match waiting (tcbs (mx_sched (c_st c))) L (msem m) with
           | [] => o' m = Free
           | y :: _ => o' m = Granted y ∧ ∀ z, wsem (mx_sem (c_st c)) z = msem m →
               prio (tcbs (mx_sched (c_st c))) z ≤ prio (tcbs (mx_sched (c_st c))) y
           end
    else r = EPERM ∧ o' m = o m.
Proof.
  intros x Hi Hc Hm HI. destruct c as [st I H].
  destruct (pthread_mutex_unlock_inv mutex_types st I H L idle o m e Hi Hc Hm HI) as (r & st' & L' & o' & E & Hi' & Er).
  exists r, st', L', o'. split_and!; [done|done|]. revert Er. change (this_task (mx_sched st)) with x.
  case_decide as Ho; [|by intros [-> ->]]. intros [-> ->]. split; [done|]. cbn [c_held c_st].
  destruct (1 <? H (x, m))%nat; [done|]. rewrite fn_lookup_insert.
  pose proof (mi_sem _ _ _ _ _ Hi) as Hs. cbn [c_st] in Hs.
  assert (Hm0 : 0 < m) by (apply (ti_addr _ _ _ _ _ _ _ (mi_tok _ _ _ _ _ Hi)); by eexists).
  pose proof (waiting_highest (mx_sem st) L idle (msem m) Hs ltac:(unfold msem; lia)) as Hh.
  change (tcbs (sch (mx_sem st))) with (tcbs (mx_sched st)) in Hh.
  destruct (waiting _ _ _) as [|y W]; [done|]. by split.
Qed.
End Spec.

(** ** A concrete system *)

(** The tasks of [sched0] and one mutex at 0x1000, with the types of mutexes enabled. *)
Definition mxpids : pidst := (task_assignpid taskB (task_assignpid taskA pid0).2).2.
Definition mx_at (type : Z) : mxst :=
  mk_mx (set_semcount 0x1004 1 sem0) mxpids {[ 0x1000 := mk_mutex 0 type 0 ]}.
Definition mx0 : cfg := mk_cfg (mx_at PTHREAD_MUTEX_DEFAULT) ∅ (λ _, 0%nat).

Lemma mxpids_inv : pid_inv mxpids ∧ live mxpids taskA ∧ live mxpids taskB.
Proof.
  assert (Hn : ∀ x, x = taskA ∨ x = taskB → ¬ live pid0 x).
  { intros x Hx (_ & h & Hh). revert Hh. unfold pid0, pid_initialize. rewrite pidhash_at_set. case_decide; destruct Hx; by subst. }
  destruct (assigned_inv pid0 taskA 1 pid0_inv) as (Hi & _ & Hl & _);
    [done|apply Hn; by left|by vm_compute|by vm_compute|].
  destruct (assigned_inv _ taskB 2 Hi) as (Hi2 & _ & Hl2 & _);
    [done| |by vm_compute|by vm_compute|].
  { intros H%Hl. destruct H as [|H]; [done|]. revert H. apply Hn. by right. }
  split_and!; [exact Hi2|apply Hl2; right; apply Hl; by left|apply Hl2; by left].
Qed.

Lemma mx0_start : mx_start mx0 lists0 idle0.
Proof.
  split; [|apply mxpids_inv|by vm_compute|done|done|].
  - apply set_count_inv; [apply sem0_inv|done|by vm_compute|by vm_compute].
  - intros m e He. change (({[ 0x1000 := mk_mutex 0 PTHREAD_MUTEX_DEFAULT 0 ]} : gmap Z mutex_t) !! m = Some e) in He.
    apply lookup_singleton_Some in He as [<- <-]. by vm_compute.
Qed.

(** taskA locks the mutex, its time slice ends, and taskB waits for the mutex. *)
Definition mx_run (ops : list mx_op) (c : cfg) : option cfg :=
  foldl (λ c op, c ← c; mx_exec true op c) (Some c) ops.

Definition mx1 : cfg := default mx0 (mx_run [MxLock 0x1000] mx0).
Definition mx2 : cfg := default mx0 (mx_run [MxLock 0x1000; MxTick] mx0).
Definition mx3 : cfg := default mx0 (mx_run [MxLock 0x1000; MxTick; MxLock 0x1000] mx0).

Lemma mx_may_call c x : current c = x → mx_pids (c_st c) = mxpids → x = taskA ∨ x = taskB →
  bool_decide (Z.of_nat (sched_fuel (mx_sched (c_st c))) < ZMAX_WAITERS) = true →
  (locks (tcbs (mx_sched (c_st c))) (this_task (mx_sched (c_st c))) <? MAX_LOCK_COUNT) = true → may_call idle0 c.
Proof.
  intros Hx Hp Hab Hf Hl. unfold current in Hx. destruct mxpids_inv as (_ & Ha & Hb).
  split; rewrite ?Hx, ?Hp.
  - by destruct Hab as [-> | ->].
  - by destruct Hab as [-> | ->].
  - by destruct Hab as [-> | ->]; vm_compute.
  - by apply bool_decide_eq_true in Hf.
  - rewrite <-Hx. by apply Z.ltb_lt.
Qed.

Ltac may_call x := apply (mx_may_call _ x); [by vm_compute|by vm_compute|auto|by vm_compute|by vm_compute].

Lemma mx_steps : rtc (mx_step true idle0) mx0 mx3.
Proof.
  apply (rtc_l _ _ mx1); [|apply (rtc_l _ _ mx2); [|apply (rtc_once)]].
  - exists (MxLock 0x1000). split; [|by vm_compute]. split_and!; [may_call taskA|by vm_compute|].
    exists (mk_mutex 0 0 0). by vm_compute.
  - exists MxTick. by split; [|vm_compute].
  - exists (MxLock 0x1000). split; [|by vm_compute]. split_and!; [may_call taskB|by vm_compute|].
    exists (mk_mutex 1 0 1). by vm_compute.
Qed.

Lemma mutex_exclusion_witness : rtc (mx_step true idle0) mx0 mx3 ∧ c_held mx3 (taskA, 0x1000) = 1%nat ∧
  c_in mx3 !! taskB = Some 0x1000 ∧ ∀ y, (0 < c_held mx3 (y, 0x1000%Z))%nat → taskA = y.
Proof.
  split_and!; [apply mx_steps|by vm_compute|by vm_compute|]. intros y Hy.
  destruct (mutex_exclusion true mx0 lists0 idle0 mx3 mx0_start mx_steps) as (H & _ & _).
  apply (H 0x1000 (mk_mutex 1 0 1) taskA y); [by vm_compute| |exact Hy]. vm_compute. lia.
Defined.

Lemma pthread_mutex_lock_correct_witness : ∃ st', pthread_mutex_lock true 0x1000 (c_st mx0) = Some (MxRet 0, st').
Proof.
  destruct (pthread_mutex_lock_correct true mx0 lists0 idle0 (λ _, Free) 0x1000 (mk_mutex 0 0 0)) as (r & st' & L' & o' & E & _ & ->).
  - apply mx_start_inv, mx0_start.
  - may_call taskA.
  - done.
  - done.
  - done.
  - by exists st'.
Defined.

Lemma mx1_inv : ∃ L o, mx_inv true mx1 L idle0 o ∧ o 0x1000 = Held taskA.
Proof.
  destruct (mx_reachable_inv true mx0 lists0 idle0 (λ _, Free) mx1) as (L & o & Hi).
  { apply mx_start_inv, mx0_start. }
  { apply rtc_once. exists (MxLock 0x1000). split; [|by vm_compute]. split_and!; [may_call taskA|by vm_compute|].
    exists (mk_mutex 0 0 0). by vm_compute. }
  exists L, o. split; [exact Hi|].
  apply (owner_held true (c_st mx1) (c_in mx1) (c_held mx1) L idle0 o 0x1000 (mk_mutex 1 0 1)); [exact Hi|by vm_compute|..|by vm_compute].
  - assert (E : mx_pids (c_st mx1) = mxpids) by by vm_compute. rewrite E. apply mxpids_inv.
  - by vm_compute.
Qed.

Lemma pthread_mutex_unlock_correct_witness : ∃ st', pthread_mutex_unlock true 0x1000 (c_st mx1) = Some (0, st').
Proof.
  destruct mx1_inv as (L & o & Hi & Ho).
  destruct (pthread_mutex_unlock_correct true mx1 L idle0 o 0x1000 (mk_mutex 1 0 1)) as (r & st' & L' & o' & E & _ & H).
  - exact Hi.
  - may_call taskA.
  - by vm_compute.
  - by vm_compute.
  - assert (Hx : current mx1 = taskA) by by vm_compute. rewrite Hx, decide_True in H by done.
    destruct H as [-> _]. by exists st'.
Defined.

(** Finding: a recursive mutex taken with [pthread_mutex_trylock] counts no lock, so
    that two locks are released by one [pthread_mutex_unlock]. *)
Theorem recursive_trylock_unlocks :
  let c := mx_run [MxTryLock 0x1000; MxLock 0x1000; MxUnlock 0x1000] (mk_cfg (mx_at PTHREAD_MUTEX_RECURSIVE) ∅ (λ _, 0%nat)) in
  (λ c, (c_held c (taskA, 0x1000%Z), m_pid (mutex_at (c_st c) 0x1000), semcount (mx_sem (c_st c)) 0x1004)) <$> c =
  Some (1%nat, 0, 1).
Proof. by vm_compute. Qed.
