(* ===== verification/Mqueue.v ===== *)
(** POSIX message queues: sched/mq_sndinternal.c, mq_send.c, mq_rcvinternal.c,
    mq_receive.c, mq_msgfree.c, mq_msgqfree.c, mq_waitirq.c and the message
    blocks of mq_initialize.c, without CONFIG_DEBUG.

    Messages are [mqmsg_t] structures at addresses; their store is an [SqStore],
    so that the list of a queue and the two free lists are queues of lib/queue.
    [irq] tells whether the code runs in an interrupt handler.  The address that
    [kmalloc] returns for a further message is an argument ([dyn]); [kfree] takes
    the message out of the store.  Buffers are
    lists of bytes.  A call that blocks leaves its caller in a wait list; what
    it does when the caller runs again are the [_resume] definitions. *)

From stdpp Require Import base numbers functions gmap sorting list.
From S2P Require Import Prelude Queue Memory Sched Sem.

Definition EPERM : Z := 1.
Definition EMSGSIZE : Z := 90.
Definition O_RDOK : Z := 0x01.
Definition O_WROK : Z := 0x02.
Definition O_NONBLOCK : Z := 0x40.
Definition MQ_PRIO_MAX : Z := 255.
Definition CONFIG_PREALLOC_MQ_MSGS : nat := 4.
Definition NUM_INTERRUPT_MSGS : nat := 8.

(** ** Data: mq_internal.h, include/nuttx/mqueue.h *)

Inductive mqalloc_t := MQ_ALLOC_FIXED | MQ_ALLOC_DYN | MQ_ALLOC_IRQ.

#[global] Instance mqalloc_eq_dec : EqDecision mqalloc_t.
Proof. solve_decision. Defined.

(** [struct mqmsg]. *)
Record mqmsg_t := mk_mqmsg {
  m_next : Z; m_type : mqalloc_t; m_priority : Z; m_msglen : Z; m_mail : list Z
}.

Definition sizeof_mqmsg_t : Z := 40.

Definition mqmsg0 : mqmsg_t := mk_mqmsg 0 MQ_ALLOC_FIXED 0 0 [].
Definition with_mnext v m := mk_mqmsg v (m_type m) (m_priority m) (m_msglen m) (m_mail m).
Definition with_mtype v m := mk_mqmsg (m_next m) v (m_priority m) (m_msglen m) (m_mail m).
Definition with_message p n d m := mk_mqmsg (m_next m) (m_type m) (p mod 2 ^ 8) (n mod 2 ^ 8) d.

(** [struct msgq_s]. *)
Record msgq_t := mk_msgq {
  msglist : queue_t; maxmsgs : Z; nmsgs : Z; nwaitnotfull : Z; nwaitnotempty : Z; maxmsgsize : Z;
  ntmqdes : Z; ntpid : Z; ntsigno : Z; ntvalue : Z
}.

Definition msgq0 : msgq_t := mk_msgq sq_init 0 0 0 0 0 0 0 0 0.
Definition with_msglist v q := mk_msgq v (maxmsgs q) (nmsgs q) (nwaitnotfull q) (nwaitnotempty q)
  (maxmsgsize q) (ntmqdes q) (ntpid q) (ntsigno q) (ntvalue q).
Definition with_nmsgs v q := mk_msgq (msglist q) (maxmsgs q) (i16 v) (nwaitnotfull q) (nwaitnotempty q)
  (maxmsgsize q) (ntmqdes q) (ntpid q) (ntsigno q) (ntvalue q).
Definition with_nwaitnotfull v q := mk_msgq (msglist q) (maxmsgs q) (nmsgs q) (i16 v) (nwaitnotempty q)
  (maxmsgsize q) (ntmqdes q) (ntpid q) (ntsigno q) (ntvalue q).
Definition with_nwaitnotempty v q := mk_msgq (msglist q) (maxmsgs q) (nmsgs q) (nwaitnotfull q) (i16 v)
  (maxmsgsize q) (ntmqdes q) (ntpid q) (ntsigno q) (ntvalue q).
Definition detach_notify q := mk_msgq (msglist q) (maxmsgs q) (nmsgs q) (nwaitnotfull q) (nwaitnotempty q)
  (maxmsgsize q) 0 (-1) 0 0.

(** [struct mq_des]. *)
Record mq_des := mk_mqdes { d_msgq : Z; oflags : Z }.

Definition msgs := gmap Z mqmsg_t.
Definition msg_at (s : msgs) (p : Z) : mqmsg_t := default mqmsg0 (s !! p).
Definition on_msg (p : Z) (f : mqmsg_t → mqmsg_t) (s : msgs) : msgs := <[p := f (msg_at s p)]> s.

#[export] Instance msgs_sq : SqStore msgs := {
  flink s p := m_next (msg_at s p);
  set_flink p v s := on_msg p (with_mnext v) s;
}.

Record mqst := mk_mqst {
  mq_sch : sched; mq_msgs : msgs; msgqs : gmap Z msgq_t; mqdess : gmap Z mq_des;
  g_msgfree : queue_t; g_msgfreeirq : queue_t; g_irqerrno : Z
}.

Definition msgq_at (st : mqst) (q : Z) : msgq_t := default msgq0 (msgqs st !! q).
Definition mqdes_at (st : mqst) (d : Z) : mq_des := default (mk_mqdes 0 0) (mqdess st !! d).

Definition with_sch (s : sched) st :=
  mk_mqst s (mq_msgs st) (msgqs st) (mqdess st) (g_msgfree st) (g_msgfreeirq st) (g_irqerrno st).
Definition with_msgs (s : msgs) st :=
  mk_mqst (mq_sch st) s (msgqs st) (mqdess st) (g_msgfree st) (g_msgfreeirq st) (g_irqerrno st).
Definition with_msgq (q : Z) (f : msgq_t → msgq_t) st :=
  mk_mqst (mq_sch st) (mq_msgs st) (<[q := f (msgq_at st q)]> (msgqs st)) (mqdess st)
    (g_msgfree st) (g_msgfreeirq st) (g_irqerrno st).
Definition with_msgfree (r : queue_t * msgs) st :=
  mk_mqst (mq_sch st) r.2 (msgqs st) (mqdess st) r.1 (g_msgfreeirq st) (g_irqerrno st).
Definition with_msgfreeirq (r : queue_t * msgs) st :=
  mk_mqst (mq_sch st) r.2 (msgqs st) (mqdess st) (g_msgfree st) r.1 (g_irqerrno st).
Definition with_list (q : Z) (r : queue_t * msgs) st := with_msgq q (with_msglist r.1) (with_msgs r.2 st).
Definition mq_tcb (a : Z) (f : tcb → tcb) st := with_sch (on_tcb a f (mq_sch st)) st.

(** [set_errno]: interrupt handlers have an error number of their own. *)
Definition mq_set_errno (irq : bool) (v : Z) st :=
  if irq then mk_mqst (mq_sch st) (mq_msgs st) (msgqs st) (mqdess st) (g_msgfree st) (g_msgfreeirq st) v
  else mq_tcb (this_task (mq_sch st)) (with_errno v) st.

Inductive mq_ret := MqOK | MqERROR | MqBlocked.

(** ** mq_initialize.c: blocks of messages *)

Fixpoint mq_msgblock (n : nat) (mqmsg : Z) (alloc_type : mqalloc_t) (q : queue_t) (s : msgs) : queue_t * msgs :=
  match n with
  | O => (q, s)
  | S n =>
      let '(q, s) := sq_addlast mqmsg q (on_msg mqmsg (with_mtype alloc_type) s) in
      mq_msgblock n (mqmsg + sizeof_mqmsg_t) alloc_type q s
  end.

Definition mq_msgblockalloc (block : Z) (n : nat) (alloc_type : mqalloc_t) (q : queue_t) (s : msgs) :
    queue_t * msgs :=
  if negb (block =? 0) then mq_msgblock n block alloc_type q s else (q, s).

(** [mq_initialize], for the two lists of messages. *)
Definition mq_initialize (block blockirq : Z) (st : mqst) : mqst :=
  let st := with_msgfree (sq_init, mq_msgs st) st in
  let st := with_msgfreeirq (sq_init, mq_msgs st) st in
  let st := with_msgfree
    (mq_msgblockalloc block CONFIG_PREALLOC_MQ_MSGS MQ_ALLOC_FIXED (g_msgfree st) (mq_msgs st)) st in
  with_msgfreeirq
    (mq_msgblockalloc blockirq NUM_INTERRUPT_MSGS MQ_ALLOC_IRQ (g_msgfreeirq st) (mq_msgs st)) st.

(** ** mq_msgfree.c, mq_msgqfree.c *)

Definition mq_msgfree (mqmsg : Z) (st : mqst) : mqst :=
  match m_type (msg_at (mq_msgs st) mqmsg) with
  | MQ_ALLOC_FIXED => with_msgfree (sq_addlast mqmsg (g_msgfree st) (mq_msgs st)) st
  | MQ_ALLOC_IRQ => with_msgfreeirq (sq_addlast mqmsg (g_msgfreeirq st) (mq_msgs st)) st
  | MQ_ALLOC_DYN => with_msgs (delete mqmsg (mq_msgs st)) st
  end.

Fixpoint msgqfree_loop (fuel : nat) (curr : Z) (st : mqst) : option mqst :=
  if curr =? 0 then Some st else
  match fuel with
  | O => None
  | S fuel =>
      let next := m_next (msg_at (mq_msgs st) curr) in
      msgqfree_loop fuel next (mq_msgfree curr st)
  end.

Definition del_msgq (msgq : Z) (st : mqst) : mqst :=
  mk_mqst (mq_sch st) (mq_msgs st) (delete msgq (msgqs st)) (mqdess st)
    (g_msgfree st) (g_msgfreeirq st) (g_irqerrno st).

Definition mq_msgqfree (msgq : Z) (st : mqst) : option mqst :=
  st ← msgqfree_loop (size (mq_msgs st)) (q_head (msglist (msgq_at st msgq))) st;
  Some (del_msgq msgq st).

(** ** mq_sndinternal.c *)

Definition mq_verifysend (irq : bool) (mqdes : Z) (msg : option (list Z)) (msglen prio : Z) (st : mqst) :
    bool * mqst :=
  if negb (bool_decide (is_Some msg)) || (mqdes =? 0) || (prio <? 0) || (MQ_PRIO_MAX <? prio) then
    (false, mq_set_errno irq EINVAL st)
  else if Z.land (oflags (mqdes_at st mqdes)) O_WROK =? 0 then (false, mq_set_errno irq EPERM st)
  else if maxmsgsize (msgq_at st (d_msgq (mqdes_at st mqdes))) <? msglen then
    (false, mq_set_errno irq EMSGSIZE st)
  else (true, st).

Definition mq_msgalloc (irq : bool) (dyn : Z) (st : mqst) : option (Z * mqst) :=
  let '(mqmsg, q, s) := sq_remfirst (g_msgfree st) (mq_msgs st) in
  let st := with_msgfree (q, s) st in
  if negb (mqmsg =? 0) then Some (mqmsg, st)
  else if irq then
    let '(mqmsg, q, s) := sq_remfirst (g_msgfreeirq st) (mq_msgs st) in
    Some (mqmsg, with_msgfreeirq (q, s) st)
  else if negb (dyn =? 0) then Some (dyn, with_msgs (on_msg dyn (with_mtype MQ_ALLOC_DYN) (mq_msgs st)) st)
  else None.

(** One turn of the loop of [mq_waitsend]: block while the queue is full. *)
Definition mq_waitsend_loop (msgq : Z) (st : mqst) : option (mq_ret * mqst) :=
  if maxmsgs (msgq_at st msgq) <=? nmsgs (msgq_at st msgq) then
    let rtcb := this_task (mq_sch st) in
    let st := mq_tcb rtcb (with_msgwaitq msgq) st in
    let st := with_msgq msgq (with_nwaitnotfull (nwaitnotfull (msgq_at st msgq) + 1)) st in
    let st := mq_set_errno false 0 st in
    s ← up_block_task rtcb TSTATE_WAIT_MQNOTFULL (mq_sch st);
    Some (MqBlocked, with_sch s st)
  else Some (MqOK, st).

Definition mq_waitsend (mqdes : Z) (st : mqst) : option (mq_ret * mqst) :=
  let msgq := d_msgq (mqdes_at st mqdes) in
  if maxmsgs (msgq_at st msgq) <=? nmsgs (msgq_at st msgq) then
    if negb (Z.land (oflags (mqdes_at st mqdes)) O_NONBLOCK =? 0) then
      Some (MqERROR, mq_set_errno false EAGAIN st)
    else mq_waitsend_loop msgq st
  else Some (MqOK, st).

Definition mq_waitsend_resume (mqdes : Z) (st : mqst) : option (mq_ret * mqst) :=
  let rtcb := this_task (mq_sch st) in
  if negb (pterrno (get (mq_sch st) rtcb) =? 0) then Some (MqERROR, st)
  else mq_waitsend_loop (d_msgq (mqdes_at st mqdes)) st.

(** [for (prev = NULL, next = head; next && prio <= next->priority; ..)] *)
Fixpoint msg_search (fuel : nat) (s : msgs) (prio prev next : Z) : option (Z * Z) :=
  if negb (next =? 0) && (prio <=? m_priority (msg_at s next)) then
    match fuel with
    | O => None
    | S fuel => msg_search fuel s prio next (m_next (msg_at s next))
    end
  else Some (prev, next).

(** The message joins the list behind those of the same or a higher priority. *)
Definition msg_enqueue (msgq mqmsg prio : Z) (st : mqst) : option mqst :=
  let q := msglist (msgq_at st msgq) in
  '(prev, _) ← msg_search (size (mq_msgs st)) (mq_msgs st) prio 0 (q_head q);
  let st := with_list msgq (if negb (prev =? 0) then sq_addafter prev mqmsg q (mq_msgs st)
                            else sq_addfirst mqmsg q (mq_msgs st)) st in
  Some (with_msgq msgq (with_nmsgs (nmsgs (msgq_at st msgq) + 1)) st).

(** A task that waits for the queue not to be empty is woken. *)
Definition mq_wake_notempty (msgq : Z) (st : mqst) : option mqst :=
  if 0 <? nwaitnotempty (msgq_at st msgq) then
    btcb ← waiter_search msgwaitq (sched_fuel (mq_sch st)) (tcbs (mq_sch st)) msgq
             (q_head (qs (mq_sch st) g_waitingformqnotempty));
    if btcb =? 0 then None else
    let st := mq_tcb btcb (with_msgwaitq 0) st in
    let st := with_msgq msgq (with_nwaitnotempty (nwaitnotempty (msgq_at st msgq) - 1)) st in
    s ← up_unblock_task btcb (mq_sch st);
    Some (with_sch s st)
  else Some st.

Section Send.
(** Queueing the signal of [mq_notify]: process, signal number and value. *)
Variable sig_mqnotempty : Z → Z → Z → mqst → mqst.

Definition mq_notify_waiter (msgq : Z) (st : mqst) : mqst :=
  let q := msgq_at st msgq in
  if negb (ntmqdes q =? 0) then
    sig_mqnotempty (ntpid q) (ntsigno q) (ntvalue q) (with_msgq msgq detach_notify st)
  else st.

Definition mq_dosend (irq : bool) (mqdes mqmsg : Z) (msg : list Z) (msglen prio : Z) (st : mqst) : option mqst :=
  s ← sched_lock irq (mq_sch st);
  let st := with_sch s st in
  let msgq := d_msgq (mqdes_at st mqdes) in
  let st := with_msgs (on_msg mqmsg (with_message prio msglen (take (Z.to_nat msglen) msg)) (mq_msgs st)) st in
  st ← msg_enqueue msgq mqmsg prio st;
  let st := mq_notify_waiter msgq st in
  st ← mq_wake_notempty msgq st;
  s ← sched_unlock irq (mq_sch st);
  Some (with_sch s st).

(** ** mq_send.c *)

(** The rest of [mq_send], when there is room or the caller cannot wait. *)
Definition mq_send_rest (irq : bool) (dyn mqdes : Z) (msg : list Z) (msglen prio : Z) (st : mqst) :
    option (mq_ret * mqst) :=
  '(mqmsg, st) ← mq_msgalloc irq dyn st;
  '(ret, st) ← (if negb (mqmsg =? 0)
                then st ← mq_dosend irq mqdes mqmsg msg msglen prio st; Some (MqOK, st)
                else Some (MqERROR, st));
  s ← sched_unlock irq (mq_sch st);
  Some (ret, with_sch s st).

(** What follows the answer of [mq_waitsend]. *)
Definition mq_send_waited (dyn mqdes : Z) (msg : list Z) (msglen prio : Z) (r : mq_ret * mqst) :
    option (mq_ret * mqst) :=
  match r with
  | (MqOK, st) => mq_send_rest false dyn mqdes msg msglen prio st
  | (MqERROR, st) => s ← sched_unlock false (mq_sch st); Some (MqERROR, with_sch s st)
  | (MqBlocked, st) => Some (MqBlocked, st)
  end.

Definition mq_send (irq : bool) (dyn mqdes : Z) (msg : option (list Z)) (msglen prio : Z) (st : mqst) :
    option (mq_ret * mqst) :=
  let '(ok, st) := mq_verifysend irq mqdes msg msglen prio st in
  if negb ok then Some (MqERROR, st) else
  s ← sched_lock irq (mq_sch st);
  let st := with_sch s st in
  let msgq := d_msgq (mqdes_at st mqdes) in
  if irq || (nmsgs (msgq_at st msgq) <? maxmsgs (msgq_at st msgq))
  then mq_send_rest irq dyn mqdes (default [] msg) msglen prio st
  else
    r ← mq_waitsend mqdes st;
    mq_send_waited dyn mqdes (default [] msg) msglen prio r.

(** [mq_send] when its blocked caller runs again. *)
Definition mq_send_resume (dyn mqdes : Z) (msg : list Z) (msglen prio : Z) (st : mqst) : option (mq_ret * mqst) :=
  r ← mq_waitsend_resume mqdes st;
  mq_send_waited dyn mqdes msg msglen prio r.
End Send.

(** ** mq_rcvinternal.c *)

(** What a receive returns: the length, the bytes and the priority. *)
Inductive mq_rcv := RcvData (len : Z) (data : list Z) (prio : Z) | RcvERROR | RcvBlocked.

Definition mq_verifyreceive (mqdes : Z) (buffer : bool) (msglen : Z) (st : mqst) : bool * mqst :=
  if negb buffer || (mqdes =? 0) then (false, mq_set_errno false EINVAL st)
  else if Z.land (oflags (mqdes_at st mqdes)) O_RDOK =? 0 then (false, mq_set_errno false EPERM st)
  else if msglen <? maxmsgsize (msgq_at st (d_msgq (mqdes_at st mqdes))) then
    (false, mq_set_errno false EMSGSIZE st)
  else (true, st).

(** One turn of the loop of [mq_waitreceive]: the message, 0 without one, and
    whether the caller is blocked. *)
Definition mq_waitreceive (mqdes : Z) (st : mqst) : option (Z * bool * mqst) :=
  let msgq := d_msgq (mqdes_at st mqdes) in
  let '(rcvmsg, q, s) := sq_remfirst (msglist (msgq_at st msgq)) (mq_msgs st) in
  let st := with_list msgq (q, s) st in
  if negb (rcvmsg =? 0) then
    Some (rcvmsg, false, with_msgq msgq (with_nmsgs (nmsgs (msgq_at st msgq) - 1)) st)
  else if Z.land (oflags (mqdes_at st mqdes)) O_NONBLOCK =? 0 then
    let rtcb := this_task (mq_sch st) in
    let st := mq_tcb rtcb (with_msgwaitq msgq) st in
    let st := with_msgq msgq (with_nwaitnotempty (nwaitnotempty (msgq_at st msgq) + 1)) st in
    let st := mq_set_errno false 0 st in
    s ← up_block_task rtcb TSTATE_WAIT_MQNOTEMPTY (mq_sch st);
    Some (0, true, with_sch s st)
  else Some (0, false, mq_set_errno false EAGAIN st).

Definition mq_waitreceive_resume (mqdes : Z) (st : mqst) : option (Z * bool * mqst) :=
  let rtcb := this_task (mq_sch st) in
  if negb (pterrno (get (mq_sch st) rtcb) =? 0) then Some (0, false, st) else mq_waitreceive mqdes st.

(** A task that waits for the queue not to be full is woken. *)
Definition mq_wake_notfull (msgq : Z) (st : mqst) : option mqst :=
  if 0 <? nwaitnotfull (msgq_at st msgq) then
    btcb ← waiter_search msgwaitq (sched_fuel (mq_sch st)) (tcbs (mq_sch st)) msgq
             (q_head (qs (mq_sch st) g_waitingformqnotfull));
    if btcb =? 0 then None else
    let st := mq_tcb btcb (with_msgwaitq 0) st in
    let st := with_msgq msgq (with_nwaitnotfull (nwaitnotfull (msgq_at st msgq) - 1)) st in
    s ← up_unblock_task btcb (mq_sch st);
    Some (with_sch s st)
  else Some st.

Definition mq_doreceive (mqdes mqmsg : Z) (st : mqst) : option (mq_rcv * mqst) :=
  let m := msg_at (mq_msgs st) mqmsg in
  let st := mq_msgfree mqmsg st in
  st ← mq_wake_notfull (d_msgq (mqdes_at st mqdes)) st;
  Some (RcvData (m_msglen m) (take (Z.to_nat (m_msglen m)) (m_mail m)) (m_priority m), st).

(** ** mq_receive.c *)

(** What follows the answer of [mq_waitreceive]. *)
Definition mq_receive_waited (mqdes : Z) (r : Z * bool * mqst) : option (mq_rcv * mqst) :=
  let '(mqmsg, blocked, st) := r in
  if blocked : bool then Some (RcvBlocked, st) else
  '(ret, st) ← (if negb (mqmsg =? 0) then mq_doreceive mqdes mqmsg st else Some (RcvERROR, st));
  s ← sched_unlock false (mq_sch st);
  Some (ret, with_sch s st).

Definition mq_receive (mqdes : Z) (buffer : bool) (msglen : Z) (st : mqst) : option (mq_rcv * mqst) :=
  let '(ok, st) := mq_verifyreceive mqdes buffer msglen st in
  if negb ok then Some (RcvERROR, st) else
  s ← sched_lock false (mq_sch st);
  r ← mq_waitreceive mqdes (with_sch s st);
  mq_receive_waited mqdes r.

Definition mq_receive_resume (mqdes : Z) (st : mqst) : option (mq_rcv * mqst) :=
  r ← mq_waitreceive_resume mqdes st;
  mq_receive_waited mqdes r.

(** ** mq_waitirq.c *)

Definition mq_waitirq (wtcb errcode : Z) (st : mqst) : option mqst :=
  let state := task_state (get (mq_sch st) wtcb) in
  match state with
  | TSTATE_WAIT_MQNOTEMPTY | TSTATE_WAIT_MQNOTFULL =>
      let msgq := msgwaitq (get (mq_sch st) wtcb) in
      let st := mq_tcb wtcb (with_msgwaitq 0) st in
      let st := match state with
                | TSTATE_WAIT_MQNOTEMPTY =>
                    with_msgq msgq (with_nwaitnotempty (nwaitnotempty (msgq_at st msgq) - 1)) st
                | _ => with_msgq msgq (with_nwaitnotfull (nwaitnotfull (msgq_at st msgq) - 1)) st
                end in
      let st := mq_tcb wtcb (with_errno errcode) st in
      s ← up_unblock_task wtcb (mq_sch st);
      Some (with_sch s st)
  | _ => Some st
  end.
