(* ===== verification/MqInv.v ===== *)
(** The messages of the system as disjoint lists: one per queue, in the order
    they will be received, and the two pools of free messages. *)

From stdpp Require Import base numbers functions gmap sorting list.
From S2P Require Import Prelude Queue Memory Sched SchedInv Sem SemThms Mqueue.

(** Where a message can be. *)
Inductive mloc := LQ (q : Z) | LFree | LIrq.

#[global] Instance mloc_eq_dec : EqDecision mloc.
Proof. solve_decision. Defined.

Definition mqueue_of (st : mqst) (l : mloc) : queue_t :=
  match l with LQ q => msglist (msgq_at st q) | LFree => g_msgfree st | LIrq => g_msgfreeirq st end.

(** What an update of a list by an operation of Queue.v does to the state. *)
Definition mput (l : mloc) (r : queue_t * msgs) (st : mqst) : mqst :=
  match l with LQ q => with_list q r st | LFree => with_msgfree r st | LIrq => with_msgfreeirq r st end.

Definition mprio (s : msgs) (x : Z) : Z := m_priority (msg_at s x).
Definition mdata (m : mqmsg_t) : mqmsg_t := with_mnext 0 m.

Record mlists (st : mqst) (C : mloc → list Z) : Prop := {
  ml_repr : ∀ l, sq_repr (mq_msgs st) (mqueue_of st l) (C l);
  ml_disj : ∀ l l' x, x ∈ C l → x ∈ C l' → l = l';
  ml_dom : ∀ l x, x ∈ C l → is_Some (mq_msgs st !! x);
}.

(** Each queue is in priority order and counts its messages; the pools hold the
    messages that were made for them; no task has asked to be notified. *)
Record msg_inv (st : mqst) (C : mloc → list Z) : Prop := {
  mi_lists : mlists st C;
  mi_sorted : ∀ q, StronglySorted (pdesc (mprio (mq_msgs st))) (C (LQ q));
  mi_count : ∀ q, nmsgs (msgq_at st q) = Z.of_nat (length (C (LQ q)));
  mi_free : ∀ x, x ∈ C LFree → m_type (msg_at (mq_msgs st) x) = MQ_ALLOC_FIXED;
  mi_irq : ∀ x, x ∈ C LIrq → m_type (msg_at (mq_msgs st) x) = MQ_ALLOC_IRQ;
  mi_notify : ∀ q, ntmqdes (msgq_at st q) = 0;
}.

(** A message that is in no list. *)
Definition mfresh (C : mloc → list Z) (x : Z) : Prop := ∀ l, x ∉ C l.

Lemma mfn_insert_eq {A} (C : mloc → A) l v : <[l := v]> C l = v.
Proof. unfold insert, fn_insert. by rewrite decide_True. Qed.
Lemma mfn_insert_ne {A} (C : mloc → A) l v l' : l ≠ l' → <[l := v]> C l' = C l'.
Proof. intros. unfold insert, fn_insert. by rewrite decide_False. Qed.

Lemma msg_at_on p f s y : msg_at (on_msg p f s) y = if decide (y = p) then f (msg_at s y) else msg_at s y.
Proof.
  unfold on_msg. unfold msg_at at 1. unfold msgs in *. case_decide as E.
  - subst. by rewrite lookup_insert_eq.
  - by rewrite lookup_insert_ne.
Qed.

#[export] Instance msgs_laws : SqLaws msgs.
Proof. split. intros s p v y. simpl. rewrite msg_at_on. by case_decide. Qed.

Lemma on_msg_Some p f (s : msgs) y : is_Some (s !! y) → is_Some (on_msg p f s !! y).
Proof.
  unfold on_msg, msgs in *. destruct (decide (y = p)) as [->|];
    [rewrite lookup_insert_eq; eauto|by rewrite lookup_insert_ne].
Qed.

Lemma on_msg_Some_self p f (s : msgs) : is_Some (on_msg p f s !! p).
Proof. unfold on_msg, msgs in *. rewrite lookup_insert_eq. eauto. Qed.

Lemma msgq_at_with q f st y :
  msgq_at (with_msgq q f st) y = if decide (y = q) then f (msgq_at st y) else msgq_at st y.
Proof.
  unfold with_msgq. unfold msgq_at at 1. cbn [msgqs]. case_decide as E.
  - subst. by rewrite lookup_insert_eq.
  - by rewrite lookup_insert_ne.
Qed.

(** ** Writing links *)

Section Links.
Implicit Types (s : msgs) (P : list Z).

Lemma flinks_mdata P s s' y : flinks P s s' → mdata (msg_at s' y) = mdata (msg_at s y).
Proof.
  induction 1 as [|s s' p v Hp _ IH]; [done|]. simpl. rewrite msg_at_on, <-IH. by case_decide.
Qed.

Lemma flinks_dom P s s' y : flinks P s s' → is_Some (s !! y) → is_Some (s' !! y).
Proof. induction 1 as [|s s' p v Hp _ IH]; [done|]. intros ?. by apply on_msg_Some, IH. Qed.

(** A field other than the link. *)
Lemma mdata_field {A} (f : mqmsg_t → A) m m' : (∀ m, f (mdata m) = f m) → mdata m' = mdata m → f m' = f m.
Proof. intros Hf E. by rewrite <-(Hf m'), E. Qed.
End Links.

Section MsgLists.
Implicit Types (st : mqst) (C : mloc → list Z) (l : mloc).

Lemma mput_queue l r st l' :
  mqueue_of (mput l r st) l' = if decide (l' = l) then r.1 else mqueue_of st l'.
Proof.
  destruct l as [q| |], l' as [q'| |]; cbn [mqueue_of mput]; unfold with_list;
    rewrite ?msgq_at_with; repeat case_decide; simplify_eq; done.
Qed.

Lemma mput_msgs l r st : mq_msgs (mput l r st) = r.2.
Proof. by destruct l. Qed.

Lemma mput_sch l r st : mq_sch (mput l r st) = mq_sch st ∧ mqdess (mput l r st) = mqdess st.
Proof. by destruct l. Qed.

(** The fields of a queue other than its list. *)
Lemma mput_msgq {A} (f : msgq_t → A) l r st q :
  (∀ v m, f (with_msglist v m) = f m) → f (msgq_at (mput l r st) q) = f (msgq_at st q).
Proof.
  intros Hf. destruct l; cbn [mput]; [|done..]. unfold with_list. rewrite msgq_at_with.
  case_decide; [|done]. apply Hf.
Qed.

Lemma mlists_put st C l q s k P :
  mlists st C → sq_repr s q k → flinks P (mq_msgs st) s →
  (∀ x l', x ∈ P → l' ≠ l → x ∉ C l') → (∀ x, x ∈ k → x ∈ P) → (∀ x, x ∈ k → is_Some (s !! x)) →
  mlists (mput l (q, s) st) (<[l := k]> C).
Proof.
  intros Hm Hr Hf HP Hk Hd. split.
  - intros l'. rewrite mput_queue, mput_msgs. destruct (decide (l' = l)) as [->|Hne].
    + by rewrite mfn_insert_eq.
    + rewrite mfn_insert_ne by done. eapply sq_repr_frame; [exact Hf| |apply (ml_repr _ _ Hm)].
      intros y Hy HyP. by apply (HP _ _ HyP Hne).
  - intros l1 l2 x. destruct (decide (l = l1)) as [<-|], (decide (l = l2)) as [<-|];
      rewrite ?mfn_insert_eq, ?mfn_insert_ne by done; [done|..].
    + intros Hx1 Hx2. exfalso. by eapply HP; [apply Hk| |exact Hx2].
    + intros Hx1 Hx2. exfalso. by eapply HP; [apply Hk, Hx2| |exact Hx1].
    + apply (ml_disj _ _ Hm).
  - intros l' x. rewrite mput_msgs. destruct (decide (l = l')) as [<-|];
      rewrite ?mfn_insert_eq, ?mfn_insert_ne by done; [apply Hd|].
    intros Hx. eapply flinks_dom; [exact Hf|]. by apply (ml_dom _ _ Hm l').
Qed.

(** The nodes an insertion of [x] into list [l] may write. *)
Lemma mlists_own st C l x : mlists st C → mfresh C x →
  ∀ y l', y ∈ x :: C l → l' ≠ l → y ∉ C l'.
Proof.
  intros Hm Hx y l' [->|Hy]%elem_of_cons Hne; [apply Hx|]. intros Hy'. by apply Hne, (ml_disj _ _ Hm l' l y).
Qed.

Lemma mlists_length st C l : mlists st C → (length (C l) ≤ size (mq_msgs st))%nat.
Proof.
  intros Hm. destruct (ml_repr _ _ Hm l) as (_ & Hn & _).
  rewrite <-(size_list_to_set (C:=gset Z) (C l)) by done.
  etransitivity; [apply (subseteq_size _ (dom (mq_msgs st)))|].
  - intros x Hx%elem_of_list_to_set. apply elem_of_dom. by eapply ml_dom.
  - apply Nat.eq_le_incl, (size_dom (M:=gmap Z)).
Qed.

Lemma mlists_nonzero st C l x : mlists st C → x ∈ C l → x ≠ 0.
Proof. intros Hm Hx ->. by destruct (ml_repr _ _ Hm l) as (_ & _ & H0 & _). Qed.
End MsgLists.

(** ** The queue operations on lists of messages *)

Section MsgOps.
Implicit Types (st : mqst) (C : mloc → list Z) (l : mloc).

(** Only links differ. *)
Definition same_mail (s s' : msgs) : Prop := ∀ y, mdata (msg_at s' y) = mdata (msg_at s y).

Lemma same_mail_field {A} (f : mqmsg_t → A) s s' y :
  (∀ m, f (mdata m) = f m) → same_mail s s' → f (msg_at s' y) = f (msg_at s y).
Proof. intros Hf Hs. by apply mdata_field. Qed.

Lemma sq_remfirst_nil st C l : mlists st C → C l = [] →
  sq_remfirst (mqueue_of st l) (mq_msgs st) = (0, mqueue_of st l, mq_msgs st).
Proof.
  intros Hm E. destruct (ml_repr _ _ Hm l) as (_ & _ & _ & Hh & _). rewrite E in Hh. simpl in Hh.
  unfold sq_remfirst. by rewrite Hh.
Qed.

Lemma sq_remfirst_cons st C l x r : mlists st C → C l = x :: r →
  ∃ q s, sq_remfirst (mqueue_of st l) (mq_msgs st) = (x, q, s) ∧
    mlists (mput l (q, s) st) (<[l := r]> C) ∧ same_mail (mq_msgs st) s ∧
    mfresh (<[l := r]> C) x ∧ x ≠ 0 ∧ is_Some (s !! x).
Proof.
  intros Hm E. pose proof (ml_repr _ _ Hm l) as Hr. pose proof (sq_remfirst_spec _ _ _ Hr) as Hs.
  pose proof (sq_remfirst_flinks _ _ _ Hr) as Hf. rewrite E in *.
  destruct (sq_remfirst _ _) as [[y q] s]. simpl in Hs, Hf. destruct Hs as (-> & Hs & _).
  destruct Hr as (_ & [Hxr _]%NoDup_cons & _).
  assert (Hx : ∀ l', l' ≠ l → x ∉ C l').
  { intros l' Hne Hy. apply Hne, (ml_disj _ _ Hm l' l x); [done|]. rewrite E. in_list. }
  exists q, s. split_and!; [done| | | | |].
  - eapply mlists_put; [done|exact Hs|exact Hf| | |].
    + intros y l' Hy Hne Hy'. apply Hne, (ml_disj _ _ Hm l' l y); [done|]. by rewrite E.
    + intros y Hy. in_list.
    + intros y Hy. eapply flinks_dom; [exact Hf|]. apply (ml_dom _ _ Hm l). rewrite E. in_list.
  - intros y. by eapply flinks_mdata.
  - intros l'. destruct (decide (l = l')) as [<-|]; rewrite ?mfn_insert_eq, ?mfn_insert_ne by done; auto.
  - eapply mlists_nonzero; [done|]. rewrite E. in_list.
  - eapply flinks_dom; [exact Hf|]. apply (ml_dom _ _ Hm l). rewrite E. in_list.
Qed.

Lemma sq_addlast_mlists st C l x : mlists st C → mfresh C x → x ≠ 0 → is_Some (mq_msgs st !! x) →
  mlists (mput l (sq_addlast x (mqueue_of st l) (mq_msgs st)) st) (<[l := C l ++ [x]]> C) ∧
  same_mail (mq_msgs st) (sq_addlast x (mqueue_of st l) (mq_msgs st)).2.
Proof.
  intros Hm Hx Hx0 Hd. pose proof (ml_repr _ _ Hm l) as Hr.
  pose proof (sq_addlast_spec _ _ _ x Hr (Hx l) Hx0) as Hs.
  pose proof (sq_addlast_flinks _ _ _ x Hr) as Hf. destruct (sq_addlast _ _ _) as [q s]. simpl in Hs, Hf.
  split; [|intros y; by eapply flinks_mdata].
  eapply mlists_put; [done|exact Hs|exact Hf|by eapply mlists_own| |]; intros y Hy;
    rewrite elem_of_app, list_elem_of_singleton in Hy; [in_list|].
  eapply flinks_dom; [exact Hf|]. destruct Hy as [Hy| ->]; [|done].
  by apply (ml_dom _ _ Hm l).
Qed.

(** The place of a new message. *)
Lemma msg_search_spec fuel s p prev k :
  chain (flink s) k 0 → 0 ∉ k → (length k ≤ fuel)%nat →
  ∃ k1 k2, k = k1 ++ k2 ∧
    msg_search fuel s p prev (default 0 (head k)) = Some (default prev (last k1), default 0 (head k2)) ∧
    (∀ y, y ∈ k1 → p ≤ mprio s y) ∧ (∀ y, head k2 = Some y → mprio s y < p).
Proof.
  revert fuel prev. induction k as [|a k IH]; intros fuel prev Hc H0 Hf.
  { exists [], []. split_and!; [done|by destruct fuel|intros y []%not_elem_of_nil|done]. }
  apply not_elem_of_cons in H0 as [Ha H0]. destruct Hc as [Hn Hc]. simpl in Hf.
  change (m_next (msg_at s a) = default 0 (head k)) in Hn. change (default 0 (head (a :: k))) with a.
  destruct fuel as [|fuel]; [lia|]. cbn [msg_search]. rewrite (proj2 (Z.eqb_neq a 0)) by done.
  cbn [negb andb]. case_test.
  - destruct (IH fuel a) as (k1 & k2 & -> & Es & H1 & H2); [done|done|lia|].
    exists (a :: k1), k2. split_and!; [done| | |done].
    + rewrite Hn, Es, last_cons. by destruct (last k1).
    + intros y [->|Hy]%elem_of_cons; [done|by apply H1].
  - exists [], (a :: k). split_and!; [done|done|intros y []%not_elem_of_nil|].
    intros y [= <-]. done.
Qed.

Lemma msg_enqueue_mlists st C q x :
  mlists st C → mfresh C x → x ≠ 0 → is_Some (mq_msgs st !! x) →
  ∃ r, msg_enqueue q x (mprio (mq_msgs st) x) st =
      Some (with_msgq q (with_nmsgs (nmsgs (msgq_at (mput (LQ q) r st) q) + 1)) (mput (LQ q) r st)) ∧
    mlists (mput (LQ q) r st) (<[LQ q := pinsert (mprio (mq_msgs st)) x (C (LQ q))]> C) ∧
    same_mail (mq_msgs st) r.2.
Proof.
  intros Hm Hx Hx0 Hd. pose proof (ml_repr _ _ Hm (LQ q)) as Hr. cbn [mqueue_of] in Hr.
  pose proof Hr as (Hc & Hn & H0 & Hh & Ht).
  destruct (msg_search_spec (size (mq_msgs st)) (mq_msgs st) (mprio (mq_msgs st) x) 0 (C (LQ q)) Hc H0)
    as (k1 & k2 & Ek & Es & H1 & H2); [by apply mlists_length|].
  unfold msg_enqueue. rewrite Hh, Es. cbn [mbind option_bind].
  eexists. split; [reflexivity|]. rewrite Ek, pinsert_app by done.
  match goal with |- context [mput _ ?r] => destruct r as [q' s'] eqn:Er end.
  assert (Hs : sq_repr s' q' (k1 ++ x :: k2) ∧ flinks (x :: C (LQ q)) (mq_msgs st) s').
  { pose proof (Hx (LQ q)) as Hxq. revert Er. destruct k1 as [|p k1 _] using rev_ind.
    - simpl. intros Er. simpl in Ek. split.
      + pose proof (sq_addfirst_spec _ _ _ x Hr Hxq Hx0) as Ha. rewrite Er, Ek in Ha. exact Ha.
      + pose proof (sq_addfirst_flinks (mq_msgs st) (msglist (msgq_at st q)) (C (LQ q)) x) as Ha.
        by rewrite Er in Ha.
    - rewrite last_snoc. rewrite <-app_assoc in Ek. simpl in Ek.
      assert (p ∈ C (LQ q)) by (rewrite Ek; in_list). simpl.
      rewrite (proj2 (Z.eqb_neq p 0)) by (intros ->; done). cbn [negb]. intros Er. split.
      + rewrite Ek in Hr, Hxq. pose proof (sq_addafter_spec _ _ _ _ _ x Hr Hxq Hx0) as Ha.
        rewrite Er in Ha. by rewrite <-app_assoc.
      + pose proof (sq_addafter_flinks _ _ _ p x Hr ltac:(done)) as Ha. by rewrite Er in Ha. }
  destruct Hs as [Hs Hf]. split; [|intros y; by eapply flinks_mdata].
  eapply mlists_put; [done|exact Hs|exact Hf|by eapply mlists_own| |]; intros y Hy.
  - rewrite Ek. in_list.
  - eapply flinks_dom; [exact Hf|]. apply elem_of_app in Hy as [Hy|[->|Hy]%elem_of_cons]; [|done|];
      apply (ml_dom _ _ Hm (LQ q)); rewrite Ek; in_list.
Qed.
End MsgOps.
