(* ===== verification/MqOps.v ===== *)
(** What allocating, queueing, removing and freeing a message does to the lists
    of messages. *)

From stdpp Require Import base numbers functions gmap sorting list.
From S2P Require Import Prelude Queue Memory Sched SchedInv Sem SemThms Mqueue MqInv.

Section MsgInv.
Implicit Types (st : mqst) (C : mloc → list Z) (l : mloc).

(** States that differ in the scheduler, in error numbers or in counts of
    waiting tasks. *)
Record same_messages st st' : Prop := {
  sm_msgs : mq_msgs st' = mq_msgs st;
  sm_free : g_msgfree st' = g_msgfree st;
  sm_irq : g_msgfreeirq st' = g_msgfreeirq st;
  sm_queue q : msglist (msgq_at st' q) = msglist (msgq_at st q) ∧ nmsgs (msgq_at st' q) = nmsgs (msgq_at st q) ∧
    ntmqdes (msgq_at st' q) = ntmqdes (msgq_at st q) ∧ maxmsgs (msgq_at st' q) = maxmsgs (msgq_at st q) ∧
    maxmsgsize (msgq_at st' q) = maxmsgsize (msgq_at st q);
  sm_des : mqdess st' = mqdess st;
}.

#[global] Instance same_messages_preorder : PreOrder same_messages.
Proof.
  split.
  - intros st. by split.
  - intros s1 s2 s3 [? ? ? H1 ?] [? ? ? H2 ?]. split; try congruence.
    intros q. destruct (H1 q) as (?&?&?&?&?), (H2 q) as (?&?&?&?&?). split_and!; congruence.
Qed.

Lemma same_messages_sch s st : same_messages st (with_sch s st).
Proof. by split. Qed.

Lemma same_messages_msgq q f st :
  (∀ m, msglist (f m) = msglist m ∧ nmsgs (f m) = nmsgs m ∧ ntmqdes (f m) = ntmqdes m ∧
        maxmsgs (f m) = maxmsgs m ∧ maxmsgsize (f m) = maxmsgsize m) →
  same_messages st (with_msgq q f st).
Proof. intros Hf. split; [done..| |done]. intros q'. rewrite msgq_at_with. case_decide; [apply Hf|done]. Qed.

Lemma same_messages_errno irq v st : same_messages st (mq_set_errno irq v st).
Proof. by destruct irq. Qed.

Lemma msg_inv_ext st st' C : same_messages st st' → msg_inv st C → msg_inv st' C.
Proof.
  intros [E1 E2 E3 E4 E5] [[Hr Hd Hdom] Hs Hc H1 H2 Hn].
  split; [split|..]; rewrite ?E1; try done.
  - intros l. replace (mqueue_of st' l) with (mqueue_of st l); [done|].
    destruct l as [q| |]; cbn [mqueue_of]; [|done..]. by rewrite (proj1 (E4 q)).
  - intros q. destruct (E4 q) as (_ & -> & _). apply Hc.
  - intros q. destruct (E4 q) as (_ & _ & -> & _). apply Hn.
Qed.

Lemma msg_inv_change st st' C C' :
  msg_inv st C → mlists st' C' → same_mail (mq_msgs st) (mq_msgs st') →
  (∀ q, ntmqdes (msgq_at st' q) = ntmqdes (msgq_at st q)) →
  (∀ q, nmsgs (msgq_at st' q) = Z.of_nat (length (C' (LQ q)))) →
  (∀ q, StronglySorted (pdesc (mprio (mq_msgs st))) (C' (LQ q))) →
  (∀ x, x ∈ C' LFree → m_type (msg_at (mq_msgs st) x) = MQ_ALLOC_FIXED) →
  (∀ x, x ∈ C' LIrq → m_type (msg_at (mq_msgs st) x) = MQ_ALLOC_IRQ) →
  msg_inv st' C'.
Proof.
  intros Hi Hl Hm Hn Hc Hs H1 H2. split; [done| |done|..].
  - intros q. eapply sorted_ext; [|apply Hs]. intros y _. by apply (same_mail_field m_priority).
  - intros x Hx. rewrite (same_mail_field m_type _ _ _ (λ _, eq_refl) Hm). auto.
  - intros x Hx. rewrite (same_mail_field m_type _ _ _ (λ _, eq_refl) Hm). auto.
  - intros q. rewrite Hn. apply (mi_notify _ _ Hi).
Qed.

(** A message that is in no list may be filled. *)
Lemma msg_inv_fresh st C x f :
  msg_inv st C → mfresh C x → (∀ m, m_next (f m) = m_next m) →
  msg_inv (with_msgs (on_msg x f (mq_msgs st)) st) C.
Proof.
  intros [[Hr Hd Hdom] Hs Hc H1 H2 Hn] Hx Hf.
  assert (He : ∀ l y, y ∈ C l → msg_at (on_msg x f (mq_msgs st)) y = msg_at (mq_msgs st) y).
  { intros l y Hy. rewrite msg_at_on, decide_False; [done|]. intros ->. by apply (Hx l). }
  split; [split|..]; cbn [with_msgs mq_msgs]; try done.
  - intros l. eapply sq_repr_links; [|destruct l; apply Hr]. intros y Hy. simpl. by rewrite (He l).
  - intros l y Hy. apply on_msg_Some. by eapply Hdom.
  - intros q. eapply sorted_ext; [|apply Hs]. intros y Hy. unfold mprio. by rewrite (He (LQ q)).
  - intros y Hy. rewrite (He LFree) by done. auto.
  - intros y Hy. rewrite (He LIrq) by done. auto.
Qed.

(** ** Allocation *)

(** The pool of free messages loses its first message. *)
Lemma take_free st C l x r :
  msg_inv st C → (∀ q, l ≠ LQ q) → C l = x :: r →
  ∃ q s, sq_remfirst (mqueue_of st l) (mq_msgs st) = (x, q, s) ∧
    msg_inv (mput l (q, s) st) (<[l := r]> C) ∧ same_mail (mq_msgs st) s ∧
    mfresh (<[l := r]> C) x ∧ x ≠ 0 ∧ is_Some (s !! x).
Proof.
  intros Hi Hl E. destruct (sq_remfirst_cons _ _ _ _ _ (mi_lists _ _ Hi) E) as (q & s & Es & Hm & Hs & Hx).
  exists q, s. split_and!; [done| |done|apply Hx..].
  assert (HC : ∀ l' y, y ∈ <[l := r]> C l' → y ∈ C l').
  { intros l' y. destruct (decide (l = l')) as [<-|]; rewrite ?mfn_insert_eq, ?mfn_insert_ne by done; [|done].
    rewrite E. in_list. }
  eapply msg_inv_change; [exact Hi|done|by rewrite mput_msgs|..].
  - intros q'. by rewrite mput_msgq.
  - intros q'. rewrite mput_msgq, mfn_insert_ne by done. apply (mi_count _ _ Hi).
  - intros q'. rewrite mfn_insert_ne by done. apply (mi_sorted _ _ Hi).
  - intros y Hy. apply (mi_free _ _ Hi). auto.
  - intros y Hy. apply (mi_irq _ _ Hi). auto.
Qed.

(** What [mq_msgalloc] can give. *)
Definition mavail (irq : bool) (dyn : Z) C : Prop :=
  C LFree ≠ [] ∨ if irq then C LIrq ≠ [] else dyn ≠ 0 ∧ mfresh C dyn.

(** The lists after an allocation. *)
Definition malloced (irq : bool) C : mloc → list Z :=
  match C LFree with
  | _ :: r => <[LFree := r]> C
  | [] => if irq then <[LIrq := tail (C LIrq)]> C else C
  end.

Record taken st C x st' C' : Prop := {
  tk_inv : msg_inv st' C';
  tk_fresh : mfresh C' x;
  tk_nonzero : x ≠ 0;
  tk_dom : is_Some (mq_msgs st' !! x);
  tk_queues : ∀ q, C' (LQ q) = C (LQ q);
  tk_mail : ∀ y q, y ∈ C (LQ q) → mdata (msg_at (mq_msgs st') y) = mdata (msg_at (mq_msgs st) y);
  tk_sch : mq_sch st' = mq_sch st ∧ mqdess st' = mqdess st ∧ msgqs st' = msgqs st;
}.

Lemma mq_msgalloc_spec irq dyn st C : msg_inv st C → mavail irq dyn C →
  ∃ x st', mq_msgalloc irq dyn st = Some (x, st') ∧ taken st C x st' (malloced irq C).
Proof.
  intros Hi Ha. unfold mq_msgalloc, malloced. destruct (C LFree) as [|x r] eqn:E.
  - pose proof (sq_remfirst_nil _ _ LFree (mi_lists _ _ Hi) E) as E0. cbn [mqueue_of] in E0. rewrite E0.
    cbn [negb Z.eqb]. clear E0.
    assert (Hi' : msg_inv (with_msgfree (g_msgfree st, mq_msgs st) st) C) by (by eapply msg_inv_ext; [|exact Hi]; split).
    destruct irq.
    + destruct Ha as [[]%(λ H, H E)|Ha]. destruct (C LIrq) as [|x r] eqn:E'; [done|].
      destruct (take_free _ _ LIrq x r Hi') as (q & s & Es & Hm & Hs & Hx & Hx0 & Hd); [done|done|].
      cbn [mqueue_of] in Es. rewrite Es. eexists _, _. split; [reflexivity|]. simpl in *.
      by split.
    + destruct Ha as [[]%(λ H, H E)|[Ha Hx]]. rewrite (proj2 (Z.eqb_neq dyn 0)) by done. cbn [negb].
      eexists _, _. split; [reflexivity|].
      split; [by apply msg_inv_fresh|done|done|apply on_msg_Some_self|done| |done].
      intros y q Hy. cbn [with_msgs mq_msgs with_msgfree snd]. rewrite msg_at_on, decide_False; [done|].
      intros ->. by apply (Hx (LQ q)).
  - destruct (take_free _ _ LFree x r Hi) as (q & s & Es & Hm & Hs & Hx & Hx0 & Hd); [done|done|].
    cbn [mqueue_of] in Es. rewrite Es. rewrite (proj2 (Z.eqb_neq x 0)) by done. cbn [negb].
    eexists _, _. split; [reflexivity|]. by split.
Qed.

(** ** Queueing, removing and freeing *)

(** A queue without its list of messages and its count. *)
Definition qrest (m : msgq_t) : msgq_t := with_nmsgs 0 (with_msglist sq_init m).

(** States with the same scheduler, descriptors and queues, up to messages. *)
Definition same_rest st st' : Prop :=
  mq_sch st' = mq_sch st ∧ mqdess st' = mqdess st ∧ ∀ q, qrest (msgq_at st' q) = qrest (msgq_at st q).

Lemma same_rest_refl st : same_rest st st.
Proof. by split_and!. Qed.

Lemma same_rest_trans s1 s2 s3 : same_rest s1 s2 → same_rest s2 s3 → same_rest s1 s3.
Proof. intros (? & ? & H1) (? & ? & H2). split_and!; [congruence..|]. intros q. by rewrite H2. Qed.

Lemma same_rest_put l r st : same_rest st (mput l r st).
Proof. split_and!; [by destruct l..|]. intros q. by rewrite mput_msgq. Qed.

Lemma same_rest_nmsgs q v st : same_rest st (with_msgq q (with_nmsgs v) st).
Proof. split_and!; [done..|]. intros q'. rewrite msgq_at_with. by case_decide. Qed.

Lemma same_rest_field {A} (f : msgq_t → A) st st' q :
  (∀ m, f (qrest m) = f m) → same_rest st st' → f (msgq_at st' q) = f (msgq_at st q).
Proof. intros Hf (_ & _ & E). by rewrite <-(Hf (msgq_at st' q)), E. Qed.

Lemma length_pinsert pr x k : length (pinsert pr x k) = S (length k).
Proof. destruct (pinsert_split pr x k) as (k1 & k2 & -> & -> & _). rewrite !length_app. simpl. lia. Qed.

(** Replacing the list and the count of one queue. *)
Lemma msg_inv_queue st C q r k v :
  msg_inv st C → mlists (mput (LQ q) r st) (<[LQ q := k]> C) → same_mail (mq_msgs st) r.2 →
  StronglySorted (pdesc (mprio (mq_msgs st))) k → i16 v = Z.of_nat (length k) →
  msg_inv (with_msgq q (with_nmsgs v) (mput (LQ q) r st)) (<[LQ q := k]> C).
Proof.
  intros Hi Hl Hs Hk Hv.
  assert (Hl' : mlists (with_msgq q (with_nmsgs v) (mput (LQ q) r st)) (<[LQ q := k]> C)).
  { destruct Hl as [Hr Hd Hdom]. split; [|done..]. intros l.
    replace (mqueue_of _ l) with (mqueue_of (mput (LQ q) r st) l); [apply Hr|].
    destruct l as [q'| |]; cbn [mqueue_of]; [|done..]. rewrite (msgq_at_with q (with_nmsgs v)).
    by case_decide. }
  eapply msg_inv_change; [exact Hi|exact Hl'|done|..].
  - intros q'. rewrite msgq_at_with, <-(mput_msgq ntmqdes (LQ q) r st q') by done. by case_decide.
  - intros q'. rewrite msgq_at_with. case_decide; [subst; by rewrite mfn_insert_eq|].
    rewrite mput_msgq by done. rewrite mfn_insert_ne by congruence. apply (mi_count _ _ Hi).
  - intros q'. destruct (decide (q = q')) as [<-|]; [by rewrite mfn_insert_eq|].
    rewrite (mfn_insert_ne C) by congruence. apply (mi_sorted _ _ Hi).
  - intros y. rewrite mfn_insert_ne by done. apply (mi_free _ _ Hi).
  - intros y. rewrite mfn_insert_ne by done. apply (mi_irq _ _ Hi).
Qed.

Definition MAX_MSGS : Z := 32767.

Lemma msg_enqueue_spec st C q x :
  msg_inv st C → mfresh C x → x ≠ 0 → is_Some (mq_msgs st !! x) → Z.of_nat (length (C (LQ q))) < MAX_MSGS →
  ∃ st', msg_enqueue q x (mprio (mq_msgs st) x) st = Some st' ∧
    msg_inv st' (<[LQ q := pinsert (mprio (mq_msgs st)) x (C (LQ q))]> C) ∧
    same_mail (mq_msgs st) (mq_msgs st') ∧ same_rest st st'.
Proof.
  intros Hi Hx Hx0 Hd Hlt.
  destruct (msg_enqueue_mlists _ _ q x (mi_lists _ _ Hi) Hx Hx0 Hd) as (r & E & Hl & Hs).
  eexists. split; [exact E|]. split_and!.
  - apply msg_inv_queue; try done; [by apply pinsert_sorted, mi_sorted|].
    rewrite mput_msgq, (mi_count _ _ Hi), length_pinsert by done. unfold MAX_MSGS in Hlt.
    rewrite i16_small; lia.
  - done.
  - eapply same_rest_trans; [apply same_rest_put|apply same_rest_nmsgs].
Qed.

Lemma msg_dequeue_spec st C q x r :
  msg_inv st C → C (LQ q) = x :: r → Z.of_nat (length (C (LQ q))) ≤ MAX_MSGS →
  ∃ h s, sq_remfirst (msglist (msgq_at st q)) (mq_msgs st) = (x, h, s) ∧
    let st1 := with_list q (h, s) st in
    let st' := with_msgq q (with_nmsgs (nmsgs (msgq_at st1 q) - 1)) st1 in
    msg_inv st' (<[LQ q := r]> C) ∧ mfresh (<[LQ q := r]> C) x ∧ x ≠ 0 ∧ is_Some (mq_msgs st' !! x) ∧
    same_mail (mq_msgs st) (mq_msgs st') ∧ same_rest st st'.
Proof.
  intros Hi E Hlt. destruct (sq_remfirst_cons _ _ _ _ _ (mi_lists _ _ Hi) E) as (h & s & Es & Hm & Hs & Hx & Hx0 & Hd).
  cbn [mqueue_of] in Es. exists h, s. split; [exact Es|]. cbv zeta.
  change (with_list q (h, s) st) with (mput (LQ q) (h, s) st). split_and!; [|done..|].
  - apply msg_inv_queue; try done.
    + pose proof (mi_sorted _ _ Hi q) as Ho. rewrite E in Ho. by apply StronglySorted_inv in Ho as [].
    + rewrite mput_msgq, (mi_count _ _ Hi), E by done. rewrite E in Hlt. simpl in *. unfold MAX_MSGS in Hlt.
      rewrite i16_small; lia.
  - eapply same_rest_trans; [apply same_rest_put|apply same_rest_nmsgs].
Qed.

(** The pool a message returns to. *)
Definition mfreed (t : mqalloc_t) (x : Z) C : mloc → list Z :=
  match t with
  | MQ_ALLOC_FIXED => <[LFree := C LFree ++ [x]]> C
  | MQ_ALLOC_IRQ => <[LIrq := C LIrq ++ [x]]> C
  | MQ_ALLOC_DYN => C
  end.

Lemma mfreed_queue t x C q : mfreed t x C (LQ q) = C (LQ q).
Proof. by destruct t. Qed.

(** Freeing [x] changes no other message, but for the link of a message in a list. *)
Definition only_freed C (x : Z) (s s' : msgs) : Prop :=
  (∀ y, y ≠ x → mdata (msg_at s' y) = mdata (msg_at s y)) ∧
  (∀ y, y ≠ x → mfresh C y → m_next (msg_at s' y) = m_next (msg_at s y)) ∧
  (∀ y, y ≠ x → is_Some (s !! y) → is_Some (s' !! y)).

Lemma flinks_only_freed C x l (s s' : msgs) : flinks (x :: C l) s s' → only_freed C x s s'.
Proof.
  intros Hf. split_and!; intros y Hy.
  - by eapply flinks_mdata.
  - intros Hfr. apply (flinks_frame _ _ _ y Hf). specialize (Hfr l). in_list.
  - by eapply flinks_dom.
Qed.

(** Freeing memory: a message that is in no list. *)
Lemma msg_inv_delete st C x :
  msg_inv st C → mfresh C x → msg_inv (with_msgs (delete x (mq_msgs st)) st) C.
Proof.
  intros [[Hr Hd Hdom] Hs Hc H1 H2 Hn] Hx.
  assert (He : ∀ l y, y ∈ C l → delete x (mq_msgs st) !! y = mq_msgs st !! y).
  { intros l y Hy. unfold msgs. rewrite lookup_delete_ne; [done|]. intros <-. by apply (Hx l). }
  assert (He' : ∀ l y, y ∈ C l → msg_at (delete x (mq_msgs st)) y = msg_at (mq_msgs st) y).
  { intros l y Hy. unfold msg_at. by rewrite (He l). }
  split; [split|..]; cbn [with_msgs mq_msgs]; try done.
  - intros l. eapply sq_repr_links; [|destruct l; apply Hr]. intros y Hy. simpl. by rewrite (He' l).
  - intros l y Hy. rewrite (He l) by done. by eapply Hdom.
  - intros q. eapply sorted_ext; [|apply Hs]. intros y Hy. unfold mprio. by rewrite (He' (LQ q)).
  - intros y Hy. rewrite (He' LFree) by done. auto.
  - intros y Hy. rewrite (He' LIrq) by done. auto.
Qed.

Lemma put_free st C l x :
  msg_inv st C → mfresh C x → x ≠ 0 → is_Some (mq_msgs st !! x) →
  l = LFree ∧ m_type (msg_at (mq_msgs st) x) = MQ_ALLOC_FIXED ∨
  l = LIrq ∧ m_type (msg_at (mq_msgs st) x) = MQ_ALLOC_IRQ →
  let st' := mput l (sq_addlast x (mqueue_of st l) (mq_msgs st)) st in
  msg_inv st' (<[l := C l ++ [x]]> C) ∧ only_freed C x (mq_msgs st) (mq_msgs st').
Proof.
  intros Hi Hx Hx0 Hd Hl. destruct (sq_addlast_mlists _ _ l x (mi_lists _ _ Hi) Hx Hx0 Hd) as [Hm Hs].
  cbv zeta. rewrite mput_msgs.
  pose proof (sq_addlast_flinks _ _ _ x (ml_repr _ _ (mi_lists _ _ Hi) l)) as Hfl.
  split; [|by eapply flinks_only_freed].
  assert (Hq : ∀ q, l ≠ LQ q) by (intros q ->; by destruct Hl as [[]|[]]).
  eapply msg_inv_change; [exact Hi|done|by rewrite mput_msgs|..].
  - intros q. by rewrite mput_msgq.
  - intros q. rewrite mput_msgq, mfn_insert_ne by done. apply (mi_count _ _ Hi).
  - intros q. rewrite mfn_insert_ne by done. apply (mi_sorted _ _ Hi).
  - intros y. destruct (decide (l = LFree)) as [->|]; rewrite ?mfn_insert_eq, ?mfn_insert_ne by done;
      [|apply (mi_free _ _ Hi)].
    intros [Hy| ->%list_elem_of_singleton]%elem_of_app; [by apply (mi_free _ _ Hi)|by destruct Hl as [[]|[]]].
  - intros y. destruct (decide (l = LIrq)) as [->|]; rewrite ?mfn_insert_eq, ?mfn_insert_ne by done;
      [|apply (mi_irq _ _ Hi)].
    intros [Hy| ->%list_elem_of_singleton]%elem_of_app; [by apply (mi_irq _ _ Hi)|by destruct Hl as [[]|[]]].
Qed.

Lemma mq_msgfree_spec st C x :
  msg_inv st C → mfresh C x → x ≠ 0 → is_Some (mq_msgs st !! x) →
  msg_inv (mq_msgfree x st) (mfreed (m_type (msg_at (mq_msgs st) x)) x C) ∧
  only_freed C x (mq_msgs st) (mq_msgs (mq_msgfree x st)) ∧ same_rest st (mq_msgfree x st).
Proof.
  intros Hi Hx Hx0 Hd. unfold mq_msgfree, mfreed. destruct (m_type (msg_at (mq_msgs st) x)) eqn:E.
  - destruct (put_free st C LFree x Hi Hx Hx0 Hd) as [H1 H2]; [by left|].
    split_and!; [exact H1|exact H2|apply (same_rest_put LFree)].
  - split_and!; [by apply msg_inv_delete| |by split_and!].
    split_and!; intros y Hy; cbn [with_msgs mq_msgs]; unfold msg_at, msgs; by rewrite lookup_delete_ne.
  - destruct (put_free st C LIrq x Hi Hx Hx0 Hd) as [H1 H2]; [by right|].
    split_and!; [exact H1|exact H2|apply (same_rest_put LIrq)].
Qed.
End MsgInv.
