(* ===== verification/MqWait.v ===== *)
(** The tasks that wait for messages or for room: the counts kept in a queue
    agree with the lists of the scheduler. *)

From stdpp Require Import base numbers functions gmap sorting list.
From S2P Require Import Prelude Queue Memory Sched SchedInv SchedThms SchedFields Sem SemThms Mqueue MqInv MqOps.

(** ** The two kinds of wait *)

Inductive mqwait := NotEmpty | NotFull.

Definition wl (w : mqwait) : tasklist :=
  match w with NotEmpty => g_waitingformqnotempty | NotFull => g_waitingformqnotfull end.
Definition wstate (w : mqwait) : tstate :=
  match w with NotEmpty => TSTATE_WAIT_MQNOTEMPTY | NotFull => TSTATE_WAIT_MQNOTFULL end.
Definition nwait (w : mqwait) : msgq_t → Z :=
  match w with NotEmpty => nwaitnotempty | NotFull => nwaitnotfull end.
Definition with_nwait (w : mqwait) : Z → msgq_t → msgq_t :=
  match w with NotEmpty => with_nwaitnotempty | NotFull => with_nwaitnotfull end.

#[global] Instance mqwait_eq_dec : EqDecision mqwait.
Proof. solve_decision. Defined.

(** The tasks that wait for queue [q], in the order they are served. *)
Definition mwaiting (ts : tstore) (L : tasklist → list Z) (w : mqwait) (q : Z) : list Z :=
  filter (λ x, msgwaitq (tcb_at ts x) = q) (L (wl w)).

(** A task names the queue it waits for exactly while it is in a list of waiting
    tasks, and a queue counts the tasks that wait for it. *)
Record wait_inv (st : mqst) (L : tasklist → list Z) (idle : Z) : Prop := {
  wv_sched : sched_inv (mq_sch st) L idle;
  wv_count : ∀ w q, q ≠ 0 →
    nwait w (msgq_at st q) = Z.of_nat (length (mwaiting (tcbs (mq_sch st)) L w q));
  wv_range : ∀ w q, nwait w (msgq_at st q) ≤ ZMAX_WAITERS;
  wv_waits : ∀ x, msgwaitq (get (mq_sch st) x) ≠ 0 ↔ ∃ w, x ∈ L (wl w);
}.

Section Waits.
Implicit Types (st : mqst) (L : tasklist → list Z) (w : mqwait).

Lemma nwait_with w v m w' : nwait w' (with_nwait w v m) = if decide (w' = w) then i16 v else nwait w' m.
Proof. by destruct w, w'. Qed.

Lemma same_messages_nwait w q v st : same_messages st (with_msgq q (with_nwait w v) st).
Proof. apply same_messages_msgq. by destruct w. Qed.

(** A change of the scheduler that keeps the lists of waiting tasks. *)
Lemma wait_inv_sched st L idle st' L' :
  wait_inv st L idle → sched_inv (mq_sch st') L' idle → (∀ w, L' (wl w) = L (wl w)) →
  (∀ y, msgwaitq (get (mq_sch st') y) = msgwaitq (get (mq_sch st) y)) →
  (∀ w q, nwait w (msgq_at st' q) = nwait w (msgq_at st q)) → wait_inv st' L' idle.
Proof.
  intros [Hs Hc Hm Hw] Hs' HL Hf Hn. split; [done|..].
  - intros w q Hq. rewrite Hn, (Hc w q Hq). unfold mwaiting. rewrite HL. do 2 f_equal.
    apply filter_agree. intros x _. change (tcb_at (tcbs (mq_sch st')) x) with (get (mq_sch st') x). by rewrite Hf.
  - intros w q. by rewrite Hn.
  - intros x. rewrite Hf, Hw. split; intros [w Hx]; exists w; congruence.
Qed.

Lemma wait_inv_errno st L idle irq v : wait_inv st L idle → wait_inv (mq_set_errno irq v st) L idle.
Proof.
  intros Hi. destruct irq; (eapply wait_inv_sched; [exact Hi| |done| |done]); try done.
  - apply Hi.
  - apply inv_on_tcb; [done..|apply Hi].
  - intros y. unfold get. cbn. rewrite tcb_at_upd. by destruct (decide (y = _)) as [->|].
Qed.

Lemma wait_inv_rest st st' L idle : same_rest st st' → wait_inv st L idle → wait_inv st' L idle.
Proof.
  intros Hr Hi. pose proof Hr as (Es & _). eapply wait_inv_sched; [exact Hi|rewrite Es; apply Hi|done|by rewrite Es|].
  intros w q. apply (same_rest_field (nwait w)); [by destruct w|done].
Qed.

Lemma wait_lock st L idle irq :
  wait_inv st L idle → locks (tcbs (mq_sch st)) (this_task (mq_sch st)) < MAX_LOCK_COUNT →
  ∃ s, sched_lock irq (mq_sch st) = Some s ∧ wait_inv (with_sch s st) L idle ∧
    this_task s = this_task (mq_sch st) ∧ same_lockless (tcbs (mq_sch st)) (tcbs s).
Proof.
  intros Hi Hl. destruct (sched_lock_abs _ _ _ irq (wv_sched _ _ _ Hi) Hl) as (s & E & Hs & Ht & _).
  pose proof (sched_lock_lockless _ _ _ E) as Hf. exists s. split_and!; [done| |done|done].
  eapply wait_inv_sched; [exact Hi|exact Hs|done| |done]. intros y. by apply (same_lockless_field msgwaitq).
Qed.

Lemma wait_unlock st L idle irq :
  wait_inv st L idle →
  ∃ s L', sched_unlock irq (mq_sch st) = Some s ∧ wait_inv (with_sch s st) L' idle ∧ conserved L L' ∧
    same_lockless (tcbs (mq_sch st)) (tcbs s).
Proof.
  intros Hi. destruct (sched_unlock_abs _ _ _ irq (wv_sched _ _ _ Hi)) as (s & L' & E & Hs & Hc & Hp & _).
  pose proof (sched_unlock_lockless _ _ _ E) as Hf. exists s, L'.
  split_and!; [done| |done|done].
  eapply wait_inv_sched; [exact Hi|exact Hs| | |done]; [intros w; apply Hc; by destruct w|].
  intros y. by apply (same_lockless_field msgwaitq).
Qed.

Lemma mwaiting_lockless ts ts' L w q : same_lockless ts ts' → mwaiting ts' L w q = mwaiting ts L w q.
Proof.
  intros Hs. apply filter_agree. intros x _.
  by rewrite (same_lockless_field msgwaitq _ _ x (λ _, eq_refl) Hs).
Qed.

Lemma prio_lockless ts ts' y : same_lockless ts ts' → prio ts' y = prio ts y.
Proof. by apply (same_lockless_field sched_priority). Qed.

Lemma wl_ne w : wl w ≠ g_readytorun ∧ wl w ≠ g_pendingtasks.
Proof. by destruct w. Qed.

Lemma wl_inj w w' : wl w = wl w' → w = w'.
Proof. by destruct w, w'. Qed.

Lemma wait_state (s : sched) L idle w x : sched_inv s L idle → x ∈ L (wl w) →
  tstate_of (tcbs s) x = wstate w.
Proof.
  intros (Hw & _) Hx. pose proof (sw_state _ _ _ Hw _ _ Hx) as Hl.
  destruct w; by destruct (tstate_of _ x).
Qed.

Lemma wait_disj (s : sched) L idle w w' x : sched_inv s L idle → x ∈ L (wl w) → x ∈ L (wl w') → w = w'.
Proof. intros (Hw & _) H1 H2. by apply wl_inj, (lo_disj _ _ (sw_lists _ _ _ Hw) _ _ x). Qed.

Lemma nwait_update st w q v w' q' : - 2 ^ 15 ≤ v < 2 ^ 15 →
  nwait w' (msgq_at (with_msgq q (with_nwait w v) st) q') =
    if decide (w' = w ∧ q' = q) then v else nwait w' (msgq_at st q').
Proof.
  intros Hv. rewrite msgq_at_with. destruct (decide (q' = q)) as [->|]; [|by rewrite decide_False by tauto].
  rewrite nwait_with, i16_small by done. destruct (decide (w' = w)); [|by rewrite decide_False by tauto].
  by rewrite decide_True.
Qed.

Lemma mwaiting_leave (s s' : sched) L L' idle w x :
  sched_inv s L idle → x ∈ L (wl w) →
  (∀ w', L' (wl w') = if decide (w' = w) then remove_first x (L (wl w)) else L (wl w')) →
  (∀ y, y ≠ x → msgwaitq (get s' y) = msgwaitq (get s y)) →
  ∀ w' q', length (mwaiting (tcbs s) L w' q') =
    (length (mwaiting (tcbs s') L' w' q') + if decide (w' = w ∧ q' = msgwaitq (get s x)) then 1 else 0)%nat.
Proof.
  intros Hi Hx HL Hws w' q'. unfold mwaiting. rewrite HL.
  assert (Hnd : NoDup (L (wl w))) by apply (lo_repr _ _ (sw_lists _ _ _ (proj1 Hi)) (wl w)).
  destruct (decide (w' = w)) as [->|Hww].
  - rewrite (filter_remove_first _ x) by done. f_equal.
    + f_equal. apply filter_agree. intros y Hy%elem_of_remove_first; [|done].
      change (tcb_at (tcbs s') y) with (get s' y). by rewrite Hws by tauto.
    + change (tcb_at (tcbs s) x) with (get s x). repeat case_decide; intuition congruence.
  - rewrite decide_False by tauto. rewrite Nat.add_0_r. f_equal. apply filter_agree. intros y Hy.
    change (tcb_at (tcbs s') y) with (get s' y). rewrite Hws; [done|].
    intros ->. apply Hww. by eapply wait_disj.
Qed.

Lemma mwaiting_join (s s' : sched) L L' w x q pr :
  (∀ w', x ∉ L (wl w')) →
  (∀ w', L' (wl w') = if decide (w' = w) then pinsert pr x (L (wl w)) else L (wl w')) →
  (∀ y, msgwaitq (get s' y) = if decide (y = x) then q else msgwaitq (get s y)) →
  ∀ w' q', length (mwaiting (tcbs s') L' w' q') =
    (length (mwaiting (tcbs s) L w' q') + if decide (w' = w ∧ q' = q) then 1 else 0)%nat.
Proof.
  intros Hx HL Hws w' q'. unfold mwaiting. rewrite HL.
  assert (Hag : filter (λ y, msgwaitq (tcb_at (tcbs s') y) = q') (L (wl w')) =
    filter (λ y, msgwaitq (tcb_at (tcbs s) y) = q') (L (wl w'))).
  { apply filter_agree. intros y Hy. change (tcb_at (tcbs s') y) with (get s' y).
    rewrite Hws, decide_False; [done|]. intros ->. by apply (Hx w'). }
  destruct (decide (w' = w)) as [->|Hww].
  - rewrite filter_pinsert, Hag. f_equal. change (tcb_at (tcbs s') x) with (get s' x).
    rewrite Hws, (decide_True (P := x = x)) by done. repeat case_decide; intuition congruence.
  - rewrite Hag, decide_False by tauto. lia.
Qed.

(** A task stops waiting: it leaves its list, and its queue counts one less. *)
Lemma unwait st L idle w q x f :
  wait_inv st L idle → x ∈ L (wl w) → msgwaitq (get (mq_sch st) x) = q →
  (∀ t, t_flink (f t) = t_flink t ∧ t_blink (f t) = t_blink t ∧ task_state (f t) = task_state t) →
  (∀ t, lockcount (f t) = lockcount t) → (∀ t, sched_priority (f t) = sched_priority t) →
  (∀ t, msgwaitq (f t) = 0) →
  let L' := add_ready (on_tcb x f (mq_sch st)) (<[wl w := remove_first x (L (wl w))]> L) x in
  ∃ s', up_unblock_task x (on_tcb x f (mq_sch st)) = Some s' ∧
    wait_inv (with_sch s' (with_msgq q (with_nwait w (nwait w (msgq_at st q) - 1)) st)) L' idle ∧
    (∀ w', L' (wl w') = if decide (w' = w) then remove_first x (L (wl w)) else L (wl w')) ∧
    (∀ y, msgwaitq (get s' y) = if decide (y = x) then 0 else msgwaitq (get (mq_sch st) y)) ∧
    same_essence (tcbs (on_tcb x f (mq_sch st))) (tcbs s').
Proof.
  intros Hi Hx Hq Hf Hk Hp H0 L'. pose proof Hi as [Hsch Hc Hm Hw].
  assert (Hne : q ≠ 0) by (rewrite <-Hq; apply Hw; by exists w).
  set (s1 := on_tcb x f (mq_sch st)) in *.
  assert (Hi1 : sched_inv s1 L idle) by by apply inv_on_tcb.
  destruct (unblock_abs s1 L idle x (wl w) Hi1 Hx) as (s' & E & Hs' & He).
  { rewrite (wait_state s1 L idle w x Hi1 Hx). by destruct w. }
  exists s'. split; [exact E|].
  assert (HL : ∀ w', L' (wl w') = if decide (w' = w) then remove_first x (L (wl w)) else L (wl w')).
  { intros w'. unfold L', add_ready. destruct (wl_ne w') as [H1 H2].
    destruct (held_back s1 x); rewrite (fn_insert_ne _ _ _ (wl w')) by done;
      destruct (decide (w' = w)) as [->|Hww]; rewrite ?fn_insert_eq, ?fn_insert_ne; try done;
      intros ?%wl_inj; congruence. }
  assert (Hws : ∀ y, msgwaitq (get s' y) = if decide (y = x) then 0 else msgwaitq (get (mq_sch st) y)).
  { intros y. unfold get. rewrite (same_essence_field msgwaitq _ _ _ (λ _, eq_refl) He).
    cbn [s1 on_tcb with_tcbs tcbs]. rewrite tcb_at_upd. destruct (decide (y = x)) as [->|]; [apply H0|done]. }
  split_and!; [|done..].
  assert (Hnd : NoDup (L (wl w))) by apply (lo_repr _ _ (sw_lists _ _ _ (proj1 Hsch)) (wl w)).
  assert (Hlen := mwaiting_leave (mq_sch st) s' L L' idle w x Hsch Hx HL).
  rewrite Hq in Hlen. specialize (Hlen ltac:(intros y ?; by rewrite Hws, decide_False)).
  pose proof (Hlen w q) as Hlq. rewrite decide_True in Hlq by done.
  pose proof (Hc w q Hne) as Hcq. pose proof (Hm w q) as Hmq. unfold ZMAX_WAITERS in *.
  assert (Hn := λ w' q', nwait_update st w q (nwait w (msgq_at st q) - 1) w' q' ltac:(lia)).
  split; [exact Hs'|..]; cbn [with_sch mq_sch]; try (intros w' q'; change (msgq_at (with_sch s' ?s) q') with (msgq_at s q'); rewrite Hn).
  - intros Hne'. specialize (Hlen w' q'). rewrite (Hc w' q' Hne'). destruct (decide (w' = w ∧ q' = q)) as [[-> ->]|]; lia.
  - specialize (Hm w' q'). unfold ZMAX_WAITERS in *. case_decide; lia.
  - intros y. rewrite Hws. destruct (decide (y = x)) as [->|Hyx].
    + split; [done|]. intros [w' Hy]. rewrite HL in Hy. destruct (decide (w' = w)) as [->|Hww].
      * apply elem_of_remove_first in Hy; tauto.
      * exfalso. apply Hww. exact (wait_disj _ _ _ _ _ _ Hsch Hy Hx).
    + rewrite Hw. split; intros [w' Hy]; exists w'; revert Hy; rewrite HL;
        destruct (decide (w' = w)) as [->|]; rewrite ?elem_of_remove_first by done; tauto.
Qed.

(** The first task that waits has the highest priority of those that do. *)
Lemma mwaiting_first st L idle w q x r y : wait_inv st L idle →
  mwaiting (tcbs (mq_sch st)) L w q = x :: r → y ∈ r →
  prio (tcbs (mq_sch st)) y ≤ prio (tcbs (mq_sch st)) x.
Proof.
  intros Hi E Hy. pose proof (wv_sched _ _ _ Hi) as (Hw & _).
  assert (Hs : StronglySorted (pdesc (prio (tcbs (mq_sch st)))) (x :: r)).
  { rewrite <-E. apply sorted_filter, (sw_sorted _ _ _ Hw). by destruct w. }
  apply StronglySorted_inv in Hs as [_ Hf]. rewrite Forall_forall in Hf. by apply Hf.
Qed.

(** ** Waking and blocking *)

Definition mq_wake w (q : Z) st : option mqst :=
  if 0 <? nwait w (msgq_at st q) then
    btcb ← waiter_search msgwaitq (sched_fuel (mq_sch st)) (tcbs (mq_sch st)) q
             (q_head (qs (mq_sch st) (wl w)));
    if btcb =? 0 then None else
    let st := mq_tcb btcb (with_msgwaitq 0) st in
    let st := with_msgq q (with_nwait w (nwait w (msgq_at st q) - 1)) st in
    s ← up_unblock_task btcb (mq_sch st);
    Some (with_sch s st)
  else Some st.

Lemma mq_wake_notempty_eq q st : mq_wake_notempty q st = mq_wake NotEmpty q st.
Proof. done. Qed.
Lemma mq_wake_notfull_eq q st : mq_wake_notfull q st = mq_wake NotFull q st.
Proof. done. Qed.

(** The first task that waits, if any, is ready and no longer waits; the lists of
    waiting tasks are otherwise the same. *)
Definition woken w (q : Z) (s : sched) L L' : Prop :=
  match mwaiting (tcbs s) L w q with
  | [] => ∀ w', L' (wl w') = L (wl w')
  | x :: _ =>
      (x ∈ L' g_readytorun ∨ x ∈ L' g_pendingtasks) ∧
      ∀ w', L' (wl w') = if decide (w' = w) then remove_first x (L (wl w)) else L (wl w')
  end.

Lemma woken_conserved w q s L L1 L2 : woken w q s L L1 → conserved L1 L2 → woken w q s L L2.
Proof.
  unfold woken. intros Hw [Hr Ho].
  assert (He : ∀ w', L2 (wl w') = L1 (wl w')) by (intros w'; apply Ho; by destruct w').
  destruct (mwaiting _ _ _ _) as [|x r].
  - intros w'. by rewrite He.
  - destruct Hw as [Hx Hw]. split; [by apply Hr|]. intros w'. by rewrite He.
Qed.

Lemma add_ready_in s L x : x ∈ add_ready s L x g_readytorun ∨ x ∈ add_ready s L x g_pendingtasks.
Proof.
  unfold add_ready. destruct (held_back s x); rewrite fn_insert_eq, elem_of_pinsert; auto.
Qed.

Lemma mq_wake_spec st L idle w q : wait_inv st L idle → q ≠ 0 →
  ∃ st' L', mq_wake w q st = Some st' ∧ wait_inv st' L' idle ∧ same_messages st st' ∧
    woken w q (mq_sch st) L L' ∧ (∀ y, prio (tcbs (mq_sch st')) y = prio (tcbs (mq_sch st)) y).
Proof.
  intros Hi Hq. unfold mq_wake, woken. rewrite (wv_count _ _ _ Hi w q Hq).
  pose proof (wv_sched _ _ _ Hi) as (Hw & _).
  destruct (mwaiting (tcbs (mq_sch st)) L w q) as [|x r] eqn:E.
  { exists st, L. by split_and!. }
  rewrite (proj2 (Z.ltb_lt _ _)) by (simpl; lia).
  destruct (lo_repr _ _ (sw_lists _ _ _ Hw) (wl w)) as ((Hc & _) & _ & H0 & Hh & _).
  assert (Hx : x ∈ mwaiting (tcbs (mq_sch st)) L w q) by (rewrite E; in_list).
  apply list_elem_of_filter in Hx as [Hxq Hx].
  rewrite Hh, (waiter_search_spec msgwaitq _ _ q (L (wl w)) Hc H0) by (by apply lists_length, Hw).
  unfold mwaiting in E. rewrite E. cbn [mbind option_bind].
  change (default 0 (head (x :: r))) with x. rewrite (proj2 (Z.eqb_neq x 0)) by (intros ->; done).
  destruct (unwait st L idle w q x (with_msgwaitq 0) Hi Hx Hxq) as (s' & Eu & Hi' & HL & _ & He); [done..|].
  cbn [with_msgq mq_tcb with_sch mq_sch] in *. rewrite Eu.
  eexists _, _. split; [reflexivity|]. split_and!; [exact Hi'| | | |].
  - etransitivity; [apply same_messages_sch|].
    etransitivity; [apply (same_messages_nwait w q)|apply same_messages_sch].
  - apply add_ready_in.
  - exact HL.
  - intros y. rewrite (same_essence_prio _ _ _ He). unfold prio. cbn. rewrite tcb_at_upd.
    by destruct (decide (y = x)) as [->|].
Qed.

(** The running task waits for queue [q]. *)
Definition mq_block w (q : Z) st : option mqst :=
  let rtcb := this_task (mq_sch st) in
  let st := mq_tcb rtcb (with_msgwaitq q) st in
  let st := with_msgq q (with_nwait w (nwait w (msgq_at st q) + 1)) st in
  let st := mq_set_errno false 0 st in
  s ← up_block_task rtcb (wstate w) (mq_sch st);
  Some (with_sch s st).

(** The running task joins the waiting tasks, by priority. *)
Definition slept w (s : sched) L L' : Prop :=
  ∀ w', L' (wl w') = if decide (w' = w) then pinsert (prio (tcbs s)) (this_task s) (L (wl w)) else L (wl w').

Lemma running_not_waiting_mq (s : sched) L idle w : sched_inv s L idle → this_task s ∉ L (wl w).
Proof.
  intros (Hw & _) Hx. pose proof (wf_head _ _ _ Hw) as Hh%head_Some_elem_of.
  destruct (wl_ne w) as [Hn _]. apply Hn. by apply (lo_disj _ _ (sw_lists _ _ _ Hw) _ _ (this_task s)).
Qed.

Lemma mq_block_spec st L idle w q :
  wait_inv st L idle → q ≠ 0 → this_task (mq_sch st) ≠ idle →
  Z.of_nat (length (L (wl w))) < ZMAX_WAITERS →
  ∃ st' L', mq_block w q st = Some st' ∧ wait_inv st' L' idle ∧ same_messages st st' ∧
    slept w (mq_sch st) L L' ∧ msgwaitq (get (mq_sch st') (this_task (mq_sch st))) = q.
Proof.
  intros Hi Hq Hidle Hmax. pose proof Hi as [Hsch Hc Hm Hw]. set (x := this_task (mq_sch st)) in *.
  assert (Hnx : ∀ w', x ∉ L (wl w')) by (intros w'; by eapply running_not_waiting_mq).
  unfold mq_block. fold x. cbv zeta.
  match goal with |- context [up_block_task x (wstate w) (mq_sch ?s)] => set (st1 := s) end.
  assert (Hi1 : sched_inv (mq_sch st1) L idle).
  { unfold st1. cbn. apply inv_on_tcb; [done..|]. by apply inv_on_tcb. }
  assert (Hxr : x ∈ L g_readytorun) by (apply head_Some_elem_of, wf_head with (idle := idle); apply Hsch).
  destruct (block_abs (mq_sch st1) L idle x (wstate w) (wl w) Hi1 Hxr Hidle) as (s' & E & Hi' & Ht');
    [by destruct w..|].
  replace (prioritized (wstate w)) with true in Hi' by (by destruct w).
  match type of Hi' with sched_inv _ ?L0 _ => set (L' := L0) in * end.
  assert (Hp1 : ∀ y, prio (tcbs (mq_sch st1)) y = prio (tcbs (mq_sch st)) y).
  { intros y. unfold prio, st1. cbn. rewrite !tcb_at_upd. repeat (case_decide; subst); done. }
  assert (Hws : ∀ y, msgwaitq (get s' y) = if decide (y = x) then q else msgwaitq (get (mq_sch st) y)).
  { intros y. unfold get. rewrite (same_tasks_field msgwaitq _ _ _ (λ _, eq_refl) Ht').
    unfold st1. cbn. change (this_task (on_tcb x _ (mq_sch st))) with x.
    rewrite !tcb_at_upd. repeat (case_decide; subst; try done). }
  assert (HL : slept w (mq_sch st) L L').
  { intros w'. destruct (wl_ne w') as [? ?]. unfold L'. rewrite !(fn_insert_ne _ _ _ (wl w')) by done.
    destruct (decide (w' = w)) as [->|Hww].
    - rewrite fn_insert_eq. by apply pinsert_ext.
    - rewrite fn_insert_ne by (intros ?%wl_inj; congruence). by rewrite fn_insert_ne. }
  rewrite E. cbn [mbind option_bind]. eexists _, L'. split; [reflexivity|]. split_and!; [| |done|].
  - assert (Hlen := mwaiting_join (mq_sch st) s' L L' w x q _ Hnx HL Hws).
    pose proof (Hc w q Hq) as Hcq.
    pose proof (length_filter (λ y, msgwaitq (tcb_at (tcbs (mq_sch st)) y) = q) (L (wl w))) as Hfl.
    unfold mwaiting in Hcq. unfold ZMAX_WAITERS in *.
    assert (Hn := λ w' q', nwait_update st w q (nwait w (msgq_at st q) + 1) w' q' ltac:(lia)).
    split; [exact Hi'|..]; cbn [with_sch mq_sch];
      try (intros w' q'; change (msgq_at (with_sch s' st1) q') with
             (msgq_at (with_msgq q (with_nwait w (nwait w (msgq_at st q) + 1)) st) q'); rewrite Hn).
    + intros Hne'. rewrite Hlen, (Hc w' q' Hne'). destruct (decide (w' = w ∧ q' = q)) as [[-> ->]|]; [|lia].
      rewrite (Hc w q Hq). lia.
    + specialize (Hm w' q'). unfold ZMAX_WAITERS in *. case_decide; lia.
    + intros y. rewrite Hws. destruct (decide (y = x)) as [->|Hyx].
      * split; [intros _; exists w|done]. rewrite HL, decide_True by done. apply elem_of_pinsert. by left.
      * rewrite Hw. split; intros [w' Hy]; exists w'; revert Hy; rewrite HL;
          destruct (decide (w' = w)) as [->|]; rewrite ?elem_of_pinsert; tauto.
  - etransitivity; [apply same_messages_sch|]. etransitivity; [apply (same_messages_nwait w q)|].
    etransitivity; [apply (same_messages_errno false 0)|apply same_messages_sch].
  - cbn [with_sch mq_sch]. by rewrite Hws, decide_True.
Qed.
End Waits.
