(* ===== verification/MqSpec.v ===== *)
(** Message queues as lists of messages: what sending and receiving do to the
    contents of the queues, to the pools of free messages and to the tasks that
    wait. *)

From stdpp Require Import base numbers functions gmap sorting list.
From S2P Require Import Prelude Queue Memory Sched SchedInv SchedThms SchedFields Sem SemThms Mqueue MqInv MqOps MqWait.

Definition mq_inv (st : mqst) (L : tasklist → list Z) (idle : Z) (C : mloc → list Z) : Prop :=
  wait_inv st L idle ∧ msg_inv st C.

(** ** The abstract queue: priority, length and bytes of its messages *)

Definition message : Type := Z * Z * list Z.

Definition mail (s : msgs) (x : Z) : message :=
  let m := msg_at s x in (m_priority m, m_msglen m, take (Z.to_nat (m_msglen m)) (m_mail m)).

(** The messages of queue [q], in the order they will be received. *)
Definition contents (st : mqst) (C : mloc → list Z) (q : Z) : list message :=
  mail (mq_msgs st) <$> C (LQ q).

(** Behind the messages of the same or a higher priority. *)
Fixpoint qinsert (m : message) (l : list message) : list message :=
  match l with
  | [] => [m]
  | m' :: l' => if m.1.1 <=? m'.1.1 then m' :: qinsert m l' else m :: l
  end.

Lemma qinsert_mail s x k : mail s <$> pinsert (mprio s) x k = qinsert (mail s x) (mail s <$> k).
Proof. 
  induction k as [|y k IH]; [done|]. cbn [pinsert]. rewrite fmap_cons. cbn [qinsert].
  change (mail s x).1.1 with (mprio s x). change (mail s y).1.1 with (mprio s y).
  destruct (_ <=? _); rewrite !fmap_cons; by rewrite ?IH.
Qed.

Definition same_config (st st' : mqst) : Prop :=
  mqdess st' = mqdess st ∧
  ∀ q, maxmsgs (msgq_at st' q) = maxmsgs (msgq_at st q) ∧ maxmsgsize (msgq_at st' q) = maxmsgsize (msgq_at st q).

#[global] Instance same_config_preorder : PreOrder same_config.
Proof.
  split; [by intros st|]. intros s1 s2 s3 [E1 H1] [E2 H2]. split; [congruence|].
  intros q. destruct (H1 q), (H2 q). split; congruence.
Qed.

(** The contents of every queue but [q] are the same. *)
Definition others (q : Z) (st st' : mqst) (C C' : mloc → list Z) : Prop :=
  ∀ q', q' ≠ q → contents st' C' q' = contents st C q'.

Section Frames.
Implicit Types (st : mqst) (C : mloc → list Z) (L : tasklist → list Z).

Lemma same_messages_config st st' : same_messages st st' → same_config st st'.
Proof. intros [_ _ _ Hq Hd]. split; [done|]. intros q. destruct (Hq q) as (_ & _ & _ & ? & ?). done. Qed.

Lemma same_rest_config st st' : same_rest st st' → same_config st st'.
Proof.
  intros Hr. pose proof Hr as (_ & ? & _). split; [done|]. intros q.
  split; [by apply (same_rest_field maxmsgs)|by apply (same_rest_field maxmsgsize)].
Qed.

Lemma config_des st st' d : same_config st st' → mqdes_at st' d = mqdes_at st d.
Proof. intros [E _]. unfold mqdes_at. by rewrite E. Qed.

Lemma contents_same st st' C q : same_messages st st' → contents st' C q = contents st C q.
Proof. intros [E _ _ _ _]. unfold contents. by rewrite E. Qed.

Lemma mail_data s s' x : mdata (msg_at s' x) = mdata (msg_at s x) → mail s' x = mail s x.
Proof. intros E. by apply (mdata_field (λ m, (m_priority m, m_msglen m, take (Z.to_nat (m_msglen m)) (m_mail m)))). Qed.

Lemma contents_mail st st' C q :
  (∀ x, x ∈ C (LQ q) → mdata (msg_at (mq_msgs st') x) = mdata (msg_at (mq_msgs st) x)) →
  contents st' C q = contents st C q.
Proof. intros He. apply list_fmap_ext. intros i x Hx%list_elem_of_lookup_2. by apply mail_data, He. Qed.

Lemma sched_lock_count irq (s s' : sched) : sched_lock irq s = Some s' →
  locks (tcbs s') (this_task s') ≤ locks (tcbs s) (this_task s) + 1.
Proof.
  unfold sched_lock. repeat case_match; intros [=]; subst; [|lia].
  unfold locks. cbn. change (this_task (on_tcb _ _ s)) with (this_task s).
  rewrite tcb_at_upd, decide_True by done. cbn. unfold get. lia.
Qed.

Lemma notify_none sig q st C : msg_inv st C → mq_notify_waiter sig q st = st.
Proof. intros Hi. unfold mq_notify_waiter. by rewrite (mi_notify _ _ Hi). Qed.
End Frames.

(** ** Sending *)

Section Sending.
Variable sig_mqnotempty : Z → Z → Z → mqst → mqst.
Implicit Types (st : mqst) (C : mloc → list Z) (L : tasklist → list Z).

(** What a completed send has done. *)
Record sent (q : Z) (m : message) st L idle C st' L' C' : Prop := {
  se_inv : mq_inv st' L' idle C';
  se_queue : contents st' C' q = qinsert m (contents st C q);
  se_others : others q st st' C C';
  se_woken : woken NotEmpty q (mq_sch st) L L';
  se_prio : ∀ y, prio (tcbs (mq_sch st')) y = prio (tcbs (mq_sch st)) y;
  se_config : same_config st st';
}.

Lemma mail_written s x p n d : 0 ≤ p ≤ 255 → 0 ≤ n ≤ 255 →
  mail (on_msg x (with_message p n (take (Z.to_nat n) d)) s) x = (p, n, take (Z.to_nat n) d).
Proof.
  intros Hp Hn. unfold mail. rewrite msg_at_on, decide_True by done. cbn.
  rewrite !Z.mod_small by lia. by rewrite take_take, Nat.min_id.
Qed.

(** Filling the message and linking it in. *)
Lemma fill_enqueue st C q x msg len p :
  msg_inv st C → mfresh C x → x ≠ 0 → is_Some (mq_msgs st !! x) → Z.of_nat (length (C (LQ q))) < MAX_MSGS →
  0 ≤ p ≤ 255 → 0 ≤ len ≤ 255 →
  let st1 := with_msgs (on_msg x (with_message p len (take (Z.to_nat len) msg)) (mq_msgs st)) st in
  let C' := <[LQ q := pinsert (mprio (mq_msgs st1)) x (C (LQ q))]> C in
  ∃ st', msg_enqueue q x p st1 = Some st' ∧ msg_inv st' C' ∧ same_rest st st' ∧
    contents st' C' q = qinsert (p, len, take (Z.to_nat len) msg) (contents st C q) ∧ others q st st' C C'.
Proof.
  intros Hi Hx Hx0 Hd Hl Hp Hn st1 C'.
  assert (Hi1 : msg_inv st1 C) by (by apply msg_inv_fresh).
  assert (Ep : mprio (mq_msgs st1) x = p).
  { unfold mprio. cbn. rewrite msg_at_on, decide_True by done. cbn. rewrite Z.mod_small; lia. }
  destruct (msg_enqueue_spec st1 C q x Hi1 Hx Hx0) as (st' & E & Hi' & Hm & Hr); [by apply on_msg_Some|done|].
  rewrite Ep in E. exists st'.
  assert (Hc : ∀ q', contents st1 C q' = contents st C q').
  { intros q'. apply contents_mail. intros y Hy. cbn. rewrite msg_at_on, decide_False; [done|].
    intros ->. by apply (Hx (LQ q')). }
  assert (Hc' : ∀ K q', contents st' K q' = contents st1 K q') by (intros; apply contents_mail; intros; apply Hm).
  split_and!; [done|done|exact Hr| |].
  - rewrite Hc', <-Hc. unfold contents, C'. rewrite mfn_insert_eq, qinsert_mail. f_equal. by apply mail_written.
  - intros q' Hne. rewrite Hc', <-Hc. unfold contents, C'. by rewrite mfn_insert_ne by congruence.
Qed.

Lemma mq_dosend_spec irq d q x msg len p st L idle C :
  mq_inv st L idle C → d_msgq (mqdes_at st d) = q → q ≠ 0 →
  mfresh C x → x ≠ 0 → is_Some (mq_msgs st !! x) → Z.of_nat (length (C (LQ q))) < MAX_MSGS →
  0 ≤ p ≤ 255 → 0 ≤ len ≤ 255 → locks (tcbs (mq_sch st)) (this_task (mq_sch st)) < MAX_LOCK_COUNT →
  ∃ st' L' C', mq_dosend sig_mqnotempty irq d x msg len p st = Some st' ∧
    sent q (p, len, take (Z.to_nat len) msg) st L idle C st' L' C' ∧ (∀ l, l ≠ LQ q → C' l = C l).
Proof.
  intros [Hw Hm] Hq Hq0 Hx Hx0 Hd Hl Hp Hn Hlk. unfold mq_dosend.
  destruct (wait_lock _ _ _ irq Hw Hlk) as (s1 & -> & Hw1 & _ & Hp1). cbn [mbind option_bind].
  change (mqdes_at (with_sch s1 st) d) with (mqdes_at st d). rewrite Hq.
  set (st1 := with_sch s1 st) in *.
  assert (Hm1 : msg_inv st1 C) by (eapply msg_inv_ext; [apply same_messages_sch|done]).
  destruct (fill_enqueue st1 C q x msg len p Hm1 Hx Hx0 Hd Hl Hp Hn) as (st2 & -> & Hm2 & Hr2 & Hc2 & Ho2).
  cbn [mbind option_bind]. rewrite (notify_none _ _ _ _ Hm2), mq_wake_notempty_eq.
  pose proof (wait_inv_rest _ _ _ _ Hr2 Hw1) as Hw2. pose proof Hr2 as (Es & _).
  destruct (mq_wake_spec st2 L idle NotEmpty q Hw2 Hq0) as (st3 & L3 & -> & Hw3 & Hs3 & Hk3 & Hp3).
  cbn [mbind option_bind].
  destruct (wait_unlock st3 L3 idle irq Hw3) as (s4 & L4 & -> & Hw4 & Hcv & Hp4). cbn [mbind option_bind].
  assert (Hs4 : same_messages st2 (with_sch s4 st3)) by (etransitivity; [exact Hs3|apply same_messages_sch]).
  eexists _, L4, _. split; [reflexivity|]. split; [split|].
  - split; [exact Hw4|]. eapply msg_inv_ext; [exact Hs4|exact Hm2].
  - rewrite (contents_same _ _ _ _ Hs4). exact Hc2.
  - intros q' Hne. rewrite (contents_same _ _ _ _ Hs4). by apply Ho2.
  - eapply woken_conserved; [|exact Hcv]. unfold woken in *. rewrite Es in Hk3.
    by rewrite <-(mwaiting_lockless _ _ L NotEmpty q Hp1).
  - intros y. cbn [with_sch mq_sch]. rewrite (prio_lockless _ _ _ Hp4), Hp3, Es. by apply prio_lockless.
  - etransitivity; [|by apply same_messages_config]. apply (same_rest_config st1 st2 Hr2).
  - intros l Hne. by rewrite mfn_insert_ne by congruence.
Qed.

(** Allocation, sending and the final unlock. *)
Lemma mq_send_rest_spec irq dyn d q msg len p st L idle C :
  mq_inv st L idle C → d_msgq (mqdes_at st d) = q → q ≠ 0 → mavail irq dyn C →
  Z.of_nat (length (C (LQ q))) < MAX_MSGS → 0 ≤ p ≤ 255 → 0 ≤ len ≤ 255 →
  locks (tcbs (mq_sch st)) (this_task (mq_sch st)) < MAX_LOCK_COUNT →
  ∃ st' L' C', mq_send_rest sig_mqnotempty irq dyn d msg len p st = Some (MqOK, st') ∧
    sent q (p, len, take (Z.to_nat len) msg) st L idle C st' L' C' ∧ (∀ l, l ≠ LQ q → C' l = malloced irq C l).
Proof.
  intros [Hw Hm] Hq Hq0 Ha Hl Hp Hn Hlk. unfold mq_send_rest.
  destruct (mq_msgalloc_spec irq dyn st C Hm Ha) as (x & st1 & -> & Ht). cbn [mbind option_bind].
  rewrite (proj2 (Z.eqb_neq x 0)) by apply Ht. cbn [negb].
  destruct (tk_sch _ _ _ _ _ Ht) as (Es & Ed & Eq).
  assert (Hr : same_rest st st1) by (split_and!; [done..|]; intros q'; unfold msgq_at; by rewrite Eq).
  assert (Hi1 : mq_inv st1 L idle (malloced irq C)) by (split; [by eapply wait_inv_rest|apply Ht]).
  destruct (mq_dosend_spec irq d q x msg len p st1 L idle _ Hi1) as (st2 & L2 & C2 & -> & Hs & Ho);
    [unfold mqdes_at; by rewrite Ed|done|apply Ht..|by rewrite (tk_queues _ _ _ _ _ Ht)|done|done|by rewrite Es|].
  cbn [mbind option_bind]. destruct Hs as [[Hw2 Hm2] Hc Hc' Hk Hpr Hcf].
  destruct (wait_unlock st2 L2 idle irq Hw2) as (s3 & L3 & -> & Hw3 & Hcv & Hp3). cbn [mbind option_bind].
  assert (Hct : ∀ q', contents st1 (malloced irq C) q' = contents st C q').
  { intros q'. transitivity (contents st1 C q'); [unfold contents; by rewrite (tk_queues _ _ _ _ _ Ht)|].
    apply contents_mail. intros y Hy. by eapply tk_mail. }
  eexists _, L3, C2. split; [reflexivity|]. split; [|exact Ho]. split.
  - split; [done|]. eapply msg_inv_ext; [apply same_messages_sch|done].
  - by rewrite (contents_same _ _ _ _ (same_messages_sch _ _)), <-Hct.
  - intros q' Hne. rewrite (contents_same _ _ _ _ (same_messages_sch _ _)), <-Hct. by apply Hc'.
  - eapply woken_conserved; [|exact Hcv]. by rewrite <-Es.
  - intros y. cbn [with_sch mq_sch]. by rewrite (prio_lockless _ _ _ Hp3), Hpr, Es.
  - etransitivity; [by apply same_rest_config|]. etransitivity; [exact Hcf|].
    apply same_messages_config, same_messages_sch.
Qed.
End Sending.

(** ** Receiving *)

Section Receiving.
Implicit Types (st : mqst) (C : mloc → list Z) (L : tasklist → list Z).

(** What a completed receive has done. *)
Record received (q : Z) (m : message) st L idle C st' L' C' : Prop := {
  rc_inv : mq_inv st' L' idle C';
  rc_queue : contents st C q = m :: contents st' C' q;
  rc_others : others q st st' C C';
  rc_woken : woken NotFull q (mq_sch st) L L';
  rc_prio : ∀ y, prio (tcbs (mq_sch st')) y = prio (tcbs (mq_sch st)) y;
  rc_config : same_config st st';
}.

(** Freeing the message and waking a task that waits for room. *)
Lemma mq_doreceive_spec d q x st L idle C :
  mq_inv st L idle C → d_msgq (mqdes_at st d) = q → q ≠ 0 → mfresh C x → x ≠ 0 → is_Some (mq_msgs st !! x) →
  let '(p, len, data) := mail (mq_msgs st) x in
  let C' := mfreed (m_type (msg_at (mq_msgs st) x)) x C in
  ∃ st' L', mq_doreceive d x st = Some (RcvData len data p, st') ∧ mq_inv st' L' idle C' ∧
    (∀ q', contents st' C' q' = contents st C q') ∧ woken NotFull q (mq_sch st) L L' ∧
    (∀ y, prio (tcbs (mq_sch st')) y = prio (tcbs (mq_sch st)) y) ∧ same_config st st'.
Proof.
  intros [Hw Hm] Hq Hq0 Hx Hx0 Hd. unfold mail, mq_doreceive. cbv zeta.
  destruct (mq_msgfree_spec st C x Hm Hx Hx0 Hd) as (Hm1 & Hs1 & Hr1).
  set (st1 := mq_msgfree x st) in *. pose proof Hr1 as (Es & _).
  rewrite (config_des _ _ _ (same_rest_config _ _ Hr1)), Hq, mq_wake_notfull_eq.
  pose proof (wait_inv_rest _ _ _ _ Hr1 Hw) as Hw1.
  destruct (mq_wake_spec st1 L idle NotFull q Hw1 Hq0) as (st2 & L2 & -> & Hw2 & Hs2 & Hk2 & Hp2).
  cbn [mbind option_bind]. eexists _, L2. split; [reflexivity|]. split_and!.
  - split; [done|]. by eapply msg_inv_ext.
  - intros q'. rewrite (contents_same _ _ _ _ Hs2). unfold contents. rewrite mfreed_queue.
    apply contents_mail. intros y Hy. apply Hs1. intros ->. by apply (Hx (LQ q')).
  - by rewrite <-Es.
  - intros y. by rewrite Hp2, Es.
  - etransitivity; [by apply same_rest_config|by apply same_messages_config].
Qed.

Lemma mfreed_other t x C q r l : l ≠ LQ q → mfreed t x (<[LQ q := r]> C) l = mfreed t x C l.
Proof.
  intros Hne. assert (LQ q ≠ l) by done.
  destruct t, l; cbn [mfreed]; repeat first [rewrite mfn_insert_eq | rewrite mfn_insert_ne by done]; done.
Qed.

(** The message at the head of the queue is received. *)
Lemma mq_receive_some d q x r st L idle C :
  mq_inv st L idle C → d_msgq (mqdes_at st d) = q → q ≠ 0 → C (LQ q) = x :: r →
  Z.of_nat (length (C (LQ q))) ≤ MAX_MSGS →
  let '(p, len, data) := mail (mq_msgs st) x in
  ∃ st' L' C', (r ← mq_waitreceive d st; mq_receive_waited d r) = Some (RcvData len data p, st') ∧
    received q (p, len, data) st L idle C st' L' C' ∧
    (∀ l, l ≠ LQ q → C' l = mfreed (m_type (msg_at (mq_msgs st) x)) x C l).
Proof.
  intros [Hw Hm] Hq Hq0 E Hl.
  destruct (msg_dequeue_spec st C q x r Hm E Hl) as (h & s & Er & Hm1 & Hx & Hx0 & Hd & Hs1 & Hr1).
  unfold mq_waitreceive. rewrite Hq, Er. rewrite (proj2 (Z.eqb_neq x 0)) by done. cbn [negb mbind option_bind].
  set (st1 := with_msgq q _ _) in *. pose proof Hr1 as (Es & _).
  assert (Hi1 : mq_inv st1 L idle (<[LQ q := r]> C)) by (split; [by eapply wait_inv_rest|done]).
  pose proof (mail_data _ _ x (Hs1 x)) as Em. pose proof (same_mail_field m_type _ _ x (λ _, eq_refl) Hs1) as Et.
  pose proof (mq_doreceive_spec d q x st1 L idle _ Hi1) as Hdo. rewrite Em in Hdo.
  destruct (mail (mq_msgs st) x) as [[p len] data] eqn:Emx.
  destruct Hdo as (st2 & L2 & E2 & [Hw2 Hm2] & Hc2 & Hk2 & Hp2 & Hf2);
    [by rewrite (config_des _ _ _ (same_rest_config _ _ Hr1))|done..|].
  unfold mq_receive_waited. rewrite (proj2 (Z.eqb_neq x 0)) by done. cbn [negb]. rewrite E2. cbn [mbind option_bind].
  destruct (wait_unlock st2 L2 idle false Hw2) as (s3 & L3 & -> & Hw3 & Hcv & Hp3). cbn [mbind option_bind].
  rewrite Et in *. set (C2 := mfreed _ x _) in *.
  assert (Hc : ∀ q', contents (with_sch s3 st2) C2 q' = contents st (<[LQ q := r]> C) q').
  { intros q'. rewrite (contents_same _ _ _ _ (same_messages_sch _ _)), Hc2. by apply contents_mail. }
  eexists _, L3, C2. split; [reflexivity|]. split; [split|].
  - split; [done|]. eapply msg_inv_ext; [apply same_messages_sch|done].
  - rewrite Hc. unfold contents. by rewrite E, mfn_insert_eq, fmap_cons, Emx.
  - intros q' Hne. rewrite Hc. unfold contents. by rewrite mfn_insert_ne by congruence.
  - eapply woken_conserved; [|exact Hcv]. by rewrite <-Es.
  - intros y. cbn [with_sch mq_sch]. by rewrite (prio_lockless _ _ _ Hp3), Hp2, Es.
  - etransitivity; [by apply same_rest_config|]. etransitivity; [exact Hf2|].
    apply same_messages_config, same_messages_sch.
  - intros l Hne. by apply mfreed_other.
Qed.
End Receiving.

(** ** Full and empty queues *)

Section Waiting.
Implicit Types (st : mqst) (C : mloc → list Z) (L : tasklist → list Z).

(** The caller waits; no message has moved. *)
Record waits (w : mqwait) (q : Z) st L idle C st' L' : Prop := {
  wt_inv : mq_inv st' L' idle C;
  wt_queues : ∀ q', contents st' C q' = contents st C q';
  wt_slept : slept w (mq_sch st) L L';
  wt_for : msgwaitq (get (mq_sch st') (this_task (mq_sch st))) = q;
  wt_config : same_config st st';
}.

(** The call fails with [errno]; no message has moved. *)
Record fails (errno : Z) st L idle C st' L' : Prop := {
  fl_inv : mq_inv st' L' idle C;
  fl_queues : ∀ q', contents st' C q' = contents st C q';
  fl_lists : conserved L L';
  fl_errno : pterrno (get (mq_sch st') (this_task (mq_sch st))) = errno;
  fl_config : same_config st st';
}.

Lemma block_waits w q st L idle C :
  mq_inv st L idle C → q ≠ 0 → this_task (mq_sch st) ≠ idle → Z.of_nat (length (L (wl w))) < ZMAX_WAITERS →
  ∃ st' L', mq_block w q st = Some st' ∧ waits w q st L idle C st' L'.
Proof.
  intros [Hw Hm] Hq Hid Hl. destruct (mq_block_spec st L idle w q Hw Hq Hid Hl) as (st' & L' & E & Hw' & Hs & Hk & Hf).
  exists st', L'. split; [done|]. split; [split; [done|by eapply msg_inv_ext]| |done|done|by apply same_messages_config].
  intros q'. by apply contents_same.
Qed.

(** [set_errno], then the unlock at the end of the call. *)
Lemma errno_unlock v st L idle C :
  mq_inv st L idle C →
  ∃ s L', sched_unlock false (mq_sch (mq_set_errno false v st)) = Some s ∧
    fails v st L idle C (with_sch s (mq_set_errno false v st)) L'.
Proof.
  intros [Hw Hm]. destruct (wait_unlock _ _ _ false (wait_inv_errno _ _ _ false v Hw)) as (s & L' & E & Hw' & Hc & Hs).
  exists s, L'. split; [done|].
  assert (Hsm : same_messages st (with_sch s (mq_set_errno false v st))).
  { etransitivity; [apply (same_messages_errno false v)|apply same_messages_sch]. }
  split; [split; [done|by eapply msg_inv_ext]|by intros q'; apply contents_same|done| |by apply same_messages_config].
  unfold get. cbn [with_sch mq_sch]. rewrite (same_lockless_field pterrno _ _ _ (λ _, eq_refl) Hs). cbn.
  by rewrite tcb_at_upd, decide_True.
Qed.

(** A receive that finds its queue empty. *)
Lemma sq_remfirst_empty st L idle C q : mq_inv st L idle C → C (LQ q) = [] →
  ∃ st', with_list q (msglist (msgq_at st q), mq_msgs st) st = st' ∧
    sq_remfirst (msglist (msgq_at st q)) (mq_msgs st) = (0, msglist (msgq_at st q), mq_msgs st) ∧
    mq_inv st' L idle C ∧ mq_sch st' = mq_sch st ∧ same_config st st' ∧ mq_msgs st' = mq_msgs st.
Proof.
  intros [Hw Hm] E. exists (mput (LQ q) (msglist (msgq_at st q), mq_msgs st) st).
  split_and!; [done|exact (sq_remfirst_nil _ _ (LQ q) (mi_lists _ _ Hm) E)| |done| |done].
  - split; [eapply wait_inv_rest; [apply same_rest_put|done]|]. eapply msg_inv_ext; [|exact Hm].
    split; [done..| |done]. intros q'. cbn [mput]. unfold with_list. rewrite msgq_at_with.
    case_decide; [subst|]; done.
  - apply same_rest_config, (same_rest_put (LQ q)).
Qed.

Lemma mq_receive_none d q st L idle C :
  mq_inv st L idle C → d_msgq (mqdes_at st d) = q → q ≠ 0 → C (LQ q) = [] →
  if Z.land (oflags (mqdes_at st d)) O_NONBLOCK =? 0 then
    this_task (mq_sch st) ≠ idle → Z.of_nat (length (L g_waitingformqnotempty)) < ZMAX_WAITERS →
    ∃ st' L', (r ← mq_waitreceive d st; mq_receive_waited d r) = Some (RcvBlocked, st') ∧
      waits NotEmpty q st L idle C st' L'
  else
    ∃ st' L', (r ← mq_waitreceive d st; mq_receive_waited d r) = Some (RcvERROR, st') ∧
      fails EAGAIN st L idle C st' L'.
Proof.
  intros Hi Hq Hq0 E. destruct (sq_remfirst_empty st L idle C q Hi E) as (st1 & E1 & Er & Hi1 & Es & Hcf & Em).
  unfold mq_waitreceive. rewrite Hq, Er, E1. cbn [negb Z.eqb].
  rewrite (config_des _ _ d Hcf).
  assert (Hc1 : ∀ q', contents st1 C q' = contents st C q') by (intros q'; unfold contents; by rewrite Em).
  case_test.
  - intros Hid Hl. rewrite <-Es in Hid. destruct (block_waits NotEmpty q st1 L idle C Hi1 Hq0 Hid Hl) as (st2 & L2 & Eb & Hw).
    unfold mq_block in Eb. cbv zeta in Eb |- *.
    change (wstate NotEmpty) with TSTATE_WAIT_MQNOTEMPTY in Eb. cbn [with_nwait nwait] in Eb.
    destruct (up_block_task _ TSTATE_WAIT_MQNOTEMPTY _) as [s|]; [|done]. cbn [mbind option_bind] in *.
    injection Eb as <-. eexists _, L2. split; [reflexivity|].
    destruct Hw as [? Hq' Hsl Hfor ?]. rewrite Es in Hsl, Hfor. split; [done| |done|done|by transitivity st1].
    intros q'. by rewrite Hq'.
  - destruct (errno_unlock EAGAIN st1 L idle C Hi1) as (s & L2 & Eu & Hf). cbn [mbind option_bind mq_receive_waited negb Z.eqb].
    rewrite Eu. cbn [mbind option_bind]. eexists _, L2. split; [reflexivity|].
    destruct Hf as [? Hq' ? ? ?]. split; [done| |done|by rewrite <-Es|by transitivity st1].
    intros q'. by rewrite Hq'.
Qed.

(** A send that finds its queue full. *)
Lemma mq_waitsend_loop_full q st L idle C :
  mq_inv st L idle C → q ≠ 0 → maxmsgs (msgq_at st q) ≤ nmsgs (msgq_at st q) →
  this_task (mq_sch st) ≠ idle → Z.of_nat (length (L g_waitingformqnotfull)) < ZMAX_WAITERS →
  ∃ st' L', mq_waitsend_loop q st = Some (MqBlocked, st') ∧ waits NotFull q st L idle C st' L'.
Proof.
  intros Hi Hq0 Hfull Hid Hl. destruct (block_waits NotFull q st L idle C Hi Hq0 Hid Hl) as (st2 & L2 & Eb & Hw).
  unfold mq_waitsend_loop. rewrite (proj2 (Z.leb_le _ _)) by done. cbv zeta.
  unfold mq_block in Eb. cbv zeta in Eb.
  change (wstate NotFull) with TSTATE_WAIT_MQNOTFULL in Eb. cbn [with_nwait nwait] in Eb.
  destruct (up_block_task _ TSTATE_WAIT_MQNOTFULL _) as [s|]; [|done]. cbn [mbind option_bind] in *.
  injection Eb as <-. by eexists _, L2.
Qed.
End Waiting.
