(* ===== verification/MqThms.v ===== *)
(** What message queues promise: messages are received in the order of their
    priority, and among equals in the order they were sent, with the bytes that
    were sent; a send wakes the task that waits longest among those of the
    highest priority; calls that cannot proceed block or fail as their flags
    say; and no sequence of calls breaks a list, loses a message or fails an
    assertion. *)

From stdpp Require Import base numbers functions gmap sorting list.
From S2P Require Import Prelude Queue Memory Sched SchedInv SchedThms SchedFields Sem SemThms.
From S2P Require Import Mqueue MqInv MqOps MqWait MqSpec.

Section Calls.
Variable sig_mqnotempty : Z → Z → Z → mqst → mqst.
Implicit Types (st : mqst) (C : mloc → list Z) (L : tasklist → list Z).

(** ** The lock at the start of a call *)

Lemma lock_call irq st L idle C n :
  mq_inv st L idle C → locks (tcbs (mq_sch st)) (this_task (mq_sch st)) < n → n ≤ MAX_LOCK_COUNT →
  ∃ s, sched_lock irq (mq_sch st) = Some s ∧ mq_inv (with_sch s st) L idle C ∧
    this_task s = this_task (mq_sch st) ∧ same_lockless (tcbs (mq_sch st)) (tcbs s) ∧
    locks (tcbs s) (this_task s) < n + 1.
Proof.
  intros [Hw Hm] Hl Hn. destruct (wait_lock _ _ _ irq Hw) as (s & E & Hw' & Ht & Hs); [lia|].
  exists s. split_and!; [done| |done|done|].
  - split; [done|]. eapply msg_inv_ext; [apply same_messages_sch|done].
  - pose proof (sched_lock_count _ _ _ E). lia.
Qed.

Lemma sent_lock q m st s L idle C st' L' C' :
  same_lockless (tcbs (mq_sch st)) (tcbs s) →
  sent q m (with_sch s st) L idle C st' L' C' → sent q m st L idle C st' L' C'.
Proof.
  intros Hs [Hi Hc Ho Hk Hp Hcf]. split; [done|done|done| |intros y; by rewrite Hp; apply prio_lockless|done].
  unfold woken in *. cbn [with_sch mq_sch] in Hk. by rewrite (mwaiting_lockless _ _ L NotEmpty q Hs) in Hk.
Qed.

Lemma received_lock q m st s L idle C st' L' C' :
  same_lockless (tcbs (mq_sch st)) (tcbs s) →
  received q m (with_sch s st) L idle C st' L' C' → received q m st L idle C st' L' C'.
Proof.
  intros Hs [Hi Hc Ho Hk Hp Hcf]. split; [done|done|done| |intros y; by rewrite Hp; apply prio_lockless|done].
  unfold woken in *. cbn [with_sch mq_sch] in Hk. by rewrite (mwaiting_lockless _ _ L NotFull q Hs) in Hk.
Qed.

Lemma waits_lock w q st s L idle C st' L' :
  this_task s = this_task (mq_sch st) → same_lockless (tcbs (mq_sch st)) (tcbs s) →
  waits w q (with_sch s st) L idle C st' L' → waits w q st L idle C st' L'.
Proof.
  intros Ht Hs [Hi Hc Hk Hf Hcf]. cbn [with_sch mq_sch] in Hk, Hf. rewrite Ht in Hf.
  split; [done|done| |done|done]. intros w'. rewrite Hk. cbn [with_sch mq_sch]. rewrite Ht.
  case_decide; [|done]. apply pinsert_ext. intros y _. by apply prio_lockless.
Qed.

Lemma fails_lock e st s L idle C st' L' :
  this_task s = this_task (mq_sch st) →
  fails e (with_sch s st) L idle C st' L' → fails e st L idle C st' L'.
Proof. intros Ht [Hi Hc Hk Hf Hcf]. cbn [with_sch mq_sch] in Hf. rewrite Ht in Hf. by split. Qed.

(** ** Verification of the arguments *)

(** The arguments that [mq_send] accepts: a descriptor that may be written, a
    priority in range, a message that fits; message sizes fit a byte. *)
Definition sendable (d len p : Z) st : Prop :=
  let q := d_msgq (mqdes_at st d) in
  d ≠ 0 ∧ q ≠ 0 ∧ 0 ≤ p ≤ MQ_PRIO_MAX ∧ Z.land (oflags (mqdes_at st d)) O_WROK ≠ 0 ∧
  0 ≤ len ≤ maxmsgsize (msgq_at st q) ∧ maxmsgsize (msgq_at st q) ≤ 255.

Lemma verifysend_ok irq d msg len p st : sendable d len p st →
  mq_verifysend irq d (Some msg) len p st = (true, st).
Proof.
  intros (Hd & Hq & Hp & Hf & Hl & _). unfold mq_verifysend.
  rewrite bool_decide_eq_true_2 by eauto. rewrite (proj2 (Z.eqb_neq d 0)) by done.
  rewrite (proj2 (Z.ltb_ge p 0)), (proj2 (Z.ltb_ge MQ_PRIO_MAX p)) by lia. cbn [negb orb].
  rewrite (proj2 (Z.eqb_neq _ 0)) by done. by rewrite (proj2 (Z.ltb_ge _ len)) by lia.
Qed.

Definition receivable (d : Z) (msglen : Z) st : Prop :=
  let q := d_msgq (mqdes_at st d) in
  d ≠ 0 ∧ q ≠ 0 ∧ Z.land (oflags (mqdes_at st d)) O_RDOK ≠ 0 ∧ maxmsgsize (msgq_at st q) ≤ msglen.

Lemma verifyreceive_ok d msglen st : receivable d msglen st → mq_verifyreceive d true msglen st = (true, st).
Proof.
  intros (Hd & Hq & Hf & Hl). unfold mq_verifyreceive. rewrite (proj2 (Z.eqb_neq d 0)) by done. cbn [negb orb].
  rewrite (proj2 (Z.eqb_neq _ 0)) by done. by rewrite (proj2 (Z.ltb_ge msglen _)) by lia.
Qed.

(** ** The calls *)

Lemma mq_send_room irq dyn d msg len p st L idle C :
  mq_inv st L idle C → sendable d len p st →
  let q := d_msgq (mqdes_at st d) in
  irq = true ∨ nmsgs (msgq_at st q) < maxmsgs (msgq_at st q) →
  mavail irq dyn C → Z.of_nat (length (C (LQ q))) < MAX_MSGS →
  locks (tcbs (mq_sch st)) (this_task (mq_sch st)) < MAX_LOCK_COUNT - 1 →
  ∃ st' L' C', mq_send sig_mqnotempty irq dyn d (Some msg) len p st = Some (MqOK, st') ∧
    sent q (p, len, take (Z.to_nat len) msg) st L idle C st' L' C' ∧ (∀ l, l ≠ LQ q → C' l = malloced irq C l).
Proof.
  intros Hi Hs q Hr Ha Hl Hlk. unfold mq_send. rewrite (verifysend_ok _ _ _ _ _ _ Hs). cbn [negb].
  destruct (lock_call irq st L idle C _ Hi Hlk) as (s & -> & Hi1 & Ht & Hsl & Hlk1); [lia|]. cbn [mbind option_bind].
  change (mqdes_at (with_sch s st) d) with (mqdes_at st d). fold q.
  change (msgq_at (with_sch s st) q) with (msgq_at st q).
  replace (irq || _) with true by (destruct Hr as [->|?%Z.ltb_lt]; [done|by destruct irq]).
  pose proof Hs as (_ & Hq0 & Hp & _ & Hlen & Hmx). unfold MQ_PRIO_MAX in Hp.
  destruct (mq_send_rest_spec sig_mqnotempty irq dyn d q msg len p (with_sch s st) L idle C)
    as (st' & L' & C' & E & Hse & Ho); [done|done|done|done|done|done|lia|cbn; lia|].
  exists st', L', C'. split; [exact E|]. split; [by eapply sent_lock|done].
Qed.

Lemma mq_send_noroom dyn d msg len p st L idle C :
  mq_inv st L idle C → sendable d len p st →
  let q := d_msgq (mqdes_at st d) in
  maxmsgs (msgq_at st q) ≤ nmsgs (msgq_at st q) → this_task (mq_sch st) ≠ idle →
  Z.of_nat (length (L g_waitingformqnotfull)) < ZMAX_WAITERS →
  locks (tcbs (mq_sch st)) (this_task (mq_sch st)) < MAX_LOCK_COUNT →
  ∃ r st' L', mq_send sig_mqnotempty false dyn d (Some msg) len p st = Some (r, st') ∧
    if Z.land (oflags (mqdes_at st d)) O_NONBLOCK =? 0
    then r = MqBlocked ∧ waits NotFull q st L idle C st' L'
    else r = MqERROR ∧ fails EAGAIN st L idle C st' L'.
Proof.
  intros Hi Hs q Hf Hid Hl Hlk. unfold mq_send. rewrite (verifysend_ok _ _ _ _ _ _ Hs). cbn [negb].
  destruct (lock_call false st L idle C _ Hi Hlk) as (s & -> & Hi1 & Ht & Hsl & Hlk1); [lia|]. cbn [mbind option_bind].
  unfold mq_waitsend. change (mqdes_at (with_sch s st) d) with (mqdes_at st d). fold q.
  change (msgq_at (with_sch s st) q) with (msgq_at st q).
  rewrite (proj2 (Z.ltb_ge _ _)) by lia. cbn [orb]. rewrite (proj2 (Z.leb_le _ _)) by lia.
  destruct (_ =? 0); cbn [negb].
  - destruct (mq_waitsend_loop_full q (with_sch s st) L idle C Hi1) as (st' & L' & -> & Hw);
      [apply Hs|done|cbn; congruence|done|].
    cbn [mbind option_bind mq_send_waited]. exists MqBlocked, st', L'. split; [done|]. split; [done|].
    by eapply waits_lock.
  - destruct (errno_unlock EAGAIN (with_sch s st) L idle C Hi1) as (s' & L' & Eu & Hfl).
    cbn [mbind option_bind mq_send_waited]. rewrite Eu. cbn [mbind option_bind].
    eexists MqERROR, _, L'. split; [done|]. split; [done|]. by eapply fails_lock.
Qed.

Lemma mq_receive_head d msglen x r st L idle C :
  mq_inv st L idle C → receivable d msglen st →
  let q := d_msgq (mqdes_at st d) in
  C (LQ q) = x :: r → Z.of_nat (length (C (LQ q))) ≤ MAX_MSGS →
  locks (tcbs (mq_sch st)) (this_task (mq_sch st)) < MAX_LOCK_COUNT →
  let '(p, len, data) := mail (mq_msgs st) x in
  ∃ st' L' C', mq_receive d true msglen st = Some (RcvData len data p, st') ∧
    received q (p, len, data) st L idle C st' L' C' ∧
    (∀ l, l ≠ LQ q → C' l = mfreed (m_type (msg_at (mq_msgs st) x)) x C l).
Proof.
  intros Hi Hs q E Hl Hlk. unfold mq_receive. rewrite (verifyreceive_ok _ _ _ Hs). cbn [negb].
  destruct (lock_call false st L idle C _ Hi Hlk) as (s & -> & Hi1 & Ht & Hsl & Hlk1); [lia|]. cbn [mbind option_bind].
  pose proof (mq_receive_some d q x r (with_sch s st) L idle C Hi1 eq_refl) as Hr.
  change (mq_msgs (with_sch s st)) with (mq_msgs st) in Hr.
  destruct (mail (mq_msgs st) x) as [[p len] data]. destruct Hr as (st' & L' & C' & Er & Hrc & Ho); [apply Hs|done|done|].
  exists st', L', C'. split; [exact Er|]. split; [by eapply received_lock|done].
Qed.

Lemma mq_receive_nothing d msglen st L idle C :
  mq_inv st L idle C → receivable d msglen st →
  let q := d_msgq (mqdes_at st d) in
  C (LQ q) = [] → this_task (mq_sch st) ≠ idle →
  Z.of_nat (length (L g_waitingformqnotempty)) < ZMAX_WAITERS →
  locks (tcbs (mq_sch st)) (this_task (mq_sch st)) < MAX_LOCK_COUNT →
  ∃ r st' L', mq_receive d true msglen st = Some (r, st') ∧
    if Z.land (oflags (mqdes_at st d)) O_NONBLOCK =? 0
    then r = RcvBlocked ∧ waits NotEmpty q st L idle C st' L'
    else r = RcvERROR ∧ fails EAGAIN st L idle C st' L'.
Proof.
  intros Hi Hs q E Hid Hl Hlk. unfold mq_receive. rewrite (verifyreceive_ok _ _ _ Hs). cbn [negb].
  destruct (lock_call false st L idle C _ Hi Hlk) as (s & -> & Hi1 & Ht & Hsl & Hlk1); [lia|]. cbn [mbind option_bind].
  pose proof (mq_receive_none d q (with_sch s st) L idle C Hi1 eq_refl ltac:(apply Hs) E) as Hr.
  change (mqdes_at (with_sch s st) d) with (mqdes_at st d) in Hr. cbn [with_sch mq_sch] in Hr. rewrite Ht in Hr.
  destruct (_ =? 0).
  - destruct (Hr Hid Hl) as (st' & L' & Er & Hw). exists RcvBlocked, st', L'. split; [exact Er|].
    split; [done|]. by eapply waits_lock.
  - destruct Hr as (st' & L' & Er & Hf). exists RcvERROR, st', L'. split; [exact Er|].
    split; [done|]. by eapply fails_lock.
Qed.

End Calls.

(** ** Cancelling a wait *)

Section CancelFree.
Implicit Types (st : mqst) (C : mloc → list Z) (L : tasklist → list Z).

Lemma on_tcb_twice x f g (s : sched) : on_tcb x g (on_tcb x f s) = on_tcb x (g ∘ f) s.
Proof.
  unfold on_tcb, with_tcbs. cbn. f_equal. unfold upd, tcb_at, tstore.
  by rewrite insert_insert_eq, lookup_insert_eq.
Qed.

Definition cancelled w (x e : Z) st L st' L' : Prop :=
  L' (wl w) = remove_first x (L (wl w)) ∧ (x ∈ L' g_readytorun ∨ x ∈ L' g_pendingtasks) ∧
  pterrno (get (mq_sch st') x) = e ∧ msgwaitq (get (mq_sch st') x) = 0.

Lemma mq_waitirq_waiting w x e st L idle C :
  mq_inv st L idle C → x ∈ L (wl w) →
  ∃ st' L', mq_waitirq x e st = Some st' ∧ mq_inv st' L' idle C ∧ same_messages st st' ∧ cancelled w x e st L st' L'.
Proof.
  intros [Hw Hm] Hx. pose proof (wait_state _ _ _ _ _ (wv_sched _ _ _ Hw) Hx) as Hst.
  set (q := msgwaitq (get (mq_sch st) x)).
  destruct (unwait st L idle w q x (with_errno e ∘ with_msgwaitq 0) Hw Hx eq_refl) as (s' & E & Hw' & HL & Hws & He);
    [done..|].
  set (st' := with_sch s' (with_msgq q (with_nwait w (nwait w (msgq_at st q) - 1)) st)) in *.
  assert (Hs : same_messages st st') by (etransitivity; [apply (same_messages_nwait w q)|apply same_messages_sch]).
  unfold cancelled. exists st'. eexists. split_and!; [|split; [exact Hw'|by eapply msg_inv_ext]|done|..].
  - unfold mq_waitirq. change (task_state (get (mq_sch st) x)) with (tstate_of (tcbs (mq_sch st)) x). rewrite Hst.
    unfold st'. destruct w; cbn [wstate nwait with_nwait]; unfold mq_tcb; cbn [with_msgq with_sch mq_sch];
      rewrite on_tcb_twice, E; done.
  - by rewrite HL, decide_True.
  - apply add_ready_in.
  - unfold get. cbn [st' with_sch mq_sch]. rewrite (same_essence_field pterrno _ _ _ (λ _, eq_refl) He). cbn.
    by rewrite tcb_at_upd, decide_True.
  - cbn [st' with_sch mq_sch]. by rewrite Hws, decide_True.
Qed.

Lemma mq_waitirq_spec x e st L idle C :
  mq_inv st L idle C → ∃ st' L', mq_waitirq x e st = Some st' ∧ mq_inv st' L' idle C ∧ same_messages st st'.
Proof.
  intros Hi. destruct (task_state (get (mq_sch st) x)) eqn:E.
  8: destruct (mq_waitirq_waiting NotEmpty x e st L idle C Hi) as (st' & L' & ? & ? & ? & _); [|by eauto].
  9: destruct (mq_waitirq_waiting NotFull x e st L idle C Hi) as (st' & L' & ? & ? & ? & _); [|by eauto].
  8, 9: apply (sw_member _ _ _ (proj1 (wv_sched _ _ _ (proj1 Hi)))); unfold tstate_of;
    change (tcb_at (tcbs (mq_sch st)) x) with (get (mq_sch st) x); by rewrite E.
  all: exists st, L; unfold mq_waitirq; by rewrite E.
Qed.

(** ** Freeing a queue *)

Definition freeall (s : msgs) (k : list Z) C : mloc → list Z :=
  foldl (λ C x, mfreed (m_type (msg_at s x)) x C) C k.

Lemma freeall_lists s k C :
  (∀ q, freeall s k C (LQ q) = C (LQ q)) ∧
  freeall s k C LFree = C LFree ++ filter (λ x, m_type (msg_at s x) = MQ_ALLOC_FIXED) k ∧
  freeall s k C LIrq = C LIrq ++ filter (λ x, m_type (msg_at s x) = MQ_ALLOC_IRQ) k.
Proof.
  revert C. induction k as [|x k IH]; intros C; cbn [freeall foldl].
  { unfold filter; simpl. by rewrite !app_nil_r. }
  fold (freeall s k (mfreed (m_type (msg_at s x)) x C)). rewrite !filter_cons.
  destruct (IH (mfreed (m_type (msg_at s x)) x C)) as (H1 & H2 & H3). split_and!.
  - intros q. by rewrite H1, mfreed_queue.
  - rewrite H2. destruct (m_type (msg_at s x)); cbn [mfreed]; repeat case_decide; try done.
    by rewrite mfn_insert_eq, <-app_assoc.
  - rewrite H3. destruct (m_type (msg_at s x)); cbn [mfreed]; repeat case_decide; try done.
    by rewrite mfn_insert_eq, <-app_assoc.
Qed.

Lemma freeall_ext s s' k C :
  (∀ x, x ∈ k → m_type (msg_at s' x) = m_type (msg_at s x)) → freeall s' k C = freeall s k C.
Proof.
  revert C. induction k as [|x k IH]; intros C He; [done|]. unfold freeall. cbn [foldl].
  rewrite He by in_list. apply IH. intros y Hy. apply He. in_list.
Qed.

Lemma msgqfree_loop_spec k : ∀ fuel st C,
  msg_inv st C → chain (flink (mq_msgs st)) k 0 → NoDup k → 0 ∉ k →
  (∀ x, x ∈ k → mfresh C x ∧ is_Some (mq_msgs st !! x)) → (length k ≤ fuel)%nat →
  ∃ st', msgqfree_loop fuel (default 0 (head k)) st = Some st' ∧
    msg_inv st' (freeall (mq_msgs st) k C) ∧ same_rest st st' ∧
    (∀ y, y ∉ k → mdata (msg_at (mq_msgs st') y) = mdata (msg_at (mq_msgs st) y)).
Proof.
  induction k as [|x k IH]; intros fuel st C Hi Hc Hn H0 Hk Hf.
  { exists st. split_and!; [by destruct fuel|done|apply same_rest_refl|done]. }
  destruct Hc as [Hnx Hc]. apply NoDup_cons in Hn as [Hxk Hn]. apply not_elem_of_cons in H0 as [Hx0 H0].
  destruct (Hk x ltac:(in_list)) as [Hx Hd]. destruct fuel as [|fuel]; [simpl in Hf; lia|].
  destruct (mq_msgfree_spec st C x Hi Hx) as (Hi1 & (Ho1 & Ho2 & Ho3) & Hr1); [done|done|].
  assert (Hne : ∀ y, y ∈ k → y ≠ x) by (intros y Hy ->; done).
  destruct (IH fuel (mq_msgfree x st) _ Hi1) as (st' & E & Hi' & Hr' & Hm'); [|done|done| |simpl in Hf; lia|].
  - eapply chain_ext; [|exact Hc]. intros y Hy. apply Ho2; [by apply Hne|]. apply Hk. in_list.
  - intros y Hy. destruct (Hk y ltac:(in_list)) as [Hfy Hdy]. split; [|apply Ho3; [by apply Hne|done]].
    intros l. specialize (Hfy l). specialize (Hne _ Hy). unfold mfreed. destruct (m_type _); [|done|];
      match goal with |- _ ∉ <[?l0 := _]> _ _ => destruct (decide (l0 = l)) as [<-|] end;
      rewrite ?mfn_insert_eq, ?mfn_insert_ne by done; try done;
      rewrite elem_of_app, list_elem_of_singleton; tauto.
  - exists st'. split_and!; [| |apply (same_rest_trans _ _ _ Hr1 Hr')|].
    + change (default 0 (head (x :: k))) with x. cbn [msgqfree_loop]. rewrite (proj2 (Z.eqb_neq x 0)) by done.
      change (m_next (msg_at (mq_msgs st) x) = default 0 (head k)) in Hnx. by rewrite Hnx.
    + rewrite (freeall_ext (mq_msgs st)) in Hi'; [exact Hi'|].
      intros y Hy. by apply (mdata_field m_type), Ho1, Hne.
    + intros y [? ?]%not_elem_of_cons. by rewrite Hm', Ho1.
Qed.

Lemma msgqfree_loop_del q fuel c st :
  msgqfree_loop fuel c (del_msgq q st) = del_msgq q <$> msgqfree_loop fuel c st.
Proof.
  revert c st. induction fuel as [|fuel IH]; intros c st; cbn [msgqfree_loop]; destruct (c =? 0); try done.
  rewrite <-IH. f_equal. unfold mq_msgfree. cbn [del_msgq mq_msgs]. by destruct (m_type _).
Qed.

Lemma msgq_at_del q st y : msgq_at (del_msgq q st) y = if decide (y = q) then msgq0 else msgq_at st y.
Proof.
  unfold msgq_at, del_msgq. cbn. case_decide; [subst; by rewrite lookup_delete_eq|by rewrite lookup_delete_ne].
Qed.

Lemma msg_inv_del q st C : msg_inv st C → msg_inv (del_msgq q st) (<[LQ q := []]> C).
Proof.
  intros [[Hr Hd Hdom] Hs Hc H1 H2 Hn].
  assert (Hsub : ∀ l x, x ∈ <[LQ q := []]> C l → x ∈ C l).
  { intros l x. destruct (decide (LQ q = l)) as [<-|]; [rewrite mfn_insert_eq; by intros []%not_elem_of_nil|].
    by rewrite mfn_insert_ne. }
  split; [split|..]; cbn [del_msgq mq_msgs].
  - intros l. destruct (decide (LQ q = l)) as [<-|Hl].
    + rewrite mfn_insert_eq. cbn [mqueue_of]. rewrite msgq_at_del, decide_True by done.
      split_and!; [done|apply NoDup_nil_2|apply not_elem_of_nil|done..].
    + rewrite mfn_insert_ne by done. specialize (Hr l). destruct l as [q'| |]; cbn [mqueue_of] in *; [|done..].
      by rewrite msgq_at_del, decide_False by congruence.
  - intros l l' x Hx Hx'. eapply Hd; by apply Hsub.
  - intros l x Hx. eapply Hdom. by apply Hsub.
  - intros q'. destruct (decide (LQ q = LQ q')) as [<-|]; [rewrite mfn_insert_eq; constructor|].
    by rewrite mfn_insert_ne.
  - intros q'. rewrite msgq_at_del. case_decide as E; [subst; by rewrite mfn_insert_eq|].
    rewrite mfn_insert_ne by congruence. apply Hc.
  - intros x Hx. apply H1. by apply Hsub.
  - intros x Hx. apply H2. by apply Hsub.
  - intros q'. rewrite msgq_at_del. by case_decide.
Qed.

(** Every message of the queue returns to its pool. *)
Lemma mq_msgqfree_spec q st L idle C :
  mq_inv st L idle C → (∀ w, nwait w (msgq_at st q) = 0) →
  let C' := freeall (mq_msgs st) (C (LQ q)) (<[LQ q := []]> C) in
  ∃ st', mq_msgqfree q st = Some st' ∧ mq_inv st' L idle C' ∧ others q st st' C C' ∧ mqdess st' = mqdess st.
Proof.
  intros [Hw Hm] Hz C'. pose proof (mi_lists _ _ Hm) as Hl.
  destruct (ml_repr _ _ Hl (LQ q)) as (Hc & Hn & H0 & Hh & _). cbn [mqueue_of] in Hh.
  destruct (msgqfree_loop_spec (C (LQ q)) (size (mq_msgs st)) (del_msgq q st) (<[LQ q := []]> C))
    as (st' & E & Hm' & Hr' & Hd'); [by apply msg_inv_del|done|done|done| |by apply mlists_length|].
  { intros x Hx. split; [|by apply (ml_dom _ _ Hl (LQ q))]. intros l.
    destruct (decide (LQ q = l)) as [<-|Hne]; [rewrite mfn_insert_eq; apply not_elem_of_nil|].
    rewrite mfn_insert_ne by done. intros Hx'. apply Hne. by apply (ml_disj _ _ Hl _ _ x). }
  rewrite msgqfree_loop_del in E. unfold mq_msgqfree. rewrite Hh.
  destruct (msgqfree_loop _ _ _) as [st0|]; [|done]. cbn [fmap option_fmap option_map mbind option_bind] in *.
  injection E as E. rewrite E. exists st'. split; [done|]. pose proof Hr' as (Es & Ed & Eq).
  split_and!; [split; [|exact Hm']| |done].
  - eapply wait_inv_rest; [exact Hr'|]. eapply wait_inv_sched; [exact Hw|apply Hw|done|done|].
    intros w q'. rewrite msgq_at_del. case_decide; [subst; rewrite Hz; by destruct w|done].
  - intros q' Hne. unfold contents, C'. destruct (freeall_lists (mq_msgs st) (C (LQ q)) (<[LQ q := []]> C)) as (-> & _).
    rewrite mfn_insert_ne by congruence. apply contents_mail. intros x Hx. apply Hd'.
    intros Hx'. apply Hne. assert (LQ q' = LQ q) by (by apply (ml_disj _ _ Hl _ _ x)). congruence.
Qed.
End CancelFree.
