(* ===== verification/MqSafe.v ===== *)
(** Every sequence of calls on message queues, by tasks and by interrupt
    handlers, keeps the lists of messages and of waiting tasks intact and never
    panics. *)

From stdpp Require Import base numbers functions gmap sorting list.
From S2P Require Import Prelude Queue Memory Sched SchedInv SchedThms SchedFields Sem SemThms.
From S2P Require Import Mqueue MqInv MqOps MqWait MqSpec MqThms.

Inductive mq_op :=
  | OpSend (irq : bool) (dyn d : Z) (msg : option (list Z)) (len p : Z)
  | OpSendResume (dyn d : Z) (msg : list Z) (len p : Z)
  | OpReceive (d : Z) (buffer : bool) (msglen : Z)
  | OpReceiveResume (d : Z)
  | OpWaitIrq (tcb errcode : Z)
  | OpMsgqFree (q : Z)
  | OpMqLock
  | OpMqUnlock.

Section Safe.
Variable sig_mqnotempty : Z → Z → Z → mqst → mqst.
Implicit Types (st : mqst) (C : mloc → list Z) (L : tasklist → list Z).

Definition mq_exec (op : mq_op) st : option mqst :=
  match op with
  | OpSend irq dyn d msg len p => snd <$> mq_send sig_mqnotempty irq dyn d msg len p st
  | OpSendResume dyn d msg len p => snd <$> mq_send_resume sig_mqnotempty dyn d msg len p st
  | OpReceive d buffer msglen => snd <$> mq_receive d buffer msglen st
  | OpReceiveResume d => snd <$> mq_receive_resume d st
  | OpWaitIrq tcb errcode => mq_waitirq tcb errcode st
  | OpMsgqFree q => mq_msgqfree q st
  | OpMqLock => s ← sched_lock false (mq_sch st); Some (with_sch s st)
  | OpMqUnlock => s ← sched_unlock false (mq_sch st); Some (with_sch s st)
  end.

(** Of the caller: the idle task does not wait, locks do not nest deeper than the
    counter allows, and the tasks can be counted by 16 bits. *)
Definition call_legal (irq : bool) (idle : Z) st : Prop :=
  (irq = false → this_task (mq_sch st) ≠ idle) ∧
  locks (tcbs (mq_sch st)) (this_task (mq_sch st)) < MAX_LOCK_COUNT - 1 ∧
  Z.of_nat (size (tcbs (mq_sch st))) < ZMAX_WAITERS.

(** Memory for a message that the pool cannot give. *)
Definition memory_legal (irq : bool) (dyn : Z) st : Prop :=
  q_head (g_msgfree st) = 0 → irq = false → dyn ≠ 0 ∧ mq_msgs st !! dyn = None.

Definition mq_legal (idle : Z) (op : mq_op) st : Prop :=
  match op with
  | OpSend irq dyn d _ len _ =>
      let q := d_msgq (mqdes_at st d) in
      call_legal irq idle st ∧ memory_legal irq dyn st ∧ nmsgs (msgq_at st q) < MAX_MSGS ∧ 0 ≤ len ∧
      (d ≠ 0 → q ≠ 0 ∧ maxmsgsize (msgq_at st q) ≤ 255)
  | OpSendResume dyn d _ len p =>
      call_legal false idle st ∧ memory_legal false dyn st ∧
      nmsgs (msgq_at st (d_msgq (mqdes_at st d))) < MAX_MSGS ∧ sendable d len p st
  | OpReceive d _ _ =>
      let q := d_msgq (mqdes_at st d) in
      call_legal false idle st ∧ nmsgs (msgq_at st q) ≤ MAX_MSGS ∧ (d ≠ 0 → q ≠ 0)
  | OpReceiveResume d =>
      let q := d_msgq (mqdes_at st d) in
      call_legal false idle st ∧ nmsgs (msgq_at st q) ≤ MAX_MSGS ∧ q ≠ 0
  | OpWaitIrq _ _ => True
  | OpMsgqFree q => nwaitnotempty (msgq_at st q) = 0 ∧ nwaitnotfull (msgq_at st q) = 0
  | OpMqLock => locks (tcbs (mq_sch st)) (this_task (mq_sch st)) < MAX_LOCK_COUNT
  | OpMqUnlock => True
  end.

(** An operation that returns and keeps the invariant. *)
Definition keeps {A} (idle : Z) (r : option (A * mqst)) : Prop :=
  ∃ a st' L' C', r = Some (a, st') ∧ mq_inv st' L' idle C'.

Lemma few_waiting st L idle C k : mq_inv st L idle C → Z.of_nat (size (tcbs (mq_sch st))) < ZMAX_WAITERS →
  Z.of_nat (length (L k)) < ZMAX_WAITERS.
Proof.
  intros [Hw _] Hs. pose proof (lists_length _ _ k (sw_lists _ _ _ (proj1 (wv_sched _ _ _ Hw)))) as Hl.
  unfold sched_fuel in Hl. lia.
Qed.

Lemma unlock_keeps irq (a : mq_ret) st L idle C : mq_inv st L idle C →
  keeps idle (s ← sched_unlock irq (mq_sch st); Some (a, with_sch s st)).
Proof.
  intros [Hw Hm]. destruct (wait_unlock _ _ _ irq Hw) as (s & L' & -> & Hw' & _).
  exists a, (with_sch s st), L', C. split; [done|]. split; [done|].
  eapply msg_inv_ext; [apply same_messages_sch|done].
Qed.

Lemma memory_avail irq dyn st C : msg_inv st C → memory_legal irq dyn st →
  mavail irq dyn C ∨ irq = true ∧ C LFree = [] ∧ C LIrq = [].
Proof.
  intros Hm Hd. unfold mavail. destruct (C LFree) as [|x r] eqn:E; [|by left; left].
  destruct irq; [destruct (C LIrq); [by right|by left; right]|]. left. right.
  destruct (ml_repr _ _ (mi_lists _ _ Hm) LFree) as (_ & _ & _ & Hh & _). rewrite E in Hh.
  destruct (Hd Hh eq_refl) as [Hn Hl]. split; [done|]. intros l Hx.
  apply (ml_dom _ _ (mi_lists _ _ Hm)) in Hx as [m Hx]. by rewrite Hl in Hx.
Qed.

(** An interrupt handler that finds both pools empty gets no message, and what
    it found is what it leaves. *)
Lemma mq_send_rest_dry dyn d msg len p st L idle C :
  mq_inv st L idle C → C LFree = [] → C LIrq = [] →
  ∃ st', mq_send_rest sig_mqnotempty true dyn d msg len p st = Some (MqERROR, st') ∧ mq_inv st' L idle C ∧
    mq_sch st' = mq_sch st ∧ (∀ q, contents st' C q = contents st C q).
Proof.
  intros [Hw Hm] E1 E2. unfold mq_send_rest, mq_msgalloc.
  pose proof (sq_remfirst_nil _ _ LFree (mi_lists _ _ Hm) E1) as F1. cbn [mqueue_of] in F1. rewrite F1.
  pose proof (sq_remfirst_nil _ _ LIrq (mi_lists _ _ Hm) E2) as F2. cbn [mqueue_of] in F2.
  cbn [negb Z.eqb with_msgfree g_msgfreeirq mq_msgs snd]. rewrite F2. cbn [mbind option_bind negb Z.eqb].
  unfold sched_unlock. rewrite andb_false_r. cbn [mbind option_bind].
  eexists. split; [reflexivity|]. split; [split|by split].
  - eapply wait_inv_rest; [|exact Hw]. by split_and!.
  - eapply msg_inv_ext; [|exact Hm]. by split.
Qed.

Lemma mq_send_rest_keeps irq dyn d q msg len p st L idle C :
  mq_inv st L idle C → d_msgq (mqdes_at st d) = q → q ≠ 0 → memory_legal irq dyn st →
  nmsgs (msgq_at st q) < MAX_MSGS → 0 ≤ p ≤ 255 → 0 ≤ len ≤ 255 →
  locks (tcbs (mq_sch st)) (this_task (mq_sch st)) < MAX_LOCK_COUNT →
  keeps idle (mq_send_rest sig_mqnotempty irq dyn d msg len p st).
Proof.
  intros Hi Hq Hq0 Hmem Hl Hp Hn Hlk. pose proof Hi as [Hw Hm]. rewrite (mi_count _ _ Hm) in Hl.
  destruct (memory_avail _ _ _ _ Hm Hmem) as [Ha|(-> & E1 & E2)].
  - destruct (mq_send_rest_spec sig_mqnotempty irq dyn d q msg len p st L idle C) as (st' & L' & C' & E & Hs & _);
      [done..|]. exists MqOK, st', L', C'. split; [exact E|apply Hs].
  - destruct (mq_send_rest_dry dyn d msg len p st L idle C Hi E1 E2) as (st' & E & Hi' & _).
    by exists MqERROR, st', L, C.
Qed.

Lemma verifysend_cases irq d msg len p st :
  0 ≤ len → (d ≠ 0 → d_msgq (mqdes_at st d) ≠ 0 ∧ maxmsgsize (msgq_at st (d_msgq (mqdes_at st d))) ≤ 255) →
  (∃ m, msg = Some m ∧ sendable d len p st) ∨ ∃ e, mq_verifysend irq d msg len p st = (false, mq_set_errno irq e st).
Proof.
  intros Hlen Hd. unfold mq_verifysend. case_test; [by right; eexists|].
  apply orb_false_iff in Heqb as [[[Hm Hd0]%orb_false_iff Hp]%orb_false_iff Hp']. zb.
  apply bool_decide_eq_true in Hm as [m ->]. case_test; [by right; eexists|].
  case_test; [by right; eexists|]. left. exists m. split; [done|]. destruct (Hd Hd0). by split_and!.
Qed.

Lemma mq_send_keeps irq dyn d msg len p st L idle C :
  mq_inv st L idle C → mq_legal idle (OpSend irq dyn d msg len p) st →
  keeps idle (mq_send sig_mqnotempty irq dyn d msg len p st).
Proof.
  intros Hi ((Hid & Hlk & Hsz) & Hmem & Hl & Hlen & Hd).
  destruct (verifysend_cases irq d msg len p st Hlen Hd) as [(m & -> & Hs)|[e Ee]].
  - set (q := d_msgq (mqdes_at st d)) in *.
    destruct (decide (irq = true ∨ nmsgs (msgq_at st q) < maxmsgs (msgq_at st q))) as [Hr|Hr].
    + unfold mq_send. rewrite (verifysend_ok _ _ _ _ _ _ Hs). cbn [negb].
      destruct (lock_call irq st L idle C _ Hi Hlk) as (s & -> & Hi1 & Ht & Hsl & Hlk1); [lia|]. cbn [mbind option_bind].
      change (mqdes_at (with_sch s st) d) with (mqdes_at st d). fold q.
      change (msgq_at (with_sch s st) q) with (msgq_at st q).
      replace (irq || _) with true by (destruct Hr as [->|?%Z.ltb_lt]; [done|by destruct irq]).
      pose proof Hs as (_ & Hq0 & Hp & _ & Hle & Hmx). unfold MQ_PRIO_MAX in Hp.
      eapply mq_send_rest_keeps; [exact Hi1|done|done|done|done|done|lia|cbn; lia].
    + destruct irq; [tauto|].
      destruct (mq_send_noroom sig_mqnotempty dyn d m len p st L idle C Hi Hs) as (r & st' & L' & E & Hc);
        [fold q; lia|by apply Hid|by eapply few_waiting|lia|].
      exists r, st', L', C. split; [exact E|]. destruct (_ =? 0); apply Hc.
  - unfold mq_send. rewrite Ee. cbn [negb]. exists MqERROR. eexists _, L, C. split; [done|].
    destruct Hi as [Hw Hm]. split; [by apply wait_inv_errno|]. eapply msg_inv_ext; [apply same_messages_errno|done].
Qed.

Lemma mq_send_resume_keeps dyn d msg len p st L idle C :
  mq_inv st L idle C → mq_legal idle (OpSendResume dyn d msg len p) st →
  keeps idle (mq_send_resume sig_mqnotempty dyn d msg len p st).
Proof.
  intros Hi ((Hid & Hlk & Hsz) & Hmem & Hl & Hs). pose proof Hs as (_ & Hq0 & Hp & _ & Hle & Hmx).
  unfold mq_send_resume, mq_waitsend_resume. case_test; cbn [mbind option_bind].
  { by eapply unlock_keeps. }
  destruct (decide (maxmsgs (msgq_at st (d_msgq (mqdes_at st d))) ≤ nmsgs (msgq_at st (d_msgq (mqdes_at st d))))) as [Hf|Hf].
  - destruct (mq_waitsend_loop_full _ st L idle C Hi Hq0 Hf) as (st' & L' & -> & Hw); [by apply Hid|by eapply few_waiting|].
    exists MqBlocked, st', L', C. split; [done|apply Hw].
  - unfold mq_waitsend_loop. rewrite (proj2 (Z.leb_gt _ _)) by lia. cbn [mbind option_bind mq_send_waited].
    unfold MQ_PRIO_MAX in Hp. eapply mq_send_rest_keeps; [exact Hi|done|done|done|done|done|lia|lia].
Qed.

Lemma mq_waitreceive_keeps d q st L idle C :
  mq_inv st L idle C → d_msgq (mqdes_at st d) = q → q ≠ 0 → this_task (mq_sch st) ≠ idle →
  Z.of_nat (length (L g_waitingformqnotempty)) < ZMAX_WAITERS → nmsgs (msgq_at st q) ≤ MAX_MSGS →
  keeps idle (r ← mq_waitreceive d st; mq_receive_waited d r).
Proof.
  intros Hi Hq Hq0 Hid Hsz Hl. pose proof Hi as [_ Hm]. rewrite (mi_count _ _ Hm) in Hl.
  destruct (C (LQ q)) as [|x r] eqn:E.
  - pose proof (mq_receive_none d q st L idle C Hi Hq Hq0 E) as Hr. destruct (_ =? 0).
    + destruct (Hr Hid Hsz) as (st' & L' & -> & Hw).
      exists RcvBlocked, st', L', C. split; [done|apply Hw].
    + destruct Hr as (st' & L' & -> & Hf). exists RcvERROR, st', L', C. split; [done|apply Hf].
  - pose proof (mq_receive_some d q x r st L idle C Hi Hq Hq0 E) as Hr. rewrite E in Hr.
    destruct (mail _ x) as [[p len] data]. destruct Hr as (st' & L' & C' & -> & Hr & _); [done|].
    eexists _, st', L', C'. split; [done|apply Hr].
Qed.

Lemma mq_receive_keeps d buffer msglen st L idle C :
  mq_inv st L idle C → mq_legal idle (OpReceive d buffer msglen) st → keeps idle (mq_receive d buffer msglen st).
Proof.
  intros Hi ((Hid & Hlk & Hsz) & Hl & Hd).
  assert (Herr : ∀ e, keeps idle (Some (RcvERROR, mq_set_errno false e st))).
  { intros e. eexists _, _, L, C. split; [done|]. destruct Hi as [Hw Hm]. split; [by apply wait_inv_errno|].
    eapply msg_inv_ext; [apply same_messages_errno|done]. }
  unfold mq_receive, mq_verifyreceive. case_test; [apply Herr|].
  case_test; [apply Herr|]. case_test; [apply Herr|]. cbn [negb].
  destruct (lock_call false st L idle C _ Hi Hlk) as (s & -> & Hi1 & Ht & Hsl & Hlk1); [lia|]. cbn [mbind option_bind].
  apply orb_false_iff in Heqb as [_ Hd0]. zb.
  eapply mq_waitreceive_keeps; [exact Hi1|done|by apply Hd|cbn; rewrite Ht; by apply Hid|by eapply (few_waiting st)|done].
Qed.

Lemma mq_receive_resume_keeps d st L idle C :
  mq_inv st L idle C → mq_legal idle (OpReceiveResume d) st → keeps idle (mq_receive_resume d st).
Proof.
  intros Hi ((Hid & Hlk & Hsz) & Hl & Hq). unfold mq_receive_resume, mq_waitreceive_resume. case_test.
  - cbn [mbind option_bind mq_receive_waited negb Z.eqb]. destruct Hi as [Hw Hm].
    destruct (wait_unlock _ _ _ false Hw) as (s & L' & -> & Hw' & _).
    eexists _, _, L', C. split; [done|]. split; [done|]. eapply msg_inv_ext; [apply same_messages_sch|done].
  - eapply mq_waitreceive_keeps; [exact Hi|done|done|by apply Hid|by eapply few_waiting|done].
Qed.

Lemma keeps_snd {A} idle (r : option (A * mqst)) :
  keeps idle r → ∃ st' L' C', snd <$> r = Some st' ∧ mq_inv st' L' idle C'.
Proof. intros (a & st' & L' & C' & -> & Hi). by exists st', L', C'. Qed.

Lemma mq_exec_inv op st L idle C :
  mq_inv st L idle C → mq_legal idle op st → ∃ st' L' C', mq_exec op st = Some st' ∧ mq_inv st' L' idle C'.
Proof.
  intros Hi Hl. destruct op; cbn [mq_exec].
  - eapply keeps_snd, mq_send_keeps; done.
  - eapply keeps_snd, mq_send_resume_keeps; done.
  - eapply keeps_snd, mq_receive_keeps; done.
  - eapply keeps_snd, mq_receive_resume_keeps; done.
  - destruct (mq_waitirq_spec tcb errcode st L idle C Hi) as (st' & L' & ? & ? & _). by exists st', L', C.
  - destruct (mq_msgqfree_spec q st L idle C Hi) as (st' & ? & ? & _); [by intros []; apply Hl|].
    by eexists st', L, _.
  - destruct (lock_call false st L idle C _ Hi Hl) as (s & -> & Hi' & _); [lia|]. by eexists _, L, C.
  - destruct Hi as [Hw Hm]. destruct (wait_unlock _ _ _ false Hw) as (s & L' & -> & Hw' & _).
    eexists _, L', C. split; [done|]. split; [done|]. eapply msg_inv_ext; [apply same_messages_sch|done].
Qed.

Definition mq_step (idle : Z) st st' : Prop := ∃ op, mq_legal idle op st ∧ mq_exec op st = Some st'.

(** C3. In every state reachable by legal sends and receives of tasks and interrupt handlers, their
    continuation after a wait, cancelled waits, freed queues and pre-emption locks, the queues and
    the pools of messages are disjoint intact lists, every queue is in priority order and counts its
    messages and its waiting tasks, the scheduler's invariant holds, and every legal call returns
    without failing an assertion. *)
Theorem mq_reachable_safe st L idle C st' :
  mq_inv st L idle C → rtc (mq_step idle) st st' →
  (∃ L' C', mq_inv st' L' idle C') ∧ (∀ op, mq_legal idle op st' → is_Some (mq_exec op st')).
Proof.
  intros Hi Hs. revert L C Hi.
  induction Hs as [st|st st1 st' (op & Hl & E) _ IH]; intros L C Hi.
  - split; [by exists L, C|]. intros op Hl. destruct (mq_exec_inv op st L idle C Hi Hl) as (st' & _ & _ & -> & _). eauto.
  - destruct (mq_exec_inv op st L idle C Hi Hl) as (st2 & L2 & C2 & E2 & Hi2). simplify_eq. by eapply IH.
Qed.
End Safe.
