(* ===== verification/MqInit.v ===== *)
(** [mq_initialize]: the two pools are lists of distinct messages, and a system
    without queued messages and waiting tasks satisfies the invariant. *)

From stdpp Require Import base numbers functions gmap sorting list.
From S2P Require Import Prelude Queue Memory Sched SchedInv SchedThms SchedFields Sem SemThms.
From S2P Require Import Mqueue MqInv MqOps MqWait MqSpec.
From S2P Require Import SchedSpec.

(** The addresses of the messages of a block. *)
Fixpoint block_msgs (n : nat) (p : Z) : list Z :=
  match n with O => [] | S n => p :: block_msgs n (p + sizeof_mqmsg_t) end.

Lemma elem_of_block n p x : x ∈ block_msgs n p → p ≤ x < p + Z.of_nat n * sizeof_mqmsg_t.
Proof.
  revert p. induction n as [|n IH]; intros p; cbn [block_msgs]; [by intros []%not_elem_of_nil|].
  unfold sizeof_mqmsg_t in *. intros [->|Hx%IH]%elem_of_cons; lia.
Qed.

Lemma NoDup_block n p : NoDup (block_msgs n p).
Proof.
  revert p. induction n as [|n IH]; intros p; cbn [block_msgs]; [apply NoDup_nil_2|]. apply NoDup_cons_2; [|apply IH].
  intros Hp%elem_of_block. unfold sizeof_mqmsg_t in Hp. lia.
Qed.

Lemma mq_msgblock_spec n : ∀ p ty q s l,
  sq_repr s q l → 0 < p → (∀ x, x ∈ block_msgs n p → x ∉ l) →
  let '(q', s') := mq_msgblock n p ty q s in
  sq_repr s' q' (l ++ block_msgs n p) ∧
  (∀ x, x ∈ block_msgs n p → m_type (msg_at s' x) = ty ∧ is_Some (s' !! x)) ∧
  (∀ x, x ∉ block_msgs n p → mdata (msg_at s' x) = mdata (msg_at s x) ∧ (is_Some (s !! x) → is_Some (s' !! x))) ∧
  (∀ x, x ∉ block_msgs n p → x ∉ l → m_next (msg_at s' x) = m_next (msg_at s x)).
Proof.
  induction n as [|n IH]; intros p ty q s l Hr Hp Hd; cbn [mq_msgblock block_msgs].
  { rewrite app_nil_r. split_and!; [done|by intros x []%not_elem_of_nil|done..]. }
  set (s0 := on_msg p (with_mtype ty) s).
  assert (Hpl : p ∉ l) by (apply Hd; cbn [block_msgs]; in_list).
  assert (Hr0 : sq_repr s0 q l).
  { eapply sq_repr_links; [|exact Hr]. intros y Hy. simpl. unfold s0. rewrite msg_at_on. by case_decide. }
  pose proof (sq_addlast_spec s0 q l p Hr0 Hpl ltac:(lia)) as Hr1.
  pose proof (sq_addlast_flinks s0 q l p Hr0) as Hf. destruct (sq_addlast p q s0) as [q1 s1]. cbn [fst snd] in *.
  assert (Hnb : p ∉ block_msgs n (p + sizeof_mqmsg_t)).
  { intros Hx%elem_of_block. unfold sizeof_mqmsg_t in Hx. lia. }
  pose proof (IH (p + sizeof_mqmsg_t) ty q1 s1 (l ++ [p]) Hr1 ltac:(unfold sizeof_mqmsg_t; lia)) as H.
  destruct (mq_msgblock n _ ty q1 s1) as [q' s']. destruct H as (Hr' & Hb & Ho & Hn).
  { intros x Hx. rewrite elem_of_app, list_elem_of_singleton. intros [Hl| ->]; [|done].
    revert Hl. apply Hd. cbn [block_msgs]. in_list. }
  assert (Hs1 : ∀ x, x ≠ p → mdata (msg_at s1 x) = mdata (msg_at s x) ∧ (is_Some (s !! x) → is_Some (s1 !! x))).
  { intros x Hx. rewrite (flinks_mdata _ _ _ x Hf). unfold s0. rewrite msg_at_on, decide_False by done.
    split; [done|]. intros. eapply flinks_dom; [exact Hf|]. by apply on_msg_Some. }
  split_and!.
  - by rewrite <-app_assoc in Hr'.
  - intros x [->|Hx]%elem_of_cons; [|by apply Hb]. destruct (Ho p Hnb) as [Hop Hod]. split.
    + rewrite (mdata_field m_type (msg_at s1 p) _ (λ _, eq_refl) Hop).
      rewrite (mdata_field m_type (msg_at s0 p) _ (λ _, eq_refl) (flinks_mdata _ _ _ p Hf)).
      unfold s0. by rewrite msg_at_on, decide_True.
    + apply Hod. eapply flinks_dom; [exact Hf|]. apply on_msg_Some_self.
  - intros x [Hxp Hx]%not_elem_of_cons. destruct (Ho x Hx) as [-> ?], (Hs1 x Hxp) as [-> ?]. auto.
  - intros x [Hxp Hx]%not_elem_of_cons Hxl. rewrite Hn; [|done|rewrite elem_of_app, list_elem_of_singleton; tauto].
    change (flink s1 x = flink s x). rewrite (flinks_frame _ _ _ x Hf) by in_list.
    simpl. unfold s0. by rewrite msg_at_on, decide_False.
Qed.

(** Nothing is queued and nobody waits. *)
Definition quiet (m : msgq_t) : Prop :=
  msglist m = sq_init ∧ nmsgs m = 0 ∧ nwaitnotempty m = 0 ∧ nwaitnotfull m = 0 ∧ ntmqdes m = 0.

Definition pools (block blockirq : Z) : mloc → list Z := λ l,
  match l with
  | LQ _ => []
  | LFree => block_msgs CONFIG_PREALLOC_MQ_MSGS block
  | LIrq => block_msgs NUM_INTERRUPT_MSGS blockirq
  end.

Lemma sq_repr_nil (s : msgs) : sq_repr s sq_init [].
Proof. split_and!; [done|apply NoDup_nil_2|apply not_elem_of_nil|done..]. Qed.

Lemma mq_initialize_msgs block blockirq st :
  0 < block → 0 < blockirq →
  (∀ x, x ∈ pools block blockirq LFree → x ∉ pools block blockirq LIrq) →
  (∀ q, quiet (msgq_at st q)) →
  msg_inv (mq_initialize block blockirq st) (pools block blockirq).
Proof.
  intros Hb Hi Hd Hq. unfold mq_initialize, mq_msgblockalloc.
  rewrite (proj2 (Z.eqb_neq block 0)), (proj2 (Z.eqb_neq blockirq 0)) by lia. cbn [negb].
  cbn [with_msgfree with_msgfreeirq fst snd g_msgfree g_msgfreeirq mq_msgs].
  pose proof (mq_msgblock_spec CONFIG_PREALLOC_MQ_MSGS block MQ_ALLOC_FIXED sq_init (mq_msgs st) []
    (sq_repr_nil _) Hb (λ _ _, not_elem_of_nil _)) as H1.
  destruct (mq_msgblock CONFIG_PREALLOC_MQ_MSGS _ _ _ _) as [q1 s1].
  destruct H1 as (Hr1 & Ht1 & _). cbn [fst snd app] in *.
  pose proof (mq_msgblock_spec NUM_INTERRUPT_MSGS blockirq MQ_ALLOC_IRQ sq_init s1 []
    (sq_repr_nil _) Hi (λ _ _, not_elem_of_nil _)) as H2.
  destruct (mq_msgblock NUM_INTERRUPT_MSGS _ _ _ _) as [q2 s2].
  destruct H2 as (Hr2 & Ht2 & Ho2 & Hn2). cbn [fst snd app] in *.
  assert (Hfree : ∀ x, x ∈ block_msgs CONFIG_PREALLOC_MQ_MSGS block →
    mdata (msg_at s2 x) = mdata (msg_at s1 x) ∧ is_Some (s2 !! x) ∧ m_next (msg_at s2 x) = m_next (msg_at s1 x)).
  { intros x Hx. destruct (Ho2 x (Hd x Hx)) as [? Hs]. split_and!; [done|by apply Hs, Ht1|].
    apply Hn2; [by apply Hd|apply not_elem_of_nil]. }
  split; [split|..]; cbn [mq_msgs].
  - intros [q| |]; cbn [mqueue_of pools g_msgfree g_msgfreeirq].
    + destruct (Hq q) as (Hl & _). change (msgq_at _ q) with (msgq_at st q). rewrite Hl. apply sq_repr_nil.
    + eapply sq_repr_links; [|exact Hr1]. intros y Hy. by apply Hfree.
    + done.
  - intros [q| |] [q'| |] x; cbn [pools]; try (by intros []%not_elem_of_nil); try (by intros _ []%not_elem_of_nil);
      intros Hx Hx'; try done; exfalso; [by apply (Hd x)|by apply (Hd x)].
  - intros [q| |] x; cbn [pools]; [by intros []%not_elem_of_nil| |]; intros Hx; [by apply Hfree|by apply Ht2].
  - intros q. constructor.
  - intros q. change (msgq_at _ q) with (msgq_at st q). by destruct (Hq q) as (_ & -> & _).
  - intros x Hx. rewrite (mdata_field m_type (msg_at s1 x) _ (λ _, eq_refl)); [by apply Ht1|by apply Hfree].
  - intros x Hx. by apply Ht2.
  - intros q. apply Hq.
Qed.

Lemma mq_initialize_waits block blockirq st L idle :
  sched_inv (mq_sch st) L idle → (∀ w, L (wl w) = []) → (∀ x, msgwaitq (get (mq_sch st) x) = 0) →
  (∀ q, quiet (msgq_at st q)) → wait_inv (mq_initialize block blockirq st) L idle.
Proof.
  intros Hs HL Hw Hq.
  assert (Hn : ∀ w q, nwait w (msgq_at st q) = 0) by (intros [] q; apply (Hq q)).
  split.
  - done.
  - intros w q _. change (msgq_at _ q) with (msgq_at st q). rewrite Hn. unfold mwaiting. by rewrite HL.
  - intros w q. change (msgq_at _ q) with (msgq_at st q). by rewrite Hn.
  - intros x. change (get (mq_sch _) x) with (get (mq_sch st) x). rewrite Hw. split; [done|].
    intros [w Hx]. rewrite HL in Hx. by apply not_elem_of_nil in Hx.
Qed.
