(* ===== verification/MqCorrect.v ===== *)
(** What the calls on message queues promise, and a concrete system on which the
    hypotheses hold. *)

From stdpp Require Import base numbers functions gmap sorting list.
From S2P Require Import Prelude Queue Memory Sched SchedInv SchedThms SchedFields Sem SemThms.
From S2P Require Import Mqueue MqInv MqOps MqWait MqSpec MqThms MqSafe MqInit.
From S2P Require Import SchedSpec.

Section Correct.
Variable sig_mqnotempty : Z → Z → Z → mqst → mqst.
Implicit Types (st : mqst) (C : mloc → list Z) (L : tasklist → list Z).

(** C8. mq_send with valid arguments (messages of at most 255 bytes, fewer than 32767 in the queue,
    the lock count of the scheduler below its maximum) to a queue with room, or from an interrupt
    handler, returns. An interrupt handler that finds both pools of messages empty gets ERROR, and
    nothing has changed. In every other case (a task may allocate a message when the pool is empty,
    and is given the memory) it returns OK and has put the message, with its priority, length and
    bytes, behind the queued messages of the same or a higher priority; it has taken one message
    from the pool or memory, left the other queues alone, and made ready the task of the highest
    priority that waits for the queue not to be empty. No notification is registered with mq_notify. *)
Theorem mq_send_correct irq dyn d msg len p st L idle C :
  mq_inv st L idle C → sendable d len p st →
  let q := d_msgq (mqdes_at st d) in
  irq = true ∨ nmsgs (msgq_at st q) < maxmsgs (msgq_at st q) →
  (irq = false → C LFree = [] → dyn ≠ 0 ∧ mfresh C dyn) → Z.of_nat (length (C (LQ q))) < MAX_MSGS →
  locks (tcbs (mq_sch st)) (this_task (mq_sch st)) < MAX_LOCK_COUNT - 1 →
  ∃ r st' L' C', mq_send sig_mqnotempty irq dyn d (Some msg) len p st = Some (r, st') ∧ mq_inv st' L' idle C' ∧
    if irq && bool_decide (C LFree = []) && bool_decide (C LIrq = [])
    then r = MqERROR ∧ L' = L ∧ C' = C ∧ mq_sch st' = mq_sch st ∧ (∀ q', contents st' C' q' = contents st C q')
    else r = MqOK ∧
      contents st' C' q = qinsert (p, len, take (Z.to_nat len) msg) (contents st C q) ∧
      (∀ q', q' ≠ q → contents st' C' q' = contents st C q') ∧
      (∀ l, l ≠ LQ q → C' l = malloced irq C l) ∧
      match mwaiting (tcbs (mq_sch st)) L NotEmpty q with
      | [] => L' g_waitingformqnotempty = L g_waitingformqnotempty
      | x :: r => (x ∈ L' g_readytorun ∨ x ∈ L' g_pendingtasks) ∧
          L' g_waitingformqnotempty = remove_first x (L g_waitingformqnotempty) ∧
          (∀ y, y ∈ r → prio (tcbs (mq_sch st)) y ≤ prio (tcbs (mq_sch st)) x)
      end.
Proof.
  intros Hi Hs q Hr Hdyn Hl Hlk. destruct (irq && _ && _) eqn:Ed.
  { apply andb_true_iff in Ed as [[-> E1%bool_decide_eq_true]%andb_true_iff E2%bool_decide_eq_true].
    unfold mq_send. rewrite (verifysend_ok _ _ _ _ _ _ Hs). cbn [negb].
    unfold sched_lock. rewrite andb_false_r. cbn [mbind option_bind orb default].
    destruct (mq_send_rest_dry sig_mqnotempty dyn d msg len p (with_sch (mq_sch st) st) L idle C)
      as (st' & E & Hi' & Hsc & Hc); [by destruct st|done|done|].
    exists MqERROR, st', L, C. split; [exact E|]. split_and!; [exact Hi'|done..|by destruct st]. }
  assert (Ha : mavail irq dyn C).
  { unfold mavail. destruct (C LFree) as [|x k]; [right|by left]. destruct irq; [|by apply Hdyn].
    intros E. by rewrite E in Ed. }
  destruct (mq_send_room sig_mqnotempty irq dyn d msg len p st L idle C Hi Hs Hr Ha Hl Hlk)
    as (st' & L' & C' & E & [Hi' Hc Ho Hk _ _] & Hp). fold q in Hc, Ho, Hk, Hp.
  exists MqOK, st', L', C'. split_and!; [done..|]. unfold woken in Hk.
  destruct (mwaiting (tcbs (mq_sch st)) L NotEmpty q) as [|x r] eqn:Ew; [exact (Hk NotEmpty)|].
  destruct Hk as [Hx Hk]. split_and!; [done|exact (Hk NotEmpty)|]. intros y. by eapply mwaiting_first; [apply Hi|].
Qed.

(** mq_send to a full queue leaves the queues unchanged: without O_NONBLOCK the caller blocks
    among the tasks that wait for room in that queue, by priority; with O_NONBLOCK it returns ERROR
    with EAGAIN. *)
Theorem mq_send_full dyn d msg len p st L idle C :
  mq_inv st L idle C → sendable d len p st →
  let q := d_msgq (mqdes_at st d) in
  maxmsgs (msgq_at st q) ≤ nmsgs (msgq_at st q) → this_task (mq_sch st) ≠ idle →
  Z.of_nat (length (L g_waitingformqnotfull)) < ZMAX_WAITERS →
  locks (tcbs (mq_sch st)) (this_task (mq_sch st)) < MAX_LOCK_COUNT →
  let me := this_task (mq_sch st) in
  ∃ r st' L', mq_send sig_mqnotempty false dyn d (Some msg) len p st = Some (r, st') ∧
    mq_inv st' L' idle C ∧ (∀ q', contents st' C q' = contents st C q') ∧
    if Z.land (oflags (mqdes_at st d)) O_NONBLOCK =? 0
    then r = MqBlocked ∧ L' g_waitingformqnotfull = pinsert (prio (tcbs (mq_sch st))) me (L g_waitingformqnotfull) ∧
         msgwaitq (get (mq_sch st') me) = q
    else r = MqERROR ∧ conserved L L' ∧ pterrno (get (mq_sch st') me) = EAGAIN.
Proof.
  intros Hi Hs q Hf Hid Hl Hlk me.
  destruct (mq_send_noroom sig_mqnotempty dyn d msg len p st L idle C Hi Hs Hf Hid Hl Hlk) as (r & st' & L' & E & Hc).
  exists r, st', L'. split; [done|]. fold q in Hc.
  destruct (_ =? 0); destruct Hc as [-> [H1 H2 H3 H4 H5]]; split_and!; try done. exact (H3 NotFull).
Qed.

(** C9. mq_receive on a queue that is not empty returns the length, bytes and priority of its first
    message, which has the highest priority of all, removes exactly that message, leaves the other
    queues alone, and makes ready the task of the highest priority that waits for the queue not to
    be full. *)
Theorem mq_receive_correct d msglen m ms st L idle C :
  mq_inv st L idle C → receivable d msglen st →
  let q := d_msgq (mqdes_at st d) in
  contents st C q = m :: ms → Z.of_nat (length (C (LQ q))) ≤ MAX_MSGS →
  locks (tcbs (mq_sch st)) (this_task (mq_sch st)) < MAX_LOCK_COUNT →
  let '(p, len, data) := m in
  ∃ st' L' C', mq_receive d true msglen st = Some (RcvData len data p, st') ∧ mq_inv st' L' idle C' ∧
    contents st' C' q = ms ∧ (∀ q', q' ≠ q → contents st' C' q' = contents st C q') ∧
    (∀ m', m' ∈ ms → m'.1.1 ≤ p) ∧
    match mwaiting (tcbs (mq_sch st)) L NotFull q with
    | [] => L' g_waitingformqnotfull = L g_waitingformqnotfull
    | x :: r => (x ∈ L' g_readytorun ∨ x ∈ L' g_pendingtasks) ∧
        L' g_waitingformqnotfull = remove_first x (L g_waitingformqnotfull) ∧
        (∀ y, y ∈ r → prio (tcbs (mq_sch st)) y ≤ prio (tcbs (mq_sch st)) x)
    end.
Proof.
  intros Hi Hs q Hc Hl Hlk. unfold contents in Hc. destruct (C (LQ q)) as [|x k] eqn:E; [done|].
  rewrite fmap_cons in Hc. injection Hc as Hm Hms. pose proof (mi_sorted _ _ (proj2 Hi) q) as Ho. rewrite E in Ho.
  pose proof (mq_receive_head d msglen x k st L idle C Hi Hs E) as Hr. fold q in Hr. rewrite E, Hm in Hr.
  destruct m as [[p len] data]. destruct Hr as (st' & L' & C' & Er & [Hi' Hc Hoth Hk _ _] & _); [done|done|].
  exists st', L', C'. fold q in Hc, Hoth, Hk. split_and!; [done|done| |done| |].
  - unfold contents in Hc at 1. rewrite E, fmap_cons, Hms in Hc. by injection Hc.
  - intros m' Hm'. rewrite <-Hms in Hm'. apply list_elem_of_fmap in Hm' as (y & -> & Hy).
    apply StronglySorted_inv in Ho as [_ Hf]. rewrite Forall_forall in Hf. specialize (Hf y Hy).
    unfold pdesc, mprio in Hf. by replace p with (m_priority (msg_at (mq_msgs st) x)) by (by injection Hm).
  - unfold woken in Hk. destruct (mwaiting (tcbs (mq_sch st)) L NotFull q) as [|z r] eqn:Ew; [exact (Hk NotFull)|].
    destruct Hk as [Hx Hk]. split_and!; [done|exact (Hk NotFull)|]. intros y. by eapply mwaiting_first; [apply Hi|].
Qed.

(** mq_receive on an empty queue leaves the queues unchanged: without O_NONBLOCK the caller
    blocks among the tasks that wait for a message in that queue, by priority; with O_NONBLOCK it
    returns ERROR with EAGAIN. *)
Theorem mq_receive_empty d msglen st L idle C :
  mq_inv st L idle C → receivable d msglen st →
  let q := d_msgq (mqdes_at st d) in
  contents st C q = [] → this_task (mq_sch st) ≠ idle →
  Z.of_nat (length (L g_waitingformqnotempty)) < ZMAX_WAITERS →
  locks (tcbs (mq_sch st)) (this_task (mq_sch st)) < MAX_LOCK_COUNT →
  let me := this_task (mq_sch st) in
  ∃ r st' L', mq_receive d true msglen st = Some (r, st') ∧
    mq_inv st' L' idle C ∧ (∀ q', contents st' C q' = contents st C q') ∧
    if Z.land (oflags (mqdes_at st d)) O_NONBLOCK =? 0
    then r = RcvBlocked ∧
         L' g_waitingformqnotempty = pinsert (prio (tcbs (mq_sch st))) me (L g_waitingformqnotempty) ∧
         msgwaitq (get (mq_sch st') me) = q
    else r = RcvERROR ∧ conserved L L' ∧ pterrno (get (mq_sch st') me) = EAGAIN.
Proof.
  intros Hi Hs q Hc Hid Hl Hlk me. apply fmap_nil_inv in Hc.
  destruct (mq_receive_nothing d msglen st L idle C Hi Hs Hc Hid Hl Hlk) as (r & st' & L' & E & Hw).
  exists r, st', L'. split; [done|]. fold q in Hw.
  destruct (_ =? 0); destruct Hw as [-> [H1 H2 H3 H4 H5]]; split_and!; try done. exact (H3 NotEmpty).
Qed.

(** A message sent to an empty queue is what the next mq_receive returns, with the same bytes,
    length and priority, and the contents of all queues are then the same as before. *)
Theorem mq_send_receive irq dyn d d' msg len p n st L idle C st' :
  mq_inv st L idle C → sendable d len p st → receivable d' n st →
  d_msgq (mqdes_at st d') = d_msgq (mqdes_at st d) → contents st C (d_msgq (mqdes_at st d)) = [] →
  irq = true ∨ 0 < maxmsgs (msgq_at st (d_msgq (mqdes_at st d))) → mavail irq dyn C →
  locks (tcbs (mq_sch st)) (this_task (mq_sch st)) < MAX_LOCK_COUNT - 1 →
  mq_send sig_mqnotempty irq dyn d (Some msg) len p st = Some (MqOK, st') →
  locks (tcbs (mq_sch st')) (this_task (mq_sch st')) < MAX_LOCK_COUNT →
  ∃ st'' L'' C'', mq_receive d' true n st' = Some (RcvData len (take (Z.to_nat len) msg) p, st'') ∧
    mq_inv st'' L'' idle C'' ∧ ∀ q, contents st'' C'' q = contents st C q.
Proof.
  intros Hi Hs Hr Hd Hc Hm Ha Hlk E Hlk'. pose proof (fmap_nil_inv _ _ Hc) as Hnil.
  set (q := d_msgq (mqdes_at st d)) in *.
  destruct (mq_send_room sig_mqnotempty irq dyn d msg len p st L idle C Hi Hs) as (st1 & L1 & C1 & E1 & Hse & _);
    [|done|fold q; by rewrite Hnil|done|].
  { fold q. rewrite (mi_count _ _ (proj2 Hi)), Hnil. exact Hm. }
  rewrite E in E1. injection E1 as <-. destruct Hse as [Hi1 Hc1 Ho1 _ _ Hcf]. fold q in Hc1, Ho1.
  rewrite Hc in Hc1. cbn [qinsert] in Hc1. unfold contents in Hc1.
  destruct (C1 (LQ q)) as [|x [|]] eqn:Eq; [done| |done].
  assert (Hx : mail (mq_msgs st') x = (p, len, take (Z.to_nat len) msg)) by exact (Some_inj _ _ (f_equal head Hc1)).
  assert (Hr1 : receivable d' n st').
  { unfold receivable in *. rewrite (config_des _ _ _ Hcf). destruct Hcf as [_ Hq]. by destruct (Hq (d_msgq (mqdes_at st d'))) as [_ ->]. }
  assert (Hd1 : d_msgq (mqdes_at st' d') = q) by (by rewrite (config_des _ _ _ Hcf)).
  pose proof (mq_receive_head d' n x [] st' L1 idle C1 Hi1 Hr1) as Hre. cbv zeta in Hre. rewrite Hd1, Eq, Hx in Hre.
  destruct Hre as (st2 & L2 & C2 & E2 & [Hi2 Hc2 Ho2 _ _ _] & _); [done|done|done|].
  exists st2, L2, C2. split_and!; [done|done|]. intros q'. destruct (decide (q' = q)) as [->|Hne].
  - unfold contents in Hc2 at 1. rewrite Eq in Hc2. rewrite Hc. symmetry. exact (f_equal tail Hc2).
  - by rewrite Ho2, Ho1.
Qed.

(** Freeing a queue that nobody waits for terminates, returns each of its messages to the pool
    it came from in order, frees the memory of the others, and leaves the other queues unchanged. *)
Theorem mq_msgqfree_correct q st L idle C :
  mq_inv st L idle C → nwaitnotempty (msgq_at st q) = 0 → nwaitnotfull (msgq_at st q) = 0 →
  ∃ st' C', mq_msgqfree q st = Some st' ∧ mq_inv st' L idle C' ∧ C' (LQ q) = [] ∧
    (∀ q', q' ≠ q → contents st' C' q' = contents st C q') ∧
    C' LFree = C LFree ++ filter (λ x, m_type (msg_at (mq_msgs st) x) = MQ_ALLOC_FIXED) (C (LQ q)) ∧
    C' LIrq = C LIrq ++ filter (λ x, m_type (msg_at (mq_msgs st) x) = MQ_ALLOC_IRQ) (C (LQ q)).
Proof.
  intros Hi H1 H2. destruct (mq_msgqfree_spec q st L idle C Hi) as (st' & E & Hi' & Ho & _); [by intros []|].
  eexists st', _. split_and!; [done|exact Hi'| |done|..];
    destruct (freeall_lists (mq_msgs st) (C (LQ q)) (<[LQ q := []]> C)) as (Ha & Hb & Hc).
  - by rewrite Ha, mfn_insert_eq.
  - by rewrite Hb.
  - by rewrite Hc.
Qed.

(** Interrupting a task that waits for a message or for room takes it off its wait list, makes
    it ready or pending, sets its errno, and keeps the queue's count of waiting tasks right. *)
Theorem mq_waitirq_cancels w x e st L idle C :
  mq_inv st L idle C → x ∈ L (wl w) →
  ∃ st' L', mq_waitirq x e st = Some st' ∧ mq_inv st' L' idle C ∧ (∀ q, contents st' C q = contents st C q) ∧
    L' (wl w) = remove_first x (L (wl w)) ∧ (x ∈ L' g_readytorun ∨ x ∈ L' g_pendingtasks) ∧
    pterrno (get (mq_sch st') x) = e ∧ msgwaitq (get (mq_sch st') x) = 0.
Proof.
  intros Hi Hx. destruct (mq_waitirq_waiting w x e st L idle C Hi Hx) as (st' & L' & E & Hi' & Hs & Hc).
  exists st', L'. split_and!; [done|done|intros q; by apply contents_same|apply Hc..].
Qed.

(** From a system without queued messages and waiting tasks mq_initialize establishes the
      invariant of the message queues, with a pool of the preallocated messages and one for interrupt
      handlers. *)
Theorem mq_initialize_correct block blockirq st L idle :
  sched_inv (mq_sch st) L idle → L g_waitingformqnotempty = [] → L g_waitingformqnotfull = [] →
  (∀ x, msgwaitq (get (mq_sch st) x) = 0) → (∀ q, quiet (msgq_at st q)) →
  0 < block → 0 < blockirq →
  block + Z.of_nat CONFIG_PREALLOC_MQ_MSGS * sizeof_mqmsg_t ≤ blockirq ∨
  blockirq + Z.of_nat NUM_INTERRUPT_MSGS * sizeof_mqmsg_t ≤ block →
  mq_inv (mq_initialize block blockirq st) L idle (pools block blockirq).
Proof.
  intros Hs He Hf Hw Hq Hb Hi Hd. split.
  - apply mq_initialize_waits; [done|by intros []|done|done].
  - apply mq_initialize_msgs; [done|done| |done]. cbn [pools].
    intros x Hx%elem_of_block Hx'%elem_of_block. unfold sizeof_mqmsg_t in *. lia.
Qed.

(** mq_send and mq_receive refuse, in this order, missing buffers, descriptors and priorities
      out of range with EINVAL, descriptors without the access right with EPERM, and messages or
      buffers of the wrong size with EMSGSIZE, and change nothing but the errno of the task or of the
      interrupt handler. *)
Theorem mq_call_errors irq dyn d msg len p buffer n st :
  let q := d_msgq (mqdes_at st d) in
  let send := mq_send sig_mqnotempty irq dyn d msg len p st in
  let receive := mq_receive d buffer n st in
  (if negb (bool_decide (is_Some msg)) || (d =? 0) || (p <? 0) || (MQ_PRIO_MAX <? p)
   then send = Some (MqERROR, mq_set_errno irq EINVAL st)
   else if Z.land (oflags (mqdes_at st d)) O_WROK =? 0 then send = Some (MqERROR, mq_set_errno irq EPERM st)
   else if maxmsgsize (msgq_at st q) <? len then send = Some (MqERROR, mq_set_errno irq EMSGSIZE st)
   else True) ∧
  (if negb buffer || (d =? 0) then receive = Some (RcvERROR, mq_set_errno false EINVAL st)
   else if Z.land (oflags (mqdes_at st d)) O_RDOK =? 0 then receive = Some (RcvERROR, mq_set_errno false EPERM st)
   else if n <? maxmsgsize (msgq_at st q) then receive = Some (RcvERROR, mq_set_errno false EMSGSIZE st)
   else True).
Proof.
  intros q send receive. unfold send, receive, mq_send, mq_receive, mq_verifysend, mq_verifyreceive. fold q. split.
  - destruct (_ || _); [done|]. destruct (_ =? 0); [done|]. by destruct (_ <? len).
  - destruct (negb buffer || _); [done|]. destruct (_ =? 0); [done|]. by destruct (n <? _).
Qed.
End Correct.

(** A concrete system with a message queue for one message: the hypotheses of the
    theorems on message queues hold, and the calls can be evaluated. *)

Definition nosig : Z → Z → Z → mqst → mqst := λ _ _ _ st, st.

(** A queue at 0x70, opened at 0x80 to read and write, and at 0x84 without
    waiting. *)
Definition mqboot : mqst :=
  mk_mqst sched0 ∅ {[ 0x70 := mk_msgq sq_init 1 0 0 0 32 0 0 0 0 ]}
    {[ 0x80 := mk_mqdes 0x70 0x03; 0x84 := mk_mqdes 0x70 0x43 ]} sq_init sq_init 0.
Definition mq0 : mqst := mq_initialize 0x10000 0x20000 mqboot.
Definition pools0 : mloc → list Z := pools 0x10000 0x20000.

Lemma mqboot_quiet q : quiet (msgq_at mqboot q).
Proof.
  unfold msgq_at, mqboot. cbn [msgqs]. destruct (decide (q = 0x70)) as [->|]; [done|].
  by rewrite lookup_singleton_ne.
Qed.

Lemma mqboot_waits x : msgwaitq (get (mq_sch mqboot) x) = 0.
Proof.
  unfold get. cbn [mq_sch mqboot]. destruct (sched0_tcb x) as [Hx|Hx]; [|by rewrite Hx].
  rewrite !elem_of_cons, elem_of_nil in Hx. by destruct Hx as [->|[->|[->|[->|[]]]]].
Qed.

Lemma mq_initialize_correct_witness : mq_inv mq0 lists0 idle0 pools0.
Proof.
  apply mq_initialize_correct; [apply sched0_inv|done|done|apply mqboot_waits|apply mqboot_quiet|done|done|].
  left. by vm_compute.
Defined.

Lemma mq0_inv : mq_inv mq0 lists0 idle0 pools0.
Proof.
  split.
  - apply mq_initialize_waits; [apply sched0_inv|by intros []|apply mqboot_waits|apply mqboot_quiet].
  - apply mq_initialize_msgs; [done|done| |apply mqboot_quiet]. cbn [pools].
    intros x Hx%elem_of_block Hx'%elem_of_block. unfold sizeof_mqmsg_t, CONFIG_PREALLOC_MQ_MSGS, NUM_INTERRUPT_MSGS in *. lia.
Qed.

Lemma mq0_sendable : sendable 0x80 3 7 mq0.
Proof. by vm_compute. Qed.

Lemma mq0_receivable d : d = 0x80 ∨ d = 0x84 → receivable d 32 mq0.
Proof. by intros [->| ->]; vm_compute. Qed.

Lemma mq0_avail : mavail false 0 pools0.
Proof. by left. Qed.

Lemma mq_send_correct_witness : ∃ st' L' C',
  mq_send nosig false 0 0x80 (Some [1; 2; 3]) 3 7 mq0 = Some (MqOK, st') ∧
  mq_inv st' L' idle0 C' ∧ contents st' C' 0x70 = [(7, 3, [1; 2; 3])].
Proof.
  destruct (mq_send_correct nosig false 0 0x80 [1; 2; 3] 3 7 mq0 lists0 idle0 pools0 mq0_inv mq0_sendable)
    as (r & st' & L' & C' & E & Hi & -> & Hc & _); [by right|by intros _|by vm_compute|by vm_compute|].
  exists st', L', C'. split_and!; [exact E|exact Hi|exact Hc].
Defined.

(** The system after this send: the queue is full. *)
Lemma mq1_ok : ∃ st L C, mq_send nosig false 0 0x80 (Some [1; 2; 3]) 3 7 mq0 = Some (MqOK, st) ∧
  mq_inv st L idle0 C ∧ contents st C 0x70 = [(7, 3, [1; 2; 3])] ∧ same_config mq0 st ∧
  L g_waitingformqnotfull = [] ∧ this_task (mq_sch st) = taskA ∧
  locks (tcbs (mq_sch st)) (this_task (mq_sch st)) = 0 ∧
  nwaitnotempty (msgq_at st 0x70) = 0 ∧ nwaitnotfull (msgq_at st 0x70) = 0 ∧ nmsgs (msgq_at st 0x70) = 1.
Proof.
  destruct (mq_send_room nosig false 0 0x80 [1; 2; 3] 3 7 mq0 lists0 idle0 pools0 mq0_inv mq0_sendable)
    as (st & L & C & E & Hs & _); [by right|exact mq0_avail|by vm_compute|by vm_compute|].
  exists st, L, C. destruct Hs as [Hi Hc _ Hk _ Hcf].
  assert (Hw : ∃ st, mq_send nosig false 0 0x80 (Some [1; 2; 3]) 3 7 mq0 = Some (MqOK, st) ∧
    this_task (mq_sch st) = taskA ∧ locks (tcbs (mq_sch st)) (this_task (mq_sch st)) = 0 ∧
    nwaitnotempty (msgq_at st 0x70) = 0 ∧ nwaitnotfull (msgq_at st 0x70) = 0 ∧ nmsgs (msgq_at st 0x70) = 1).
  { eexists. split; [vm_compute; reflexivity|]. split_and!; vm_compute; reflexivity. }
  destruct Hw as (st2 & E2 & Hw). rewrite E in E2. injection E2 as <-. destruct Hw as (H1 & H2 & H3 & H4 & H5).
  split_and!; [exact E|exact Hi|exact Hc|exact Hcf|exact (Hk NotFull)|assumption..].
Qed.

Lemma config_sendable st : same_config mq0 st → sendable 0x80 3 9 st ∧ sendable 0x84 3 9 st.
Proof.
  intros Hc. unfold sendable. rewrite !(config_des _ _ _ Hc). destruct Hc as [_ Hc].
  change (d_msgq (mqdes_at mq0 0x80)) with 0x70. change (d_msgq (mqdes_at mq0 0x84)) with 0x70.
  destruct (Hc 0x70) as [_ ->]. by vm_compute.
Qed.

Lemma mq_send_full_witness : ∃ st r st' L' C,
  nmsgs (msgq_at st 0x70) = 1 ∧ mq_send nosig false 0 0x84 (Some [4; 5; 6]) 3 9 st = Some (r, st') ∧
  r = MqERROR ∧ mq_inv st' L' idle0 C.
Proof.
  destruct mq1_ok as (st & L & C & _ & Hi & _ & Hcf & HL & Hme & Hlk & _ & _ & Hn).
  assert (Hd : mqdes_at st 0x84 = mk_mqdes 0x70 0x43) by (by rewrite (config_des _ _ _ Hcf)).
  pose proof (mq_send_full nosig 0 0x84 [4; 5; 6] 3 9 st L idle0 C Hi (proj2 (config_sendable _ Hcf))) as H.
  rewrite Hd in H. cbn [d_msgq] in H. destruct H as (r & st' & L' & E & Hi' & _ & Hr & _).
  - rewrite Hn. destruct Hcf as [_ Hcf]. by destruct (Hcf 0x70) as [-> _].
  - by rewrite Hme.
  - by rewrite HL.
  - rewrite Hlk. by vm_compute.
  - exists st, r, st', L', C. split_and!; [exact Hn|exact E|exact Hr|exact Hi'..].
Defined.

Lemma mq_receive_correct_witness : ∃ st st' L' C',
  nmsgs (msgq_at st 0x70) = 1 ∧ mq_receive 0x80 true 32 st = Some (RcvData 3 [1; 2; 3] 7, st') ∧
  mq_inv st' L' idle0 C' ∧ contents st' C' 0x70 = [].
Proof.
  destruct mq1_ok as (st & L & C & _ & Hi & Hc & Hcf & HL & Hme & Hlk & _ & _ & Hn).
  assert (Hd : mqdes_at st 0x80 = mk_mqdes 0x70 0x03) by (by rewrite (config_des _ _ _ Hcf)).
  assert (Hr : receivable 0x80 32 st).
  { unfold receivable. rewrite Hd. cbn [d_msgq oflags]. destruct (proj2 Hcf 0x70) as [_ ->]. by vm_compute. }
  pose proof (mq_receive_correct 0x80 32 (7, 3, [1; 2; 3]) [] st L idle0 C Hi Hr) as H.
  rewrite Hd in H. cbn [d_msgq] in H. destruct H as (st' & L' & C' & E & Hi' & Hc' & _).
  - exact Hc.
  - rewrite <-(mi_count _ _ (proj2 Hi) 0x70), Hn. by vm_compute.
  - rewrite Hlk. by vm_compute.
  - exists st, st', L', C'. split_and!; [exact Hn|exact E|exact Hi'|exact Hc'].
Defined.

Lemma mq_receive_empty_witness : ∃ r st' L', mq_receive 0x80 true 32 mq0 = Some (r, st') ∧
  mq_inv st' L' idle0 pools0 ∧ r = RcvBlocked ∧ L' g_waitingformqnotempty = [taskA].
Proof.
  destruct (mq_receive_empty 0x80 32 mq0 lists0 idle0 pools0 mq0_inv (mq0_receivable _ (or_introl eq_refl)))
    as (r & st' & L' & E & Hi & _ & Hr & HL & _); [done|by vm_compute|by vm_compute|by vm_compute|].
  exists r, st', L'. split_and!; [exact E|exact Hi|exact Hr|exact HL].
Defined.

Lemma mq_waitirq_cancels_witness : ∃ st st' L', mq_receive 0x80 true 32 mq0 = Some (RcvBlocked, st) ∧
  mq_waitirq taskA EAGAIN st = Some st' ∧ pterrno (get (mq_sch st') taskA) = EAGAIN ∧ mq_inv st' L' idle0 pools0.
Proof.
  destruct (mq_receive_nothing 0x80 32 mq0 lists0 idle0 pools0 mq0_inv (mq0_receivable _ (or_introl eq_refl)))
    as (r & st & L & E & [-> Hw]); [done|by vm_compute|by vm_compute|by vm_compute|].
  assert (Hx : taskA ∈ L (wl NotEmpty)).
  { rewrite (wt_slept _ _ _ _ _ _ _ _ Hw NotEmpty). rewrite decide_True by done. apply elem_of_pinsert. by left. }
  destruct (mq_waitirq_cancels NotEmpty taskA EAGAIN st L idle0 pools0 (wt_inv _ _ _ _ _ _ _ _ Hw) Hx)
    as (st' & L' & E' & Hi' & _ & _ & _ & He & _).
  exists st, st', L'. split_and!; [exact E|exact E'|exact He|exact Hi'..].
Defined.

Lemma mq_msgqfree_correct_witness : ∃ st st' L C',
  nmsgs (msgq_at st 0x70) = 1 ∧ mq_msgqfree 0x70 st = Some st' ∧ mq_inv st' L idle0 C' ∧ C' (LQ 0x70) = [].
Proof.
  destruct mq1_ok as (st & L & C & _ & Hi & _ & _ & _ & _ & _ & Hw1 & Hw2 & Hn).
  destruct (mq_msgqfree_correct 0x70 st L idle0 C Hi Hw1 Hw2) as (st' & C' & E & Hi' & HC & _).
  exists st, st', L, C'. split_and!; [exact Hn|exact E|exact Hi'|exact HC].
Defined.

Lemma mq_send_receive_witness : ∃ st1 st2,
  mq_send nosig false 0 0x80 (Some [1; 2; 3]) 3 7 mq0 = Some (MqOK, st1) ∧
  mq_receive 0x80 true 32 st1 = Some (RcvData 3 [1; 2; 3] 7, st2).
Proof.
  destruct mq1_ok as (st & _ & _ & E & _ & _ & _ & _ & _ & Hlk & _).
  destruct (mq_send_receive nosig false 0 0x80 0x80 [1; 2; 3] 3 7 32 mq0 lists0 idle0 pools0 st mq0_inv mq0_sendable
    (mq0_receivable _ (or_introl eq_refl))) as (st2 & _ & _ & E2 & _);
    [done|done|by right|exact mq0_avail|by vm_compute|exact E|rewrite Hlk; by vm_compute|].
  exists st, st2. split; [exact E|exact E2].
Defined.

Lemma mq_reachable_safe_witness : ∃ st', rtc (mq_step nosig idle0) mq0 st' ∧ ∃ L' C', mq_inv st' L' idle0 C'.
Proof.
  assert (E : ∃ st', mq_exec nosig (OpReceive 0x80 true 32) mq0 = Some st').
  { eexists. vm_compute. reflexivity. }
  destruct E as (st' & E). assert (Hs : rtc (mq_step nosig idle0) mq0 st').
  { eapply rtc_once. exists (OpReceive 0x80 true 32). split; [|exact E]. unfold mq_legal, call_legal.
    split_and!; [intros _|..|intros _]; vm_compute; congruence. }
  exists st'. split; [exact Hs|]. exact (proj1 (mq_reachable_safe nosig mq0 lists0 idle0 pools0 st' mq0_inv Hs)).
Defined.
