(* ===== verification/Inode.v ===== *)
(** The tree of inodes of the pseudo file system: fs/fs_inode.c,
    fs_inodereserve.c, fs_inoderemove.c, fs_inodefind.c, fs_inodeaddref.c,
    fs_inoderelease.c and the registration of drivers (fs_registerdriver.c,
    fs_registerblockdriver.c, fs_unregisterdriver.c, fs_unregisterblockdriver.c).

    A [struct inode] is a record at the address the allocator gave; the first
    node of a directory is its parent's [i_child], the others follow by
    [i_peer].  A C string is a string without the final NUL, a pointer into one
    is the rest of it.  Reading or writing an address that holds no inode (NULL
    or freed memory) is [None], like a failed assertion. *)

From Stdlib Require Import Ascii.
From stdpp Require Import base numbers gmap sorting list strings.
From S2P Require Import Prelude Queue Sched Sem Kmalloc.

Definition ENOENT : Z := 2.
Definition ENOMEM : Z := 12.
Definition EBUSY : Z := 16.
Definition EEXIST : Z := 17.

Definition FSNODEFLAG_TYPE_MASK : Z := 0x3.
Definition FSNODEFLAG_TYPE_DRIVER : Z := 0x0.
Definition FSNODEFLAG_TYPE_BLOCK : Z := 0x1.
Definition FSNODEFLAG_TYPE_MOUNTPT : Z := 0x2.
Definition FSNODEFLAG_DELETED : Z := 0x4.

(** [i_ops] is the union of the pointers to the operations. *)
Record inode := mk_inode {
  i_peer : Z; i_child : Z; i_crefs : Z; i_flags : Z; i_ops : Z; i_private : Z; i_name : string }.

Definition with_peer v x := mk_inode v (i_child x) (i_crefs x) (i_flags x) (i_ops x) (i_private x) (i_name x).
Definition with_child v x := mk_inode (i_peer x) v (i_crefs x) (i_flags x) (i_ops x) (i_private x) (i_name x).
Definition with_crefs v x := mk_inode (i_peer x) (i_child x) (i16 v) (i_flags x) (i_ops x) (i_private x) (i_name x).
Definition with_flags v x := mk_inode (i_peer x) (i_child x) (i_crefs x) (v mod 2 ^ 16) (i_ops x) (i_private x) (i_name x).
Definition with_ops v x := mk_inode (i_peer x) (i_child x) (i_crefs x) (i_flags x) v (i_private x) (i_name x).
Definition with_private v x := mk_inode (i_peer x) (i_child x) (i_crefs x) (i_flags x) (i_ops x) v (i_name x).

Definition INODE_IS_DRIVER x := Z.land (i_flags x) FSNODEFLAG_TYPE_MASK =? FSNODEFLAG_TYPE_DRIVER.
Definition INODE_IS_BLOCK x := Z.land (i_flags x) FSNODEFLAG_TYPE_BLOCK =? FSNODEFLAG_TYPE_BLOCK.
Definition INODE_IS_MOUNTPT x := Z.land (i_flags x) FSNODEFLAG_TYPE_MOUNTPT =? FSNODEFLAG_TYPE_MOUNTPT.
Definition INODE_SET_DRIVER x := with_flags (Z.land (i_flags x) (Z.lnot FSNODEFLAG_TYPE_MASK)) x.
Definition INODE_SET_BLOCK x :=
  with_flags (Z.lor (Z.land (i_flags x) (Z.lnot FSNODEFLAG_TYPE_MASK)) FSNODEFLAG_TYPE_BLOCK) x.
Definition INODE_SET_MOUNTPT x :=
  with_flags (Z.lor (Z.land (i_flags x) (Z.lnot FSNODEFLAG_TYPE_MASK)) FSNODEFLAG_TYPE_MOUNTPT) x.

(** [sizeof(struct inode)] on ARM is 24, with one byte of the name in it. *)
Definition FSNODE_SIZE (n : Z) : Z := 24 + n.

(** The semaphores, [root_inode], the inodes and the allocator. *)
Record fsst {A : Type} := mk_fs { fs_sem : semst; root_inode : Z; inodes : gmap Z inode; fs_heap : A }.
Arguments fsst : clear implicits.
Arguments mk_fs {A}.

(** ** Names and paths *)

Definition is_slash (c : ascii) : bool := bool_decide (c = "/"%char).

(** The [for] loop of [_inode_compare]; [char] is unsigned on ARM. *)
Fixpoint compare_loop (fname nname : string) : Z :=
  match nname with
  | EmptyString =>
      match fname with
      | EmptyString => 0
      | String f _ => if is_slash f then 0 else 1
      end
  | String n nname =>
      match fname with
      | EmptyString => -1
      | String f fname =>
          if is_slash f then -1
          else if (N_of_ascii n <? N_of_ascii f)%N then 1
          else if (N_of_ascii f <? N_of_ascii n)%N then -1
          else compare_loop fname nname
      end
  end.

(** [node->i_name] is an array in the node, so it is not null. *)
Definition _inode_compare (fname : option string) (node : inode) : Z :=
  match fname with
  | None => -1
  | Some fname => compare_loop fname (i_name node)
  end.

Fixpoint inode_nextname (name : string) : string :=
  match name with
  | EmptyString => EmptyString
  | String c name => if is_slash c then name else inode_nextname name
  end.

Fixpoint inode_namelen (name : string) : Z :=
  match name with
  | EmptyString => 0
  | String c name => if is_slash c then 0 else 1 + inode_namelen name
  end.

(** The string that [inode_namecpy] leaves at [dest]. *)
Fixpoint inode_namecpy (src : string) : string :=
  match src with
  | EmptyString => EmptyString
  | String c src => if is_slash c then EmptyString else String c (inode_namecpy src)
  end.

(** [*path + 1]: over the leading slash. *)
Definition skip_slash (path : string) : string :=
  match path with EmptyString => EmptyString | String _ name => name end.

(** [!*path || path[0] != '/'] *)
Definition not_absolute (path : string) : bool :=
  match path with EmptyString => true | String c _ => negb (is_slash c) end.

Definition at_end (name : string) : bool := match name with EmptyString => true | _ => false end.

(** What [inode_search] returns: the node, [*peer], [*parent], [*path] and, when
    a node was found, [*relpath]. *)
Record found := mk_found {
  f_node : Z; f_peer : Z; f_parent : Z; f_path : string; f_relpath : option string }.

Section Inode.
Context {A : Type} `{Kmalloc A}.
Variable tree_sem : Z.
Implicit Types st : fsst A.

Definition with_fs_sem (s : semst) st := mk_fs s (root_inode st) (inodes st) (fs_heap st).
Definition with_root v st := mk_fs (fs_sem st) v (inodes st) (fs_heap st).
Definition with_inodes m st := mk_fs (fs_sem st) (root_inode st) m (fs_heap st).
Definition with_heap (h : A) st : fsst A := mk_fs (fs_sem st) (root_inode st) (inodes st) h.

(** [node->..] and an assignment to it. *)
Definition inode_at (node : Z) st : option inode := inodes st !! node.
Definition set_inode (node : Z) (f : inode → inode) st : option (fsst A) :=
  x ← inode_at node st; Some (with_inodes (<[node := f x]> (inodes st)) st).

Definition fs_kfree (p : Z) st : option (fsst A) :=
  h ← kfree p (fs_heap st); Some (with_inodes (delete p (inodes st)) (with_heap h st)).

(** ** fs_inode.c *)

(** [while (sem_wait(sem) != 0) ASSERT(errno == EINTR)] when the semaphore is
    available.  [None] when the caller has to wait, and when the assertion fails:
    a call that does not wait only fails with EINVAL, for a null semaphore. *)
Definition sem_take (sem : Z) (s : semst) : option semst :=
  '(ret, s) ← sem_wait sem s;
  match ret with SemOK => Some s | _ => None end.
Definition sem_give (sem : Z) (s : semst) : option semst := '(_, s) ← sem_post sem s; Some s.

Definition inode_semtake st : option (fsst A) := s ← sem_take tree_sem (fs_sem st); Some (with_fs_sem s st).
Definition inode_semgive st : option (fsst A) := s ← sem_give tree_sem (fs_sem st); Some (with_fs_sem s st).

(** [fs_initialize], without [files_initialize], which is empty. *)
Definition fs_initialize st : fsst A := with_fs_sem (snd (sem_init tree_sem 1 (fs_sem st))) st.

(** The [while (node)] loop of [inode_search]. *)
Fixpoint search_loop (fuel : nat) st (name : string) (node left above : Z) : option found :=
  if node =? 0 then Some (mk_found 0 left above name None) else
  match fuel with
  | O => None
  | S fuel =>
      x ← inode_at node st;
      let result := _inode_compare (Some name) x in
      if result <? 0 then Some (mk_found 0 left above name None)
      else if 0 <? result then search_loop fuel st name (i_peer x) node above
      else
        let name := inode_nextname name in
        if at_end name || INODE_IS_MOUNTPT x then Some (mk_found node left above name (Some name))
        else search_loop fuel st name (i_child x) 0 node
  end.

Definition fs_fuel st : nat := size (inodes st).

Definition inode_search (path : string) st : option found :=
  search_loop (fs_fuel st) st (skip_slash path) (root_inode st) 0 0.

Fixpoint inode_free (fuel : nat) (node : Z) st : option (fsst A) :=
  if node =? 0 then Some st else
  match fuel with
  | O => None
  | S fuel =>
      x ← inode_at node st;
      st ← inode_free fuel (i_peer x) st;
      x ← inode_at node st;
      st ← inode_free fuel (i_child x) st;
      fs_kfree node st
  end.

(** ** fs_inodereserve.c *)

Definition inode_alloc (name : string) st : option (Z * fsst A) :=
  '(node, h) ← kzalloc (FSNODE_SIZE (inode_namelen name)) (fs_heap st);
  Some (node, if negb (node =? 0)
              then with_inodes (<[node := mk_inode 0 0 0 0 0 0 (inode_namecpy name)]> (inodes st)) (with_heap h st)
              else with_heap h st).

Definition inode_insert (node peer parent : Z) st : option (fsst A) :=
  if negb (peer =? 0) then
    x ← inode_at peer st;
    st ← set_inode node (with_peer (i_peer x)) st;
    set_inode peer (with_peer node) st
  else if negb (parent =? 0) then
    x ← inode_at parent st;
    st ← set_inode node (with_peer (i_child x)) st;
    set_inode parent (with_child node) st
  else
    st ← set_inode node (with_peer (root_inode st)) st;
    Some (with_root node st).

(** The [for (;;)] loop: the result and [*inode]. *)
Fixpoint reserve_loop (fuel : nat) (name : string) (left parent : Z) st : option (Z * Z * fsst A) :=
  match fuel with
  | O => None
  | S fuel =>
      let next_name := inode_nextname name in
      if negb (at_end next_name) then
        '(node, st) ← inode_alloc name st;
        if negb (node =? 0) then
          st ← inode_insert node left parent st;
          reserve_loop fuel next_name 0 node st
        else Some (- ENOMEM, 0, st)
      else
        '(node, st) ← inode_alloc name st;
        if negb (node =? 0) then
          st ← inode_insert node left parent st;
          Some (0, node, st)
        else Some (- ENOMEM, 0, st)
  end.

Definition inode_reserve (path : string) st : option (Z * Z * fsst A) :=
  if not_absolute path then Some (- EINVAL, 0, st) else
  r ← inode_search path st;
  if negb (f_node r =? 0) then Some (- EEXIST, 0, st)
  else reserve_loop (S (String.length path)) (f_path r) (f_peer r) (f_parent r) st.

(** ** fs_inoderemove.c *)

Definition inode_unlink (node peer parent : Z) st : option (fsst A) :=
  x ← inode_at node st;
  st ← (if negb (peer =? 0) then set_inode peer (with_peer (i_peer x)) st
        else if negb (parent =? 0) then set_inode parent (with_child (i_peer x)) st
        else Some (with_root (i_peer x) st));
  set_inode node (with_peer 0) st.

Definition inode_remove (path : string) st : option (Z * fsst A) :=
  if not_absolute path then Some (- EINVAL, st) else
  r ← inode_search path st;
  let node := f_node r in
  if negb (node =? 0) then
    st ← inode_unlink node (f_peer r) (f_parent r) st;
    x ← inode_at node st;
    if negb (i_crefs x =? 0) then
      st ← set_inode node (λ x, with_flags (Z.lor (i_flags x) FSNODEFLAG_DELETED) x) st;
      Some (- EBUSY, st)
    else
      st ← inode_free (fs_fuel st) (i_child x) st;
      st ← fs_kfree node st;
      Some (0, st)
  else Some (- ENOENT, st).

(** ** fs_inodefind.c: the node and [*relpath], which is set when a node is found *)

Definition inode_find (path : string) st : option (Z * option string * fsst A) :=
  if not_absolute path then Some (0, None, st) else
  st ← inode_semtake st;
  r ← inode_search path st;
  st ← (if negb (f_node r =? 0) then set_inode (f_node r) (λ x, with_crefs (i_crefs x + 1) x) st
        else Some st);
  st ← inode_semgive st;
  Some (f_node r, f_relpath r, st).

(** ** fs_inodeaddref.c *)

Definition inode_addref (node : Z) st : option (fsst A) :=
  if negb (node =? 0) then
    st ← inode_semtake st;
    st ← set_inode node (λ x, with_crefs (i_crefs x + 1) x) st;
    inode_semgive st
  else Some st.

(** ** fs_inoderelease.c *)

Definition inode_release (node : Z) st : option (fsst A) :=
  if negb (node =? 0) then
    st ← inode_semtake st;
    x ← inode_at node st;
    st ← (if negb (i_crefs x =? 0) then set_inode node (with_crefs (i_crefs x - 1)) st else Some st);
    x ← inode_at node st;
    if (i_crefs x <=? 0) && negb (Z.land (i_flags x) FSNODEFLAG_DELETED =? 0) then
      st ← inode_semgive st;
      st ← inode_free (fs_fuel st) (i_child x) st;
      fs_kfree node st
    else inode_semgive st
  else Some st.

(** ** Registration *)

(** [register_driver] and [register_blockdriver] differ in the type they set. *)
Definition register_with (set : inode → inode) (path : string) (ops priv : Z) st : option (Z * fsst A) :=
  st ← inode_semtake st;
  '(ret, node, st) ← inode_reserve path st;
  '(ret, st) ← (if 0 <=? ret then
                  st ← set_inode node set st;
                  st ← set_inode node (with_ops ops) st;
                  st ← set_inode node (with_private priv) st;
                  Some (0, st)
                else Some (ret, st));
  st ← inode_semgive st;
  Some (ret, st).

Definition register_driver := register_with INODE_SET_DRIVER.
Definition register_blockdriver := register_with INODE_SET_BLOCK.

Definition unregister_driver (path : string) st : option (Z * fsst A) :=
  st ← inode_semtake st;
  '(ret, st) ← inode_remove path st;
  st ← inode_semgive st;
  Some (ret, st).
Definition unregister_blockdriver := unregister_driver.
End Inode.
