(* ===== verification/InodeTree.v ===== *)
(** The tree of inodes as an inductive tree: its representation by the links of
    the inodes, names and paths, searching, grafting and pruning. *)

From Stdlib Require Import Ascii OrdersEx.
From stdpp Require Import base numbers gmap sorting list strings.
From S2P Require Import Prelude Sem Kmalloc Inode.

(** ** Names and paths *)

Definition name_lt (a b : string) : Prop := String.compare a b = Lt.

#[export] Instance name_lt_strict : StrictOrder name_lt.
Proof. apply String_as_OT.lt_strorder. Qed.

Lemma name_lt_irrefl a : ¬ name_lt a a.
Proof. apply irreflexivity, _. Qed.

(** The names of a path that [inode_nextname] walks through; a slash at the end does not count. *)
Fixpoint components (s : string) : list string :=
  match s with
  | EmptyString => []
  | String c s =>
      if is_slash c then EmptyString :: components s
      else match components s with
           | [] => [String c EmptyString]
           | h :: r => String c h :: r
           end
  end.

(** The names [inode_search] looks for: at the end of the path it is the empty name. *)
Definition path_names (s : string) : list string :=
  match s with EmptyString => [EmptyString] | _ => components s end.

Lemma components_step s : s ≠ EmptyString →
  components s = inode_namecpy s :: components (inode_nextname s).
Proof.
  induction s as [|c s IH]; [done|intros _]. cbn [components inode_namecpy inode_nextname].
  destruct (is_slash c); [done|]. destruct s as [|c' s]; [done|]. by rewrite IH.
Qed.

Lemma path_names_step s : path_names s = inode_namecpy s :: components (inode_nextname s).
Proof. destruct s; [done|]. by apply components_step. Qed.

Lemma components_path s : s ≠ EmptyString → components s = path_names s.
Proof. by destruct s. Qed.

Lemma at_end_components s : at_end s = bool_decide (components s = []).
Proof.
  destruct s as [|c s]; [done|]. cbn [at_end]. rewrite components_step by done. done.
Qed.

Lemma nextname_length s : (String.length (inode_nextname s) ≤ String.length s)%nat.
Proof. induction s as [|c s IH]; simpl; [done|]. destruct (is_slash c); lia. Qed.

Lemma nextname_shorter s : s ≠ EmptyString → (String.length (inode_nextname s) < String.length s)%nat.
Proof.
  induction s as [|c s IH]; [done|intros _]. simpl. destruct (is_slash c); [lia|].
  pose proof (nextname_length s). lia.
Qed.

Lemma components_length s : (length (components s) ≤ String.length s)%nat.
Proof.
  induction s as [|c s IH]; simpl; [done|]. destruct (is_slash c); simpl; [lia|].
  destruct (components s); simpl in *; lia.
Qed.

Lemma compare_loop_spec f n : compare_loop f n =
  match String.compare (inode_namecpy f) n with Lt => -1 | Eq => 0 | Gt => 1 end.
Proof.
  revert f. induction n as [|d n IH]; intros [|c f]; try done.
  - simpl. by destruct (is_slash c).
  - cbn [compare_loop inode_namecpy]. destruct (is_slash c); [done|].
    cbn [String.compare]. unfold Ascii.compare. rewrite IH.
    destruct (N.compare_spec (N_of_ascii c) (N_of_ascii d)) as [E|E|E].
    + rewrite E, N.ltb_irrefl. done.
    + rewrite (proj2 (N.ltb_ge _ _)) by lia. by rewrite (proj2 (N.ltb_lt _ _)).
    + by rewrite (proj2 (N.ltb_lt _ _)).
Qed.

Lemma name_compare a b :
  match String.compare a b with Lt => name_lt a b | Eq => a = b | Gt => name_lt b a end.
Proof.
  destruct (String.compare a b) eqn:E; [by apply String.compare_eq_iff|done|].
  unfold name_lt. by rewrite String.compare_antisym, E.
Qed.

Lemma name_compare_refl a : String.compare a a = Eq.
Proof. pose proof (name_compare a a) as Hc. destruct (String.compare a a); [done|by apply name_lt_irrefl in Hc..]. Qed.

Lemma name_compare_lt a b : name_lt a b → String.compare b a = Gt.
Proof. unfold name_lt. intros E. by rewrite String.compare_antisym, E. Qed.

(** ** Trees *)

(** The node [a] named [n], the tree of its children, and the nodes after it. *)
Inductive itree := ILeaf | INode (a : Z) (n : string) (c p : itree).

Fixpoint nodes (t : itree) : list Z :=
  match t with ILeaf => [] | INode a _ c p => a :: nodes c ++ nodes p end.

(** The names of one directory. *)
Fixpoint level (t : itree) : list string :=
  match t with ILeaf => [] | INode _ n _ p => n :: level p end.

(** Every directory is in the order of the names, without repetition. *)
Fixpoint ordered (t : itree) : Prop :=
  match t with
  | ILeaf => True
  | INode _ n c p => Forall (name_lt n) (level p) ∧ ordered c ∧ ordered p
  end.

(** The tree as a name space: the inode at a path. *)
Fixpoint find (t : itree) (cs : list string) : option Z :=
  match t, cs with
  | INode a n c p, x :: xs =>
      if decide (x = n) then match xs with [] => Some a | _ => find c xs end
      else find p cs
  | _, _ => None
  end.

(** Looking up a path in a name space: a mount point takes what is below it.
    The inode and the names that remain. *)
Fixpoint resolve (mnt : Z → bool) (f : list string → option Z) (pre rest : list string) :
    option (Z * list string) :=
  match rest with
  | [] => None
  | x :: xs =>
      a ← f (pre ++ [x]);
      if bool_decide (xs = []) || mnt a then Some (a, xs) else resolve mnt f (pre ++ [x]) xs
  end.

Lemma resolve_cons mnt f pre x xs : resolve mnt f pre (x :: xs) =
  a ← f (pre ++ [x]);
  if bool_decide (xs = []) || mnt a then Some (a, xs) else resolve mnt f (pre ++ [x]) xs.
Proof. done. Qed.

Lemma find_here a n c p : find (INode a n c p) [n] = Some a.
Proof. simpl. by rewrite decide_True. Qed.
Lemma find_below a n c p q : q ≠ [] → find (INode a n c p) (n :: q) = find c q.
Proof. intros Hq. simpl. rewrite decide_True by done. by destruct q. Qed.
Lemma find_after a n c p x q : x ≠ n → find (INode a n c p) (x :: q) = find p (x :: q).
Proof. intros Hx. simpl. by rewrite decide_False. Qed.

Lemma find_level t x xs : x ∉ level t → find t (x :: xs) = None.
Proof.
  induction t as [|a n c _ p IH]; [done|]. simpl. intros Hx.
  apply not_elem_of_cons in Hx as [Hn Hx]. rewrite decide_False by done. auto.
Qed.

Lemma find_before t x xs : Forall (name_lt x) (level t) → find t (x :: xs) = None.
Proof.
  intros Hx. apply find_level. intros Hin. rewrite Forall_forall in Hx.
  by apply Hx, name_lt_irrefl in Hin.
Qed.

Lemma level_before n x t : name_lt x n → Forall (name_lt n) (level t) → Forall (name_lt x) (level t).
Proof. intros Hx Ht. eapply Forall_impl; [exact Ht|]. intros m ?. by transitivity n. Qed.

Lemma find_nodes t cs a : find t cs = Some a → a ∈ nodes t.
Proof.
  revert cs. induction t as [|b n c IHc p IHp]; intros [|x xs]; simpl; try done.
  destruct (decide (x = n)); [|intros ?%IHp; in_list].
  destruct xs; [intros [= ->]; in_list|intros ?%IHc; in_list].
Qed.

(** What precedes the rest of the path may be cut off. *)
Lemma resolve_shift mnt f g pre1 pre2 rest :
  (∀ q, q ≠ [] → f (pre1 ++ q) = g (pre2 ++ q)) → resolve mnt f pre1 rest = resolve mnt g pre2 rest.
Proof.
  revert pre1 pre2. induction rest as [|x xs IH]; intros pre1 pre2 E; [done|]. cbn [resolve].
  rewrite E by done. destruct (g (pre2 ++ [x])); [|done]. cbn [mbind option_bind].
  destruct (_ || _); [done|]. apply IH. intros q Hq. rewrite <-!(assoc_L (++)). by apply E.
Qed.

(** ** Searching a tree *)

(** [inode_search] on the tree: the node or 0, the nodes to its left and above
    it, and the names that remain. *)
Fixpoint tsearch (mnt : Z → bool) (t : itree) (l ab : Z) (x : string) (xs : list string) :
    Z * Z * Z * list string :=
  match t with
  | ILeaf => (0, l, ab, x :: xs)
  | INode a n c p =>
      match String.compare x n with
      | Lt => (0, l, ab, x :: xs)
      | Gt => tsearch mnt p a ab x xs
      | Eq =>
          match xs with
          | [] => (a, l, ab, [])
          | y :: ys => if mnt a then (a, l, ab, xs) else tsearch mnt c 0 a y ys
          end
      end
  end.

(** The search finds what the name space holds. *)
Lemma tsearch_resolve mnt t l ab x xs : ordered t → 0 ∉ nodes t →
  match tsearch mnt t l ab x xs with
  | (r, _, _, rest) => resolve mnt (find t) [] (x :: xs) = if r =? 0 then None else Some (r, rest)
  end.
Proof.
  revert l ab x xs. induction t as [|a n c IHc p IHp]; intros l ab x xs Ho H0; [done|].
  destruct Ho as (Hn & Hc & Hp). cbn [nodes] in H0.
  apply not_elem_of_cons in H0 as [Ha H0]. apply not_elem_of_app in H0 as [H0c H0p].
  cbn [tsearch]. pose proof (name_compare x n) as Hx. destruct (String.compare x n).
  - subst n. rewrite resolve_cons. cbn [app]. rewrite find_here. cbn [mbind option_bind].
    destruct xs as [|y ys]; [by rewrite (proj2 (Z.eqb_neq a 0))|].
    rewrite bool_decide_false by done. cbn [orb].
    destruct (mnt a) eqn:Em; [by rewrite (proj2 (Z.eqb_neq a 0))|].
    specialize (IHc 0 a y ys Hc H0c). destruct (tsearch mnt c 0 a y ys) as [[[r ?] ?] rest].
    rewrite <-IHc. apply resolve_shift. intros q Hq. by apply find_below.
  - rewrite resolve_cons. cbn [app]. rewrite find_before; [done|]. constructor; [done|].
    by eapply level_before.
  - specialize (IHp a ab x xs Hp H0p). destruct (tsearch mnt p a ab x xs) as [[[r ?] ?] rest].
    rewrite <-IHp. assert (Hne : x ≠ n) by (intros ->; by apply name_lt_irrefl in Hx).
    rewrite !resolve_cons. cbn [app]. rewrite find_after by done.
    destruct (find p [x]); [|done]. cbn [mbind option_bind]. destruct (_ || _); [done|].
    apply resolve_shift. intros q _. by apply find_after.
Qed.
