(* ===== verification/InodeRep.v ===== *)
(** How the links of the inodes represent a tree, and what reading and writing
    the links does to it. *)

From Stdlib Require Import Ascii.
From stdpp Require Import base numbers gmap sorting list strings.
From S2P Require Import Prelude Sem Kmalloc Inode InodeTree.

(** The nodes from [v] on, following [i_child] and [i_peer], are the tree [t]. *)
Fixpoint irep (m : gmap Z inode) (v : Z) (t : itree) : Prop :=
  match t with
  | ILeaf => v = 0
  | INode a n c p =>
      v = a ∧ a ≠ 0 ∧ ∃ x, m !! a = Some x ∧ i_name x = n ∧ irep m (i_child x) c ∧ irep m (i_peer x) p
  end.

Definition links (x : inode) := (i_peer x, i_child x, i_name x).

Lemma irep_ext m m' v t : (∀ a, a ∈ nodes t → links <$> m' !! a = links <$> m !! a) →
  irep m v t → irep m' v t.
Proof.
  revert v. induction t as [|a n c IHc p IHp]; intros v E; [done|].
  intros (-> & Ha & x & Hx & Hn & Hc & Hp). split_and!; [done|done|].
  assert (Ea : links <$> m' !! a = Some (links x)) by (rewrite E by apply list_elem_of_here; by rewrite Hx).
  destruct (m' !! a) as [x'|]; [|done]. injection Ea as E1 E2 E3. exists x'. split_and!; [done|congruence| |].
  - rewrite E2. apply IHc; [|done]. intros b Hb. apply E. cbn [nodes]. in_list.
  - rewrite E1. apply IHp; [|done]. intros b Hb. apply E. cbn [nodes]. in_list.
Qed.

Lemma irep_insert m v t a x : a ∉ nodes t → irep m v t → irep (<[a := x]> m) v t.
Proof.
  intros Ha Hr. eapply irep_ext; [|exact Hr]. intros b Hb. rewrite lookup_insert_ne; [done|]. by intros <-.
Qed.

Lemma irep_nonnull m v t : irep m v t → 0 ∉ nodes t.
Proof.
  revert v. induction t as [|a n c IHc p IHp]; intros v; [intros _; apply not_elem_of_nil|].
  intros (-> & Ha & x & Hx & Hn & Hc & Hp). cbn [nodes].
  rewrite not_elem_of_cons, not_elem_of_app. eauto.
Qed.

Lemma irep_lookup m v t a : irep m v t → a ∈ nodes t → is_Some (m !! a).
Proof.
  revert v. induction t as [|b n c IHc p IHp]; intros v; [by intros _ ?%elem_of_nil|].
  intros (-> & Ha & x & Hx & Hn & Hc & Hp) Hin. cbn [nodes] in Hin.
  apply elem_of_cons in Hin as [->|[?|?]%elem_of_app]; eauto.
Qed.

(** ** Searching *)

Definition mount_at (m : gmap Z inode) (a : Z) : bool :=
  match m !! a with Some x => INODE_IS_MOUNTPT x | None => false end.

Lemma nextname_suffix s : ∃ pre, s = String.append pre (inode_nextname s).
Proof.
  induction s as [|c s [pre IH]]; [by exists EmptyString|]. cbn [inode_nextname].
  destruct (is_slash c); [by exists (String c EmptyString)|].
  exists (String c pre). 
  change (String c s = String c (String.append pre (inode_nextname s))). by f_equal.
Qed.

Lemma append_assoc a b c : String.append (String.append a b) c = String.append a (String.append b c).
Proof.
  induction a as [|x a IH]; [done|].
  change (String x (String.append (String.append a b) c) = String x (String.append a (String.append b c))).
  by f_equal.
Qed.

(** What a search that ended at the string [s] with the names [rest] returns. *)
Definition ends_at (name s : string) (r : Z) (rest : list string) : Prop :=
  (∃ pre, name = String.append pre s) ∧ rest = if r =? 0 then path_names s else components s.

Lemma ends_at_next name s r rest : ends_at (inode_nextname name) s r rest → ends_at name s r rest.
Proof.
  intros [[pre E] Hr]. split; [|done]. destruct (nextname_suffix name) as [pre' E'].
  exists (String.append pre' pre). by rewrite append_assoc, <-E.
Qed.

Lemma search_loop_tree {A} `{Kmalloc A} fuel (st : fsst A) name t v l ab :
  irep (inodes st) v t → (length (nodes t) ≤ fuel)%nat →
  match tsearch (mount_at (inodes st)) t l ab (inode_namecpy name) (components (inode_nextname name)) with
  | (r, l', ab', rest) =>
      ∃ s, search_loop fuel st name v l ab =
           Some (mk_found r l' ab' s (if r =? 0 then None else Some s)) ∧ ends_at name s r rest
  end.
Proof.
  revert fuel name v l ab. induction t as [|a n c IHc p IHp]; intros fuel name v l ab Hr Hf.
  { simpl in Hr. subst v. cbn [tsearch]. exists name. split; [by destruct fuel|].
    split; [by exists EmptyString|]. simpl. by rewrite path_names_step. }
  destruct Hr as (-> & Ha & x & Hx & Hn & Hc & Hp). cbn [nodes length] in Hf. rewrite length_app in Hf.
  destruct fuel as [|fuel]; [lia|]. cbn [search_loop tsearch]. rewrite (proj2 (Z.eqb_neq a 0)) by done.
  unfold inode_at. rewrite Hx. cbn [mbind option_bind _inode_compare]. rewrite compare_loop_spec, Hn.
  destruct (String.compare (inode_namecpy name) n).
  - cbn. rewrite at_end_components. unfold mount_at at 1. rewrite Hx.
    destruct (components (inode_nextname name)) as [|y ys] eqn:Ec.
    + cbn. exists (inode_nextname name). rewrite (proj2 (Z.eqb_neq a 0)) by done. split; [done|].
      split; [apply nextname_suffix|]. by rewrite (proj2 (Z.eqb_neq a 0)).
    + rewrite bool_decide_false by done. cbn [orb]. destruct (INODE_IS_MOUNTPT x).
      * exists (inode_nextname name). rewrite (proj2 (Z.eqb_neq a 0)) by done. split; [done|].
        split; [apply nextname_suffix|]. by rewrite (proj2 (Z.eqb_neq a 0)).
      * assert (Hne : inode_nextname name ≠ EmptyString) by (intros E; by rewrite E in Ec).
        rewrite components_step in Ec by done. injection Ec as <- <-.
        specialize (IHc fuel (inode_nextname name) _ 0 a Hc ltac:(lia)).
        destruct (tsearch _ c _ _ _ _) as [[[r l'] ab'] rest].
        destruct IHc as (s & E & Hs). exists s. split; [done|]. by apply ends_at_next.
  - cbn. exists name. split; [done|]. split; [by exists EmptyString|]. simpl. by rewrite path_names_step.
  - cbn. apply IHp; [done|lia].
Qed.
