(* ===== verification/InodeEdit.v ===== *)
(** Inserting a node into the tree of inodes and removing one: what one write to
    the link that [inode_search] stopped at does to the tree. *)

From Stdlib Require Import Ascii.
From stdpp Require Import base numbers gmap sorting list strings.
From S2P Require Import Prelude Sem Kmalloc Inode InodeTree InodeRep.

(** ** The links of the tree *)

(** [root_inode], the [i_peer] or the [i_child] of an inode. *)
Inductive slot := SRoot | SPeer (a : Z) | SChild (a : Z).
#[export] Instance slot_eq_dec : EqDecision slot.
Proof. solve_decision. Defined.

Definition slot_of (peer parent : Z) : slot :=
  if negb (peer =? 0) then SPeer peer else if negb (parent =? 0) then SChild parent else SRoot.
Definition slot_addr (sl : slot) : list Z :=
  match sl with SRoot => [] | SPeer a | SChild a => [a] end.

Definition rd (root : Z) (m : gmap Z inode) (sl : slot) : option Z :=
  match sl with SRoot => Some root | SPeer a => i_peer <$> m !! a | SChild a => i_child <$> m !! a end.
Definition wr_root (sl : slot) (v root : Z) : Z := match sl with SRoot => v | _ => root end.
Definition wr_map (sl : slot) (v : Z) (m : gmap Z inode) : gmap Z inode :=
  match sl with SRoot => m | SPeer a => alter (with_peer v) a m | SChild a => alter (with_child v) a m end.

Lemma slot_of_peer a ab : a ≠ 0 → slot_of a ab = SPeer a.
Proof. intros Ha. unfold slot_of. by rewrite (proj2 (Z.eqb_neq a 0)). Qed.
Lemma slot_of_child a : a ≠ 0 → slot_of 0 a = SChild a.
Proof. intros Ha. unfold slot_of. by rewrite (proj2 (Z.eqb_neq a 0)). Qed.

(** [m'] has the links of [m] but for the nodes [F] and the link [fs]. *)
Definition same_link (fs : slot) (b : Z) (z z' : inode) : Prop :=
  i_name z' = i_name z ∧ (fs ≠ SPeer b → i_peer z' = i_peer z) ∧ (fs ≠ SChild b → i_child z' = i_child z).
Definition updates (F : list Z) (fs : slot) (m m' : gmap Z inode) : Prop :=
  ∀ b z, b ∉ F → m !! b = Some z → ∃ z', m' !! b = Some z' ∧ same_link fs b z z'.

Lemma updates_frame F fs m m' v t : updates F fs m m' →
  (∀ b, b ∈ nodes t → b ∉ F ∧ b ∉ slot_addr fs) → irep m v t → irep m' v t.
Proof.
  intros Hu Hd Hr. eapply irep_ext; [|exact Hr]. intros b Hb.
  destruct (irep_lookup _ _ _ _ Hr Hb) as [z Hz]. destruct (Hd b Hb) as [HF Hs].
  destruct (Hu b z HF Hz) as (z' & Hz' & E1 & E2 & E3). rewrite Hz, Hz'. cbn. unfold links.
  rewrite E1, E2, E3; [done|intros ->; apply Hs, list_elem_of_here..].
Qed.

Lemma updates_rd F fs root m root' m' sl v : updates F fs m m' → (fs ≠ SRoot → root' = root) →
  sl ≠ fs → (∀ b, b ∈ slot_addr sl → b ∉ F) → rd root m sl = Some v → rd root' m' sl = Some v.
Proof.
  intros Hu Hroot Hne HF. destruct sl as [|b|b]; cbn [rd].
  - rewrite Hroot by done. done.
  - intros (z & Hz & ->)%fmap_Some. destruct (Hu b z) as (z' & Hz' & _ & E & _); [apply HF, list_elem_of_here|done|].
    rewrite Hz'. cbn. by rewrite E by congruence.
  - intros (z & Hz & ->)%fmap_Some. destruct (Hu b z) as (z' & Hz' & _ & _ & E); [apply HF, list_elem_of_here|done|].
    rewrite Hz'. cbn. by rewrite E by congruence.
Qed.

(** Rebuilding a node whose later nodes, or whose children, have changed. *)
Lemma updates_peer F fs root m m' b z c p v : updates F fs m m' → b ∉ F → b ≠ 0 → fs ≠ SChild b →
  m !! b = Some z → irep m' (i_child z) c → rd root m' (SPeer b) = Some v → irep m' v p →
  irep m' b (INode b (i_name z) c p).
Proof.
  intros Hu HF H0 Hfs Hz Hc Hv Hp. destruct (Hu b z HF Hz) as (z' & Hz' & E1 & _ & E3).
  cbn [rd] in Hv. rewrite Hz' in Hv. injection Hv as <-.
  split_and!; [done|done|]. exists z'. rewrite E3 by done. done.
Qed.

Lemma updates_child F fs root m m' b z c p v : updates F fs m m' → b ∉ F → b ≠ 0 → fs ≠ SPeer b →
  m !! b = Some z → irep m' (i_peer z) p → rd root m' (SChild b) = Some v → irep m' v c →
  irep m' b (INode b (i_name z) c p).
Proof.
  intros Hu HF H0 Hfs Hz Hp Hv Hc. destruct (Hu b z HF Hz) as (z' & Hz' & E1 & E2 & _).
  cbn [rd] in Hv. rewrite Hz' in Hv. injection Hv as <-.
  split_and!; [done|done|]. exists z'. rewrite E2 by done. done.
Qed.

Lemma updates_wr a z fs v m : a ∉ slot_addr fs → updates [a] fs m (wr_map fs v (<[a := z]> m)).
Proof.
  intros Ha b y Hb Hy. rewrite not_elem_of_cons in Hb. destruct Hb as [Hb _].
  assert (Hy' : <[a := z]> m !! b = Some y) by (by rewrite lookup_insert_ne).
  destruct fs as [|d|d]; cbn [wr_map].
  - by exists y.
  - destruct (decide (d = b)) as [->|Hd].
    + rewrite lookup_alter_eq, Hy'. eexists. split; [done|]. by split_and!.
    + rewrite lookup_alter_ne by done. exists y. by split_and!.
  - destruct (decide (d = b)) as [->|Hd].
    + rewrite lookup_alter_eq, Hy'. eexists. split; [done|]. by split_and!.
    + rewrite lookup_alter_ne by done. exists y. by split_and!.
Qed.

Lemma rd_wr root m fs v : is_Some (rd root m fs) → rd (wr_root fs v root) (wr_map fs v m) fs = Some v.
Proof.
  destruct fs as [|d|d]; cbn [rd wr_map wr_root]; [done|..]; rewrite lookup_alter_eq;
    (destruct (m !! d); [done|by intros [? [=]]]).
Qed.

Lemma wr_root_ne fs v root : fs ≠ SRoot → wr_root fs v root = root.
Proof. by destruct fs. Qed.

Lemma wr_map_lookup fs v m b : b ∉ slot_addr fs → wr_map fs v m !! b = m !! b.
Proof.
  destruct fs as [|d|d]; cbn [wr_map slot_addr]; [done|..]; intros Hb; apply lookup_alter_ne;
    intros ->; apply Hb, list_elem_of_here.
Qed.

(** ** Where a search stops *)

Lemma tsearch_slot mnt t l ab x xs r l' ab' rest : 0 ∉ nodes t →
  tsearch mnt t l ab x xs = (r, l', ab', rest) →
  slot_of l' ab' = slot_of l ab ∨ ∃ b, b ∈ nodes t ∧ slot_addr (slot_of l' ab') = [b].
Proof.
  revert l ab x xs. induction t as [|a n c IHc p IHp]; intros l ab x xs H0; cbn [tsearch].
  { intros [= <- <- <- <-]. by left. }
  cbn [nodes] in *. apply not_elem_of_cons in H0 as [Ha H0]. apply not_elem_of_app in H0 as [H0c H0p].
  destruct (String.compare x n).
  - destruct xs as [|y ys]; [intros [= <- <- <- <-]; by left|].
    destruct (mnt a); [intros [= <- <- <- <-]; by left|].
    intros [->|(b & Hb & ->)]%IHc; [|right; exists b; split; [in_list|done]|done].
    right. exists a. rewrite slot_of_child by done. split; [in_list|done].
  - intros [= <- <- <- <-]. by left.
  - intros [->|(b & Hb & ->)]%IHp; [|right; exists b; split; [in_list|done]|done].
    right. exists a. rewrite slot_of_peer by done. split; [in_list|done].
Qed.

(** ** Grafting *)

(** [inode_insert] on the tree: the node [a] for the first missing name of the path. *)
Fixpoint tgraft (t : itree) (x : string) (xs : list string) (a : Z) : itree :=
  match t with
  | ILeaf => INode a x ILeaf ILeaf
  | INode b n c p =>
      match String.compare x n with
      | Lt => INode a x ILeaf t
      | Gt => INode b n c (tgraft p x xs a)
      | Eq => match xs with [] => t | y :: ys => INode b n (tgraft c y ys a) p end
      end
  end.

(** The tree [t] hangs from the link [sl]. *)
Definition hangs root m sl t : Prop := ∃ v, rd root m sl = Some v ∧ irep m v t.

Section Update.
Context (F : list Z) (fs : slot) (root root' : Z) (m m' : gmap Z inode).
Hypothesis Hu : updates F fs m m'.
Hypothesis Hroot : fs ≠ SRoot → root' = root.

(** A change among the later nodes of [b], seen from the link to [b]. *)
Lemma hangs_peer sl b n c p p' :
  fs = SPeer b ∨ (∃ d, d ∈ nodes p ∧ slot_addr fs = [d]) →
  NoDup (slot_addr sl ++ nodes (INode b n c p)) → (∀ d, d ∈ b :: nodes c ++ slot_addr sl → d ∉ F) →
  hangs root m sl (INode b n c p) → hangs root' m' (SPeer b) p' → hangs root' m' sl (INode b n c p').
Proof using Hu Hroot.
  intros Hfs Hnd HF (v & Hv & -> & H0 & z & Hz & <- & Hc & Hp) (v' & Hv' & Hp').
  apply NoDup_app in Hnd as (_ & Hd & Hnd). cbn [nodes] in *. apply NoDup_cons in Hnd as [Hb Hnd].
  apply NoDup_app in Hnd as (_ & Hcp & _). rewrite elem_of_app in Hb.
  assert (Hs : ∀ d, d ∈ slot_addr fs → d = b ∨ d ∈ nodes p).
  { destruct Hfs as [->|(d & Hd' & ->)]; intros e ->%list_elem_of_singleton; auto. }
  exists b. split.
  - eapply updates_rd; [exact Hu|exact Hroot| | |exact Hv].
    + intros ->. destruct Hfs as [->|(d & Hd' & E)].
      * apply (Hd b); [apply list_elem_of_here|in_list].
      * apply (Hd d); [rewrite E; apply list_elem_of_here|in_list].
    + intros d ?. apply HF. in_list.
  - eapply updates_peer; [exact Hu|apply HF; in_list|done| |exact Hz| |exact Hv'|done].
    + intros ->. destruct Hfs as [|(d & Hd' & [= ->])]; [done|tauto].
    + eapply updates_frame; [exact Hu| |exact Hc]. intros d Hdc. split; [apply HF; in_list|].
      intros [->|Hdp]%Hs; [tauto|by apply (Hcp d)].
Qed.

(** A change among the children of [b], seen from the link to [b]. *)
Lemma hangs_child sl b n c p c' :
  fs = SChild b ∨ (∃ d, d ∈ nodes c ∧ slot_addr fs = [d]) →
  NoDup (slot_addr sl ++ nodes (INode b n c p)) → (∀ d, d ∈ b :: nodes p ++ slot_addr sl → d ∉ F) →
  hangs root m sl (INode b n c p) → hangs root' m' (SChild b) c' → hangs root' m' sl (INode b n c' p).
Proof using Hu Hroot.
  intros Hfs Hnd HF (v & Hv & -> & H0 & z & Hz & <- & Hc & Hp) (v' & Hv' & Hc').
  apply NoDup_app in Hnd as (_ & Hd & Hnd). cbn [nodes] in *. apply NoDup_cons in Hnd as [Hb Hnd].
  apply NoDup_app in Hnd as (_ & Hcp & _). rewrite elem_of_app in Hb.
  assert (Hs : ∀ d, d ∈ slot_addr fs → d = b ∨ d ∈ nodes c).
  { destruct Hfs as [->|(d & Hd' & ->)]; intros e ->%list_elem_of_singleton; auto. }
  exists b. split.
  - eapply updates_rd; [exact Hu|exact Hroot| | |exact Hv].
    + intros ->. destruct Hfs as [->|(d & Hd' & E)].
      * apply (Hd b); [apply list_elem_of_here|in_list].
      * apply (Hd d); [rewrite E; apply list_elem_of_here|in_list].
    + intros d ?. apply HF. in_list.
  - eapply updates_child; [exact Hu|apply HF; in_list|done| |exact Hz| |exact Hv'|done].
    + intros ->. destruct Hfs as [|(d & Hd' & [= ->])]; [done|tauto].
    + eapply updates_frame; [exact Hu| |exact Hp]. intros d Hdp. split; [apply HF; in_list|].
      intros [->|Hdc]%Hs; [tauto|by apply (Hcp d)].
Qed.
End Update.

Lemma graft_here root m sl t a z :
  hangs root m sl t → a ≠ 0 → a ∉ slot_addr sl ++ nodes t → NoDup (slot_addr sl ++ nodes t) →
  i_child z = 0 → rd root m sl = Some (i_peer z) →
  hangs (wr_root sl a root) (wr_map sl a (<[a := z]> m)) sl (INode a (i_name z) ILeaf t).
Proof.
  intros (v & Hv & Hr) Ha Hna Hnd Hc Hp. apply not_elem_of_app in Hna as [Hna1 Hna2].
  apply NoDup_app in Hnd as (_ & Hd & _). rewrite Hv in Hp. injection Hp as ->.
  exists a. split.
  - apply rd_wr. destruct sl as [|d|d]; cbn [rd slot_addr] in *; [done|..];
      rewrite lookup_insert_ne by (intros ->; apply Hna1, list_elem_of_here); by rewrite Hv.
  - split_and!; [done|done|]. exists z. split_and!; [|done|by rewrite Hc|].
    + rewrite wr_map_lookup by done. by rewrite lookup_insert_eq.
    + eapply updates_frame; [apply (updates_wr a z _ a m Hna1)| |exact Hr].
      intros b Hb. split; [intros ?%list_elem_of_singleton; by subst|]. intros Hs. by apply (Hd b).
Qed.

Lemma hangs_nonnull root m sl t : hangs root m sl t → 0 ∉ nodes t.
Proof. intros (v & _ & Hr). by eapply irep_nonnull. Qed.

(** The parts of a node, each hanging from its link. *)
Lemma hangs_parts root m sl b n c p : hangs root m sl (INode b n c p) →
  b ≠ 0 ∧ hangs root m (SPeer b) p ∧ hangs root m (SChild b) c.
Proof.
  intros (v & Hv & -> & H0 & z & Hz & Hn & Hc & Hp). split; [done|].
  split; [exists (i_peer z)|exists (i_child z)]; cbn [rd]; by rewrite Hz.
Qed.

Lemma nodup_parts sl b n c p : NoDup (slot_addr sl ++ nodes (INode b n c p)) →
  NoDup (slot_addr (SPeer b) ++ nodes p) ∧ NoDup (slot_addr (SChild b) ++ nodes c).
Proof.
  intros (_ & _ & [Hb (Hc & Hcp & Hp)%NoDup_app]%NoDup_cons)%NoDup_app. rewrite elem_of_app in Hb.
  cbn. rewrite !NoDup_cons. tauto.
Qed.

Lemma graft_hangs mnt root m t l ab x xs l' ab' ys a z :
  hangs root m (slot_of l ab) t → a ≠ 0 → a ∉ slot_addr (slot_of l ab) ++ nodes t →
  NoDup (slot_addr (slot_of l ab) ++ nodes t) →
  tsearch mnt t l ab x xs = (0, l', ab', i_name z :: ys) →
  i_child z = 0 → rd root m (slot_of l' ab') = Some (i_peer z) →
  hangs (wr_root (slot_of l' ab') a root) (wr_map (slot_of l' ab') a (<[a := z]> m)) (slot_of l ab)
        (tgraft t x xs a).
Proof.
  revert l ab x xs. induction t as [|b n c IHc p IHp]; intros l ab x xs Hh Ha Hna Hnd Hs Hz Hq;
    cbn [tsearch tgraft] in *.
  { injection Hs as <- <- -> <-. by apply graft_here. }
  destruct (hangs_parts _ _ _ _ _ _ _ Hh) as (H0 & Hhp & Hhc).
  destruct (nodup_parts _ _ _ _ _ Hnd) as [Hndp Hndc].
  assert (Hna' : ∀ d, d ∈ b :: nodes c ++ nodes p ++ slot_addr (slot_of l ab) → d ≠ a).
  { intros d Hd ->. apply Hna. cbn [nodes]. in_list. }
  destruct (String.compare x n).
  - destruct xs as [|y ys']; [congruence|].
    destruct (mnt b); [congruence|].
    rewrite <-(slot_of_child b) in Hhc, Hndc by done.
    pose proof (tsearch_slot _ _ _ _ _ _ _ _ _ _ (hangs_nonnull _ _ _ _ Hhc) Hs) as Hsl.
    rewrite slot_of_child in Hsl by done.
    eapply hangs_child; [apply updates_wr|by apply wr_root_ne|exact Hsl|exact Hnd| |exact Hh|].
    + destruct Hsl as [->|(d & Hd & ->)]; intros E%list_elem_of_singleton;
        (eapply Hna'; [|symmetry; exact E]); in_list.
    + intros d Hd ?%list_elem_of_singleton. apply (Hna' d); [in_list|done].
    + rewrite <-(slot_of_child b) by done. eapply IHc; try done.
      rewrite slot_of_child by done. cbn [slot_addr]. intros [E|Hin]%elem_of_cons; (apply (Hna' a); [|done]); [subst|]; in_list.
  - injection Hs as <- <- -> <-. by apply graft_here.
  - rewrite <-(slot_of_peer b ab) in Hhp, Hndp by done.
    pose proof (tsearch_slot _ _ _ _ _ _ _ _ _ _ (hangs_nonnull _ _ _ _ Hhp) Hs) as Hsl.
    rewrite (slot_of_peer b ab) in Hsl by done.
    eapply hangs_peer; [apply updates_wr|by apply wr_root_ne|exact Hsl|exact Hnd| |exact Hh|].
    + destruct Hsl as [->|(d & Hd & ->)]; intros E%list_elem_of_singleton;
        (eapply Hna'; [|symmetry; exact E]); in_list.
    + intros d Hd ?%list_elem_of_singleton. apply (Hna' d); [in_list|done].
    + rewrite <-(slot_of_peer b ab) by done. eapply IHp; try done.
      rewrite (slot_of_peer b ab) by done. cbn [slot_addr]. intros [E|Hin]%elem_of_cons; (apply (Hna' a); [|done]); [subst|]; in_list.
Qed.

(** ** Pruning *)

(** [inode_unlink] on the tree: the tree without the node at the path and its children. *)
Fixpoint tprune (mnt : Z → bool) (t : itree) (x : string) (xs : list string) : itree :=
  match t with
  | ILeaf => ILeaf
  | INode b n c p =>
      match String.compare x n with
      | Lt => t
      | Gt => INode b n c (tprune mnt p x xs)
      | Eq =>
          match xs with
          | [] => p
          | y :: ys => if mnt b then p else INode b n (tprune mnt c y ys) p
          end
      end
  end.

(** The children of the node at the path. *)
Fixpoint tsub (mnt : Z → bool) (t : itree) (x : string) (xs : list string) : itree :=
  match t with
  | ILeaf => ILeaf
  | INode b n c p =>
      match String.compare x n with
      | Lt => ILeaf
      | Gt => tsub mnt p x xs
      | Eq => match xs with [] => c | y :: ys => if mnt b then c else tsub mnt c y ys end
      end
  end.

Lemma prune_nodes mnt t l ab x xs r l' ab' rest : 0 ∉ nodes t →
  tsearch mnt t l ab x xs = (r, l', ab', rest) → r ≠ 0 →
  nodes t ≡ₚ r :: nodes (tsub mnt t x xs) ++ nodes (tprune mnt t x xs).
Proof.
  revert l ab x xs. induction t as [|b n c IHc p IHp]; intros l ab x xs H0; cbn [tsearch tprune tsub].
  { congruence. }
  cbn [nodes] in *. apply not_elem_of_cons in H0 as [_ [H0c H0p]%not_elem_of_app].
  destruct (String.compare x n).
  - destruct xs as [|y ys]; [by intros [= <- _ _ _] _|]. destruct (mnt b); [by intros [= <- _ _ _] _|].
    intros Hs Hr. rewrite (IHc _ _ _ _ H0c Hs Hr) at 1. cbn [nodes]. solve_Permutation.
  - congruence.
  - intros Hs Hr. rewrite (IHp _ _ _ _ H0p Hs Hr) at 1. cbn [nodes]. solve_Permutation.
Qed.

Lemma tsearch_slot_ne mnt t l ab x xs r l' ab' rest : 0 ∉ nodes t →
  NoDup (slot_addr (slot_of l ab) ++ nodes t) →
  tsearch mnt t l ab x xs = (r, l', ab', rest) → r ≠ 0 → r ∉ slot_addr (slot_of l' ab').
Proof.
  revert l ab x xs. induction t as [|b n c IHc p IHp]; intros l ab x xs H0 Hnd; cbn [tsearch];
    [congruence|].
  assert (Hbs : b ∉ slot_addr (slot_of l ab)).
  { intros Hb. apply NoDup_app in Hnd as (_ & Hd & _). apply (Hd b Hb), list_elem_of_here. }
  destruct (nodup_parts _ _ _ _ _ Hnd) as [Hndp Hndc].
  cbn [nodes] in H0. apply not_elem_of_cons in H0 as [Hb0 [H0c H0p]%not_elem_of_app].
  rewrite <-(slot_of_child b) in Hndc by done. rewrite <-(slot_of_peer b ab) in Hndp by done.
  destruct (String.compare x n); [|congruence|by eauto].
  destruct xs as [|y ys]; [by intros [= <- <- <- _]|]. destruct (mnt b); [by intros [= <- <- <- _]|]. eauto.
Qed.

(** [node->i_peer = NULL] after the link to the node was set to the next node. *)
Definition unlinked (fs : slot) (r : Z) (z : inode) (m : gmap Z inode) : gmap Z inode :=
  <[r := with_peer 0 z]> (wr_map fs (i_peer z) m).

Lemma updates_unlinked fs r z m : m !! r = Some z → r ∉ slot_addr fs → updates [r] fs m (unlinked fs r z m).
Proof.
  intros Hz Hr b y Hb Hy. destruct (updates_wr r z fs (i_peer z) m Hr b y Hb Hy) as (y' & Hy' & Hs).
  rewrite insert_id in Hy' by done. exists y'. split; [|done]. unfold unlinked.
  rewrite lookup_insert_ne; [done|]. intros <-. apply Hb, list_elem_of_here.
Qed.

Lemma rd_insert root sl r z m : r ∉ slot_addr sl → rd root (<[r := z]> m) sl = rd root m sl.
Proof.
  destruct sl as [|d|d]; cbn [rd slot_addr]; [done|..]; intros Hr; rewrite lookup_insert_ne; try done;
    intros ->; apply Hr, list_elem_of_here.
Qed.

Lemma prune_here root m sl r n c p z :
  hangs root m sl (INode r n c p) → NoDup (slot_addr sl ++ nodes (INode r n c p)) → m !! r = Some z →
  hangs (wr_root sl (i_peer z) root) (unlinked sl r z m) sl p ∧
  irep (unlinked sl r z m) r (INode r (i_name z) c ILeaf).
Proof.
  intros (v & Hv & -> & H0 & z' & Hz' & <- & Hc & Hp) Hnd Hz.
  rewrite Hz in Hz'. injection Hz' as <-.
  apply NoDup_app in Hnd as (_ & Hd & Hnd). cbn [nodes] in *. apply NoDup_cons in Hnd as [Hr Hnd].
  rewrite elem_of_app in Hr.
  assert (Hrs : r ∉ slot_addr sl) by (intros ?; apply (Hd r); [done|apply list_elem_of_here]).
  pose proof (updates_unlinked _ _ _ _ Hz Hrs) as Hu. split.
  - exists (i_peer z). split.
    + unfold unlinked. rewrite rd_insert by done. apply rd_wr. by exists r.
    + eapply updates_frame; [exact Hu| |exact Hp]. intros d Hdp. split.
      * intros ->%list_elem_of_singleton. tauto.
      * intros Hs. apply (Hd d); [done|in_list].
  - split_and!; [done|done|]. exists (with_peer 0 z). split_and!; [|done| |done].
    + unfold unlinked. by rewrite lookup_insert_eq.
    + eapply updates_frame; [exact Hu| |exact Hc]. intros d Hdc. split.
      * intros ->%list_elem_of_singleton. tauto.
      * intros Hs. apply (Hd d); [done|in_list].
Qed.

Lemma prune_hangs mnt root m t l ab x xs r l' ab' rest z :
  hangs root m (slot_of l ab) t → NoDup (slot_addr (slot_of l ab) ++ nodes t) →
  tsearch mnt t l ab x xs = (r, l', ab', rest) → r ≠ 0 → m !! r = Some z →
  hangs (wr_root (slot_of l' ab') (i_peer z) root) (unlinked (slot_of l' ab') r z m) (slot_of l ab)
        (tprune mnt t x xs) ∧
  irep (unlinked (slot_of l' ab') r z m) r (INode r (i_name z) (tsub mnt t x xs) ILeaf).
Proof.
  revert l ab x xs. induction t as [|b n c IHc p IHp]; intros l ab x xs Hh Hnd Hs Hr Hz;
    cbn [tsearch tprune tsub] in *; [congruence|].
  destruct (hangs_parts _ _ _ _ _ _ _ Hh) as (H0 & Hhp & Hhc).
  destruct (nodup_parts _ _ _ _ _ Hnd) as [Hndp Hndc].
  pose proof (hangs_nonnull _ _ _ _ Hhp) as H0p. pose proof (hangs_nonnull _ _ _ _ Hhc) as H0c.
  assert (Hnd' : NoDup (slot_addr (slot_of l ab) ++ b :: nodes c ++ nodes p)) by exact Hnd.
  apply NoDup_app in Hnd' as (_ & Hd & [Hb (_ & Hcp & _)%NoDup_app]%NoDup_cons).
  rewrite elem_of_app in Hb.
  destruct (String.compare x n).
  - destruct xs as [|y ys].
    { injection Hs as <- <- <- <-. eapply prune_here; done. }
    destruct (mnt b). { injection Hs as <- <- <- <-. eapply prune_here; done. }
    rewrite <-(slot_of_child b) in Hhc, Hndc by done.
    pose proof (tsearch_slot _ _ _ _ _ _ _ _ _ _ H0c Hs) as Hsl. rewrite slot_of_child in Hsl by done.
    assert (Hrc : r ∈ nodes c) by (rewrite (prune_nodes _ _ _ _ _ _ _ _ _ _ H0c Hs Hr); in_list).
    destruct (IHc _ _ _ _ Hhc Hndc Hs Hr Hz) as [IH1 IH2]. split; [|exact IH2].
    rewrite slot_of_child in IH1 by done.
    eapply hangs_child; [apply updates_unlinked|by apply wr_root_ne|exact Hsl|exact Hnd| |exact Hh|exact IH1];
      [exact Hz| |].
    + exact (tsearch_slot_ne _ _ _ _ _ _ _ _ _ _ H0c Hndc Hs Hr).
    + intros d Hdd ->%list_elem_of_singleton. apply elem_of_cons in Hdd as [->|[?|?]%elem_of_app]; [tauto|by apply (Hcp r)|].
      apply (Hd r); [done|in_list].
  - congruence.
  - rewrite <-(slot_of_peer b ab) in Hhp, Hndp by done.
    pose proof (tsearch_slot _ _ _ _ _ _ _ _ _ _ H0p Hs) as Hsl. rewrite (slot_of_peer b ab) in Hsl by done.
    assert (Hrp : r ∈ nodes p) by (rewrite (prune_nodes _ _ _ _ _ _ _ _ _ _ H0p Hs Hr); in_list).
    destruct (IHp _ _ _ _ Hhp Hndp Hs Hr Hz) as [IH1 IH2]. split; [|exact IH2].
    rewrite (slot_of_peer b ab) in IH1 by done.
    eapply hangs_peer; [apply updates_unlinked|by apply wr_root_ne|exact Hsl|exact Hnd| |exact Hh|exact IH1];
      [exact Hz| |].
    + exact (tsearch_slot_ne _ _ _ _ _ _ _ _ _ _ H0p Hndp Hs Hr).
    + intros d Hdd ->%list_elem_of_singleton. apply elem_of_cons in Hdd as [->|[?|?]%elem_of_app]; [tauto|by apply (Hcp r)|].
      apply (Hd r); [done|in_list].
Qed.
