(* ===== verification/InodeSpace.v ===== *)
(** Grafting and pruning as changes of the name space. *)

From Stdlib Require Import Ascii.
From stdpp Require Import base numbers gmap sorting list strings.
From S2P Require Import Prelude Sem Kmalloc Inode InodeTree InodeRep InodeEdit.

Lemma find_nil t : find t [] = None.
Proof. by destruct t. Qed.

(** The two ways a path passes a node. *)
Lemma find_cons b n c p z zs : find (INode b n c p) (z :: zs) =
  if decide (z = n) then (if decide (zs = []) then Some b else find c zs) else find p (z :: zs).
Proof.
  destruct (decide (z = n)) as [->|Hz]; [|by apply find_after].
  destruct (decide (zs = [])) as [->|Hzs]; [apply find_here|by apply find_below].
Qed.

(** ** Grafting *)

Lemma graft_level t x xs a m : m ∈ level (tgraft t x xs a) → m = x ∨ m ∈ level t.
Proof.
  induction t as [|b n c _ p IH]; cbn [tgraft level]; [intros ->%list_elem_of_singleton; by left|].
  destruct (String.compare x n); [destruct xs|..]; cbn [level]; rewrite ?elem_of_cons; tauto.
Qed.

Lemma graft_ordered t x xs a : ordered t → ordered (tgraft t x xs a).
Proof.
  revert x xs. induction t as [|b n c IHc p IHp]; intros x xs; [done|].
  intros (Hn & Hc & Hp). cbn [tgraft]. pose proof (name_compare x n) as Hx.
  destruct (String.compare x n).
  - destruct xs as [|y ys]; [by split_and!|]. split_and!; auto.
  - split_and!; [|done|by split_and!]. constructor; [done|]. by eapply level_before.
  - split_and!; [|done|auto]. rewrite Forall_forall in Hn |- *. intros m [->|Hm]%graft_level; auto.
Qed.

Lemma graft_nodes mnt t l ab x xs l' ab' ys a : 0 ∉ nodes t →
  tsearch mnt t l ab x xs = (0, l', ab', ys) → nodes (tgraft t x xs a) ≡ₚ a :: nodes t.
Proof.
  revert l ab x xs. induction t as [|b n c IHc p IHp]; intros l ab x xs H0; cbn [tsearch tgraft nodes] in *; [done|].
  apply not_elem_of_cons in H0 as [Hb [H0c H0p]%not_elem_of_app].
  destruct (String.compare x n).
  - destruct xs as [|z zs]; [congruence|]. destruct (mnt b); [congruence|]. intros Hs. cbn [nodes].
    rewrite (IHc _ _ _ _ H0c Hs). solve_Permutation.
  - done.
  - intros Hs. cbn [nodes]. rewrite (IHp _ _ _ _ H0p Hs). solve_Permutation.
Qed.

(** The path of the new node is its one new entry. *)
Lemma graft_find mnt t l ab x xs l' ab' y ys a : ordered t → 0 ∉ nodes t →
  tsearch mnt t l ab x xs = (0, l', ab', y :: ys) →
  ∃ pre, x :: xs = pre ++ y :: ys ∧ find t (pre ++ [y]) = None ∧
    ∀ q, find (tgraft t x xs a) q = if decide (q = pre ++ [y]) then Some a else find t q.
Proof.
  assert (Hhere : ∀ t x q, Forall (name_lt x) (level t) →
    find (INode a x ILeaf t) q = if decide (q = [] ++ [x]) then Some a else find t q).
  { intros t' x' [|z zs] Hlt; [by rewrite !find_nil|]. rewrite find_cons. cbn [app].
    destruct (decide (z = x')) as [->|Hz]; [|rewrite decide_False by congruence; done].
    destruct (decide (zs = [])) as [->|Hzs]; [by rewrite decide_True|].
    rewrite decide_False by congruence. by rewrite find_before. }
  revert l ab x xs. induction t as [|b n c IHc p IHp]; intros l ab x xs Ho H0 Hs; cbn [tsearch tgraft] in *.
  { injection Hs as <- <- <- <-. exists []. split_and!; [done|done|]. intros q. by apply Hhere. }
  destruct Ho as (Hn & Hc & Hp). cbn [nodes] in H0. apply not_elem_of_cons in H0 as [Hb [H0c H0p]%not_elem_of_app].
  pose proof (name_compare x n) as Hx. destruct (String.compare x n).
  - subst n. destruct xs as [|z zs]; [congruence|]. destruct (mnt b); [congruence|].
    destruct (IHc _ _ _ _ Hc H0c Hs) as (pre & E & Hnone & Hf). exists (x :: pre). rewrite E.
    split_and!; [done|cbn [app]; rewrite find_below by (by destruct pre); done|].
    intros [|w ws]; [by rewrite !find_nil, decide_False by (by destruct pre)|]. rewrite !find_cons. cbn [app].
    destruct (decide (w = x)) as [->|Hw]; [|by rewrite decide_False by congruence].
    destruct (decide (ws = [])) as [->|Hws].
    + rewrite decide_False; [done|]. intros [=]. by destruct pre.
    + rewrite Hf. destruct (decide (ws = pre ++ [y])); [rewrite decide_True by congruence|rewrite decide_False by congruence]; done.
  - injection Hs as <- <- <- <-. exists [].
    assert (Hlt : Forall (name_lt x) (level (INode b n c p))) by (constructor; [done|by eapply level_before]).
    split_and!; [done|by apply find_before|]. intros q. by apply Hhere.
  - destruct (IHp _ _ _ _ Hp H0p Hs) as (pre & E & Hnone & Hf). exists pre.
    assert (Hne : x ≠ n) by (intros ->; by apply name_lt_irrefl in Hx).
    split_and!; [done| |].
    { destruct pre as [|z pre]; cbn [app] in *; injection E as <- E; by rewrite find_after. }
    intros [|w ws]; [by rewrite !find_nil, decide_False by (by destruct pre)|]. rewrite !find_cons.
    destruct (decide (w = n)) as [->|Hw]; [|apply Hf].
    rewrite (decide_False (P := n :: ws = pre ++ [y])); [done|]. intros E'. destruct pre as [|z pre]; cbn in *; congruence.
Qed.

(** After the graft the search reaches the new node, and goes on below it. *)
Lemma graft_search mnt mnt' t l ab x xs l' ab' y ys a : 0 ∉ nodes t → a ≠ 0 →
  mnt' a = false → (∀ b, b ∈ nodes t → mnt' b = mnt b) →
  tsearch mnt t l ab x xs = (0, l', ab', y :: ys) →
  tsearch mnt' (tgraft t x xs a) l ab x xs =
    match ys with [] => (a, l', ab', []) | _ => (0, 0, a, ys) end.
Proof.
  intros H0 Ha Hma. revert l ab x xs H0.
  induction t as [|b n c IHc p IHp]; intros l ab x xs H0 Hm; cbn [tsearch tgraft nodes] in *.
  { intros [= <- <- <- <-]. rewrite name_compare_refl. destruct xs; [done|]. by rewrite Hma. }
  apply not_elem_of_cons in H0 as [Hb [H0c H0p]%not_elem_of_app].
  destruct (String.compare x n) eqn:Ex.
  - destruct xs as [|z zs]; [congruence|]. destruct (mnt b) eqn:Eb; [congruence|]. intros Hs.
    cbn [tsearch]. rewrite Ex, Hm, Eb by in_list. apply IHc; [done| |done]. intros d Hd. apply Hm. in_list.
  - intros [= <- <- <- <-]. cbn [tsearch]. rewrite name_compare_refl. destruct xs; [done|]. by rewrite Hma.
  - intros Hs. cbn [tsearch]. rewrite Ex. apply IHp; [done| |done]. intros d Hd. apply Hm. in_list.
Qed.

(** ** Pruning *)

Lemma prune_level mnt t x xs m : m ∈ level (tprune mnt t x xs) → m ∈ level t.
Proof.
  induction t as [|b n c _ p IH]; cbn [tprune level]; [done|].
  destruct (String.compare x n); [destruct xs; [|destruct (mnt b)]|..]; cbn [level];
    rewrite ?elem_of_cons; tauto.
Qed.

Lemma prune_ordered mnt t x xs : ordered t → ordered (tprune mnt t x xs).
Proof.
  revert x xs. induction t as [|b n c IHc p IHp]; intros x xs; [done|].
  intros (Hn & Hc & Hp). cbn [tprune]. destruct (String.compare x n).
  - destruct xs as [|y ys]; [done|]. destruct (mnt b); [done|]. split_and!; auto.
  - by split_and!.
  - split_and!; [|done|auto]. rewrite Forall_forall in Hn |- *. intros m Hm%prune_level. auto.
Qed.

(** Pruning takes out the path of the node and all that is below it. *)
Lemma prune_find mnt t l ab x xs r l' ab' rest : ordered t → 0 ∉ nodes t →
  tsearch mnt t l ab x xs = (r, l', ab', rest) → r ≠ 0 →
  ∃ pre, x :: xs = pre ++ rest ∧ pre ≠ [] ∧ find t pre = Some r ∧
    (∀ q, find (tprune mnt t x xs) q = if decide (pre `prefix_of` q) then None else find t q) ∧
    (∀ q, q ≠ [] → find (tsub mnt t x xs) q = find t (pre ++ q)).
Proof.
  intros Ho H0 Hs Hr. revert l ab x xs Ho H0 Hs.
  assert (Hhere : ∀ b x c p rest, Forall (name_lt x) (level p) →
    x :: rest = [x] ++ rest ∧ [x] ≠ [] ∧ find (INode b x c p) [x] = Some b ∧
    (∀ q, find p q = if decide ([x] `prefix_of` q) then None else find (INode b x c p) q) ∧
    (∀ q, q ≠ [] → find c q = find (INode b x c p) ([x] ++ q))).
  { intros b x c p rest' Hlt. split_and!; [done|done|apply find_here| |].
    - intros [|z zs]; [by rewrite !find_nil, decide_False by (intros [? [=]])|]. rewrite find_cons.
      destruct (decide (z = x)) as [->|Hz].
      + rewrite decide_True by by exists zs. by apply find_before.
      + rewrite decide_False; [done|]. intros [? [=]]. congruence.
    - intros q Hq. by rewrite <-(find_below b x c p q). }
  induction t as [|b n c IHc p IHp]; intros l ab x xs Ho H0 Hs; cbn [tsearch tprune tsub] in *; [congruence|].
  destruct Ho as (Hn & Hc & Hp). cbn [nodes] in H0. apply not_elem_of_cons in H0 as [Hb [H0c H0p]%not_elem_of_app].
  pose proof (name_compare x n) as Hx. destruct (String.compare x n).
  - subst n. destruct xs as [|y ys].
    { injection Hs as <- <- <- <-. exists [x]. by apply Hhere. }
    destruct (mnt b). { injection Hs as <- <- <- <-. exists [x]. by apply Hhere. }
    destruct (IHc _ _ _ _ Hc H0c Hs) as (pre & E & Hpre & Hf & Hp1 & Hp2). exists (x :: pre). rewrite E.
    split_and!; [done|done|by rewrite find_below| |].
    + intros [|w ws]; [by rewrite !find_nil, decide_False by (intros [? [=]])|]. rewrite !find_cons.
      destruct (decide (w = x)) as [->|Hw].
      * destruct (decide (ws = [])) as [->|Hws].
        { rewrite decide_False; [done|]. intros [? [=]]. by destruct pre. }
        rewrite Hp1. destruct (decide (pre `prefix_of` ws)) as [Hpw|Hpw].
        { by rewrite decide_True by by apply prefix_cons. }
        rewrite decide_False; [done|]. by intros ?%prefix_cons_inv_2.
      * rewrite (decide_False (P := x :: pre `prefix_of` w :: ws)); [done|]. by intros ?%prefix_cons_inv_1.
    + intros q Hq. cbn [app]. rewrite find_below by (by destruct pre). by apply Hp2.
  - congruence.
  - destruct (IHp _ _ _ _ Hp H0p Hs) as (pre & E & Hpre & Hf & Hp1 & Hp2). exists pre.
    assert (Hne : x ≠ n) by (intros ->; by apply name_lt_irrefl in Hx).
    destruct pre as [|z pre]; [done|]. injection E as <- E.
    split_and!; [by rewrite E|done|by rewrite find_after| |].
    + intros [|w ws]; [by rewrite !find_nil, decide_False by (intros [? [=]])|]. rewrite !find_cons.
      destruct (decide (w = n)) as [->|Hw]; [|apply Hp1].
      rewrite (decide_False (P := x :: pre `prefix_of` n :: ws)); [done|]. by intros ?%prefix_cons_inv_1.
    + intros q Hq. cbn [app]. rewrite find_after by done. by apply Hp2.
Qed.

(** A search that finds nothing: there is nothing at the path. *)
Lemma tsearch_none mnt t l ab x xs l' ab' rest : ordered t → 0 ∉ nodes t →
  tsearch mnt t l ab x xs = (0, l', ab', rest) → find t (x :: xs) = None.
Proof.
  revert l ab x xs. induction t as [|b n c IHc p IHp]; intros l ab x xs Ho H0; cbn [tsearch]; [done|].
  destruct Ho as (Hn & Hc & Hp). cbn [nodes] in H0. apply not_elem_of_cons in H0 as [Hb [H0c H0p]%not_elem_of_app].
  pose proof (name_compare x n) as Hx. destruct (String.compare x n).
  - subst n. destruct xs as [|y ys]; [congruence|]. destruct (mnt b); [congruence|]. intros Hs.
    rewrite find_below by done. by eapply IHc.
  - intros _. apply find_before. constructor; [done|]. by eapply level_before.
  - intros Hs. rewrite find_after by (intros ->; by apply name_lt_irrefl in Hx). by eapply IHp.
Qed.

(** [t'] is [t] with new nodes at some of the paths that lead to [cs]. *)
Definition extends (t t' : itree) (cs : list string) : Prop :=
  (∀ q a, find t q = Some a → find t' q = Some a) ∧
  (∀ q a, find t' q = Some a → find t q = Some a ∨ (q `prefix_of` cs ∧ a ∉ nodes t)).

Lemma extends_refl t cs : extends t t cs.
Proof. split; [done|]. by left. Qed.

Lemma extends_trans t1 t2 t3 cs : nodes t1 ⊆ nodes t2 →
  extends t1 t2 cs → extends t2 t3 cs → extends t1 t3 cs.
Proof.
  intros Hn [H1 H1'] [H2 H2']. split; [auto|]. intros q a [?|[? Ha]]%H2'; [auto|].
  right. split; [done|]. by intros ?%Hn.
Qed.

Lemma graft_extends mnt t l ab x xs l' ab' y ys a : ordered t → 0 ∉ nodes t → a ∉ nodes t →
  tsearch mnt t l ab x xs = (0, l', ab', y :: ys) → extends t (tgraft t x xs a) (x :: xs).
Proof.
  intros Ho H0 Ha Hs. destruct (graft_find _ _ _ _ _ _ _ _ _ _ a Ho H0 Hs) as (pre & E & Hnone & Hf). split.
  - intros q b Hq. rewrite Hf. destruct (decide (q = pre ++ [y])) as [->|]; [|done].
    by rewrite Hnone in Hq.
  - intros q b. rewrite Hf. destruct (decide (q = pre ++ [y])) as [->|]; [|by left].
    intros [= <-]. right. split; [|done]. rewrite E. exists ys. by rewrite <-(assoc_L (++)).
Qed.

(** ** Paths of nodes *)

Lemma find_prefix t pre x xs b : find t (pre ++ x :: xs) = Some b → is_Some (find t (pre ++ [x])).
Proof.
  revert pre x xs. induction t as [|a n c IHc p IHp]; [done|]. intros [|z pre] x xs; cbn [app].
  - rewrite !find_cons. destruct (decide (x = n)); [|apply (IHp [])].
    intros _. by rewrite (decide_True (P := @nil string = [])).
  - rewrite !find_cons. destruct (decide (z = n)).
    + destruct (decide (pre ++ x :: xs = [])) as [E|_]; [by destruct pre|].
      destruct (decide (pre ++ [x] = [])) as [E|_]; [by destruct pre|]. apply IHc.
    + apply (IHp (z :: pre)).
Qed.

Lemma find_inj t q1 q2 b : NoDup (nodes t) → find t q1 = Some b → find t q2 = Some b → q1 = q2.
Proof.
  revert q1 q2. induction t as [|a n c IHc p IHp]; [done|]. intros q1 q2 Hnd.
  cbn [nodes] in Hnd. apply NoDup_cons in Hnd as [Ha (Hc & Hcp & Hp)%NoDup_app]. rewrite elem_of_app in Ha.
  destruct q1 as [|x xs]; [by rewrite find_nil|]. destruct q2 as [|y ys]; [by rewrite (find_nil (INode _ _ _ _))|].
  rewrite !find_cons.
  destruct (decide (x = n)) as [->|Hx], (decide (y = n)) as [->|Hy].
  - destruct (decide (xs = [])) as [->|Hxs], (decide (ys = [])) as [->|Hys]; [done|..].
    + intros [= <-] E%find_nodes. tauto.
    + intros E%find_nodes [= <-]. tauto.
    + intros E1 E2. f_equal. by apply IHc.
  - destruct (decide (xs = [])) as [->|Hxs]; intros E1 E2%find_nodes.
    + injection E1 as <-. tauto.
    + apply find_nodes in E1. by destruct (Hcp b).
  - destruct (decide (ys = [])) as [->|Hys]; intros E1%find_nodes E2.
    + injection E2 as <-. tauto.
    + apply find_nodes in E2. by destruct (Hcp b).
  - by apply IHp.
Qed.

(** A path that did not resolve, and at which there is a node now, resolves to it
    when no mount point was put on the way. *)
Lemma resolve_new mnt mnt' t t' pre rest a :
  (∀ q b, find t q = Some b → find t' q = Some b ∧ mnt' b = mnt b) →
  (∀ q b, find t' q = Some b → find t q = None → q ≠ pre ++ rest → mnt' b = false) →
  resolve mnt (find t) pre rest = None → rest ≠ [] → find t' (pre ++ rest) = Some a →
  resolve mnt' (find t') pre rest = Some (a, []).
Proof.
  revert pre. induction rest as [|x xs IH]; [done|]. intros pre Hold Hnew Hn _ Ha.
  rewrite resolve_cons in Hn |- *. destruct (find_prefix _ _ _ _ _ Ha) as [b Hb]. rewrite Hb.
  cbn [mbind option_bind]. destruct xs as [|y ys]; [rewrite Hb in Ha; by injection Ha as ->|].
  rewrite bool_decide_false in Hn |- * by done. cbn [orb] in *.
  assert (E : pre ++ x :: y :: ys = (pre ++ [x]) ++ y :: ys) by by rewrite <-(assoc_L (++)).
  assert (Hm : mnt' b = false ∧ resolve mnt (find t) (pre ++ [x]) (y :: ys) = None).
  { destruct (find t (pre ++ [x])) as [b'|] eqn:Eb; cbn [mbind option_bind] in Hn.
    - destruct (Hold _ _ Eb) as [Eb' Em]. rewrite Hb in Eb'. injection Eb' as <-. rewrite Em.
      by destruct (mnt b).
    - split.
      + apply (Hnew (pre ++ [x])); [done|done|]. rewrite E. intros E'.
        apply (f_equal length) in E'. rewrite !length_app in E'. cbn in E'. lia.
      + rewrite resolve_cons. destruct (find t ((pre ++ [x]) ++ [y])) as [d|] eqn:Ed; [|done].
        rewrite <-(assoc_L (++)) in Ed. cbn [app] in Ed. apply find_prefix in Ed as [? Ed]. by rewrite Eb in Ed. }
  destruct Hm as [-> Hn']. rewrite E in *. by apply IH.
Qed.
