(* ===== verification/InodeInv.v ===== *)
(** The invariant of the inodes: the tree, the removed trees that are still
    referenced, the reference counts and the memory; freeing. *)

From Stdlib Require Import Ascii.
From stdpp Require Import base numbers gmap sorting list strings.
From S2P Require Import Prelude Queue Sched Sem SemThms Kmalloc Inode InodeTree InodeRep InodeEdit InodeSpace.

(** ** Semaphores that are free *)

(** The same counts, and the same tasks in the same lists. *)
Record same_sems (s s' : semst) : Prop := {
  ss_count k : semcount s' k = semcount s k;
  ss_lists : qs (sch s') = qs (sch s) }.

#[export] Instance same_sems_preorder : PreOrder same_sems.
Proof.
  split; [by constructor|]. intros s1 s2 s3 [C1 L1] [C2 L2].
  constructor; [intros k; by rewrite C2|by rewrite L2].
Qed.

(** [s'] is [s] with the semaphore [sem] taken. *)
Record sem_taken (sem : Z) (s s' : semst) : Prop := {
  st_sem : semcount s' sem = 0;
  st_count k : k ≠ sem → semcount s' k = semcount s k;
  st_lists : qs (sch s') = qs (sch s) }.

Lemma sem_take_free sem s : sem ≠ 0 → semcount s sem = 1 →
  ∃ s', sem_take sem s = Some s' ∧ sem_taken sem s s'.
Proof.
  intros Hs Hc. unfold sem_take, sem_wait. rewrite (proj2 (Z.eqb_neq sem 0)) by done.
  rewrite semcount_errno, Hc. cbn [Z.ltb Z.compare mbind option_bind].
  eexists. split; [done|]. constructor; [| |done].
  - change (semcount (set_semcount sem (1 - 1) (set_errno EINVAL s)) sem = 0).
    by rewrite semcount_set, decide_True.
  - intros k Hk. change (semcount (set_semcount sem (1 - 1) (set_errno EINVAL s)) k = semcount s k).
    rewrite semcount_set, decide_False by done. apply semcount_errno.
Qed.

Lemma sem_give_held sem s s' : sem ≠ 0 → semcount s sem = 1 → sem_taken sem s s' →
  ∃ s2, sem_give sem s' = Some s2 ∧ same_sems s s2.
Proof.
  intros Hs Hc [H0 Hk Hl]. unfold sem_give, sem_post. rewrite (proj2 (Z.eqb_neq sem 0)) by done.
  rewrite H0. change (negb (0 <? SEM_VALUE_MAX)) with false. cbn iota.
  rewrite semcount_set, decide_True by done. change (i16 (0 + 1) <=? 0) with false. cbn.
  eexists. split; [done|]. constructor; [|done]. intros k. rewrite semcount_set.
  destruct (decide (k = sem)) as [->|]; [by rewrite Hc|by apply Hk].
Qed.

(** ** Flags and counts *)

Lemma i16_id z : 0 ≤ z ≤ 0x7fff → i16 z = z.
Proof. intros Hz. unfold i16. rewrite Z.mod_small; lia. Qed.

Definition deleted (x : inode) : bool := negb (Z.land (i_flags x) FSNODEFLAG_DELETED =? 0).

Lemma deleted_testbit x : deleted x = Z.testbit (i_flags x) 2.
Proof.
  unfold deleted. assert (E : Z.land (i_flags x) FSNODEFLAG_DELETED = if Z.testbit (i_flags x) 2 then 4 else 0).
  { apply Z.bits_inj'. intros n Hn. rewrite Z.land_spec. change FSNODEFLAG_DELETED with (2 ^ 2).
    rewrite Z.pow2_bits_eqb by lia. destruct (Z.eqb_spec 2 n) as [<-|Hne].
    - by destruct (Z.testbit (i_flags x) 2).
    - rewrite andb_false_r. destruct (Z.testbit (i_flags x) 2); [|by rewrite Z.bits_0].
      change 4 with (2 ^ 2). rewrite Z.pow2_bits_eqb by lia. by rewrite (proj2 (Z.eqb_neq 2 n)). }
  rewrite E. by destruct (Z.testbit (i_flags x) 2).
Qed.

Lemma deleted_flags v x : deleted (with_flags v x) = Z.testbit v 2.
Proof.
  rewrite deleted_testbit. change (Z.testbit (v mod 2 ^ 16) 2 = Z.testbit v 2). by rewrite Z.mod_pow2_bits_low.
Qed.

(** ** The invariant *)

Definition removed (m : gmap Z inode) (d : itree) : Prop :=
  ∃ a n c, d = INode a n c ILeaf ∧ irep m a d.
Definition top (d : itree) : list Z := match d with ILeaf => [] | INode a _ _ _ => [a] end.
Definition all_nodes (t : itree) (D : list itree) : list Z := nodes t ++ (D ≫= nodes).

(** What is not a link. *)
Definition data (x : inode) := (i_crefs x, i_flags x, i_ops x, i_private x).

Section Inv.
Context {A : Type} {HA : Kmalloc A} {HL : KmallocLaws A}.
Implicit Types st : fsst A.

(** [t] is the tree, [D] the removed trees, and [Y] the memory in use that is not
    an inode. *)
Record fs_shape st (t : itree) (D : list itree) (Y : gset Z) : Prop := {
  sh_tree : irep (inodes st) (root_inode st) t;
  sh_removed : Forall (removed (inodes st)) D;
  sh_nodup : NoDup (all_nodes t D);
  sh_dom a : is_Some (inodes st !! a) ↔ a ∈ all_nodes t D;
  sh_ordered : ordered t;
  sh_heap : k_owns (fs_heap st) (list_to_set (all_nodes t D) ∪ Y);
  sh_other a : a ∈ all_nodes t D → a ∉ Y }.

(** [R] counts the references to each inode; the removed trees that are kept are
    those whose first node is referenced. *)
Record fs_inv st (t : itree) (D : list itree) (R : Z → Z) (Y : gset Z) : Prop := {
  fi_shape : fs_shape st t D Y;
  fi_refs a x : inodes st !! a = Some x → i_crefs x = R a;
  fi_range a : 0 ≤ R a ≤ 0x7fff;
  fi_norefs a : a ∉ all_nodes t D → R a = 0;
  fi_flags a x : inodes st !! a = Some x → deleted x = bool_decide (a ∈ D ≫= top);
  fi_held a : a ∈ D ≫= top → R a ≠ 0 }.

Lemma sh_fuel st t D Y l : fs_shape st t D Y → NoDup l → l ⊆ all_nodes t D →
  (length l ≤ fs_fuel st)%nat.
Proof.
  intros Hi Hnd Hl. apply nodup_length_size; [done|]. intros x Hx. by eapply sh_dom, Hl.
Qed.

Lemma sh_nodup_tree st t D Y : fs_shape st t D Y → NoDup (nodes t).
Proof. intros Hi. pose proof (sh_nodup _ _ _ _ Hi) as Hnd. by apply NoDup_app in Hnd as [? _]. Qed.

Lemma sh_hangs st t D Y : fs_shape st t D Y →
  hangs (root_inode st) (inodes st) (slot_of 0 0) t ∧ NoDup (slot_addr (slot_of 0 0) ++ nodes t).
Proof.
  intros Hi. split; [|by eapply sh_nodup_tree]. exists (root_inode st). split; [done|by eapply sh_tree].
Qed.

(** ** inode_search *)

(** The path as names. *)
Definition path_head (path : string) : string := inode_namecpy (skip_slash path).
Definition path_tail (path : string) : list string := components (inode_nextname (skip_slash path)).

Lemma path_split path : path_names (skip_slash path) = path_head path :: path_tail path.
Proof. apply path_names_step. Qed.

Lemma search_tree st t D Y path : fs_shape st t D Y →
  match tsearch (mount_at (inodes st)) t 0 0 (path_head path) (path_tail path) with
  | (r, l, ab, rest) =>
      ∃ s, inode_search path st = Some (mk_found r l ab s (if r =? 0 then None else Some s)) ∧
        ends_at (skip_slash path) s r rest
  end.
Proof.
  intros Hi. apply search_loop_tree; [by eapply sh_tree|].
  eapply sh_fuel; [exact Hi|by eapply sh_nodup_tree|]. intros x Hx. unfold all_nodes. in_list.
Qed.

(** ** inode_free *)

Lemma set_inode_run node f st x : inode_at node st = Some x →
  set_inode node f st = Some (with_inodes (alter f node (inodes st)) st).
Proof.
  unfold inode_at, set_inode. intros E. unfold inode_at. rewrite E. cbn [mbind option_bind].
  f_equal. f_equal. apply map_eq. intros b. destruct (decide (node = b)) as [<-|Hne].
  - by rewrite lookup_insert_eq, lookup_alter_eq, E.
  - by rewrite lookup_insert_ne, lookup_alter_ne.
Qed.

(** The nodes of a tree are freed, and nothing else. *)
Lemma inode_free_run fuel v t st X :
  irep (inodes st) v t → NoDup (nodes t) → k_owns (fs_heap st) X → list_to_set (nodes t) ⊆ X →
  (length (nodes t) ≤ fuel)%nat →
  ∃ h, inode_free fuel v st =
       Some (mk_fs (fs_sem st) (root_inode st) (foldr delete (inodes st) (nodes t)) h) ∧
    k_owns h (X ∖ list_to_set (nodes t)).
Proof.
  revert fuel v st X. induction t as [|a n c IHc p IHp]; intros fuel v st X Hr Hnd HX Hsub Hf.
  { simpl in Hr. subst v. exists (fs_heap st). split; [by destruct fuel, st|].
    cbn [nodes]. by rewrite list_to_set_nil, difference_empty_L. }
  destruct Hr as (-> & Ha & x & Hx & Hn & Hc & Hp). cbn [nodes length] in *. rewrite length_app in Hf.
  apply NoDup_cons in Hnd as [Hac (Hndc & Hcp & Hndp)%NoDup_app]. rewrite elem_of_app in Hac.
  rewrite list_to_set_cons, list_to_set_app_L in Hsub.
  destruct fuel as [|fuel]; [lia|]. cbn [inode_free]. rewrite (proj2 (Z.eqb_neq a 0)) by done.
  change (inode_at a st) with (inodes st !! a). rewrite Hx. cbn [mbind option_bind].
  destruct (IHp fuel _ st X Hp Hndp HX) as (h1 & -> & HX1); [set_solver|lia|]. cbn [mbind option_bind].
  set (m1 := foldr delete (inodes st) (nodes p)).
  assert (Hkeep : ∀ b, b ∉ nodes p → m1 !! b = inodes st !! b).
  { intros b Hb. apply lookup_foldr_delete_not_elem_of, Hb. }
  unfold inode_at. cbn [inodes]. rewrite Hkeep, Hx by tauto. cbn [mbind option_bind].
  destruct (IHc fuel (i_child x) (mk_fs (fs_sem st) (root_inode st) m1 h1) (X ∖ list_to_set (nodes p)))
    as (h2 & -> & HX2); [|done|done| |lia|].
  { eapply irep_ext; [|exact Hc]. intros b Hb. cbn [inodes]. rewrite Hkeep; [done|].
    intros Hbp. by apply (Hcp b). }
  { intros b Hb. apply elem_of_difference. split; [set_solver|].
    rewrite !elem_of_list_to_set in *. by apply Hcp. }
  cbn [mbind option_bind fs_sem root_inode inodes]. unfold fs_kfree. cbn [fs_heap].
  destruct (kfree_ok a h2 _ HX2) as (h3 & -> & HX3).
  { rewrite !elem_of_difference, !elem_of_list_to_set. split_and!; [set_solver|tauto|tauto]. }
  exists h3. cbn. split.
  - f_equal. f_equal. unfold m1. rewrite foldr_app. done.
  - replace (X ∖ _) with (X ∖ list_to_set (nodes p) ∖ list_to_set (nodes c) ∖ {[a]}); [done|].
    rewrite list_to_set_app_L. set_solver.
Qed.
End Inv.
