(* ===== verification/InodeOps.v ===== *)
(** Each operation on the inodes keeps the invariant: allocating and inserting,
    removing, counting references, freeing what is no longer referenced. *)

From Stdlib Require Import Ascii.
From stdpp Require Import base numbers gmap sorting list strings.
From S2P Require Import Prelude Queue Kmalloc Sched Sem SemThms Inode InodeTree InodeRep InodeEdit.
From S2P Require Import InodeSpace InodeInv.

(** ** What stays the same in an inode *)

Definition meta (x : inode) := (data x, i_name x).
Definition meta_at (m : gmap Z inode) (a : Z) := meta <$> m !! a.

Lemma meta_some m m' a x' : meta_at m' a = meta_at m a → m' !! a = Some x' →
  ∃ x, m !! a = Some x ∧ meta x' = meta x.
Proof.
  unfold meta_at. intros E Ex. rewrite Ex in E. destruct (m !! a) as [x|]; [|done].
  exists x. split; [done|]. by apply (inj Some) in E.
Qed.

Lemma meta_deleted x x' : meta x' = meta x → deleted x' = deleted x.
Proof. unfold meta, data, deleted. by intros [= _ -> _ _ _]. Qed.
Lemma meta_crefs x x' : meta x' = meta x → i_crefs x' = i_crefs x.
Proof. unfold meta, data. by intros [= -> _ _ _ _]. Qed.

Lemma meta_alter m f a b : (∀ x, meta (f x) = meta x) → meta_at (alter f a m) b = meta_at m b.
Proof.
  intros Hf. unfold meta_at. destruct (decide (a = b)) as [<-|Hne].
  - rewrite lookup_alter_eq. destruct (m !! a); cbn; [by rewrite Hf|done].
  - by rewrite lookup_alter_ne.
Qed.

Lemma meta_wr fs v m b : meta_at (wr_map fs v m) b = meta_at m b.
Proof. destruct fs; cbn [wr_map]; [done|by apply meta_alter..]. Qed.

Lemma meta_is_some m m' a : meta_at m' a = meta_at m a → is_Some (m' !! a) ↔ is_Some (m !! a).
Proof.
  unfold meta_at. intros E. rewrite <-(fmap_is_Some meta), E. by rewrite fmap_is_Some.
Qed.

Lemma mount_meta m m' a : meta_at m' a = meta_at m a → mount_at m' a = mount_at m a.
Proof.
  unfold meta_at, mount_at. destruct (m' !! a) as [x'|], (m !! a) as [x|]; try done. cbn.
  intros [= _ E _ _ _]. unfold INODE_IS_MOUNTPT. by rewrite E.
Qed.

(** ** Trees apart *)

Lemma top_nodes d a : a ∈ top d → a ∈ nodes d.
Proof. destruct d; [done|]. intros ->%list_elem_of_singleton. apply list_elem_of_here. Qed.

Lemma tops_all t D a : a ∈ D ≫= top → a ∈ all_nodes t D.
Proof.
  intros (d & Ha & Hd)%list_elem_of_bind. apply elem_of_app. right.
  apply list_elem_of_bind. exists d. split; [by apply top_nodes|done].
Qed.

Lemma removed_frame m m' D F fs : updates F fs m m' →
  (∀ b, b ∈ D ≫= nodes → b ∉ F ∧ b ∉ slot_addr fs) → Forall (removed m) D → Forall (removed m') D.
Proof.
  intros Hu Hd. rewrite !Forall_forall. intros HD d Hin. destruct (HD d Hin) as (a & n & c & -> & Hr).
  exists a, n, c. split; [done|]. eapply updates_frame; [exact Hu| |exact Hr].
  intros b Hb. apply Hd, list_elem_of_bind. by exists (INode a n c ILeaf).
Qed.

(** The link a search from the root stops at is in the tree. *)
Lemma root_slot mnt t x xs r l ab rest b : 0 ∉ nodes t →
  tsearch mnt t 0 0 x xs = (r, l, ab, rest) → b ∈ slot_addr (slot_of l ab) → b ∈ nodes t.
Proof.
  intros H0 Hs Hb. destruct (tsearch_slot _ _ _ _ _ _ _ _ _ _ H0 Hs) as [E|(d & Hd & E)]; rewrite E in Hb.
  - by apply not_elem_of_nil in Hb.
  - by apply list_elem_of_singleton in Hb as ->.
Qed.

Section Ops.
Context {A : Type} {HA : Kmalloc A} {HL : KmallocLaws A}.
Implicit Types st : fsst A.

Lemma sh_nonnull st t D Y : fs_shape st t D Y → 0 ∉ nodes t.
Proof. intros Hi. eapply irep_nonnull, sh_tree, Hi. Qed.

Lemma sh_apart st t D Y b : fs_shape st t D Y → b ∈ nodes t → b ∉ D ≫= nodes.
Proof.
  intros Hi Hb. pose proof (sh_nodup _ _ _ _ Hi) as (_ & Hd & _)%NoDup_app. by apply Hd.
Qed.

(** ** inode_alloc and inode_insert *)

Lemma inode_insert_run node l ab st z q :
  inodes st !! node = Some z → node ∉ slot_addr (slot_of l ab) →
  rd (root_inode st) (inodes st) (slot_of l ab) = Some q →
  inode_insert node l ab st =
    Some (mk_fs (fs_sem st) (wr_root (slot_of l ab) node (root_inode st))
            (wr_map (slot_of l ab) node (<[node := with_peer q z]> (inodes st))) (fs_heap st)).
Proof.
  intros Hz Hns Hq. unfold inode_insert, slot_of in *.
  assert (Hset : set_inode node (with_peer q) st =
                 Some (with_inodes (<[node := with_peer q z]> (inodes st)) st)).
  { unfold set_inode, inode_at. by rewrite Hz. }
  destruct (negb (l =? 0)) eqn:El; [|destruct (negb (ab =? 0)) eqn:Eab]; cbn [rd slot_addr] in *.
  - apply fmap_Some in Hq as (y & Hy & ->). unfold inode_at. rewrite Hy. cbn [mbind option_bind].
    rewrite Hset. cbn [mbind option_bind]. apply not_elem_of_cons in Hns as [Hne _].
    erewrite set_inode_run; [done|]. unfold inode_at. cbn. rewrite lookup_insert_ne by done. exact Hy.
  - apply fmap_Some in Hq as (y & Hy & ->). unfold inode_at. rewrite Hy. cbn [mbind option_bind].
    rewrite Hset. cbn [mbind option_bind]. apply not_elem_of_cons in Hns as [Hne _].
    erewrite set_inode_run; [done|]. unfold inode_at. cbn. rewrite lookup_insert_ne by done. exact Hy.
  - injection Hq as <-. rewrite Hset. done.
Qed.

(** A new inode, as kzalloc and inode_namecpy leave it. *)
Definition new_inode (name : string) : inode := mk_inode 0 0 0 0 0 0 (inode_namecpy name).

Lemma namelen_bound name : 0 ≤ inode_namelen name ≤ Z.of_nat (String.length name).
Proof. induction name as [|c s IH]; simpl; [lia|]. destruct (is_slash c); lia. Qed.

(** Names short enough for the size of an inode. *)
Definition short (name : string) : Prop := Z.of_nat (String.length name) + 47 < 2 ^ 32.

Lemma inode_alloc_run st t D Y name : fs_shape st t D Y → short name →
  inode_alloc name st = Some (0, st) ∨
  ∃ node h, inode_alloc name st =
              Some (node, with_inodes (<[node := new_inode name]> (inodes st)) (with_heap h st)) ∧
    node ≠ 0 ∧ node ∉ all_nodes t D ∧ node ∉ Y ∧
    k_owns h (list_to_set (node :: all_nodes t D) ∪ Y).
Proof.
  intros Hi Hs. unfold inode_alloc.
  destruct (kzalloc_ok (FSNODE_SIZE (inode_namelen name)) _ _ (sh_heap _ _ _ _ Hi)) as (p & h & -> & Hp).
  { pose proof (namelen_bound name). unfold request, FSNODE_SIZE, short in *. lia. }
  cbn [mbind option_bind]. destruct Hp as [[-> ->]|(Hp & Hn & Ho)].
  - left. cbn. by destruct st.
  - right. exists p, h. rewrite (proj2 (Z.eqb_neq p 0)) by done. cbn [negb].
    apply not_elem_of_union in Hn as [Hn HY]. rewrite elem_of_list_to_set in Hn.
    split_and!; try done. rewrite list_to_set_cons. by rewrite <-(assoc_L (∪)).
Qed.

Section Graft.
Context (st : fsst A) (t : itree) (D : list itree) (Y : gset Z).
Context (x : string) (xs : list string) (l ab : Z) (ys : list string) (node : Z) (z : inode) (h : A).
Hypothesis Hsh : fs_shape st t D Y.
Hypothesis Hn : node ∉ all_nodes t D.
Hypothesis Hs : tsearch (mount_at (inodes st)) t 0 0 x xs = (0, l, ab, i_name z :: ys).

(** The state after the node [z] was put at [node]. *)
Let m' := wr_map (slot_of l ab) node (<[node := z]> (inodes st)).
Let st' := mk_fs (fs_sem st) (wr_root (slot_of l ab) node (root_inode st)) m' h.

Lemma graft_slot b : b ∈ slot_addr (slot_of l ab) → b ∈ nodes t.
Proof using Hsh Hs. eapply root_slot; [by eapply sh_nonnull|exact Hs]. Qed.

Lemma graft_meta b : b ≠ node → meta_at m' b = meta_at (inodes st) b.
Proof using. intros Hb. unfold m'. rewrite meta_wr. unfold meta_at. by rewrite lookup_insert_ne. Qed.

Lemma graft_new : m' !! node = Some z.
Proof using Hsh Hs Hn.
  unfold m'. rewrite wr_map_lookup; [apply lookup_insert_eq|].
  intros ?%graft_slot. apply Hn. unfold all_nodes. in_list.
Qed.

Lemma graft_all_nodes : all_nodes (tgraft t x xs node) D ≡ₚ node :: all_nodes t D.
Proof using Hsh Hs. unfold all_nodes. by rewrite (graft_nodes _ _ _ _ _ _ _ _ _ _ (sh_nonnull _ _ _ _ Hsh) Hs). Qed.

Lemma fs_shape_graft :
  node ≠ 0 → node ∉ Y → k_owns h (list_to_set (node :: all_nodes t D) ∪ Y) →
  rd (root_inode st) (inodes st) (slot_of l ab) = Some (i_peer z) → i_child z = 0 →
  fs_shape st' (tgraft t x xs node) D Y.
Proof using Hsh Hs Hn.
  intros Hn0 HnY Hown Hq Hchild. destruct (sh_hangs _ _ _ _ Hsh) as [Hh Hnd].
  assert (Hnt : node ∉ nodes t) by (intros ?; apply Hn; unfold all_nodes; in_list).
  destruct (graft_hangs _ _ _ _ _ _ _ _ _ _ _ node z Hh Hn0 Hnt Hnd Hs Hchild Hq) as (v & Hv & Hr).
  injection Hv as <-. constructor; cbn [inodes root_inode fs_heap st'].
  - exact Hr.
  - eapply removed_frame; [apply updates_wr| |by eapply sh_removed]; [by intros ?%graft_slot|].
    intros b Hb. split; [intros ->%list_elem_of_singleton; apply Hn; unfold all_nodes; in_list|].
    intros ?%graft_slot. by eapply sh_apart.
  - rewrite graft_all_nodes. apply NoDup_cons. split; [done|by eapply sh_nodup].
  - intros a. rewrite graft_all_nodes, elem_of_cons.
    destruct (decide (a = node)) as [->|Ha]; [rewrite graft_new; naive_solver|].
    rewrite (meta_is_some _ _ _ (graft_meta a Ha)), (sh_dom _ _ _ _ Hsh). tauto.
  - by eapply graft_ordered, sh_ordered.
  - by rewrite graft_all_nodes.
  - intros a. rewrite graft_all_nodes. intros [->|Ha]%elem_of_cons; [done|]. by eapply sh_other.
Qed.

Lemma fs_inv_graft R : fs_inv st t D R Y → fs_shape st' (tgraft t x xs node) D Y →
  i_crefs z = 0 → i_flags z = 0 → fs_inv st' (tgraft t x xs node) D R Y.
Proof using Hsh Hs Hn.
  intros Hi Hsh' Hcrefs Hflags. constructor; [exact Hsh'|..]; cbn [inodes st'].
  - intros a x' Ea. destruct (decide (a = node)) as [->|Ha].
    + rewrite graft_new in Ea. injection Ea as <-. rewrite Hcrefs. symmetry. by eapply fi_norefs.
    + destruct (meta_some _ _ _ _ (graft_meta a Ha) Ea) as (x0 & Ex & E). rewrite (meta_crefs _ _ E). by eapply fi_refs.
  - eapply fi_range, Hi.
  - intros a. rewrite graft_all_nodes, not_elem_of_cons. intros [_ Ha]. by eapply fi_norefs.
  - intros a x' Ea. destruct (decide (a = node)) as [->|Ha].
    + rewrite graft_new in Ea. injection Ea as <-. unfold deleted. rewrite Hflags. cbn. symmetry.
      apply bool_decide_eq_false. by intros ?%(tops_all t).
    + destruct (meta_some _ _ _ _ (graft_meta a Ha) Ea) as (x0 & Ex & E). rewrite (meta_deleted _ _ E). by eapply fi_flags.
  - eapply fi_held, Hi.
Qed.
End Graft.

(** ** inode_reserve *)

(** One node for the next name of the path, when there is memory. *)
Lemma reserve_step st t D R Y x xs l ab name :
  fs_inv st t D R Y → short name →
  tsearch (mount_at (inodes st)) t 0 0 x xs = (0, l, ab, path_names name) →
  inode_alloc name st = Some (0, st) ∨
  ∃ node st1 st2, inode_alloc name st = Some (node, st1) ∧ node ≠ 0 ∧ node ∉ all_nodes t D ∧
    inode_insert node l ab st1 = Some st2 ∧ fs_inv st2 (tgraft t x xs node) D R Y ∧
    fs_sem st2 = fs_sem st ∧ (∀ b, b ≠ node → meta_at (inodes st2) b = meta_at (inodes st) b) ∧
    ∃ z, inodes st2 !! node = Some z ∧ data z = (0, 0, 0, 0) ∧ i_child z = 0.
Proof.
  intros Hi Hs Ht. pose proof (fi_shape _ _ _ _ _ Hi) as Hsh.
  destruct (inode_alloc_run _ _ _ _ _ Hsh Hs) as [E|(node & h & E & H0 & Hn & HY & Ho)];
    [by left|right].
  pose proof (sh_nonnull _ _ _ _ Hsh) as H0t.
  assert (Hsl : ∀ b, b ∈ slot_addr (slot_of l ab) → b ∈ nodes t) by (intros b; by eapply root_slot).
  assert (Hns : node ∉ slot_addr (slot_of l ab)).
  { intros ?%Hsl. apply Hn. unfold all_nodes. in_list. }
  assert (Hq : ∃ q, rd (root_inode st) (inodes st) (slot_of l ab) = Some q).
  { destruct (slot_of l ab) as [|b|b]; [by eexists|..]; cbn [rd];
      (destruct (irep_lookup _ _ _ b (sh_tree _ _ _ _ Hsh)) as [y ->]; [apply Hsl, list_elem_of_here|by eexists]). }
  destruct Hq as [q Hq]. rewrite path_names_step in Ht.
  pose proof (inode_insert_run node l ab (with_inodes (<[node := new_inode name]> (inodes st)) (with_heap h st))
                (new_inode name) q) as Ein.
  eexists node, _, _. split; [exact E|]. split; [done|]. split; [done|].
  split; [apply Ein; cbn; [apply lookup_insert_eq|done|by rewrite rd_insert]|]. split_and!; [|done|..].
  - cbn. rewrite insert_insert_eq.
    change (inode_namecpy name) with (i_name (with_peer q (new_inode name))) in Ht.
    eapply fs_inv_graft; [exact Hsh|exact Hn|exact Ht|exact Hi| |done|done].
    by apply (fs_shape_graft _ _ _ _ _ _ _ _ _ _ _ _ Hsh Hn Ht).
  - intros b Hb. cbn. rewrite insert_insert_eq, meta_wr. unfold meta_at. by rewrite lookup_insert_ne.
  - exists (with_peer q (new_inode name)). split; [|done].
    cbn. rewrite insert_insert_eq, wr_map_lookup by done. apply lookup_insert_eq.
Qed.

(** What the loop that creates the nodes of a path does. *)
Record reserved st t D R Y cs (ret node : Z) st' t' : Prop := {
  rs_inv : fs_inv st' t' D R Y;
  rs_sem : fs_sem st' = fs_sem st;
  rs_extends : extends t t' cs;
  rs_meta b : b ∈ all_nodes t D → meta_at (inodes st') b = meta_at (inodes st) b;
  rs_new b z : b ∉ all_nodes t D → inodes st' !! b = Some z → data z = (0, 0, 0, 0);
  rs_result : (ret = 0 ∧ find t' cs = Some node ∧ node ∉ all_nodes t D ∧
               ∃ z, inodes st' !! node = Some z ∧ data z = (0, 0, 0, 0) ∧ i_child z = 0) ∨
              (ret = - ENOMEM ∧ node = 0 ∧ find t' cs = None) }.

Lemma reserve_loop_run fuel st t D R Y x xs l ab name :
  (String.length name < fuel)%nat → fs_inv st t D R Y → short name →
  tsearch (mount_at (inodes st)) t 0 0 x xs = (0, l, ab, path_names name) →
  ∃ ret node st' t', reserve_loop fuel name l ab st = Some (ret, node, st') ∧
    reserved st t D R Y (x :: xs) ret node st' t'.
Proof.
  revert st t l ab name. induction fuel as [|fuel IH]; intros st t l ab name Hf Hi Hs Ht; [lia|].
  pose proof (fi_shape _ _ _ _ _ Hi) as Hsh.
  pose proof (sh_nonnull _ _ _ _ Hsh) as H0t. pose proof (sh_ordered _ _ _ _ Hsh) as Ho.
  pose proof (tsearch_none _ _ _ _ _ _ _ _ _ Ho H0t Ht) as Hnone.
  cbn [reserve_loop]. rewrite at_end_components.
  destruct (reserve_step _ _ _ _ _ _ _ _ _ _ Hi Hs Ht) as [->|Hstep].
  { exists (- ENOMEM), 0, st, t. split; [by case_bool_decide|].
    constructor; [done|done|apply extends_refl|done| |by right].
    intros b z Hb Hz. exfalso. apply Hb, (sh_dom _ _ _ _ Hsh). by exists z. }
  destruct Hstep as (node & st1 & st2 & -> & Hn0 & Hn & E2 & Hi2 & Hsem & Hmeta & z & Hz & Hd & Hc).
  cbn [mbind option_bind]. rewrite (proj2 (Z.eqb_neq node 0)) by done. cbn [negb].
  rewrite E2. cbn [mbind option_bind]. rewrite path_names_step in Ht.
  pose proof (graft_all_nodes _ _ _ _ _ _ _ _ _ node (new_inode name) Hsh Ht) as Hp.
  assert (Hnt : node ∉ nodes t) by (intros ?; apply Hn; unfold all_nodes; in_list).
  assert (Hold : ∀ b, b ∈ all_nodes t D → meta_at (inodes st2) b = meta_at (inodes st) b).
  { intros b Hb. apply Hmeta. by intros ->. }
  pose proof (graft_extends _ _ _ _ _ _ _ _ _ _ node Ho H0t Hnt Ht) as Hext.
  destruct (components (inode_nextname name)) as [|y ys] eqn:Ec.
  - rewrite bool_decide_true by done. exists 0, node, st2, (tgraft t x xs node). split; [done|].
    constructor; [done|done|done|done| |].
    { intros b zb Hb Hzb. destruct (decide (b = node)) as [->|Hne]; [congruence|].
      exfalso. assert (Hin : is_Some (inodes st2 !! b)) by by exists zb.
      apply (sh_dom _ _ _ _ (fi_shape _ _ _ _ _ Hi2)) in Hin. rewrite Hp in Hin. in_list. }
    left. split_and!; [done| |done|by exists z].
    destruct (graft_find _ _ _ _ _ _ _ _ _ _ node Ho H0t Ht) as (pre & E & _ & Hfind).
    rewrite E, Hfind. by apply decide_True.
  - rewrite bool_decide_false by done. cbn [negb].
    assert (Hne : inode_nextname name ≠ EmptyString) by (intros E; by rewrite E in Ec).
    pose proof (nextname_length name) as Hlen.
    assert (Hlt : (String.length (inode_nextname name) < String.length name)%nat).
    { apply nextname_shorter. intros ->. done. }
    rewrite components_path in Ec by done.
    destruct (IH st2 (tgraft t x xs node) 0 node (inode_nextname name)) as (ret & nd & st' & t' & E & Hr);
      [lia|done|unfold short in *; lia| |].
    { rewrite Ec. refine (graft_search (mount_at (inodes st)) _ t 0 0 x xs l ab (inode_namecpy name) (y :: ys)
                            node H0t Hn0 _ _ Ht).
      - unfold mount_at. rewrite Hz. unfold INODE_IS_MOUNTPT. by injection Hd as _ -> _ _.
      - intros b Hb. apply mount_meta, Hold. unfold all_nodes. in_list. }
    exists ret, nd, st', t'. split; [done|]. destruct Hr as [R1 R2 R3 R4 Rn R5].
    constructor; [done|congruence| | | |].
    + eapply extends_trans; [|exact Hext|exact R3]. intros b Hb.
      rewrite (graft_nodes _ _ _ _ _ _ _ _ _ _ H0t Ht). in_list.
    + intros b Hb. rewrite R4 by (rewrite Hp; in_list). by apply Hold.
    + intros b zb Hb Hzb. destruct (decide (b = node)) as [->|Hbn].
      * assert (Hnn : node ∈ all_nodes (tgraft t x xs node) D) by (rewrite Hp; in_list).
        destruct (meta_some _ _ _ _ (R4 _ Hnn) Hzb) as (z' & Hz' & E'). rewrite Hz in Hz'. injection Hz' as <-.
        injection E'. intros. unfold data in *. congruence.
      * apply (Rn b); [|done]. rewrite Hp. in_list.
    + destruct R5 as [(-> & Hfd & Hnn & Hzz)|R5]; [left|by right]. split_and!; try done.
      rewrite Hp in Hnn. intros ?. apply Hnn. in_list.
Qed.
End Ops.

(** Removing inodes: unlinking, marking as deleted, freeing; and counting
    references. *)

Section Drop.
Context {A : Type} {HA : Kmalloc A} {HL : KmallocLaws A}.
Implicit Types st : fsst A.

(** ** inode_unlink *)

Lemma inode_unlink_run node l ab st z v : inodes st !! node = Some z →
  rd (root_inode st) (inodes st) (slot_of l ab) = Some v → node ∉ slot_addr (slot_of l ab) →
  inode_unlink node l ab st =
    Some (mk_fs (fs_sem st) (wr_root (slot_of l ab) (i_peer z) (root_inode st))
            (unlinked (slot_of l ab) node z (inodes st)) (fs_heap st)).
Proof.
  intros Hz Hv Hns. unfold inode_unlink, inode_at. rewrite Hz. cbn [mbind option_bind].
  assert (Hlast : ∀ st', inodes st' !! node = Some z →
    set_inode node (with_peer 0) st' = Some (with_inodes (<[node := with_peer 0 z]> (inodes st')) st')).
  { intros st' E. unfold set_inode, inode_at. by rewrite E. }
  unfold slot_of in *.
  destruct (negb (l =? 0)) eqn:El; [|destruct (negb (ab =? 0)) eqn:Eab]; cbn [rd slot_addr] in *.
  - apply not_elem_of_cons in Hns as [Hne _]. apply fmap_Some in Hv as (y & Hy & _).
    rewrite (set_inode_run _ _ _ _ Hy). cbn [mbind option_bind]. apply Hlast. cbn.
    by rewrite lookup_alter_ne.
  - apply not_elem_of_cons in Hns as [Hne _]. apply fmap_Some in Hv as (y & Hy & _).
    rewrite (set_inode_run _ _ _ _ Hy). cbn [mbind option_bind]. apply Hlast. cbn.
    by rewrite lookup_alter_ne.
  - cbn [mbind option_bind]. by apply Hlast.
Qed.

Section Unlink.
Context (st : fsst A) (t : itree) (D : list itree) (Y : gset Z).
Context (x : string) (xs : list string) (r l ab : Z) (rest : list string) (z : inode).
Hypothesis Hsh : fs_shape st t D Y.
Hypothesis Hs : tsearch (mount_at (inodes st)) t 0 0 x xs = (r, l, ab, rest).
Hypothesis Hr : r ≠ 0.
Hypothesis Hz : inodes st !! r = Some z.

Let mnt := mount_at (inodes st).
Let st' := mk_fs (fs_sem st) (wr_root (slot_of l ab) (i_peer z) (root_inode st))
             (unlinked (slot_of l ab) r z (inodes st)) (fs_heap st).

(** The removed tree. *)
Let d := INode r (i_name z) (tsub mnt t x xs) ILeaf.

Lemma unlink_slot : r ∉ slot_addr (slot_of l ab).
Proof using Hsh Hs Hr.
  eapply tsearch_slot_ne; [by eapply sh_nonnull| |exact Hs|exact Hr].
  by destruct (sh_hangs _ _ _ _ Hsh).
Qed.

Lemma unlink_nodes : all_nodes (tprune mnt t x xs) (d :: D) ≡ₚ all_nodes t D.
Proof using Hsh Hs Hr.
  unfold all_nodes. rewrite (prune_nodes _ _ _ _ _ _ _ _ _ _ (sh_nonnull _ _ _ _ Hsh) Hs Hr).
  fold mnt. cbn. rewrite app_nil_r. solve_Permutation.
Qed.

Lemma unlink_node : r ∈ nodes t.
Proof using Hsh Hs Hr.
  rewrite (prune_nodes _ _ _ _ _ _ _ _ _ _ (sh_nonnull _ _ _ _ Hsh) Hs Hr). in_list.
Qed.

Lemma unlink_meta b : meta_at (inodes st') b = meta_at (inodes st) b.
Proof using Hz.
  cbn [st' inodes]. unfold unlinked, meta_at. destruct (decide (b = r)) as [->|Hb].
  - by rewrite lookup_insert_eq, Hz.
  - rewrite lookup_insert_ne by done. apply meta_wr.
Qed.

Lemma fs_shape_unlink : fs_shape st' (tprune mnt t x xs) (d :: D) Y.
Proof using Hsh Hs Hr Hz.
  destruct (sh_hangs _ _ _ _ Hsh) as [Hh Hnd].
  destruct (prune_hangs _ _ _ _ _ _ _ _ _ _ _ _ _ Hh Hnd Hs Hr Hz) as [(v & Hv & Hp) Hd].
  injection Hv as <-. constructor; cbn [st' inodes root_inode fs_heap].
  - exact Hp.
  - constructor; [by eexists _, _, _|].
    eapply removed_frame; [by apply updates_unlinked, unlink_slot| |by eapply sh_removed].
    intros b Hb. split.
    + intros ->%list_elem_of_singleton. exact (sh_apart _ _ _ _ r Hsh unlink_node Hb).
    + intros Hbs. eapply (sh_apart _ _ _ _ b Hsh); [|exact Hb].
      eapply root_slot; [by eapply sh_nonnull|exact Hs|exact Hbs].
  - rewrite unlink_nodes. by eapply sh_nodup.
  - intros a. rewrite unlink_nodes, <-(sh_dom _ _ _ _ Hsh). apply meta_is_some, unlink_meta.
  - by eapply prune_ordered, sh_ordered.
  - rewrite unlink_nodes. by eapply sh_heap.
  - intros a. rewrite unlink_nodes. by eapply sh_other.
Qed.
End Unlink.

(** ** A change of what is not a link *)

Lemma fs_shape_data st m t D Y : fs_shape st t D Y →
  (∀ b, links <$> m !! b = links <$> inodes st !! b) → fs_shape (with_inodes m st) t D Y.
Proof.
  intros Hsh Hm. destruct Hsh as [S1 S2 S3 S4 S5 S6 S7]. constructor; cbn; try done.
  - eapply irep_ext; [|exact S1]. auto.
  - rewrite Forall_forall in S2 |- *. intros d Hd. destruct (S2 d Hd) as (a & n & c & -> & Hr).
    exists a, n, c. split; [done|]. eapply irep_ext; [|exact Hr]. auto.
  - intros a. rewrite <-S4, <-(fmap_is_Some links), Hm. apply fmap_is_Some.
Qed.

Lemma links_alter (m : gmap Z inode) f a b : (∀ x, links (f x) = links x) → links <$> alter f a m !! b = links <$> m !! b.
Proof.
  intros Hf. destruct (decide (a = b)) as [<-|Hne].
  - rewrite lookup_alter_eq. destruct (m !! a); cbn; [by rewrite Hf|done].
  - by rewrite lookup_alter_ne.
Qed.

(** ** Freeing a removed tree *)

Lemma top_in d D : d ∈ D → top d ⊆ D ≫= top.
Proof. intros Hd a Ha. apply list_elem_of_bind. by exists d. Qed.

Lemma removed_nodes t a n c D1 D2 :
  all_nodes t (D1 ++ INode a n c ILeaf :: D2) ≡ₚ (a :: nodes c) ++ all_nodes t (D1 ++ D2).
Proof. unfold all_nodes. rewrite !bind_app, bind_cons. cbn [nodes]. rewrite app_nil_r. solve_Permutation. Qed.

(** The end of [inode_remove] and of [inode_release]. *)
Lemma free_removed st t a n c D1 D2 Y x :
  fs_shape st t (D1 ++ INode a n c ILeaf :: D2) Y → inodes st !! a = Some x →
  ∃ st1 st2, inode_free (fs_fuel st) (i_child x) st = Some st1 ∧ fs_kfree a st1 = Some st2 ∧
    fs_shape st2 t (D1 ++ D2) Y ∧ fs_sem st2 = fs_sem st ∧
    ∀ b, inodes st2 !! b = if decide (b = a ∨ b ∈ nodes c) then None else inodes st !! b.
Proof.
  intros Hsh Hx. set (d := INode a n c ILeaf) in *.
  pose proof (removed_nodes t a n c D1 D2) as Hp. fold d in Hp.
  assert (Hd : removed (inodes st) d).
  { pose proof (sh_removed _ _ _ _ Hsh) as HD. rewrite Forall_forall in HD. apply HD. in_list. }
  destruct Hd as (a' & n' & c' & E & Hd). unfold d in E. injection E as <- <- <-.
  destruct Hd as (_ & Ha & x' & Hx' & _ & Hc & _).
  rewrite Hx in Hx'. injection Hx' as <-.
  pose proof (sh_nodup _ _ _ _ Hsh) as Hnd. rewrite Hp in Hnd. cbn [app] in Hnd.
  apply NoDup_cons in Hnd as [Hac (Hndc & Hcr & Hndr)%NoDup_app]. rewrite elem_of_app in Hac.
  destruct (inode_free_run (fs_fuel st) (i_child x) c st _ Hc Hndc (sh_heap _ _ _ _ Hsh)) as (h1 & E1 & Ho1).
  { intros b Hb. apply elem_of_union_l, elem_of_list_to_set. rewrite Hp. apply elem_of_list_to_set in Hb. in_list. }
  { eapply sh_fuel; [exact Hsh|done|]. intros b Hb. rewrite Hp. in_list. }
  rewrite E1. destruct (kfree_ok a h1 _ Ho1) as (h2 & E2 & Ho2).
  { apply elem_of_difference. split; [|rewrite elem_of_list_to_set; tauto].
    apply elem_of_union_l, elem_of_list_to_set. rewrite Hp. in_list. }
  eexists _, _. split; [done|]. unfold fs_kfree. cbn [fs_heap]. rewrite E2. cbn [mbind option_bind].
  split; [done|].
  assert (Hm : ∀ b, delete a (foldr delete (inodes st) (nodes c)) !! b =
                    if decide (b = a ∨ b ∈ nodes c) then None else inodes st !! b).
  { intros b. destruct (decide (b = a)) as [->|Hb].
    - rewrite decide_True by tauto. apply lookup_delete_eq.
    - rewrite lookup_delete_ne by done. destruct (decide (b ∈ nodes c)) as [Hbc|Hbc].
      + rewrite decide_True by tauto. by apply lookup_foldr_delete.
      + rewrite decide_False by tauto. by apply lookup_foldr_delete_not_elem_of. }
  assert (Hkeep : ∀ b, b ∈ all_nodes t (D1 ++ D2) → delete a (foldr delete (inodes st) (nodes c)) !! b = inodes st !! b).
  { intros b Hb. rewrite Hm, decide_False; [done|]. intros [->|Hbc]; [tauto|by apply (Hcr b)]. }
  split_and!; [|done|exact Hm].
  destruct Hsh as [S1 S2 S3 S4 S5 S6 S7]. constructor; cbn [inodes root_inode fs_heap].
  - eapply irep_ext; [|exact S1]. intros b Hb. f_equal. apply Hkeep. unfold all_nodes. in_list.
  - rewrite Forall_forall in S2 |- *. intros e He. destruct (S2 e) as (a' & n' & c' & -> & Hr); [in_list|].
    exists a', n', c'. split; [done|]. eapply irep_ext; [|exact Hr]. intros b Hb. f_equal. apply Hkeep.
    apply elem_of_app. right. apply list_elem_of_bind. by exists (INode a' n' c' ILeaf).
  - done.
  - intros b. rewrite Hm. destruct (decide _) as [Hb|Hb].
    + split; [by intros []|]. intros Hin. exfalso. destruct Hb as [->|Hbc]; [tauto|by apply (Hcr b)].
    + rewrite S4, Hp. in_list.
  - done.
  - replace (list_to_set (all_nodes t (D1 ++ D2)) ∪ Y)
      with ((list_to_set (all_nodes t (D1 ++ d :: D2)) ∪ Y) ∖ list_to_set (nodes c) ∖ {[a]}); [done|].
    apply leibniz_equiv. intros b. rewrite !elem_of_difference, !elem_of_union, !elem_of_list_to_set, Hp,
      elem_of_singleton. cbn [app]. rewrite elem_of_cons, elem_of_app.
    assert (HY : b = a ∨ b ∈ nodes c → b ∉ Y).
    { intros Hb. apply S7. rewrite Hp. cbn [app]. rewrite elem_of_cons, elem_of_app. tauto. }
    split; [tauto|]. intros [Hb|Hb]; [|tauto].
    split; [split; [tauto|]|]; [by intros ?; apply (Hcr b)|intros ->; tauto].
  - intros b Hb. apply S7. rewrite Hp. in_list.
Qed.

(** ** inode_remove *)

Lemma all_nodes_nil t D a : a ∈ nodes t → a ∈ all_nodes t D.
Proof. unfold all_nodes. in_list. Qed.

(** What unlinking the node that the search found leaves. *)
Lemma unlink_found st t D Y x xs r l ab rest : fs_shape st t D Y →
  tsearch (mount_at (inodes st)) t 0 0 x xs = (r, l, ab, rest) → r ≠ 0 →
  ∃ z st1, inode_unlink r l ab st = Some st1 ∧ fs_sem st1 = fs_sem st ∧ inodes st !! r = Some z ∧
    inodes st1 !! r = Some (with_peer 0 z) ∧
    (∀ b, meta_at (inodes st1) b = meta_at (inodes st) b) ∧
    all_nodes (tprune (mount_at (inodes st)) t x xs)
      (INode r (i_name z) (tsub (mount_at (inodes st)) t x xs) ILeaf :: D) ≡ₚ all_nodes t D ∧
    fs_shape st1 (tprune (mount_at (inodes st)) t x xs)
      (INode r (i_name z) (tsub (mount_at (inodes st)) t x xs) ILeaf :: D) Y.
Proof.
  intros Hsh Hs Hr. pose proof (unlink_node _ _ _ _ _ _ _ _ _ _ Hsh Hs Hr) as Hrt.
  destruct (proj2 (sh_dom _ _ _ _ Hsh r) (all_nodes_nil _ _ _ Hrt)) as [z Hz].
  pose proof (unlink_slot _ _ _ _ _ _ _ _ _ _ Hsh Hs Hr) as Hns.
  assert (Hv : is_Some (rd (root_inode st) (inodes st) (slot_of l ab))).
  { destruct (slot_of l ab) as [|b|b] eqn:Eb; [by eexists|..]; cbn [rd];
      (destruct (irep_lookup _ _ _ b (sh_tree _ _ _ _ Hsh)) as [y ->]; [|by eexists]);
      (eapply root_slot; [by eapply sh_nonnull|exact Hs|rewrite Eb; apply list_elem_of_here]). }
  destruct Hv as [v Hv]. exists z. eexists. split; [exact (inode_unlink_run _ _ _ _ _ _ Hz Hv Hns)|].
  split_and!; [done|done|apply lookup_insert_eq|apply (unlink_meta _ _ _ _ _ Hz)| |].
  - by eapply unlink_nodes.
  - exact (fs_shape_unlink _ _ _ _ _ _ _ _ _ _ _ Hsh Hs Hr Hz).
Qed.

(** The node at the path, once it is known. *)
Lemma remove_found st t D Y path r l ab rest : fs_shape st t D Y → not_absolute path = false →
  tsearch (mount_at (inodes st)) t 0 0 (path_head path) (path_tail path) = (r, l, ab, rest) →
  inode_remove path st =
    if negb (r =? 0) then
      st ← inode_unlink r l ab st;
      x ← inode_at r st;
      if negb (i_crefs x =? 0) then
        st ← set_inode r (λ x, with_flags (Z.lor (i_flags x) FSNODEFLAG_DELETED) x) st;
        Some (- EBUSY, st)
      else
        st ← inode_free (fs_fuel st) (i_child x) st;
        st ← fs_kfree r st;
        Some (0, st)
    else Some (- ENOENT, st).
Proof.
  intros Hsh Habs Hs. pose proof (search_tree _ _ _ _ path Hsh) as Hse. rewrite Hs in Hse.
  destruct Hse as (s & Hse & _). unfold inode_remove. by rewrite Habs, Hse.
Qed.

(** A node with references is kept aside, marked as deleted. *)
Lemma remove_busy st t D R Y path r l ab rest :
  fs_inv st t D R Y → not_absolute path = false →
  tsearch (mount_at (inodes st)) t 0 0 (path_head path) (path_tail path) = (r, l, ab, rest) →
  r ≠ 0 → R r ≠ 0 →
  ∃ st' n, inode_remove path st = Some (- EBUSY, st') ∧ fs_sem st' = fs_sem st ∧
    fs_inv st' (tprune (mount_at (inodes st)) t (path_head path) (path_tail path))
      (INode r n (tsub (mount_at (inodes st)) t (path_head path) (path_tail path)) ILeaf :: D) R Y ∧
    (∀ b, b ≠ r → meta_at (inodes st') b = meta_at (inodes st) b) ∧
    ∃ z, inodes st !! r = Some z ∧
      inodes st' !! r = Some (with_flags (Z.lor (i_flags z) FSNODEFLAG_DELETED) (with_peer 0 z)).
Proof.
  intros Hi Habs Hs Hr HR. pose proof (fi_shape _ _ _ _ _ Hi) as Hsh.
  rewrite (remove_found _ _ _ _ _ _ _ _ _ Hsh Habs Hs), (proj2 (Z.eqb_neq r 0)) by done. cbn [negb].
  destruct (unlink_found _ _ _ _ _ _ _ _ _ _ Hsh Hs Hr) as (z & st1 & -> & Esem & Hz & Hz1 & Hm1 & Hp & Hsh1).
  cbn [mbind option_bind]. change (inode_at r st1) with (inodes st1 !! r). rewrite Hz1.
  cbn [mbind option_bind with_peer i_crefs].
  rewrite (fi_refs _ _ _ _ _ Hi _ _ Hz), (proj2 (Z.eqb_neq (R r) 0)) by done. cbn [negb].
  rewrite (set_inode_run _ _ _ _ Hz1). cbn [mbind option_bind].
  eexists _, (i_name z). split; [done|]. split; [done|].
  set (f := λ x : inode, with_flags (Z.lor (i_flags x) FSNODEFLAG_DELETED) x).
  assert (Hm : ∀ b, b ≠ r → meta_at (alter f r (inodes st1)) b = meta_at (inodes st) b).
  { intros b Hb. rewrite <-Hm1. unfold meta_at. by rewrite lookup_alter_ne. }
  assert (Hfr : alter f r (inodes st1) !! r = Some (f (with_peer 0 z))) by (by rewrite lookup_alter_eq, Hz1).
  split; [|split; [exact Hm|by exists z]]. constructor; cbn [with_inodes inodes].
  - apply fs_shape_data; [exact Hsh1|]. intros b. by apply links_alter.
  - intros b y Hy. destruct (decide (b = r)) as [->|Hb].
    + rewrite Hfr in Hy. injection Hy as <-. by apply (fi_refs _ _ _ _ _ Hi r z).
    + destruct (meta_some _ _ _ _ (Hm b Hb) Hy) as (y0 & Ey & E). rewrite (meta_crefs _ _ E). by eapply fi_refs.
  - eapply fi_range, Hi.
  - intros b. rewrite Hp. by eapply fi_norefs.
  - intros b y Hy. cbn [mbind list_bind top app]. destruct (decide (b = r)) as [->|Hb].
    + rewrite Hfr in Hy. injection Hy as <-. rewrite bool_decide_true by in_list.
      unfold f. rewrite deleted_flags, Z.lor_spec. apply orb_true_r.
    + destruct (meta_some _ _ _ _ (Hm b Hb) Hy) as (y0 & Ey & E). rewrite (meta_deleted _ _ E).
      rewrite (fi_flags _ _ _ _ _ Hi _ _ Ey). apply bool_decide_ext. in_list.
  - intros b. cbn [mbind list_bind top app]. intros [->|Hb]%elem_of_cons; [done|]. by eapply fi_held.
Qed.

(** Freeing a removed tree of which nothing is referenced. *)
Lemma free_removed_inv st t a n c D1 D2 R Y x :
  fs_shape st t (D1 ++ INode a n c ILeaf :: D2) Y → inodes st !! a = Some x →
  (∀ b y, b ≠ a → b ∉ nodes c → inodes st !! b = Some y →
     i_crefs y = R b ∧ deleted y = bool_decide (b ∈ (D1 ++ D2) ≫= top)) →
  (∀ b, 0 ≤ R b ≤ 0x7fff) → (∀ b, b ∉ all_nodes t (D1 ++ D2) → R b = 0) →
  (∀ b, b ∈ (D1 ++ D2) ≫= top → R b ≠ 0) →
  ∃ st1 st2, inode_free (fs_fuel st) (i_child x) st = Some st1 ∧ fs_kfree a st1 = Some st2 ∧
    fs_inv st2 t (D1 ++ D2) R Y ∧ fs_sem st2 = fs_sem st ∧
    ∀ b, inodes st2 !! b = if decide (b = a ∨ b ∈ nodes c) then None else inodes st !! b.
Proof.
  intros Hsh Hx Hdata Hrange Hno Hheld.
  destruct (free_removed _ _ _ _ _ _ _ _ _ Hsh Hx) as (st1 & st2 & E1 & E2 & Hsh2 & Hsem & Hl).
  exists st1, st2. split_and!; try done.
  assert (Hin : ∀ b y, inodes st2 !! b = Some y → b ≠ a ∧ b ∉ nodes c ∧ inodes st !! b = Some y).
  { intros b y. rewrite Hl. destruct (decide _) as [|Hb]; [done|]. tauto. }
  constructor; try done.
  - intros b y (? & ? & Hy)%Hin. by eapply Hdata.
  - intros b y (? & ? & Hy)%Hin. by eapply Hdata.
Qed.

(** A node nobody refers to, nor to what is below it, is freed with all that is below it. *)
Lemma remove_idle st t D R Y path r l ab rest :
  fs_inv st t D R Y → not_absolute path = false →
  tsearch (mount_at (inodes st)) t 0 0 (path_head path) (path_tail path) = (r, l, ab, rest) →
  r ≠ 0 → R r = 0 →
  (∀ b, b ∈ nodes (tsub (mount_at (inodes st)) t (path_head path) (path_tail path)) → R b = 0) →
  ∃ st', inode_remove path st = Some (0, st') ∧ fs_sem st' = fs_sem st ∧
    fs_inv st' (tprune (mount_at (inodes st)) t (path_head path) (path_tail path)) D R Y ∧
    ∀ b, meta_at (inodes st') b =
      if decide (b ∈ r :: nodes (tsub (mount_at (inodes st)) t (path_head path) (path_tail path)))
      then None else meta_at (inodes st) b.
Proof.
  intros Hi Habs Hs Hr HR Hsub. pose proof (fi_shape _ _ _ _ _ Hi) as Hsh.
  rewrite (remove_found _ _ _ _ _ _ _ _ _ Hsh Habs Hs), (proj2 (Z.eqb_neq r 0)) by done. cbn [negb].
  destruct (unlink_found _ _ _ _ _ _ _ _ _ _ Hsh Hs Hr) as (z & st1 & -> & Esem & Hz & Hz1 & Hm1 & Hp & Hsh1).
  cbn [mbind option_bind]. change (inode_at r st1) with (inodes st1 !! r). rewrite Hz1.
  cbn [mbind option_bind]. rewrite (fi_refs _ _ _ _ _ Hi _ _ Hz : i_crefs (with_peer 0 z) = R r), HR.
  change (negb (0 =? 0)) with false. cbn iota.
  destruct (free_removed_inv _ _ _ _ _ [] D R Y _ Hsh1 Hz1) as (st2 & st3 & -> & E2 & Hi3 & Hsem3 & Hl).
  - intros b y Hb Hbc Hy. destruct (meta_some _ _ _ _ (Hm1 b) Hy) as (y0 & Ey & E).
    rewrite (meta_crefs _ _ E), (meta_deleted _ _ E). split; [by eapply fi_refs|by eapply fi_flags].
  - eapply fi_range, Hi.
  - intros b Hb. destruct (decide (b ∈ all_nodes t D)) as [Hin|Hin]; [|by eapply fi_norefs].
    rewrite <-Hp in Hin. unfold all_nodes in Hin, Hb. cbn [mbind list_bind nodes] in Hin.
    rewrite app_nil_r in Hin. destruct (decide (b = r)) as [->|]; [done|].
    destruct (decide (b ∈ nodes (tsub (mount_at (inodes st)) t (path_head path) (path_tail path)))); [auto|].
    exfalso. apply Hb. in_list.
  - eapply fi_held, Hi.
  - cbn [mbind option_bind]. rewrite E2. cbn [mbind option_bind]. exists st3.
    split_and!; [done|congruence|done|]. intros b. unfold meta_at. rewrite Hl.
    destruct (decide (b = r ∨ _)) as [Hb|Hb].
    + rewrite decide_True; [done|]. by apply elem_of_cons.
    + rewrite decide_False by (by rewrite elem_of_cons). apply Hm1.
Qed.

(** ** Counting references *)

Definition upd (R : Z → Z) (a v : Z) : Z → Z := λ b, if decide (b = a) then v else R b.

Lemma upd_same R a v : upd R a v a = v.
Proof. apply decide_True. done. Qed.
Lemma upd_other R a v b : b ≠ a → upd R a v b = R b.
Proof. apply decide_False. Qed.

Lemma fs_inv_crefs st t D R Y a x v : fs_inv st t D R Y → inodes st !! a = Some x →
  0 ≤ v ≤ 0x7fff → (a ∈ D ≫= top → v ≠ 0) →
  fs_inv (with_inodes (alter (with_crefs v) a (inodes st)) st) t D (upd R a v) Y.
Proof.
  intros Hi Hx Hv Hheld. pose proof (fi_shape _ _ _ _ _ Hi) as Hsh.
  assert (Hin : a ∈ all_nodes t D) by (apply (sh_dom _ _ _ _ Hsh); by eexists).
  assert (Hl : ∀ b y, alter (with_crefs v) a (inodes st) !! b = Some y →
    (b = a ∧ y = with_crefs v x) ∨ (b ≠ a ∧ inodes st !! b = Some y)).
  { intros b y. destruct (decide (b = a)) as [->|Hb].
    - rewrite lookup_alter_eq, Hx. intros [= <-]. by left.
    - rewrite lookup_alter_ne by done. by right. }
  constructor; cbn [with_inodes inodes].
  - apply fs_shape_data; [done|]. intros b. by apply links_alter.
  - intros b y [[-> ->]|[Hb Hy]]%Hl.
    + rewrite upd_same. by apply i16_id.
    + rewrite upd_other by done. by eapply fi_refs.
  - intros b. destruct (decide (b = a)) as [->|Hb]; [by rewrite upd_same|].
    rewrite upd_other by done. eapply fi_range, Hi.
  - intros b Hb. rewrite upd_other by (by intros ->). by eapply fi_norefs.
  - intros b y [[-> ->]|[Hb Hy]]%Hl; [|by eapply fi_flags].
    change (deleted x = bool_decide (a ∈ D ≫= top)). by eapply fi_flags.
  - intros b Hb. destruct (decide (b = a)) as [->|Hne]; [rewrite upd_same; auto|].
    rewrite upd_other by done. by eapply fi_held.
Qed.

Lemma fs_shape_sem s st t D Y : fs_shape st t D Y → fs_shape (with_fs_sem s st) t D Y.
Proof. intros []. by constructor. Qed.
Lemma fs_inv_sem s st t D R Y : fs_inv st t D R Y → fs_inv (with_fs_sem s st) t D R Y.
Proof. intros []. constructor; [by apply fs_shape_sem|done..]. Qed.
End Drop.
