(* ===== verification/InodeCalls.v ===== *)
(** The calls on inodes as wholes, under the semaphore of the tree, in terms of
    the name space. *)

From Stdlib Require Import Ascii.
From stdpp Require Import base numbers gmap sorting list strings.
From S2P Require Import Prelude Queue Sched Sem SemThms Kmalloc Inode InodeTree InodeRep InodeEdit InodeSpace InodeInv InodeOps.

(** ** Nodes and paths of an ordered tree *)

Lemma find_complete t b : ordered t → b ∈ nodes t → ∃ q, q ≠ [] ∧ find t q = Some b.
Proof.
  induction t as [|a n c IHc p IHp]; [by intros _ ?%elem_of_nil|]. intros (Hn & Hc & Hp).
  cbn [nodes]. intros [->|[Hb|Hb]%elem_of_app]%elem_of_cons.
  - exists [n]. split; [done|]. apply find_here.
  - destruct (IHc Hc Hb) as (q & Hq & E). exists (n :: q). split; [done|]. by rewrite find_below.
  - destruct (IHp Hp Hb) as (q & Hq & E). exists q. split; [done|]. destruct q as [|x q]; [done|].
    rewrite find_after; [done|]. intros ->. rewrite find_before in E; done.
Qed.

(** The links determine the tree. *)
Lemma irep_unique m v t t' : irep m v t → irep m v t' → t = t'.
Proof.
  revert v t'. induction t as [|a n c IHc p IHp]; intros v [|a' n' c' p']; cbn [irep].
  - done.
  - intros -> (E & Ha & _). by rewrite <-E in Ha.
  - intros (-> & Ha & _) ->. done.
  - intros (-> & Ha & x & Hx & <- & Hc & Hp) (<- & _ & x' & Hx' & <- & Hc' & Hp').
    rewrite Hx in Hx'. injection Hx' as <-. f_equal; eauto.
Qed.

(** [b] is below the inode [a]. *)
Definition below (m : gmap Z inode) (a b : Z) : Prop :=
  ∃ x c, m !! a = Some x ∧ irep m (i_child x) c ∧ b ∈ nodes c.

Section Calls.
Context {A : Type} {HA : Kmalloc A} {HL : KmallocLaws A}.
Variable tree_sem : Z.
Implicit Types st : fsst A.

(** Nobody holds the semaphore of the tree. *)
Definition tree_free st : Prop := tree_sem ≠ 0 ∧ semcount (fs_sem st) tree_sem = 1.

Lemma tree_free_same st s : tree_free st → same_sems (fs_sem st) s → tree_free (with_fs_sem s st).
Proof. intros [H0 H1] [Hc _]. split; [done|]. cbn. by rewrite Hc. Qed.

(** A section between taking and giving the semaphore. *)
Lemma critical st : tree_free st →
  ∃ s1, inode_semtake tree_sem st = Some (with_fs_sem s1 st) ∧
    ∀ st2, fs_sem st2 = s1 →
      ∃ s2, inode_semgive tree_sem st2 = Some (with_fs_sem s2 st2) ∧ same_sems (fs_sem st) s2.
Proof.
  intros [H0 H1]. destruct (sem_take_free _ _ H0 H1) as (s1 & E1 & Ht). exists s1.
  unfold inode_semtake. rewrite E1. split; [done|]. intros st2 <-.
  destruct (sem_give_held _ _ _ H0 H1 Ht) as (s2 & E2 & Hss). exists s2.
  unfold inode_semgive. by rewrite E2.
Qed.

(** What a path resolves to: the inode and the names that remain. *)
Definition lookup_path (m : gmap Z inode) (t : itree) (path : string) : option (Z * list string) :=
  resolve (mount_at m) (find t) [] (path_names (skip_slash path)).

Lemma lookup_search st t D Y path : fs_shape st t D Y →
  ∃ r l ab s rest,
    tsearch (mount_at (inodes st)) t 0 0 (path_head path) (path_tail path) = (r, l, ab, rest) ∧
    inode_search path st = Some (mk_found r l ab s (if r =? 0 then None else Some s)) ∧
    ends_at (skip_slash path) s r rest ∧
    lookup_path (inodes st) t path = if r =? 0 then None else Some (r, rest).
Proof.
  intros Hsh. pose proof (search_tree _ _ _ _ path Hsh) as Hs.
  pose proof (tsearch_resolve (mount_at (inodes st)) t 0 0 (path_head path) (path_tail path)
    (sh_ordered _ _ _ _ Hsh) (sh_nonnull _ _ _ _ Hsh)) as Hr.
  destruct (tsearch _ _ _ _ _ _) as [[[r l] ab] rest]. destruct Hs as (s & E & He).
  exists r, l, ab, s, rest. split_and!; try done. unfold lookup_path. by rewrite path_split.
Qed.

(** A lookup ends at a node of the tree, at the path without the names that remain. *)
Lemma lookup_found st t D Y path a rest : fs_shape st t D Y →
  lookup_path (inodes st) t path = Some (a, rest) → a ≠ 0 ∧ a ∈ nodes t ∧
    ∃ cs, path_names (skip_slash path) = cs ++ rest ∧ find t cs = Some a.
Proof.
  intros Hsh Hl. destruct (lookup_search _ _ _ _ path Hsh) as (r & l & ab & s & rest' & Ht & _ & _ & El).
  rewrite Hl in El. destruct (Z.eqb_spec r 0) as [|Hr]; [done|]. injection El as -> ->. split; [done|].
  destruct (prune_find _ _ _ _ _ _ _ _ _ _ (sh_ordered _ _ _ _ Hsh) (sh_nonnull _ _ _ _ Hsh) Ht Hr)
    as (pre & E & _ & Hf & _).
  split; [by eapply find_nodes|]. exists pre. by rewrite path_split.
Qed.

Lemma absolute_suffix path pre s : not_absolute path = false → skip_slash path = String.append pre s →
  ∃ pre', path = String.append pre' s.
Proof.
  destruct path as [|c path]; [done|]. intros _ E. cbn [skip_slash] in E. exists (String c pre).
  change (String c path = String c (String.append pre s)). by f_equal.
Qed.

(** ** inode_find *)

Lemma find_run st t D R Y path : fs_inv st t D R Y → tree_free st → not_absolute path = false →
  (∀ a, R a < 0x7fff) →
  match lookup_path (inodes st) t path with
  | None => ∃ s2, inode_find tree_sem path st = Some (0, None, with_fs_sem s2 st) ∧ same_sems (fs_sem st) s2
  | Some (a, rest) =>
      ∃ rel s2 st', inode_find tree_sem path st = Some (a, Some rel, st') ∧
        components rel = rest ∧ (∃ pre, path = String.append pre rel) ∧
        st' = with_fs_sem s2 (with_inodes (alter (with_crefs (R a + 1)) a (inodes st)) st) ∧
        same_sems (fs_sem st) s2 ∧ fs_inv st' t D (upd R a (R a + 1)) Y
  end.
Proof.
  intros Hi Hfree Habs HR. pose proof (fi_shape _ _ _ _ _ Hi) as Hsh.
  unfold inode_find. rewrite Habs. destruct (critical _ Hfree) as (s1 & -> & Hgive). cbn [mbind option_bind].
  destruct (lookup_search _ _ _ _ path (fs_shape_sem s1 _ _ _ _ Hsh)) as (r & l & ab & s & rest & Ht & -> & He & El).
  cbn [inodes with_fs_sem] in Ht, El. rewrite El.
  cbn [mbind option_bind f_node f_relpath]. destruct (Z.eqb_spec r 0) as [->|Hr]; cbn [negb mbind option_bind].
  { destruct (Hgive (with_fs_sem s1 st) eq_refl) as (s2 & -> & Hss). exists s2. by split. }
  assert (Hrt : r ∈ nodes t).
  { rewrite (prune_nodes _ _ _ _ _ _ _ _ _ _ (sh_nonnull _ _ _ _ Hsh) Ht Hr). in_list. }
  destruct (proj2 (sh_dom _ _ _ _ Hsh r) (all_nodes_nil _ _ _ Hrt)) as [z Hz].
  rewrite (set_inode_run r _ (with_fs_sem s1 st) z Hz). cbn [mbind option_bind].
  destruct (Hgive (with_inodes (alter (λ x, with_crefs (i_crefs x + 1) x) r (inodes st)) (with_fs_sem s1 st)) eq_refl)
    as (s2 & Eg & Hss).
  change (inodes (with_fs_sem s1 st)) with (inodes st). rewrite Eg. cbn [mbind option_bind].
  assert (Ea : alter (λ x, with_crefs (i_crefs x + 1) x) r (inodes st) = alter (with_crefs (R r + 1)) r (inodes st)).
  { apply map_eq. intros b. destruct (decide (r = b)) as [<-|Hb].
    - rewrite !lookup_alter_eq, Hz. cbn. by rewrite (fi_refs _ _ _ _ _ Hi _ _ Hz).
    - by rewrite !lookup_alter_ne. }
  rewrite Ea. exists s, s2, (with_fs_sem s2 (with_inodes (alter (with_crefs (R r + 1)) r (inodes st)) st)).
  split; [done|]. destruct He as [[pre Epre] Erest].
  rewrite (proj2 (Z.eqb_neq r 0)) in Erest by done. split_and!; [done| |done|done|].
  - by eapply absolute_suffix.
  - apply (fs_inv_sem s2). eapply fs_inv_crefs; [done|exact Hz| |]; pose proof (fi_range _ _ _ _ _ Hi r);
      specialize (HR r); lia.
Qed.

(** ** inode_addref and inode_release *)

(** The type, the operations and the private data. *)
Definition kind (x : inode) := (i_flags x, i_ops x, i_private x).
Definition kind_at (m : gmap Z inode) (a : Z) := kind <$> m !! a.

Lemma kind_crefs m a v b : kind_at (alter (with_crefs v) a m) b = kind_at m b.
Proof.
  unfold kind_at. destruct (decide (a = b)) as [<-|Hne].
  - rewrite lookup_alter_eq. by destruct (m !! a).
  - by rewrite lookup_alter_ne.
Qed.

Lemma inode_nonnull st t D Y a : fs_shape st t D Y → is_Some (inodes st !! a) → a ≠ 0.
Proof.
  intros Hsh Ha%(sh_dom _ _ _ _ Hsh) ->. apply (k_owns_nonnull _ _ (sh_heap _ _ _ _ Hsh)).
  by apply elem_of_union_l, elem_of_list_to_set.
Qed.

Lemma addref_run st t D R Y a : fs_inv st t D R Y → tree_free st → is_Some (inodes st !! a) → R a < 0x7fff →
  ∃ st', inode_addref tree_sem a st = Some st' ∧ fs_inv st' t D (upd R a (R a + 1)) Y ∧
    same_sems (fs_sem st) (fs_sem st') ∧ ∀ b, kind_at (inodes st') b = kind_at (inodes st) b.
Proof.
  intros Hi Hfree Ha HR. pose proof (fi_shape _ _ _ _ _ Hi) as Hsh.
  pose proof (inode_nonnull _ _ _ _ _ Hsh Ha) as Ha0. destruct Ha as [z Hz].
  unfold inode_addref. rewrite (proj2 (Z.eqb_neq a 0)) by done. cbn [negb].
  destruct (critical _ Hfree) as (s1 & -> & Hgive). cbn [mbind option_bind].
  set (m := alter (λ x, with_crefs (i_crefs x + 1) x) a (inodes st)).
  rewrite (set_inode_run a _ (with_fs_sem s1 st) z Hz). cbn [mbind option_bind].
  change (inodes (with_fs_sem s1 st)) with (inodes st). fold m.
  destruct (Hgive (with_inodes m (with_fs_sem s1 st)) eq_refl) as (s2 & -> & Hss).
  assert (Em : m = alter (with_crefs (R a + 1)) a (inodes st)).
  { apply map_eq. intros b. unfold m. destruct (decide (a = b)) as [<-|Hb].
    - rewrite !lookup_alter_eq, Hz. cbn. by rewrite (fi_refs _ _ _ _ _ Hi _ _ Hz).
    - by rewrite !lookup_alter_ne. }
  exists (with_fs_sem s2 (with_inodes m st)). rewrite Em. split_and!; [done| |done|intros b; apply kind_crefs].
  apply fs_inv_sem. eapply fs_inv_crefs; [done|exact Hz| |]; pose proof (fi_range _ _ _ _ _ Hi a); lia.
Qed.

(** The count after a release. *)
Definition released (n : Z) : Z := if n =? 0 then 0 else n - 1.

Lemma release_start st t D R Y a z : fs_inv st t D R Y → inodes st !! a = Some z → ∀ s,
  ∃ st1, (if negb (i_crefs z =? 0) then set_inode a (with_crefs (i_crefs z - 1)) (with_fs_sem s st)
          else Some (with_fs_sem s st)) = Some st1 ∧
    st1 = with_fs_sem s (with_inodes (alter (with_crefs (released (R a))) a (inodes st)) st).
Proof.
  intros Hi Hz s. rewrite (fi_refs _ _ _ _ _ Hi _ _ Hz). unfold released.
  destruct (Z.eqb_spec (R a) 0) as [E|E]; cbn [negb].
  - eexists. split; [done|]. unfold with_fs_sem, with_inodes. cbn. f_equal. apply map_eq. intros b.
    destruct (decide (a = b)) as [<-|Hb]; [|by rewrite lookup_alter_ne]. rewrite lookup_alter_eq, Hz. cbn.
    f_equal. rewrite <-E, <-(fi_refs _ _ _ _ _ Hi _ _ Hz).
    destruct z as [z1 z2 z3 z4 z5 z6 z7]. unfold with_crefs. cbn. f_equal. symmetry. apply i16_id.
    pose proof (fi_refs _ _ _ _ _ Hi _ _ Hz) as Ez. cbn in Ez. rewrite Ez, E. lia.
  - rewrite (set_inode_run a _ (with_fs_sem s st) z Hz). by eexists.
Qed.

(** The inode stays when it is still referenced or was not removed. *)
Lemma release_keep st t D R Y a : fs_inv st t D R Y → tree_free st → is_Some (inodes st !! a) →
  released (R a) ≠ 0 ∨ a ∉ D ≫= top →
  ∃ st', inode_release tree_sem a st = Some st' ∧ fs_inv st' t D (upd R a (released (R a))) Y ∧
    same_sems (fs_sem st) (fs_sem st') ∧ ∀ b, kind_at (inodes st') b = kind_at (inodes st) b.
Proof.
  intros Hi Hfree Ha Hkeep. pose proof (fi_shape _ _ _ _ _ Hi) as Hsh.
  pose proof (inode_nonnull _ _ _ _ _ Hsh Ha) as Ha0. destruct Ha as [z Hz].
  pose proof (fi_range _ _ _ _ _ Hi a) as HRa.
  assert (Hrel : 0 ≤ released (R a) ≤ 0x7fff) by (unfold released; destruct (Z.eqb_spec (R a) 0); lia).
  unfold inode_release. rewrite (proj2 (Z.eqb_neq a 0)) by done. cbn [negb].
  destruct (critical _ Hfree) as (s1 & -> & Hgive). cbn [mbind option_bind].
  change (inode_at a (with_fs_sem s1 st)) with (inodes st !! a). rewrite Hz. cbn [mbind option_bind].
  destruct (release_start _ _ _ _ _ _ _ Hi Hz s1) as (st1 & -> & ->). cbn [mbind option_bind].
  set (m := alter (with_crefs (released (R a))) a (inodes st)).
  assert (Ez : m !! a = Some (with_crefs (released (R a)) z)) by (unfold m; by rewrite lookup_alter_eq, Hz).
  change (inode_at a _) with (m !! a). rewrite Ez. cbn [mbind option_bind].
  change (negb (Z.land _ _ =? 0)) with (deleted z). rewrite (fi_flags _ _ _ _ _ Hi _ _ Hz).
  change (i_crefs (with_crefs (released (R a)) z)) with (i16 (released (R a))). rewrite i16_id by done.
  assert (Ekeep : (released (R a) <=? 0) && bool_decide (a ∈ D ≫= top) = false).
  { destruct Hkeep as [Hk|Hk]; [by rewrite (proj2 (Z.leb_gt _ _)) by lia|].
    rewrite (bool_decide_false _ Hk). apply andb_false_r. }
  rewrite Ekeep.
  destruct (Hgive (with_fs_sem s1 (with_inodes m st)) eq_refl) as (s2 & -> & Hss).
  exists (with_fs_sem s2 (with_inodes m st)). split_and!; [done| |done|intros b; apply kind_crefs].
  apply fs_inv_sem. eapply fs_inv_crefs; [done|exact Hz|done|]. intros Htop. by destruct Hkeep.
Qed.

(** The last reference to a removed inode frees it and all that is below it. *)
Lemma release_drop st t D1 D2 R Y a n c : fs_inv st t (D1 ++ INode a n c ILeaf :: D2) R Y → tree_free st →
  R a = 1 → (∀ b, b ∈ nodes c → R b = 0) →
  ∃ st', inode_release tree_sem a st = Some st' ∧ fs_inv st' t (D1 ++ D2) (upd R a 0) Y ∧
    same_sems (fs_sem st) (fs_sem st') ∧
    ∀ b, kind_at (inodes st') b = if decide (b = a ∨ b ∈ nodes c) then None else kind_at (inodes st) b.
Proof.
  intros Hi Hfree HR Hc. pose proof (fi_shape _ _ _ _ _ Hi) as Hsh. set (d := INode a n c ILeaf) in *.
  assert (Htop : a ∈ (D1 ++ d :: D2) ≫= top).
  { apply list_elem_of_bind. exists d. split; [apply list_elem_of_here|in_list]. }
  assert (Ha : is_Some (inodes st !! a)) by (apply (sh_dom _ _ _ _ Hsh); by apply tops_all).
  pose proof (inode_nonnull _ _ _ _ _ Hsh Ha) as Ha0. destruct Ha as [z Hz].
  unfold inode_release. rewrite (proj2 (Z.eqb_neq a 0)) by done. cbn [negb].
  destruct (critical _ Hfree) as (s1 & -> & Hgive). cbn [mbind option_bind].
  change (inode_at a (with_fs_sem s1 st)) with (inodes st !! a). rewrite Hz. cbn [mbind option_bind].
  destruct (release_start _ _ _ _ _ _ _ Hi Hz s1) as (st1 & -> & ->). cbn [mbind option_bind].
  rewrite HR. change (released 1) with 0. set (m := alter (with_crefs 0) a (inodes st)).
  assert (Ez : m !! a = Some (with_crefs 0 z)) by (unfold m; by rewrite lookup_alter_eq, Hz).
  change (inode_at a _) with (m !! a). rewrite Ez. cbn [mbind option_bind].
  change (negb (Z.land _ _ =? 0)) with (deleted z). rewrite (fi_flags _ _ _ _ _ Hi _ _ Hz).
  rewrite (bool_decide_true _ Htop). cbn [andb].
  change (i_crefs (with_crefs 0 z)) with 0. cbn [Z.leb Z.compare].
  destruct (Hgive (with_fs_sem s1 (with_inodes m st)) eq_refl) as (s2 & -> & Hss). cbn [mbind option_bind].
  change (with_fs_sem s2 (with_fs_sem s1 (with_inodes m st))) with (with_fs_sem s2 (with_inodes m st)).
  assert (Hsh2 : fs_shape (with_fs_sem s2 (with_inodes m st)) t (D1 ++ d :: D2) Y).
  { apply fs_shape_sem, fs_shape_data; [done|]. intros b. by apply links_alter. }
  pose proof (removed_nodes t a n c D1 D2) as Hp. fold d in Hp.
  pose proof (sh_nodup _ _ _ _ Hsh) as Hnd. rewrite Hp in Hnd. cbn [app] in Hnd.
  apply NoDup_cons in Hnd as [Hac _]. rewrite elem_of_app in Hac.
  assert (Hat : a ∉ (D1 ++ D2) ≫= top) by (intros ?%(tops_all t); tauto).
  destruct (free_removed_inv (with_fs_sem s2 (with_inodes m st)) t a n c D1 D2 (upd R a 0) Y (with_crefs 0 z)
    Hsh2 Ez) as (st1 & st2 & E1 & E2 & Hi2 & Hsem & Hl).
  - intros b y Hb Hbc Hy. cbn in Hy. unfold m in Hy. rewrite lookup_alter_ne in Hy by done.
    rewrite upd_other by done. split; [by eapply fi_refs|]. rewrite (fi_flags _ _ _ _ _ Hi _ _ Hy).
    apply bool_decide_ext. rewrite !bind_app, bind_cons. cbn [top d].
    rewrite !elem_of_app, list_elem_of_singleton. tauto.
  - intros b. destruct (decide (b = a)) as [->|Hb]; [by rewrite upd_same|].
    rewrite upd_other by done. eapply fi_range, Hi.
  - intros b Hb. destruct (decide (b = a)) as [->|Hba]; [by rewrite upd_same|].
    rewrite upd_other by done. destruct (decide (b ∈ nodes c)) as [?|Hbc]; [by apply Hc|].
    eapply fi_norefs; [exact Hi|]. rewrite Hp. in_list.
  - intros b Hb. rewrite upd_other by (by intros ->). eapply fi_held; [exact Hi|].
    revert Hb. rewrite !bind_app, bind_cons. in_list.
  - exists st2. cbn [andb]. rewrite E1. split_and!.
    + exact E2.
    + done.
    + by rewrite Hsem.
    + intros b. unfold kind_at. rewrite Hl. destruct (decide _); [done|].
      exact (kind_crefs (inodes st) a 0 b).
Qed.

(** ** Registration *)

Lemma append_length a b : String.length (String.append a b) = (String.length a + String.length b)%nat.
Proof.
  induction a as [|x a IH]; [done|].
  change (S (String.length (String.append a b)) = S (String.length a + String.length b)). by f_equal.
Qed.

(** [inode_reserve] for a path where nothing is. *)
Lemma reserve_run st t D R Y path : fs_inv st t D R Y → short path → not_absolute path = false →
  lookup_path (inodes st) t path = None →
  ∃ ret node st' t', inode_reserve path st = Some (ret, node, st') ∧
    reserved st t D R Y (path_names (skip_slash path)) ret node st' t'.
Proof.
  intros Hi Hs Habs Hl. pose proof (fi_shape _ _ _ _ _ Hi) as Hsh. unfold inode_reserve. rewrite Habs.
  destruct (lookup_search _ _ _ _ path Hsh) as (r & l & ab & s & rest & Ht & -> & [[pre Ep] Er] & El).
  rewrite El in Hl. destruct (Z.eqb_spec r 0) as [->|]; [|done]. cbn [mbind option_bind f_node f_path f_peer f_parent].
  change (negb (0 =? 0)) with false. cbn iota. rewrite path_split. subst rest.
  assert (Hle : (String.length s ≤ String.length path)%nat).
  { destruct path as [|c path]; [done|]. cbn [skip_slash] in Ep. cbn [String.length].
    rewrite Ep, append_length. lia. }
  apply reserve_loop_run; [lia|done|unfold short in *; lia|exact Ht].
Qed.

Lemma reserve_refused st t D R Y path a rest : fs_inv st t D R Y → not_absolute path = false →
  lookup_path (inodes st) t path = Some (a, rest) → inode_reserve path st = Some (- EEXIST, 0, st).
Proof.
  intros Hi Habs Hl. pose proof (fi_shape _ _ _ _ _ Hi) as Hsh. unfold inode_reserve. rewrite Habs.
  destruct (lookup_search _ _ _ _ path Hsh) as (r & l & ab & s & rest' & Ht & -> & _ & El).
  rewrite El in Hl. destruct (Z.eqb_spec r 0) as [->|Hr]; [done|].
  cbn [mbind option_bind f_node]. by rewrite (proj2 (Z.eqb_neq r 0)).
Qed.

Lemma fs_inv_kind st t D R Y a f : fs_inv st t D R Y →
  (∀ x, links (f x) = links x) → (∀ x, i_crefs (f x) = i_crefs x) → (∀ x, deleted (f x) = deleted x) →
  fs_inv (with_inodes (alter f a (inodes st)) st) t D R Y.
Proof.
  intros Hi Hl Hc Hd.
  assert (Hin : ∀ b y, alter f a (inodes st) !! b = Some y →
    ∃ x, inodes st !! b = Some x ∧ i_crefs y = i_crefs x ∧ deleted y = deleted x).
  { intros b y. destruct (decide (a = b)) as [<-|Hb].
    - rewrite lookup_alter_eq. intros (x & Hx & ->)%fmap_Some. by exists x.
    - rewrite lookup_alter_ne by done. by exists y. }
  destruct Hi as [I1 I2 I3 I4 I5 I6]. constructor; cbn [with_inodes inodes]; try done.
  - apply fs_shape_data; [done|]. intros b. by apply links_alter.
  - intros b y (x & Hx & -> & _)%Hin. by apply I2.
  - intros b y (x & Hx & _ & ->)%Hin. by apply I5.
Qed.

(** The kinds of inode that are registered: the last two bits of the flags. *)
Definition set_type (ty : Z) (x : inode) : inode :=
  with_flags (Z.lor (Z.land (i_flags x) (Z.lnot FSNODEFLAG_TYPE_MASK)) ty) x.

Lemma set_type_driver x : INODE_SET_DRIVER x = set_type FSNODEFLAG_TYPE_DRIVER x.
Proof. unfold INODE_SET_DRIVER, set_type. by rewrite Z.lor_0_r. Qed.

Lemma deleted_set_type ty x : Z.testbit ty 2 = false → deleted (set_type ty x) = deleted x.
Proof.
  intros Hty. unfold set_type. rewrite deleted_flags, deleted_testbit, Z.lor_spec, Z.land_spec, Hty.
  change (Z.testbit (Z.lnot FSNODEFLAG_TYPE_MASK) 2) with true. by rewrite andb_true_r, orb_false_r.
Qed.

Lemma register_run set ty st t D R Y path ops priv : (∀ x, set x = set_type ty x) → Z.testbit ty 2 = false →
  fs_inv st t D R Y → tree_free st → short path → not_absolute path = false →
  match lookup_path (inodes st) t path with
  | Some _ => ∃ s2, register_with tree_sem set path ops priv st = Some (- EEXIST, with_fs_sem s2 st) ∧
                same_sems (fs_sem st) s2
  | None => ∃ ret st' t', register_with tree_sem set path ops priv st = Some (ret, st') ∧
      fs_inv st' t' D R Y ∧ same_sems (fs_sem st) (fs_sem st') ∧
      extends t t' (path_names (skip_slash path)) ∧
      (∀ b, b ∈ all_nodes t D → meta_at (inodes st') b = meta_at (inodes st) b) ∧
      (∀ b x, b ∉ all_nodes t D → find t' (path_names (skip_slash path)) ≠ Some b →
         inodes st' !! b = Some x → data x = (0, 0, 0, 0)) ∧
      ((ret = 0 ∧ ∃ a x, find t' (path_names (skip_slash path)) = Some a ∧ a ∉ all_nodes t D ∧
          inodes st' !! a = Some x ∧ kind x = (ty mod 2 ^ 16, ops, priv) ∧ i_child x = 0) ∨
       (ret = - ENOMEM ∧ find t' (path_names (skip_slash path)) = None))
  end.
Proof.
  intros Eset Hty Hi Hfree Hs Habs. unfold register_with.
  destruct (critical _ Hfree) as (s1 & -> & Hgive). cbn [mbind option_bind].
  pose proof (fs_inv_sem s1 _ _ _ _ _ Hi) as Hi1.
  change (lookup_path (inodes st) t path) with (lookup_path (inodes (with_fs_sem s1 st)) t path).
  destruct (lookup_path (inodes (with_fs_sem s1 st)) t path) as [[a rest]|] eqn:El.
  { rewrite (reserve_refused _ _ _ _ _ _ _ _ Hi1 Habs El). cbn [mbind option_bind].
    change (0 <=? - EEXIST) with false. cbn [mbind option_bind].
    destruct (Hgive (with_fs_sem s1 st) eq_refl) as (s2 & -> & Hss). by exists s2. }
  destruct (reserve_run _ _ _ _ _ _ Hi1 Hs Habs El) as (ret & node & st2 & t' & -> & [R1 R2 R3 R4 Rn R5]).
  cbn [mbind option_bind]. destruct R5 as [(-> & Hf & Hn & z & Hz & Hd & Hc)|(-> & -> & Hf)].
  2: { change (0 <=? - ENOMEM) with false. cbn [mbind option_bind].
       destruct (Hgive st2 R2) as (s2 & -> & Hss). exists (- ENOMEM), (with_fs_sem s2 st2), t'.
       split; [done|]. split_and!; [by apply fs_inv_sem|done|done|exact R4| |by right].
       intros b x Hb _ Hx. by eapply Rn. }
  change (0 <=? 0) with true. cbn iota.
  set (f := λ x, with_private priv (with_ops ops (set x))).
  assert (Hset : ∀ g (st0 : fsst A) x0, inodes st0 !! node = Some x0 →
    set_inode node g st0 = Some (with_inodes (<[node := g x0]> (inodes st0)) st0)).
  { intros g st0 x0 E. unfold set_inode, inode_at. by rewrite E. }
  rewrite (Hset set _ _ Hz). cbn [mbind option_bind].
  erewrite Hset by apply lookup_insert_eq. cbn [mbind option_bind inodes with_inodes]. rewrite insert_insert_eq.
  erewrite Hset by apply lookup_insert_eq. cbn [mbind option_bind inodes with_inodes]. rewrite insert_insert_eq.
  assert (Em : <[node := f z]> (inodes st2) = alter f node (inodes st2)).
  { apply map_eq. intros b. destruct (decide (node = b)) as [<-|Hb].
    - by rewrite lookup_insert_eq, lookup_alter_eq, Hz.
    - by rewrite lookup_insert_ne, lookup_alter_ne. }
  fold (f z). rewrite Em.
  destruct (Hgive (with_inodes (alter f node (inodes st2)) st2) R2) as (s2 & Eg & Hss).
  exists 0, (with_fs_sem s2 (with_inodes (alter f node (inodes st2)) st2)), t'.
  split.
  { match goal with |- context [inode_semgive tree_sem ?st3] =>
      change (inode_semgive tree_sem st3)
        with (inode_semgive tree_sem (with_inodes (alter f node (inodes st2)) st2)) end.
    by rewrite Eg. }
  split_and!; [|done|done| | |].
  - apply fs_inv_sem, fs_inv_kind; [done|..]; intros x; unfold f; rewrite Eset; [done..|].
    by apply (deleted_set_type ty).
  - intros b Hb. cbn [with_fs_sem with_inodes inodes]. transitivity (meta_at (inodes st2) b); [|exact (R4 b Hb)].
    unfold meta_at. rewrite lookup_alter_ne; [done|]. by intros <-.
  - intros b x Hb Hne. cbn [with_fs_sem with_inodes inodes]. rewrite lookup_alter_ne by (intros <-; by apply Hne).
    by apply Rn.
  - left. split; [done|]. exists node, (f z). split_and!; [done|done| | |].
    + cbn. by rewrite lookup_alter_eq, Hz.
    + unfold f, kind. rewrite Eset. injection Hd as _ Ef _ _. unfold set_type. cbn. rewrite Ef. done.
    + unfold f. by rewrite Eset.
Qed.
End Calls.
