(* ===== verification/InodeSpec.v ===== *)
(** What the calls on inodes promise: paths resolve, registration adds a path,
    removal takes it out, and an inode that is referenced stays. *)

From Stdlib Require Import Ascii.
From stdpp Require Import base numbers gmap sorting list strings.
From S2P Require Import Prelude Queue Sched Sem SemThms Kmalloc Inode InodeTree InodeRep InodeEdit InodeSpace InodeInv InodeOps InodeCalls.

(** ** What is below a node *)

Lemma tsub_irep m mnt t l ab x xs v r l' ab' rest : irep m v t →
  tsearch mnt t l ab x xs = (r, l', ab', rest) → r ≠ 0 →
  ∃ z, m !! r = Some z ∧ irep m (i_child z) (tsub mnt t x xs).
Proof.
  revert l ab x xs v. induction t as [|a n c IHc p IHp]; intros l ab x xs v Hr; cbn [tsearch tsub]; [congruence|].
  destruct Hr as (-> & Ha & z & Hz & Hn & Hc & Hp). destruct (String.compare x n); [|congruence|by eauto].
  destruct xs as [|y ys]; [intros [= <- _ _ _] _; by exists z|].
  destruct (mnt a); [intros [= <- _ _ _] _; by exists z|by eauto].
Qed.

Lemma below_child m a b z c : m !! a = Some z → irep m (i_child z) c → below m a b ↔ b ∈ nodes c.
Proof.
  intros Hz Hc. split; [|by intros Hb; exists z, c].
  intros (z' & c' & Hz' & Hc' & Hb). rewrite Hz in Hz'. injection Hz' as <-.
  by rewrite (irep_unique _ _ _ _ Hc Hc').
Qed.

Section Spec.
Context {A : Type} {HA : Kmalloc A} {HL : KmallocLaws A}.
Variable tree_sem : Z.
Implicit Types st : fsst A.

(** The names of a path below the root. *)
Definition names (path : string) : list string := path_names (skip_slash path).

(** The path [cs] and all that is below it are gone from the name space. *)
Definition cut (t t' : itree) (cs : list string) : Prop :=
  ∀ q, find t' q = if decide (cs `prefix_of` q) then None else find t q.

Lemma below_removed st t D Y a b n c : fs_shape st t D Y → INode a n c ILeaf ∈ D →
  below (inodes st) a b ↔ b ∈ nodes c.
Proof.
  intros Hsh Hd. pose proof (sh_removed _ _ _ _ Hsh) as HD. rewrite Forall_forall in HD.
  destruct (HD _ Hd) as (a' & n' & c' & [= <- <- <-] & _ & _ & z & Hz & _ & Hc & _). by eapply below_child.
Qed.

Lemma find_abs st t D R Y path :
  fs_inv st t D R Y → tree_free tree_sem st → (∀ a, R a < 0x7fff) →
  if not_absolute path then inode_find tree_sem path st = Some (0, None, st) else
  match resolve (mount_at (inodes st)) (find t) [] (names path) with
  | None => ∃ s2, inode_find tree_sem path st = Some (0, None, with_fs_sem s2 st) ∧ same_sems (fs_sem st) s2
  | Some (a, rest) =>
      ∃ rel st', inode_find tree_sem path st = Some (a, Some rel, st') ∧
        components rel = rest ∧ (∃ pre, path = String.append pre rel) ∧
        fs_inv st' t D (upd R a (R a + 1)) Y ∧ same_sems (fs_sem st) (fs_sem st')
  end.
Proof.
  intros Hi Hf HR. destruct (not_absolute path) eqn:Habs; [unfold inode_find; by rewrite Habs|].
  pose proof (find_run _ _ _ _ _ _ path Hi Hf Habs HR) as Hr. unfold lookup_path in Hr.
  unfold names. destruct (resolve _ _ _ _) as [[a rest]|]; [|exact Hr].
  destruct Hr as (rel & s2 & st' & E & E1 & E2 & -> & Hss & Hi'). by exists rel, (with_fs_sem s2
    (with_inodes (alter (with_crefs (R a + 1)) a (inodes st)) st)).
Qed.

Lemma register_abs (block : bool) st t D R Y path ops priv :
  fs_inv st t D R Y → tree_free tree_sem st → short path →
  let register := if block then register_blockdriver tree_sem else register_driver tree_sem in
  let ty := if block then FSNODEFLAG_TYPE_BLOCK else FSNODEFLAG_TYPE_DRIVER in
  if not_absolute path then
    ∃ s2, register path ops priv st = Some (- EINVAL, with_fs_sem s2 st) ∧ same_sems (fs_sem st) s2 else
  match resolve (mount_at (inodes st)) (find t) [] (names path) with
  | Some _ => ∃ s2, register path ops priv st = Some (- EEXIST, with_fs_sem s2 st) ∧ same_sems (fs_sem st) s2
  | None =>
      ∃ ret st' t', register path ops priv st = Some (ret, st') ∧ fs_inv st' t' D R Y ∧
        same_sems (fs_sem st) (fs_sem st') ∧ extends t t' (names path) ∧
        (∀ b, b ∈ all_nodes t D → meta_at (inodes st') b = meta_at (inodes st) b) ∧
        (ret = 0 ∧ (∃ a x, find t' (names path) = Some a ∧ a ∉ all_nodes t D ∧
           inodes st' !! a = Some x ∧ kind x = (ty, ops, priv)) ∨
         ret = - ENOMEM ∧ find t' (names path) = None)
  end.
Proof.
  intros Hi Hf Hs register ty. destruct (not_absolute path) eqn:Habs.
  { assert (Hreg : ∀ set, ∃ s2, register_with tree_sem set path ops priv st = Some (- EINVAL, with_fs_sem s2 st) ∧
      same_sems (fs_sem st) s2); [|destruct block; apply Hreg].
    intros set. unfold register_with. destruct (critical _ _ Hf) as (s1 & -> & Hgive). cbn [mbind option_bind].
    unfold inode_reserve. rewrite Habs. cbn [mbind option_bind]. change (0 <=? - EINVAL) with false.
    cbn [mbind option_bind]. destruct (Hgive (with_fs_sem s1 st) eq_refl) as (s2 & -> & Hss). by exists s2. }
  assert (Hrun : ∃ set ty', register = register_with tree_sem set ∧ (∀ x, set x = set_type ty' x) ∧
    Z.testbit ty' 2 = false ∧ ty' mod 2 ^ 16 = ty).
  { unfold register, ty. destruct block.
    - exists INODE_SET_BLOCK, FSNODEFLAG_TYPE_BLOCK. by split_and!.
    - exists INODE_SET_DRIVER, FSNODEFLAG_TYPE_DRIVER. split_and!; try done. apply set_type_driver. }
  destruct Hrun as (set & ty' & -> & Hset & Hty & <-).
  pose proof (register_run _ set ty' _ _ _ _ _ path ops priv Hset Hty Hi Hf Hs Habs) as Hr.
  unfold lookup_path in Hr. unfold names. destruct (resolve _ _ _ _) as [[a rest]|]; [exact Hr|].
  destruct Hr as (ret & st' & t' & E & Hi' & Hss & Hext & Hm & _ & Hres). exists ret, st', t'.
  split_and!; try done. destruct Hres as [(-> & a & x & H1 & H2 & H3 & H4 & _)|Hres]; [left|by right].
  split; [done|]. by exists a, x.
Qed.

(** The same type, operations and private data. *)
Definition same_use (x y : inode) : Prop :=
  Z.land (i_flags y) FSNODEFLAG_TYPE_MASK = Z.land (i_flags x) FSNODEFLAG_TYPE_MASK ∧
  i_ops y = i_ops x ∧ i_private y = i_private x.

Lemma same_use_meta m m' a x : meta_at m' a = meta_at m a → m !! a = Some x → ∃ y, m' !! a = Some y ∧ same_use x y.
Proof.
  intros E Hx. destruct (meta_some m' m a x (eq_sym E) Hx) as (y & Hy & Em). exists y. split; [done|].
  unfold meta, data in Em. injection Em as _ Ef Eo Ep _. unfold same_use. by rewrite Ef, Eo, Ep.
Qed.

Lemma same_use_deleted z : same_use z (with_flags (Z.lor (i_flags z) FSNODEFLAG_DELETED) (with_peer 0 z)).
Proof.
  split; [|done]. cbn [with_flags with_peer i_flags]. apply Z.bits_inj'. intros n Hn. rewrite !Z.land_spec.
  change FSNODEFLAG_TYPE_MASK with (Z.ones 2). destruct (decide (n < 2)).
  - rewrite Z.mod_pow2_bits_low, Z.lor_spec by lia. change FSNODEFLAG_DELETED with (2 ^ 2).
    rewrite Z.pow2_bits_false by lia. by rewrite orb_false_r.
  - rewrite Z.ones_spec_high by lia. by rewrite !andb_false_r.
Qed.

Lemma unregister_abs st t D R Y path :
  fs_inv st t D R Y → tree_free tree_sem st →
  if not_absolute path then
    ∃ s2, unregister_driver tree_sem path st = Some (- EINVAL, with_fs_sem s2 st) ∧ same_sems (fs_sem st) s2 else
  match resolve (mount_at (inodes st)) (find t) [] (names path) with
  | None => ∃ s2, unregister_driver tree_sem path st = Some (- ENOENT, with_fs_sem s2 st) ∧
              same_sems (fs_sem st) s2
  | Some (a, rest) => ∃ cs, names path = cs ++ rest ∧ find t cs = Some a ∧
      ((R a = 0 → ∀ b, below (inodes st) a b → R b = 0) →
       ∃ st' t' D', unregister_driver tree_sem path st = Some (if R a =? 0 then 0 else - EBUSY, st') ∧
         fs_inv st' t' D' R Y ∧ same_sems (fs_sem st) (fs_sem st') ∧ cut t t' cs ∧
         (∀ b, is_Some (inodes st' !! b) ↔
               is_Some (inodes st !! b) ∧ (R a = 0 → b ≠ a ∧ ¬ below (inodes st) a b)) ∧
         (D' = D ∨ ∃ n c, D' = INode a n c ILeaf :: D ∧ ∀ b, b ∈ nodes c → below (inodes st) a b) ∧
         ∀ b x, R b ≠ 0 → inodes st !! b = Some x → ∃ y, inodes st' !! b = Some y ∧ same_use x y)
  end.
Proof.
  intros Hi Hf. unfold unregister_driver. destruct (critical _ _ Hf) as (s1 & -> & Hgive). cbn [mbind option_bind].
  destruct (not_absolute path) eqn:Habs.
  { unfold inode_remove. rewrite Habs. cbn [mbind option_bind].
    destruct (Hgive (with_fs_sem s1 st) eq_refl) as (s2 & -> & Hss). by exists s2. }
  pose proof (fs_inv_sem s1 _ _ _ _ _ Hi) as Hi1. pose proof (fi_shape _ _ _ _ _ Hi1) as Hsh.
  destruct (lookup_search _ _ _ _ path Hsh) as (r & l & ab & s & rest & Ht & _ & _ & El).
  change (resolve (mount_at (inodes st)) (find t) [] (names path)) with
    (lookup_path (inodes (with_fs_sem s1 st)) t path). rewrite El.
  destruct (Z.eqb_spec r 0) as [->|Hr].
  { rewrite (remove_found _ _ _ _ _ _ _ _ _ Hsh Habs Ht). change (negb (0 =? 0)) with false.
    cbn [mbind option_bind]. destruct (Hgive (with_fs_sem s1 st) eq_refl) as (s2 & -> & Hss). by exists s2. }
  destruct (prune_find _ _ _ _ _ _ _ _ _ _ (sh_ordered _ _ _ _ Hsh) (sh_nonnull _ _ _ _ Hsh) Ht Hr)
    as (cs & E & _ & Hfind & Hcut & _).
  exists cs. split; [unfold names; by rewrite path_split|]. split; [done|]. intros Hsafe.
  destruct (tsub_irep _ _ _ _ _ _ _ _ _ _ _ _ (sh_tree _ _ _ _ Hsh) Ht Hr) as (z & Hz & Hc).
  cbn [inodes with_fs_sem] in Hz, Hc, Ht.
  assert (Hb : ∀ b, below (inodes st) r b ↔ b ∈ nodes (tsub (mount_at (inodes st)) t (path_head path) (path_tail path)))
    by (intros b; by eapply below_child).
  destruct (Z.eqb_spec (R r) 0) as [HR|HR].
  - destruct (remove_idle _ _ _ _ _ _ _ _ _ _ Hi1 Habs Ht Hr HR) as (st' & -> & Esem & Hi' & Hm).
    { intros b Hin. by apply Hsafe; [|apply Hb]. }
    cbn [mbind option_bind]. destruct (Hgive st' Esem) as (s2 & -> & Hss).
    exists (with_fs_sem s2 st'). eexists _, D. split; [done|].
    split_and!; [by apply fs_inv_sem|done|exact Hcut| |by left|].
    + intros b. cbn. specialize (Hm b). revert Hm. unfold meta_at. rewrite <-(fmap_is_Some meta (inodes st' !! b)).
      cbn [inodes with_fs_sem]. intros ->. rewrite <-(fmap_is_Some meta (inodes st !! b)), Hb.
      destruct (decide _) as [Hd|Hd]; rewrite elem_of_cons in Hd; [|tauto].
      split; [by intros []|]. intros [_ Hno]. destruct (Hno HR). tauto.
    + intros b x HRb Hx. apply (same_use_meta (inodes st)); [|done]. rewrite Hm. apply decide_False.
      intros [->|Hin]%elem_of_cons; [done|]. apply HRb, Hsafe; [done|by apply Hb].
  - destruct (remove_busy _ _ _ _ _ _ _ _ _ _ Hi1 Habs Ht Hr HR) as (st' & n & -> & Esem & Hi' & Hm & z' & Hz' & Hzd).
    cbn [mbind option_bind]. destruct (Hgive st' Esem) as (s2 & -> & Hss).
    exists (with_fs_sem s2 st'). eexists _, _. split; [done|].
    split_and!; [by apply fs_inv_sem|done|exact Hcut| | |].
    + intros b. cbn. destruct (decide (b = r)) as [->|Hbr].
      * rewrite (sh_dom _ _ _ _ (fi_shape _ _ _ _ _ Hi')), Hz. split; [by split|]. intros _.
        unfold all_nodes. cbn. in_list.
      * rewrite (meta_is_some _ _ _ (Hm b Hbr)). cbn. tauto.
    + right. eexists _, _. split; [done|]. intros b. by apply Hb.
    + intros b x HRb Hx. cbn [inodes with_fs_sem]. destruct (decide (b = r)) as [->|Hbr].
      * cbn [inodes with_fs_sem] in Hz'. rewrite Hz' in Hx. injection Hx as <-. eexists. split; [exact Hzd|].
        apply same_use_deleted.
      * by apply (same_use_meta (inodes st)); [apply Hm|].
Qed.

Lemma inode_release_abs st t D R Y a x :
  fs_inv st t D R Y → tree_free tree_sem st → inodes st !! a = Some x →
  let last := R a = 1 ∧ deleted x = true in
  (last → ∀ b, below (inodes st) a b → R b = 0) →
  ∃ st' D', inode_release tree_sem a st = Some st' ∧
    fs_inv st' t D' (upd R a (if R a =? 0 then 0 else R a - 1)) Y ∧ same_sems (fs_sem st) (fs_sem st') ∧
    ∀ b, (last ∧ (b = a ∨ below (inodes st) a b) → inodes st' !! b = None) ∧
         (¬ (last ∧ (b = a ∨ below (inodes st) a b)) → kind_at (inodes st') b = kind_at (inodes st) b).
Proof.
  intros Hi Hf Hx last Hsafe. pose proof (fi_shape _ _ _ _ _ Hi) as Hsh.
  pose proof (fi_flags _ _ _ _ _ Hi _ _ Hx) as Hdel.
  assert (Hlast : last ∨ ¬ last) by (unfold last; destruct (decide (R a = 1)), (deleted x); naive_solver).
  destruct Hlast as [Hl|Hl].
  - pose proof Hl as [HR Hd]. rewrite Hd in Hdel. symmetry in Hdel. apply bool_decide_eq_true in Hdel.
    apply list_elem_of_bind in Hdel as (d & Had & (D1 & D2 & ->)%list_elem_of_split).
    assert (Hrm : removed (inodes st) d).
    { pose proof (sh_removed _ _ _ _ Hsh) as HD. rewrite Forall_forall in HD. apply HD. in_list. }
    destruct Hrm as (a' & n & c & -> & _). apply list_elem_of_singleton in Had as <-.
    assert (Hb : ∀ b, below (inodes st) a b ↔ b ∈ nodes c).
    { intros b. eapply below_removed; [exact Hsh|]. in_list. }
    destruct (release_drop tree_sem _ _ _ _ _ _ _ _ _ Hi Hf HR) as (st' & E & Hi' & Hss & Hk).
    { intros b ?. by apply (Hsafe Hl), Hb. }
    exists st', (D1 ++ D2). rewrite HR. cbn [Z.eqb Z.sub]. split_and!; [done|done|done|].
    intros b. rewrite Hb. specialize (Hk b). split.
    + intros [_ Hin]. rewrite decide_True in Hk by done. unfold kind_at in Hk. by apply fmap_None in Hk.
    + intros Hno. rewrite decide_False in Hk by tauto. done.
  - destruct (release_keep tree_sem _ _ _ _ _ a Hi Hf) as (st' & E & Hi' & Hss & Hk); [by exists x| |].
    { destruct (decide (a ∈ D ≫= top)) as [Ha|Ha]; [left|by right].
      rewrite (bool_decide_true _ Ha) in Hdel. pose proof (fi_held _ _ _ _ _ Hi _ Ha).
      unfold released. rewrite (proj2 (Z.eqb_neq _ _)) by done. intros ?. apply Hl. split; [lia|done]. }
    exists st', D. split_and!; [done|done|done|]. intros b. split; [tauto|]. intros _. apply Hk.
Qed.

(** ** Running the calls in any order *)

(** The calls; what a client holds is counted in [R]. *)
Inductive fs_op :=
  | OpFind (path : string)
  | OpAddref (a : Z)
  | OpRelease (a : Z)
  | OpRegister (block : bool) (path : string) (ops priv : Z)
  | OpUnregister (path : string).

Definition config : Type := fsst A * (Z → Z).

Definition fs_exec (op : fs_op) (c : config) : option config :=
  let '(st, R) := c in
  match op with
  | OpFind path =>
      '(a, _, st) ← inode_find tree_sem path st;
      Some (st, if a =? 0 then R else upd R a (R a + 1))
  | OpAddref a => st ← inode_addref tree_sem a st; Some (st, upd R a (R a + 1))
  | OpRelease a => st ← inode_release tree_sem a st; Some (st, upd R a (R a - 1))
  | OpRegister block path ops priv =>
      '(_, st) ← (if block then register_blockdriver else register_driver) tree_sem path ops priv st;
      Some (st, R)
  | OpUnregister path => '(_, st) ← unregister_driver tree_sem path st; Some (st, R)
  end.

(** A client refers to what it uses and releases what it took; nobody removes a
    node, or gives up the last reference to a removed one, while something below
    it is referenced; the counts stay below their maximum. *)
Definition fs_legal (op : fs_op) (c : config) : Prop :=
  let '(st, R) := c in
  match op with
  | OpFind _ => ∀ a, R a < 0x7fff
  | OpAddref a => 0 < R a < 0x7fff
  | OpRelease a => 0 < R a ∧
      (R a = 1 → (∃ x, inodes st !! a = Some x ∧ deleted x = true) → ∀ b, below (inodes st) a b → R b = 0)
  | OpRegister _ path _ _ => short path
  | OpUnregister path => ∀ t a rest, irep (inodes st) (root_inode st) t →
      resolve (mount_at (inodes st)) (find t) [] (names path) = Some (a, rest) →
      R a = 0 → ∀ b, below (inodes st) a b → R b = 0
  end.

Inductive fs_reach (c0 : config) : config → Prop :=
  | fs_reach_start : fs_reach c0 c0
  | fs_reach_step c op c' : fs_reach c0 c → fs_legal op c → fs_exec op c = Some c' → fs_reach c0 c'.

(** An empty tree, as [fs_initialize] leaves it. *)
Definition fs_start (Y : gset Z) (c : config) : Prop :=
  root_inode c.1 = 0 ∧ inodes c.1 = ∅ ∧ k_owns (fs_heap c.1) Y ∧ (∀ a, c.2 a = 0) ∧ tree_free tree_sem c.1.

(** Every call keeps the invariant and returns. *)
Definition fs_good (Y : gset Z) (c : config) : Prop :=
  ∃ t D, fs_inv c.1 t D c.2 Y ∧ tree_free tree_sem c.1.

Lemma fs_start_good Y c : fs_start Y c → fs_good Y c.
Proof.
  intros (Hroot & Hm & Ho & HR & Hf). exists ILeaf, []. split; [|done].
  constructor; [constructor|..]; rewrite ?Hm; try done.
  - constructor.
  - intros a. rewrite lookup_empty. split; [by intros []|by intros ?%elem_of_nil].
  - change (k_owns (fs_heap c.1) (list_to_set [] ∪ Y)). by rewrite list_to_set_nil, (left_id_L ∅ (∪)).
  - by intros a ?%elem_of_nil.
  - intros a. rewrite HR. lia.
  - by intros a ?%elem_of_nil.
Qed.

Lemma tree_free_keep st st' : tree_free tree_sem st → same_sems (fs_sem st) (fs_sem st') → tree_free tree_sem st'.
Proof. intros [H0 H1] [Hc _]. split; [done|]. by rewrite Hc. Qed.

Lemma fs_exec_good Y op c : fs_good Y c → fs_legal op c → ∃ c', fs_exec op c = Some c' ∧ fs_good Y c'.
Proof.
  destruct c as [st R]. intros (t & D & Hi & Hf) Hl. cbn [fst snd] in Hi, Hf.
  pose proof (fi_shape _ _ _ _ _ Hi) as Hsh.
  assert (Hdom : ∀ a, R a ≠ 0 → is_Some (inodes st !! a)).
  { intros a Ha. apply (sh_dom _ _ _ _ Hsh). destruct (decide (a ∈ all_nodes t D)); [done|].
    destruct Ha. by eapply fi_norefs. }
  assert (Hsame : ∀ s2, same_sems (fs_sem st) s2 → fs_good Y (with_fs_sem s2 st, R)).
  { intros s2 Hss. exists t, D. split; [by apply fs_inv_sem|]. by eapply tree_free_keep. }
  destruct op as [path|a|a|block path ops priv|path]; cbn [fs_legal fs_exec] in *.
  - pose proof (find_abs st t D R Y path Hi Hf Hl) as Hr. destruct (not_absolute path).
    { rewrite Hr. cbn. exists (st, R). split; [done|]. by exists t, D. }
    destruct (resolve _ _ _ _) as [[a rest]|] eqn:El.
    + destruct Hr as (rel & st' & -> & _ & _ & Hi' & Hss). destruct (lookup_found _ _ _ _ _ _ _ Hsh El) as [Ha _].
      cbn. rewrite (proj2 (Z.eqb_neq a 0)) by done. eexists. split; [done|]. exists t, D. split; [done|].
      by eapply tree_free_keep.
    + destruct Hr as (s2 & -> & Hss). cbn. eexists. split; [done|]. by apply Hsame.
  - destruct (addref_run tree_sem _ _ _ _ _ a Hi Hf) as (st' & -> & Hi' & Hss & _); [apply Hdom; lia|lia|].
    cbn. eexists. split; [done|]. exists t, D. split; [done|]. by eapply tree_free_keep.
  - destruct Hl as [HR Hsafe]. destruct (Hdom a) as [x Hx]; [lia|].
    destruct (inode_release_abs _ _ _ _ _ a x Hi Hf Hx) as (st' & D' & -> & Hi' & Hss & _).
    { intros [H1 H2]. apply Hsafe; [done|by exists x]. }
    cbn. eexists. split; [done|]. rewrite (proj2 (Z.eqb_neq (R a) 0)) in Hi' by lia.
    exists t, D'. split; [done|]. by eapply tree_free_keep.
  - pose proof (register_abs block st t D R Y path ops priv Hi Hf Hl) as Hr. cbn zeta in Hr.
    destruct (not_absolute path); [|destruct (resolve _ _ _ _) as [[a rest]|]].
    + destruct block; destruct Hr as (s2 & -> & Hss); cbn; (eexists; split; [done|]); by apply Hsame.
    + destruct block; destruct Hr as (s2 & -> & Hss); cbn; (eexists; split; [done|]); by apply Hsame.
    + destruct block; destruct Hr as (ret & st' & t' & -> & Hi' & Hss & _); cbn; (eexists; split; [done|]);
        exists t', D; (split; [done|]); by eapply tree_free_keep.
  - pose proof (unregister_abs st t D R Y path Hi Hf) as Hr.
    destruct (not_absolute path).
    { destruct Hr as (s2 & -> & Hss). cbn. eexists. split; [done|]. by apply Hsame. }
    specialize (Hl t). destruct (resolve _ _ _ _) as [[a rest]|] eqn:El.
    + destruct Hr as (cs & _ & _ & Hr). destruct Hr as (st' & t' & D' & -> & Hi' & Hss & _).
      { eapply Hl; [by eapply sh_tree|reflexivity]. }
      cbn. eexists. split; [done|]. exists t', D'. split; [done|]. by eapply tree_free_keep.
    + destruct Hr as (s2 & -> & Hss). cbn. eexists. split; [done|]. by apply Hsame.
Qed.

(** C11. In every state reachable from an empty tree by looking up paths, taking and releasing
    references, registering and unregistering drivers in any order, provided nobody removes a node
    while something below it is referenced, the inodes form an ordered tree of paths next to the
    removed nodes that are still referenced, the addresses of the inodes are exactly the blocks they
    own in the heap, every reference count is the number of references the clients hold, no
    referenced inode has been freed, and the next call returns. *)
Theorem inode_reachable_safe Y c0 c : fs_start Y c0 → fs_reach c0 c →
  (∃ t D, fs_inv c.1 t D c.2 Y) ∧
  (∀ a, c.2 a ≠ 0 → ∃ x, inodes c.1 !! a = Some x ∧ i_crefs x = c.2 a) ∧
  (∀ op, fs_legal op c → is_Some (fs_exec op c)).
Proof.
  intros H0 Hr. assert (Hg : fs_good Y c).
  { induction Hr as [|c op c' _ IH Hl E]; [by apply fs_start_good|].
    destruct (fs_exec_good _ _ _ IH Hl) as (c'' & E' & Hg). rewrite E in E'. by injection E' as <-. }
  split_and!.
  - destruct Hg as (t & D & Hi & _). by exists t, D.
  - destruct Hg as (t & D & Hi & _). intros a Ha.
    destruct (proj2 (sh_dom _ _ _ _ (fi_shape _ _ _ _ _ Hi) a)) as [x Hx].
    { destruct (decide (a ∈ all_nodes t D)); [done|]. destruct Ha. by eapply fi_norefs. }
    exists x. split; [done|]. by eapply fi_refs.
  - intros op Hl. destruct (fs_exec_good _ _ _ Hg Hl) as (c' & -> & _). done.
Qed.

(** C39. inode_find returns the inode that the map from paths to inodes gives for the path, or for
    the first of its prefixes that is a mount point together with the rest of the path, and takes
    one reference to it; it returns NULL, without effect on the tree, when there is none or the path
    is not absolute. *)
Theorem inode_find_correct st t D R Y path :
  fs_inv st t D R Y → tree_free tree_sem st → (∀ a, R a < 0x7fff) →
  if not_absolute path then inode_find tree_sem path st = Some (0, None, st) else
  match resolve (mount_at (inodes st)) (find t) [] (names path) with
  | None => ∃ s2, inode_find tree_sem path st = Some (0, None, with_fs_sem s2 st) ∧ same_sems (fs_sem st) s2
  | Some (a, rest) =>
      ∃ rel st', inode_find tree_sem path st = Some (a, Some rel, st') ∧
        components rel = rest ∧ (∃ pre, path = String.append pre rel) ∧
        fs_inv st' t D (upd R a (R a + 1)) Y ∧ same_sems (fs_sem st) (fs_sem st')
  end.
Proof. apply find_abs. Qed.

(** C23. register_driver and register_blockdriver refuse a path that is not absolute with EINVAL and
    one that exists or lies below a mount point with EEXIST, without effect; otherwise they add
    exactly the missing prefixes of the path to the name space, leave the other inodes as they are,
    and return 0 with a new inode of the given type, operations and private data at the path, or
    ENOMEM with no inode there. *)
Theorem register_driver_correct (block : bool) st t D R Y path ops priv :
  fs_inv st t D R Y → tree_free tree_sem st → short path →
  let register := if block then register_blockdriver tree_sem else register_driver tree_sem in
  let ty := if block then FSNODEFLAG_TYPE_BLOCK else FSNODEFLAG_TYPE_DRIVER in
  if not_absolute path then
    ∃ s2, register path ops priv st = Some (- EINVAL, with_fs_sem s2 st) ∧ same_sems (fs_sem st) s2 else
  match resolve (mount_at (inodes st)) (find t) [] (names path) with
  | Some _ => ∃ s2, register path ops priv st = Some (- EEXIST, with_fs_sem s2 st) ∧ same_sems (fs_sem st) s2
  | None =>
      ∃ ret st' t', register path ops priv st = Some (ret, st') ∧ fs_inv st' t' D R Y ∧
        same_sems (fs_sem st) (fs_sem st') ∧ extends t t' (names path) ∧
        (∀ b, b ∈ all_nodes t D → meta_at (inodes st') b = meta_at (inodes st) b) ∧
        (ret = 0 ∧ (∃ a x, find t' (names path) = Some a ∧ a ∉ all_nodes t D ∧
           inodes st' !! a = Some x ∧ kind x = (ty, ops, priv)) ∨
         ret = - ENOMEM ∧ find t' (names path) = None)
  end.
Proof. apply register_abs. Qed.

(** C24. unregister_driver refuses a path that is not absolute with EINVAL and an unknown one with
    ENOENT, without effect; otherwise it takes the path it found and all paths below it out of the
    name space, and then, unless the inode is referenced (EBUSY, nothing is freed), frees exactly
    that inode and those below it, provided that nothing below an inode without references is
    referenced (otherwise it frees what is in use, a finding). *)
Theorem unregister_driver_correct st t D R Y path :
  fs_inv st t D R Y → tree_free tree_sem st →
  if not_absolute path then
    ∃ s2, unregister_driver tree_sem path st = Some (- EINVAL, with_fs_sem s2 st) ∧ same_sems (fs_sem st) s2 else
  match resolve (mount_at (inodes st)) (find t) [] (names path) with
  | None => ∃ s2, unregister_driver tree_sem path st = Some (- ENOENT, with_fs_sem s2 st) ∧
              same_sems (fs_sem st) s2
  | Some (a, rest) => ∃ cs, names path = cs ++ rest ∧ find t cs = Some a ∧
      ((R a = 0 → ∀ b, below (inodes st) a b → R b = 0) →
       ∃ st' t' D', unregister_driver tree_sem path st = Some (if R a =? 0 then 0 else - EBUSY, st') ∧
         fs_inv st' t' D' R Y ∧ same_sems (fs_sem st) (fs_sem st') ∧ cut t t' cs ∧
         ∀ b, is_Some (inodes st' !! b) ↔
              is_Some (inodes st !! b) ∧ (R a = 0 → b ≠ a ∧ ¬ below (inodes st) a b))
  end.
Proof.
  intros Hi Hf. pose proof (unregister_abs st t D R Y path Hi Hf) as Hr. destruct (not_absolute path); [exact Hr|].
  destruct (resolve _ _ _ _) as [[a rest]|]; [|exact Hr]. destruct Hr as (cs & E1 & E2 & Hr).
  exists cs. split_and!; [done..|]. intros Hsafe. destruct (Hr Hsafe) as (st' & t' & D' & ? & ? & ? & ? & ? & _).
  by exists st', t', D'.
Qed.

(** inode_release takes one reference back, never below zero, and frees the inode with all that
    is below it exactly when this was the last reference to an inode that has been removed; every
    other inode stays as it is. *)
Theorem inode_release_correct st t D R Y a x :
  fs_inv st t D R Y → tree_free tree_sem st → inodes st !! a = Some x →
  let last := R a = 1 ∧ deleted x = true in
  (last → ∀ b, below (inodes st) a b → R b = 0) →
  ∃ st' D', inode_release tree_sem a st = Some st' ∧
    fs_inv st' t D' (upd R a (if R a =? 0 then 0 else R a - 1)) Y ∧ same_sems (fs_sem st) (fs_sem st') ∧
    ∀ b, (last ∧ (b = a ∨ below (inodes st) a b) → inodes st' !! b = None) ∧
         (¬ (last ∧ (b = a ∨ below (inodes st) a b)) → kind_at (inodes st') b = kind_at (inodes st) b).
Proof. apply inode_release_abs. Qed.

(** After a successful registration inode_find of the same path returns a new inode with the
    registered type, operations and private data, holding one reference, and an empty relative path. *)
Theorem register_find (block : bool) st t D R Y path ops priv st' :
  fs_inv st t D R Y → tree_free tree_sem st → short path → not_absolute path = false → (∀ a, R a < 0x7fff) →
  (if block then register_blockdriver else register_driver) tree_sem path ops priv st = Some (0, st') →
  ∃ a x st2, inode_find tree_sem path st' = Some (a, Some EmptyString, st2) ∧ inodes st !! a = None ∧
    inodes st2 !! a = Some x ∧ i_crefs x = 1 ∧
    kind x = (if block then FSNODEFLAG_TYPE_BLOCK else FSNODEFLAG_TYPE_DRIVER, ops, priv).
Proof.
  intros Hi Hf Hs Habs HR Hreg. pose proof (fi_shape _ _ _ _ _ Hi) as Hsh.
  assert (Hrun : ∃ set ty, register_with tree_sem set path ops priv st = Some (0, st') ∧
    (∀ x, set x = set_type ty x) ∧ Z.testbit ty 2 = false ∧
    ty mod 2 ^ 16 = if block then FSNODEFLAG_TYPE_BLOCK else FSNODEFLAG_TYPE_DRIVER).
  { destruct block.
    - exists INODE_SET_BLOCK, FSNODEFLAG_TYPE_BLOCK. by split_and!.
    - exists INODE_SET_DRIVER, FSNODEFLAG_TYPE_DRIVER. split_and!; try done. apply set_type_driver. }
  clear Hreg. destruct Hrun as (set & ty & Hreg & Hset & Hty & <-).
  pose proof (register_run _ set ty _ _ _ _ _ path ops priv Hset Hty Hi Hf Hs Habs) as Hr.
  destruct (lookup_path (inodes st) t path) as [?|] eqn:El.
  { destruct Hr as (s2 & E & _). by rewrite Hreg in E. }
  destruct Hr as (ret & st'' & t' & E & Hi' & Hss & Hext & Hm & Hnew & Hres). rewrite Hreg in E.
  injection E as <- <-. destruct Hres as [(_ & a & x & Hfa & Ha & Hx & Hk & _)|[[=] _]].
  pose proof (fi_shape _ _ _ _ _ Hi') as Hsh'.
  assert (Hl : resolve (mount_at (inodes st')) (find t') [] (names path) = Some (a, [])).
  { eapply (resolve_new (mount_at (inodes st)) _ t).
    - intros q b Hq. split; [by apply Hext|]. apply mount_meta, Hm. apply find_nodes in Hq.
      by apply all_nodes_nil.
    - intros q b Hq Hn Hne. destruct (proj2 Hext _ _ Hq) as [Hq'|[_ Hb]]; [by rewrite Hq' in Hn|].
      assert (HbD : b ∉ all_nodes t D).
      { intros [?|HbD]%elem_of_app; [done|]. apply find_nodes in Hq. by eapply (sh_apart _ _ _ _ b Hsh'). }
      destruct (proj2 (sh_dom _ _ _ _ Hsh' b)) as [y Hy]; [by apply all_nodes_nil, (find_nodes _ q)|].
      unfold mount_at. rewrite Hy. assert (Hd : data y = (0, 0, 0, 0)).
      { apply (Hnew b); [done| |done]. intros Hb'. apply Hne. eapply find_inj; [|exact Hq|exact Hb'].
        by eapply sh_nodup_tree. }
      unfold INODE_IS_MOUNTPT. by injection Hd as _ -> _ _.
    - exact El.
    - unfold names. by rewrite path_names_step.
    - exact Hfa. }
  assert (Hf' : tree_free tree_sem st') by by eapply tree_free_keep.
  pose proof (find_run tree_sem _ _ _ _ _ path Hi' Hf' Habs HR) as Hfind. unfold lookup_path in Hfind.
  fold (names path) in Hfind. rewrite Hl in Hfind.
  destruct Hfind as (rel & s2 & st2 & Ef & Hrel & _ & -> & _ & Hi2).
  exists a, (with_crefs (R a + 1) x), (with_fs_sem s2 (with_inodes (alter (with_crefs (R a + 1)) a (inodes st')) st')).
  assert (HR0 : R a = 0) by exact (fi_norefs _ _ _ _ _ Hi a Ha).
  split_and!.
  - rewrite Ef. destruct rel; [done|]. by rewrite components_step in Hrel.
  - destruct (inodes st !! a) eqn:Ea; [|done]. exfalso. apply Ha, (sh_dom _ _ _ _ Hsh). by eexists.
  - cbn. by rewrite lookup_alter_eq, Hx.
  - cbn. by rewrite HR0.
  - done.
Qed.

End Spec.
