(* ===== verification/InodeWit.v ===== *)
(** A tree of inodes on the heap of MmLib on which the hypotheses of the
    theorems hold, and the calls that lead the code astray. *)

From Stdlib Require Import Ascii.
From stdpp Require Import base numbers gmap sorting list strings.
From S2P Require Import Prelude Queue Memory Mm MmInv MmOps MmSpec MmThms MmInit MmLib Sched Sem SemThms SemSpec Kmalloc.
From S2P Require Import Inode InodeTree InodeRep InodeEdit InodeSpace InodeInv InodeOps InodeCalls InodeSpec.
From S2P Require Import SchedSpec.

#[local] Open Scope string_scope.

(** The task 3 uses the heap; the semaphore of the tree is at 0x9000. *)
Lemma wit_pid : 3 ≠ -1.
Proof. done. Qed.

#[local] Instance wit_kmalloc : Kmalloc mm_state := mm_kmalloc 0x1000 3.
#[local] Instance wit_laws : KmallocLaws mm_state := mm_kmalloc_laws 0x1000 3 wit_pid.

Definition tree0 : Z := 0x9000.
Definition fs0 : fsst mm_state := fs_initialize tree0 (mk_fs sem0 0 ∅ heap0).
Definition norefs : Z → Z := λ _, 0.

#[local] Opaque heap0.

Lemma fs0_free : tree_free tree0 fs0.
Proof. by split. Qed.

Lemma nothing_owned (p : Z) : p ∈ (∅ : gset Z) ↔ is_Some ((∅ : gmap Z Z) !! (p - 8)).
Proof. rewrite lookup_empty. split; [by intros ?%elem_of_empty|by intros []]. Qed.

Lemma fs0_start : fs_start tree0 ∅ (fs0, norefs).
Proof.
  split_and!; [done|done| |done|apply fs0_free]. destruct heap0_ok as (_ & E1 & E2 & E3).
  split; [exact E2|]. split; [exact E3|].
  split; [change (0 < g_mm_semaphore heap0); rewrite E1; lia|]. eexists _, ∅. split; [apply heap0_represents|].
  exact nothing_owned.
Qed.

Lemma fs0_inv : fs_inv fs0 ILeaf [] norefs ∅.
Proof.
  pose proof (fs_start_good tree0 ∅ (fs0, norefs) fs0_start) as Hg.
  destruct Hg as (t & D & Hi & _).
  unfold fst, snd in Hi.
  assert (Ht : t = ILeaf).
  { pose proof (sh_tree _ _ _ _ (fi_shape _ _ _ _ _ Hi)) as Hr. destruct t; [done|].
    by destruct Hr as (E & Ha & _). }
  assert (HD : D = []).
  { destruct D as [|d D]; [done|]. pose proof (sh_removed _ _ _ _ (fi_shape _ _ _ _ _ Hi)) as Hr.
    apply Forall_cons in Hr as [(a & n & c & -> & _ & _ & x & Hx & _) _]. done. }
  by subst.
Qed.


(** The driver /dev/null is registered. *)
Definition after (r : option (Z * fsst mm_state)) : fsst mm_state := match r with Some (_, st) => st | None => fs0 end.
Definition fs1 : fsst mm_state := after (register_driver tree0 "/dev/null" 0x700 0 fs0).
Definition tree1 : itree := INode 0x2010 "dev" (INode 0x2040 "null" ILeaf ILeaf) ILeaf.
Definition null1 : inode := mk_inode 0 0 0 0 0x700 0 "null".

Lemma after_ret r x : fst <$> r = Some x → r = Some (x, after r).
Proof. destruct r as [[y st]|]; [|done]. by intros [= ->]. Qed.

Lemma fs1_runs : register_driver tree0 "/dev/null" 0x700 0 fs0 = Some (0, fs1).
Proof. apply after_ret. vm_compute. reflexivity. Qed.

Lemma fs1_null : inodes fs1 !! 0x2040 = Some null1.
Proof. vm_compute. reflexivity. Qed.

Lemma fs1_tree : irep (inodes fs1) (root_inode fs1) tree1.
Proof.
  assert (Hdev : inodes fs1 !! 0x2010 = Some (mk_inode 0 0x2040 0 0 0 0 "dev")) by (vm_compute; reflexivity).
  split; [vm_compute; reflexivity|]. split; [done|]. eexists. split; [exact Hdev|]. split; [done|].
  split; [|done]. split; [done|]. split; [done|]. eexists. split; [exact fs1_null|]. by split_and!.
Qed.

Lemma some_pair {B C} (a a' : B) (b b' : C) : Some (a, b) = Some (a', b') → a = a' ∧ b = b'.
Proof. by intros [= -> ->]. Qed.

Lemma slash_short (path : string) : Z.of_nat (String.length path) < 100 → short path.
Proof. unfold short. lia. Qed.

#[local] Opaque fs0 fs1.

Lemma fs1_ok : fs_inv fs1 tree1 [] norefs ∅ ∧ tree_free tree0 fs1.
Proof.
  assert (Hs : short "/dev/null") by by apply slash_short.
  pose proof (register_abs tree0 false fs0 ILeaf [] norefs ∅ "/dev/null" 0x700 0 fs0_inv fs0_free Hs) as Hr.
  cbv zeta in Hr. change (not_absolute "/dev/null") with false in Hr. cbn [find] in Hr.
  destruct Hr as (ret & st' & t' & E & Hi & Hss & _). rewrite fs1_runs in E. destruct (some_pair _ _ _ _ E) as [_ <-].
  split; [|exact (tree_free_keep _ _ _ fs0_free Hss)].
  by rewrite (irep_unique _ _ _ _ fs1_tree (sh_tree _ _ _ _ (fi_shape _ _ _ _ _ Hi))).
Qed.

(** ** The theorems at this tree *)

Lemma null_legal : fs_legal (OpRegister false "/dev/null" 0x700 0) (fs0, norefs).
Proof. by apply slash_short. Qed.

Lemma fs1_reached : fs_reach tree0 (fs0, norefs) (fs1, norefs).
Proof.
  eapply fs_reach_step; [constructor|exact null_legal|]. unfold fs_exec. by rewrite fs1_runs.
Qed.

Lemma inode_reachable_safe_witness :
  (∃ t D, fs_inv fs1 t D norefs ∅) ∧
  (∀ a, norefs a ≠ 0 → ∃ x, inodes fs1 !! a = Some x ∧ i_crefs x = norefs a) ∧
  (∀ op, fs_legal op (fs1, norefs) → is_Some (fs_exec tree0 op (fs1, norefs))).
Proof. exact (inode_reachable_safe tree0 ∅ (fs0, norefs) (fs1, norefs) fs0_start fs1_reached). Defined.

Lemma fs1_lookup : resolve (mount_at (inodes fs1)) (find tree1) [] (names "/dev/null") = Some (0x2040, []).
Proof. vm_compute. reflexivity. Qed.

Lemma inode_find_correct_witness :
  ∃ rel st', inode_find tree0 "/dev/null" fs1 = Some (0x2040, Some rel, st') ∧ components rel = [] ∧
    (∃ pre, "/dev/null" = String.append pre rel) ∧ fs_inv st' tree1 [] (upd norefs 0x2040 1) ∅ ∧
    same_sems (fs_sem fs1) (fs_sem st').
Proof.
  destruct fs1_ok as [Hi Hf].
  pose proof (inode_find_correct tree0 fs1 tree1 [] norefs ∅ "/dev/null" Hi Hf (λ _, eq_refl)) as Hr.
  rewrite fs1_lookup in Hr. exact Hr.
Defined.

Lemma register_driver_correct_witness : ∃ ret st' t',
  register_driver tree0 "/dev/null" 0x700 0 fs0 = Some (ret, st') ∧ fs_inv st' t' [] norefs ∅ ∧
  same_sems (fs_sem fs0) (fs_sem st') ∧ extends ILeaf t' ["dev"; "null"] ∧
  (∀ b, b ∈ all_nodes ILeaf [] → meta_at (inodes st') b = meta_at (inodes fs0) b) ∧
  (ret = 0 ∧ (∃ a x, find t' ["dev"; "null"] = Some a ∧ a ∉ all_nodes ILeaf [] ∧
     inodes st' !! a = Some x ∧ kind x = (FSNODEFLAG_TYPE_DRIVER, 0x700, 0)) ∨
   ret = - ENOMEM ∧ find t' ["dev"; "null"] = None).
Proof.
  exact (register_driver_correct tree0 false fs0 ILeaf [] norefs ∅ "/dev/null" 0x700 0 fs0_inv fs0_free
    (slash_short "/dev/null" eq_refl)).
Defined.

Lemma fs1_lookup_dev : resolve (mount_at (inodes fs1)) (find tree1) [] (names "/dev") = Some (0x2010, []).
Proof. vm_compute. reflexivity. Qed.

Lemma unregister_driver_correct_witness : ∃ cs, names "/dev" = (cs ++ [])%list ∧ find tree1 cs = Some 0x2010 ∧
  ((norefs 0x2010 = 0 → ∀ b, below (inodes fs1) 0x2010 b → norefs b = 0) →
   ∃ st' t' D', unregister_driver tree0 "/dev" fs1 = Some (0, st') ∧ fs_inv st' t' D' norefs ∅ ∧
     same_sems (fs_sem fs1) (fs_sem st') ∧ cut tree1 t' cs ∧
     ∀ b, is_Some (inodes st' !! b) ↔
          is_Some (inodes fs1 !! b) ∧ (norefs 0x2010 = 0 → b ≠ 0x2010 ∧ ¬ below (inodes fs1) 0x2010 b)).
Proof.
  destruct fs1_ok as [Hi Hf].
  pose proof (unregister_driver_correct tree0 fs1 tree1 [] norefs ∅ "/dev" Hi Hf) as Hr.
  rewrite fs1_lookup_dev in Hr. exact Hr.
Defined.

Lemma inode_release_correct_witness : ∃ st' D', inode_release tree0 0x2040 fs1 = Some st' ∧
  fs_inv st' tree1 D' (upd norefs 0x2040 0) ∅ ∧ same_sems (fs_sem fs1) (fs_sem st') ∧
  ∀ b, kind_at (inodes st') b = kind_at (inodes fs1) b.
Proof.
  destruct fs1_ok as [Hi Hf].
  destruct (inode_release_correct tree0 fs1 tree1 [] norefs ∅ 0x2040 null1 Hi Hf fs1_null) as
    (st' & D' & E & Hi' & Hss & Hb).
  { intros [Hr _]. discriminate Hr. }
  exists st', D'. split; [exact E|]. split; [exact Hi'|]. split; [exact Hss|]. intros b.
  apply (proj2 (Hb b)). intros [[Hr _] _]. discriminate Hr.
Defined.

Lemma register_find_witness : ∃ a x st2,
  inode_find tree0 "/dev/null" fs1 = Some (a, Some EmptyString, st2) ∧ inodes fs0 !! a = None ∧
  inodes st2 !! a = Some x ∧ i_crefs x = 1 ∧ kind x = (FSNODEFLAG_TYPE_DRIVER, 0x700, 0).
Proof.
  exact (register_find tree0 false fs0 ILeaf [] norefs ∅ "/dev/null" 0x700 0 fs1 fs0_inv fs0_free
    (slash_short "/dev/null" eq_refl) eq_refl (λ _, eq_refl) fs1_runs).
Defined.

(** ** Where the code goes astray *)

#[local] Transparent fs0.

(** The driver "/d/x" is in use when "/d" is unregistered. *)
Definition fs_busy : fsst mm_state :=
  match inode_find tree0 "/d/x" (after (register_driver tree0 "/d/x" 0x700 0 fs0)) with
  | Some (_, _, st) => st
  | None => fs0
  end.

(** Removing "/d" frees "/d/x" too, although it is referenced: releasing that
    reference reads freed memory. *)
Theorem unregister_frees_child :
  (∃ x, inodes fs_busy !! 0x2040 = Some x ∧ i_name x = "x" ∧ i_crefs x = 1) ∧
  fst <$> unregister_driver tree0 "/d" fs_busy = Some 0 ∧
  inodes (after (unregister_driver tree0 "/d" fs_busy)) !! 0x2040 = None ∧
  inode_release tree0 0x2040 (after (unregister_driver tree0 "/d" fs_busy)) = None.
Proof.
  split; [eexists; split; [vm_compute; reflexivity|by split]|].
  split; [vm_compute; reflexivity|]. split; vm_compute; reflexivity.
Qed.

(** A mount point "/m", as mount() makes it of the inode it reserved. *)
Definition fs_mounted : fsst mm_state :=
  match set_inode 0x2010 INODE_SET_MOUNTPT (after (register_driver tree0 "/m" 0 0 fs0)) with
  | Some st => st
  | None => fs0
  end.

(** Removing a path below a mount point removes the mount point. *)
Theorem unregister_removes_mount :
  (∃ x, inodes fs_mounted !! root_inode fs_mounted = Some x ∧ i_name x = "m" ∧ INODE_IS_MOUNTPT x = true) ∧
  fst <$> unregister_driver tree0 "/m/a/b" fs_mounted = Some 0 ∧
  root_inode (after (unregister_driver tree0 "/m/a/b" fs_mounted)) = 0.
Proof.
  split; [eexists; split; [vm_compute; reflexivity|by split]|]. split; vm_compute; reflexivity.
Qed.

(** A registration that runs out of memory fails, but the directories it made stay. *)
Theorem register_leaves_directories :
  let r := register_driver tree0 "/a/b/c/d/e/f/g/h/i/j/k/l" 0x700 0 fs0 in
  root_inode fs0 = 0 ∧ fst <$> r = Some (- ENOMEM) ∧ root_inode (after r) = 0x2010.
Proof. split; [vm_compute; reflexivity|]. split; vm_compute; reflexivity. Qed.
