(* ===== verification/Vfs.v ===== *)
(** File descriptors: fs/fs_files.c, fs_open.c, fs_close.c, fs_filedup.c,
    fs_filedup2.c, fs_dup.c, fs_read.c, fs_write.c, fs_lseek.c, fs_ioctl.c,
    fs_fcntl.c and, for the tasks that share or inherit them,
    sched/sched_getfiles.c, sched_setuptaskfiles.c, sched_setuppthreadfiles.c and
    sched_releasefiles.c; without sockets and without the streams of stdio.

    The operations of drivers and mounted file systems are functions on a state
    of their own ([D]), which holds the devices and the buffers of the callers;
    [ops p] is the table of operations at the pointer [p].  A [struct filelist] is
    a record at the address the allocator gave, whose first field is its
    semaphore; the pointer to an element of its table is the pair of that address
    and the index.  An access outside the table or to freed memory is [None].  A
    function that fails returns -1 with the error number in the running task. *)

From Stdlib Require Import Ascii.
From stdpp Require Import base numbers gmap sorting list strings.
From S2P Require Import Prelude Memory Queue Sched Sem Kmalloc Inode.

Definition ENXIO : Z := 6.
Definition EBADF : Z := 9.
Definition EACCES : Z := 13.
Definition EMFILE : Z := 24.
Definition ENOSYS : Z := 38.

Definition O_RDOK : Z := 0x01.
Definition O_WROK : Z := 0x02.

Definition SEEK_SET : Z := 0.
Definition SEEK_CUR : Z := 1.
Definition SEEK_END : Z := 2.

Definition F_DUPFD : Z := 0.
Definition F_GETFD : Z := 1.
Definition F_GETFL : Z := 2.
Definition F_GETLK : Z := 4.
Definition F_GETOWN : Z := 5.
Definition F_SETFD : Z := 8.
Definition F_SETFL : Z := 9.
Definition F_SETLK : Z := 11.
Definition F_SETLKW : Z := 12.
Definition F_SETOWN : Z := 13.

Definition CONFIG_NFILE_DESCRIPTORS : Z := 8.
(** [sizeof(struct filelist)]: two 16-bit fields and eight files of 16 bytes. *)
Definition FILELIST_SIZE : Z := 132.

(** ** Files and operations *)

Record file := mk_file { f_oflags : Z; f_pos : Z; f_inode : Z; f_priv : Z }.
Definition with_oflags v f := mk_file v (f_pos f) (f_inode f) (f_priv f).
Definition with_pos v f := mk_file (f_oflags f) v (f_inode f) (f_priv f).

Record filelist := mk_filelist { fl_crefs : Z; fl_files : list file }.

(** What a driver does: it gets [i_private] of the inode, and may change the file
    and its own state. *)
Definition driver_fn (D : Type) : Type := Z → file → D → Z * file * D.

(** A null pointer is [None].  Both kinds of tables have [open] in the first
    place; a mounted file system also gets the path, the flags and the mode. *)
Record file_operations (D : Type) := {
  op_open : option (option (option string * Z * Z) → driver_fn D);
  op_close : option (driver_fn D);
  op_read : option (Z → Z → driver_fn D);
  op_write : option (Z → Z → driver_fn D);
  op_seek : option (Z → Z → driver_fn D);
  op_ioctl : option (Z → Z → driver_fn D) }.
Arguments op_open {D}.
Arguments op_close {D}.
Arguments op_read {D}.
Arguments op_write {D}.
Arguments op_seek {D}.
Arguments op_ioctl {D}.

(** The inodes with semaphores and memory, the file lists, the field [filelist]
    of the task control blocks, and the state of the drivers. *)
Record vfsst {A D : Type} := mk_vfs {
  v_fs : fsst A; filelists : gmap Z filelist; tcb_filelist : gmap Z Z; v_dev : D }.
Arguments vfsst : clear implicits.
Arguments mk_vfs {A D}.

(** [FAR struct file *]: the list and the index. *)
Definition fileptr : Type := Z * Z.

(** [(unsigned int)fd < CONFIG_NFILE_DESCRIPTORS] *)
Definition is_filedes (fd : Z) : bool := w32 fd <? CONFIG_NFILE_DESCRIPTORS.

Section Vfs.
Context {A : Type} `{Kmalloc A} {D : Type}.
Variable tree_sem : Z.
Variable ops : Z → file_operations D.
Implicit Types st : vfsst A D.

Definition with_fs (s : fsst A) st : vfsst A D := mk_vfs s (filelists st) (tcb_filelist st) (v_dev st).
Definition with_filelists m st : vfsst A D := mk_vfs (v_fs st) m (tcb_filelist st) (v_dev st).
Definition with_tcb_filelist m st : vfsst A D := mk_vfs (v_fs st) (filelists st) m (v_dev st).
Definition with_dev (d : D) st : vfsst A D := mk_vfs (v_fs st) (filelists st) (tcb_filelist st) d.

(** [errno = err; return ERROR] *)
Definition fails (err : Z) st : option (Z * vfsst A D) :=
  Some (-1, with_fs (with_fs_sem (set_errno err (fs_sem (v_fs st))) (v_fs st)) st).

(** The calls on inodes and semaphores. *)
Definition v_addref (node : Z) st : option (vfsst A D) := s ← inode_addref tree_sem node (v_fs st); Some (with_fs s st).
Definition v_release (node : Z) st : option (vfsst A D) := s ← inode_release tree_sem node (v_fs st); Some (with_fs s st).
Definition v_inode (node : Z) st : option inode := inode_at node (v_fs st).
Definition _files_semtake (list : Z) st : option (vfsst A D) :=
  s ← sem_take list (fs_sem (v_fs st)); Some (with_fs (with_fs_sem s (v_fs st)) st).
Definition _files_semgive (list : Z) st : option (vfsst A D) :=
  s ← sem_give list (fs_sem (v_fs st)); Some (with_fs (with_fs_sem s (v_fs st)) st).

(** [filep->..] and an assignment to it. *)
Definition file_at (filep : fileptr) st : option file :=
  fl ← filelists st !! filep.1;
  if 0 <=? filep.2 then fl_files fl !! Z.to_nat filep.2 else None.
Definition set_file (filep : fileptr) (f : file) st : option (vfsst A D) :=
  fl ← filelists st !! filep.1;
  _ ← file_at filep st;
  Some (with_filelists
    (<[filep.1 := mk_filelist (fl_crefs fl) (<[Z.to_nat filep.2 := f]> (fl_files fl))]> (filelists st)) st).

(** A call of a driver. *)
Definition driver_call (fn : driver_fn D) (filep : fileptr) st : option (Z * vfsst A D) :=
  f ← file_at filep st;
  x ← v_inode (f_inode f) st;
  let '(ret, f, d) := fn (i_private x) f (v_dev st) in
  st ← set_file filep f (with_dev d st);
  Some (ret, st).

(** The operation [op] of the inode, when [inode->u.i_ops && inode->u.i_ops->op]. *)
Definition operation {X : Type} (op : file_operations D → option X) (x : inode) : option X :=
  if negb (i_ops x =? 0) then op (ops (i_ops x)) else None.

(** ** sched_getfiles.c *)

Definition sched_getfiles st : Z := default 0 (tcb_filelist st !! this_task (sch (fs_sem (v_fs st)))).

(** ** fs_files.c *)

Definition _files_close (filep : fileptr) st : option (Z * vfsst A D) :=
  f ← file_at filep st;
  let inode := f_inode f in
  if negb (inode =? 0) then
    x ← v_inode inode st;
    '(ret, st) ← (match operation op_close x with
                  | Some close => driver_call close filep st
                  | None => Some (0, st)
                  end);
    st ← v_release inode st;
    f ← file_at filep st;
    st ← set_file filep (mk_file 0 0 0 (f_priv f)) st;
    Some (ret, st)
  else Some (0, st).

Definition files_alloclist st : option (Z * vfsst A D) :=
  '(list, h) ← kzalloc FILELIST_SIZE (fs_heap (v_fs st));
  let st := with_fs (with_heap h (v_fs st)) st in
  if negb (list =? 0) then
    let fl := mk_filelist 1 (replicate (Z.to_nat CONFIG_NFILE_DESCRIPTORS) (mk_file 0 0 0 0)) in
    let s := snd (sem_init list 1 (fs_sem (v_fs st))) in
    Some (list, with_filelists (<[list := fl]> (filelists st)) (with_fs (with_fs_sem s (v_fs st)) st))
  else Some (list, st).

Definition with_crefs_list (v list : Z) st : option (vfsst A D) :=
  fl ← filelists st !! list;
  Some (with_filelists (<[list := mk_filelist (i16 v) (fl_files fl)]> (filelists st)) st).

Definition files_addreflist (list : Z) st : option (Z * vfsst A D) :=
  if negb (list =? 0) then
    fl ← filelists st !! list;
    st ← with_crefs_list (fl_crefs fl + 1) list st;
    Some (0, st)
  else Some (0, st).

(** The [for] loop of [files_releaselist] over the descriptors from [i] on. *)
Fixpoint closeall_loop (n : nat) (i list : Z) st : option (vfsst A D) :=
  match n with
  | O => Some st
  | S n => '(_, st) ← _files_close (list, i) st; closeall_loop n (i + 1) list st
  end.

(** [sched_free] outside interrupts, when the semaphore of the heap is free. *)
Definition files_free (list : Z) st : option (vfsst A D) :=
  h ← kfree list (fs_heap (v_fs st));
  Some (with_filelists (delete list (filelists st)) (with_fs (with_heap h (v_fs st)) st)).

Definition files_releaselist (list : Z) st : option (Z * vfsst A D) :=
  if negb (list =? 0) then
    fl ← filelists st !! list;
    let crefs := i16 (fl_crefs fl - 1) in
    st ← with_crefs_list crefs list st;
    if crefs <=? 0 then
      st ← closeall_loop (Z.to_nat CONFIG_NFILE_DESCRIPTORS) 0 list st;
      let s := snd (sem_destroy list (fs_sem (v_fs st))) in
      st ← files_free list (with_fs (with_fs_sem s (v_fs st)) st);
      Some (0, st)
    else Some (0, st)
  else Some (0, st).

(** The end of [files_dup], from [errout_with_ret] on. *)
Definition files_dup_fail (ret list : Z) st : option (Z * vfsst A D) :=
  st ← _files_semgive list st;
  fails (- ret) st.

Definition files_dup (filep1 filep2 : fileptr) st : option (Z * vfsst A D) :=
  f1 ← file_at filep1 st;
  if f_inode f1 =? 0 then fails EBADF st else
  x ← v_inode (f_inode f1) st;
  if INODE_IS_MOUNTPT x then fails ENOSYS st else
  let list := sched_getfiles st in
  if list =? 0 then fails EMFILE st else
  st ← _files_semtake list st;
  '(ret, st) ← _files_close filep2 st;
  if ret <? 0 then files_dup_fail ret list st else
  f1 ← file_at filep1 st;
  let inode := f_inode f1 in
  st ← v_addref inode st;
  f2 ← file_at filep2 st;
  st ← set_file filep2 (mk_file (f_oflags f1) (f_pos f1) inode (f_priv f2)) st;
  x ← v_inode inode st;
  '(ret, st) ← (match operation op_open x with
                | Some open => driver_call (open None) filep2 st
                | None => Some (0, st)
                end);
  if ret <? 0 then
    f2 ← file_at filep2 st;
    st ← v_release (f_inode f2) st;
    st ← set_file filep2 (mk_file 0 0 0 (f_priv f2)) st;
    files_dup_fail ret list st
  else
    st ← _files_semgive list st;
    Some (0, st).

(** The [for] loop of [files_allocate]. *)
Fixpoint allocate_loop (n : nat) (i inode oflags pos list : Z) st : option (Z * vfsst A D) :=
  match n with
  | O => st ← _files_semgive list st; Some (-1, st)
  | S n =>
      f ← file_at (list, i) st;
      if f_inode f =? 0 then
        st ← set_file (list, i) (mk_file oflags pos inode (f_priv f)) st;
        st ← _files_semgive list st;
        Some (i, st)
      else allocate_loop n (i + 1) inode oflags pos list st
  end.

Definition files_allocate (inode oflags pos minfd : Z) st : option (Z * vfsst A D) :=
  let list := sched_getfiles st in
  if negb (list =? 0) then
    st ← _files_semtake list st;
    allocate_loop (Z.to_nat (CONFIG_NFILE_DESCRIPTORS - minfd)) minfd inode oflags pos list st
  else Some (-1, st).

Definition files_close (filedes : Z) st : option (Z * vfsst A D) :=
  let list := sched_getfiles st in
  if list =? 0 then Some (- EMFILE, st) else
  if (filedes <? 0) || (CONFIG_NFILE_DESCRIPTORS <=? filedes) then Some (- EBADF, st) else
  f ← file_at (list, filedes) st;
  if f_inode f =? 0 then Some (- EBADF, st) else
  st ← _files_semtake list st;
  '(ret, st) ← _files_close (list, filedes) st;
  st ← _files_semgive list st;
  Some (ret, st).

Definition files_release (filedes : Z) st : option (vfsst A D) :=
  let list := sched_getfiles st in
  if negb (list =? 0) then
    if (0 <=? filedes) && (filedes <? CONFIG_NFILE_DESCRIPTORS) then
      st ← _files_semtake list st;
      f ← file_at (list, filedes) st;
      st ← set_file (list, filedes) (mk_file 0 0 0 (f_priv f)) st;
      _files_semgive list st
    else Some st
  else Some st.

(** ** fs_open.c *)

(** Only called when [inode->u.i_ops] is not null. *)
Definition inode_checkflags (x : inode) (oflags : Z) : Z :=
  let o := ops (i_ops x) in
  if (negb (Z.land oflags O_RDOK =? 0) && bool_decide (op_read o = None)) ||
     (negb (Z.land oflags O_WROK =? 0) && bool_decide (op_write o = None))
  then - EACCES else 0.

(** From [errout_with_inode] on. *)
Definition open_fail (ret inode : Z) st : option (Z * vfsst A D) :=
  st ← v_release inode st;
  fails ret st.

Definition open (path : string) (oflags : Z) st : option (Z * vfsst A D) :=
  let mode := 438 in
  let list := sched_getfiles st in
  if list =? 0 then fails EMFILE st else
  '(inode, relpath, s) ← inode_find tree_sem path (v_fs st);
  let st := with_fs s st in
  if inode =? 0 then fails ENOENT st else
  x ← v_inode inode st;
  if (negb (INODE_IS_DRIVER x) && negb (INODE_IS_MOUNTPT x)) || (i_ops x =? 0) then open_fail ENXIO inode st else
  let ret := inode_checkflags x oflags in
  if ret <? 0 then open_fail (- ret) inode st else
  '(fd, st) ← files_allocate inode oflags 0 0 st;
  if fd <? 0 then open_fail EMFILE inode st else
  '(ret, st) ← (match op_open (ops (i_ops x)) with
                | Some open =>
                    driver_call (open (if INODE_IS_MOUNTPT x then Some (relpath, oflags, mode) else None)) (list, fd) st
                | None => Some (0, st)
                end);
  if ret <? 0 then
    st ← files_release fd st;
    open_fail (- ret) inode st
  else Some (fd, st).

(** ** fs_close.c *)

Definition close (fd : Z) st : option (Z * vfsst A D) :=
  if negb (is_filedes fd) then fails EBADF st else
  '(ret, st) ← files_close fd st;
  if ret <? 0 then fails (- ret) st else Some (0, st).

(** ** fs_filedup.c, fs_filedup2.c, fs_dup.c *)

Definition DUP_ISOPEN (fd list : Z) st : option bool :=
  if is_filedes fd then f ← file_at (list, fd) st; Some (negb (f_inode f =? 0)) else Some false.

Definition file_dup (fildes minfd : Z) st : option (Z * vfsst A D) :=
  let list := sched_getfiles st in
  if list =? 0 then fails EMFILE st else
  isopen ← DUP_ISOPEN fildes list st;
  if negb isopen then fails EBADF st else
  f ← file_at (list, fildes) st;
  st ← v_addref (f_inode f) st;
  f ← file_at (list, fildes) st;
  '(fildes2, st) ← files_allocate (f_inode f) (f_oflags f) (f_pos f) minfd st;
  if fildes2 <? 0 then
    '(_, st) ← fails EMFILE st;
    f ← file_at (list, fildes) st;
    st ← v_release (f_inode f) st;
    Some (-1, st)
  else Some (fildes2, st).

Definition dup2 (fildes1 fildes2 : Z) st : option (Z * vfsst A D) :=
  let list := sched_getfiles st in
  if list =? 0 then fails EMFILE st else
  isopen ← DUP_ISOPEN fildes1 list st;
  if negb isopen then fails EBADF st else
  if fildes1 =? fildes2 then Some (fildes1, st) else
  if negb (is_filedes fildes2) then fails EBADF st else
  files_dup (list, fildes1) (list, fildes2) st.

Definition dup (fildes : Z) st : option (Z * vfsst A D) :=
  if is_filedes fildes then file_dup fildes 0 st else fails EBADF st.

(** ** fs_read.c, fs_write.c *)

Definition file_read (fd buf nbytes : Z) st : option (Z * vfsst A D) :=
  let list := sched_getfiles st in
  if list =? 0 then fails EMFILE st else
  '(ret, st) ← (if is_filedes fd then
                  f ← file_at (list, fd) st;
                  if negb (Z.land (f_oflags f) O_RDOK =? 0) then
                    if f_inode f =? 0 then Some (- EBADF, st) else
                    x ← v_inode (f_inode f) st;
                    match operation op_read x with
                    | Some read => driver_call (read buf nbytes) (list, fd) st
                    | None => Some (- EBADF, st)
                    end
                  else Some (- EBADF, st)
                else Some (- EBADF, st));
  if ret <? 0 then fails (- ret) st else Some (ret, st).

Definition read (fd buf nbytes : Z) st : option (Z * vfsst A D) :=
  if negb (is_filedes fd) then fails EBADF st else file_read fd buf nbytes st.

Definition file_write (fd buf nbytes : Z) st : option (Z * vfsst A D) :=
  let list := sched_getfiles st in
  if list =? 0 then fails EMFILE st else
  f ← file_at (list, fd) st;
  if Z.land (f_oflags f) O_WROK =? 0 then fails EBADF st else
  if f_inode f =? 0 then fails EBADF st else
  x ← v_inode (f_inode f) st;
  match operation op_write x with
  | None => fails EBADF st
  | Some write =>
      '(ret, st) ← driver_call (write buf nbytes) (list, fd) st;
      if ret <? 0 then fails (- ret) st else Some (ret, st)
  end.

Definition write (fd buf nbytes : Z) st : option (Z * vfsst A D) :=
  if negb (is_filedes fd) then fails EBADF st else file_write fd buf nbytes st.

(** ** fs_lseek.c *)

(** [return filep->f_pos] *)
Definition lseek_end (filep : fileptr) st : option (Z * vfsst A D) :=
  f ← file_at filep st; Some (f_pos f, st).

(** The case [SEEK_SET], which [SEEK_CUR] falls into. *)
Definition lseek_set (offset : Z) (filep : fileptr) st : option (Z * vfsst A D) :=
  if 0 <=? offset then
    f ← file_at filep st;
    st ← set_file filep (with_pos offset f) st;
    lseek_end filep st
  else fails EINVAL st.

Definition lseek (fd offset whence : Z) st : option (Z * vfsst A D) :=
  if negb (is_filedes fd) then fails EBADF st else
  let list := sched_getfiles st in
  if list =? 0 then fails EMFILE st else
  let filep := (list, fd) in
  f ← file_at filep st;
  if f_inode f =? 0 then lseek_end filep st else
  x ← v_inode (f_inode f) st;
  if i_ops x =? 0 then lseek_end filep st else
  match op_seek (ops (i_ops x)) with
  | Some seek =>
      '(err, st) ← driver_call (seek offset whence) filep st;
      if err <? 0 then fails (- err) st else lseek_end filep st
  | None =>
      if whence =? SEEK_CUR then lseek_set (i32 (offset + f_pos f)) filep st
      else if whence =? SEEK_SET then lseek_set offset filep st
      else if whence =? SEEK_END then fails ENOSYS st
      else fails EINVAL st
  end.

(** ** fs_ioctl.c *)

Definition ioctl (fd req arg : Z) st : option (Z * vfsst A D) :=
  if negb (is_filedes fd) then fails EBADF st else
  let list := sched_getfiles st in
  if list =? 0 then fails EMFILE st else
  f ← file_at (list, fd) st;
  if f_inode f =? 0 then Some (0, st) else
  x ← v_inode (f_inode f) st;
  match operation op_ioctl x with
  | Some ioctl =>
      '(ret, st) ← driver_call (ioctl req arg) (list, fd) st;
      if ret <? 0 then fails (- ret) st else Some (ret, st)
  | None => Some (0, st)
  end.

(** ** fs_fcntl.c *)

(** [arg] is the optional argument; the value of [ret] is not used. *)
Definition file_vfcntl (fildes cmd arg : Z) st : option (Z * vfsst A D) :=
  let list := sched_getfiles st in
  if list =? 0 then fails EMFILE st else
  f ← file_at (list, fildes) st;
  if f_inode f =? 0 then fails EBADF st else
  if cmd =? F_DUPFD then '(_, st) ← file_dup fildes arg st; Some (0, st)
  else if (cmd =? F_GETFD) || (cmd =? F_SETFD) then fails ENOSYS st
  else if cmd =? F_GETFL then Some (0, st)
  else if cmd =? F_SETFL then st ← set_file (list, fildes) (with_oflags arg f) st; Some (0, st)
  else if (cmd =? F_GETOWN) || (cmd =? F_SETOWN) then fails EBADF st
  else if (cmd =? F_GETLK) || (cmd =? F_SETLK) || (cmd =? F_SETLKW) then fails ENOSYS st
  else fails EINVAL st.

Definition fcntl (fildes cmd arg : Z) st : option (Z * vfsst A D) :=
  if is_filedes fildes then file_vfcntl fildes cmd arg st else Some (EBADF, st).

(** ** Tasks: sched_setuptaskfiles.c, sched_setuppthreadfiles.c, sched_releasefiles.c *)

(** The [for] loop over the parent's descriptors. *)
Fixpoint clone_loop (n : nat) (i parent child : Z) st : option (vfsst A D) :=
  match n with
  | O => Some st
  | S n =>
      f ← file_at (parent, i) st;
      st ← (if negb (f_inode f =? 0) then '(_, st) ← files_dup (parent, i) (child, i) st; Some st else Some st);
      clone_loop n (i + 1) parent child st
  end.

Definition set_tcb_filelist (tcb list : Z) st : vfsst A D :=
  with_tcb_filelist (<[tcb := list]> (tcb_filelist st)) st.

Definition sched_setuptaskfiles (tcb : Z) st : option (Z * vfsst A D) :=
  '(list, st) ← files_alloclist st;
  let st := set_tcb_filelist tcb list st in
  if list =? 0 then Some (- ENOMEM, st) else
  let parent := sched_getfiles st in
  st ← (if negb (parent =? 0) then clone_loop (Z.to_nat CONFIG_NFILE_DESCRIPTORS) 0 parent list st else Some st);
  Some (0, st).

Definition sched_setuppthreadfiles (tcb : Z) st : option (Z * vfsst A D) :=
  let list := sched_getfiles st in
  let st := set_tcb_filelist tcb list st in
  '(_, st) ← files_addreflist list st;
  Some (0, st).

Definition sched_releasefiles (tcb : Z) st : option (Z * vfsst A D) :=
  if negb (tcb =? 0) then
    let list := default 0 (tcb_filelist st !! tcb) in
    if negb (list =? 0) then
      '(_, st) ← files_releaselist list st;
      Some (0, set_tcb_filelist tcb 0 st)
    else Some (0, st)
  else Some (0, st).
End Vfs.
