(* ===== verification/VfsInv.v ===== *)
(** The invariant of the file lists: every descriptor that is open counts as one
    reference to its inode, every task that uses a list as one to the list. *)

From Stdlib Require Import Ascii.
From stdpp Require Import base numbers gmap sorting list strings.
From S2P Require Import Prelude Memory Queue Sched Sem SemThms Kmalloc Inode InodeTree InodeRep InodeInv InodeOps.
From S2P Require Import InodeCalls InodeSpec Vfs.

(** ** Sums over the values of a map *)

Section Msum.
Context {V : Type} (g : V → Z).
Implicit Types m : gmap Z V.

Definition msum m : Z := map_fold (λ _ v n, g v + n) 0 m.

Lemma msum_delete m k v : m !! k = Some v → msum m = g v + msum (delete k m).
Proof. intros Hk. unfold msum. apply (map_fold_delete_L (λ _ v n, g v + n) 0 k v m); [intros; lia|done]. Qed.

Lemma msum_insert m k v : msum (<[k := v]> m) = g v + msum (delete k m).
Proof.
  rewrite (msum_delete (<[k := v]> m) k v) by apply lookup_insert_eq. by rewrite delete_insert_eq.
Qed.

Lemma msum_new m k v : m !! k = None → msum (<[k := v]> m) = g v + msum m.
Proof. intros Hk. rewrite msum_insert. by rewrite delete_id. Qed.

Lemma msum_replace m k v v' : m !! k = Some v → msum (<[k := v']> m) = msum m - g v + g v'.
Proof. intros Hk. rewrite msum_insert, (msum_delete m k v Hk). lia. Qed.

Lemma msum_nonneg m : (∀ v, 0 ≤ g v) → 0 ≤ msum m.
Proof. intros Hg. unfold msum. apply (map_fold_weak_ind (λ n _, 0 ≤ n)); [done|].
  intros ? v ? ? ? ?. specialize (Hg v). lia.
Qed.

Lemma msum_elem m k v : (∀ v, 0 ≤ g v) → m !! k = Some v → g v ≤ msum m.
Proof.
  intros Hg Hk. rewrite (msum_delete m k v Hk). pose proof (msum_nonneg (delete k m) Hg). lia.
Qed.
End Msum.

(** ** References of descriptors and tasks *)

(** The references to the inode [a] of a descriptor and of a list. *)
Definition holds (a : Z) (f : file) : Z := if decide (f_inode f = a ∧ a ≠ 0) then 1 else 0.
Definition sum_holds (a : Z) (l : list file) : Z := foldr (λ f n, holds a f + n) 0 l.
Definition fdrefs (m : gmap Z filelist) (a : Z) : Z := msum (λ fl, sum_holds a (fl_files fl)) m.

(** The tasks that use the list [l]. *)
Definition users (m : gmap Z Z) (l : Z) : Z := msum (λ l', if decide (l' = l) then 1 else 0) m.

Lemma holds_range a f : 0 ≤ holds a f ≤ 1.
Proof. unfold holds. destruct (decide _); lia. Qed.

Lemma holds_self f : f_inode f ≠ 0 → holds (f_inode f) f = 1.
Proof. intros ?. by apply decide_True. Qed.

Lemma holds_closed a f : f_inode f = 0 → holds a f = 0.
Proof. intros E. apply decide_False. intros [? ?]. congruence. Qed.

Lemma holds_null f : holds 0 f = 0.
Proof. by apply decide_False; intros []. Qed.

Lemma holds_inode a f f' : f_inode f = f_inode f' → holds a f = holds a f'.
Proof. unfold holds. by intros ->. Qed.

Lemma sum_holds_nonneg a l : 0 ≤ sum_holds a l.
Proof. induction l as [|f l IH]; cbn; [lia|]. pose proof (holds_range a f). unfold sum_holds in IH. lia. Qed.

Lemma sum_holds_insert a l (i : nat) f f' : l !! i = Some f →
  sum_holds a (<[i := f']> l) = sum_holds a l - holds a f + holds a f'.
Proof.
  revert i. induction l as [|g l IH]; intros [|i]; [done|done| |].
  - intros [= ->]. unfold sum_holds. cbn. lia.
  - intros Hi. specialize (IH _ Hi). unfold sum_holds in *.
    change (<[S i := f']> (g :: l)) with (g :: <[i := f']> l). cbn [foldr]. lia.
Qed.

Lemma sum_holds_elem a l (i : nat) f : l !! i = Some f → holds a f ≤ sum_holds a l.
Proof.
  revert i. induction l as [|g l IH]; intros [|i]; [done|done| |].
  - intros [= ->]. cbn. pose proof (sum_holds_nonneg a l). unfold sum_holds in *. lia.
  - intros Hi. specialize (IH _ Hi). cbn. pose proof (holds_range a g). unfold sum_holds in *. lia.
Qed.

Lemma sum_holds_closed a l : Forall (λ f, f_inode f = 0) l → sum_holds a l = 0.
Proof. induction 1 as [|f l Hf _ IH]; [done|]. cbn. unfold sum_holds in IH. rewrite holds_closed by done. lia. Qed.

Lemma fdrefs_nonneg m a : 0 ≤ fdrefs m a.
Proof. apply msum_nonneg. intros fl. apply sum_holds_nonneg. Qed.

Lemma fdrefs_null m : fdrefs m 0 = 0.
Proof.
  unfold fdrefs, msum. apply (map_fold_weak_ind (λ n _, n = 0)); [done|]. intros _ fl _ n _ ->.
  assert (E : sum_holds 0 (fl_files fl) = 0); [|lia].
  induction (fl_files fl) as [|f l IH]; [done|]. cbn. unfold sum_holds in IH. rewrite holds_null. lia.
Qed.

Lemma users_nonneg m l : 0 ≤ users m l.
Proof. apply msum_nonneg. intros v. destruct (decide _); lia. Qed.

(** ** Releasing an inode, when nothing below a removed one is referenced *)

Definition quiet (D : list itree) (R : Z → Z) : Prop :=
  ∀ d b, d ∈ D → b ∈ nodes d → b ∉ top d → R b = 0.

Section Release.
Context {A : Type} {HA : Kmalloc A} {HL : KmallocLaws A}.
Variable tree_sem : Z.

Lemma fs_inv_ext (st : fsst A) t D R R' Y : fs_inv st t D R Y → (∀ a, R' a = R a) → fs_inv st t D R' Y.
Proof.
  intros [] HR. constructor; [done|..]; intros *; rewrite ?HR; eauto.
Qed.

Lemma release_run (st : fsst A) t D R Y a : fs_inv st t D R Y → tree_free tree_sem st → 1 ≤ R a → quiet D R →
  ∃ st' D', inode_release tree_sem a st = Some st' ∧ fs_inv st' t D' (upd R a (R a - 1)) Y ∧
    same_sems (fs_sem st) (fs_sem st') ∧ D' ⊆ D ∧
    (∀ b, upd R a (R a - 1) b ≠ 0 → kind_at (inodes st') b = kind_at (inodes st) b) ∧
    (a ∈ nodes t → D' = D ∧ ∀ b, kind_at (inodes st') b = kind_at (inodes st) b).
Proof.
  intros Hi Hf HR Hq. pose proof (fi_shape _ _ _ _ _ Hi) as Hsh.
  assert (Hrel : released (R a) = R a - 1) by (unfold released; by rewrite (proj2 (Z.eqb_neq (R a) 0)) by lia).
  assert (Ha : is_Some (inodes st !! a)).
  { apply (sh_dom _ _ _ _ Hsh). destruct (decide (a ∈ all_nodes t D)) as [|Hn]; [done|].
    pose proof (fi_norefs _ _ _ _ _ Hi _ Hn). lia. }
  assert (Hc : (released (R a) ≠ 0 ∨ a ∉ D ≫= top) ∨ R a = 1 ∧ a ∈ D ≫= top).
  { destruct (decide (a ∈ D ≫= top)), (decide (R a = 1)); [by right|left; left; lia|left; by right..]. }
  destruct Hc as [Hkeep|[H1 Htop]].
  - destruct (release_keep tree_sem _ _ _ _ _ a Hi Hf Ha Hkeep) as (st' & E & Hi' & Hss & Hk).
    rewrite Hrel in Hi'. exists st', D. by split_and!.
  - apply list_elem_of_bind in Htop as (d & Had & (D1 & D2 & ->)%list_elem_of_split).
    assert (Hin : d ∈ D1 ++ d :: D2) by (rewrite elem_of_app; right; apply list_elem_of_here).
    assert (Hrm : removed (inodes st) d).
    { pose proof (sh_removed _ _ _ _ Hsh) as HD. rewrite Forall_forall in HD. by apply HD. }
    destruct Hrm as (a' & n & c & -> & _). apply list_elem_of_singleton in Had as <-.
    pose proof (sh_nodup _ _ _ _ Hsh) as Hnd. pose proof (removed_nodes t a n c D1 D2) as Hp.
    rewrite Hp in Hnd. cbn [app] in Hnd. apply NoDup_cons in Hnd as [Hac _]. rewrite elem_of_app in Hac.
    destruct (release_drop tree_sem _ _ _ _ _ _ _ _ _ Hi Hf H1) as (st' & E & Hi' & Hss & Hk).
    { intros b Hb. apply (Hq (INode a n c ILeaf)); [done| |].
      - cbn. rewrite elem_of_cons, elem_of_app. tauto.
      - intros ->%list_elem_of_singleton. tauto. }
    exists st', (D1 ++ D2). rewrite H1. cbn [Z.sub Z.opp Z.add Z.pos_sub]. split_and!; [done|done|done| | |].
    + intros x. rewrite !elem_of_app, elem_of_cons. tauto.
    + intros b Hb. rewrite Hk. apply decide_False. intros [->|Hbc]; [by rewrite upd_same in Hb|].
      destruct Hb. rewrite upd_other by (intros ->; tauto).
      apply (Hq (INode a n c ILeaf)); [done| |].
      * cbn. rewrite elem_of_cons, elem_of_app. tauto.
      * intros ->%list_elem_of_singleton. tauto.
    + intros Hat. exfalso. apply (sh_apart _ _ _ _ a Hsh Hat). apply list_elem_of_bind.
      eexists. split; [|exact Hin]. apply list_elem_of_here.
Qed.
End Release.

(** ** The invariant *)

Definition more (E : Z → Z) (a : Z) : Z → Z := upd E a (E a + 1).
Definition refs (E : Z → Z) (m : gmap Z filelist) (a : Z) : Z := E a + fdrefs m a.

(** What [open] accepts: a driver or a mount point with operations. *)
Definition openable (x : inode) : bool := (INODE_IS_DRIVER x || INODE_IS_MOUNTPT x) && negb (i_ops x =? 0).

Lemma openable_kind x y : kind x = kind y → openable x = openable y ∧ i_private x = i_private y ∧ i_ops x = i_ops y.
Proof. intros [= Hf Ho Hp]. unfold openable, INODE_IS_DRIVER, INODE_IS_MOUNTPT. by rewrite Hf, Ho, Hp. Qed.

Lemma kind_some m m' a x : kind_at m' a = kind_at m a → m !! a = Some x → ∃ y, m' !! a = Some y ∧ kind y = kind x.
Proof.
  unfold kind_at. intros E Hx. rewrite Hx in E. apply fmap_Some in E as (y & Hy & Hk). by exists y.
Qed.

(** The table with the file at [p] replaced. *)
Definition put_file (p : fileptr) (f : file) (m : gmap Z filelist) : gmap Z filelist :=
  alter (λ fl, mk_filelist (fl_crefs fl) (<[Z.to_nat p.2 := f]> (fl_files fl))) p.1 m.

(** Drivers leave the inode and the flags of the file alone. *)
Definition keeps_file {D} (fn : driver_fn D) : Prop := ∀ p f d r f' d',
  fn p f d = (r, f', d') → f_inode f' = f_inode f ∧ f_oflags f' = f_oflags f.

Record ops_ok {D} (o : file_operations D) : Prop := {
  ok_open fn x : op_open o = Some fn → keeps_file (fn x);
  ok_close fn : op_close o = Some fn → keeps_file fn;
  ok_read fn b n : op_read o = Some fn → keeps_file (fn b n);
  ok_write fn b n : op_write o = Some fn → keeps_file (fn b n);
  ok_seek fn b n : op_seek o = Some fn → keeps_file (fn b n);
  ok_ioctl fn b n : op_ioctl o = Some fn → keeps_file (fn b n) }.

Lemma more_same E a : more E a a = E a + 1.
Proof. apply upd_same. Qed.
Lemma more_other E a b : b ≠ a → more E a b = E b.
Proof. apply upd_other. Qed.

Lemma refs_more E a m b : refs (more E a) m b = upd (refs E m) a (refs E m a + 1) b.
Proof.
  unfold refs. destruct (decide (b = a)) as [->|Hb]; [rewrite more_same, upd_same; lia|].
  by rewrite more_other, upd_other.
Qed.

Section Inv.
Context {A : Type} {HA : Kmalloc A} {HL : KmallocLaws A} {D : Type}.
Variable tree_sem : Z.
Variable ops : Z → file_operations D.
Implicit Types st : vfsst A D.

(** [t] and [G] are the tree of inodes and the removed trees, [E] the references
    that are not descriptors, [Y] the other memory in use. *)
Record files_inv st (t : itree) (G : list itree) (E : Z → Z) (Y : gset Z) : Prop := {
  vi_fs : fs_inv (v_fs st) t G (refs E (filelists st)) (dom (filelists st) ∪ Y);
  vi_apart : dom (filelists st) ## Y;
  vi_length l fl : filelists st !! l = Some fl → length (fl_files fl) = 8%nat;
  vi_open p f : file_at p st = Some f → f_inode f ≠ 0 →
    ∃ x, inodes (v_fs st) !! f_inode f = Some x ∧ openable x = true;
  vi_quiet : quiet G (refs E (filelists st)) }.

(** What a call on files leaves alone: the tasks' lists and their counts, and the
    semaphores. *)
Record frame st st' : Prop := {
  fr_tcb : tcb_filelist st' = tcb_filelist st;
  fr_crefs l : fl_crefs <$> filelists st' !! l = fl_crefs <$> filelists st !! l;
  fr_sems : same_sems (fs_sem (v_fs st)) (fs_sem (v_fs st')) }.

#[export] Instance frame_preorder : PreOrder frame.
Proof.
  split; [by constructor|]. intros s1 s2 s3 [T1 C1 S1] [T2 C2 S2].
  constructor; [by rewrite T2|intros l; by rewrite C2|by transitivity (fs_sem (v_fs s2))].
Qed.

Lemma frame_files st st' : frame st st' → sched_getfiles st' = sched_getfiles st.
Proof.
  intros [Ht _ [_ Hq]]. unfold sched_getfiles, this_task. by rewrite Ht, Hq.
Qed.

Lemma frame_dom st st' l : frame st st' → is_Some (filelists st !! l) → is_Some (filelists st' !! l).
Proof. intros Hf. by rewrite <-!(fmap_is_Some fl_crefs), (fr_crefs _ _ Hf). Qed.

Lemma frame_fs st s : same_sems (fs_sem (v_fs st)) (fs_sem s) → frame st (with_fs s st).
Proof. by constructor. Qed.

(** *** One file *)

Lemma file_at_iff p st f : file_at p st = Some f ↔
  ∃ fl, filelists st !! p.1 = Some fl ∧ 0 ≤ p.2 ∧ fl_files fl !! Z.to_nat p.2 = Some f.
Proof.
  unfold file_at. split.
  - destruct (filelists st !! p.1) as [fl|] eqn:E; [|done]. cbn [mbind option_bind].
    destruct (Z.leb_spec 0 p.2); [|done]. intros Hf. by exists fl.
  - intros (fl & -> & Hp & Hf). cbn [mbind option_bind]. by rewrite (proj2 (Z.leb_le 0 p.2)).
Qed.

Lemma file_at_range st t G E Y l fl i : files_inv st t G E Y → filelists st !! l = Some fl → 0 ≤ i < 8 →
  ∃ f, file_at (l, i) st = Some f.
Proof.
  intros Hi Hl Hr. destruct (lookup_lt_is_Some_2 (fl_files fl) (Z.to_nat i)) as [f Hf].
  - rewrite (vi_length _ _ _ _ _ Hi _ _ Hl). lia.
  - exists f. apply file_at_iff. exists fl. split_and!; [done|cbn; lia|done].
Qed.

Lemma set_file_run p f f' st : file_at p st = Some f →
  set_file p f' st = Some (with_filelists (put_file p f' (filelists st)) st).
Proof.
  intros Hf. unfold set_file. rewrite Hf. apply file_at_iff in Hf as (fl & Hl & _). rewrite Hl.
  cbn [mbind option_bind]. do 2 f_equal. apply map_eq. intros k. unfold put_file.
  destruct (decide (k = p.1)) as [->|Hk].
  - by rewrite lookup_insert_eq, lookup_alter_eq, Hl.
  - by rewrite lookup_insert_ne, lookup_alter_ne.
Qed.

Lemma file_at_put p q f f' st st' : file_at p st = Some f → filelists st' = put_file p f' (filelists st) →
  file_at q st' = if decide (q = p) then Some f' else file_at q st.
Proof.
  intros (fl & Hl & Hp & Hf)%file_at_iff E. unfold file_at. rewrite E. unfold put_file.
  assert (Hlen : (Z.to_nat p.2 < length (fl_files fl))%nat) by (by eapply lookup_lt_Some).
  destruct (decide (q.1 = p.1)) as [Eq|Hq].
  - rewrite Eq, lookup_alter_eq, Hl. cbn [mbind option_bind fmap option_fmap option_map fl_files].
    destruct (Z.leb_spec 0 q.2) as [Hq2|Hq2].
    + destruct (decide (q = p)) as [->|Hne]; [by apply list_lookup_insert_eq|].
      apply list_lookup_insert_ne. intros Heq. apply Hne. destruct p, q. cbn in *. f_equal; lia.
    + rewrite decide_False; [done|]. intros ->. lia.
  - rewrite lookup_alter_ne by done. rewrite decide_False; [done|]. by intros ->.
Qed.

Lemma put_crefs p f (m : gmap Z filelist) l : fl_crefs <$> put_file p f m !! l = fl_crefs <$> m !! l.
Proof.
  unfold put_file. destruct (decide (l = p.1)) as [->|Hl]; [|by rewrite lookup_alter_ne].
  rewrite lookup_alter_eq. by destruct (m !! p.1).
Qed.

Lemma dom_put p f m : dom (put_file p f m) = dom m.
Proof. apply dom_alter_L. Qed.

Lemma fdrefs_put p f f' st a : file_at p st = Some f →
  fdrefs (put_file p f' (filelists st)) a = fdrefs (filelists st) a - holds a f + holds a f'.
Proof.
  intros (fl & Hl & Hp & Hf)%file_at_iff. unfold fdrefs, put_file.
  assert (Ea : ∀ g : filelist → filelist, alter g p.1 (filelists st) = <[p.1 := g fl]> (filelists st)).
  { intros g. apply map_eq. intros k. destruct (decide (k = p.1)) as [->|Hk].
    - by rewrite lookup_insert_eq, lookup_alter_eq, Hl.
    - by rewrite lookup_insert_ne, lookup_alter_ne. }
  rewrite Ea, (msum_replace _ _ _ _ _ Hl). cbn [fl_files]. rewrite (sum_holds_insert a _ _ _ f' Hf). lia.
Qed.

Lemma fdrefs_file p f st : file_at p st = Some f → f_inode f ≠ 0 → 1 ≤ fdrefs (filelists st) (f_inode f).
Proof.
  intros (fl & Hl & _ & Hf)%file_at_iff Hn. pose proof (sum_holds_elem (f_inode f) _ _ _ Hf) as Hs.
  rewrite holds_self in Hs by done.
  pose proof (msum_elem (λ fl, sum_holds (f_inode f) (fl_files fl)) _ _ _ (λ _, sum_holds_nonneg _ _) Hl).
  unfold fdrefs. cbn beta in *. lia.
Qed.

Lemma frame_put p f d st : frame st (with_filelists (put_file p f (filelists st)) (with_dev d st)).
Proof. constructor; [done| |done]. intros l. apply put_crefs. Qed.
End Inv.
