(* ===== verification/VfsOps.v ===== *)
(** The steps of the calls on descriptors: references, operations of drivers,
    closing a file, and taking a free descriptor. *)

From Stdlib Require Import Ascii.
From stdpp Require Import base numbers gmap sorting list strings.
From S2P Require Import Prelude Memory Queue Sched Sem SemThms Kmalloc Inode InodeTree InodeRep InodeInv InodeOps.
From S2P Require Import InodeCalls InodeSpec Vfs VfsInv.

Section Ops.
Context {A : Type} {HA : Kmalloc A} {HL : KmallocLaws A} {D : Type}.
Variable tree_sem : Z.
Variable ops : Z → file_operations D.
Hypothesis Hops : ∀ p, ops_ok (ops p).
Implicit Types st : vfsst A D.

(** ** Changing one part of the state *)

Lemma files_inv_ext st t G E E' Y : files_inv st t G E Y → (∀ a, E' a = E a) → files_inv st t G E' Y.
Proof using.
  intros [H1 H2 H3 H4 H5] HE. constructor; try done.
  - eapply fs_inv_ext; [exact H1|]. intros a. unfold refs. by rewrite HE.
  - intros d b Hd Hb Ht. unfold refs. rewrite HE. by eapply H5.
Qed.

Lemma files_inv_dev st t G E Y d : files_inv st t G E Y → files_inv (with_dev d st) t G E Y.
Proof using. by intros []; constructor. Qed.

Lemma files_inv_sem st t G E Y s : files_inv st t G E Y →
  files_inv (with_fs (with_fs_sem s (v_fs st)) st) t G E Y.
Proof using. intros []. constructor; try done. by apply fs_inv_sem. Qed.

Lemma set_file_inv p f f' st t G E E' Y : files_inv st t G E Y → file_at p st = Some f →
  (f_inode f' ≠ 0 → ∃ x, inodes (v_fs st) !! f_inode f' = Some x ∧ openable x = true) →
  (∀ a, E' a + holds a f' = E a + holds a f) →
  files_inv (with_filelists (put_file p f' (filelists st)) st) t G E' Y.
Proof using.
  intros Hi Hf Hopen HE. pose proof Hi as [H1 H2 H3 H4 H5].
  assert (HR : ∀ a, refs E' (put_file p f' (filelists st)) a = refs E (filelists st) a).
  { intros a. unfold refs. rewrite (fdrefs_put _ _ f' _ _ Hf). specialize (HE a). lia. }
  constructor; cbn [v_fs filelists with_filelists]; rewrite ?dom_put; try done.
  - by eapply fs_inv_ext.
  - intros l fl Hl. unfold put_file in Hl. destruct (decide (l = p.1)) as [->|Hne].
    + rewrite lookup_alter_eq in Hl. apply fmap_Some in Hl as (fl' & Hl & ->). cbn. rewrite length_insert.
      by eapply H3.
    + rewrite lookup_alter_ne in Hl by done. by eapply H3.
  - intros q g. rewrite (file_at_put p q f f' st (with_filelists (put_file p f' (filelists st)) st) Hf eq_refl).
    destruct (decide (q = p)); [by intros [= <-]|apply H4].
  - intros d b Hd Hb Ht. rewrite HR. by eapply H5.
Qed.

(** An operation of a driver. *)
Lemma driver_call_run fn p f x r f' d' st t G E Y : files_inv st t G E Y → keeps_file fn →
  file_at p st = Some f → f_inode f ≠ 0 → inodes (v_fs st) !! f_inode f = Some x →
  fn (i_private x) f (v_dev st) = (r, f', d') →
  let st' := with_filelists (put_file p f' (filelists st)) (with_dev d' st) in
  driver_call fn p st = Some (r, st') ∧ files_inv st' t G E Y.
Proof using.
  intros Hi Hk Hf Hn Hx Hfn st'. unfold driver_call. rewrite Hf. cbn [mbind option_bind].
  change (v_inode (f_inode f) st) with (inodes (v_fs st) !! f_inode f). rewrite Hx. cbn [mbind option_bind].
  rewrite Hfn. assert (Hf2 : file_at p (with_dev d' st) = Some f) by exact Hf.
  rewrite (set_file_run _ _ f' _ Hf2). cbn [mbind option_bind]. split; [done|].
  destruct (Hk _ _ _ _ _ _ Hfn) as [Ei _].
  eapply (set_file_inv p f f' (with_dev d' st)); [by apply files_inv_dev|done| |].
  - intros _. rewrite Ei. exact (vi_open _ _ _ _ _ Hi _ _ Hf Hn).
  - intros a. by rewrite (holds_inode a f' f Ei).
Qed.

(** ** References *)

Lemma open_kept st (m : gmap Z inode) : (∀ p f, file_at p st = Some f → f_inode f ≠ 0 →
    ∃ x, inodes (v_fs st) !! f_inode f = Some x ∧ openable x = true) →
  (∀ b, fdrefs (filelists st) b ≠ 0 → kind_at m b = kind_at (inodes (v_fs st)) b) →
  ∀ p f, file_at p st = Some f → f_inode f ≠ 0 → ∃ x, m !! f_inode f = Some x ∧ openable x = true.
Proof using.
  intros H4 Hk p f Hf Hn. destruct (H4 _ _ Hf Hn) as (x & Hx & Ho).
  pose proof (fdrefs_file _ _ _ Hf Hn). destruct (kind_some _ _ _ _ (Hk (f_inode f) ltac:(lia)) Hx) as (y & Hy & Ek).
  exists y. split; [done|]. by rewrite (proj1 (openable_kind _ _ Ek)).
Qed.

Lemma quiet_more st t G E Y a : files_inv st t G E Y → a ∈ nodes t ∨ refs E (filelists st) a ≠ 0 →
  quiet G (refs (more E a) (filelists st)).
Proof using.
  intros [H1 H2 H3 H4 H5] Ha d b Hd Hb Ht. rewrite refs_more.
  destruct (decide (b = a)) as [->|Hne]; [exfalso|by rewrite upd_other; eauto].
  destruct Ha as [Ha|Ha]; [|by apply Ha; eapply H5].
  apply (sh_apart _ _ _ _ a (fi_shape _ _ _ _ _ H1) Ha), list_elem_of_bind. by exists d.
Qed.

Lemma v_addref_run st t G E Y a : files_inv st t G E Y → tree_free tree_sem (v_fs st) →
  1 ≤ refs E (filelists st) a < 0x7fff →
  ∃ s, v_addref tree_sem a st = Some (with_fs s st) ∧ files_inv (with_fs s st) t G (more E a) Y ∧
    same_sems (fs_sem (v_fs st)) (fs_sem s) ∧ ∀ b, kind_at (inodes s) b = kind_at (inodes (v_fs st)) b.
Proof using.
  intros Hi Hf HR. pose proof Hi as [H1 H2 H3 H4 H5]. unfold v_addref.
  destruct (addref_run tree_sem _ _ _ _ _ a H1 Hf) as (s & -> & Hi' & Hss & Hk); [|lia|].
  { apply (sh_dom _ _ _ _ (fi_shape _ _ _ _ _ H1)). destruct (decide (a ∈ all_nodes t G)) as [|Hn]; [done|].
    pose proof (fi_norefs _ _ _ _ _ H1 _ Hn). lia. }
  exists s. split_and!; try done. constructor; try done.
  - eapply fs_inv_ext; [exact Hi'|]. intros b. apply refs_more.
  - apply (open_kept st); [done|]. intros b _. apply Hk.
  - apply (quiet_more st t G E Y a Hi). right. lia.
Qed.

(** A reference that no descriptor holds is given back. *)
Lemma v_release_run st t G E Y a : files_inv st t G (more E a) Y → tree_free tree_sem (v_fs st) → (∀ b, 0 ≤ E b) →
  ∃ s G', v_release tree_sem a st = Some (with_fs s st) ∧ files_inv (with_fs s st) t G' E Y ∧
    same_sems (fs_sem (v_fs st)) (fs_sem s) ∧ (a ∈ nodes t → G' = G) ∧
    ∀ b, a ∈ nodes t ∨ refs E (filelists st) b ≠ 0 → kind_at (inodes s) b = kind_at (inodes (v_fs st)) b.
Proof using.
  intros [H1 H2 H3 H4 H5] Hf HE. unfold v_release.
  pose proof (fdrefs_nonneg (filelists st)) as Hfd.
  assert (Eb : ∀ b, upd (refs (more E a) (filelists st)) a (refs (more E a) (filelists st) a - 1) b =
    refs E (filelists st) b).
  { intros b. rewrite (refs_more E a _ a), upd_same. destruct (decide (b = a)) as [->|Hb].
    - rewrite upd_same. lia.
    - by rewrite upd_other, refs_more, upd_other. }
  destruct (release_run tree_sem _ _ _ _ _ a H1 Hf) as (s & G' & -> & Hi & Hss & Hsub & Hk & Ht);
    [rewrite refs_more, upd_same; unfold refs; specialize (HE a); specialize (Hfd a); lia|done|].
  cbn [mbind option_bind]. exists s, G'. split_and!; [done| |done|by intros [-> _]%Ht|].
  - constructor; try done.
    + eapply fs_inv_ext; [exact Hi|]. intros b. by rewrite Eb.
    + apply (open_kept st); [done|]. intros b Hb. apply Hk. rewrite Eb. unfold refs.
      specialize (HE b). specialize (Hfd b). lia.
    + intros d b Hd Hb Hbt. rewrite <-Eb. destruct (decide (b = a)) as [->|Hne].
      * exfalso. pose proof (H5 _ _ (Hsub _ Hd) Hb Hbt) as E0. rewrite refs_more, upd_same in E0.
        unfold refs in E0. specialize (HE a). specialize (Hfd a). lia.
      * rewrite upd_other by done. eapply H5; [by apply Hsub|done|done].
  - intros b [Hat|Hb]; [by apply Ht|]. apply Hk. by rewrite Eb.
Qed.

(** The reference of the descriptor [p] is given back, and the descriptor cleared. *)
Lemma drop_run st t G E Y p f : files_inv st t G E Y → tree_free tree_sem (v_fs st) → (∀ b, 0 ≤ E b) →
  file_at p st = Some f → f_inode f ≠ 0 →
  let m := put_file p (mk_file 0 0 0 (f_priv f)) (filelists st) in
  ∃ s G', v_release tree_sem (f_inode f) st = Some (with_fs s st) ∧
    files_inv (with_filelists m (with_fs s st)) t G' E Y ∧
    same_sems (fs_sem (v_fs st)) (fs_sem s) ∧ (f_inode f ∈ nodes t → G' = G) ∧
    ∀ b, f_inode f ∈ nodes t ∨ refs E m b ≠ 0 → kind_at (inodes s) b = kind_at (inodes (v_fs st)) b.
Proof using.
  intros [H1 H2 H3 H4 H5] Hf HE Hp Hn m. unfold v_release. set (a := f_inode f) in *.
  pose proof (fdrefs_file _ _ _ Hp Hn) as Hone. fold a in Hone.
  assert (Em : ∀ b, refs E m b = upd (refs E (filelists st)) a (refs E (filelists st) a - 1) b).
  { intros b. unfold refs, m. rewrite (fdrefs_put _ _ _ _ _ Hp), (holds_closed b (mk_file 0 0 0 (f_priv f))) by done.
    destruct (decide (b = a)) as [->|Hb].
    - unfold a at 3. rewrite holds_self, upd_same by done. lia.
    - rewrite upd_other by done. unfold holds. rewrite decide_False by (intros []; by subst b). lia. }
  assert (Hdom : dom m = dom (filelists st)) by apply dom_put.
  destruct (release_run tree_sem _ _ _ _ _ a H1 Hf) as (s & G' & -> & Hi & Hss & Hsub & Hk & Ht);
    [unfold refs; specialize (HE a); lia|done|].
  cbn [mbind option_bind]. exists s, G'. pose proof (fdrefs_nonneg m) as Hfd.
  assert (Hfa : ∀ q, file_at q (with_filelists m (with_fs s st)) =
    if decide (q = p) then Some (mk_file 0 0 0 (f_priv f)) else file_at q st).
  { intros q. by apply (file_at_put p q f). }
  split_and!; [done| |done|by intros [-> _]%Ht|].
  - constructor; cbn [v_fs filelists with_filelists with_fs]; rewrite ?Hdom; try done.
    + eapply fs_inv_ext; [exact Hi|]. intros b. by rewrite Em.
    + intros l fl Hl. unfold m, put_file in Hl. destruct (decide (l = p.1)) as [->|Hne].
      * rewrite lookup_alter_eq in Hl. apply fmap_Some in Hl as (fl' & Hl & ->). cbn. rewrite length_insert.
        by eapply H3.
      * rewrite lookup_alter_ne in Hl by done. by eapply H3.
    + intros q g. rewrite Hfa. destruct (decide (q = p)); [by intros [= <-]|]. intros Hq Hg.
      destruct (H4 _ _ Hq Hg) as (x & Hx & Ho).
      assert (Hgm : 1 ≤ fdrefs m (f_inode g)).
      { apply (fdrefs_file q g (with_filelists m (with_fs s st))); [|done]. by rewrite Hfa, decide_False. }
      destruct (kind_some (inodes (v_fs st)) (inodes s) (f_inode g) x) as (y & Hy & Ek); [|done|].
      { apply Hk. rewrite <-Em. unfold refs. specialize (HE (f_inode g)). lia. }
      exists y. split; [done|]. by rewrite (proj1 (openable_kind _ _ Ek)).
    + intros d b Hd Hb Hbt. rewrite Em. destruct (decide (b = a)) as [->|Hne].
      * exfalso. pose proof (H5 _ _ (Hsub _ Hd) Hb Hbt) as E0. unfold refs in E0. specialize (HE a). lia.
      * rewrite upd_other by done. eapply H5; [by apply Hsub|done|done].
  - intros b [Hat|Hb]; [by apply Ht|]. apply Hk. by rewrite <-Em.
Qed.

(** ** Sections under the semaphore of a list *)

Definition with_sem (s : semst) st : vfsst A D := with_fs (with_fs_sem s (v_fs st)) st.

(** Nobody holds the semaphore of the tree or of a list. *)
Definition sems_ready st : Prop := tree_free tree_sem (v_fs st) ∧ ∀ l, is_Some (filelists st !! l) →
  l ≠ 0 ∧ l ≠ tree_sem ∧ semcount (fs_sem (v_fs st)) l = 1.

Lemma files_critical st l : sems_ready st → is_Some (filelists st !! l) →
  ∃ s1, _files_semtake l st = Some (with_sem s1 st) ∧ tree_free tree_sem (with_fs_sem s1 (v_fs st)) ∧
    qs (sch s1) = qs (sch (fs_sem (v_fs st))) ∧
    ∀ st2, same_sems s1 (fs_sem (v_fs st2)) →
      ∃ s3, _files_semgive l st2 = Some (with_sem s3 st2) ∧ same_sems (fs_sem (v_fs st)) s3.
Proof using.
  intros [[Ht0 Ht1] Hl] Hs. destruct (Hl l Hs) as (H0 & Ht & H1).
  destruct (sem_take_free _ _ H0 H1) as (s1 & E1 & Htk). exists s1. unfold _files_semtake. rewrite E1.
  split; [done|]. split; [|split; [apply Htk|]].
  - split; [done|]. cbn. by rewrite (st_count _ _ _ Htk) by done.
  - intros st2 Hss. destruct (sem_give_held _ _ (fs_sem (v_fs st2)) H0 H1) as (s3 & E3 & H3).
    { destruct Htk as [T1 T2 T3], Hss as [S1 S2]. constructor; [by rewrite S1|intros k Hk; by rewrite S1, T2|by rewrite S2]. }
    exists s3. unfold _files_semgive. by rewrite E3.
Qed.

Lemma ready_frame st st' : sems_ready st → frame st st' → sems_ready st'.
Proof using.
  intros [[H0 H1] Hl] [_ Hc [Hs _]]. split; [split; [done|by rewrite Hs]|].
  intros l Hl'. rewrite Hs. apply Hl. revert Hl'. by rewrite <-!(fmap_is_Some fl_crefs), Hc.
Qed.

(** ** Closing a file *)

Lemma put_put p f f' m : put_file p f' (put_file p f m) = put_file p f' m.
Proof using.
  unfold put_file. apply map_eq. intros k.
  destruct (decide (k = p.1)) as [->|Hk]; [|by rewrite !lookup_alter_ne].
  rewrite !lookup_alter_eq. destruct (m !! p.1) as [fl|]; [|done]. cbn. by rewrite list_insert_insert_eq.
Qed.

(** What the driver's close does, if it has one. *)
Definition closing (x : inode) (f : file) (d : D) : Z * file * D :=
  match operation ops op_close x with Some fn => fn (i_private x) f d | None => (0, f, d) end.

Lemma operation_some {X} (op : file_operations D → option X) x fn : operation ops op x = Some fn → op (ops (i_ops x)) = Some fn.
Proof using. unfold operation. by destruct (negb _). Qed.

Lemma put_same p f st : file_at p st = Some f → with_filelists (put_file p f (filelists st)) st = st.
Proof using.
  intros (fl & Hl & _ & Hf)%file_at_iff. destruct st as [s m tf d]. unfold with_filelists. cbn in *. f_equal.
  apply map_eq. intros k. unfold put_file. destruct (decide (k = p.1)) as [->|Hk]; [|by rewrite lookup_alter_ne].
  rewrite lookup_alter_eq, Hl. cbn. rewrite list_insert_id by done. by destruct fl.
Qed.

Lemma closing_run p f x r f' d' st t G E Y : files_inv st t G E Y → file_at p st = Some f → f_inode f ≠ 0 →
  inodes (v_fs st) !! f_inode f = Some x → closing x f (v_dev st) = (r, f', d') →
  let st' := with_filelists (put_file p f' (filelists st)) (with_dev d' st) in
  match operation ops op_close x with Some close => driver_call close p st | None => Some (0, st) end =
    Some (r, st') ∧ files_inv st' t G E Y ∧ f_inode f' = f_inode f.
Proof using Hops.
  intros Hi Hp Hn Hx Ec st'. unfold closing in Ec. destruct (operation ops op_close x) as [fn|] eqn:Eo.
  - apply operation_some in Eo. pose proof (ok_close _ (Hops _) _ Eo) as Hk.
    destruct (driver_call_run fn p f x r f' d' st t G E Y Hi Hk Hp Hn Hx Ec) as [E1 E2].
    split; [exact E1|]. split; [exact E2|]. by apply (Hk _ _ _ _ _ _ Ec).
  - injection Ec as <- <- <-. assert (Est : st' = st) by (unfold st'; destruct st; by apply put_same).
    rewrite Est. by split_and!.
Qed.

Lemma close_file_run p f st t G E Y : files_inv st t G E Y → tree_free tree_sem (v_fs st) → (∀ b, 0 ≤ E b) →
  file_at p st = Some f → f_inode f ≠ 0 →
  ∃ x r f' d' s G', inodes (v_fs st) !! f_inode f = Some x ∧ closing x f (v_dev st) = (r, f', d') ∧
    let m := put_file p (mk_file 0 0 0 (f_priv f')) (filelists st) in
    let st' := with_filelists m (with_dev d' (with_fs s st)) in
    _files_close tree_sem ops p st = Some (r, st') ∧ files_inv st' t G' E Y ∧
    same_sems (fs_sem (v_fs st)) (fs_sem s) ∧ (f_inode f ∈ nodes t → G' = G) ∧
    ∀ b, f_inode f ∈ nodes t ∨ refs E m b ≠ 0 → kind_at (inodes s) b = kind_at (inodes (v_fs st)) b.
Proof using Hops.
  intros Hi Hfree HE Hp Hn. destruct (vi_open _ _ _ _ _ Hi _ _ Hp Hn) as (x & Hx & Ho).
  destruct (closing x f (v_dev st)) as [[r f'] d'] eqn:Ec.
  destruct (closing_run p f x r f' d' st t G E Y Hi Hp Hn Hx Ec) as (Ec1 & Hi1 & Ei).
  set (st1 := with_filelists _ _) in *.
  assert (Hp1 : file_at p st1 = Some f') by (rewrite (file_at_put p p f f' st st1) by done; by apply decide_True).
  destruct (drop_run st1 t G E Y p f' Hi1 Hfree HE Hp1) as (s & G' & Er & Hi2 & Hss & HG & Hk); [congruence|].
  unfold st1 in Hi2, Hk. cbn [filelists with_filelists] in Hi2, Hk. rewrite put_put in Hi2, Hk. rewrite Ei in *.
  exists x, r, f', d', s, G'. split; [done|]. split; [done|].
  intros m st'. split_and!; try done.
  unfold _files_close. rewrite Hp. cbn [mbind option_bind]. rewrite (proj2 (Z.eqb_neq _ 0)) by done. cbn [negb].
  change (v_inode (f_inode f) st) with (inodes (v_fs st) !! f_inode f). rewrite Hx. cbn [mbind option_bind].
  rewrite Ec1. cbn [mbind option_bind]. rewrite Er. cbn [mbind option_bind].
  assert (Hp2 : file_at p (with_fs s st1) = Some f') by exact Hp1. rewrite Hp2. cbn [mbind option_bind].
  rewrite (set_file_run _ _ _ _ Hp2). cbn [mbind option_bind]. unfold st1. cbn [filelists with_filelists with_fs].
  by rewrite put_put.
Qed.
End Ops.
