(* ===== verification/VfsCalls.v ===== *)
(** The calls that take and give back descriptors, case by case. *)

From Stdlib Require Import Ascii.
From stdpp Require Import base numbers gmap sorting list strings.
From S2P Require Import Prelude Memory Queue Sched Sem SemThms Kmalloc Inode InodeTree InodeRep InodeInv InodeOps.
From S2P Require Import InodeCalls InodeSpec Vfs VfsInv VfsOps.

Section Calls.
Context {A : Type} {HA : Kmalloc A} {HL : KmallocLaws A} {D : Type}.
Variable tree_sem : Z.
Variable ops : Z → file_operations D.
Hypothesis Hops : ∀ p, ops_ok (ops p).
Implicit Types st : vfsst A D.

(** The last thing a call did was to set errno. *)
Definition errno_set (err : Z) st : Prop := ∃ s, fs_sem (v_fs st) = set_errno err s.

(** A call that failed without an effect on the files. *)
Definition failed (err : Z) st st' : Prop :=
  errno_set err st' ∧ filelists st' = filelists st ∧ v_dev st' = v_dev st.

Definition same_kinds st st' : Prop := ∀ b, kind_at (inodes (v_fs st')) b = kind_at (inodes (v_fs st)) b.

(** References below the maximum of the counts. *)
Definition room (E : Z → Z) st : Prop := ∀ a, refs E (filelists st) a < 0x7fff.

Lemma same_sems_errno v s : same_sems s (set_errno v s).
Proof using. constructor; [intros k; apply semcount_errno|done]. Qed.

(** ** files_allocate *)

Definition fd_open st (l j : Z) : Prop := ∃ g, file_at (l, j) st = Some g ∧ f_inode g ≠ 0.

(** The lowest descriptor from [i] on that is not open. *)
Definition lowest_free st (l i fd : Z) (f : file) : Prop :=
  i ≤ fd < 8 ∧ file_at (l, fd) st = Some f ∧ f_inode f = 0 ∧ ∀ j, i ≤ j < fd → fd_open st l j.
Definition all_open st (l i : Z) : Prop := ∀ j, i ≤ j < 8 → fd_open st l j.

Lemma allocate_loop_run n i a oflags pos l st t G E Y (s0 : semst) : n = Z.to_nat (8 - i) → 0 ≤ i →
  files_inv st t G E Y → is_Some (filelists st !! l) →
  (∀ st2, same_sems (fs_sem (v_fs st)) (fs_sem (v_fs st2)) →
    ∃ s3, _files_semgive l st2 = Some (with_sem s3 st2) ∧ same_sems s0 s3) →
  ∃ s3, same_sems s0 s3 ∧
   ((∃ fd f, lowest_free st l i fd f ∧ allocate_loop n i a oflags pos l st =
      Some (fd, with_sem s3 (with_filelists (put_file (l, fd) (mk_file oflags pos a (f_priv f)) (filelists st)) st))) ∨
    all_open st l i ∧ allocate_loop n i a oflags pos l st = Some (-1, with_sem s3 st)).
Proof using.
  intros Hn Hi Hinv [fl Hl] Hgive. revert i Hn Hi. induction n as [|n IH]; intros i Hn Hi; cbn [allocate_loop].
  { destruct (Hgive st) as (s3 & -> & Hss); [done|]. exists s3. split; [done|]. right. split; [|done].
    intros j Hj. lia. }
  destruct (file_at_range _ _ _ _ _ _ _ i Hinv Hl) as [f Hf]; [lia|]. rewrite Hf. cbn [mbind option_bind].
  destruct (Z.eqb_spec (f_inode f) 0) as [E0|E0].
  - rewrite (set_file_run _ _ _ _ Hf). cbn [mbind option_bind].
    destruct (Hgive (with_filelists (put_file (l, i) (mk_file oflags pos a (f_priv f)) (filelists st)) st))
      as (s3 & -> & Hss); [done|].
    exists s3. split; [done|]. left. exists i, f. split; [|done]. split; [lia|]. split_and!; [done|done|].
    intros j Hj. lia.
  - destruct (IH (i + 1)) as (s3 & Hss & Hr); [lia|lia|]. exists s3. split; [done|].
    assert (Hcons : ∀ j k, i ≤ j < k → (∀ j, i + 1 ≤ j < k → fd_open st l j) → fd_open st l j).
    { intros j k Hj Hall. destruct (decide (j = i)) as [->|]; [by exists f|]. apply Hall. lia. }
    destruct Hr as [(fd & g & (Hfd & Hg & E1 & Hlow) & Er)|[Hall Er]].
    + left. exists fd, g. split; [|done]. split; [lia|]. split_and!; [done|done|]. intros j Hj. by eapply Hcons.
    + right. split; [|done]. intros j Hj. by eapply (Hcons j 8).
Qed.

Lemma files_allocate_run a x oflags pos minfd st t G E Y : files_inv st t G (more E a) Y → sems_ready tree_sem st →
  let l := sched_getfiles st in
  is_Some (filelists st !! l) → 0 ≤ minfd → inodes (v_fs st) !! a = Some x → openable x = true → a ≠ 0 →
  ∃ s3, same_sems (fs_sem (v_fs st)) s3 ∧
    ((∃ fd f, lowest_free st l minfd fd f ∧
        let st' := with_sem s3 (with_filelists (put_file (l, fd) (mk_file oflags pos a (f_priv f)) (filelists st)) st) in
        files_allocate a oflags pos minfd st = Some (fd, st') ∧ files_inv st' t G E Y) ∨
     all_open st l minfd ∧ files_allocate a oflags pos minfd st = Some (-1, with_sem s3 st) ∧
       files_inv (with_sem s3 st) t G (more E a) Y).
Proof using.
  intros Hi Hr l Hl Hmin Hx Ho Ha. destruct (proj2 Hr l Hl) as [Hl0 _].
  unfold files_allocate. fold l. rewrite (proj2 (Z.eqb_neq l 0)) by done. cbn [negb].
  destruct (files_critical tree_sem st l Hr Hl) as (s1 & -> & _ & _ & Hgive). cbn [mbind option_bind].
  pose proof (files_inv_sem _ _ _ _ _ s1 Hi) as Hi1. fold (with_sem s1 st) in Hi1.
  destruct (allocate_loop_run (Z.to_nat (CONFIG_NFILE_DESCRIPTORS - minfd)) minfd a oflags pos l (with_sem s1 st)
    t G _ Y (fs_sem (v_fs st)) eq_refl Hmin Hi1 Hl Hgive) as (s3 & Hss & Hc).
  exists s3. split; [done|]. destruct Hc as [(fd & f & Hlow & ->)|[Hall ->]]; [left|right].
  - exists fd, f. split; [exact Hlow|]. split; [done|]. destruct Hlow as (_ & Hf & E0 & _).
    pose proof (set_file_inv (l, fd) f (mk_file oflags pos a (f_priv f)) st t G (more E a) E Y Hi Hf) as Hset.
    apply (files_inv_sem (with_filelists (put_file (l, fd) (mk_file oflags pos a (f_priv f)) (filelists st)) st)).
    apply Hset; [by intros _; exists x|]. intros b. rewrite (holds_closed b f) by done.
    unfold holds. cbn [f_inode]. destruct (decide _) as [[<- _]|Hne]; [rewrite more_same; lia|].
    rewrite more_other; [lia|]. intros ->. by apply Hne.
  - split; [exact Hall|]. split; [done|]. by apply files_inv_sem.
Qed.

(** ** inode_find, and giving a reference back on an error *)

Lemma v_find_run st t G E Y path : files_inv st t G E Y → tree_free tree_sem (v_fs st) → room E st →
  not_absolute path = false →
  ∃ s, same_sems (fs_sem (v_fs st)) (fs_sem s) ∧ same_kinds st (with_fs s st) ∧
  match lookup_path (inodes (v_fs st)) t path with
  | None => inode_find tree_sem path (v_fs st) = Some (0, None, s) ∧ files_inv (with_fs s st) t G E Y
  | Some (a, rest) => ∃ rel, inode_find tree_sem path (v_fs st) = Some (a, Some rel, s) ∧ components rel = rest ∧
      a ≠ 0 ∧ a ∈ nodes t ∧ files_inv (with_fs s st) t G (more E a) Y
  end.
Proof using.
  intros Hi Hf HR Habs. pose proof Hi as [H1 H2 H3 H4 H5].
  pose proof (find_run tree_sem _ _ _ _ _ path H1 Hf Habs HR) as Hr.
  destruct (lookup_path _ _ _) as [[a rest]|] eqn:El.
  - destruct Hr as (rel & s2 & s & E1 & E2 & _ & Es & Hss & Hi').
    destruct (lookup_found _ _ _ _ _ _ _ (fi_shape _ _ _ _ _ H1) El) as (Ha & Hat & _).
    assert (Hk : same_kinds st (with_fs s st)) by (intros b; rewrite Es; apply kind_crefs).
    exists s. split; [by rewrite Es|]. split; [done|]. exists rel. split_and!; try done.
    constructor; try done.
    + eapply fs_inv_ext; [exact Hi'|]. intros b. apply refs_more.
    + apply (open_kept st); [done|]. intros b _. apply Hk.
    + apply (quiet_more st t G E Y a Hi). by left.
  - destruct Hr as (s2 & E1 & Hss). exists (with_fs_sem s2 (v_fs st)). split; [done|]. split; [by intros b|].
    split; [done|]. by apply files_inv_sem.
Qed.

Lemma open_fail_run err a st t G E Y : files_inv st t G (more E a) Y → tree_free tree_sem (v_fs st) →
  (∀ b, 0 ≤ E b) → a ∈ nodes t →
  ∃ s, open_fail tree_sem err a st = Some (-1, with_fs s st) ∧ files_inv (with_fs s st) t G E Y ∧
    same_sems (fs_sem (v_fs st)) (fs_sem s) ∧ same_kinds st (with_fs s st) ∧ errno_set err (with_fs s st).
Proof using.
  intros Hi Hf HE Ha. destruct (v_release_run _ _ _ _ _ _ _ Hi Hf HE) as (s & G' & Er & Hi' & Hss & HG & Hk).
  rewrite (HG Ha) in Hi'. unfold open_fail. rewrite Er. cbn [mbind option_bind].
  exists (with_fs_sem (set_errno err (fs_sem s)) s). split; [done|]. split_and!.
  - apply (files_inv_sem _ _ _ _ _ _ Hi').
  - transitivity (fs_sem s); [done|]. apply same_sems_errno.
  - intros b. apply Hk. by left.
  - by eexists.
Qed.

Lemma same_kinds_trans s1 s2 s3 : same_kinds s1 s2 → same_kinds s2 s3 → same_kinds s1 s3.
Proof using. intros H1 H2 b. by rewrite H2. Qed.

(** ** open *)

(** The flags of a call that the operations of the inode support. *)
Definition permits (x : inode) (oflags : Z) : bool :=
  implb (Z.testbit oflags 0) (bool_decide (is_Some (op_read (ops (i_ops x))))) &&
  implb (Z.testbit oflags 1) (bool_decide (is_Some (op_write (ops (i_ops x))))).

(** The inode that a path names and what remains of the path, or why it cannot be opened. *)
Definition open_check st (t : itree) (path : string) (oflags : Z) : Z + (Z * inode * list string) :=
  if not_absolute path then inl ENOENT else
  match lookup_path (inodes (v_fs st)) t path with
  | None => inl ENOENT
  | Some (a, rest) =>
      match inodes (v_fs st) !! a with
      | None => inl ENOENT
      | Some x => if negb (openable x) then inl ENXIO
                  else if permits x oflags then inr (a, x, rest) else inl EACCES
      end
  end.

(** What the driver's or the file system's open does, if it has one. *)
Definition opening (x : inode) (rel : option (option string * Z * Z)) (f : file) (d : D) : Z * file * D :=
  match op_open (ops (i_ops x)) with Some fn => fn rel (i_private x) f d | None => (0, f, d) end.

Lemma land_one v k : 0 ≤ k → (Z.land v (2 ^ k) =? 0) = negb (Z.testbit v k).
Proof using.
  intros Hk. destruct (Z.testbit v k) eqn:E; cbn [negb].
  - apply Z.eqb_neq. intros H0. assert (E1 : Z.testbit (Z.land v (2 ^ k)) k = true).
    { by rewrite Z.land_spec, E, Z.pow2_bits_true. }
    by rewrite H0, Z.bits_0 in E1.
  - apply Z.eqb_eq, Z.bits_inj'. intros n Hn. rewrite Z.land_spec, Z.bits_0, Z.pow2_bits_eqb by done.
    destruct (Z.eqb_spec k n) as [<-|]; [by rewrite E|apply andb_false_r].
Qed.

Lemma checkflags_permits x oflags : inode_checkflags ops x oflags = if permits x oflags then 0 else - EACCES.
Proof using.
  assert (Hb : ∀ (X : Type) (o : option X) b, bool_decide (o = None) = negb (bool_decide (is_Some o)) ∧
    (negb (negb b) && negb (bool_decide (is_Some o)) = negb (implb b (bool_decide (is_Some o))))).
  { intros X [v|] []; split; try done. }
  unfold inode_checkflags, permits. change O_RDOK with (2 ^ 0). change O_WROK with (2 ^ 1).
  rewrite !land_one by done. rewrite (proj1 (Hb _ (op_read _) true)), (proj1 (Hb _ (op_write _) true)).
  rewrite (proj2 (Hb _ (op_read _) _)), (proj2 (Hb _ (op_write _) _)). rewrite <-negb_andb. by destruct (_ && _).
Qed.

Lemma openable_check x : (negb (INODE_IS_DRIVER x) && negb (INODE_IS_MOUNTPT x)) || (i_ops x =? 0) = negb (openable x).
Proof using. unfold openable. by rewrite negb_andb, negb_orb, negb_involutive. Qed.

(** [files_release] keeps the reference of the descriptor it clears. *)
Lemma files_release_run st t G E Y fd f : files_inv st t G E Y → sems_ready tree_sem st →
  let l := sched_getfiles st in
  is_Some (filelists st !! l) → 0 ≤ fd < 8 → file_at (l, fd) st = Some f → f_inode f ≠ 0 →
  ∃ s, let st' := with_sem s (with_filelists (put_file (l, fd) (mk_file 0 0 0 (f_priv f)) (filelists st)) st) in
    files_release fd st = Some st' ∧ same_sems (fs_sem (v_fs st)) s ∧ files_inv st' t G (more E (f_inode f)) Y.
Proof using.
  intros Hi Hr l Hl Hfd Hf Hn. destruct (proj2 Hr l Hl) as [Hl0 _].
  unfold files_release. fold l. rewrite (proj2 (Z.eqb_neq l 0)) by done. cbn [negb].
  rewrite (proj2 (Z.leb_le 0 fd)), (proj2 (Z.ltb_lt fd CONFIG_NFILE_DESCRIPTORS)) by (unfold CONFIG_NFILE_DESCRIPTORS; lia).
  cbn [andb]. destruct (files_critical tree_sem st l Hr Hl) as (s1 & -> & _ & _ & Hgive). cbn [mbind option_bind].
  assert (Hf1 : file_at (l, fd) (with_sem s1 st) = Some f) by exact Hf. rewrite Hf1. cbn [mbind option_bind].
  rewrite (set_file_run _ _ (mk_file 0 0 0 (f_priv f)) _ Hf1). cbn [mbind option_bind].
  destruct (Hgive (with_filelists (put_file (l, fd) (mk_file 0 0 0 (f_priv f)) (filelists (with_sem s1 st))) (with_sem s1 st)))
    as (s3 & -> & Hss); [done|].
  exists s3. split; [done|]. split; [done|].
  apply (files_inv_sem (with_filelists (put_file (l, fd) (mk_file 0 0 0 (f_priv f)) (filelists st)) st)).
  apply (set_file_inv _ _ _ _ _ _ E _ _ Hi Hf); [done|].
  intros b. rewrite (holds_closed b (mk_file 0 0 0 (f_priv f))) by done.
  unfold holds. destruct (decide _) as [[<- _]|Hne]; [rewrite more_same; lia|].
  rewrite more_other; [lia|]. intros ->. by apply Hne.
Qed.

Lemma opening_run p f x rel r f' d' st t G E Y : files_inv st t G E Y → file_at p st = Some f → f_inode f ≠ 0 →
  inodes (v_fs st) !! f_inode f = Some x → opening x rel f (v_dev st) = (r, f', d') →
  let st' := with_filelists (put_file p f' (filelists st)) (with_dev d' st) in
  match op_open (ops (i_ops x)) with Some open => driver_call (open rel) p st | None => Some (0, st) end =
    Some (r, st') ∧ files_inv st' t G E Y ∧ f_inode f' = f_inode f.
Proof using Hops.
  intros Hi Hf Hn Hx Ho st'. unfold opening in Ho. destruct (op_open (ops (i_ops x))) as [fn|] eqn:Eo.
  - pose proof (ok_open _ (Hops _) _ rel Eo) as Hk.
    destruct (driver_call_run (fn rel) p f x r f' d' st t G E Y Hi Hk Hf Hn Hx Ho) as [E1 E2].
    split_and!; [done|done|]. by apply (Hk _ _ _ _ _ _ Ho).
  - injection Ho as <- <- <-.
    assert (Es : st' = st) by (unfold st'; destruct st; by apply put_same). rewrite Es. by split_and!.
Qed.

(** The end of [open], from the driver's open on. *)
Lemma open_driver_run st t G E Y fd f x rel r f' d' : files_inv st t G E Y → sems_ready tree_sem st → (∀ b, 0 ≤ E b) →
  let l := sched_getfiles st in
  is_Some (filelists st !! l) → 0 ≤ fd < 8 → file_at (l, fd) st = Some f → f_inode f ≠ 0 → f_inode f ∈ nodes t →
  inodes (v_fs st) !! f_inode f = Some x → opening x rel f (v_dev st) = (r, f', d') →
  ∃ s, same_sems (fs_sem (v_fs st)) (fs_sem s) ∧ same_kinds st (with_fs s st) ∧
    let st' := with_filelists (put_file (l, fd) (if r <? 0 then mk_file 0 0 0 (f_priv f') else f') (filelists st))
                 (with_dev d' (with_fs s st)) in
    ('(ret, st) ← match op_open (ops (i_ops x)) with
                  | Some open => driver_call (open rel) (l, fd) st
                  | None => Some (0, st)
                  end;
     if ret <? 0 then st ← files_release fd st; open_fail tree_sem (- ret) (f_inode f) st else Some (fd, st)) =
      Some (if r <? 0 then -1 else fd, st') ∧
    files_inv st' t G E Y ∧ (r < 0 → errno_set (- r) st').
Proof using Hops.
  intros Hi Hr HE l Hl Hfd Hf Hn Hat Hx Ho.
  destruct (opening_run _ _ _ _ _ _ _ _ _ _ _ _ Hi Hf Hn Hx Ho) as (-> & Hi1 & Ei). cbn [mbind option_bind].
  set (st1 := with_filelists _ (with_dev d' st)) in *.
  destruct (Z.ltb_spec r 0) as [Hneg|Hpos].
  - assert (Hf1 : file_at (l, fd) st1 = Some f').
    { rewrite (file_at_put (l, fd) _ f f' st st1) by done. by apply decide_True. }
    assert (Hfr : frame st st1) by apply frame_put.
    destruct (files_release_run st1 t G E Y fd f' Hi1) as (s1 & Erl & Hss1 & Hi2).
    { by eapply ready_frame. }
    { rewrite (frame_files _ _ Hfr). by eapply frame_dom. }
    { done. } { by rewrite (frame_files _ _ Hfr). } { by rewrite Ei. }
    rewrite (frame_files _ _ Hfr) in Erl, Hi2. fold l in Erl, Hi2. rewrite Erl. cbn [mbind option_bind].
    rewrite Ei in Hi2. unfold st1 in Hi2. cbn [filelists with_filelists] in Hi2. rewrite put_put in Hi2.
    destruct (open_fail_run (- r) (f_inode f) _ _ _ _ _ Hi2) as (s & Eof & Hi3 & Hss & Hk & Herr); [|done|done|].
    { destruct Hr as [[H0 H1] _]. split; [done|]. cbn. destruct Hss1 as [Hc _]. rewrite Hc. exact H1. }
    exists s. split; [by transitivity s1|]. split; [exact Hk|]. cbv zeta.
    unfold st1 at 1. cbn [filelists with_filelists]. rewrite put_put.
    split; [exact Eof|]. split; [exact Hi3|]. done.
  - exists (v_fs st). split; [done|]. split; [by intros b|]. cbv zeta.
    assert (Es : with_fs (v_fs st) st = st) by by destruct st. rewrite Es. split; [done|]. split; [exact Hi1|]. lia.
Qed.

(** ** The whole state *)

(** Files, semaphores and the lists of tasks. *)
Record vfs_inv st (t : itree) (G : list itree) (E : Z → Z) (Y : gset Z) : Prop := {
  vf_files : files_inv st t G E Y;
  vf_ready : sems_ready tree_sem st;
  vf_ext b : 0 ≤ E b;
  vf_users l fl : filelists st !! l = Some fl →
    fl_crefs fl = users (tcb_filelist st) l ∧ 1 ≤ users (tcb_filelist st) l ≤ 0x7fff;
  vf_tcb k l : tcb_filelist st !! k = Some l → l ≠ 0 → is_Some (filelists st !! l) }.

Lemma vfs_inv_frame st st' t G G' E Y : vfs_inv st t G E Y → frame st st' → files_inv st' t G' E Y →
  vfs_inv st' t G' E Y.
Proof using.
  intros [H1 H2 H3 H4 H5] Hf Hi. constructor; [done|by eapply ready_frame|done| |].
  - intros l fl Hl. pose proof (fr_crefs _ _ Hf l) as Hc. rewrite Hl in Hc. cbn in Hc. symmetry in Hc.
    apply fmap_Some in Hc as (fl' & Hl' & ->). rewrite (fr_tcb _ _ Hf). by apply H4.
  - intros k l. rewrite (fr_tcb _ _ Hf). intros Hk Hl. eapply frame_dom; [exact Hf|]. by eapply H5.
Qed.

Lemma getfiles_list st t G E Y : vfs_inv st t G E Y → sched_getfiles st ≠ 0 → is_Some (filelists st !! sched_getfiles st).
Proof using.
  intros Hv. unfold sched_getfiles. destruct (tcb_filelist st !! _) as [l|] eqn:El; [|done]. cbn.
  by eapply vf_tcb.
Qed.

Lemma fails_run err st t G E Y : vfs_inv st t G E Y →
  ∃ st', fails err st = Some (-1, st') ∧ vfs_inv st' t G E Y ∧ frame st st' ∧ failed err st st' ∧ same_kinds st st'.
Proof using.
  intros Hv. eexists. split; [done|].
  assert (Hf : frame st (with_sem (set_errno err (fs_sem (v_fs st))) st)) by apply frame_fs, same_sems_errno.
  split_and!; [|done|split_and!; [by eexists|done|done]|by intros b].
  eapply vfs_inv_frame; [done|done|]. apply files_inv_sem, Hv.
Qed.

(** What [open] does, given the inode that the path names. *)
Definition opens st st' (fd l : Z) (x : inode) (rest : list string) (oflags a ret : Z) : Prop :=
  ∃ f rel, lowest_free st l 0 fd f ∧ components rel = rest ∧
    let args := if INODE_IS_MOUNTPT x then Some (Some rel, oflags, 438) else None in
    let '(r, f', d') := opening x args (mk_file oflags 0 a (f_priv f)) (v_dev st) in
    v_dev st' = d' ∧
    if r <? 0 then
      ret = -1 ∧ errno_set (- r) st' ∧
      filelists st' = put_file (l, fd) (mk_file 0 0 0 (f_priv f')) (filelists st)
    else ret = fd ∧ filelists st' = put_file (l, fd) f' (filelists st).

Lemma opening_kind x y rel f d : kind x = kind y → opening x rel f d = opening y rel f d.
Proof using. intros Hk. destruct (openable_kind _ _ Hk) as (_ & Hp & Ho). unfold opening. by rewrite Hp, Ho. Qed.

(** *** From the inode that was found *)

Section Found.
Context (st : vfsst A D) (t : itree) (G : list itree) (E : Z → Z) (Y : gset Z) (oflags a : Z) (rel : string)
  (x x1 : inode) (s : fsst A) (s3 : semst).
Hypothesis Hv : vfs_inv st t G E Y.
Hypothesis Hl0 : sched_getfiles st ≠ 0.
Hypothesis Hks : same_kinds st (with_fs s st).
Hypothesis Hss : same_sems (fs_sem (v_fs st)) (fs_sem s).
Hypothesis Hss3 : same_sems (fs_sem s) s3.
Hypothesis Ha0 : a ≠ 0.
Hypothesis Hat : a ∈ nodes t.
Hypothesis Hx1 : inodes s !! a = Some x1.
Hypothesis Ekx : kind x1 = kind x.
#[local] Notation l := (sched_getfiles st).

(** There is no descriptor left. *)
Lemma open_full_run : files_inv (with_sem s3 (with_fs s st)) t G (more E a) Y →
  ∃ st', open_fail tree_sem EMFILE a (with_sem s3 (with_fs s st)) = Some (-1, st') ∧ files_inv st' t G E Y ∧
    frame st st' ∧ same_kinds st st' ∧ failed EMFILE st st'.
Proof using Hv Hks Hss Hss3 Hat.
  intros Hi2. destruct (open_fail_run EMFILE a _ _ _ _ _ Hi2) as (s4 & Eof & Hi4 & Hss4 & Hk4 & Herr);
    [|by apply Hv|done|].
  { destruct (vf_ready _ _ _ _ _ Hv) as [[Ht0 Ht1] _]. split; [done|]. cbn.
    rewrite (ss_count _ _ Hss3), (ss_count _ _ Hss). exact Ht1. }
  eexists. split_and!; [exact Eof|exact Hi4| | |split_and!; [exact Herr|done|done]].
  - apply (frame_fs st s4). transitivity (fs_sem s); [done|]. transitivity s3; [done|exact Hss4].
  - intros b. rewrite <-(Hks b). apply Hk4.
Qed.

(** The descriptor [fd] is taken. *)
Lemma open_fd_run fd f : lowest_free st l 0 fd f →
  let f0 := mk_file oflags 0 a (f_priv f) in
  let st2 := with_sem s3 (with_filelists (put_file (l, fd) f0 (filelists st)) (with_fs s st)) in
  let args := if INODE_IS_MOUNTPT x then Some (Some rel, oflags, 438) else None in
  files_inv st2 t G E Y →
  ∃ ret st',
    ('(ret, st) ← match op_open (ops (i_ops x1)) with
                  | Some open => driver_call (open (if INODE_IS_MOUNTPT x1 then Some (Some rel, oflags, 438) else None)) (l, fd) st2
                  | None => Some (0, st2)
                  end;
     if ret <? 0 then st ← files_release fd st; open_fail tree_sem (- ret) a st else Some (fd, st)) = Some (ret, st') ∧
    files_inv st' t G E Y ∧ frame st st' ∧ same_kinds st st' ∧ opens st st' fd l x (components rel) oflags a ret.
Proof using Hops Hv Hl0 Hks Hss Hss3 Ha0 Hat Hx1 Ekx.
  intros (Hfd & Hf & E0 & Hlow) f0 st2 args Hi2.
  pose proof (getfiles_list _ _ _ _ _ Hv Hl0) as Hl.
  assert (Hf2 : frame st st2).
  { constructor; [done| |by transitivity (fs_sem s)]. intros k. apply put_crefs. }
  assert (El : sched_getfiles st2 = l) by by apply frame_files.
  assert (Hfa : file_at (l, fd) st2 = Some f0).
  { rewrite (file_at_put (l, fd) _ f f0 st st2) by done. by apply decide_True. }
  assert (Emnt : INODE_IS_MOUNTPT x1 = INODE_IS_MOUNTPT x) by (unfold INODE_IS_MOUNTPT; injection Ekx as -> _ _; done).
  rewrite Emnt. fold args. destruct (opening x args f0 (v_dev st)) as [[r f'] d'] eqn:Eop.
  destruct (open_driver_run st2 t G E Y fd f0 x1 args r f' d') as (s4 & Hss4 & Hk4 & Et & Hi4 & Herr); try done.
  { by eapply ready_frame, Hf2; apply Hv. } { by apply Hv. }
  { rewrite El. by eapply frame_dom. } { by rewrite El. } { by rewrite (opening_kind _ _ _ _ _ Ekx). }
  rewrite El in Et, Hi4, Herr. cbn [f_inode f0] in Et. set (st4 := with_filelists _ _) in Et, Hi4, Herr.
  assert (Em : filelists st4 = put_file (l, fd) (if r <? 0 then mk_file 0 0 0 (f_priv f') else f') (filelists st)).
  { unfold st4, st2. cbn [filelists with_filelists with_sem with_fs]. apply put_put. }
  exists (if r <? 0 then -1 else fd), st4. split_and!; [exact Et|exact Hi4| | |].
  - constructor; [done|intros k; rewrite Em; apply put_crefs|]. transitivity (fs_sem (v_fs st2)); [apply Hf2|exact Hss4].
  - intros b. transitivity (kind_at (inodes (v_fs st2)) b); [apply Hk4|apply Hks].
  - exists f, rel. split; [by split|]. split; [done|]. cbv zeta. fold f0 args. rewrite Eop.
    split; [done|]. destruct (Z.ltb_spec r 0); [|done]. by split_and!; [|apply Herr|].
Qed.
End Found.

Lemma open_found_run path oflags st t G E Y a rel x s : vfs_inv st t G E Y → sched_getfiles st ≠ 0 →
  same_kinds st (with_fs s st) → same_sems (fs_sem (v_fs st)) (fs_sem s) →
  files_inv (with_fs s st) t G (more E a) Y → inode_find tree_sem path (v_fs st) = Some (a, Some rel, s) →
  a ≠ 0 → a ∈ nodes t → inodes (v_fs st) !! a = Some x → openable x = true → permits x oflags = true →
  ∃ ret st', open tree_sem ops path oflags st = Some (ret, st') ∧ files_inv st' t G E Y ∧ frame st st' ∧
    same_kinds st st' ∧
    (all_open st (sched_getfiles st) 0 ∧ ret = -1 ∧ failed EMFILE st st' ∨
     ∃ fd, opens st st' fd (sched_getfiles st) x (components rel) oflags a ret).
Proof using Hops.
  intros Hv Hl0 Hks Hss Hi1 Efind Ha0 Hat Hx Ho Hperm.
  pose proof (getfiles_list _ _ _ _ _ Hv Hl0) as Hl.
  assert (Hf1 : frame st (with_fs s st)) by by apply frame_fs.
  pose proof (ready_frame _ _ _ (vf_ready _ _ _ _ _ Hv) Hf1) as Hr1.
  destruct (kind_some _ _ a x (Hks a) Hx) as (x1 & Hx1 & Ekx). change (inodes s !! a = Some x1) in Hx1.
  destruct (openable_kind _ _ Ekx) as (Eo1 & Ep1 & Eops1).
  unfold open. rewrite (proj2 (Z.eqb_neq (sched_getfiles st) 0)) by done. rewrite Efind. cbn [mbind option_bind].
  rewrite (proj2 (Z.eqb_neq a 0)) by done.
  change (v_inode a (with_fs s st)) with (inodes s !! a). rewrite Hx1. cbn [mbind option_bind].
  rewrite openable_check, Eo1, Ho. cbn [negb].
  assert (Ec : inode_checkflags ops x1 oflags = 0).
  { rewrite checkflags_permits. unfold permits in *. by rewrite Eops1, Hperm. }
  rewrite Ec. cbn [Z.ltb Z.compare].
  destruct (files_allocate_run a x1 oflags 0 0 (with_fs s st) t G E Y Hi1 Hr1) as (s3 & Hss3 & Hc); [|done|done| |done|].
  { by rewrite (frame_files _ _ Hf1). } { by rewrite Eo1. }
  rewrite (frame_files _ _ Hf1) in Hc. cbv zeta in Hc.
  destruct Hc as [(fd & f & Hlow & -> & Hi2)|(Hall & -> & Hi2)]; cbn [mbind option_bind].
  - pose proof (proj1 Hlow) as Hfd. rewrite (proj2 (Z.ltb_ge fd 0)) by lia.
    destruct (open_fd_run st t G E Y oflags a rel x x1 s s3 Hv Hl0 Hks Hss Hss3 Ha0 Hat Hx1 Ekx fd f Hlow Hi2)
      as (ret & st' & Et & Hi' & Hf & Hk & Hop).
    exists ret, st'. split; [exact Et|]. split_and!; try done. right. by exists fd.
  - cbn [Z.ltb Z.compare].
    destruct (open_full_run st t G E Y a s s3 Hv Hks Hss Hss3 Hat Hi2) as (st' & Et & Hi' & Hf & Hk & Hfl).
    exists (-1), st'. split; [exact Et|]. split_and!; try done. left. by split.
Qed.

(** The inode is not one that can be opened this way. *)
Lemma open_refused_run err path oflags st t G E Y a rel x s : vfs_inv st t G E Y → sched_getfiles st ≠ 0 →
  same_kinds st (with_fs s st) → same_sems (fs_sem (v_fs st)) (fs_sem s) →
  files_inv (with_fs s st) t G (more E a) Y → inode_find tree_sem path (v_fs st) = Some (a, Some rel, s) →
  a ≠ 0 → a ∈ nodes t → inodes (v_fs st) !! a = Some x →
  (if openable x then permits x oflags = false ∧ err = EACCES else err = ENXIO) →
  ∃ st', open tree_sem ops path oflags st = Some (-1, st') ∧ files_inv st' t G E Y ∧ frame st st' ∧
    same_kinds st st' ∧ failed err st st'.
Proof using.
  intros Hv Hl0 Hks Hss Hi1 Efind Ha0 Hat Hx Herr.
  destruct (kind_some _ _ a x (Hks a) Hx) as (x1 & Hx1 & Ekx). change (inodes s !! a = Some x1) in Hx1.
  destruct (openable_kind _ _ Ekx) as (Eo1 & Ep1 & Eops1).
  assert (Hf1 : frame st (with_fs s st)) by by apply frame_fs.
  assert (Eopen : open tree_sem ops path oflags st = open_fail tree_sem err a (with_fs s st)).
  { unfold open. rewrite (proj2 (Z.eqb_neq (sched_getfiles st) 0)) by done. rewrite Efind. cbn [mbind option_bind].
    rewrite (proj2 (Z.eqb_neq a 0)) by done.
    change (v_inode a (with_fs s st)) with (inodes s !! a). rewrite Hx1. cbn [mbind option_bind].
    rewrite openable_check, Eo1. destruct (openable x); cbn [negb]; [|by subst err]. destruct Herr as [Hp ->].
    rewrite checkflags_permits. unfold permits in *. by rewrite Eops1, Hp. }
  destruct (open_fail_run err a _ _ _ _ _ Hi1) as (s' & Eof & Hi' & Hss' & Hk' & Hset); [|by apply Hv|done|].
  { by apply (ready_frame _ _ _ (vf_ready _ _ _ _ _ Hv) Hf1). }
  eexists. split_and!; [by rewrite Eopen; exact Eof|exact Hi'| | |split_and!; [exact Hset|done|done]].
  - apply (frame_fs st s'). by transitivity (fs_sem s).
  - by eapply same_kinds_trans.
Qed.

Lemma open_run path oflags st t G E Y : vfs_inv st t G E Y → room E st →
  let l := sched_getfiles st in
  ∃ ret st', open tree_sem ops path oflags st = Some (ret, st') ∧ vfs_inv st' t G E Y ∧ frame st st' ∧ same_kinds st st' ∧
    if l =? 0 then ret = -1 ∧ failed EMFILE st st' else
    match open_check st t path oflags with
    | inl err => ret = -1 ∧ failed err st st'
    | inr (a, x, rest) => all_open st l 0 ∧ ret = -1 ∧ failed EMFILE st st' ∨ ∃ fd, opens st st' fd l x rest oflags a ret
    end.
Proof using Hops.
  intros Hv HR l. destruct (Z.eqb_spec l 0) as [E0|Hl0].
  { destruct (fails_run EMFILE _ _ _ _ _ Hv) as (st' & Ef & H1 & H2 & H3 & H4).
    exists (-1), st'. unfold open. fold l. rewrite E0. by split_and!. }
  assert (Hgoal : ∃ ret st', open tree_sem ops path oflags st = Some (ret, st') ∧ files_inv st' t G E Y ∧ frame st st' ∧
    same_kinds st st' ∧ match open_check st t path oflags with
    | inl err => ret = -1 ∧ failed err st st'
    | inr (a, x, rest) => all_open st l 0 ∧ ret = -1 ∧ failed EMFILE st st' ∨ ∃ fd, opens st st' fd l x rest oflags a ret
    end).
  2:{ destruct Hgoal as (ret & st' & Eo & Hi & Hf & Hk & Hr). exists ret, st'. split_and!; try done.
      by eapply vfs_inv_frame. }
  unfold open_check. destruct (not_absolute path) eqn:Habs.
  { destruct (fails_run ENOENT _ _ _ _ _ Hv) as (st' & Ef & H1 & H2 & H3 & H4). exists (-1), st'.
    unfold open. fold l. rewrite (proj2 (Z.eqb_neq l 0)) by done. unfold inode_find. rewrite Habs.
    cbn [mbind option_bind Z.eqb]. assert (Es : with_fs (v_fs st) st = st) by by destruct st. rewrite Es.
    split_and!; try done. apply H1. }
  destruct (v_find_run _ _ _ _ _ path (vf_files _ _ _ _ _ Hv) (proj1 (vf_ready _ _ _ _ _ Hv)) HR Habs) as (s & Hss & Hks & Hr).
  assert (Hf1 : frame st (with_fs s st)) by by apply frame_fs.
  destruct (lookup_path _ _ _) as [[a rest]|] eqn:El.
  - destruct Hr as (rel & Efind & <- & Ha0 & Hat & Hi1).
    destruct (lookup_found _ _ _ _ _ _ _ (fi_shape _ _ _ _ _ (vi_fs _ _ _ _ _ (vf_files _ _ _ _ _ Hv))) El) as (_ & Hn & _).
    destruct (proj2 (sh_dom _ _ _ _ (fi_shape _ _ _ _ _ (vi_fs _ _ _ _ _ (vf_files _ _ _ _ _ Hv))) a)) as [x Hx].
    { by apply all_nodes_nil. }
    rewrite Hx. destruct (openable x) eqn:Ho; cbn [negb]; [destruct (permits x oflags) eqn:Hperm|].
    + by eapply open_found_run.
    + destruct (open_refused_run EACCES path oflags st t G E Y a rel x s) as (st' & ?); [done..|by rewrite Ho|].
      exists (-1), st'. naive_solver.
    + destruct (open_refused_run ENXIO path oflags st t G E Y a rel x s) as (st' & ?); [done..|by rewrite Ho|].
      exists (-1), st'. naive_solver.
  - destruct Hr as [Efind Hi1].
    destruct (fails_run ENOENT (with_fs s st) t G E Y) as (st' & Ef & H1 & H2 & H3 & H4).
    { by eapply vfs_inv_frame. }
    exists (-1), st'. unfold open. fold l. rewrite (proj2 (Z.eqb_neq l 0)) by done. rewrite Efind.
    cbn [mbind option_bind Z.eqb]. split_and!; [exact Ef|apply H1|by transitivity (with_fs s st)|by eapply same_kinds_trans|done|].
    exact H3.
Qed.
End Calls.
