(* ===== verification/VfsFiles.v ===== *)
(** Closing and duplicating descriptors. *)

From Stdlib Require Import Ascii.
From stdpp Require Import base numbers gmap sorting list strings.
From S2P Require Import Prelude Memory Queue Sched Sem SemThms Kmalloc Inode InodeTree InodeRep InodeInv InodeOps.
From S2P Require Import InodeCalls InodeSpec Vfs VfsInv VfsOps VfsCalls.

(** Values of the type int. *)
Definition is_int (v : Z) : Prop := - 2 ^ 31 ≤ v < 2 ^ 31.

Lemma is_filedes_eq fd : is_int fd → is_filedes fd = (0 <=? fd) && (fd <? 8).
Proof.
  intros Hfd. unfold is_filedes, w32, CONFIG_NFILE_DESCRIPTORS, is_int in *. destruct (Z.leb_spec 0 fd).
  - rewrite Z.mod_small by lia. done.
  - cbn [andb]. apply Z.ltb_ge. rewrite <-(Z_mod_plus_full fd 1 (2 ^ 32)), Z.mod_small by lia. lia.
Qed.

Section Files.
Context {A : Type} {HA : Kmalloc A} {HL : KmallocLaws A} {D : Type}.
Variable tree_sem : Z.
Variable ops : Z → file_operations D.
Hypothesis Hops : ∀ p, ops_ok (ops p).
Implicit Types st : vfsst A D.

(** The inodes that are referenced keep what they are. *)
Definition kept (E : Z → Z) st st' : Prop := ∀ b, refs E (filelists st') b ≠ 0 →
  kind_at (inodes (v_fs st')) b = kind_at (inodes (v_fs st)) b.

Lemma same_kept E st st' : same_kinds st st' → kept E st st'.
Proof using. intros Hk b _. apply Hk. Qed.

Lemma refs_mono E st p f f' b : file_at p st = Some f → f_inode f' = 0 →
  refs E (put_file p f' (filelists st)) b ≤ refs E (filelists st) b.
Proof using.
  intros Hf E0. unfold refs. rewrite (fdrefs_put _ _ _ _ _ Hf), (holds_closed b f') by done.
  pose proof (holds_range b f). lia.
Qed.

Lemma refuse_run err st t G E Y : vfs_inv tree_sem st t G E Y →
  ∃ ret st' G', fails err st = Some (ret, st') ∧ vfs_inv tree_sem st' t G' E Y ∧ frame st st' ∧ kept E st st' ∧
    ret = -1 ∧ failed err st st'.
Proof using.
  intros Hv. destruct (fails_run tree_sem err _ _ _ _ _ Hv) as (st' & Ef & H1 & H2 & H3 & H4).
  exists (-1), st', G. split_and!; try done; [by apply same_kept|by apply H3..].
Qed.

(** ** close *)

(** A descriptor is closed: the driver's close runs, and the result is its own. *)
Definition closes st st' (p : fileptr) (f : file) (x : inode) (ret : Z) : Prop :=
  let '(r, f', d') := closing ops x f (v_dev st) in
  v_dev st' = d' ∧ filelists st' = put_file p (mk_file 0 0 0 (f_priv f')) (filelists st) ∧
  if r <? 0 then ret = -1 ∧ errno_set (- r) st' else ret = 0.

Lemma files_close_run fd f st t G E Y : vfs_inv tree_sem st t G E Y → sched_getfiles st ≠ 0 → 0 ≤ fd < 8 →
  file_at (sched_getfiles st, fd) st = Some f → f_inode f ≠ 0 →
  ∃ x r f' d' st' G', inodes (v_fs st) !! f_inode f = Some x ∧ closing ops x f (v_dev st) = (r, f', d') ∧
    files_close tree_sem ops fd st = Some (r, st') ∧ files_inv st' t G' E Y ∧ frame st st' ∧
    v_dev st' = d' ∧ filelists st' = put_file (sched_getfiles st, fd) (mk_file 0 0 0 (f_priv f')) (filelists st) ∧
    kept E st st' ∧ (f_inode f ∈ nodes t → G' = G ∧ same_kinds st st').
Proof using Hops.
  intros Hv Hl0 Hfd Hf Hn. pose proof (getfiles_list _ _ _ _ _ _ Hv Hl0) as Hl.
  set (l := sched_getfiles st) in *.
  unfold files_close. fold l. rewrite (proj2 (Z.eqb_neq l 0)) by done.
  rewrite (proj2 (Z.ltb_ge fd 0)), (proj2 (Z.leb_gt CONFIG_NFILE_DESCRIPTORS fd)) by (unfold CONFIG_NFILE_DESCRIPTORS; lia).
  cbn [orb]. rewrite Hf. cbn [mbind option_bind]. rewrite (proj2 (Z.eqb_neq (f_inode f) 0)) by done.
  destruct (files_critical tree_sem st l (vf_ready _ _ _ _ _ _ Hv) Hl) as (s1 & -> & Ht1 & _ & Hgive).
  cbn [mbind option_bind].
  destruct (close_file_run tree_sem ops Hops (l, fd) f (with_sem s1 st) t G E Y) as
    (x & r & f' & d' & s & G' & Hx & Ec & Hc); [apply files_inv_sem, Hv|done|apply Hv|done|done|].
  cbv zeta in Hc. destruct Hc as (-> & Hi' & Hss & HG & Hk). cbn [mbind option_bind].
  set (st2 := with_filelists _ _) in *. destruct (Hgive st2 Hss) as (s3 & -> & Hss3). cbn [mbind option_bind].
  exists x, r, f', d', (with_sem s3 st2), G'. split_and!; try done.
  - by apply files_inv_sem.
  - constructor; [done| |done]. intros k. apply put_crefs.
  - intros b Hb. apply Hk. by right.
  - intros Hat. split; [by apply HG|]. intros b. apply Hk. by left.
Qed.

Lemma close_run fd st t G E Y : vfs_inv tree_sem st t G E Y → is_int fd →
  let l := sched_getfiles st in
  ∃ ret st' G', close tree_sem ops fd st = Some (ret, st') ∧ vfs_inv tree_sem st' t G' E Y ∧ frame st st' ∧ kept E st st' ∧
    if negb ((0 <=? fd) && (fd <? 8)) then ret = -1 ∧ failed EBADF st st'
    else if l =? 0 then ret = -1 ∧ failed EMFILE st st'
    else ∃ f, file_at (l, fd) st = Some f ∧
      if f_inode f =? 0 then ret = -1 ∧ failed EBADF st st'
      else ∃ x, inodes (v_fs st) !! f_inode f = Some x ∧ closes st st' (l, fd) f x ret ∧
        (f_inode f ∈ nodes t → G' = G ∧ same_kinds st st').
Proof using Hops.
  intros Hv Hint l. unfold close. rewrite is_filedes_eq by done.
  pose proof (λ err, refuse_run err _ _ _ _ _ Hv) as Hfail.
  destruct ((0 <=? fd) && (fd <? 8)) eqn:Hfd; cbn [negb]; [|apply Hfail].
  apply andb_prop in Hfd as [Hfd1%Z.leb_le Hfd2%Z.ltb_lt].
  destruct (Z.eqb_spec l 0) as [E0|Hl0].
  { unfold files_close. fold l. rewrite E0. cbn [Z.eqb mbind option_bind]. apply Hfail. }
  destruct (getfiles_list _ _ _ _ _ _ Hv Hl0) as [fl Hl].
  destruct (file_at_range _ _ _ _ _ _ _ fd (vf_files _ _ _ _ _ _ Hv) Hl) as [f Hf]; [lia|].
  destruct (Z.eqb_spec (f_inode f) 0) as [Ei|Hn].
  { unfold files_close. fold l. rewrite (proj2 (Z.eqb_neq l 0)) by done.
    rewrite (proj2 (Z.ltb_ge fd 0)), (proj2 (Z.leb_gt CONFIG_NFILE_DESCRIPTORS fd)) by (unfold CONFIG_NFILE_DESCRIPTORS; lia).
    cbn [orb]. fold l in Hf. rewrite Hf. cbn [mbind option_bind]. rewrite Ei. cbn [Z.eqb mbind option_bind].
    destruct (Hfail EBADF) as (ret & st' & G' & Ef & H1 & H2 & H3 & H4). exists ret, st', G'. split_and!; try done.
    exists f. split; [done|]. by rewrite Ei. }
  destruct (files_close_run fd f _ _ _ _ _ Hv Hl0) as (x & r & f' & d' & st' & G' & Hx & Ec & -> & Hi & Hfr & Hd & Hm & Hk & HG);
    [lia|done|done|].
  cbn [mbind option_bind]. pose proof (vfs_inv_frame _ _ _ _ _ _ _ _ Hv Hfr Hi) as Hv'.
  assert (Hcl : ∀ ret st2, v_dev st2 = v_dev st' → filelists st2 = filelists st' →
    (if r <? 0 then ret = -1 ∧ errno_set (- r) st2 else ret = 0) → closes st st2 (l, fd) f x ret).
  { intros ret st2 Ed Em Hr. unfold closes. rewrite Ec, Ed, Em. by split_and!. }
  destruct (Z.ltb_spec r 0) as [Hneg|Hpos].
  - destruct (fails_run tree_sem (- r) _ _ _ _ _ Hv') as (st2 & -> & H1 & H2 & (H3 & Em & Ed) & H4).
    exists (-1), st2, G'. split_and!; [done|done|by transitivity st'| |].
    + intros b. rewrite Em, H4. apply Hk.
    + exists f. split; [done|]. rewrite (proj2 (Z.eqb_neq _ _)) by done. exists x. split; [done|].
      split; [by apply Hcl|]. intros Hat. split; [by apply HG|]. eapply same_kinds_trans, H4. by apply HG.
  - exists 0, st', G'. split_and!; try done. exists f. split; [done|]. rewrite (proj2 (Z.eqb_neq _ _)) by done.
    exists x. split; [done|]. split; [by apply Hcl|done].
Qed.

(** ** files_dup *)

(** The driver's part of duplicating [f1], whose inode is [x1], over [f2]: the result,
    the file and the driver's state. *)
Definition dup_close (f2 : file) (x2 : option inode) (d : D) : Z * file * D :=
  if f_inode f2 =? 0 then (0, f2, d) else
  match x2 with
  | Some x2 => let '(r, f', d') := closing ops x2 f2 d in (r, mk_file 0 0 0 (f_priv f'), d')
  | None => (0, f2, d)
  end.
Definition dup_effect (f1 : file) (x1 : inode) (f2 : file) (x2 : option inode) (d : D) : Z * file * D :=
  let '(r, f, d) := dup_close f2 x2 d in
  if r <? 0 then (r, f, d) else
  let '(r, f, d) := opening ops x1 None (mk_file (f_oflags f1) (f_pos f1) (f_inode f1) (f_priv f)) d in
  if r <? 0 then (r, mk_file 0 0 0 (f_priv f), d) else (0, f, d).

(** Closing what [p] refers to, if anything. *)
Lemma dup_close_run p f st t G E Y r f' d' : files_inv st t G E Y → tree_free tree_sem (v_fs st) → (∀ b, 0 ≤ E b) →
  file_at p st = Some f → dup_close f (inodes (v_fs st) !! f_inode f) (v_dev st) = (r, f', d') →
  ∃ s G', let st' := with_filelists (put_file p f' (filelists st)) (with_dev d' (with_fs s st)) in
    _files_close tree_sem ops p st = Some (r, st') ∧ files_inv st' t G' E Y ∧
    same_sems (fs_sem (v_fs st)) (fs_sem s) ∧ kept E st st' ∧ (r < 0 ∨ f_inode f' = 0).
Proof using Hops.
  intros Hi Hf HE Hp Hd. unfold dup_close in Hd. destruct (Z.eqb_spec (f_inode f) 0) as [E0|Hn].
  - injection Hd as <- <- <-. exists (v_fs st), G. cbv zeta.
    assert (Es : with_filelists (put_file p f (filelists st)) (with_dev (v_dev st) (with_fs (v_fs st) st)) = st).
    { destruct st. by apply put_same. }
    rewrite Es. split_and!; [|done|done|by intros b _|by right].
    unfold _files_close. rewrite Hp. cbn [mbind option_bind]. by rewrite E0.
  - destruct (close_file_run tree_sem ops Hops p f st t G E Y Hi Hf HE Hp Hn) as (x & r1 & f1 & d1 & s & G' & Hx & Ec & Hc).
    rewrite Hx, Ec in Hd. injection Hd as -> <- ->. cbv zeta in Hc. destruct Hc as (E1 & Hi' & Hss & _ & Hk).
    exists s, G'. split_and!; [done|done|done| |by right]. intros b Hb. apply Hk. by right.
Qed.

(** The inode of [p1] is opened once more, for [p2]. *)
Lemma dup_open_run p f2 x st t G E Y r f' d' : files_inv st t G E Y → tree_free tree_sem (v_fs st) →
  (∀ b, 0 ≤ E b) → file_at p st = Some f2 → f_inode f2 ≠ 0 → inodes (v_fs st) !! f_inode f2 = Some x →
  openable x = true → opening ops x None f2 (v_dev st) = (r, f', d') →
  ∃ s G', let st' := with_filelists (put_file p (if r <? 0 then mk_file 0 0 0 (f_priv f') else f') (filelists st))
      (with_dev d' (with_fs s st)) in
    (∀ l, ('(ret, st) ← match operation ops op_open x with
                        | Some open => driver_call (open None) p st | None => Some (0, st) end;
           if ret <? 0 then
             f2 ← file_at p st;
             st ← v_release tree_sem (f_inode f2) st;
             st ← set_file p (mk_file 0 0 0 (f_priv f2)) st;
             files_dup_fail ret l st
           else st ← _files_semgive l st; Some (0, st)) =
       (if r <? 0 then files_dup_fail r l st' else st ← _files_semgive l st'; Some (0, st))) ∧
    files_inv st' t G' E Y ∧ same_sems (fs_sem (v_fs st)) (fs_sem s) ∧ kept E st st'.
Proof using Hops.
  intros Hi Hf HE Hp Hn Hx Ho Eop.
  assert (Eoper : operation ops op_open x = op_open (ops (i_ops x))).
  { unfold operation. apply andb_prop in Ho as [_ ->]. done. }
  destruct (opening_run ops Hops _ _ _ _ _ _ _ _ _ _ _ _ Hi Hp Hn Hx Eop) as (Ecall & Hi1 & Ei).
  set (st1 := with_filelists _ (with_dev d' st)) in *.
  destruct (Z.ltb_spec r 0) as [Hneg|Hpos].
  - assert (Hp1 : file_at p st1 = Some f') by (rewrite (file_at_put p p f2 f' st st1) by done; by apply decide_True).
    destruct (drop_run tree_sem st1 t G E Y p f' Hi1 Hf HE Hp1) as (s & G' & Er & Hi2 & Hss & _ & Hk); [congruence|].
    unfold st1 in Hi2, Hk. cbn [filelists with_filelists] in Hi2, Hk. rewrite put_put in Hi2, Hk.
    exists s, G'. cbv zeta. split_and!; [|exact Hi2|exact Hss|intros b Hb; apply Hk; by right].
    intros l. rewrite Eoper, Ecall. cbn [mbind option_bind]. rewrite (proj2 (Z.ltb_lt r 0)) by done.
    rewrite Hp1. cbn [mbind option_bind]. rewrite Er. cbn [mbind option_bind].
    assert (Hp2 : file_at p (with_fs s st1) = Some f') by exact Hp1.
    rewrite (set_file_run _ _ (mk_file 0 0 0 (f_priv f')) _ Hp2). cbn [mbind option_bind].
    unfold st1. cbn [filelists with_filelists with_fs]. by rewrite put_put.
  - exists (v_fs st), G. cbv zeta. assert (Es : with_fs (v_fs st) st = st) by by destruct st. rewrite Es.
    split_and!; [|exact Hi1|done|by intros b _].
    intros l. rewrite Eoper, Ecall. cbn [mbind option_bind]. by rewrite (proj2 (Z.ltb_ge r 0)).
Qed.

(** The end of [files_dup], under the semaphore of the list [l]. *)
Definition finishes (r ret : Z) st' : Prop := if r <? 0 then ret = -1 ∧ errno_set (- r) st' else ret = 0.

Lemma dup_finish_run r l st2 (s0 : semst) : (∃ s3, _files_semgive l st2 = Some (with_sem s3 st2) ∧ same_sems s0 s3) →
  ∃ ret s4, (if r <? 0 then files_dup_fail r l st2 else st ← _files_semgive l st2; Some (0, st)) =
      Some (ret, with_sem s4 st2) ∧ same_sems s0 s4 ∧ finishes r ret (with_sem s4 st2).
Proof using.
  intros (s3 & E3 & Hss). unfold files_dup_fail, finishes. rewrite E3. cbn [mbind option_bind].
  destruct (r <? 0).
  - exists (-1), (set_errno (- r) s3). split_and!; [done|transitivity s3; [done|apply same_sems_errno]|done|by exists s3].
  - exists 0, s3. by split_and!.
Qed.

(** A descriptor is duplicated over [p2]. *)
Definition dups st st' (p2 : fileptr) (f1 : file) (x1 : inode) (f2 : file) (ret : Z) : Prop :=
  let '(r, f, d) := dup_effect f1 x1 f2 (inodes (v_fs st) !! f_inode f2) (v_dev st) in
  v_dev st' = d ∧ filelists st' = put_file p2 f (filelists st) ∧ finishes r ret st'.

(** From the point where the second descriptor is closed. *)
Section Clone.
Context (st : vfsst A D) (t : itree) (G : list itree) (E : Z → Z) (Y : gset Z) (p1 p2 : fileptr) (f1 fc : file)
  (x1 : inode).
Hypothesis Hi : files_inv st t G E Y.
Hypothesis Hfree : tree_free tree_sem (v_fs st).
Hypothesis HE : ∀ b, 0 ≤ E b.
Hypothesis HR : room E st.
Hypothesis Hp1 : file_at p1 st = Some f1.
Hypothesis Hn1 : f_inode f1 ≠ 0.
Hypothesis Hp2 : file_at p2 st = Some fc.
Hypothesis Hc2 : f_inode fc = 0.
Hypothesis Hx1 : inodes (v_fs st) !! f_inode f1 = Some x1.

Lemma clone_run l r f' d' : opening ops x1 None (mk_file (f_oflags f1) (f_pos f1) (f_inode f1) (f_priv fc)) (v_dev st) = (r, f', d') →
  ∃ s G', let st' := with_filelists (put_file p2 (if r <? 0 then mk_file 0 0 0 (f_priv f') else f') (filelists st))
      (with_dev d' (with_fs s st)) in
    (f1 ← file_at p1 st;
     let inode := f_inode f1 in
     st ← v_addref tree_sem inode st;
     f2 ← file_at p2 st;
     st ← set_file p2 (mk_file (f_oflags f1) (f_pos f1) inode (f_priv f2)) st;
     x ← v_inode inode st;
     '(ret, st) ← (match operation ops op_open x with
                   | Some open => driver_call (open None) p2 st
                   | None => Some (0, st)
                   end);
     if ret <? 0 then
       f2 ← file_at p2 st;
       st ← v_release tree_sem (f_inode f2) st;
       st ← set_file p2 (mk_file 0 0 0 (f_priv f2)) st;
       files_dup_fail ret l st
     else
       st ← _files_semgive l st;
       Some (0, st)) =
    (if r <? 0 then files_dup_fail r l st' else st ← _files_semgive l st'; Some (0, st)) ∧
    files_inv st' t G' E Y ∧ same_sems (fs_sem (v_fs st)) (fs_sem s) ∧ kept E st st'.
Proof using Hops Hi Hfree HE HR Hp1 Hn1 Hp2 Hc2 Hx1.
  intros Eop. set (a := f_inode f1) in *. pose proof (fdrefs_file _ _ _ Hp1 Hn1) as Hone. fold a in Hone.
  rewrite Hp1. cbn [mbind option_bind]. cbv zeta. fold a.
  destruct (v_addref_run _ _ _ _ _ _ a Hi Hfree) as (s1 & -> & Hi1 & Hss1 & Hk1).
  { pose proof (HR a). pose proof (HE a). unfold refs in *. lia. }
  cbn [mbind option_bind]. assert (Hp2' : file_at p2 (with_fs s1 st) = Some fc) by exact Hp2. rewrite Hp2'.
  cbn [mbind option_bind]. set (f0 := mk_file (f_oflags f1) (f_pos f1) a (f_priv fc)) in *.
  rewrite (set_file_run _ _ f0 _ Hp2'). cbn [mbind option_bind]. set (st1 := with_filelists _ _).
  destruct (kind_some _ _ a x1 (Hk1 a) Hx1) as (x & Hx & Ekx). destruct (openable_kind _ _ Ekx) as (Eo & _ & _).
  assert (Ho : openable x = true).
  { rewrite Eo. destruct (vi_open _ _ _ _ _ Hi _ _ Hp1 Hn1) as (y & Hy & ?). fold a in Hy. rewrite Hx1 in Hy. by injection Hy as <-. }
  change (v_inode a st1) with (inodes s1 !! a). rewrite Hx. cbn [mbind option_bind].
  assert (Hi2 : files_inv st1 t G E Y).
  { apply (set_file_inv p2 fc f0 _ _ _ (more E a) E _ Hi1 Hp2'); [by intros _; exists x|].
    intros b. rewrite (holds_closed b fc) by done. unfold holds. cbn [f_inode f0].
    destruct (decide _) as [[<- _]|Hne]; [rewrite more_same; lia|]. rewrite more_other; [lia|]. intros ->. by apply Hne. }
  assert (Hp3 : file_at p2 st1 = Some f0) by (rewrite (file_at_put p2 _ fc f0 st st1) by done; by apply decide_True).
  destruct (dup_open_run p2 f0 x st1 t G E Y r f' d' Hi2) as (s2 & G' & Et & Hi3 & Hss2 & Hk2); try done.
  { destruct Hfree as [H0 H1]. split; [done|]. cbn. by rewrite (ss_count _ _ Hss1). }
  { by rewrite (opening_kind _ _ _ _ _ _ Ekx). }
  cbv zeta in Et, Hi3, Hk2. unfold st1 in Et, Hi3, Hk2. cbn [filelists with_filelists with_fs] in Et, Hi3, Hk2. rewrite put_put in Et, Hi3, Hk2.
  exists s2, G'. split; [exact (Et l)|]. split; [exact Hi3|]. split; [by transitivity (fs_sem s1)|].
  intros b Hb. transitivity (kind_at (inodes s1) b); [exact (Hk2 b Hb)|apply Hk1].
Qed.
End Clone.

Lemma opening_keeps x rel f d r f' d' : opening ops x rel f d = (r, f', d') → f_inode f' = f_inode f.
Proof using Hops.
  unfold opening. destruct (op_open _) as [fn|] eqn:Eo; [|by intros [= <- <- <-]].
  intros Hfn. pose proof (ok_open _ (Hops _) _ rel Eo) as Hk. by apply (Hk _ _ _ _ _ _ Hfn).
Qed.

(** The files that stay referenced, over closing [p2] and opening it again. *)
Lemma kept_reopened E st st2 st3 p2 (fc f1 f : file) : kept E st st2 → file_at p2 st2 = Some fc → f_inode fc = 0 →
  (f_inode f1 ≠ 0 → 1 ≤ refs E (filelists st2) (f_inode f1)) → f_inode f = 0 ∨ f_inode f = f_inode f1 →
  filelists st3 = put_file p2 f (filelists st2) → kept E st2 st3 → kept E st st3.
Proof using.
  intros H2 Hp Hc Hone Hf Em H3 b Hb. rewrite (H3 b Hb). apply H2.
  rewrite Em in Hb. unfold refs in *. rewrite (fdrefs_put _ _ f _ _ Hp), (holds_closed b fc) in Hb by done.
  unfold holds in Hb. destruct (decide _) as [[E1 Hb0]|]; [|lia].
  destruct Hf as [Hf|Hf]; [congruence|]. rewrite <-E1, Hf in Hb0 |- *. specialize (Hone Hb0). lia.
Qed.

(** [files_dup] under the semaphore of the list [l]. *)
Definition dup_body (p1 p2 : fileptr) (l : Z) st : option (Z * vfsst A D) :=
  '(ret, st) ← _files_close tree_sem ops p2 st;
  if ret <? 0 then files_dup_fail ret l st else
  f1 ← file_at p1 st;
  let inode := f_inode f1 in
  st ← v_addref tree_sem inode st;
  f2 ← file_at p2 st;
  st ← set_file p2 (mk_file (f_oflags f1) (f_pos f1) inode (f_priv f2)) st;
  x ← v_inode inode st;
  '(ret, st) ← (match operation ops op_open x with
                | Some open => driver_call (open None) p2 st
                | None => Some (0, st)
                end);
  if ret <? 0 then
    f2 ← file_at p2 st;
    st ← v_release tree_sem (f_inode f2) st;
    st ← set_file p2 (mk_file 0 0 0 (f_priv f2)) st;
    files_dup_fail ret l st
  else
    st ← _files_semgive l st;
    Some (0, st).

Lemma dup_body_run p1 p2 f1 x1 f2 l st t G E Y : files_inv st t G E Y → tree_free tree_sem (v_fs st) →
  (∀ b, 0 ≤ E b) → room E st → file_at p1 st = Some f1 → f_inode f1 ≠ 0 → file_at p2 st = Some f2 → p1 ≠ p2 →
  inodes (v_fs st) !! f_inode f1 = Some x1 →
  ∃ r f d s G', let st3 := with_filelists (put_file p2 f (filelists st)) (with_dev d (with_fs s st)) in
    dup_effect f1 x1 f2 (inodes (v_fs st) !! f_inode f2) (v_dev st) = (r, f, d) ∧
    dup_body p1 p2 l st = (if r <? 0 then files_dup_fail r l st3 else st ← _files_semgive l st3; Some (0, st)) ∧
    files_inv st3 t G' E Y ∧ same_sems (fs_sem (v_fs st)) (fs_sem s) ∧ kept E st st3.
Proof using Hops.
  intros Hi Hfree HE HR Hp1 Hn1 Hp2 Hne Hx1. unfold dup_body, dup_effect.
  destruct (dup_close f2 (inodes (v_fs st) !! f_inode f2) (v_dev st)) as [[rc fc] dc] eqn:Ec.
  destruct (dup_close_run p2 f2 st t G E Y rc fc dc Hi Hfree HE Hp2 Ec) as (s2 & G1 & Hc).
  cbv zeta in Hc. destruct Hc as (-> & Hi2 & Hss2 & Hk2 & Hc0). cbn [mbind option_bind].
  destruct (Z.ltb_spec rc 0) as [Hneg|Hpos].
  { exists rc, fc, dc, s2, G1. cbv zeta. rewrite (proj2 (Z.ltb_lt rc 0)) by done. by split_and!. }
  destruct Hc0 as [|Hc0]; [lia|]. set (st2 := with_filelists _ _) in *.
  assert (Hq1 : file_at p1 st2 = Some f1) by (rewrite (file_at_put p2 _ f2 fc st st2) by done; by rewrite decide_False).
  assert (Hq2 : file_at p2 st2 = Some fc) by (rewrite (file_at_put p2 _ f2 fc st st2) by done; by apply decide_True).
  assert (Hone : f_inode f1 ≠ 0 → 1 ≤ refs E (filelists st2) (f_inode f1)).
  { intros _. pose proof (fdrefs_file _ _ _ Hq1 Hn1). specialize (HE (f_inode f1)). unfold refs. lia. }
  destruct (kind_some (inodes (v_fs st)) (inodes s2) (f_inode f1) x1) as (x & Hx & Ekx).
  { apply Hk2. specialize (Hone Hn1). change (refs E (filelists st2) (f_inode f1) ≠ 0). lia. } { done. }
  destruct (opening ops x1 None (mk_file (f_oflags f1) (f_pos f1) (f_inode f1) (f_priv fc)) dc) as [[r f'] d'] eqn:Eop.
  destruct (clone_run st2 t G1 E Y p1 p2 f1 fc x Hi2) with (l := l) (r := r) (f' := f') (d' := d') as (s3 & G' & Hcl); try done.
  { destruct Hfree as [H0 H1]. split; [done|]. cbn. by rewrite (ss_count _ _ Hss2). }
  { intros b. eapply Z.le_lt_trans; [|apply (HR b)]. by apply refs_mono with f2. }
  { by rewrite (opening_kind _ _ _ _ _ _ Ekx). }
  cbv zeta in Hcl. destruct Hcl as (-> & Hi3 & Hss3 & Hk3).
  assert (Hk4 : kept E st (with_filelists (put_file p2 (if r <? 0 then mk_file 0 0 0 (f_priv f') else f') (filelists st2))
      (with_dev d' (with_fs s3 st2)))).
  { eapply (kept_reopened E st st2 _ p2 fc f1); [exact Hk2|exact Hq2|done|exact Hone| |done|exact Hk3].
    destruct (r <? 0); [by left|right]. exact (opening_keeps _ _ _ _ _ _ _ Eop). }
  unfold st2 in Hi3, Hk4 |- *. cbn [filelists with_filelists with_fs with_dev] in Hi3, Hk4 |- *.
  rewrite put_put in Hi3, Hk4 |- *.
  destruct (Z.ltb_spec r 0) as [Hr|Hr].
  - exists r, (mk_file 0 0 0 (f_priv f')), d', s3, G'. cbv zeta. rewrite (proj2 (Z.ltb_lt r 0)) by done.
    split_and!; try done. by transitivity (fs_sem s2).
  - exists 0, f', d', s3, G'. cbv zeta. split_and!; try done. by transitivity (fs_sem s2).
Qed.

Lemma files_dup_run p1 p2 f1 f2 st t G E Y : vfs_inv tree_sem st t G E Y → room E st →
  file_at p1 st = Some f1 → file_at p2 st = Some f2 → p1 ≠ p2 →
  ∃ ret st' G', files_dup tree_sem ops p1 p2 st = Some (ret, st') ∧ vfs_inv tree_sem st' t G' E Y ∧ frame st st' ∧ kept E st st' ∧
    if f_inode f1 =? 0 then ret = -1 ∧ failed EBADF st st' else
    ∃ x1, inodes (v_fs st) !! f_inode f1 = Some x1 ∧
      if INODE_IS_MOUNTPT x1 then ret = -1 ∧ failed ENOSYS st st'
      else if sched_getfiles st =? 0 then ret = -1 ∧ failed EMFILE st st'
      else dups st st' p2 f1 x1 f2 ret.
Proof using Hops.
  intros Hv HR Hp1 Hp2 Hne.
  pose proof (λ err, refuse_run err _ _ _ _ _ Hv) as Hfail.
  unfold files_dup. rewrite Hp1. cbn [mbind option_bind]. destruct (Z.eqb_spec (f_inode f1) 0) as [E0|Hn1]; [apply Hfail|].
  destruct (vi_open _ _ _ _ _ (vf_files _ _ _ _ _ _ Hv) _ _ Hp1 Hn1) as (x1 & Hx1 & Ho1).
  change (v_inode (f_inode f1) st) with (inodes (v_fs st) !! f_inode f1). rewrite Hx1. cbn [mbind option_bind].
  destruct (INODE_IS_MOUNTPT x1) eqn:Emnt.
  { destruct (Hfail ENOSYS) as (ret & st' & G' & Ef & H1 & H2 & H3 & H4). exists ret, st', G'. split_and!; try done.
    exists x1. split; [done|]. by rewrite Emnt. }
  destruct (Z.eqb_spec (sched_getfiles st) 0) as [El0|Hl0].
  { destruct (Hfail EMFILE) as (ret & st' & G' & Ef & H1 & H2 & H3 & H4). exists ret, st', G'. split_and!; try done.
    exists x1. split; [done|]. by rewrite Emnt. }
  pose proof (getfiles_list _ _ _ _ _ _ Hv Hl0) as Hl. set (l := sched_getfiles st) in *.
  destruct (files_critical tree_sem st l (vf_ready _ _ _ _ _ _ Hv) Hl) as (s1 & -> & Ht1 & _ & Hgive).
  cbn [mbind option_bind]. fold (dup_body p1 p2 l (with_sem s1 st)).
  destruct (dup_body_run p1 p2 f1 x1 f2 l (with_sem s1 st) t G E Y) as (r & f & d & s & G' & Hb); try done;
    [apply files_inv_sem, Hv|apply Hv|].
  cbv zeta in Hb. destruct Hb as (Eff & -> & Hi3 & Hss3 & Hk3). set (st3 := with_filelists _ _) in *.
  destruct (dup_finish_run r l st3 (fs_sem (v_fs st)) (Hgive st3 Hss3)) as (ret & s4 & -> & Hss4 & Hfin).
  assert (Hfr : frame st (with_sem s4 st3)) by (constructor; [done|intros k; apply put_crefs|done]).
  exists ret, (with_sem s4 st3), G'. split_and!; try done.
  - eapply vfs_inv_frame; [done|done|by apply files_inv_sem].
  - exists x1. split; [done|]. rewrite Emnt. unfold dups.
    change (inodes (v_fs st)) with (inodes (v_fs (with_sem s1 st))). change (v_dev st) with (v_dev (with_sem s1 st)).
    rewrite Eff. by split_and!.
Qed.

(** ** dup2 and dup *)

Lemma dup_isopen_run fd st t G E Y : vfs_inv tree_sem st t G E Y → is_int fd → sched_getfiles st ≠ 0 →
  if (0 <=? fd) && (fd <? 8) then
    ∃ f, file_at (sched_getfiles st, fd) st = Some f ∧
      DUP_ISOPEN fd (sched_getfiles st) st = Some (negb (f_inode f =? 0))
  else DUP_ISOPEN fd (sched_getfiles st) st = Some false.
Proof using.
  intros Hv Hint Hl0. unfold DUP_ISOPEN. rewrite is_filedes_eq by done.
  destruct ((0 <=? fd) && (fd <? 8)) eqn:Hfd; [|done]. apply andb_prop in Hfd as [Hfd1%Z.leb_le Hfd2%Z.ltb_lt].
  destruct (getfiles_list _ _ _ _ _ _ Hv Hl0) as [fl Hl].
  destruct (file_at_range _ _ _ _ _ _ _ fd (vf_files _ _ _ _ _ _ Hv) Hl) as [f Hf]; [lia|].
  exists f. by rewrite Hf.
Qed.

(** The file that a descriptor of the running task refers to. *)
Definition open_file st (fd : Z) (f : file) : Prop :=
  0 ≤ fd < 8 ∧ file_at (sched_getfiles st, fd) st = Some f ∧ f_inode f ≠ 0.

Lemma dup2_run fd1 fd2 st t G E Y : vfs_inv tree_sem st t G E Y → room E st → is_int fd1 → is_int fd2 →
  let l := sched_getfiles st in
  ∃ ret st' G', dup2 tree_sem ops fd1 fd2 st = Some (ret, st') ∧ vfs_inv tree_sem st' t G' E Y ∧ frame st st' ∧ kept E st st' ∧
    if l =? 0 then ret = -1 ∧ failed EMFILE st st' else
    ((∀ f, ¬ open_file st fd1 f) ∧ ret = -1 ∧ failed EBADF st st' ∨
     ∃ f1, open_file st fd1 f1 ∧
       if fd1 =? fd2 then ret = fd1 ∧ st' = st
       else if negb ((0 <=? fd2) && (fd2 <? 8)) then ret = -1 ∧ failed EBADF st st'
       else ∃ f2 x1, file_at (l, fd2) st = Some f2 ∧ inodes (v_fs st) !! f_inode f1 = Some x1 ∧
         if INODE_IS_MOUNTPT x1 then ret = -1 ∧ failed ENOSYS st st' else dups st st' (l, fd2) f1 x1 f2 ret).
Proof using Hops.
  intros Hv HR Hint1 Hint2 l. pose proof (λ err, refuse_run err _ _ _ _ _ Hv) as Hfail. unfold dup2. fold l.
  destruct (Z.eqb_spec l 0) as [E0|Hl0]; [apply Hfail|].
  pose proof (dup_isopen_run fd1 _ _ _ _ _ Hv Hint1 Hl0) as Hopen. fold l in Hopen.
  destruct ((0 <=? fd1) && (fd1 <? 8)) eqn:Hfd1.
  2:{ rewrite Hopen. cbn [mbind option_bind negb]. destruct (Hfail EBADF) as (ret & st' & G' & Ef & H1 & H2 & H3 & H4 & H5).
      exists ret, st', G'. split_and!; try done. left. split; [|done]. intros f (Hr & _).
      apply andb_false_iff in Hfd1 as [?%Z.leb_gt|?%Z.ltb_ge]; lia. }
  apply andb_prop in Hfd1 as [Hlo%Z.leb_le Hhi%Z.ltb_lt]. destruct Hopen as (f1 & Hf1 & ->).
  cbn [mbind option_bind]. rewrite negb_involutive. destruct (Z.eqb_spec (f_inode f1) 0) as [Ei|Hn1].
  { destruct (Hfail EBADF) as (ret & st' & G' & Ef & H1 & H2 & H3 & H4 & H5). exists ret, st', G'. split_and!; try done.
    left. split; [|done]. intros f (_ & Hf & Hn). fold l in Hf. rewrite Hf1 in Hf. by injection Hf as <-. }
  assert (Ho : open_file st fd1 f1) by by split_and!.
  destruct (Z.eqb_spec fd1 fd2) as [<-|Hne].
  { exists fd1, st, G. split_and!; try done. right. exists f1. by split. }
  rewrite is_filedes_eq by done. destruct ((0 <=? fd2) && (fd2 <? 8)) eqn:Hfd2; cbn [negb].
  2:{ destruct (Hfail EBADF) as (ret & st' & G' & Ef & H1 & H2 & H3 & H4 & H5). exists ret, st', G'. split_and!; try done.
      right. by exists f1. }
  apply andb_prop in Hfd2 as [Hlo2%Z.leb_le Hhi2%Z.ltb_lt]. destruct (getfiles_list _ _ _ _ _ _ Hv Hl0) as [fl Hl].
  destruct (file_at_range _ _ _ _ _ _ _ fd2 (vf_files _ _ _ _ _ _ Hv) Hl) as [f2 Hf2]; [lia|]. fold l in Hf2.
  destruct (files_dup_run (l, fd1) (l, fd2) f1 f2 _ _ _ _ _ Hv HR Hf1 Hf2) as (ret & st' & G' & Ed & H1 & H2 & H3 & H4); [congruence|].
  rewrite (proj2 (Z.eqb_neq (f_inode f1) 0)) in H4 by done. destruct H4 as (x1 & Hx1 & H4).
  fold l in H4. rewrite (proj2 (Z.eqb_neq l 0)) in H4 by done.
  exists ret, st', G'. split_and!; try done. right. exists f1. split; [done|]. by exists f2, x1.
Qed.

(** From the point where the descriptor is known to be open. *)
Lemma file_dup_open_run fd f minfd st t G E Y : vfs_inv tree_sem st t G E Y → room E st → open_file st fd f → 0 ≤ minfd →
  let l := sched_getfiles st in
  l ≠ 0 →
  ∃ ret st' G',
    (f ← file_at (l, fd) st;
     st ← v_addref tree_sem (f_inode f) st;
     f ← file_at (l, fd) st;
     '(fildes2, st) ← files_allocate (f_inode f) (f_oflags f) (f_pos f) minfd st;
     if fildes2 <? 0 then
       '(_, st) ← fails EMFILE st;
       f ← file_at (l, fd) st;
       st ← v_release tree_sem (f_inode f) st;
       Some (-1, st)
     else Some (fildes2, st)) = Some (ret, st') ∧
    vfs_inv tree_sem st' t G' E Y ∧ frame st st' ∧ kept E st st' ∧ v_dev st' = v_dev st ∧
    (all_open st l minfd ∧ ret = -1 ∧ filelists st' = filelists st ∨
     ∃ g, lowest_free st l minfd ret g ∧
       filelists st' = put_file (l, ret) (mk_file (f_oflags f) (f_pos f) (f_inode f) (f_priv g)) (filelists st)).
Proof using.
  intros Hv HR (Hr & Hf & Hn) Hmin l Hl0. fold l in Hf.
  pose proof (getfiles_list _ _ _ _ _ _ Hv Hl0) as Hl. fold l in Hl.
  rewrite Hf. cbn [mbind option_bind]. pose proof (fdrefs_file _ _ _ Hf Hn) as Hone.
  pose proof (vf_ext _ _ _ _ _ _ Hv) as HE.
  destruct (v_addref_run tree_sem _ _ _ _ _ (f_inode f) (vf_files _ _ _ _ _ _ Hv) (proj1 (vf_ready _ _ _ _ _ _ Hv)))
    as (s1 & -> & Hi1 & Hss1 & Hk1).
  { pose proof (HR (f_inode f)). specialize (HE (f_inode f)). unfold refs in *. lia. }
  cbn [mbind option_bind]. assert (Hf1 : file_at (l, fd) (with_fs s1 st) = Some f) by exact Hf. rewrite Hf1.
  cbn [mbind option_bind].
  assert (Hfr1 : frame st (with_fs s1 st)) by by apply frame_fs.
  destruct (vi_open _ _ _ _ _ Hi1 _ _ Hf1 Hn) as (x & Hx & Hox).
  destruct (files_allocate_run tree_sem (f_inode f) x (f_oflags f) (f_pos f) minfd _ _ _ _ _ Hi1) as (s3 & Hss3 & Hc); try done.
  { eapply ready_frame, Hfr1. apply Hv. } { by rewrite (frame_files _ _ Hfr1). }
  rewrite (frame_files _ _ Hfr1) in Hc. fold l in Hc. cbv zeta in Hc.
  destruct Hc as [(fd2 & g & Hlow & -> & Hi2)|(Hall & -> & Hi2)]; cbn [mbind option_bind].
  - pose proof (proj1 Hlow) as Hr2. rewrite (proj2 (Z.ltb_ge fd2 0)) by lia. eexists fd2, _, G. split; [done|].
    assert (Hfr : frame st (with_sem s3 (with_filelists (put_file (l, fd2)
       (mk_file (f_oflags f) (f_pos f) (f_inode f) (f_priv g)) (filelists (with_fs s1 st))) (with_fs s1 st)))).
    { constructor; [done|intros k; apply put_crefs|by transitivity (fs_sem s1)]. }
    split; [by eapply vfs_inv_frame|]. split; [done|]. split; [by intros b _; apply Hk1|]. split; [done|].
    right. by exists g.
  - cbn [Z.ltb Z.compare]. unfold fails. cbn [mbind option_bind]. set (s4 := set_errno _ _).
    pose proof (files_inv_sem _ _ _ _ _ s4 Hi2) as Hi3. set (st3 := with_fs (with_fs_sem s4 _) _) in *.
    assert (Hf3 : file_at (l, fd) st3 = Some f) by exact Hf. rewrite Hf3. cbn [mbind option_bind].
    assert (Hss4 : same_sems (fs_sem (v_fs st)) (fs_sem (v_fs st3))).
    { transitivity (fs_sem s1); [done|]. transitivity s3; [done|]. apply same_sems_errno. }
    destruct (v_release_run tree_sem _ _ _ _ _ _ Hi3) as (s5 & G' & -> & Hi4 & Hss5 & _ & Hk5); [|done|].
    { destruct (proj1 (vf_ready _ _ _ _ _ _ Hv)) as [H0 H1]. split; [done|]. by rewrite (ss_count _ _ Hss4). }
    cbn [mbind option_bind]. exists (-1), (with_fs s5 st3), G'.
    assert (Hfr : frame st (with_fs s5 st3)).
    { apply (frame_fs st s5). by transitivity (fs_sem (v_fs st3)). }
    split; [done|]. split; [by eapply vfs_inv_frame|]. split; [done|].
    split; [intros b Hb; transitivity (kind_at (inodes s1) b); [apply Hk5; by right|apply Hk1]|]. split; [done|].
    left. by split_and!.
Qed.

(** The lowest free descriptor from [minfd] on refers to the same inode. *)
Lemma file_dup_run fd minfd st t G E Y : vfs_inv tree_sem st t G E Y → room E st → is_int fd → 0 ≤ minfd →
  let l := sched_getfiles st in
  ∃ ret st' G', file_dup tree_sem fd minfd st = Some (ret, st') ∧ vfs_inv tree_sem st' t G' E Y ∧ frame st st' ∧ kept E st st' ∧
    v_dev st' = v_dev st ∧
    if l =? 0 then ret = -1 ∧ failed EMFILE st st' else
    ((∀ f, ¬ open_file st fd f) ∧ ret = -1 ∧ failed EBADF st st' ∨
     ∃ f, open_file st fd f ∧
       (all_open st l minfd ∧ ret = -1 ∧ filelists st' = filelists st ∨
        ∃ g, lowest_free st l minfd ret g ∧
          filelists st' = put_file (l, ret) (mk_file (f_oflags f) (f_pos f) (f_inode f) (f_priv g)) (filelists st))).
Proof using.
  intros Hv HR Hint Hmin l. pose proof (λ err, refuse_run err _ _ _ _ _ Hv) as Hfail. unfold file_dup. fold l.
  destruct (Z.eqb_spec l 0) as [E0|Hl0].
  { destruct (Hfail EMFILE) as (ret & st' & G' & Ef & H1 & H2 & H3 & H4 & H5). exists ret, st', G'. split_and!; try done; apply H5. }
  assert (Hbad : (∀ f, ¬ open_file st fd f) → ∃ ret st' G', fails EBADF st = Some (ret, st') ∧ vfs_inv tree_sem st' t G' E Y ∧
    frame st st' ∧ kept E st st' ∧ v_dev st' = v_dev st ∧ (∀ f, ¬ open_file st fd f) ∧ ret = -1 ∧ failed EBADF st st').
  { intros Hno. destruct (Hfail EBADF) as (ret & st' & G' & Ef & H1 & H2 & H3 & H4 & H5). exists ret, st', G'. split_and!; try done; apply H5. }
  pose proof (dup_isopen_run fd _ _ _ _ _ Hv Hint Hl0) as Hopen. fold l in Hopen.
  destruct ((0 <=? fd) && (fd <? 8)) eqn:Hfd.
  2:{ rewrite Hopen. cbn [mbind option_bind negb]. destruct Hbad as (ret & st' & G' & ? & ? & ? & ? & ? & ?).
      - intros f (Hr & _). apply andb_false_iff in Hfd as [?%Z.leb_gt|?%Z.ltb_ge]; lia.
      - exists ret, st', G'. split_and!; try done. by left. }
  apply andb_prop in Hfd as [Hlo%Z.leb_le Hhi%Z.ltb_lt]. destruct Hopen as (f & Hf & ->).
  cbn [mbind option_bind]. rewrite negb_involutive. destruct (Z.eqb_spec (f_inode f) 0) as [Ei|Hn].
  { destruct Hbad as (ret & st' & G' & ? & ? & ? & ? & ? & ?).
    - intros g (_ & Hg & Hn). fold l in Hg. rewrite Hf in Hg. by injection Hg as <-.
    - exists ret, st', G'. split_and!; try done. by left. }
  assert (Ho : open_file st fd f) by by split_and!.
  destruct (file_dup_open_run fd f minfd _ _ _ _ _ Hv HR Ho Hmin Hl0) as (ret & st' & G' & Ed & H1 & H2 & H3 & H4 & H5).
  exists ret, st', G'. split; [exact Ed|]. split_and!; try done. right. by exists f.
Qed.
End Files.
