(* ===== verification/VfsIo.v ===== *)
(** Reading, writing, seeking and the control calls on a descriptor. *)

From Stdlib Require Import Ascii.
From stdpp Require Import base numbers gmap sorting list strings.
From S2P Require Import Prelude Memory Queue Sched Sem SemThms Kmalloc Inode InodeTree InodeRep InodeInv InodeOps.
From S2P Require Import InodeCalls InodeSpec Vfs VfsInv VfsOps VfsCalls VfsFiles.

Section Io.
Context {A : Type} {HA : Kmalloc A} {HL : KmallocLaws A} {D : Type}.
Variable tree_sem : Z.
Variable ops : Z → file_operations D.
Hypothesis Hops : ∀ p, ops_ok (ops p).
Implicit Types st : vfsst A D.
#[local] Notation inv := (vfs_inv tree_sem).

(** What every call keeps. *)
Definition stays st st' t G E Y : Prop := inv st' t G E Y ∧ frame st st' ∧ same_kinds st st'.

Lemma stays_refl st t G E Y : inv st t G E Y → stays st st t G E Y.
Proof using. intros. split_and!; [done|done|by intros b]. Qed.

Lemma refuse_stays err st t G E Y : inv st t G E Y →
  ∃ ret st', fails err st = Some (ret, st') ∧ stays st st' t G E Y ∧ ret = -1 ∧ failed err st st'.
Proof using.
  intros Hv. destruct (fails_run tree_sem err _ _ _ _ _ Hv) as (st' & Ef & H1 & H2 & H3 & H4).
  exists (-1), st'. split; [done|]. split; [by split_and!|]. by split.
Qed.

(** The driver's function ran, and the call returns what [result] makes of its result. *)
Definition runs (fn : driver_fn D) (result : Z → file → Z) st st' (p : fileptr) (f : file) (x : inode) (ret : Z) : Prop :=
  let '(r, f', d') := fn (i_private x) f (v_dev st) in
  v_dev st' = d' ∧ filelists st' = put_file p f' (filelists st) ∧
  if r <? 0 then ret = -1 ∧ errno_set (- r) st' else ret = result r f'.

Lemma driver_stays fn p f x st t G E Y : inv st t G E Y → keeps_file fn → file_at p st = Some f → f_inode f ≠ 0 →
  inodes (v_fs st) !! f_inode f = Some x →
  ∃ r f' d', fn (i_private x) f (v_dev st) = (r, f', d') ∧
    let st' := with_filelists (put_file p f' (filelists st)) (with_dev d' st) in
    driver_call fn p st = Some (r, st') ∧ stays st st' t G E Y ∧ file_at p st' = Some f'.
Proof using.
  intros Hv Hk Hf Hn Hx. destruct (fn (i_private x) f (v_dev st)) as [[r f'] d'] eqn:Efn.
  exists r, f', d'. split; [done|]. intros st'.
  destruct (driver_call_run fn p f x r f' d' st t G E Y (vf_files _ _ _ _ _ _ Hv) Hk Hf Hn Hx Efn) as [E1 E2].
  split; [exact E1|]. assert (Hfr : frame st st') by apply frame_put.
  split; [split_and!; [by eapply vfs_inv_frame|done|by intros b]|].
  rewrite (file_at_put p p f f' st st') by done. by apply decide_True.
Qed.

(** A call that ends with the driver's result. *)
Lemma driver_result_run fn p f x st t G E Y : inv st t G E Y → keeps_file fn → file_at p st = Some f → f_inode f ≠ 0 →
  inodes (v_fs st) !! f_inode f = Some x →
  ∃ ret st', ('(ret, st) ← driver_call fn p st; if ret <? 0 then fails (- ret) st else Some (ret, st)) = Some (ret, st') ∧
    stays st st' t G E Y ∧ runs fn (λ r _, r) st st' p f x ret.
Proof using.
  intros Hv Hk Hf Hn Hx. destruct (driver_stays fn p f x st t G E Y Hv Hk Hf Hn Hx) as (r & f' & d' & Efn & -> & (Hv' & Hfr & Hks) & _).
  cbn [mbind option_bind]. set (st1 := with_filelists _ _) in *. destruct (Z.ltb_spec r 0) as [Hr|Hr].
  - destruct (fails_run tree_sem (- r) _ _ _ _ _ Hv') as (st' & -> & H1 & H2 & (H3 & Em & Ed) & H4). exists (-1), st'.
    split; [done|]. split; [split_and!; [done|by transitivity st1|by eapply same_kinds_trans]|].
    unfold runs. rewrite Efn, Em, Ed. rewrite (proj2 (Z.ltb_lt r 0)) by done. by split_and!.
  - exists r, st1. split; [done|]. split; [done|]. unfold runs. rewrite Efn. rewrite (proj2 (Z.ltb_ge r 0)) by done.
    by split_and!.
Qed.

(** The file of a descriptor: none when the number is wrong or the task has no list. *)
Lemma file_of_fd fd st t G E Y : inv st t G E Y → is_int fd →
  let l := sched_getfiles st in
  if negb ((0 <=? fd) && (fd <? 8)) then is_filedes fd = false
  else is_filedes fd = true ∧ (l = 0 ∨ l ≠ 0 ∧ ∃ f, file_at (l, fd) st = Some f ∧
    (f_inode f = 0 ∨ f_inode f ≠ 0 ∧ ∃ x, inodes (v_fs st) !! f_inode f = Some x ∧ openable x = true ∧ i_ops x ≠ 0)).
Proof using.
  intros Hv Hint l. rewrite is_filedes_eq by done. destruct ((0 <=? fd) && (fd <? 8)) eqn:Hfd; cbn [negb]; [|done].
  split; [done|]. apply andb_prop in Hfd as [Hlo%Z.leb_le Hhi%Z.ltb_lt].
  destruct (decide (l = 0)) as [|Hl0]; [by left|right]. split; [done|].
  destruct (getfiles_list _ _ _ _ _ _ Hv Hl0) as [fl Hl].
  destruct (file_at_range _ _ _ _ _ _ _ fd (vf_files _ _ _ _ _ _ Hv) Hl) as [f Hf]; [lia|]. exists f. split; [exact Hf|].
  destruct (decide (f_inode f = 0)) as [|Hn]; [by left|right]. split; [done|].
  destruct (vi_open _ _ _ _ _ (vf_files _ _ _ _ _ _ Hv) _ _ Hf Hn) as (x & Hx & Ho). exists x. split_and!; try done.
  unfold openable in Ho. apply andb_prop in Ho as [_ Ho]. apply negb_true_iff, Z.eqb_neq in Ho. done.
Qed.

Lemma operation_ops {X} (op : file_operations D → option X) x : i_ops x ≠ 0 → operation ops op x = op (ops (i_ops x)).
Proof using. intros Hx. unfold operation. by rewrite (proj2 (Z.eqb_neq (i_ops x) 0)). Qed.

(** ** read and write *)

Definition transfer (wr : bool) (fd buf nbytes : Z) st : option (Z * vfsst A D) :=
  if wr then write ops fd buf nbytes st else read ops fd buf nbytes st.

(** The driver's function, when the file was opened for it. *)
Definition transfer_fn (wr : bool) (f : file) (x : inode) : option (Z → Z → driver_fn D) :=
  if Z.testbit (f_oflags f) (if wr then 1 else 0) then
    (if wr then op_write else op_read) (ops (i_ops x))
  else None.

Lemma transfer_run wr fd buf nbytes st t G E Y : inv st t G E Y → is_int fd →
  let l := sched_getfiles st in
  ∃ ret st', transfer wr fd buf nbytes st = Some (ret, st') ∧ stays st st' t G E Y ∧
    if negb ((0 <=? fd) && (fd <? 8)) then ret = -1 ∧ failed EBADF st st'
    else if l =? 0 then ret = -1 ∧ failed EMFILE st st'
    else ∃ f, file_at (l, fd) st = Some f ∧
      if f_inode f =? 0 then ret = -1 ∧ failed EBADF st st'
      else ∃ x, inodes (v_fs st) !! f_inode f = Some x ∧
        match transfer_fn wr f x with
        | None => ret = -1 ∧ failed EBADF st st'
        | Some fn => runs (fn buf nbytes) (λ r _, r) st st' (l, fd) f x ret
        end.
Proof using Hops.
  intros Hv Hint l. pose proof (λ err, refuse_stays err _ _ _ _ _ Hv) as Hfail.
  pose proof (file_of_fd fd _ _ _ _ _ Hv Hint) as Hfd. cbv zeta in Hfd. fold l in Hfd.
  destruct (negb _).
  { unfold transfer, read, write. rewrite Hfd. cbn [negb]. destruct wr; apply Hfail. }
  destruct Hfd as [Hfd Hl]. unfold transfer, read, write. rewrite Hfd. cbn [negb]. unfold file_read, file_write. fold l.
  destruct (Z.eqb_spec l 0) as [E0|Hl0]; [destruct wr; apply Hfail|].
  destruct Hl as [|(_ & f & Hf & Hl)]; [done|]. rewrite Hf, Hfd.
  change O_RDOK with (2 ^ 0). change O_WROK with (2 ^ 1). cbn [mbind option_bind]. rewrite !land_one by done.
  assert (Hbad : ∀ P : Z → vfsst A D → Prop, (∀ ret st', ret = -1 ∧ failed EBADF st st' → P ret st') →
    ∃ ret st', fails EBADF st = Some (ret, st') ∧ stays st st' t G E Y ∧ P ret st').
  { intros P HP. destruct (Hfail EBADF) as (ret & st' & ? & ? & ?). exists ret, st'. split_and!; [done|done|by apply HP]. }
  assert (Hneg : (if - EBADF <? 0 then fails (- - EBADF) st else Some (- EBADF, st)) = fails EBADF st) by done.
  destruct Hl as [Hn|(Hn & x & Hx & _ & Hops0)].
  { rewrite Hn. cbn [Z.eqb]. destruct wr, (Z.testbit (f_oflags f) _); cbn [negb mbind option_bind]; rewrite ?Hneg;
      apply Hbad; intros ret st' ?; exists f; (split; [done|by rewrite Hn]). }
  rewrite !(proj2 (Z.eqb_neq (f_inode f) 0)) by done.
  change (v_inode (f_inode f) st) with (inodes (v_fs st) !! f_inode f). rewrite Hx. cbn [mbind option_bind].
  rewrite !operation_ops by done.
  destruct (transfer_fn wr f x) as [fn|] eqn:Efn; unfold transfer_fn in Efn.
  - assert (Hk : keeps_file (fn buf nbytes)).
    { destruct wr, (Z.testbit _ _); try done; [by eapply ok_write|by eapply ok_read]. }
    destruct (driver_result_run (fn buf nbytes) (l, fd) f x _ _ _ _ _ Hv Hk Hf Hn Hx) as (ret & st' & Er & Hs & Hr).
    exists ret, st'. split.
    + destruct wr, (Z.testbit (f_oflags f) _); try done; rewrite Efn; cbn [negb]; exact Er.
    + split; [done|]. exists f. split; [done|]. rewrite (proj2 (Z.eqb_neq (f_inode f) 0)) by done. exists x.
      split; [done|]. unfold transfer_fn. by rewrite Efn.
  - assert (Hres : ∃ ret st', fails EBADF st = Some (ret, st') ∧ stays st st' t G E Y ∧
      ∃ g, Some f = Some g ∧ if f_inode g =? 0 then ret = -1 ∧ failed EBADF st st' else
        ∃ x, inodes (v_fs st) !! f_inode g = Some x ∧ match transfer_fn wr g x with
        | None => ret = -1 ∧ failed EBADF st st' | Some fn => runs (fn buf nbytes) (λ r _, r) st st' (l, fd) g x ret end).
    { apply Hbad. intros ret st' ?. exists f. split; [done|]. rewrite (proj2 (Z.eqb_neq (f_inode f) 0)) by done.
      exists x. split; [done|]. unfold transfer_fn. by rewrite Efn. }
    destruct wr, (Z.testbit (f_oflags f) _); try rewrite Efn; cbn [negb mbind option_bind]; exact Hres.
Qed.

(** ** lseek *)

(** Where the position goes when the driver has no say. *)
Definition seek_to (f : file) (offset whence : Z) : Z + Z :=
  if (whence =? SEEK_SET) || (whence =? SEEK_CUR) then
    let pos := if whence =? SEEK_CUR then i32 (offset + f_pos f) else offset in
    if 0 <=? pos then inr pos else inl EINVAL
  else if whence =? SEEK_END then inl ENOSYS else inl EINVAL.

Definition lseeks st st' (p : fileptr) (f : file) (x : inode) (offset whence ret : Z) : Prop :=
  match op_seek (ops (i_ops x)) with
  | Some fn => runs (fn offset whence) (λ _ f', f_pos f') st st' p f x ret
  | None =>
      match seek_to f offset whence with
      | inl err => ret = -1 ∧ failed err st st'
      | inr pos => ret = pos ∧ v_dev st' = v_dev st ∧ filelists st' = put_file p (with_pos pos f) (filelists st)
      end
  end.

Lemma lseek_set_run pos p f st t G E Y : inv st t G E Y → file_at p st = Some f → f_inode f ≠ 0 → 0 ≤ pos →
  ∃ st', lseek_set pos p st = Some (pos, st') ∧ stays st st' t G E Y ∧
    v_dev st' = v_dev st ∧ filelists st' = put_file p (with_pos pos f) (filelists st).
Proof using.
  intros Hv Hf Hn Hpos. unfold lseek_set. rewrite (proj2 (Z.leb_le 0 pos)) by done. rewrite Hf. cbn [mbind option_bind].
  rewrite (set_file_run _ _ (with_pos pos f) _ Hf). cbn [mbind option_bind]. set (st1 := with_filelists _ _).
  unfold lseek_end.
  assert (Hf1 : file_at p st1 = Some (with_pos pos f)) by (rewrite (file_at_put p _ f (with_pos pos f) st st1) by done; by apply decide_True).
  rewrite Hf1. cbn [mbind option_bind]. exists st1. split; [done|].
  assert (Hfr : frame st st1) by (constructor; [done|intros k; apply put_crefs|done]).
  split; [|done]. split_and!; [|done|by intros b]. eapply vfs_inv_frame; [done|done|].
  apply (set_file_inv p f _ _ _ _ E _ _ (vf_files _ _ _ _ _ _ Hv) Hf).
  - intros _. exact (vi_open _ _ _ _ _ (vf_files _ _ _ _ _ _ Hv) _ _ Hf Hn).
  - intros a. by rewrite (holds_inode a (with_pos pos f) f).
Qed.

(** The default positions. *)
Lemma seek_default_run offset whence p f st t G E Y : inv st t G E Y → file_at p st = Some f → f_inode f ≠ 0 →
  ∃ ret st',
    (if whence =? SEEK_CUR then lseek_set (i32 (offset + f_pos f)) p st
     else if whence =? SEEK_SET then lseek_set offset p st
     else if whence =? SEEK_END then fails ENOSYS st
     else fails EINVAL st) = Some (ret, st') ∧ stays st st' t G E Y ∧
    match seek_to f offset whence with
    | inl err => ret = -1 ∧ failed err st st'
    | inr pos => ret = pos ∧ v_dev st' = v_dev st ∧ filelists st' = put_file p (with_pos pos f) (filelists st)
    end.
Proof using.
  intros Hv Hf Hn. pose proof (λ err, refuse_stays err _ _ _ _ _ Hv) as Hfail.
  assert (Hset : ∀ pos, ∃ ret st', lseek_set pos p st = Some (ret, st') ∧ stays st st' t G E Y ∧
    match (if 0 <=? pos then inr pos else inl EINVAL) with
    | inl err => ret = -1 ∧ failed err st st'
    | inr pos => ret = pos ∧ v_dev st' = v_dev st ∧ filelists st' = put_file p (with_pos pos f) (filelists st)
    end).
  { intros pos. destruct (Z.leb_spec 0 pos) as [Hp|Hp].
    - destruct (lseek_set_run pos p f _ _ _ _ _ Hv Hf Hn Hp) as (st' & Es & H1 & H2 & H3). by exists pos, st'.
    - unfold lseek_set. rewrite (proj2 (Z.leb_gt 0 pos)) by done. apply Hfail. }
  unfold seek_to. destruct (Z.eqb_spec whence SEEK_CUR) as [->|]; [apply Hset|].
  destruct (Z.eqb_spec whence SEEK_SET) as [->|]; [apply Hset|]. cbn [orb].
  destruct (whence =? SEEK_END); apply Hfail.
Qed.

Lemma lseek_run fd offset whence st t G E Y : inv st t G E Y → is_int fd →
  let l := sched_getfiles st in
  ∃ ret st', lseek ops fd offset whence st = Some (ret, st') ∧ stays st st' t G E Y ∧
    if negb ((0 <=? fd) && (fd <? 8)) then ret = -1 ∧ failed EBADF st st'
    else if l =? 0 then ret = -1 ∧ failed EMFILE st st'
    else ∃ f, file_at (l, fd) st = Some f ∧
      if f_inode f =? 0 then ret = f_pos f ∧ st' = st
      else ∃ x, inodes (v_fs st) !! f_inode f = Some x ∧ lseeks st st' (l, fd) f x offset whence ret.
Proof using Hops.
  intros Hv Hint l. pose proof (λ err, refuse_stays err _ _ _ _ _ Hv) as Hfail.
  pose proof (file_of_fd fd _ _ _ _ _ Hv Hint) as Hfd. cbv zeta in Hfd. fold l in Hfd. unfold lseek. fold l.
  destruct (negb _); [rewrite Hfd; apply Hfail|]. destruct Hfd as [-> Hl]. cbn [negb].
  destruct (Z.eqb_spec l 0) as [E0|Hl0]; [apply Hfail|]. destruct Hl as [|(_ & f & Hf & Hl)]; [done|].
  rewrite Hf. cbn [mbind option_bind]. destruct Hl as [Hn|(Hn & x & Hx & _ & Hops0)].
  { rewrite Hn. unfold lseek_end. rewrite Hf. exists (f_pos f), st. split; [done|]. split; [by apply stays_refl|].
    exists f. split; [done|]. by rewrite Hn. }
  rewrite (proj2 (Z.eqb_neq (f_inode f) 0)) by done.
  change (v_inode (f_inode f) st) with (inodes (v_fs st) !! f_inode f). rewrite Hx. cbn [mbind option_bind].
  rewrite (proj2 (Z.eqb_neq (i_ops x) 0)) by done.
  assert (Hwrap : ∀ r : option (Z * vfsst A D), (∃ ret st', r = Some (ret, st') ∧ stays st st' t G E Y ∧ lseeks st st' (l, fd) f x offset whence ret) →
    ∃ ret st', r = Some (ret, st') ∧ stays st st' t G E Y ∧ ∃ g, Some f = Some g ∧
      if f_inode g =? 0 then ret = f_pos g ∧ st' = st
      else ∃ x, inodes (v_fs st) !! f_inode g = Some x ∧ lseeks st st' (l, fd) g x offset whence ret).
  { intros r (ret & st' & -> & Hs & Hr). exists ret, st'. split_and!; [done..|]. exists f. split; [done|].
    rewrite (proj2 (Z.eqb_neq (f_inode f) 0)) by done. by exists x. }
  apply Hwrap. unfold lseeks. destruct (op_seek (ops (i_ops x))) as [fn|] eqn:Eo; [|by apply seek_default_run].
  destruct (driver_stays (fn offset whence) (l, fd) f x _ _ _ _ _ Hv) as (r & f' & d' & Efn & -> & (Hv' & Hfr & Hks) & Hf');
    [by eapply ok_seek|done..|].
  cbn [mbind option_bind]. set (st1 := with_filelists _ _) in *. destruct (Z.ltb_spec r 0) as [Hr|Hr].
  - destruct (fails_run tree_sem (- r) _ _ _ _ _ Hv') as (st' & -> & H1 & H2 & (H3 & Em & Ed) & H4). exists (-1), st'.
    split; [done|]. split; [split_and!; [done|by transitivity st1|by eapply same_kinds_trans]|].
    unfold runs. rewrite Efn, Em, Ed. rewrite (proj2 (Z.ltb_lt r 0)) by done. by split_and!.
  - unfold lseek_end. rewrite Hf'. exists (f_pos f'), st1. split; [done|]. split; [done|]. unfold runs. rewrite Efn.
    rewrite (proj2 (Z.ltb_ge r 0)) by done. by split_and!.
Qed.

(** ** ioctl *)

Lemma ioctl_run fd req arg st t G E Y : inv st t G E Y → is_int fd →
  let l := sched_getfiles st in
  ∃ ret st', ioctl ops fd req arg st = Some (ret, st') ∧ stays st st' t G E Y ∧
    if negb ((0 <=? fd) && (fd <? 8)) then ret = -1 ∧ failed EBADF st st'
    else if l =? 0 then ret = -1 ∧ failed EMFILE st st'
    else ∃ f, file_at (l, fd) st = Some f ∧
      if f_inode f =? 0 then ret = 0 ∧ st' = st
      else ∃ x, inodes (v_fs st) !! f_inode f = Some x ∧
        match op_ioctl (ops (i_ops x)) with
        | Some fn => runs (fn req arg) (λ r _, r) st st' (l, fd) f x ret
        | None => ret = 0 ∧ st' = st
        end.
Proof using Hops.
  intros Hv Hint l. pose proof (λ err, refuse_stays err _ _ _ _ _ Hv) as Hfail.
  pose proof (file_of_fd fd _ _ _ _ _ Hv Hint) as Hfd. cbv zeta in Hfd. fold l in Hfd. unfold ioctl. fold l.
  destruct (negb _); [rewrite Hfd; apply Hfail|]. destruct Hfd as [-> Hl]. cbn [negb].
  destruct (Z.eqb_spec l 0) as [E0|Hl0]; [apply Hfail|]. destruct Hl as [|(_ & f & Hf & Hl)]; [done|].
  rewrite Hf. cbn [mbind option_bind]. destruct Hl as [Hn|(Hn & x & Hx & _ & Hops0)].
  { rewrite Hn. exists 0, st. split; [done|]. split; [by apply stays_refl|]. exists f. split; [done|]. by rewrite Hn. }
  rewrite (proj2 (Z.eqb_neq (f_inode f) 0)) by done.
  change (v_inode (f_inode f) st) with (inodes (v_fs st) !! f_inode f). rewrite Hx. cbn [mbind option_bind].
  rewrite operation_ops by done.
  destruct (op_ioctl (ops (i_ops x))) as [fn|] eqn:Eo.
  - destruct (driver_result_run (fn req arg) (l, fd) f x _ _ _ _ _ Hv) as (ret & st' & Er & Hs & Hr); [by eapply ok_ioctl|done..|].
    exists ret, st'. split; [exact Er|]. split; [done|]. exists f. split; [done|].
    rewrite (proj2 (Z.eqb_neq (f_inode f) 0)) by done. exists x. split; [done|]. by rewrite Eo.
  - exists 0, st. split; [done|]. split; [by apply stays_refl|]. exists f. split; [done|].
    rewrite (proj2 (Z.eqb_neq (f_inode f) 0)) by done. exists x. split; [done|]. by rewrite Eo.
Qed.

(** ** fcntl *)

(** The commands that are recognized but always fail, and with what. *)
Definition fcntl_error (cmd : Z) : Z :=
  if bool_decide (cmd ∈ [F_GETFD; F_SETFD; F_GETLK; F_SETLK; F_SETLKW]) then ENOSYS
  else if bool_decide (cmd ∈ [F_GETOWN; F_SETOWN]) then EBADF else EINVAL.

Lemma fcntl_run fd cmd arg st t G E Y : inv st t G E Y → room E st → is_int fd → (cmd = F_DUPFD → 0 ≤ arg) →
  let l := sched_getfiles st in
  ∃ ret st' G', fcntl tree_sem fd cmd arg st = Some (ret, st') ∧ inv st' t G' E Y ∧ frame st st' ∧ kept E st st' ∧
    if negb ((0 <=? fd) && (fd <? 8)) then ret = EBADF ∧ st' = st
    else if l =? 0 then ret = -1 ∧ failed EMFILE st st'
    else ∃ f, file_at (l, fd) st = Some f ∧
      if f_inode f =? 0 then ret = -1 ∧ failed EBADF st st'
      else if cmd =? F_DUPFD then ret = 0 ∧ ∃ fd', file_dup tree_sem fd arg st = Some (fd', st')
      else if cmd =? F_GETFL then ret = 0 ∧ st' = st
      else if cmd =? F_SETFL then ret = 0 ∧ v_dev st' = v_dev st ∧
        filelists st' = put_file (l, fd) (with_oflags arg f) (filelists st)
      else ret = -1 ∧ failed (fcntl_error cmd) st st'.
Proof using.
  intros Hv HR Hint Harg l. pose proof (λ err, refuse_run tree_sem err _ _ _ _ _ Hv) as Hfail.
  pose proof (file_of_fd fd _ _ _ _ _ Hv Hint) as Hfd. cbv zeta in Hfd. fold l in Hfd. unfold fcntl.
  destruct (negb _).
  { rewrite Hfd. exists EBADF, st, G. split_and!; try done. }
  destruct Hfd as [-> Hl]. unfold file_vfcntl. fold l. destruct (Z.eqb_spec l 0) as [E0|Hl0]; [apply Hfail|].
  destruct Hl as [|(_ & f & Hf & Hl)]; [done|]. rewrite Hf. cbn [mbind option_bind].
  destruct Hl as [Hn|(Hn & x & Hx & _)].
  { rewrite Hn. cbn [Z.eqb]. destruct (Hfail EBADF) as (ret & st' & G' & ? & ? & ? & ? & ?).
    exists ret, st', G'. split_and!; try done. exists f. split; [done|]. by rewrite Hn. }
  rewrite (proj2 (Z.eqb_neq (f_inode f) 0)) by done.
  assert (Hself : ∀ P : Z → vfsst A D → Prop, (∃ ret st' G', P ret st' ∧ inv st' t G' E Y ∧ frame st st' ∧ kept E st st' ∧
      if cmd =? F_DUPFD then ret = 0 ∧ ∃ fd', file_dup tree_sem fd arg st = Some (fd', st')
      else if cmd =? F_GETFL then ret = 0 ∧ st' = st
      else if cmd =? F_SETFL then ret = 0 ∧ v_dev st' = v_dev st ∧
        filelists st' = put_file (l, fd) (with_oflags arg f) (filelists st)
      else ret = -1 ∧ failed (fcntl_error cmd) st st') →
    ∃ ret st' G', P ret st' ∧ inv st' t G' E Y ∧ frame st st' ∧ kept E st st' ∧ ∃ g, Some f = Some g ∧
      if f_inode g =? 0 then ret = -1 ∧ failed EBADF st st'
      else if cmd =? F_DUPFD then ret = 0 ∧ ∃ fd', file_dup tree_sem fd arg st = Some (fd', st')
      else if cmd =? F_GETFL then ret = 0 ∧ st' = st
      else if cmd =? F_SETFL then ret = 0 ∧ v_dev st' = v_dev st ∧
        filelists st' = put_file (l, fd) (with_oflags arg g) (filelists st)
      else ret = -1 ∧ failed (fcntl_error cmd) st st').
  { intros P (ret & st' & G' & ? & ? & ? & ? & ?). exists ret, st', G'. split_and!; [done..|]. exists f. split; [done|].
    by rewrite (proj2 (Z.eqb_neq (f_inode f) 0)). }
  apply Hself. destruct (Z.eqb_spec cmd F_DUPFD) as [E0|N0].
  { destruct (file_dup_run tree_sem fd arg _ _ _ _ _ Hv HR Hint (Harg E0)) as (fd' & st' & G' & Ed & H1 & H2 & H3 & _).
    rewrite Ed. exists 0, st', G'. split_and!; try done. by exists fd'. }
  destruct (Z.eqb_spec cmd F_GETFL) as [->|N1].
  { exists 0, st, G. split_and!; try done. }
  destruct (Z.eqb_spec cmd F_SETFL) as [->|N2].
  { change ((F_SETFL =? F_GETFD) || (F_SETFL =? F_SETFD)) with false. cbn iota.
    rewrite (set_file_run _ _ (with_oflags arg f) _ Hf). cbn [mbind option_bind]. eexists 0, _, G.
    assert (Hfr : frame st (with_filelists (put_file (l, fd) (with_oflags arg f) (filelists st)) st))
      by (constructor; [done|intros k; apply put_crefs|done]).
    split; [done|]. split; [|by split_and!]. eapply vfs_inv_frame; [done|done|].
    apply (set_file_inv _ f _ _ _ _ E _ _ (vf_files _ _ _ _ _ _ Hv) Hf).
    - intros _. exact (vi_open _ _ _ _ _ (vf_files _ _ _ _ _ _ Hv) _ _ Hf Hn).
    - intros a. by rewrite (holds_inode a (with_oflags arg f) f). }
  unfold fcntl_error.
  destruct (Z.eqb_spec cmd F_GETFD) as [->|N3]; [apply Hfail|]. destruct (Z.eqb_spec cmd F_SETFD) as [->|N4]; [apply Hfail|].
  destruct (Z.eqb_spec cmd F_GETOWN) as [->|N5]; [apply Hfail|]. destruct (Z.eqb_spec cmd F_SETOWN) as [->|N6]; [apply Hfail|].
  destruct (Z.eqb_spec cmd F_GETLK) as [->|N7]; [apply Hfail|]. destruct (Z.eqb_spec cmd F_SETLK) as [->|N8]; [apply Hfail|].
  destruct (Z.eqb_spec cmd F_SETLKW) as [->|N9]; [apply Hfail|]. cbn [orb].
  rewrite !bool_decide_false; [apply Hfail|..]; rewrite !elem_of_cons, elem_of_nil; tauto.
Qed.
End Io.
