(* ===== verification/VfsTask.v ===== *)
(** The lists of files of tasks: making, inheriting, sharing and releasing them. *)

From Stdlib Require Import Ascii.
From stdpp Require Import base numbers gmap sorting list strings.
From S2P Require Import Prelude Memory Queue Sched Sem SemThms Kmalloc Inode InodeTree InodeRep InodeInv InodeOps.
From S2P Require Import InodeCalls InodeSpec Vfs VfsInv VfsOps VfsCalls VfsFiles.

Section Task.
Context {A : Type} {HA : Kmalloc A} {HL : KmallocLaws A} {D : Type}.
Variable tree_sem : Z.
Variable ops : Z → file_operations D.
Hypothesis Hops : ∀ p, ops_ok (ops p).
Implicit Types st : vfsst A D.
#[local] Notation inv := (vfs_inv tree_sem).

(** ** Memory *)

Lemma fs_inv_heap (s : fsst A) t G R Y Y' h : fs_inv s t G R Y → k_owns h (list_to_set (all_nodes t G) ∪ Y') →
  (∀ a, a ∈ all_nodes t G → a ∉ Y') → fs_inv (with_heap h s) t G R Y'.
Proof using.
  intros [[S1 S2 S3 S4 S5 S6 S7] I2 I3 I4 I5 I6] Ho Hd. by constructor.
Qed.

(** A task uses one list more or less. *)
Lemma users_set m k l v : default 0 (m !! k) ≠ l → l ≠ 0 →
  users (<[k := v]> m) l = users m l + if decide (v = l) then 1 else 0.
Proof using.
  intros Hne Hl. unfold users. destruct (m !! k) as [v'|] eqn:E; cbn in Hne.
  - rewrite (msum_replace _ _ _ _ _ E). rewrite (decide_False (P := v' = l)) by done. lia.
  - rewrite (msum_new _ _ _ _ E). lia.
Qed.

Lemma users_leave m k l : m !! k = Some l → l ≠ 0 → users (<[k := 0]> m) l = users m l - 1.
Proof using.
  intros E Hl. unfold users. rewrite (msum_replace _ _ _ _ _ E).
  rewrite (decide_True (P := l = l)) by done. rewrite (decide_False (P := 0 = l)) by done. lia.
Qed.

Lemma users_leave_other m k l l' : m !! k = Some l → l' ≠ l → l' ≠ 0 → users (<[k := 0]> m) l' = users m l'.
Proof using.
  intros E Hne Hl. unfold users. rewrite (msum_replace _ _ _ _ _ E).
  rewrite (decide_False (P := l = l')) by done. rewrite (decide_False (P := 0 = l')) by done. lia.
Qed.

Lemma users_none m l : (∀ k, m !! k ≠ Some l) → users m l = 0.
Proof using.
  intros Hno. unfold users, msum. revert Hno.
  apply (map_fold_weak_ind (λ n m, (∀ k, m !! k ≠ Some l) → n = 0)); [done|].
  intros k v m' n Hk IH Hno. rewrite decide_False.
  - rewrite IH; [done|]. intros k' Hk'. apply (Hno k'). rewrite lookup_insert_ne; [done|]. by intros ->; rewrite Hk in Hk'.
  - intros ->. apply (Hno k). apply lookup_insert_eq.
Qed.

(** ** files_alloclist *)

(** The list that is made: eight files that are not open. *)
Definition new_list : filelist := mk_filelist 1 (replicate 8 (mk_file 0 0 0 0)).

Lemma new_list_refs a : sum_holds a (fl_files new_list) = 0.
Proof using. apply sum_holds_closed. by repeat constructor. Qed.

Lemma files_inv_new st t G E Y p h : files_inv st t G E Y → filelists st !! p = None →
  p ∉ list_to_set (C := gset Z) (all_nodes t G) ∪ (dom (filelists st) ∪ Y) →
  k_owns h ({[p]} ∪ (list_to_set (all_nodes t G) ∪ (dom (filelists st) ∪ Y))) →
  files_inv (with_filelists (<[p := new_list]> (filelists st)) (with_fs (with_heap h (v_fs st)) st)) t G E Y.
Proof using.
  intros [H1 H2 H3 H4 H5] Hp Hno Ho. rewrite !elem_of_union, elem_of_list_to_set, elem_of_dom in Hno.
  assert (HR : ∀ a, refs E (<[p := new_list]> (filelists st)) a = refs E (filelists st) a).
  { intros a. unfold refs, fdrefs. rewrite (msum_new _ _ _ _ Hp), new_list_refs. lia. }
  constructor; cbn [filelists v_fs with_filelists with_fs]; rewrite ?dom_insert_L.
  - eapply fs_inv_ext; [|exact HR]. eapply fs_inv_heap; [exact H1| |].
    + replace (list_to_set (all_nodes t G) ∪ ({[p]} ∪ dom (filelists st) ∪ Y))
        with ({[p]} ∪ (list_to_set (all_nodes t G) ∪ (dom (filelists st) ∪ Y))); [done|].
      apply leibniz_equiv. intros b. rewrite !elem_of_union. tauto.
    + intros a Ha. rewrite !elem_of_union, elem_of_singleton. intros [[->|Hd]|Hy]; [tauto|..].
      * apply (sh_other _ _ _ _ (fi_shape _ _ _ _ _ H1) a Ha). by apply elem_of_union_l.
      * apply (sh_other _ _ _ _ (fi_shape _ _ _ _ _ H1) a Ha). by apply elem_of_union_r.
  - intros b. rewrite elem_of_union, elem_of_singleton. intros [->|Hb]; [tauto|by apply H2].
  - intros l fl. destruct (decide (l = p)) as [->|Hl].
    + rewrite lookup_insert_eq. by intros [= <-].
    + rewrite lookup_insert_ne by done. apply H3.
  - intros q f (fl & Hl & Hq & Hf)%file_at_iff Hn. cbn in Hl. destruct (decide (q.1 = p)) as [Eq|Hne].
    + rewrite Eq, lookup_insert_eq in Hl. injection Hl as <-. apply lookup_replicate in Hf as [-> _]. done.
    + rewrite lookup_insert_ne in Hl by done. apply (H4 q); [|done]. apply file_at_iff. by exists fl.
  - intros d b Hd Hb Ht. rewrite HR. by eapply H5.
Qed.

(** A list that is not there yet. *)
Definition alloc_ok st : Prop :=
  ∀ p h, kzalloc FILELIST_SIZE (fs_heap (v_fs st)) = Some (p, h) → p ≠ tree_sem.

Lemma alloclist_run st t G E Y : files_inv st t G E Y → sems_ready tree_sem st → alloc_ok st →
  files_alloclist st = Some (0, st) ∨
  ∃ p h s, files_alloclist st = Some (p, with_filelists (<[p := new_list]> (filelists st))
      (with_fs (with_heap h (with_fs_sem s (v_fs st))) st)) ∧
    p ≠ 0 ∧ filelists st !! p = None ∧ qs (sch s) = qs (sch (fs_sem (v_fs st))) ∧
    let st' := with_filelists (<[p := new_list]> (filelists st)) (with_fs (with_heap h (with_fs_sem s (v_fs st))) st) in
    files_inv st' t G E Y ∧ sems_ready tree_sem st'.
Proof using.
  intros Hi Hr Hp. unfold files_alloclist.
  destruct (kzalloc_ok FILELIST_SIZE (fs_heap (v_fs st)) _ (sh_heap _ _ _ _ (fi_shape _ _ _ _ _ (vi_fs _ _ _ _ _ Hi))))
    as (p & h & E1 & Hc); [done|].
  rewrite E1. cbn [mbind option_bind]. destruct Hc as [[-> ->]|(Hp0 & Hno & Ho)].
  - left. cbn [Z.eqb negb]. destruct st as [[] ? ? ?]. done.
  - right. rewrite (proj2 (Z.eqb_neq p 0)) by done. cbn [negb].
    assert (Hnone : filelists st !! p = None).
    { apply not_elem_of_dom. intros Hd. apply Hno. rewrite !elem_of_union. tauto. }
    unfold sem_init. rewrite (proj2 (Z.eqb_neq p 0)) by done. cbn [negb andb Z.leb Z.compare snd].
    exists p, h, (set_semcount p 1 (fs_sem (v_fs st))). split; [done|]. split; [done|]. split; [done|]. split; [done|].
    cbv zeta. split.
    + pose proof (files_inv_sem _ _ _ _ _ (set_semcount p 1 (fs_sem (v_fs st))) Hi) as Hi1.
      exact (files_inv_new (with_fs (with_fs_sem (set_semcount p 1 (fs_sem (v_fs st))) (v_fs st)) st) t G E Y p h Hi1 Hnone Hno Ho).
    + destruct Hr as [[H0 H1] Hl]. pose proof (Hp _ _ E1) as Hpt.
      assert (Hc : ∀ k, semcount (set_semcount p 1 (fs_sem (v_fs st))) k = if decide (k = p) then 1 else semcount (fs_sem (v_fs st)) k).
      { intros k. by rewrite semcount_set. }
      split; [split; [done|]|].
      * cbn [v_fs with_filelists with_fs fs_sem with_heap with_fs_sem]. rewrite Hc, decide_False by done. exact H1.
      * intros l. cbn [v_fs filelists with_filelists with_fs fs_sem with_heap with_fs_sem]. rewrite Hc.
        destruct (decide (l = p)) as [->|Hne]; [done|]. rewrite lookup_insert_ne by done. apply Hl.
Qed.

(** ** Inheriting files *)

Definition room_for (n : Z) (E : Z → Z) st : Prop := ∀ a, refs E (filelists st) a + n < 0x7fff.

Lemma room_less n E st : 0 ≤ n → room_for n E st → room E st.
Proof using. intros Hn HR a. specialize (HR a). lia. Qed.

Lemma refs_put_le E st p f f' a : file_at p st = Some f →
  refs E (put_file p f' (filelists st)) a ≤ refs E (filelists st) a + 1.
Proof using.
  intros Hf. unfold refs. rewrite (fdrefs_put _ _ _ _ _ Hf). pose proof (holds_range a f). pose proof (holds_range a f'). lia.
Qed.

(** Duplicating a file that is open takes at most one more reference to each inode, and
    leaves the other descriptors alone. *)
Lemma files_dup_step p1 p2 f1 f2 st t G E Y : inv st t G E Y → room E st →
  file_at p1 st = Some f1 → file_at p2 st = Some f2 → p1 ≠ p2 →
  ∃ ret st' G', files_dup tree_sem ops p1 p2 st = Some (ret, st') ∧ inv st' t G' E Y ∧ frame st st' ∧
    (∀ a, refs E (filelists st') a ≤ refs E (filelists st) a + 1) ∧
    ∀ q, q ≠ p2 → file_at q st' = file_at q st.
Proof using Hops.
  intros Hv HR H1 H2 Hne.
  destruct (files_dup_run tree_sem ops Hops p1 p2 f1 f2 st t G E Y Hv HR H1 H2 Hne) as (ret & st' & G' & Ed & Hv' & Hfr & _ & Hc).
  exists ret, st', G'.
  assert (Hor : filelists st' = filelists st ∨ ∃ f, filelists st' = put_file p2 f (filelists st)).
  { destruct (f_inode f1 =? 0); [left; apply Hc|]. destruct Hc as (x1 & _ & Hc).
    destruct (INODE_IS_MOUNTPT x1); [left; apply Hc|]. destruct (sched_getfiles st =? 0); [left; apply Hc|].
    right. unfold dups in Hc. destruct (dup_effect _ _ _ _ _ _) as [[r f] d]. exists f. apply Hc. }
  split_and!; [done..| |].
  - destruct Hor as [->|[f ->]]; [intros a; lia|]. intros a. by eapply refs_put_le.
  - intros q Hq. destruct Hor as [Em|[f Em]]; [unfold file_at; by rewrite Em|].
    rewrite (file_at_put p2 q f2 f st st' H2 Em). by apply decide_False.
Qed.

Lemma clone_loop_run n i parent child st t G E Y : n = Z.to_nat (8 - i) → 0 ≤ i → inv st t G E Y →
  room_for (8 - i) E st → is_Some (filelists st !! parent) → is_Some (filelists st !! child) → parent ≠ child →
  ∃ st' G', clone_loop tree_sem ops n i parent child st = Some st' ∧ inv st' t G' E Y ∧ frame st st'.
Proof using Hops.
  intros Hn Hi. revert i st G Hn Hi. induction n as [|n IH]; intros i st G Hn Hi Hv HR [fp Hp] [fc Hc] Hne; cbn [clone_loop].
  { by exists st, G. }
  destruct (file_at_range _ _ _ _ _ _ _ i (vf_files _ _ _ _ _ _ Hv) Hp) as [f1 H1]; [lia|].
  destruct (file_at_range _ _ _ _ _ _ _ i (vf_files _ _ _ _ _ _ Hv) Hc) as [f2 H2]; [lia|].
  rewrite H1. cbn [mbind option_bind]. destruct (negb (f_inode f1 =? 0)).
  - destruct (files_dup_step (parent, i) (child, i) f1 f2 st t G E Y Hv) as (ret & st1 & G1 & -> & Hv1 & Hfr & Hle & _);
      [apply (room_less (8 - i)); [lia|done]|done|done|congruence|].
    cbn [mbind option_bind]. destruct (IH (i + 1) st1 G1) as (st' & G' & E' & Hv' & Hfr'); [lia|lia|done| | | |done|].
    + intros a. specialize (HR a). specialize (Hle a). lia.
    + by eapply frame_dom.
    + by eapply frame_dom.
    + exists st', G'. split_and!; [done|done|by transitivity st1].
  - cbn [mbind option_bind]. apply (IH (i + 1) st G); try done; [lia|lia|]. intros a. specialize (HR a). lia.
Qed.

Lemma inv_set_tcb st st0 t G E Y tcb p : files_inv st t G E Y → sems_ready tree_sem st → inv st0 t G E Y →
  filelists st = <[p := new_list]> (filelists st0) → tcb_filelist st = tcb_filelist st0 → filelists st0 !! p = None →
  p ≠ 0 → default 0 (tcb_filelist st0 !! tcb) = 0 → inv (set_tcb_filelist tcb p st) t G E Y.
Proof using.
  intros Hi Hr Hv Em Et Hp Hp0 Htcb. unfold set_tcb_filelist.
  assert (Hnone : users (tcb_filelist st0) p = 0).
  { apply users_none. intros k Hk. destruct (vf_tcb _ _ _ _ _ _ Hv _ _ Hk Hp0) as [fl Hl]. by rewrite Hp in Hl. }
  constructor; [by destruct Hi; constructor|done|apply Hv| |]; cbn [filelists tcb_filelist with_tcb_filelist]; rewrite Em, Et.
  - intros l fl Hl.
    assert (Hl0 : l ≠ 0) by (eapply (proj2 Hr); rewrite Em; by exists fl).
    rewrite users_set by congruence. destruct (decide (l = p)) as [->|Hne].
    + rewrite lookup_insert_eq in Hl. injection Hl as <-. rewrite Hnone, decide_True by done. by cbn.
    + rewrite lookup_insert_ne in Hl by done. rewrite decide_False by congruence.
      pose proof (vf_users _ _ _ _ _ _ Hv _ _ Hl). rewrite Z.add_0_r. done.
  - intros k l. destruct (decide (k = tcb)) as [->|Hk].
    + rewrite lookup_insert_eq. intros [= <-] _. rewrite lookup_insert_eq. done.
    + rewrite lookup_insert_ne by done. intros Hkl Hl. destruct (decide (l = p)) as [->|Hne]; [by rewrite lookup_insert_eq|].
      rewrite lookup_insert_ne by done. by eapply vf_tcb.
Qed.

(** No list for this task. *)
Lemma inv_set_null st t G E Y tcb : inv st t G E Y → default 0 (tcb_filelist st !! tcb) = 0 →
  inv (set_tcb_filelist tcb 0 st) t G E Y.
Proof using.
  intros Hv Htcb. unfold set_tcb_filelist.
  constructor; [by destruct (vf_files _ _ _ _ _ _ Hv); constructor|apply Hv|apply Hv| |]; cbn [filelists tcb_filelist with_tcb_filelist].
  - intros l fl Hl. assert (Hl0 : l ≠ 0) by (eapply (proj2 (vf_ready _ _ _ _ _ _ Hv)); by exists fl).
    rewrite users_set by congruence. rewrite decide_False by congruence. rewrite Z.add_0_r. by eapply vf_users.
  - intros k l. destruct (decide (k = tcb)) as [->|Hk]; [rewrite lookup_insert_eq; by intros [= <-]|].
    rewrite lookup_insert_ne by done. apply (vf_tcb _ _ _ _ _ _ Hv).
Qed.

Lemma setuptask_run tcb st t G E Y : inv st t G E Y → room_for 8 E st → alloc_ok st →
  default 0 (tcb_filelist st !! tcb) = 0 → tcb ≠ this_task (sch (fs_sem (v_fs st))) →
  ∃ ret st' G', sched_setuptaskfiles tree_sem ops tcb st = Some (ret, st') ∧ inv st' t G' E Y ∧
    (ret = - ENOMEM ∧ filelists st' = filelists st ∨ ret = 0 ∧ is_Some (filelists st' !! default 0 (tcb_filelist st' !! tcb))).
Proof using Hops.
  intros Hv HR Hal Htcb Hne. unfold sched_setuptaskfiles.
  destruct (alloclist_run st t G E Y (vf_files _ _ _ _ _ _ Hv) (vf_ready _ _ _ _ _ _ Hv) Hal)
    as [->|(p & h & s & -> & Hp0 & Hp & Hq & Hi & Hr)]; cbn [mbind option_bind].
  { cbn [Z.eqb]. exists (- ENOMEM), (set_tcb_filelist tcb 0 st), G. split; [done|]. split; [by apply inv_set_null|by left]. }
  rewrite (proj2 (Z.eqb_neq p 0)) by done. set (st1 := with_filelists _ _) in *.
  pose proof (inv_set_tcb st1 st t G E Y tcb p Hi Hr Hv eq_refl eq_refl Hp Hp0 Htcb) as Hv2.
  set (st2 := set_tcb_filelist tcb p st1) in *.
  assert (El : sched_getfiles st2 = sched_getfiles st).
  { unfold sched_getfiles, st2, set_tcb_filelist, st1, this_task.
    cbn [tcb_filelist with_tcb_filelist v_fs with_filelists with_fs fs_sem with_heap with_fs_sem]. rewrite Hq.
    by rewrite lookup_insert_ne. }
  assert (Hown : ∀ st', tcb_filelist st' = tcb_filelist st2 → is_Some (filelists st' !! p) →
    is_Some (filelists st' !! default 0 (tcb_filelist st' !! tcb))).
  { intros st' -> Hs. unfold st2, set_tcb_filelist. cbn [tcb_filelist with_tcb_filelist]. by rewrite lookup_insert_eq. }
  assert (Hnew : is_Some (filelists st2 !! p)) by (unfold st2, set_tcb_filelist, st1; cbn; rewrite lookup_insert_eq; done).
  rewrite El. destruct (Z.eqb_spec (sched_getfiles st) 0) as [E0|Hl0]; cbn [negb mbind option_bind].
  { exists 0, st2, G. split; [done|]. split; [done|]. right. split; [done|]. by apply Hown. }
  destruct (getfiles_list _ _ _ _ _ _ Hv Hl0) as [fl Hl].
  assert (Hlp : sched_getfiles st ≠ p) by (intros E1; rewrite E1, Hp in Hl; done).
  destruct (clone_loop_run (Z.to_nat CONFIG_NFILE_DESCRIPTORS) 0 (sched_getfiles st) p st2 t G E Y) as (st' & G' & -> & Hv' & Hfr);
    try done.
  - intros a. specialize (HR a). unfold st2, set_tcb_filelist, st1. cbn [filelists with_tcb_filelist with_filelists].
    unfold refs, fdrefs in *. rewrite (msum_new _ _ _ _ Hp), new_list_refs. lia.
  - unfold st2, set_tcb_filelist, st1. cbn [filelists with_tcb_filelist with_filelists]. rewrite lookup_insert_ne by done. by rewrite Hl.
  - cbn [mbind option_bind]. exists 0, st', G'. split; [done|]. split; [done|]. right. split; [done|].
    apply Hown; [apply Hfr|by eapply frame_dom].
Qed.

(** ** Sharing a list *)

Definition put_crefs_list (c : Z) (l : Z) (m : gmap Z filelist) : gmap Z filelist :=
  alter (λ fl, mk_filelist c (fl_files fl)) l m.

Lemma put_crefs_lookup c l m k : put_crefs_list c l m !! k =
  (λ fl, mk_filelist (if decide (k = l) then c else fl_crefs fl) (fl_files fl)) <$> m !! k.
Proof using.
  unfold put_crefs_list. destruct (decide (k = l)) as [->|Hk].
  - by rewrite lookup_alter_eq.
  - rewrite lookup_alter_ne by done. by destruct (m !! k) as [[]|].
Qed.

Lemma with_crefs_list_run c l fl st : filelists st !! l = Some fl → 0 ≤ c ≤ 0x7fff →
  with_crefs_list c l st = Some (with_filelists (put_crefs_list c l (filelists st)) st).
Proof using.
  intros Hl Hc. unfold with_crefs_list. rewrite Hl. cbn [mbind option_bind]. rewrite i16_id by done.
  do 2 f_equal. apply map_eq. intros k. rewrite put_crefs_lookup. destruct (decide (k = l)) as [->|Hk].
  - by rewrite lookup_insert_eq, Hl.
  - rewrite lookup_insert_ne by done. by destruct (filelists st !! k) as [[]|].
Qed.

Lemma file_at_crefs c l p st : file_at p (with_filelists (put_crefs_list c l (filelists st)) st) = file_at p st.
Proof using.
  unfold file_at. cbn [filelists with_filelists]. rewrite put_crefs_lookup. by destruct (filelists st !! p.1).
Qed.

Lemma fdrefs_crefs c l m a : fdrefs (put_crefs_list c l m) a = fdrefs m a.
Proof using.
  unfold fdrefs. destruct (m !! l) as [fl|] eqn:E.
  - assert (Ea : put_crefs_list c l m = <[l := mk_filelist c (fl_files fl)]> m).
    { apply map_eq. intros k. unfold put_crefs_list. destruct (decide (k = l)) as [->|Hk].
      - by rewrite lookup_insert_eq, lookup_alter_eq, E.
      - by rewrite lookup_insert_ne, lookup_alter_ne. }
    rewrite Ea, (msum_replace _ _ _ _ _ E). cbn [fl_files]. lia.
  - assert (Ea : put_crefs_list c l m = m); [|by rewrite Ea]. apply map_eq. intros k. rewrite put_crefs_lookup.
    destruct (decide (k = l)) as [->|Hk]; [by rewrite E|]. by destruct (m !! k) as [[]|].
Qed.

Lemma files_inv_crefs c l st t G E Y : files_inv st t G E Y →
  files_inv (with_filelists (put_crefs_list c l (filelists st)) st) t G E Y.
Proof using.
  intros [H1 H2 H3 H4 H5].
  assert (HR : ∀ a, refs E (put_crefs_list c l (filelists st)) a = refs E (filelists st) a).
  { intros a. unfold refs. by rewrite fdrefs_crefs. }
  assert (Hd : dom (put_crefs_list c l (filelists st)) = dom (filelists st)) by apply dom_alter_L.
  constructor; cbn [filelists v_fs with_filelists]; rewrite ?Hd; try done.
  - by eapply fs_inv_ext.
  - intros k fl. rewrite put_crefs_lookup. intros (fl' & Hl & ->)%fmap_Some. exact (H3 _ _ Hl).
  - intros p f. rewrite file_at_crefs. apply H4.
  - intros d b ? ? ?. rewrite HR. by eapply H5.
Qed.

Lemma sems_ready_dom st st' : sems_ready tree_sem st → dom (filelists st') ⊆ dom (filelists st) →
  (∀ k, k = tree_sem ∨ k ∈ dom (filelists st') → semcount (fs_sem (v_fs st')) k = semcount (fs_sem (v_fs st)) k) →
  sems_ready tree_sem st'.
Proof using.
  intros [[H0 H1] Hl] Hd Hs. split; [split; [done|rewrite Hs by (by left); done]|].
  intros l Hl'%elem_of_dom. destruct (Hl l) as (? & ? & Hc); [by apply elem_of_dom, Hd|].
  split_and!; [done|done|]. rewrite Hs by (by right). done.
Qed.

Lemma setuppthread_run tcb st t G E Y : inv st t G E Y → default 0 (tcb_filelist st !! tcb) = 0 →
  users (tcb_filelist st) (sched_getfiles st) < 0x7fff →
  ∃ st', sched_setuppthreadfiles tcb st = Some (0, st') ∧ inv st' t G E Y ∧
    tcb_filelist st' !! tcb = Some (sched_getfiles st).
Proof using.
  intros Hv Htcb Hu. unfold sched_setuppthreadfiles, files_addreflist. set (l := sched_getfiles st) in *.
  destruct (Z.eqb_spec l 0) as [->|Hl0]; cbn [negb mbind option_bind].
  { eexists. split; [done|]. split; [by apply inv_set_null|]. cbn. apply lookup_insert_eq. }
  destruct (getfiles_list _ _ _ _ _ _ Hv Hl0) as [fl Hl]. fold l in Hl.
  destruct (vf_users _ _ _ _ _ _ Hv _ _ Hl) as [Ec Hr].
  assert (Hl1 : filelists (set_tcb_filelist tcb l st) !! l = Some fl) by exact Hl. rewrite Hl1. cbn [mbind option_bind].
  rewrite (with_crefs_list_run _ _ _ _ Hl1) by lia. cbn [mbind option_bind]. eexists. split; [done|].
  split; [|cbn; apply lookup_insert_eq].
  constructor; [|eapply sems_ready_dom; [apply Hv|cbn; apply reflexive_eq, dom_alter_L|done]|apply Hv| |].
  - apply files_inv_crefs. by destruct (vf_files _ _ _ _ _ _ Hv); constructor.
  - intros k fk. cbn [filelists with_filelists tcb_filelist set_tcb_filelist with_tcb_filelist].
    rewrite put_crefs_lookup. intros (fk' & Hk & ->)%fmap_Some. cbn [fl_crefs].
    assert (Hk0 : k ≠ 0) by (eapply (proj2 (vf_ready _ _ _ _ _ _ Hv)); by exists fk').
    rewrite users_set by congruence. destruct (vf_users _ _ _ _ _ _ Hv _ _ Hk) as [Eck Hrk].
    destruct (decide (k = l)) as [->|Hne].
    + rewrite decide_True by done. rewrite Hl in Hk. injection Hk as <-. lia.
    + rewrite decide_False by done. lia.
  - intros k k'. cbn [filelists with_filelists tcb_filelist set_tcb_filelist with_tcb_filelist].
    rewrite put_crefs_lookup, fmap_is_Some. destruct (decide (k = tcb)) as [->|Hk].
    + rewrite lookup_insert_eq. intros [= <-] _. by exists fl.
    + rewrite lookup_insert_ne by done. apply (vf_tcb _ _ _ _ _ _ Hv).
Qed.

(** ** Releasing a list *)

Lemma closeall_loop_run n i l st t G E Y : n = Z.to_nat (8 - i) → 0 ≤ i → files_inv st t G E Y →
  tree_free tree_sem (v_fs st) → (∀ b, 0 ≤ E b) → is_Some (filelists st !! l) →
  ∃ st' G', closeall_loop tree_sem ops n i l st = Some st' ∧ files_inv st' t G' E Y ∧ frame st st' ∧
    (∀ q, q.1 ≠ l ∨ q.2 < i → file_at q st' = file_at q st) ∧
    ∀ j, i ≤ j < 8 → ∃ f, file_at (l, j) st' = Some f ∧ f_inode f = 0.
Proof using Hops.
  intros Hn Hi. revert i st G Hn Hi. induction n as [|n IH]; intros i st G Hn Hi0 Hi Hf HE Hl; cbn [closeall_loop].
  { exists st, G. split_and!; try done. intros j Hj. lia. }
  destruct Hl as [fl Hl]. destruct (file_at_range _ _ _ _ _ _ _ i Hi Hl) as [f Hp]; [lia|].
  assert (Hstep : ∃ r st1 G1, _files_close tree_sem ops (l, i) st = Some (r, st1) ∧ files_inv st1 t G1 E Y ∧ frame st st1 ∧
    ∃ g, f_inode g = 0 ∧ ∀ q, file_at q st1 = if decide (q = (l, i)) then Some g else file_at q st).
  { destruct (decide (f_inode f = 0)) as [E0|Hn0].
    - exists 0, st, G. unfold _files_close. rewrite Hp. cbn [mbind option_bind]. rewrite E0. split_and!; try done.
      exists f. split; [done|]. intros q. destruct (decide (q = (l, i))) as [->|]; done.
    - destruct (close_file_run tree_sem ops Hops (l, i) f st t G E Y Hi Hf HE Hp Hn0) as (x & r & f' & d' & s & G1 & _ & _ & Hc).
      cbv zeta in Hc. destruct Hc as (Ec & Hi1 & Hss & _). eexists r, _, G1. split; [exact Ec|]. split; [exact Hi1|].
      split; [constructor; [done|intros k; apply put_crefs|exact Hss]|].
      exists (mk_file 0 0 0 (f_priv f')). split; [done|]. intros q. by apply (file_at_put (l, i) q f). }
  destruct Hstep as (r & st1 & G1 & -> & Hi1 & Hfr & g & Hg & Hat). cbn [mbind option_bind].
  destruct (IH (i + 1) st1 G1) as (st' & G' & E' & Hi' & Hfr' & Hout & Hcl); try done; [lia|lia| | |].
  { destruct Hf as [F0 F1]. split; [done|]. by rewrite (ss_count _ _ (fr_sems _ _ Hfr)). }
  { eapply frame_dom; [done|by exists fl]. }
  exists st', G'. split; [done|]. split; [done|]. split; [by transitivity st1|]. split.
  - intros q Hq. rewrite Hout by (destruct Hq; [by left|right; lia]). rewrite Hat. apply decide_False.
    intros ->. cbn in Hq. destruct Hq; [done|lia].
  - intros j Hj. destruct (decide (j = i)) as [->|]; [|apply Hcl; lia].
    exists g. split; [|done]. rewrite Hout by (right; cbn; lia). rewrite Hat. by apply decide_True.
Qed.

Lemma files_inv_free l fl st t G E Y h : files_inv st t G E Y → filelists st !! l = Some fl →
  (∀ a, sum_holds a (fl_files fl) = 0) →
  k_owns h ((list_to_set (all_nodes t G) ∪ (dom (filelists st) ∪ Y)) ∖ {[l]}) →
  files_inv (with_filelists (delete l (filelists st)) (with_fs (with_heap h (v_fs st)) st)) t G E Y.
Proof using.
  intros [H1 H2 H3 H4 H5] Hl H0 Ho.
  assert (Hd : l ∈ dom (filelists st)) by (apply elem_of_dom; by exists fl).
  assert (Hln : l ∉ all_nodes t G).
  { intros Hin. apply (sh_other _ _ _ _ (fi_shape _ _ _ _ _ H1) l Hin). by apply elem_of_union_l. }
  assert (HR : ∀ a, refs E (delete l (filelists st)) a = refs E (filelists st) a).
  { intros a. unfold refs, fdrefs. rewrite (msum_delete _ _ _ _ Hl), H0. lia. }
  constructor; cbn [filelists v_fs with_filelists with_fs]; rewrite ?dom_delete_L.
  - eapply fs_inv_ext; [|exact HR]. eapply fs_inv_heap; [exact H1| |].
    + replace (list_to_set (all_nodes t G) ∪ (dom (filelists st) ∖ {[l]} ∪ Y))
        with ((list_to_set (all_nodes t G) ∪ (dom (filelists st) ∪ Y)) ∖ {[l]}); [done|].
      apply leibniz_equiv. intros b. pose proof (H2 l Hd).
      rewrite elem_of_difference, !elem_of_union, elem_of_difference, elem_of_singleton, elem_of_list_to_set.
      split; [tauto|]. intros [Hb|[Hb|Hb]]; (split; [tauto|]); [by intros ->|tauto|by intros ->].
    + intros a Ha Hin. apply (sh_other _ _ _ _ (fi_shape _ _ _ _ _ H1) a Ha).
      revert Hin. rewrite !elem_of_union, elem_of_difference. tauto.
  - intros b. rewrite elem_of_difference. intros [Hb _]. by apply H2.
  - intros k fk. destruct (decide (k = l)) as [->|Hk]; [by rewrite lookup_delete_eq|].
    rewrite lookup_delete_ne by done. apply H3.
  - intros q f (fq & Hq & Hq2 & Hf)%file_at_iff Hn. cbn in Hq. destruct (decide (q.1 = l)) as [Eq|Hne].
    + by rewrite Eq, lookup_delete_eq in Hq.
    + rewrite lookup_delete_ne in Hq by done. apply (H4 q); [|done]. apply file_at_iff. by exists fq.
  - intros d b ? ? ?. rewrite HR. by eapply H5.
Qed.

Lemma users_only m k k' l : m !! k = Some l → l ≠ 0 → users m l = 1 → m !! k' = Some l → k' = k.
Proof using.
  intros Hk Hl H1 Hk'. destruct (decide (k' = k)) as [|Hne]; [done|]. exfalso.
  pose proof (users_leave _ _ _ Hk Hl) as Hu. unfold users in Hu.
  assert (Hin : <[k := 0]> m !! k' = Some l) by (by rewrite lookup_insert_ne).
  pose proof (msum_elem (λ l', if decide (l' = l) then 1 else 0) (<[k := 0]> m) k' l) as He. cbn beta in He.
  rewrite (decide_True (P := l = l)) in He by done. unfold users in H1.
  specialize (He ltac:(intros v; destruct (decide _); lia) Hin). lia.
Qed.

Lemma all_closed_refs st l fl : filelists st !! l = Some fl → length (fl_files fl) = 8%nat →
  (∀ j, 0 ≤ j < 8 → ∃ f, file_at (l, j) st = Some f ∧ f_inode f = 0) → ∀ a, sum_holds a (fl_files fl) = 0.
Proof using.
  intros Hl Hlen Hall a. apply sum_holds_closed, Forall_lookup. intros i f Hi.
  pose proof (lookup_lt_Some _ _ _ Hi). destruct (Hall (Z.of_nat i)) as (g & (fl' & Hl' & _ & Hg)%file_at_iff & E0); [lia|].
  cbn in Hl', Hg. rewrite Hl in Hl'. injection Hl' as <-. rewrite Nat2Z.id, Hi in Hg. by injection Hg as ->.
Qed.

(** The last task leaves: the files are closed and the list is freed. *)
Lemma releaselist_last l fl st t G E Y : inv st t G E Y → filelists st !! l = Some fl → fl_crefs fl = 1 →
  ∃ st' G', files_releaselist tree_sem ops l st = Some (0, st') ∧ files_inv st' t G' E Y ∧ sems_ready tree_sem st' ∧
    tcb_filelist st' = tcb_filelist st ∧ filelists st' !! l = None ∧
    ∀ k, k ≠ l → fl_crefs <$> filelists st' !! k = fl_crefs <$> filelists st !! k.
Proof using Hops.
  intros Hv Hl Hc. destruct (proj2 (vf_ready _ _ _ _ _ _ Hv) l) as (Hl0 & Hlt & Hls); [by exists fl|].
  unfold files_releaselist. rewrite (proj2 (Z.eqb_neq l 0)) by done. cbn [negb]. rewrite Hl. cbn [mbind option_bind].
  rewrite Hc. change (i16 (1 - 1)) with 0. rewrite (with_crefs_list_run 0 l fl) by done. cbn [mbind option_bind Z.leb Z.compare].
  set (st1 := with_filelists (put_crefs_list 0 l (filelists st)) st).
  destruct (closeall_loop_run (Z.to_nat CONFIG_NFILE_DESCRIPTORS) 0 l st1 t G E Y) as (st2 & G' & -> & Hi2 & Hfr & _ & Hcl); try done.
  { by apply files_inv_crefs, Hv. } { apply Hv. } { apply Hv. }
  { unfold st1. cbn [filelists with_filelists]. rewrite put_crefs_lookup, fmap_is_Some. by exists fl. }
  cbn [mbind option_bind].
  assert (Hcr : ∀ k, k ≠ l → fl_crefs <$> filelists st2 !! k = fl_crefs <$> filelists st !! k).
  { intros k Hk. rewrite (fr_crefs _ _ Hfr). unfold st1. cbn [filelists with_filelists]. rewrite put_crefs_lookup.
    destruct (filelists st !! k); [|done]. cbn. by rewrite decide_False. }
  destruct (frame_dom _ _ l Hfr) as [fl2 Hl2].
  { unfold st1. cbn [filelists with_filelists]. rewrite put_crefs_lookup, fmap_is_Some. by exists fl. }
  unfold sem_destroy. rewrite (proj2 (Z.eqb_neq l 0)) by done. cbn [negb snd].
  set (s := if 0 <=? _ then _ else _).
  assert (Hs : ∀ k, semcount s k = semcount (fs_sem (v_fs st)) k).
  { intros k. unfold s. rewrite (ss_count _ _ (fr_sems _ _ Hfr)). unfold st1. cbn [v_fs with_filelists]. rewrite Hls.
    cbn [Z.leb Z.compare]. rewrite semcount_set. destruct (decide (k = l)) as [->|]; [done|]. apply (ss_count _ _ (fr_sems _ _ Hfr)). }
  pose proof (files_inv_sem _ _ _ _ _ s Hi2) as Hi3. unfold files_free. cbn [v_fs with_fs].
  destruct (kfree_ok l (fs_heap (v_fs st2)) _ (sh_heap _ _ _ _ (fi_shape _ _ _ _ _ (vi_fs _ _ _ _ _ Hi2)))) as (h & Eh & Ho).
  { rewrite !elem_of_union, elem_of_dom. right. left. by exists fl2. }
  change (fs_heap (with_fs_sem s (v_fs st2))) with (fs_heap (v_fs st2)). rewrite Eh. cbn [mbind option_bind].
  eexists _, G'. split; [done|]. split.
  { eapply (files_inv_free l fl2 _ _ _ _ _ h Hi3); [done| |exact Ho].
    apply (all_closed_refs st2 l fl2 Hl2); [by eapply vi_length|exact Hcl]. }
  split; [|split; [apply Hfr|split; [apply lookup_delete_eq|]]].
  - eapply sems_ready_dom; [apply Hv| |intros k _; apply Hs]. cbn [filelists with_filelists with_fs].
    rewrite dom_delete_L. intros k. rewrite elem_of_difference, elem_of_singleton, !elem_of_dom.
    intros [Hk Hkl]. apply (fmap_is_Some fl_crefs). rewrite <-Hcr by done. by apply fmap_is_Some.
  - intros k Hk. cbn [filelists with_filelists with_fs]. rewrite lookup_delete_ne by done. by apply Hcr.
Qed.

Lemma releasefiles_run tcb st t G E Y : inv st t G E Y →
  ∃ st' G', sched_releasefiles tree_sem ops tcb st = Some (0, st') ∧ inv st' t G' E Y ∧
    (tcb ≠ 0 → default 0 (tcb_filelist st' !! tcb) = 0) ∧
    let l := default 0 (tcb_filelist st !! tcb) in
    (tcb ≠ 0 → l ≠ 0 → users (tcb_filelist st) l = 1 → filelists st' !! l = None).
Proof using Hops.
  intros Hv. unfold sched_releasefiles. destruct (Z.eqb_spec tcb 0) as [->|Ht]; cbn [negb]; [by exists st, G|].
  destruct (tcb_filelist st !! tcb) as [l|] eqn:El; [|cbn; exists st, G; rewrite El; by split_and!].
  change (default 0 (Some l)) with l.
  destruct (Z.eqb_spec l 0) as [->|Hl0]; cbn [negb]; [exists st, G; rewrite El; by split_and!|].
  destruct (vf_tcb _ _ _ _ _ _ Hv _ _ El Hl0) as [fl Hl]. destruct (vf_users _ _ _ _ _ _ Hv _ _ Hl) as [Ec Hu].
  destruct (decide (users (tcb_filelist st) l = 1)) as [E1|E1].
  - destruct (releaselist_last l fl _ _ _ _ _ Hv Hl) as (st1 & G' & -> & Hi & Hr & Et & Hnone & Hcr); [lia|].
    cbn [mbind option_bind]. exists (set_tcb_filelist tcb 0 st1), G'. split; [done|].
    split; [|split; [intros _; cbn; by rewrite lookup_insert_eq|by intros]].
    constructor; [by destruct Hi; constructor|done|apply Hv| |]; cbn [filelists tcb_filelist set_tcb_filelist with_tcb_filelist]; rewrite Et.
    + intros k fk Hk. destruct (decide (k = l)) as [->|Hne]; [by rewrite Hnone in Hk|].
      assert (Hk0 : k ≠ 0) by (eapply (proj2 Hr); by exists fk).
      rewrite (users_leave_other _ _ _ _ El) by done. pose proof (Hcr k Hne) as Hck. rewrite Hk in Hck. cbn in Hck.
      symmetry in Hck. apply fmap_Some in Hck as (fk' & Hk' & ->). by eapply vf_users.
    + intros k k'. destruct (decide (k = tcb)) as [->|Hk]; [rewrite lookup_insert_eq; by intros [= <-]|].
      rewrite lookup_insert_ne by done. intros Hkk Hk'. destruct (decide (k' = l)) as [->|Hne].
      * destruct Hk. by apply (users_only _ _ _ _ El Hl0 E1).
      * rewrite <-(fmap_is_Some fl_crefs), Hcr, fmap_is_Some by done. by eapply vf_tcb.
  - unfold files_releaselist. rewrite (proj2 (Z.eqb_neq l 0)) by done. cbn [negb]. rewrite Hl. cbn [mbind option_bind].
    rewrite i16_id by lia. rewrite (with_crefs_list_run _ l fl) by (done || lia). cbn [mbind option_bind].
    rewrite (proj2 (Z.leb_gt _ _)) by lia. cbn [mbind option_bind]. eexists _, G. split; [done|].
    split; [|split; [intros _; cbn; by rewrite lookup_insert_eq|done]].
    constructor; [|eapply sems_ready_dom; [apply Hv|cbn; apply reflexive_eq, dom_alter_L|done]|apply Hv| |].
    + pose proof (files_inv_crefs (fl_crefs fl - 1) l _ _ _ _ _ (vf_files _ _ _ _ _ _ Hv)) as Hi. by destruct Hi; constructor.
    + intros k fk. cbn [filelists with_filelists tcb_filelist set_tcb_filelist with_tcb_filelist].
      rewrite put_crefs_lookup. intros (fk' & Hk & ->)%fmap_Some. cbn [fl_crefs].
      assert (Hk0 : k ≠ 0) by (eapply (proj2 (vf_ready _ _ _ _ _ _ Hv)); by exists fk').
      destruct (decide (k = l)) as [->|Hne].
      * rewrite (users_leave _ _ _ El Hl0). lia.
      * rewrite (users_leave_other _ _ _ _ El) by done. by eapply vf_users.
    + intros k k'. cbn [filelists with_filelists tcb_filelist set_tcb_filelist with_tcb_filelist].
      rewrite put_crefs_lookup, fmap_is_Some. destruct (decide (k = tcb)) as [->|Hk]; [rewrite lookup_insert_eq; by intros [= <-]|].
      rewrite lookup_insert_ne by done. apply (vf_tcb _ _ _ _ _ _ Hv).
Qed.
End Task.
