(* ===== verification/VfsSpec.v ===== *)
(** What the calls on file descriptors promise, and running them in any order. *)

From Stdlib Require Import Ascii.
From stdpp Require Import base numbers gmap sorting list strings.
From S2P Require Import Prelude Memory Queue Sched Sem SemThms Kmalloc Inode InodeTree InodeRep InodeInv InodeOps.
From S2P Require Import InodeCalls InodeSpec Vfs VfsInv VfsOps VfsCalls VfsFiles VfsIo VfsTask.

Lemma openable_use x y : same_use x y → openable y = openable x.
Proof.
  intros (Ef & Eo & _). unfold openable, INODE_IS_DRIVER, INODE_IS_MOUNTPT. rewrite Ef, Eo.
  assert (Em : ∀ v, Z.land v FSNODEFLAG_TYPE_MOUNTPT = Z.land (Z.land v FSNODEFLAG_TYPE_MASK) FSNODEFLAG_TYPE_MOUNTPT).
  { intros v. by rewrite <-Z.land_assoc. }
  by rewrite (Em (i_flags y)), Ef, <-Em.
Qed.

Section Spec.
Context {A : Type} {HA : Kmalloc A} {HL : KmallocLaws A} {D : Type}.
Variable tree_sem : Z.
Variable ops : Z → file_operations D.
Hypothesis Hops : ∀ p, ops_ok (ops p).
Implicit Types st : vfsst A D.
#[local] Notation inv := (vfs_inv tree_sem).

(** ** Registering drivers next to open files *)

Lemma inv_with_fs st s t t' G G' E Y : inv st t G E Y → fs_inv s t' G' (refs E (filelists st)) (dom (filelists st) ∪ Y) →
  same_sems (fs_sem (v_fs st)) (fs_sem s) → quiet G' (refs E (filelists st)) →
  (∀ b x, refs E (filelists st) b ≠ 0 → inodes (v_fs st) !! b = Some x → ∃ y, inodes s !! b = Some y ∧ same_use x y) →
  inv (with_fs s st) t' G' E Y.
Proof using.
  intros Hv Hi Hss Hq Hkeep. pose proof (vf_files _ _ _ _ _ _ Hv) as [H1 H2 H3 H4 H5].
  constructor; [|eapply ready_frame; [apply Hv|by apply frame_fs]|apply Hv|apply Hv|apply Hv].
  constructor; try done. intros p f Hf Hn. destruct (H4 p f Hf Hn) as (x & Hx & Ho).
  pose proof (fdrefs_file p f st Hf Hn). pose proof (vf_ext _ _ _ _ _ _ Hv (f_inode f)).
  destruct (Hkeep (f_inode f) x) as (y & Hy & Hu); [unfold refs; lia|done|].
  exists y. split; [exact Hy|]. by rewrite (openable_use _ _ Hu).
Qed.

Definition v_register (block : bool) (path : string) (o priv : Z) st : option (Z * vfsst A D) :=
  '(ret, s) ← (if block then register_blockdriver else register_driver) tree_sem path o priv (v_fs st);
  Some (ret, with_fs s st).
Definition v_unregister (path : string) st : option (Z * vfsst A D) :=
  '(ret, s) ← unregister_driver tree_sem path (v_fs st); Some (ret, with_fs s st).

Lemma keep_sem st s2 t G E Y : inv st t G E Y → same_sems (fs_sem (v_fs st)) s2 →
  inv (with_fs (with_fs_sem s2 (v_fs st)) st) t G E Y.
Proof using.
  intros Hv Hss. eapply vfs_inv_frame; [done|by apply frame_fs|apply files_inv_sem, Hv].
Qed.

Lemma register_stays block path o priv st t G E Y : inv st t G E Y → short path →
  ∃ ret st' t', v_register block path o priv st = Some (ret, st') ∧ inv st' t' G E Y.
Proof using.
  intros Hv Hs. pose proof (vf_files _ _ _ _ _ _ Hv) as Hi.
  pose proof (register_abs tree_sem block _ _ _ _ _ path o priv (vi_fs _ _ _ _ _ Hi) (proj1 (vf_ready _ _ _ _ _ _ Hv)) Hs) as Hr.
  cbv zeta in Hr. unfold v_register.
  assert (E0 : (if block then register_blockdriver tree_sem else register_driver tree_sem) path o priv (v_fs st) =
    (if block then register_blockdriver else register_driver) tree_sem path o priv (v_fs st)) by by destruct block.
  rewrite E0 in Hr. destruct (not_absolute path); [|destruct (resolve _ _ _ _) as [?|]].
  - destruct Hr as (s2 & -> & Hss). eexists _, _, t. split; [done|]. by apply keep_sem.
  - destruct Hr as (s2 & -> & Hss). eexists _, _, t. split; [done|]. by apply keep_sem.
  - destruct Hr as (ret & s & t' & Er & Hi' & Hss & _ & Hm & _). rewrite Er.
    eexists ret, _, t'. split; [done|]. eapply inv_with_fs; [done|done|done|apply Hi|].
    intros b x _ Hx. apply (same_use_meta (inodes (v_fs st))); [|done]. apply Hm.
    apply (sh_dom _ _ _ _ (fi_shape _ _ _ _ _ (vi_fs _ _ _ _ _ Hi))). by exists x.
Qed.

Lemma unregister_stays path st t G E Y : inv st t G E Y →
  (∀ a rest, lookup_path (inodes (v_fs st)) t path = Some (a, rest) →
    ∀ b, below (inodes (v_fs st)) a b → refs E (filelists st) b = 0) →
  ∃ ret st' t' G', v_unregister path st = Some (ret, st') ∧ inv st' t' G' E Y.
Proof using.
  intros Hv Hsafe. pose proof (vf_files _ _ _ _ _ _ Hv) as Hi. unfold v_unregister.
  pose proof (unregister_abs tree_sem _ _ _ _ _ path (vi_fs _ _ _ _ _ Hi) (proj1 (vf_ready _ _ _ _ _ _ Hv))) as Hr.
  destruct (not_absolute path).
  { destruct Hr as (s2 & -> & Hss). eexists _, _, t, G. split; [done|]. by apply keep_sem. }
  unfold lookup_path in Hsafe. unfold names in Hr. destruct (resolve _ _ _ _) as [[a rest]|].
  - destruct Hr as (cs & _ & _ & Hr). specialize (Hsafe a rest eq_refl).
    destruct (Hr (λ _, Hsafe)) as (s & t' & G' & -> & Hi' & Hss & _ & _ & HG & Hkeep).
    eexists _, _, t', G'. split; [done|]. eapply inv_with_fs; [done|done|done| |done].
    destruct HG as [->|(n & c & -> & Hc)]; [apply Hi|]. intros d b Hd Hb Ht. apply elem_of_cons in Hd as [->|Hd].
    + apply Hsafe, Hc. cbn in Hb, Ht. rewrite elem_of_cons, app_nil_r in Hb. destruct Hb as [->|Hb]; [|done].
      destruct Ht. apply list_elem_of_here.
    + by eapply (vi_quiet _ _ _ _ _ Hi).
  - destruct Hr as (s2 & -> & Hss). eexists _, _, t, G. split; [done|]. by apply keep_sem.
Qed.

(** ** Running the calls in any order *)

Inductive vfs_op :=
  | VOpen (path : string) (oflags : Z)
  | VClose (fd : Z)
  | VDup (fd : Z)
  | VDup2 (fd1 fd2 : Z)
  | VTransfer (wr : bool) (fd buf nbytes : Z)
  | VLseek (fd offset whence : Z)
  | VIoctl (fd req arg : Z)
  | VFcntl (fd cmd arg : Z)
  | VTask (tcb : Z)
  | VThread (tcb : Z)
  | VExit (tcb : Z)
  | VRegister (block : bool) (path : string) (o priv : Z)
  | VUnregister (path : string)
  | VSwitch (s : semst).

Definition vfs_exec (op : vfs_op) st : option (Z * vfsst A D) :=
  match op with
  | VOpen path oflags => open tree_sem ops path oflags st
  | VClose fd => close tree_sem ops fd st
  | VDup fd => dup tree_sem fd st
  | VDup2 fd1 fd2 => dup2 tree_sem ops fd1 fd2 st
  | VTransfer wr fd buf nbytes => transfer ops wr fd buf nbytes st
  | VLseek fd offset whence => lseek ops fd offset whence st
  | VIoctl fd req arg => ioctl ops fd req arg st
  | VFcntl fd cmd arg => fcntl tree_sem fd cmd arg st
  | VTask tcb => sched_setuptaskfiles tree_sem ops tcb st
  | VThread tcb => sched_setuppthreadfiles tcb st
  | VExit tcb => sched_releasefiles tree_sem ops tcb st
  | VRegister block path o priv => v_register block path o priv st
  | VUnregister path => v_unregister path st
  | VSwitch s => Some (0, with_sem s st)
  end.

(** The counts stay below their maximum; arguments are of type int; F_DUPFD gets no
    negative minimum; a new task has no list yet and its list is not where the
    semaphore of the tree is; nobody removes a node while something below it is
    referenced; between the calls the scheduler may do anything except take the
    semaphores. *)
Definition vfs_legal (E : Z → Z) (op : vfs_op) st : Prop :=
  room_for 8 E st ∧
  match op with
  | VOpen _ _ | VExit _ => True
  | VClose fd | VDup fd | VTransfer _ fd _ _ | VLseek fd _ _ | VIoctl fd _ _ => is_int fd
  | VDup2 fd1 fd2 => is_int fd1 ∧ is_int fd2
  | VFcntl fd cmd arg => is_int fd ∧ (cmd = F_DUPFD → 0 ≤ arg)
  | VTask tcb => default 0 (tcb_filelist st !! tcb) = 0 ∧ tcb ≠ this_task (sch (fs_sem (v_fs st))) ∧ alloc_ok tree_sem st
  | VThread tcb => default 0 (tcb_filelist st !! tcb) = 0 ∧ users (tcb_filelist st) (sched_getfiles st) < 0x7fff
  | VRegister _ path _ _ => short path
  | VUnregister path => ∀ t a rest, irep (inodes (v_fs st)) (root_inode (v_fs st)) t →
      lookup_path (inodes (v_fs st)) t path = Some (a, rest) →
      ∀ b, below (inodes (v_fs st)) a b → refs E (filelists st) b = 0
  | VSwitch s => ∀ k, semcount s k = semcount (fs_sem (v_fs st)) k
  end.

Inductive vfs_reach (E : Z → Z) (st0 : vfsst A D) : vfsst A D → Prop :=
  | vfs_reach_start : vfs_reach E st0 st0
  | vfs_reach_step st op ret st' : vfs_reach E st0 st → vfs_legal E op st → vfs_exec op st = Some (ret, st') →
      vfs_reach E st0 st'.

(** No inodes, no files. *)
Definition vfs_start (Y : gset Z) st : Prop :=
  root_inode (v_fs st) = 0 ∧ inodes (v_fs st) = ∅ ∧ k_owns (fs_heap (v_fs st)) Y ∧ tree_free tree_sem (v_fs st) ∧
  filelists st = ∅ ∧ tcb_filelist st = ∅.

Definition vfs_good (E : Z → Z) (Y : gset Z) st : Prop := ∃ t G, inv st t G E Y.

Lemma vfs_start_good Y st : vfs_start Y st → vfs_good (λ _, 0) Y st.
Proof using.
  intros (H1 & H2 & H3 & H4 & H5 & H6).
  assert (Hs : fs_start tree_sem Y (v_fs st, λ _, 0)) by by split_and!.
  destruct (fs_start_good tree_sem Y _ Hs) as (t & G & Hi & Hf). cbn [fst snd] in Hi, Hf.
  assert (HR : ∀ a, refs (λ _, 0) (filelists st) a = 0) by (intros a; by rewrite H5).
  exists t, G. constructor; rewrite ?H5, ?H6; try done.
  - constructor; rewrite ?H5; try done.
    + rewrite dom_empty_L, (left_id_L ∅ (∪)). eapply fs_inv_ext; [exact Hi|]. intros a. by rewrite <-H5.
    + intros p f (fl & Hl & _)%file_at_iff. by rewrite H5 in Hl.
  - split; [done|]. rewrite H5. by intros l [].
Qed.

Lemma dup_run fd st t G E Y : inv st t G E Y → room E st → is_int fd →
  ∃ ret st' G', dup tree_sem fd st = Some (ret, st') ∧ inv st' t G' E Y.
Proof using.
  intros Hv HR Hint. unfold dup. destruct (is_filedes fd).
  - destruct (file_dup_run tree_sem fd 0 _ _ _ _ _ Hv HR Hint) as (ret & st' & G' & -> & Hv' & _); [done|]. by exists ret, st', G'.
  - destruct (refuse_run tree_sem EBADF _ _ _ _ _ Hv) as (ret & st' & G' & -> & Hv' & _). by exists ret, st', G'.
Qed.

Lemma vfs_exec_good E Y op st : vfs_good E Y st → vfs_legal E op st →
  ∃ ret st', vfs_exec op st = Some (ret, st') ∧ vfs_good E Y st'.
Proof using Hops.
  intros (t & G & Hv) [HR8 Hl]. pose proof (room_less 8 _ _ ltac:(lia) HR8) as HR.
  assert (Hwrap : ∀ r : option (Z * vfsst A D), (∃ ret st' G', r = Some (ret, st') ∧ inv st' t G' E Y) →
    ∃ ret st', r = Some (ret, st') ∧ vfs_good E Y st').
  { intros r (ret & st' & G' & -> & Hv'). exists ret, st'. split; [done|]. by exists t, G'. }
  destruct op; cbn [vfs_exec]; cbn beta iota in Hl.
  - apply Hwrap. destruct (open_run tree_sem ops Hops path oflags _ _ _ _ _ Hv HR) as (r & st' & -> & Hv' & _). by exists r, st', G.
  - apply Hwrap. destruct (close_run tree_sem ops Hops fd _ _ _ _ _ Hv Hl) as (r & st' & G' & -> & Hv' & _). by exists r, st', G'.
  - apply Hwrap. by apply (dup_run fd st t G E Y).
  - apply Hwrap. destruct Hl as [H1 H2].
    destruct (dup2_run tree_sem ops Hops fd1 fd2 _ _ _ _ _ Hv HR H1 H2) as (r & st' & G' & -> & Hv' & _). by exists r, st', G'.
  - apply Hwrap. destruct (transfer_run tree_sem ops Hops wr fd buf nbytes _ _ _ _ _ Hv Hl) as (r & st' & -> & (Hv' & _) & _).
    by exists r, st', G.
  - apply Hwrap. destruct (lseek_run tree_sem ops Hops fd offset whence _ _ _ _ _ Hv Hl) as (r & st' & -> & (Hv' & _) & _).
    by exists r, st', G.
  - apply Hwrap. destruct (ioctl_run tree_sem ops Hops fd req arg _ _ _ _ _ Hv Hl) as (r & st' & -> & (Hv' & _) & _).
    by exists r, st', G.
  - apply Hwrap. destruct Hl as [H1 H2].
    destruct (fcntl_run tree_sem fd cmd arg _ _ _ _ _ Hv HR H1 H2) as (r & st' & G' & -> & Hv' & _). by exists r, st', G'.
  - apply Hwrap. destruct Hl as (H1 & H2 & H3).
    destruct (setuptask_run tree_sem ops Hops tcb _ _ _ _ _ Hv HR8 H3 H1 H2) as (r & st' & G' & -> & Hv' & _). by exists r, st', G'.
  - apply Hwrap. destruct Hl as [H1 H2].
    destruct (setuppthread_run tree_sem tcb _ _ _ _ _ Hv H1 H2) as (st' & -> & Hv' & _). by exists 0, st', G.
  - apply Hwrap. destruct (releasefiles_run tree_sem ops Hops tcb _ _ _ _ _ Hv) as (st' & G' & -> & Hv' & _). by exists 0, st', G'.
  - destruct (register_stays block path o priv _ _ _ _ _ Hv Hl) as (r & st' & t' & -> & Hv'). exists r, st'.
    split; [done|]. by exists t', G.
  - destruct (unregister_stays path _ _ _ _ _ Hv) as (r & st' & t' & G' & -> & Hv').
    { intros a rest. apply (Hl t). apply (sh_tree _ _ _ _ (fi_shape _ _ _ _ _ (vi_fs _ _ _ _ _ (vf_files _ _ _ _ _ _ Hv)))). }
    exists r, st'. split; [done|]. by exists t', G'.
  - apply Hwrap. exists 0, (with_sem s st), G. split; [done|]. constructor; try apply Hv; [apply files_inv_sem, Hv|].
    destruct (vf_ready _ _ _ _ _ _ Hv) as [[H0 H1] Hs]. split; [split; [done|cbn; by rewrite Hl]|].
    intros l Hll. cbn. rewrite Hl. by apply Hs.
Qed.

Lemma vfs_reach_good E Y st0 st : vfs_good E Y st0 → vfs_reach E st0 st → vfs_good E Y st.
Proof using Hops.
  intros H0. induction 1 as [|st op ret st' _ IH Hl Ex]; [done|].
  destruct (vfs_exec_good _ _ _ _ IH Hl) as (ret' & st'' & Ex' & Hg). rewrite Ex in Ex'. by injection Ex' as _ <-.
Qed.

(** C12. In every state reachable from an empty tree by opening, closing, duplicating, reading,
    writing and the other calls on descriptors, tasks that start and exit, threads that share lists,
    drivers that are registered and unregistered and task switches, in any order, provided nobody
    unregisters a node while something below it is referenced, F_DUPFD gets no negative minimum
    (both are findings), a new task has no list yet, the counts stay below their maximum, and
    between the calls nobody takes the semaphores of the tree and of the lists: every open
    descriptor points to a live inode of an openable type, an inode's reference count is the number
    of descriptors open on it, a list's count is the number of tasks that use it, the tree of inodes
    is well-formed, and every such call returns. *)
Theorem vfs_reachable_safe Y st0 st : vfs_start Y st0 → vfs_reach (λ _, 0) st0 st →
  (∃ t G, fs_inv (v_fs st) t G (fdrefs (filelists st)) (dom (filelists st) ∪ Y)) ∧
  (∀ p f, file_at p st = Some f → f_inode f ≠ 0 →
     ∃ x, inodes (v_fs st) !! f_inode f = Some x ∧ openable x = true ∧ i_crefs x = fdrefs (filelists st) (f_inode f)) ∧
  (∀ l fl, filelists st !! l = Some fl → length (fl_files fl) = 8%nat ∧
     fl_crefs fl = users (tcb_filelist st) l ∧ 1 ≤ fl_crefs fl) ∧
  (∀ op, vfs_legal (λ _, 0) op st → is_Some (vfs_exec op st)).
Proof using Hops.
  intros H0 Hr. pose proof (vfs_reach_good _ _ _ _ (vfs_start_good _ _ H0) Hr) as Hg. pose proof Hg as (t & G & Hv).
  pose proof (vf_files _ _ _ _ _ _ Hv) as Hi.
  assert (Hfs : fs_inv (v_fs st) t G (fdrefs (filelists st)) (dom (filelists st) ∪ Y)).
  { eapply fs_inv_ext; [apply Hi|]. intros a. unfold refs. lia. }
  split_and!.
  - by exists t, G.
  - intros p f Hf Hn. destruct (vi_open _ _ _ _ _ Hi p f Hf Hn) as (x & Hx & Ho). exists x. split_and!; [done..|].
    by apply (fi_refs _ _ _ _ _ Hfs).
  - intros l fl Hl. destruct (vf_users _ _ _ _ _ _ Hv _ _ Hl) as [Ec Hu]. split_and!; [by eapply vi_length|done|lia].
  - intros op Hl. destruct (vfs_exec_good _ _ _ _ Hg Hl) as (ret & st' & -> & _). done.
Qed.

(** ** The calls one by one *)

(** C25. open fails with EMFILE when the task has no list or no free descriptor, ENOENT when the
    path names nothing, ENXIO when it names something that is neither a driver nor a mount point or
    has no operations, and EACCES when the driver has no method for the access asked, without effect
    on the files; otherwise it takes the lowest free descriptor, calls the driver's or the file
    system's open with the rest of the path, and when that fails gives the descriptor and the
    reference back and passes the error on. *)
Theorem open_correct path oflags st t G E Y : inv st t G E Y → room E st →
  let l := sched_getfiles st in
  ∃ ret st', open tree_sem ops path oflags st = Some (ret, st') ∧ inv st' t G E Y ∧ frame st st' ∧ same_kinds st st' ∧
    if l =? 0 then ret = -1 ∧ failed EMFILE st st' else
    match open_check ops st t path oflags with
    | inl err => ret = -1 ∧ failed err st st'
    | inr (a, x, rest) => all_open st l 0 ∧ ret = -1 ∧ failed EMFILE st st' ∨ ∃ fd, opens ops st st' fd l x rest oflags a ret
    end.
Proof using Hops. intros Hv HR. exact (open_run tree_sem ops Hops path oflags st t G E Y Hv HR). Qed.

(** C26. close fails with EBADF on a descriptor that is out of range or not open and otherwise calls
    the driver's close, whose error it passes on, frees the descriptor even then, and takes back one
    reference, which leaves the tree as it is when the inode has not been removed. *)
Theorem close_correct fd st t G E Y : inv st t G E Y → is_int fd →
  let l := sched_getfiles st in
  ∃ ret st' G', close tree_sem ops fd st = Some (ret, st') ∧ inv st' t G' E Y ∧ frame st st' ∧ kept E st st' ∧
    if negb ((0 <=? fd) && (fd <? 8)) then ret = -1 ∧ failed EBADF st st'
    else if l =? 0 then ret = -1 ∧ failed EMFILE st st'
    else ∃ f, file_at (l, fd) st = Some f ∧
      if f_inode f =? 0 then ret = -1 ∧ failed EBADF st st'
      else ∃ x, inodes (v_fs st) !! f_inode f = Some x ∧ closes ops st st' (l, fd) f x ret ∧
        (f_inode f ∈ nodes t → G' = G ∧ same_kinds st st').
Proof using Hops. intros Hv Hint. exact (close_run tree_sem ops Hops fd st t G E Y Hv Hint). Qed.

(** C27. dup2 fails with EBADF when the first descriptor is not open or the second out of range,
    does nothing when both are the same, and fails with ENOSYS for a mounted file system; otherwise
    it closes the second, whose error ends it, makes it a copy of the first with its own reference
    and opens the driver for it, and when that fails leaves the second descriptor closed. *)
Theorem dup2_correct fd1 fd2 st t G E Y : inv st t G E Y → room E st → is_int fd1 → is_int fd2 →
  let l := sched_getfiles st in
  ∃ ret st' G', dup2 tree_sem ops fd1 fd2 st = Some (ret, st') ∧ inv st' t G' E Y ∧ frame st st' ∧ kept E st st' ∧
    if l =? 0 then ret = -1 ∧ failed EMFILE st st' else
    ((∀ f, ¬ open_file st fd1 f) ∧ ret = -1 ∧ failed EBADF st st' ∨
     ∃ f1, open_file st fd1 f1 ∧
       if fd1 =? fd2 then ret = fd1 ∧ st' = st
       else if negb ((0 <=? fd2) && (fd2 <? 8)) then ret = -1 ∧ failed EBADF st st'
       else ∃ f2 x1, file_at (l, fd2) st = Some f2 ∧ inodes (v_fs st) !! f_inode f1 = Some x1 ∧
         if INODE_IS_MOUNTPT x1 then ret = -1 ∧ failed ENOSYS st st' else dups ops st st' (l, fd2) f1 x1 f2 ret).
Proof using Hops. intros Hv HR H1 H2. exact (dup2_run tree_sem ops Hops fd1 fd2 st t G E Y Hv HR H1 H2). Qed.

(** C28. read and write fail with EBADF on a descriptor that is out of range, not open, not open for
    that direction, or whose driver lacks the method; otherwise they call exactly that method with
    the caller's buffer and length and return its result, an error of which becomes -1 with errno;
    no other descriptor and no inode changes. *)
Theorem transfer_correct wr fd buf nbytes st t G E Y : inv st t G E Y → is_int fd →
  let l := sched_getfiles st in
  ∃ ret st', transfer ops wr fd buf nbytes st = Some (ret, st') ∧ stays tree_sem st st' t G E Y ∧
    if negb ((0 <=? fd) && (fd <? 8)) then ret = -1 ∧ failed EBADF st st'
    else if l =? 0 then ret = -1 ∧ failed EMFILE st st'
    else ∃ f, file_at (l, fd) st = Some f ∧
      if f_inode f =? 0 then ret = -1 ∧ failed EBADF st st'
      else ∃ x, inodes (v_fs st) !! f_inode f = Some x ∧
        match transfer_fn ops wr f x with
        | None => ret = -1 ∧ failed EBADF st st'
        | Some fn => runs (fn buf nbytes) (λ r _, r) st st' (l, fd) f x ret
        end.
Proof using Hops. intros Hv Hint. exact (transfer_run tree_sem ops Hops wr fd buf nbytes st t G E Y Hv Hint). Qed.

(** When a task or thread exits its file list is detached from it, and when it was the last
    user all descriptors are closed, each reference is given back and the list is freed; the
    invariant of files and inodes holds afterwards. *)
Theorem sched_releasefiles_correct tcb st t G E Y : inv st t G E Y →
  ∃ st' G', sched_releasefiles tree_sem ops tcb st = Some (0, st') ∧ inv st' t G' E Y ∧
    (tcb ≠ 0 → default 0 (tcb_filelist st' !! tcb) = 0) ∧
    let l := default 0 (tcb_filelist st !! tcb) in
    (tcb ≠ 0 → l ≠ 0 → users (tcb_filelist st) l = 1 → filelists st' !! l = None).
Proof using Hops. intros Hv. exact (releasefiles_run tree_sem ops Hops tcb st t G E Y Hv). Qed.

(** C40. When open succeeds it returns the lowest free descriptor, and closing that descriptor
    returns the inodes to their kinds and reference counts and the table to what it was, but for the
    driver's private field. *)
Theorem open_close path oflags st t G E Y fd st1 : inv st t G E Y → room E st →
  open tree_sem ops path oflags st = Some (fd, st1) → 0 ≤ fd →
  let l := sched_getfiles st in
  (∃ f, lowest_free st l 0 fd f) ∧
  ∃ ret st2 p, close tree_sem ops fd st1 = Some (ret, st2) ∧ inv st2 t G E Y ∧
    filelists st2 = put_file (l, fd) (mk_file 0 0 0 p) (filelists st) ∧
    ∀ b x, inodes (v_fs st) !! b = Some x →
      ∃ y, inodes (v_fs st2) !! b = Some y ∧ kind y = kind x ∧ i_crefs y = i_crefs x.
Proof using Hops.
  intros Hv HR Eo Hfd l. destruct (open_run tree_sem ops Hops path oflags _ _ _ _ _ Hv HR) as (ret & st' & Eo' & Hv1 & Hfr & Hk1 & Hc).
  rewrite Eo in Eo'. injection Eo' as <- <-. fold l in Hc.
  destruct (Z.eqb_spec l 0) as [|Hl0]; [lia|]. unfold open_check in Hc.
  destruct (not_absolute path); [lia|]. destruct (lookup_path _ _ _) as [[a rest]|] eqn:El; [|lia].
  destruct (lookup_found _ _ _ _ _ _ _ (fi_shape _ _ _ _ _ (vi_fs _ _ _ _ _ (vf_files _ _ _ _ _ _ Hv))) El) as (Ha0 & Hat & _).
  destruct (inodes (v_fs st) !! a) as [x|]; [|lia]. destruct (openable x); cbn [negb] in Hc; [|lia].
  destruct (permits ops x oflags); [|lia]. destruct Hc as [|(fd' & f & rel & Hlow & _ & Hop)]; [lia|].
  cbv zeta in Hop. destruct (opening _ _ _ _ _) as [[r f'] d'] eqn:Eop. destruct Hop as [Ed Hop].
  destruct (r <? 0); [lia|]. destruct Hop as [<- Em]. pose proof (opening_keeps ops Hops _ _ _ _ _ _ _ Eop) as Ei. cbn in Ei.
  destruct Hlow as (Hr & Hf & E0 & Hlow). split; [by exists f|].
  pose proof (file_at_put (l, fd) (l, fd) f f' st st1 Hf Em) as Hf1. rewrite decide_True in Hf1 by done.
  destruct (close_run tree_sem ops Hops fd _ _ _ _ _ Hv1) as (ret & st2 & G' & Ec & Hv2 & _ & _ & Hc).
  { unfold is_int. lia. }
  rewrite (proj2 (Z.leb_le 0 fd)), (proj2 (Z.ltb_lt fd 8)) in Hc by lia. cbn [andb negb] in Hc.
  rewrite (frame_files _ _ Hfr) in Hc. fold l in Hc. rewrite (proj2 (Z.eqb_neq l 0)) in Hc by done.
  destruct Hc as (g & Hg & Hc). rewrite Hf1 in Hg. injection Hg as <-.
  rewrite (proj2 (Z.eqb_neq (f_inode f') 0)) in Hc by congruence. destruct Hc as (y & _ & Hcl & HG).
  destruct HG as [-> Hk2]; [by rewrite Ei|]. unfold closes in Hcl. destruct (closing _ _ _ _) as [[rc fc] dc].
  destruct Hcl as (_ & Em2 & _). rewrite Em, put_put in Em2. exists ret, st2, (f_priv fc). split_and!; [done..|].
  intros b z Hz. destruct (kind_some (inodes (v_fs st)) (inodes (v_fs st2)) b z) as (w & Hw & Ekw); [|done|].
  { by rewrite Hk2, Hk1. }
  exists w. split_and!; [done..|].
  rewrite (fi_refs _ _ _ _ _ (vi_fs _ _ _ _ _ (vf_files _ _ _ _ _ _ Hv2)) _ _ Hw), Em2.
  rewrite (fi_refs _ _ _ _ _ (vi_fs _ _ _ _ _ (vf_files _ _ _ _ _ _ Hv)) _ _ Hz). unfold refs.
  rewrite (fdrefs_put _ _ _ _ _ Hf), !holds_closed by done. lia.
Qed.
End Spec.
