(* ===== verification/VfsWit.v ===== *)
(** Two drivers, a task with open files, and the calls that lead the code astray. *)

From Stdlib Require Import Ascii.
From stdpp Require Import base numbers gmap sorting list strings.
From S2P Require Import Prelude Queue Memory Mm MmInv MmSpec Sched Sem SemThms SemSpec Kmalloc.
From S2P Require Import Inode InodeTree InodeRep InodeInv InodeOps InodeCalls InodeSpec InodeWit.
From S2P Require Import Vfs VfsInv VfsOps VfsCalls VfsFiles VfsIo VfsTask VfsSpec.
From S2P Require Import SchedSpec.
From S2P Require Import MmLib.

#[local] Open Scope string_scope.
#[local] Open Scope Z_scope.

#[local] Instance wit_kmalloc : Kmalloc mm_state := mm_kmalloc 0x1000 3.
#[local] Instance wit_laws : KmallocLaws mm_state := mm_kmalloc_laws 0x1000 3 wit_pid.

(** ** Drivers that count how often they are opened and closed *)

Definition counts : Type := Z * Z.
Definition count_open : driver_fn counts := λ _ f d, (0, f, (fst d + 1, snd d)).
Definition count_close : driver_fn counts := λ _ f d, (0, f, (fst d, snd d + 1)).

(** The table at 0x700 reads nothing and writes everything; the one at 0x710 is busy. *)
Definition tables (p : Z) : file_operations counts :=
  if p =? 0x710 then
    {| op_open := Some (λ _ _ f d, (-16, f, d)); op_close := None; op_read := None; op_write := None;
       op_seek := None; op_ioctl := None |}
  else
    {| op_open := Some (λ _, count_open); op_close := Some count_close;
       op_read := Some (λ _ _ _ f d, (0, f, d)); op_write := Some (λ _ n _ f d, (n, f, d));
       op_seek := None; op_ioctl := None |}.

Lemma tables_ok p : ops_ok (tables p).
Proof.
  unfold tables. destruct (p =? 0x710); constructor; cbn; intros; simplify_eq; intros ??? ??? E; vm_compute in E; by simplify_eq.
Qed.

(** ** A run: the driver is registered, a task with a file list starts and opens it *)

Definition taken (r : option (Z * vfsst mm_state counts)) : vfsst mm_state counts :=
  match r with Some (_, st) => st | None => mk_vfs fs0 ∅ ∅ (0, 0) end.
Definition run (op : vfs_op) (st : vfsst mm_state counts) : vfsst mm_state counts := taken (vfs_exec tree0 tables op st).

Definition w0 : vfsst mm_state counts := mk_vfs fs0 ∅ ∅ (0, 0).
Definition w1 : vfsst mm_state counts := run (VRegister false "/dev/null" 0x700 0) w0.
Definition w2 : vfsst mm_state counts := run (VTask taskB) w1.
(** The running task waits for a signal. *)
Definition sem_b : semst :=
  match up_block_task taskA TSTATE_WAIT_SIG (sch (fs_sem (v_fs w2))) with
  | Some s => with_sched (fs_sem (v_fs w2)) s
  | None => fs_sem (v_fs w2)
  end.
Definition w3 : vfsst mm_state counts := run (VSwitch sem_b) w2.
Definition w4 : vfsst mm_state counts := run (VOpen "/dev/null" O_RDOK) w3.

Lemma after_run op st r : fst <$> vfs_exec tree0 tables op st = Some r → vfs_exec tree0 tables op st = Some (r, run op st).
Proof. unfold run. destruct (vfs_exec _ _ _ _) as [[y st']|]; [|done]. by intros [= ->]. Qed.

(** The list of the task, with the driver open at the descriptors of [fds]. *)
Definition list_b : Z := 0x2070.
Definition closed0 : file := mk_file 0 0 0 0.
Definition null0 : file := mk_file O_RDOK 0 0x2040 0.
Definition table_b (fs : list file) : gmap Z filelist := {[ list_b := mk_filelist 1 fs ]}.

Lemma run_register : vfs_exec tree0 tables (VRegister false "/dev/null" 0x700 0) w0 = Some (0, w1).
Proof. apply after_run. vm_compute. reflexivity. Qed.
Lemma run_task : vfs_exec tree0 tables (VTask taskB) w1 = Some (0, w2).
Proof. apply after_run. vm_compute. reflexivity. Qed.
Lemma run_switch : vfs_exec tree0 tables (VSwitch sem_b) w2 = Some (0, w3).
Proof. apply after_run. vm_compute. reflexivity. Qed.
Lemma run_open : vfs_exec tree0 tables (VOpen "/dev/null" O_RDOK) w3 = Some (0, w4).
Proof. apply after_run. vm_compute. reflexivity. Qed.

Lemma w1_lists : filelists w1 = ∅.
Proof. vm_compute. reflexivity. Qed.
Lemma w2_lists : filelists w2 = table_b (replicate 8 closed0).
Proof. vm_compute. reflexivity. Qed.
Lemma w3_lists : filelists w3 = table_b (replicate 8 closed0).
Proof. vm_compute. reflexivity. Qed.
Lemma w4_lists : filelists w4 = table_b (null0 :: replicate 7 closed0).
Proof. vm_compute. reflexivity. Qed.
Lemma w3_task : sched_getfiles w3 = list_b.
Proof. vm_compute. reflexivity. Qed.
Lemma w4_task : sched_getfiles w4 = list_b.
Proof. vm_compute. reflexivity. Qed.
Lemma w1_task : this_task (sch (fs_sem (v_fs w1))) = taskA ∧ default 0 (tcb_filelist w1 !! taskB) = 0.
Proof. split; vm_compute; reflexivity. Qed.
Lemma w1_alloc : alloc_ok tree0 w1.
Proof.
  intros p h. assert (E : fst <$> kzalloc FILELIST_SIZE (fs_heap (v_fs w1)) = Some list_b) by (vm_compute; reflexivity).
  intros Ez. rewrite Ez in E. injection E as ->. done.
Qed.
Lemma switch_sems k : semcount sem_b k = semcount (fs_sem (v_fs w2)) k.
Proof. unfold sem_b. by destruct (up_block_task _ _ _). Qed.
Lemma w3_inodes : inodes (v_fs w3) = inodes fs1 ∧ root_inode (v_fs w3) = root_inode fs1.
Proof. split; vm_compute; reflexivity. Qed.
Lemma w4_null : inodes (v_fs w4) !! 0x2040 = Some (with_crefs 1 null1).
Proof. vm_compute. reflexivity. Qed.
Lemma w4_users : default 0 (tcb_filelist w4 !! taskB) = list_b ∧ users (tcb_filelist w4) list_b = 1.
Proof. split; vm_compute; reflexivity. Qed.
Lemma w3_find : open_check tables w3 tree1 "/dev/null" O_RDOK = inr (0x2040, null1, []).
Proof. vm_compute. reflexivity. Qed.

Lemma sum_holds_length a l : sum_holds a l ≤ Z.of_nat (length l).
Proof.
  induction l as [|f l IH]; [done|]. change (sum_holds a (f :: l)) with (holds a f + sum_holds a l).
  pose proof (holds_range a f). cbn [length]. lia.
Qed.

Lemma room_b (st : vfsst mm_state counts) fs : filelists st = table_b fs → (length fs ≤ 8)%nat → room_for 8 norefs st.
Proof.
  intros E Hl a. rewrite E. unfold refs, fdrefs, table_b, norefs.
  rewrite <-insert_empty, msum_new by apply lookup_empty. cbn [fl_files].
  change (msum _ ∅) with 0. pose proof (sum_holds_length a fs). lia.
Qed.

Lemma room_none (st : vfsst mm_state counts) : filelists st = ∅ → room_for 8 norefs st.
Proof. by intros E a; rewrite E. Qed.

#[local] Opaque fs0 fs1 w1 w2 w3 w4 sem_b.

Lemma w0_start : vfs_start tree0 ∅ w0.
Proof. destruct fs0_start as (H1 & H2 & H3 & _ & H5). by split_and!. Qed.

Lemma w3_reached : vfs_reach tree0 tables norefs w0 w3.
Proof.
  eapply vfs_reach_step; [|  |exact run_switch].
  - eapply vfs_reach_step; [| |exact run_task].
    + eapply vfs_reach_step; [constructor| |exact run_register]. split; [by apply room_none|by apply slash_short].
    + split; [apply room_none, w1_lists|]. destruct w1_task as [E1 E2]. split; [exact E2|]. rewrite E1. split; [done|].
      exact w1_alloc.
  - split; [eapply room_b; [exact w2_lists|done]|]. exact switch_sems.
Qed.

Lemma w3_inv : ∃ G, vfs_inv tree0 w3 tree1 G norefs ∅.
Proof.
  destruct (vfs_reach_good tree0 tables tables_ok norefs ∅ w0 w3 (vfs_start_good tree0 ∅ w0 w0_start) w3_reached)
    as (t & G & Hv).
  exists G. pose proof (sh_tree _ _ _ _ (fi_shape _ _ _ _ _ (vi_fs _ _ _ _ _ (vf_files _ _ _ _ _ _ Hv)))) as Ht.
  destruct w3_inodes as [E1 E2]. rewrite E1, E2 in Ht. by rewrite (irep_unique _ _ _ _ fs1_tree Ht).
Qed.

Lemma w3_room : room norefs w3.
Proof. apply (room_less 8); [lia|]. eapply room_b; [exact w3_lists|done]. Qed.
Lemma w4_room : room norefs w4.
Proof. apply (room_less 8); [lia|]. eapply room_b; [exact w4_lists|done]. Qed.

Lemma w4_inv : ∃ G, vfs_inv tree0 w4 tree1 G norefs ∅.
Proof.
  destruct w3_inv as [G Hv]. exists G.
  destruct (open_run tree0 tables tables_ok "/dev/null" O_RDOK w3 tree1 G norefs ∅ Hv w3_room) as (r & st' & E & Hv' & _).
  pose proof run_open as E2. cbn [vfs_exec] in E2. rewrite E in E2. by destruct (some_pair _ _ _ _ E2) as [_ <-].
Qed.

Lemma w4_reached : vfs_reach tree0 tables norefs w0 w4.
Proof.
  eapply vfs_reach_step; [exact w3_reached| |exact run_open]. split; [|done]. eapply room_b; [exact w3_lists|done].
Qed.

Lemma w4_file : file_at (list_b, 0) w4 = Some null0.
Proof. vm_compute. reflexivity. Qed.

(** ** The theorems at this run *)

Lemma vfs_reachable_safe_witness :
  (∃ t G, fs_inv (v_fs w4) t G (fdrefs (filelists w4)) (dom (filelists w4) ∪ ∅)) ∧
  (∀ p f, file_at p w4 = Some f → f_inode f ≠ 0 →
     ∃ x, inodes (v_fs w4) !! f_inode f = Some x ∧ openable x = true ∧ i_crefs x = fdrefs (filelists w4) (f_inode f)) ∧
  (∀ l fl, filelists w4 !! l = Some fl → length (fl_files fl) = 8%nat ∧
     fl_crefs fl = users (tcb_filelist w4) l ∧ 1 ≤ fl_crefs fl) ∧
  (∀ op, vfs_legal tree0 norefs op w4 → is_Some (vfs_exec tree0 tables op w4)).
Proof. exact (vfs_reachable_safe tree0 tables tables_ok ∅ w0 w4 w0_start w4_reached). Defined.

Lemma open_correct_witness : ∃ ret st', open tree0 tables "/dev/null" O_RDOK w3 = Some (ret, st') ∧
  (all_open w3 list_b 0 ∧ ret = -1 ∧ failed EMFILE w3 st' ∨
   ∃ fd, opens tables w3 st' fd list_b null1 [] O_RDOK 0x2040 ret).
Proof.
  destruct w3_inv as [G Hv].
  destruct (open_correct tree0 tables tables_ok "/dev/null" O_RDOK w3 tree1 G norefs ∅ Hv w3_room)
    as (ret & st' & E & _ & _ & _ & Hc).
  rewrite w3_task, w3_find in Hc. exists ret, st'. exact (conj E Hc).
Defined.

Lemma close_correct_witness : ∃ ret st', close tree0 tables 0 w4 = Some (ret, st') ∧
  closes tables w4 st' (list_b, 0) null0 (with_crefs 1 null1) ret.
Proof.
  destruct w4_inv as [G Hv].
  destruct (close_correct tree0 tables tables_ok 0 w4 tree1 G norefs ∅ Hv) as (ret & st' & G' & E & _ & _ & _ & Hc).
  { unfold is_int. lia. }
  rewrite w4_task in Hc. cbn [Z.leb Z.ltb Z.eqb Z.compare andb negb] in Hc. destruct Hc as (f & Hf & Hc).
  rewrite w4_file in Hf. injection Hf as <-. cbn [f_inode null0 Z.eqb] in Hc. destruct Hc as (x & Hx & Hc & _).
  rewrite w4_null in Hx. injection Hx as <-. exists ret, st'. exact (conj E Hc).
Defined.

Lemma w4_open0 f : open_file w4 0 f → f = null0.
Proof. intros (_ & Hf & _). rewrite w4_task in Hf. rewrite w4_file in Hf. by injection Hf. Qed.

Lemma w4_opened : open_file w4 0 null0.
Proof. unfold open_file. rewrite w4_task. split; [lia|]. split; [exact w4_file|]. intros E0. discriminate E0. Qed.

Lemma dup2_correct_witness : ∃ ret st', dup2 tree0 tables 0 3 w4 = Some (ret, st') ∧
  dups tables w4 st' (list_b, 3) null0 (with_crefs 1 null1) closed0 ret.
Proof.
  destruct w4_inv as [G Hv].
  destruct (dup2_correct tree0 tables tables_ok 0 3 w4 tree1 G norefs ∅ Hv w4_room) as (ret & st' & G' & E & _ & _ & _ & Hc).
  1, 2: unfold is_int; lia.
  rewrite w4_task in Hc. cbn [Z.leb Z.ltb Z.eqb Pos.eqb Z.compare andb negb] in Hc.
  exists ret, st'. split; [exact E|]. destruct Hc as [[Hn _]|(f1 & ->%w4_open0 & Hc)].
  - destruct (Hn null0 w4_opened).
  - destruct Hc as (f2 & x1 & Hf2 & Hx & Hc).
    assert (E3 : file_at (list_b, 3) w4 = Some closed0) by (vm_compute; reflexivity).
    rewrite E3 in Hf2. injection Hf2 as <-. cbn [f_inode null0] in Hx. rewrite w4_null in Hx. injection Hx as <-. exact Hc.
Defined.

Lemma transfer_correct_witness :
  (∃ st', transfer tables true 0 0 10 w4 = Some (-1, st') ∧ failed EBADF w4 st') ∧
  (∃ ret st', transfer tables false 0 0 10 w4 = Some (ret, st') ∧
     runs (λ _ f d, (0, f, d)) (λ r _, r) w4 st' (list_b, 0) null0 (with_crefs 1 null1) ret).
Proof.
  destruct w4_inv as [G Hv].
  pose proof (transfer_correct tree0 tables tables_ok true 0 0 10 w4 tree1 G norefs ∅ Hv) as Hw.
  pose proof (transfer_correct tree0 tables tables_ok false 0 0 10 w4 tree1 G norefs ∅ Hv) as Hr.
  rewrite w4_task in Hw, Hr. cbn [Z.leb Z.ltb Z.eqb Z.compare andb negb] in Hw, Hr.
  destruct Hw as (ret & st' & E & _ & f & Hf & Hw); [unfold is_int; lia|].
  destruct Hr as (ret2 & st2 & E2 & _ & f2 & Hf2 & Hr); [unfold is_int; lia|].
  rewrite w4_file in Hf, Hf2. injection Hf as <-. injection Hf2 as <-. cbn [f_inode null0 Z.eqb] in Hw, Hr.
  destruct Hw as (x & Hx & Hw). destruct Hr as (x2 & Hx2 & Hr). rewrite w4_null in Hx, Hx2.
  injection Hx as <-. injection Hx2 as <-. split; [|exists ret2, st2; exact (conj E2 Hr)].
  destruct Hw as [-> Hw]. exists st'. exact (conj E Hw).
Defined.

Lemma sched_releasefiles_correct_witness : ∃ st', sched_releasefiles tree0 tables taskB w4 = Some (0, st') ∧
  default 0 (tcb_filelist st' !! taskB) = 0 ∧ filelists st' !! list_b = None.
Proof.
  destruct w4_inv as [G Hv].
  destruct (sched_releasefiles_correct tree0 tables tables_ok taskB w4 tree1 G norefs ∅ Hv) as (st' & G' & E & _ & H1 & H2).
  cbv zeta in H2. destruct w4_users as [E1 E2]. rewrite E1, E2 in H2. exists st'. split; [exact E|].
  split; [apply H1; discriminate|apply H2; [discriminate|discriminate|reflexivity]].
Defined.

Lemma open_close_witness : ∃ ret st2 p, close tree0 tables 0 w4 = Some (ret, st2) ∧
  filelists st2 = put_file (list_b, 0) (mk_file 0 0 0 p) (filelists w3) ∧
  ∀ b x, inodes (v_fs w3) !! b = Some x → ∃ y, inodes (v_fs st2) !! b = Some y ∧ kind y = kind x ∧ i_crefs y = i_crefs x.
Proof.
  destruct w3_inv as [G Hv].
  destruct (open_close tree0 tables tables_ok "/dev/null" O_RDOK w3 tree1 G norefs ∅ 0 w4 Hv w3_room run_open)
    as (_ & ret & st2 & p & E & _ & H1 & H2); [lia|].
  rewrite w3_task in H1. exists ret, st2, p. exact (conj E (conj H1 H2)).
Defined.

(** ** Where the code goes astray *)

Definition errno_b (st : vfsst mm_state counts) : Z :=
  pterrno (get (sch (fs_sem (v_fs st))) (this_task (sch (fs_sem (v_fs st))))).

(** Descriptor 5 is not open: lseek() and ioctl() succeed on it. *)
Theorem closed_descriptor_succeeds :
  file_at (list_b, 5) w4 = Some closed0 ∧ fst <$> lseek tables 5 7 SEEK_SET w4 = Some 0 ∧
  fst <$> ioctl tables 5 1 2 w4 = Some 0.
Proof. split; [vm_compute; reflexivity|]. split; vm_compute; reflexivity. Qed.

(** fcntl() loses what it computes: the new descriptor, which is 3, and the flags. *)
Theorem fcntl_loses_result :
  fst <$> fcntl tree0 0 F_DUPFD 3 w4 = Some 0 ∧
  file_at (list_b, 3) (taken (fcntl tree0 0 F_DUPFD 3 w4)) = Some null0 ∧
  fst <$> fcntl tree0 0 F_GETFL 0 w4 = Some 0 ∧ f_oflags null0 = 1.
Proof. split; [vm_compute; reflexivity|]. split; [vm_compute; reflexivity|]. by split; [vm_compute; reflexivity|]. Qed.

(** A descriptor out of range makes fcntl() return a positive number. *)
Theorem fcntl_positive_error : fst <$> fcntl tree0 9 F_GETFL 0 w4 = Some EBADF ∧ 0 < EBADF.
Proof. by split; [vm_compute; reflexivity|]. Qed.

(** F_SETFL makes a file that was opened for reading writable. *)
Theorem setfl_changes_access :
  fst <$> write tables 0 0 10 w4 = Some (-1) ∧
  fst <$> write tables 0 0 10 (run (VFcntl 0 F_SETFL O_WROK) w4) = Some 10.
Proof. split; vm_compute; reflexivity. Qed.

(** dup() does not open the driver again, but both descriptors close it; dup2() opens it. *)
Theorem dup_unbalanced :
  v_dev (run (VClose 1) (run (VClose 0) (run (VDup 0) w4))) = (1, 2) ∧
  v_dev (run (VClose 1) (run (VClose 0) (run (VDup2 0 1) w4))) = (2, 2).
Proof. split; vm_compute; reflexivity. Qed.

(** When all descriptors are in use dup() leaves EINVAL in errno, not EMFILE. *)
Theorem dup_errno :
  let full := Nat.iter 7 (run (VDup 0)) w4 in
  fst <$> dup tree0 0 full = Some (-1) ∧ errno_b (run (VDup 0) full) = EINVAL ∧ EINVAL ≠ EMFILE.
Proof. by split; [vm_compute; reflexivity|]; split; [vm_compute; reflexivity|]. Qed.

(** A negative minimum makes F_DUPFD look at descriptors below the table. *)
Theorem dupfd_negative : fcntl tree0 0 F_DUPFD (-1) w4 = None.
Proof. vm_compute. reflexivity. Qed.

(** dup2() returns 0, not the descriptor. *)
Theorem dup2_returns_zero :
  fst <$> dup2 tree0 tables 0 3 w4 = Some 0 ∧ file_at (list_b, 3) (run (VDup2 0 3) w4) = Some null0.
Proof. split; vm_compute; reflexivity. Qed.
