(* ===== verification/Qsort.v ===== *)
(** Sorting: lib/stdlib/lib_qsort.c, on byte memory.

    The array starts at [base] and has [nmemb] elements of [size] bytes; [compar]
    is the comparison function of the caller, which may read memory.  Pointers
    are addresses, [long] has four bytes; [size_t] and [int] are wrapped where
    the code computes with them ([w32], [i32]). *)

From stdpp Require Import base numbers gmap sorting list.
From S2P Require Import Prelude Memory.

Definition SIZEOF_LONG : Z := 4.

Section Qsort.
Variable size : Z.
Variable compar : mem → Z → Z → Z.
Implicit Types m : mem.

(** [swapcode(long, ..)] and [swapcode(char, ..)], [n] times round the loop. *)
Fixpoint swapcode_long (n : nat) m (pi pj : Z) : mem :=
  match n with
  | O => m
  | S n =>
      let t := ld32 m pi in
      let m := st32 m pi (ld32 m pj) in
      let m := st32 m pj t in
      swapcode_long n m (pi + SIZEOF_LONG) (pj + SIZEOF_LONG)
  end.
Fixpoint swapcode_char (n : nat) m (pi pj : Z) : mem :=
  match n with
  | O => m
  | S n =>
      let t := getb m pi in
      let m := putb m pi (getb m pj) in
      let m := putb m pj t in
      swapcode_char n m (pi + 1) (pj + 1)
  end.

(** The loop [do .. while (--i > 0)] runs at least once. *)
Definition swapfunc m (a b n swaptype : Z) : mem :=
  if swaptype <=? 1 then swapcode_long (Z.to_nat (Z.max 1 (n / SIZEOF_LONG))) m a b
  else swapcode_char (Z.to_nat (Z.max 1 n)) m a b.

Definition SWAPINIT (a : Z) : Z :=
  if negb (a mod SIZEOF_LONG =? 0) || negb (size mod SIZEOF_LONG =? 0) then 2
  else if size =? SIZEOF_LONG then 0 else 1.

Definition swap (swaptype : Z) m (a b : Z) : mem :=
  if swaptype =? 0 then
    let t := ld32 m a in
    let m := st32 m a (ld32 m b) in
    st32 m b t
  else swapfunc m a b size swaptype.

Definition vecswap (swaptype : Z) m (a b n : Z) : mem :=
  if 0 <? n then swapfunc m a b n swaptype else m.

Definition med3 m (a b c : Z) : Z :=
  if compar m a b <? 0 then (if compar m b c <? 0 then b else if compar m a c <? 0 then c else a)
  else (if 0 <? compar m b c then b else if compar m a c <? 0 then a else c).

(** The inner and the outer [for] loop of the insertion sort. *)
Fixpoint insert_loop (fuel : nat) (swaptype base : Z) m (pl : Z) : option mem :=
  match fuel with
  | O => None
  | S fuel =>
      if (base <? pl) && (0 <? compar m (pl - size) pl)
      then insert_loop fuel swaptype base (swap swaptype m pl (pl - size)) (pl - size)
      else Some m
  end.
Fixpoint insertion_loop (fuel N : nat) (swaptype base limit : Z) m (pm : Z) : option mem :=
  match fuel with
  | O => None
  | S fuel =>
      if pm <? limit then
        m ← insert_loop N swaptype base m pm;
        insertion_loop fuel N swaptype base limit m (pm + size)
      else Some m
  end.

(** The variables of the partition. *)
Record part := mk_part { pt_mem : mem; pa : Z; pb : Z; pc : Z; pd : Z; swap_cnt : Z }.

(** The first and the second [while] loop. *)
Fixpoint scan_up (fuel : nat) (swaptype base : Z) (p : part) : option part :=
  match fuel with
  | O => None
  | S fuel =>
      let m := pt_mem p in
      if pb p <=? pc p then
        let r := compar m (pb p) base in
        if r <=? 0 then
          scan_up fuel swaptype base
            (if r =? 0 then mk_part (swap swaptype m (pa p) (pb p)) (pa p + size) (pb p + size) (pc p) (pd p) 1
             else mk_part m (pa p) (pb p + size) (pc p) (pd p) (swap_cnt p))
        else Some p
      else Some p
  end.
Fixpoint scan_down (fuel : nat) (swaptype base : Z) (p : part) : option part :=
  match fuel with
  | O => None
  | S fuel =>
      let m := pt_mem p in
      if pb p <=? pc p then
        let r := compar m (pc p) base in
        if 0 <=? r then
          scan_down fuel swaptype base
            (if r =? 0 then mk_part (swap swaptype m (pc p) (pd p)) (pa p) (pb p) (pc p - size) (pd p - size) 1
             else mk_part m (pa p) (pb p) (pc p - size) (pd p) (swap_cnt p))
        else Some p
      else Some p
  end.

(** [for (;;)] *)
Fixpoint partition_loop (fuel : nat) (swaptype base : Z) (p : part) : option part :=
  match fuel with
  | O => None
  | S fuel =>
      p ← scan_up (S fuel) swaptype base p;
      p ← scan_down (S fuel) swaptype base p;
      if pc p <? pb p then Some p else
      partition_loop fuel swaptype base
        (mk_part (swap swaptype (pt_mem p) (pb p) (pc p)) (pa p) (pb p + size) (pc p - size) (pd p) 1)
  end.

(** The choice of the partition element. *)
Definition choose m (base nmemb : Z) : Z :=
  let pm := base + w32 (nmemb / 2 * size) in
  if 7 <? nmemb then
    let pl := base in
    let pn := base + w32 ((nmemb - 1) * size) in
    if 40 <? nmemb then
      let d := i32 (nmemb / 8 * size) in
      let pl := med3 m pl (pl + d) (pl + 2 * d) in
      let pm := med3 m (pm - d) pm (pm + d) in
      let pn := med3 m (pn - 2 * d) (pn - d) pn in
      med3 m pl pm pn
    else med3 m pl pm pn
  else pm.

(** The first [r] bytes of the smaller of two ranges. *)
Definition min (a b : Z) : Z := if a <? b then a else b.

Fixpoint qsort (fuel : nat) m (base nmemb : Z) : option mem :=
  match fuel with
  | O => None
  | S fuel =>
      let swaptype := SWAPINIT base in
      let N := Z.to_nat nmemb in
      let limit := base + w32 (nmemb * size) in
      if nmemb <? 7 then insertion_loop (S N) (S N) swaptype base limit m (base + size) else
      let m := swap swaptype m base (choose m base nmemb) in
      let pn := base + w32 ((nmemb - 1) * size) in
      p ← partition_loop N swaptype base (mk_part m (base + size) (base + size) pn pn 0);
      let m := pt_mem p in
      if swap_cnt p =? 0 then insertion_loop (S N) (S N) swaptype base limit m (base + size) else
      let pn := limit in
      let r := i32 (min (pa p - base) (pb p - pa p)) in
      let m := vecswap swaptype m base (pb p - r) r in
      let r := i32 (min (pd p - pc p) (pn - pd p - size)) in
      let m := vecswap swaptype m (pb p) (pn - r) r in
      let r := i32 (pb p - pa p) in
      m ← (if size <? w32 r then qsort fuel m base (w32 r / size) else Some m);
      let r := i32 (pd p - pc p) in
      if size <? w32 r then qsort fuel m (pn - r) (w32 r / size) else Some m
  end.
End Qsort.

(** The array that a sort works on: its elements, exchanging ranges of bytes, and
    exchanging elements. *)

(** ** Exchanging two ranges of bytes *)

Definition swapped (a b n x : Z) : Z :=
  if decide (a ≤ x < a + n) then b + (x - a) else if decide (b ≤ x < b + n) then a + (x - b) else x.
Definition exchanged (a b n : Z) (m m' : mem) : Prop := ∀ x, getb m' x = getb m (swapped a b n x).

#[local] Transparent ld32 st32.
Lemma getb_st32_ld32 m m0 a b x :
  getb (st32 m a (ld32 m0 b)) x = if decide (a ≤ x < a + 4) then getb m0 (b + (x - a)) else getb m x.
Proof.
  pose proof (getb_range m0 b). pose proof (getb_range m0 (b + 1)).
  pose proof (getb_range m0 (b + 2)). pose proof (getb_range m0 (b + 3)).
  unfold st32, ld32. rewrite !getb_putb.
  destruct (decide (x = a + 3)) as [->|]; [|destruct (decide (x = a + 2)) as [->|];
    [|destruct (decide (x = a + 1)) as [->|]; [|destruct (decide (x = a)) as [->|]]]].
  5: by rewrite decide_False by lia.
  all: rewrite decide_True by lia.
  - replace (b + (a + 3 - a)) with (b + 3) by lia. change (2 ^ 24) with (2 ^ 16 * 2 ^ 8).
    Z.div_mod_to_equations. lia.
  - replace (b + (a + 2 - a)) with (b + 2) by lia. Z.div_mod_to_equations. lia.
  - replace (b + (a + 1 - a)) with (b + 1) by lia. Z.div_mod_to_equations. lia.
  - replace (b + (a - a)) with b by lia. Z.div_mod_to_equations. lia.
Qed.
#[local] Opaque ld32 st32.

Lemma exchange_long m a b : a = b ∨ 4 ≤ Z.abs (a - b) →
  exchanged a b 4 m (st32 (st32 m a (ld32 m b)) b (ld32 m a)).
Proof.
  intros Hd x. rewrite !getb_st32_ld32. unfold swapped.
  repeat case_decide; try lia; try (f_equal; lia).
Qed.

Lemma exchange_char m a b : exchanged a b 1 m (putb (putb m a (getb m b)) b (getb m a)).
Proof.
  intros x. rewrite !getb_putb. unfold swapped.
  rewrite !(Z.mod_small (getb _ _)) by apply getb_range.
  repeat case_decide; subst; try lia; try (f_equal; lia).
Qed.

(** One step of a loop, and the rest of it. *)
Lemma exchanged_step a b k n m m1 m2 : 0 ≤ k → 0 ≤ n → a = b ∨ k + n ≤ Z.abs (a - b) →
  exchanged a b k m m1 → exchanged (a + k) (b + k) n m1 m2 → exchanged a b (k + n) m m2.
Proof.
  intros Hk Hn Hd H1 H2 x. rewrite H2, H1. f_equal. unfold swapped.
  repeat (case_decide; try lia).
Qed.

Lemma swapcode_long_ok n m a b : a = b ∨ 4 * Z.of_nat n ≤ Z.abs (a - b) →
  exchanged a b (4 * Z.of_nat n) m (swapcode_long n m a b).
Proof.
  revert m a b. induction n as [|n IH]; intros m a b Hd; cbn [swapcode_long].
  { intros x. f_equal. unfold swapped. repeat case_decide; lia. }
  replace (4 * Z.of_nat (S n)) with (4 + 4 * Z.of_nat n) by lia.
  eapply exchanged_step; [lia..| |].
  - apply exchange_long. lia.
  - apply IH. unfold SIZEOF_LONG. lia.
Qed.

Lemma swapcode_char_ok n m a b : a = b ∨ Z.of_nat n ≤ Z.abs (a - b) →
  exchanged a b (Z.of_nat n) m (swapcode_char n m a b).
Proof.
  revert m a b. induction n as [|n IH]; intros m a b Hd; cbn [swapcode_char].
  { intros x. f_equal. unfold swapped. repeat case_decide; lia. }
  replace (Z.of_nat (S n)) with (1 + Z.of_nat n) by lia.
  eapply exchanged_step; [lia..| |].
  - apply exchange_char.
  - apply IH. lia.
Qed.

Lemma swapfunc_ok m a b n st : 0 < n → (st ≤ 1 → n mod 4 = 0) → a = b ∨ n ≤ Z.abs (a - b) →
  exchanged a b n m (swapfunc m a b n st).
Proof.
  intros Hn Hst Hd. unfold swapfunc, SIZEOF_LONG. destruct (Z.leb_spec st 1) as [H1|H1].
  - specialize (Hst H1). assert (E : n = 4 * (n / 4)) by (Z.div_mod_to_equations; lia).
    pose proof (swapcode_long_ok (Z.to_nat (Z.max 1 (n / 4))) m a b) as Hs.
    replace (4 * Z.of_nat (Z.to_nat (Z.max 1 (n / 4)))) with n in Hs by lia. by apply Hs.
  - pose proof (swapcode_char_ok (Z.to_nat (Z.max 1 n)) m a b) as Hs.
    replace (Z.of_nat (Z.to_nat (Z.max 1 n))) with n in Hs by lia. by apply Hs.
Qed.

(** ** Elements *)

Section Array.
Variable size : Z.
Hypothesis Hsize : 0 < size.
Implicit Types m : mem.

(** The bytes of the element at [p], the address and the bytes of the element [i]. *)
Definition elem m (p : Z) : list Z := (λ k, getb m (p + k)) <$> seqZ 0 size.
Definition at_ (base i : Z) : Z := base + i * size.
Definition arr m (base i : Z) : list Z := elem m (at_ base i).
Definition elems m (base n : Z) : list (list Z) := arr m base <$> seqZ 0 n.

(** The elements of the array change places, the rest of the memory stays. *)
Definition rearranged (base n : Z) m m' : Prop :=
  elems m' base n ≡ₚ elems m base n ∧ same_but (λ x, base ≤ x < at_ base n) m m'.

Lemma elem_ext m m' p q : (∀ k, 0 ≤ k < size → getb m' (p + k) = getb m (q + k)) → elem m' p = elem m q.
Proof using.
  intros Hk. apply list_fmap_ext. intros _ k Hl%list_elem_of_lookup_2. apply Hk. rewrite elem_of_seqZ in Hl. lia.
Qed.

Lemma rearranged_refl base n m : rearranged base n m m.
Proof using. split; [done|apply same_but_refl]. Qed.

Lemma rearranged_trans base n m1 m2 m3 : rearranged base n m1 m2 → rearranged base n m2 m3 → rearranged base n m1 m3.
Proof using. intros [H1 H2] [H3 H4]. split; [by rewrite H3|by eapply same_but_trans]. Qed.

Lemma elems_split m base j n : 0 ≤ j ≤ n → elems m base n = elems m base j ++ elems m (at_ base j) (n - j).
Proof using.
  intros Hj. unfold elems. replace (seqZ 0 n) with (seqZ 0 (j + (n - j))) by (f_equal; lia). rewrite seqZ_app, fmap_app by lia. f_equal.
  replace (seqZ (0 + j) (n - j)) with (Z.add j <$> seqZ 0 (n - j)) by (rewrite fmap_add_seqZ; f_equal; lia).
  rewrite <-list_fmap_compose.
  apply list_fmap_ext. intros _ k _. unfold compose, arr, at_. f_equal. lia.
Qed.

Lemma elems_outside m m' base n (P : Z → Prop) : same_but P m m' → (∀ x, base ≤ x < at_ base n → ¬ P x) →
  elems m' base n = elems m base n.
Proof using Hsize.
  intros Hs HP. apply list_fmap_ext. intros _ i Hi%list_elem_of_lookup_2. rewrite elem_of_seqZ in Hi.
  apply elem_ext. intros k Hk. apply Hs, HP. unfold at_. nia.
Qed.

(** A part of the array is rearranged. *)
Lemma rearranged_part base n j l m m' : 0 ≤ j → 0 ≤ l → j + l ≤ n →
  rearranged (at_ base j) l m m' → rearranged base n m m'.
Proof using Hsize.
  intros Hj Hl Hn [Hp Hs]. unfold at_ in Hs. split.
  - rewrite !(elems_split _ base j n), !(elems_split _ (at_ base j) l (n - j)) by lia. rewrite Hp.
    rewrite (elems_outside m m' base j _ Hs), (elems_outside m m' (at_ (at_ base j) l) (n - j - l) _ Hs); [done| |].
    + unfold at_. intros x ?. lia.
    + unfold at_. intros x ?. lia.
  - eapply same_but_mono; [|exact Hs]. unfold at_. intros x Hx. nia.
Qed.

Lemma rearranged_forall base n m m' (P : list Z → Prop) : rearranged base n m m' →
  (∀ i, 0 ≤ i < n → P (arr m base i)) → ∀ i, 0 ≤ i < n → P (arr m' base i).
Proof using.
  intros [Hp _] HP i Hi. assert (Hin : arr m' base i ∈ elems m base n).
  { rewrite <-Hp. apply list_elem_of_fmap. exists i. by rewrite elem_of_seqZ. }
  apply list_elem_of_fmap in Hin as (j & -> & Hj). apply HP. rewrite elem_of_seqZ in Hj. lia.
Qed.

Lemma arr_outside base n m m' q i : same_but (λ x, base ≤ x < at_ base n) m m' →
  at_ q i + size ≤ base ∨ at_ base n ≤ at_ q i → arr m' q i = arr m q i.
Proof using. intros Hs Ho. apply elem_ext. intros k Hk. apply Hs. lia. Qed.

(** ** Exchanging elements *)

(** Exchanging [l] elements at [i] with [l] elements at [j]. *)
Definition moved (i j l k : Z) : Z := swapped i j l k.

Lemma exchanged_arr base i j l m m' k : 0 ≤ l → i = j ∨ l ≤ Z.abs (i - j) →
  exchanged (at_ base i) (at_ base j) (l * size) m m' → arr m' base k = arr m base (moved i j l k).
Proof using Hsize.
  intros Hl Hd Hx. apply elem_ext. intros x Hk. rewrite Hx. f_equal. unfold swapped, moved, swapped, at_.
  destruct (decide (i ≤ k < i + l)).
  { rewrite decide_True by nia. lia. }
  rewrite decide_False by nia. destruct (decide (j ≤ k < j + l)).
  { rewrite decide_True by nia. lia. }
  by rewrite decide_False by nia.
Qed.

Lemma moved_involutive i j l k : i = j ∨ l ≤ Z.abs (i - j) → moved i j l (moved i j l k) = k.
Proof using. intros Hd. unfold moved, swapped. repeat (case_decide; try lia). Qed.

Lemma elems_lookup m base n (i : nat) : elems m base n !! i = if decide (Z.of_nat i < n) then Some (arr m base (Z.of_nat i)) else None.
Proof using.
  unfold elems. rewrite list_lookup_fmap. case_decide.
  - rewrite lookup_seqZ_lt by done. cbn. do 2 f_equal.
  - by rewrite lookup_seqZ_ge by lia.
Qed.

Lemma exchanged_rearranged base n i j l m m' : 0 ≤ l → 0 ≤ i → i + l ≤ n → 0 ≤ j → j + l ≤ n →
  i = j ∨ l ≤ Z.abs (i - j) →
  exchanged (at_ base i) (at_ base j) (l * size) m m' → rearranged base n m m'.
Proof using Hsize.
  intros Hl Hi Hi' Hj Hj' Hd Hx. split.
  - apply Permutation_inj. split; [unfold elems; by rewrite !length_fmap|].
    exists (λ k, Z.to_nat (moved i j l (Z.of_nat k))). split.
    + intros x y E. assert (E2 : moved i j l (Z.of_nat x) = moved i j l (Z.of_nat y)).
      { unfold moved, swapped in *. repeat case_decide; lia. }
      pose proof (moved_involutive i j l (Z.of_nat x) Hd). pose proof (moved_involutive i j l (Z.of_nat y) Hd).
      rewrite E2 in *. lia.
    + intros k. rewrite !elems_lookup, (exchanged_arr base i j l m m' _ Hl Hd Hx).
      assert (Hpos : 0 ≤ moved i j l (Z.of_nat k)) by (unfold moved, swapped; repeat case_decide; lia).
      rewrite Z2Nat.id by done. assert (Hiff : Z.of_nat k < n ↔ moved i j l (Z.of_nat k) < n).
      { unfold moved, swapped; repeat case_decide; lia. }
      repeat case_decide; tauto.
  - intros x Hnot. rewrite Hx. f_equal. unfold swapped, at_ in *.
    rewrite !decide_False by nia. done.
Qed.
End Array.
