(* ===== verification/QsortThms.v ===== *)
(** qsort sorts: the insertion sort, the partition and the recursion. *)

From stdpp Require Import base numbers gmap sorting list.
From S2P Require Import Prelude Memory Qsort.

Section Addresses.
Variable size : Z.
Hypothesis Hsize : 0 < size.
Implicit Types m : mem.

#[local] Notation at_ := (at_ size).
#[local] Notation arr := (arr size).
#[local] Notation rearranged := (rearranged size).

(** ** Addresses of elements *)

Lemma at_succ base i : at_ base i + size = at_ base (i + 1).
Proof using. unfold Qsort.at_. lia. Qed.
Lemma at_pred base i : at_ base i - size = at_ base (i - 1).
Proof using. unfold Qsort.at_. lia. Qed.
Lemma at_zero base : base = at_ base 0.
Proof using. unfold Qsort.at_. lia. Qed.
Lemma at_leb base i j : (at_ base i <=? at_ base j) = (i <=? j).
Proof using Hsize. unfold Qsort.at_. destruct (Z.leb_spec i j); [apply Z.leb_le|apply Z.leb_gt]; nia. Qed.
Lemma at_ltb base i j : (at_ base i <? at_ base j) = (i <? j).
Proof using Hsize. unfold Qsort.at_. destruct (Z.ltb_spec i j); [apply Z.ltb_lt|apply Z.ltb_ge]; nia. Qed.
Lemma base_ltb base i : (base <? at_ base i) = (0 <? i).
Proof using Hsize. rewrite <-(at_ltb base 0 i), <-at_zero. done. Qed.
Lemma at_at base i j : at_ (at_ base i) j = at_ base (i + j).
Proof using. unfold Qsort.at_. lia. Qed.
Lemma arr_at m base i j : arr m (at_ base i) j = arr m base (i + j).
Proof using. unfold Qsort.arr. by rewrite at_at. Qed.
(** ** Exchanging elements *)

Definition swaps (st : Z) : Prop := (st ≤ 1 → size mod 4 = 0) ∧ (st = 0 → size = 4).

Lemma SWAPINIT_swaps a : swaps (SWAPINIT size a).
Proof using.
  unfold SWAPINIT, SIZEOF_LONG, swaps. destruct (Z.eqb_spec (a mod 4) 0), (Z.eqb_spec (size mod 4) 0); cbn [negb orb]; [|lia..].
  destruct (Z.eqb_spec size 4); lia.
Qed.

Lemma swap_exchanged st m base i j : swaps st →
  exchanged (at_ base i) (at_ base j) (1 * size) m (swap size st m (at_ base i) (at_ base j)).
Proof using Hsize.
  intros [H1 H2]. unfold swap. assert (Hd : at_ base i = at_ base j ∨ size ≤ Z.abs (at_ base i - at_ base j)).
  { unfold Qsort.at_. destruct (Z.eq_dec i j) as [->|]; [by left|right; nia]. }
  replace (1 * size) with size by lia. destruct (Z.eqb_spec st 0) as [E|E].
  - rewrite (H2 E) in *. by apply exchange_long.
  - apply swapfunc_ok; [done|apply H1|done].
Qed.

Lemma swap_arr st m base i j k : swaps st →
  arr (swap size st m (at_ base i) (at_ base j)) base k =
  if decide (k = i) then arr m base j else if decide (k = j) then arr m base i else arr m base k.
Proof using Hsize.
  intros Hst. rewrite (exchanged_arr size Hsize base i j 1 m _ k ltac:(lia) ltac:(lia) (swap_exchanged st m base i j Hst)).
  unfold moved, swapped. repeat case_decide; try lia; f_equal; lia.
Qed.

Lemma swap_rearranged st m base n i j : swaps st → 0 ≤ i < n → 0 ≤ j < n →
  rearranged base n m (swap size st m (at_ base i) (at_ base j)).
Proof using Hsize.
  intros Hst Hi Hj. apply (exchanged_rearranged size Hsize base n i j 1); [lia..|]. by apply swap_exchanged.
Qed.

Lemma rearranged_longer base k n m m' : 0 ≤ k ≤ n → rearranged base k m m' → rearranged base n m m'.
Proof using Hsize. intros Hk Hr. apply (rearranged_part size Hsize base n 0 k); [lia..|]. by rewrite <-at_zero. Qed.

End Addresses.

Section Sort.
Variable size : Z.
Hypothesis Hsize : 0 < size.
Variable compar : mem → Z → Z → Z.
(** The comparison function depends on the bytes of the two elements, and orders them. *)
Variable cmp : list Z → list Z → Z.
Hypothesis Hcompar : ∀ m a b, compar m a b = cmp (elem size m a) (elem size m b).
Hypothesis Hanti : ∀ x y, cmp x y < 0 ↔ 0 < cmp y x.
Hypothesis Htrans : ∀ x y z, cmp x y ≤ 0 → cmp y z ≤ 0 → cmp x z ≤ 0.
Implicit Types m : mem.

#[local] Notation at_ := (at_ size).
#[local] Notation arr := (arr size).
#[local] Notation rearranged := (rearranged size).
#[local] Notation at_zero := (at_zero size).
#[local] Notation at_succ := (at_succ size).
#[local] Notation at_pred := (at_pred size).
#[local] Notation at_at := (at_at size).
#[local] Notation arr_at := (arr_at size).
#[local] Notation swaps := (swaps size).
#[local] Notation at_leb := (at_leb size Hsize).
#[local] Notation base_ltb := (base_ltb size Hsize).
#[local] Notation at_ltb := (at_ltb size Hsize).
#[local] Notation swap_arr := (swap_arr size Hsize).
#[local] Notation swap_rearranged := (swap_rearranged size Hsize).
#[local] Notation rearranged_longer := (rearranged_longer size Hsize).
#[local] Notation rearranged_part := (rearranged_part size Hsize).

Lemma cmp_refl x : cmp x x ≤ 0.
Proof using Hanti. pose proof (Hanti x x). lia. Qed.

Lemma cmp_flip x y : 0 ≤ cmp x y → cmp y x ≤ 0.
Proof using Hanti. pose proof (Hanti x y). lia. Qed.

Lemma compar_at m base i j : compar m (at_ base i) (at_ base j) = cmp (arr m base i) (arr m base j).
Proof using Hcompar. apply Hcompar. Qed.

Lemma compar_base m base i : compar m (at_ base i) base = cmp (arr m base i) (arr m base 0).
Proof using Hcompar. rewrite <-compar_at, <-at_zero. done. Qed.

(** ** Insertion sort *)

(** The elements from [i] to [j - 1] are in order. *)
Definition ordered m (base i j : Z) : Prop := ∀ x y, i ≤ x ≤ y → y < j → cmp (arr m base x) (arr m base y) ≤ 0.

(** All but the element at [l] are in order, which is not above those behind it. *)
Definition inserting m (base l k : Z) : Prop :=
  (∀ x y, 0 ≤ x ≤ y → y ≤ k → x ≠ l → y ≠ l → cmp (arr m base x) (arr m base y) ≤ 0) ∧
  (∀ y, l ≤ y ≤ k → cmp (arr m base l) (arr m base y) ≤ 0).

Lemma insert_loop_ok fuel st base l k m : swaps st → (Z.to_nat l < fuel)%nat → 0 ≤ l ≤ k → inserting m base l k →
  ∃ m', insert_loop size compar fuel st base m (at_ base l) = Some m' ∧ ordered m' base 0 (k + 1) ∧ rearranged base (k + 1) m m'.
Proof using Hsize Hcompar Hanti Htrans.
  intros Hst. revert l m. induction fuel as [|fuel IH]; intros l m Hf Hl [H1 H2]; [lia|]. cbn [insert_loop].
  rewrite base_ltb, at_pred, compar_at. destruct (Z.ltb_spec 0 l) as [Hl0|Hl0]; cbn [andb].
  - destruct (Z.ltb_spec 0 (cmp (arr m base (l - 1)) (arr m base l))) as [Hc|Hc].
    + destruct (IH (l - 1) (swap size st m (at_ base l) (at_ base (l - 1)))) as (m' & E & Ho & Hr); [lia..| |].
      { apply Hanti in Hc. split; [intros x y Hx Hy Hxl Hyl|intros y Hy]; rewrite !swap_arr by done.
        - destruct (decide (x = l)) as [->|]; [|rewrite (decide_False (P := x = l - 1)) by lia];
            (destruct (decide (y = l)) as [->|]; [|rewrite (decide_False (P := y = l - 1)) by lia]); apply H1; lia.
        - rewrite (decide_False (P := l - 1 = l)), (decide_True (P := l - 1 = l - 1)) by lia.
          destruct (decide (y = l)); [lia|]. destruct (decide (y = l - 1)); apply H2; lia. }
      exists m'. split_and!; [done|done|]. eapply rearranged_trans; [|exact Hr]. apply swap_rearranged; [done|lia..].
    + exists m. split_and!; [done| |apply rearranged_refl]. intros x y Hx Hy.
      destruct (decide (x = l)) as [->|]; [apply H2; lia|]. destruct (decide (y = l)) as [->|]; [|apply H1; lia].
      eapply Htrans; [|exact Hc]. apply H1; lia.
  - assert (l = 0) as -> by lia. exists m. split_and!; [done| |apply rearranged_refl]. intros x y Hx Hy.
    destruct (decide (x = 0)) as [->|]; [apply H2; lia|]. apply H1; lia.
Qed.

Lemma insertion_loop_ok fuel N st base n k m : swaps st → (Z.to_nat n < N)%nat → 1 ≤ k → (Z.to_nat (n - k) < fuel)%nat →
  ordered m base 0 k →
  ∃ m', insertion_loop size compar fuel N st base (at_ base n) m (at_ base k) = Some m' ∧ ordered m' base 0 n ∧ rearranged base n m m'.
Proof using Hsize Hcompar Hanti Htrans.
  intros Hst HN. revert k m. induction fuel as [|fuel IH]; intros k m Hk Hf Ho; [lia|]. cbn [insertion_loop].
  rewrite at_ltb. destruct (Z.ltb_spec k n) as [Hkn|Hkn].
  - destruct (insert_loop_ok N st base k k m) as (m1 & -> & Ho1 & Hr1); [done|lia..| |].
    { split; [intros; apply Ho; lia|]. intros y Hy. assert (y = k) as -> by lia. apply cmp_refl. }
    cbn [mbind option_bind]. rewrite at_succ. destruct (IH (k + 1) m1) as (m2 & -> & Ho2 & Hr2); [lia..|done|].
    exists m2. split_and!; [done|done|]. eapply rearranged_trans; [|done]. apply (rearranged_longer base (k + 1)); [lia|done].
  - exists m. split_and!; [done| |apply rearranged_refl]. intros x y ? ?. apply Ho; lia.
Qed.

(** ** The partition *)

(** Equal to [v] up to [a] and from [d] on, below up to [b], above from [c] on. *)
Record parted m (base n a b c d : Z) (v : list Z) : Prop := {
  pt_order : 1 ≤ a ≤ b ∧ b ≤ c + 1 ∧ c ≤ d ≤ n - 1;
  pt_pivot : arr m base 0 = v;
  pt_left i : 0 ≤ i < a → cmp (arr m base i) v = 0;
  pt_below i : a ≤ i < b → cmp (arr m base i) v < 0;
  pt_above i : c < i ≤ d → 0 < cmp (arr m base i) v;
  pt_right i : d < i < n → cmp (arr m base i) v = 0 }.

Lemma scan_up_ok fuel st base n a b c d v cnt m : swaps st → parted m base n a b c d v → (Z.to_nat (c + 1 - b) < fuel)%nat →
  ∃ m' a' b' cnt', scan_up size compar fuel st base (mk_part m (at_ base a) (at_ base b) (at_ base c) (at_ base d) cnt) =
      Some (mk_part m' (at_ base a') (at_ base b') (at_ base c) (at_ base d) cnt') ∧
    parted m' base n a' b' c d v ∧ b ≤ b' ∧ (b' ≤ c → 0 < cmp (arr m' base b') v) ∧ rearranged base n m m'.
Proof using Hsize Hcompar.
  intros Hst. revert a b cnt m. induction fuel as [|fuel IH]; intros a b cnt m Hp Hf; [lia|]. cbn [scan_up pt_mem pa pb pc pd swap_cnt].
  rewrite at_leb. pose proof Hp as [Hord Hv Hl Hb Ha Hr]. destruct (Z.leb_spec b c) as [Hbc|Hbc].
  - rewrite compar_base, Hv.
    destruct (Z.leb_spec (cmp (arr m base b) v) 0) as [Hc|Hc].
    + rewrite !at_succ. destruct (Z.eqb_spec (cmp (arr m base b) v) 0) as [E|E].
      * destruct (IH (a + 1) (b + 1) 1 (swap size st m (at_ base a) (at_ base b))) as (m' & a' & b' & cnt' & -> & H1 & H2 & H3 & H4).
        { constructor; [lia|..]; [|intros i Hi..]; rewrite swap_arr by done; repeat case_decide; subst; try lia;
            first [done|apply Hl; lia|apply Hb; lia|apply Ha; lia|apply Hr; lia]. }
        { lia. }
        exists m', a', b', cnt'. split_and!; [done|done|lia|done|]. eapply rearranged_trans; [|done].
        apply swap_rearranged; [done|lia..].
      * destruct (IH a (b + 1) cnt m) as (m' & a' & b' & cnt' & -> & H1 & H2 & H3 & H4).
        { constructor; [lia|done|done| |done|done]. intros i Hi. destruct (decide (i = b)) as [->|]; [lia|]. apply Hb. lia. }
        { lia. }
        exists m', a', b', cnt'. by split_and!; [..|lia| |].
    + exists m, a, b, cnt. by split_and!; [..|apply rearranged_refl].
  - exists m, a, b, cnt. split_and!; [done|done|lia|lia|apply rearranged_refl].
Qed.
Lemma scan_down_ok fuel st base n a b c d v cnt m : swaps st → parted m base n a b c d v →
  (b ≤ c → 0 < cmp (arr m base b) v) → (Z.to_nat (c + 1 - b) < fuel)%nat →
  ∃ m' c' d' cnt', scan_down size compar fuel st base (mk_part m (at_ base a) (at_ base b) (at_ base c) (at_ base d) cnt) =
      Some (mk_part m' (at_ base a) (at_ base b) (at_ base c') (at_ base d') cnt') ∧
    parted m' base n a b c' d' v ∧ c' ≤ c ∧ (b ≤ c' → 0 < cmp (arr m' base b) v ∧ cmp (arr m' base c') v < 0) ∧
    rearranged base n m m'.
Proof using Hsize Hcompar.
  intros Hst. revert c d cnt m. induction fuel as [|fuel IH]; intros c d cnt m Hp Hbv Hf; [lia|]. cbn [scan_down pt_mem pa pb pc pd swap_cnt].
  rewrite at_leb. pose proof Hp as [Hord Hv Hl Hb Ha Hr]. destruct (Z.leb_spec b c) as [Hbc|Hbc].
  - rewrite compar_base, Hv. destruct (Z.leb_spec 0 (cmp (arr m base c) v)) as [Hc|Hc].
    + rewrite !at_pred. destruct (Z.eqb_spec (cmp (arr m base c) v) 0) as [E|E].
      * destruct (IH (c - 1) (d - 1) 1 (swap size st m (at_ base c) (at_ base d))) as (m' & c' & d' & cnt' & -> & H1 & H2 & H3 & H4).
        { constructor; [lia|..]; [|intros i Hi..]; rewrite swap_arr by done; repeat case_decide; subst; try lia;
            first [done|apply Hl; lia|apply Hb; lia|apply Ha; lia|apply Hr; lia|by replace d with c by lia]. }
        { intros Hbc'. rewrite swap_arr by done. rewrite !decide_False by lia. apply Hbv. lia. }
        { lia. }
        exists m', c', d', cnt'. split_and!; [done|done|lia|done|]. eapply rearranged_trans; [|done].
        apply swap_rearranged; [done|lia..].
      * destruct (IH (c - 1) d cnt m) as (m' & c' & d' & cnt' & -> & H1 & H2 & H3 & H4).
        { constructor; [lia|done|done|done| |done]. intros i Hi. destruct (decide (i = c)) as [->|]; [lia|]. apply Ha. lia. }
        { intros ?. apply Hbv. lia. }
        { lia. }
        exists m', c', d', cnt'. by split_and!; [..|lia| |].
    + exists m, c, d, cnt. split_and!; [done|done|lia| |apply rearranged_refl]. auto.
  - exists m, c, d, cnt. split_and!; [done|done|lia|lia|apply rearranged_refl].
Qed.

Lemma partition_loop_ok fuel st base n a b c d v cnt m : swaps st → parted m base n a b c d v → (Z.to_nat (c + 1 - b) < fuel)%nat →
  ∃ m' a' b' d' cnt', partition_loop size compar fuel st base (mk_part m (at_ base a) (at_ base b) (at_ base c) (at_ base d) cnt) =
      Some (mk_part m' (at_ base a') (at_ base b') (at_ base (b' - 1)) (at_ base d') cnt') ∧
    parted m' base n a' b' (b' - 1) d' v ∧ rearranged base n m m'.
Proof using Hsize Hcompar.
  intros Hst. revert a b c d cnt m. induction fuel as [|fuel IH]; intros a b c d cnt m Hp Hf; [lia|]. cbn [partition_loop].
  destruct (scan_up_ok (S fuel) st base n a b c d v cnt m Hst Hp Hf) as (m1 & a1 & b1 & cnt1 & -> & Hp1 & Hb1 & Hv1 & Hr1).
  cbn [mbind option_bind].
  destruct (scan_down_ok (S fuel) st base n a1 b1 c d v cnt1 m1 Hst Hp1 Hv1) as (m2 & c2 & d2 & cnt2 & -> & Hp2 & Hc2 & Hv2 & Hr2); [lia|].
  cbn [mbind option_bind pt_mem pa pb pc pd swap_cnt]. rewrite at_ltb. pose proof Hp2 as [Hord Hv Hl Hb Ha Hr].
  destruct (Z.ltb_spec c2 b1) as [Hcb|Hcb].
  - assert (c2 = b1 - 1) as -> by lia. exists m2, a1, b1, d2, cnt2. split_and!; [done|done|]. by eapply rearranged_trans.
  - rewrite at_succ, at_pred. destruct (Hv2 Hcb) as [Hvb Hvc]. assert (b1 ≠ c2) by (intros ->; lia).
    destruct (IH a1 (b1 + 1) (c2 - 1) d2 1 (swap size st m2 (at_ base b1) (at_ base c2))) as (m3 & a3 & b3 & d3 & cnt3 & -> & Hp3 & Hr3).
    { constructor; [lia|..]; [|intros i Hi..]; rewrite swap_arr by done; repeat case_decide; subst; try lia;
        first [done|apply Hl; lia|apply Hb; lia|apply Ha; lia|apply Hr; lia]. }
    { lia. }
    exists m3, a3, b3, d3, cnt3. split_and!; [done|done|]. eapply rearranged_trans; [exact Hr1|].
    eapply rearranged_trans; [exact Hr2|]. eapply rearranged_trans; [|exact Hr3]. apply swap_rearranged; [done|lia..].
Qed.

(** ** Moving the equal elements to the middle *)

(** [vecswap] exchanges [r] elements at [i] with those at [j]. *)
Lemma vecswap_exchanged st m base i j r : swaps st → 0 ≤ r → r ≤ Z.abs (i - j) →
  exchanged (at_ base i) (at_ base j) (r * size) m (vecswap st m (at_ base i) (at_ base j) (r * size)).
Proof using Hsize.
  intros [Hst _] Hr Hd. unfold vecswap. destruct (Z.ltb_spec 0 (r * size)) as [H0|H0].
  - apply swapfunc_ok; [done| |unfold Qsort.at_; right; nia]. intros H1. specialize (Hst H1).
    apply Z.mod_divide; [lia|]. apply Z.divide_mul_r. by apply Z.mod_divide.
  - intros x. f_equal. unfold swapped. repeat case_decide; try lia; nia.
Qed.

(** Below up to [i], equal up to [j], above from there. *)
Record parted3 m (base n i j : Z) (v : list Z) : Prop := {
  p3_below x : 0 ≤ x < i → cmp (arr m base x) v < 0;
  p3_equal x : i ≤ x < j → cmp (arr m base x) v = 0;
  p3_above x : j ≤ x < n → 0 < cmp (arr m base x) v }.

Lemma gather_ok st base n a b d v m : swaps st → parted m base n a b (b - 1) d v →
  let r := Z.min a (b - a) in
  let m1 := vecswap st m (at_ base 0) (at_ base (b - r)) (r * size) in
  let s := Z.min (d - (b - 1)) (n - 1 - d) in
  let m2 := vecswap st m1 (at_ base b) (at_ base (n - s)) (s * size) in
  rearranged base n m m2 ∧ parted3 m2 base n (b - a) (n - (d - (b - 1))) v.
Proof using Hsize.
  intros Hst [Hord Hv Hl Hb Ha Hr] r m1 s m2.
  pose proof (vecswap_exchanged st m base 0 (b - r) r Hst ltac:(lia) ltac:(lia)) as X1. fold m1 in X1.
  pose proof (vecswap_exchanged st m1 base b (n - s) s Hst ltac:(lia) ltac:(lia)) as X2. fold m2 in X2.
  assert (A : ∀ k, arr m2 base k = arr m base (moved 0 (b - r) r (moved b (n - s) s k))).
  { intros k. rewrite (exchanged_arr size Hsize base b (n - s) s m1 m2 k ltac:(lia) ltac:(lia) X2).
    apply (exchanged_arr size Hsize base 0 (b - r) r m m1 _ ltac:(lia) ltac:(lia) X1). }
  split.
  { eapply rearranged_trans; [apply (exchanged_rearranged size Hsize base n 0 (b - r) r m m1); [lia..|exact X1]|].
    apply (exchanged_rearranged size Hsize base n b (n - s) s m1 m2); [lia..|exact X2]. }
  constructor; intros x Hx; rewrite A; remember (moved b (n - s) s x) as y eqn:Hy; clear A X1 X2;
    unfold moved, swapped in *;
    repeat case_decide; first [lia|apply Hl; lia|apply Hb; lia|apply Ha; lia|apply Hr; lia|
      destruct (decide (y < b)); [apply Hl; lia|apply Hr; lia]].
Qed.

(** ** The recursion *)

Lemma med3_in m a b c : let r := med3 compar m a b c in r = a ∨ r = b ∨ r = c.
Proof using. unfold med3. repeat case_match; auto. Qed.

Lemma w32_mul n k : 0 ≤ k ≤ n → n * size < 2 ^ 31 → w32 (k * size) = k * size.
Proof using Hsize. intros Hk Hn. apply w32_small. nia. Qed.
Lemma i32_mul n k : 0 ≤ k ≤ n → n * size < 2 ^ 31 → i32 (k * size) = k * size.
Proof using Hsize. intros Hk Hn. apply i32_small. nia. Qed.

Lemma choose_ok m base n : 7 ≤ n → n * size < 2 ^ 31 → ∃ k, 0 ≤ k < n ∧ choose size compar m base n = at_ base k.
Proof using Hsize.
  intros Hn Hb. unfold choose.
  assert (H2 : 0 ≤ n / 2 < n) by (Z.div_mod_to_equations; lia). assert (H8 : 0 ≤ n / 8 ∧ 8 * (n / 8) ≤ n) by (Z.div_mod_to_equations; lia).
  rewrite (w32_mul n), (w32_mul n), (i32_mul n) by lia.
  change (base + n / 2 * size) with (at_ base (n / 2)). change (base + (n - 1) * size) with (at_ base (n - 1)).
  destruct (Z.ltb_spec 7 n); [|by exists (n / 2)].
  assert (Hmed : ∀ i j k, 0 ≤ i < n → 0 ≤ j < n → 0 ≤ k < n →
    ∃ x, 0 ≤ x < n ∧ med3 compar m (at_ base i) (at_ base j) (at_ base k) = at_ base x).
  { intros i j k ???. destruct (med3_in m (at_ base i) (at_ base j) (at_ base k)) as [-> | [-> | ->]]; eauto. }
  destruct (Z.ltb_spec 40 n).
  - assert (Hm : n / 8 ≤ n / 2 ∧ n / 2 + n / 8 < n ∧ 2 * (n / 8) ≤ n - 1) by (Z.div_mod_to_equations; lia).
    destruct (Hmed 0 (n / 8) (2 * (n / 8))) as (x & Hx & E1); [lia..|].
    destruct (Hmed (n / 2 - n / 8) (n / 2) (n / 2 + n / 8)) as (y & Hy & E2); [lia..|].
    destruct (Hmed (n - 1 - 2 * (n / 8)) (n - 1 - n / 8) (n - 1)) as (z & Hz & E3); [lia..|].
    destruct (Hmed x y z) as (w & Hw & E); [lia..|]. exists w. split; [done|]. rewrite <-E, <-E1, <-E2, <-E3, <-at_zero.
    unfold Qsort.at_. f_equal; f_equal; lia.
  - destruct (Hmed 0 (n / 2) (n - 1)) as (w & Hw & E); [lia..|]. exists w. split; [done|].
    by rewrite <-E, <-at_zero.
Qed.
(** The two outer parts are sorted. *)
Lemma sort_parts m2 m3 m4 base n i j v : 0 ≤ i ≤ j → j ≤ n → parted3 m2 base n i j v →
  rearranged base i m2 m3 → ordered m3 base 0 i →
  rearranged (at_ base j) (n - j) m3 m4 → ordered m4 (at_ base j) 0 (n - j) →
  ordered m4 base 0 n ∧ rearranged base n m2 m4.
Proof using Hsize Hanti Htrans.
  intros Hi Hj [Hb He Ha] Hr3 Ho3 Hr4 Ho4.
  assert (O3 : ∀ x, i ≤ x → arr m3 base x = arr m2 base x).
  { intros x Hx. eapply arr_outside; [apply Hr3|]. right. unfold Qsort.at_. nia. }
  assert (O4 : ∀ x, 0 ≤ x < j ∨ n ≤ x → arr m4 base x = arr m3 base x).
  { intros x Hx. eapply arr_outside; [apply Hr4|]. rewrite at_at. unfold Qsort.at_. destruct Hx; [left|right]; nia. }
  assert (B : ∀ x, 0 ≤ x < i → cmp (arr m4 base x) v ≤ 0).
  { intros x Hx. rewrite O4 by lia. apply (rearranged_forall size base i m2 m3 (λ e, cmp e v ≤ 0) Hr3); [|done].
    intros y Hy. specialize (Hb y Hy). lia. }
  assert (M : ∀ x, i ≤ x < j → cmp (arr m4 base x) v = 0) by (intros x Hx; rewrite O4, O3 by lia; by apply He).
  assert (U : ∀ x, j ≤ x < n → 0 ≤ cmp (arr m4 base x) v).
  { intros x Hx. replace x with (j + (x - j)) by lia. rewrite <-arr_at.
    apply (rearranged_forall size _ _ m3 m4 (λ e, 0 ≤ cmp e v) Hr4); [|lia].
    intros y Hy. rewrite arr_at, O3 by lia. specialize (Ha (j + y)). lia. }
  split.
  - intros x y Hxy Hy. destruct (decide (y < i)); [rewrite !O4 by lia; by apply Ho3|].
    destruct (decide (j ≤ x)).
    { pose proof (Ho4 (x - j) (y - j) ltac:(lia) ltac:(lia)) as Ho. rewrite !arr_at in Ho.
      by replace (j + (x - j)) with x in Ho by lia; replace (j + (y - j)) with y in Ho by lia. }
    eapply (Htrans _ v).
    + destruct (decide (x < i)); [apply B; lia|]. rewrite M by lia. done.
    + apply cmp_flip. destruct (decide (y < j)); [rewrite M by lia; done|]. apply U. lia.
  - eapply rearranged_trans; [apply (rearranged_longer base i); [lia|exact Hr3]|].
    apply (rearranged_part base n j (n - j)); [lia..|exact Hr4].
Qed.

Lemma first_parted m base n : 1 ≤ n → parted m base n 1 1 (n - 1) (n - 1) (arr m base 0).
Proof using Hanti.
  intros Hn. constructor; [lia|done| |lia..]. intros i Hi. assert (i = 0) as -> by lia.
  pose proof (Hanti (arr m base 0) (arr m base 0)). lia.
Qed.

Lemma min_mul a b : min (a * size) (b * size) = Z.min a b * size.
Proof using Hsize. unfold min. destruct (Z.ltb_spec (a * size) (b * size)); nia. Qed.

Section Step.
Variable rec : mem → Z → Z → option mem.
Variable n : Z.
Hypothesis Hbound : n * size < 2 ^ 31.
Hypothesis Hrec : ∀ m base k, 0 ≤ k < n → ∃ m', rec m base k = Some m' ∧ ordered m' base 0 k ∧ rearranged base k m m'.

(** A part of [k] elements is sorted unless it has at most one. *)
Lemma rec_part m base k : 0 ≤ k < n → ∃ m',
  (if size <? w32 (i32 (k * size)) then rec m base (w32 (i32 (k * size)) / size) else Some m) = Some m' ∧
  ordered m' base 0 k ∧ rearranged base k m m'.
Proof using Hsize Hanti Hbound Hrec.
  intros Hk. rewrite (i32_mul n), (w32_mul n), Z.div_mul by lia. destruct (Z.ltb_spec size (k * size)).
  - by apply Hrec.
  - exists m. split_and!; [done| |apply rearranged_refl]. intros x y Hx Hy.
    assert (x = y) as -> by nia. apply cmp_refl.
Qed.

(** What follows the partition. *)
Lemma parts_sorted st base a b d v m : swaps st → parted m base n a b (b - 1) d v → ∃ m',
  (let r := i32 (min (at_ base a - base) (at_ base b - at_ base a)) in
   let m := vecswap st m base (at_ base b - r) r in
   let r := i32 (min (at_ base d - at_ base (b - 1)) (at_ base n - at_ base d - size)) in
   let m := vecswap st m (at_ base b) (at_ base n - r) r in
   let r := i32 (at_ base b - at_ base a) in
   m ← (if size <? w32 r then rec m base (w32 r / size) else Some m);
   let r := i32 (at_ base d - at_ base (b - 1)) in
   if size <? w32 r then rec m (at_ base n - r) (w32 r / size) else Some m) = Some m' ∧
  ordered m' base 0 n ∧ rearranged base n m m'.
Proof using Hsize Hanti Htrans Hbound Hrec.
  intros Hst Hp. pose proof (pt_order _ _ _ _ _ _ _ _ Hp) as Hord. cbv zeta.
  replace (at_ base a - base) with (a * size) by (unfold Qsort.at_; lia).
  replace (at_ base b - at_ base a) with ((b - a) * size) by (unfold Qsort.at_; lia).
  replace (at_ base d - at_ base (b - 1)) with ((d - (b - 1)) * size) by (unfold Qsort.at_; lia).
  replace (at_ base n - at_ base d - size) with ((n - 1 - d) * size) by (unfold Qsort.at_; lia).
  rewrite !min_mul, !(i32_mul n) by lia.
  pose proof (gather_ok st base n a b d v m Hst Hp) as [Hr2 Hp3].
  replace (at_ base b - Z.min a (b - a) * size) with (at_ base (b - Z.min a (b - a))) by (unfold Qsort.at_; lia).
  replace (at_ base n - Z.min (d - (b - 1)) (n - 1 - d) * size) with (at_ base (n - Z.min (d - (b - 1)) (n - 1 - d)))
    by (unfold Qsort.at_; lia).
  rewrite <-at_zero in Hr2, Hp3. set (m2 := vecswap _ _ _ _ _) in *.
  destruct (rec_part m2 base (b - a)) as (m3 & E3 & Ho3 & Hr3); [lia|].
  rewrite (i32_mul n) in E3 by lia. rewrite E3. cbn [mbind option_bind].
  replace (at_ base n - (d - (b - 1)) * size) with (at_ base (n - (d - (b - 1)))) by (unfold Qsort.at_; lia).
  destruct (rec_part m3 (at_ base (n - (d - (b - 1)))) (d - (b - 1))) as (m4 & E4 & Ho4 & Hr4); [lia|].
  rewrite (i32_mul n) in E4 by lia. rewrite E4. exists m4. split; [done|].
  set (j := n - (d - (b - 1))) in *. assert (Ej : d - (b - 1) = n - j) by lia. rewrite Ej in Ho4, Hr4.
  destruct (sort_parts m2 m3 m4 base n (b - a) j v) as [Ho Hr]; [lia..|done|done|done|done|done|].
  split; [done|]. by eapply rearranged_trans.
Qed.
End Step.

Lemma qsort_run fuel m base n : 0 ≤ n → n * size < 2 ^ 31 → (Z.to_nat n < fuel)%nat →
  ∃ m', qsort size compar fuel m base n = Some m' ∧ ordered m' base 0 n ∧ rearranged base n m m'.
Proof using Hsize Hcompar Hanti Htrans.
  revert m base n. induction fuel as [|fuel IH]; intros m base n Hn Hb Hf; [lia|]. cbn [qsort].
  set (st := SWAPINIT size base). assert (Hst : swaps st) by apply SWAPINIT_swaps.
  assert (Hins : ∀ m1, rearranged base n m m1 → ∃ m', insertion_loop size compar (S (Z.to_nat n)) (S (Z.to_nat n)) st base (at_ base n) m1 (base + size) =
    Some m' ∧ ordered m' base 0 n ∧ rearranged base n m m').
  { intros m1 Hm1. replace (base + size) with (at_ base 1) by (unfold Qsort.at_; lia).
    destruct (insertion_loop_ok (S (Z.to_nat n)) (S (Z.to_nat n)) st base n 1 m1) as (m' & E & Ho & Hr); [done|lia..| |].
    { intros x y Hx Hy. assert (x = y) as -> by lia. apply cmp_refl. }
    exists m'. split_and!; [done|done|by eapply rearranged_trans]. }
  rewrite (w32_mul n n) by lia. change (base + n * size) with (at_ base n).
  destruct (Z.ltb_spec n 7) as [H7|H7]; [apply Hins, rearranged_refl|].
  destruct (choose_ok m base n H7 Hb) as (k & Hk & ->). rewrite (w32_mul n) by lia.
  replace (base + size) with (at_ base 1) in * by (unfold Qsort.at_; lia).
  change (base + (n - 1) * size) with (at_ base (n - 1)).
  replace (swap size st m base (at_ base k)) with (swap size st m (at_ base 0) (at_ base k)) by by rewrite <-at_zero.
  pose proof (swap_rearranged st m base n 0 k Hst ltac:(lia) Hk) as Hr1. set (m1 := swap _ _ _ _ _) in *.
  destruct (partition_loop_ok (Z.to_nat n) st base n 1 1 (n - 1) (n - 1) (arr m1 base 0) 0 m1) as
    (m2 & a & b & d & cnt & -> & Hp & Hr2); [done|apply first_parted; lia|lia|].
  cbn [mbind option_bind pt_mem pa pb pc pd swap_cnt]. pose proof (rearranged_trans _ _ _ _ _ _ Hr1 Hr2) as Hr12.
  destruct (Z.eqb_spec cnt 0); [by apply Hins|].
  destruct (parts_sorted (qsort size compar fuel) n Hb) with (st := st) (base := base) (a := a) (b := b) (d := d)
    (v := arr m1 base 0) (m := m2) as (m3 & E & Ho & Hr); [|done|done|].
  { intros m' base' k' Hk'. apply IH; [lia|nia|lia]. }
  exists m3. split_and!; [exact E|done|by eapply rearranged_trans].
Qed.

Lemma ordered_sorted m base n : ordered m base 0 n → Sorted (λ x y, cmp x y ≤ 0) (elems size m base n).
Proof using.
  intros Ho. apply StronglySorted_Sorted. unfold elems.
  assert (Hs : ∀ k i, 0 ≤ i → (Z.to_nat (n - i) = k)%nat → StronglySorted (λ x y, cmp x y ≤ 0) (arr m base <$> seqZ i (n - i))).
  { induction k as [|k IH]; intros i Hi Hk.
    - rewrite seqZ_nil by lia. constructor.
    - rewrite seqZ_cons, fmap_cons by lia. constructor.
      + replace (Z.succ i) with (i + 1) by lia. replace (Z.pred (n - i)) with (n - (i + 1)) by lia. apply IH; lia.
      + apply Forall_fmap, Forall_forall. intros y Hy. rewrite elem_of_seqZ in Hy. apply Ho; lia. }
  specialize (Hs (Z.to_nat n) 0 ltac:(lia) ltac:(f_equal; lia)). by rewrite Z.sub_0_r in Hs.
Qed.

(** C22. For a comparison function that depends only on the bytes of the two elements and is a total
    preorder, qsort returns for every array below 2^31 bytes and every element size, and leaves the
    same elements in ascending order and all memory outside the array alone. *)
Theorem qsort_correct fuel m base nmemb : 0 ≤ nmemb → nmemb * size < 2 ^ 31 → (Z.to_nat nmemb < fuel)%nat →
  ∃ m', qsort size compar fuel m base nmemb = Some m' ∧
    Sorted (λ x y, cmp x y ≤ 0) (elems size m' base nmemb) ∧ elems size m' base nmemb ≡ₚ elems size m base nmemb ∧
    ∀ x, ¬ base ≤ x < base + nmemb * size → getb m' x = getb m x.
Proof using Hsize Hcompar Hanti Htrans.
  intros Hn Hb Hf. destruct (qsort_run fuel m base nmemb Hn Hb Hf) as (m' & E & Ho & Hp & Hs).
  exists m'. split_and!; [done|by apply ordered_sorted|done|exact Hs].
Qed.
End Sort.

(** ** Eight numbers of four bytes, the lowest first *)

Definition number (e : list Z) : Z := foldr (λ b n, b + 256 * n) 0 e.
Definition by_number (x y : list Z) : Z := number x - number y.
Definition eight : mem := list_to_map (imap (λ i v, (Z.of_nat (4 * i) + 0x100, v)) [7; 3; 9; 1; 7; 0; 200; 3]).

Lemma qsort_correct_witness : ∃ m',
  qsort 4 (λ m a b, by_number (elem 4 m a) (elem 4 m b)) 9 eight 0x100 8 = Some m' ∧
  Sorted (λ x y, by_number x y ≤ 0) (elems 4 m' 0x100 8) ∧ elems 4 m' 0x100 8 ≡ₚ elems 4 eight 0x100 8 ∧
  ∀ x, ¬ 0x100 ≤ x < 0x100 + 8 * 4 → getb m' x = getb eight x.
Proof.
  apply (qsort_correct 4 ltac:(lia) (λ m a b, by_number (elem 4 m a) (elem 4 m b)) by_number); unfold by_number;
    [done|lia|lia|lia|lia|lia].
Defined.

Example eight_sorted :
  (λ m, number <$> elems 4 m 0x100 8) <$> qsort 4 (λ m a b, by_number (elem 4 m a) (elem 4 m b)) 9 eight 0x100 8 =
  Some [0; 1; 3; 3; 7; 7; 9; 200].
Proof. vm_compute. reflexivity. Qed.
