(* ===== verification/Crc32.v ===== *)
(** CRC-32: lib/misc/lib_crc32.c, against the division by the polynomial bit by
    bit, and the errors it detects. *)

From stdpp Require Import base numbers gmap sorting list.
From S2P Require Import Prelude Memory.

Definition crc32_tab : list Z :=
  [0x00000000; 0x77073096; 0xee0e612c; 0x990951ba; 0x076dc419; 0x706af48f; 0xe963a535; 0x9e6495a3;
   0x0edb8832; 0x79dcb8a4; 0xe0d5e91e; 0x97d2d988; 0x09b64c2b; 0x7eb17cbd; 0xe7b82d07; 0x90bf1d91;
   0x1db71064; 0x6ab020f2; 0xf3b97148; 0x84be41de; 0x1adad47d; 0x6ddde4eb; 0xf4d4b551; 0x83d385c7;
   0x136c9856; 0x646ba8c0; 0xfd62f97a; 0x8a65c9ec; 0x14015c4f; 0x63066cd9; 0xfa0f3d63; 0x8d080df5;
   0x3b6e20c8; 0x4c69105e; 0xd56041e4; 0xa2677172; 0x3c03e4d1; 0x4b04d447; 0xd20d85fd; 0xa50ab56b;
   0x35b5a8fa; 0x42b2986c; 0xdbbbc9d6; 0xacbcf940; 0x32d86ce3; 0x45df5c75; 0xdcd60dcf; 0xabd13d59;
   0x26d930ac; 0x51de003a; 0xc8d75180; 0xbfd06116; 0x21b4f4b5; 0x56b3c423; 0xcfba9599; 0xb8bda50f;
   0x2802b89e; 0x5f058808; 0xc60cd9b2; 0xb10be924; 0x2f6f7c87; 0x58684c11; 0xc1611dab; 0xb6662d3d;
   0x76dc4190; 0x01db7106; 0x98d220bc; 0xefd5102a; 0x71b18589; 0x06b6b51f; 0x9fbfe4a5; 0xe8b8d433;
   0x7807c9a2; 0x0f00f934; 0x9609a88e; 0xe10e9818; 0x7f6a0dbb; 0x086d3d2d; 0x91646c97; 0xe6635c01;
   0x6b6b51f4; 0x1c6c6162; 0x856530d8; 0xf262004e; 0x6c0695ed; 0x1b01a57b; 0x8208f4c1; 0xf50fc457;
   0x65b0d9c6; 0x12b7e950; 0x8bbeb8ea; 0xfcb9887c; 0x62dd1ddf; 0x15da2d49; 0x8cd37cf3; 0xfbd44c65;
   0x4db26158; 0x3ab551ce; 0xa3bc0074; 0xd4bb30e2; 0x4adfa541; 0x3dd895d7; 0xa4d1c46d; 0xd3d6f4fb;
   0x4369e96a; 0x346ed9fc; 0xad678846; 0xda60b8d0; 0x44042d73; 0x33031de5; 0xaa0a4c5f; 0xdd0d7cc9;
   0x5005713c; 0x270241aa; 0xbe0b1010; 0xc90c2086; 0x5768b525; 0x206f85b3; 0xb966d409; 0xce61e49f;
   0x5edef90e; 0x29d9c998; 0xb0d09822; 0xc7d7a8b4; 0x59b33d17; 0x2eb40d81; 0xb7bd5c3b; 0xc0ba6cad;
   0xedb88320; 0x9abfb3b6; 0x03b6e20c; 0x74b1d29a; 0xead54739; 0x9dd277af; 0x04db2615; 0x73dc1683;
   0xe3630b12; 0x94643b84; 0x0d6d6a3e; 0x7a6a5aa8; 0xe40ecf0b; 0x9309ff9d; 0x0a00ae27; 0x7d079eb1;
   0xf00f9344; 0x8708a3d2; 0x1e01f268; 0x6906c2fe; 0xf762575d; 0x806567cb; 0x196c3671; 0x6e6b06e7;
   0xfed41b76; 0x89d32be0; 0x10da7a5a; 0x67dd4acc; 0xf9b9df6f; 0x8ebeeff9; 0x17b7be43; 0x60b08ed5;
   0xd6d6a3e8; 0xa1d1937e; 0x38d8c2c4; 0x4fdff252; 0xd1bb67f1; 0xa6bc5767; 0x3fb506dd; 0x48b2364b;
   0xd80d2bda; 0xaf0a1b4c; 0x36034af6; 0x41047a60; 0xdf60efc3; 0xa867df55; 0x316e8eef; 0x4669be79;
   0xcb61b38c; 0xbc66831a; 0x256fd2a0; 0x5268e236; 0xcc0c7795; 0xbb0b4703; 0x220216b9; 0x5505262f;
   0xc5ba3bbe; 0xb2bd0b28; 0x2bb45a92; 0x5cb36a04; 0xc2d7ffa7; 0xb5d0cf31; 0x2cd99e8b; 0x5bdeae1d;
   0x9b64c2b0; 0xec63f226; 0x756aa39c; 0x026d930a; 0x9c0906a9; 0xeb0e363f; 0x72076785; 0x05005713;
   0x95bf4a82; 0xe2b87a14; 0x7bb12bae; 0x0cb61b38; 0x92d28e9b; 0xe5d5be0d; 0x7cdcefb7; 0x0bdbdf21;
   0x86d3d2d4; 0xf1d4e242; 0x68ddb3f8; 0x1fda836e; 0x81be16cd; 0xf6b9265b; 0x6fb077e1; 0x18b74777;
   0x88085ae6; 0xff0f6a70; 0x66063bca; 0x11010b5c; 0x8f659eff; 0xf862ae69; 0x616bffd3; 0x166ccf45;
   0xa00ae278; 0xd70dd2ee; 0x4e048354; 0x3903b3c2; 0xa7672661; 0xd06016f7; 0x4969474d; 0x3e6e77db;
   0xaed16a4a; 0xd9d65adc; 0x40df0b66; 0x37d83bf0; 0xa9bcae53; 0xdebb9ec5; 0x47b2cf7f; 0x30b5ffe9;
   0xbdbdf21c; 0xcabac28a; 0x53b39330; 0x24b4a3a6; 0xbad03605; 0xcdd70693; 0x54de5729; 0x23d967bf;
   0xb3667a2e; 0xc4614ab8; 0x5d681b02; 0x2a6f2b94; 0xb40bbe37; 0xc30c8ea1; 0x5a05df1b; 0x2d02ef8d].

(** The loop over the [n] bytes from [src] on. *)
Fixpoint crc32_loop (n : nat) (m : mem) (src crc32val : Z) : Z :=
  match n with
  | O => crc32val
  | S n =>
      let i := Z.land (Z.lxor crc32val (getb m src)) 0xff in
      crc32_loop n m (src + 1) (Z.lxor (nth (Z.to_nat i) crc32_tab 0) (Z.shiftr crc32val 8))
  end.

Definition crc32part (m : mem) (src len crc32val : Z) : Z := crc32_loop (Z.to_nat len) m src crc32val.
Definition crc32 (m : mem) (src len : Z) : Z := crc32part m src len 0.

(** ** The reference: one bit at a time

    The register holds the remainder with the coefficient of the highest power in
    bit 0; 0xedb88320 is the polynomial x^32 + x^26 + x^23 + x^22 + x^16 + x^12 +
    x^11 + x^10 + x^8 + x^7 + x^5 + x^4 + x^2 + x + 1 in that order, without its
    first term.  Shifting multiplies by x. *)

Definition POLY : Z := 0xedb88320.
Definition shift (c : Z) : Z := Z.lxor (Z.shiftr c 1) (if Z.testbit c 0 then POLY else 0).
Definition feed (c : Z) (b : bool) : Z := shift (Z.lxor c (Z.b2z b)).
Definition crc_bits (c : Z) (bs : list bool) : Z := foldl feed c bs.

(** The bits of bytes in the order in which they are sent: the lowest first. *)
Definition byte_bits (b : Z) : list bool := Z.testbit b <$> seqZ 0 8.
Definition bits (l : list Z) : list bool := l ≫= byte_bits.
Definition bytes_at (m : mem) (src len : Z) : list Z := (λ i, getb m (src + i)) <$> seqZ 0 len.

(** ** Shifting is linear and loses nothing *)

Lemma lxor_range n a b : 0 ≤ n → 0 ≤ a < 2 ^ n → 0 ≤ b < 2 ^ n → 0 ≤ Z.lxor a b < 2 ^ n.
Proof.
  intros Hn Ha Hb. assert (H0 : 0 ≤ Z.lxor a b) by (apply Z.lxor_nonneg; lia).
  split; [done|]. destruct (Z.eq_dec (Z.lxor a b) 0) as [E|]; [lia|]. apply Z.log2_lt_pow2; [lia|].
  pose proof (Z.log2_lxor a b ltac:(lia) ltac:(lia)).
  assert (Hlog : ∀ x, 0 ≤ x < 2 ^ n → Z.log2 x < n ∨ x = 0 ∧ Z.log2 x = 0).
  { intros x Hx. destruct (Z.eq_dec x 0) as [->|]; [by right|]. left. apply Z.log2_lt_pow2; lia. }
  assert (n ≠ 0) by (intros ->; change (2 ^ 0) with 1 in *; assert (a = 0) as -> by lia; assert (b = 0) as -> by lia; done).
  destruct (Hlog a Ha), (Hlog b Hb); lia.
Qed.

Lemma shift_lxor x y : shift (Z.lxor x y) = Z.lxor (shift x) (shift y).
Proof.
  unfold shift. rewrite Z.shiftr_lxor, Z.lxor_spec.
  set (a := Z.shiftr x 1). set (b := Z.shiftr y 1).
  destruct (Z.testbit x 0), (Z.testbit y 0); cbn [xorb]; apply Z.bits_inj'; intros n _; rewrite ?Z.lxor_spec, ?Z.bits_0;
    by destruct (Z.testbit a n), (Z.testbit b n), (Z.testbit POLY n).
Qed.

Lemma shift_range c : 0 ≤ c < 2 ^ 32 → 0 ≤ shift c < 2 ^ 32.
Proof.
  intros Hc. apply lxor_range; [done| |destruct (Z.testbit c 0); by vm_compute].
  rewrite Z.shiftr_div_pow2 by done. Z.div_mod_to_equations. lia.
Qed.

Lemma shift_zero c : 0 ≤ c < 2 ^ 32 → shift c = 0 → c = 0.
Proof.
  intros Hc E. unfold shift in E. apply Z.lxor_eq in E. rewrite Z.shiftr_div_pow2 in E by done.
  rewrite Z.bit0_odd in E. pose proof (Z.div_mod c (2 ^ 1)) as Hd. rewrite <-Z.bit0_mod, Z.bit0_odd in Hd.
  destruct (Z.odd c); cbn [Z.b2z] in *; unfold POLY in *; lia.
Qed.

(** A shift without a bit to drop. *)
Lemma shift_even h : shift (Z.shiftl h 1) = h.
Proof.
  unfold shift. rewrite Z.shiftl_spec, Z.testbit_neg_r, Z.lxor_0_r by lia.
  rewrite Z.shiftr_shiftl_l by done. by rewrite Z.shiftl_0_r.
Qed.

Fixpoint shifts (n : nat) (c : Z) : Z := match n with O => c | S n => shifts n (shift c) end.

Lemma shifts_lxor n x y : shifts n (Z.lxor x y) = Z.lxor (shifts n x) (shifts n y).
Proof. revert x y. induction n as [|n IH]; intros x y; [done|]. cbn [shifts]. by rewrite shift_lxor, IH. Qed.

Lemma shifts_high n h : shifts n (Z.shiftl h (Z.of_nat n)) = h.
Proof.
  induction n as [|n IH]; [apply Z.shiftl_0_r|]. cbn [shifts].
  replace (Z.of_nat (S n)) with (Z.of_nat n + 1) by lia. rewrite <-Z.shiftl_shiftl by lia. by rewrite shift_even.
Qed.

Lemma shifts_range n c : 0 ≤ c < 2 ^ 32 → 0 ≤ shifts n c < 2 ^ 32.
Proof. revert c. induction n as [|n IH]; intros c Hc; [done|]. by apply IH, shift_range. Qed.

Lemma shifts_zero n c : 0 ≤ c < 2 ^ 32 → shifts n c = 0 → c = 0.
Proof.
  revert c. induction n as [|n IH]; intros c Hc E; [done|]. apply shift_zero, IH; [done|by apply shift_range|done].
Qed.

(** ** The table *)

Lemma crc32_tab_ok i : 0 ≤ i < 256 → nth (Z.to_nat i) crc32_tab 0 = shifts 8 i.
Proof.
  intros Hi. assert (Ht : forallb (λ i, nth (Z.to_nat i) crc32_tab 0 =? shifts 8 i) (seqZ 0 256) = true) by by vm_compute.
  rewrite forallb_forall in Ht. apply Z.eqb_eq, Ht. apply list_elem_of_In, elem_of_seqZ. lia.
Qed.

(** Eight shifts at once. *)
Lemma shifts_byte c : shifts 8 c = Z.lxor (nth (Z.to_nat (Z.land c 0xff)) crc32_tab 0) (Z.shiftr c 8).
Proof.
  assert (E : c = Z.lxor (Z.land c 0xff) (Z.shiftl (Z.shiftr c 8) 8)).
  { apply Z.bits_inj'. intros n Hn. rewrite Z.lxor_spec, Z.land_spec, Z.shiftl_spec by done.
    change 0xff with (Z.ones 8). destruct (Z.ltb_spec n 8).
    - rewrite Z.ones_spec_low, (Z.testbit_neg_r _ (n - 8)), andb_true_r, xorb_false_r by lia. done.
    - rewrite Z.ones_spec_high, andb_false_r, xorb_false_l, Z.shiftr_spec by lia. f_equal. lia. }
  rewrite E at 1. rewrite shifts_lxor. f_equal; [|apply (shifts_high 8)]. symmetry. apply crc32_tab_ok.
  change 0xff with (Z.ones 8). rewrite Z.land_ones by done. apply Z.mod_pos_bound. lia.
Qed.

(** ** Bits *)

Definition word_bits (n : nat) (w : Z) : list bool := Z.testbit w <$> seqZ 0 (Z.of_nat n).

Lemma word_bits_cons n w : word_bits (S n) w = Z.testbit w 0 :: word_bits n (Z.shiftr w 1).
Proof.
  unfold word_bits. rewrite seqZ_cons, fmap_cons by lia. f_equal.
  replace (Z.pred (Z.of_nat (S n))) with (Z.of_nat n) by lia. change (Z.succ 0) with (0 + 1). rewrite Z.add_comm.
  rewrite <-fmap_add_seqZ, <-list_fmap_compose. apply list_fmap_ext. intros _ i Hi%list_elem_of_lookup_2.
  rewrite elem_of_seqZ in Hi. unfold compose. rewrite Z.shiftr_spec by lia. f_equal. lia.
Qed.

Lemma crc_bits_app c l1 l2 : crc_bits c (l1 ++ l2) = crc_bits (crc_bits c l1) l2.
Proof. apply foldl_app. Qed.

(** Feeding the bits of a word is shifting it in at once. *)
Lemma crc_word n c w : 0 ≤ w < 2 ^ Z.of_nat n → crc_bits c (word_bits n w) = shifts n (Z.lxor c w).
Proof.
  revert c w. induction n as [|n IH]; intros c w Hw.
  { assert (w = 0) as -> by (change (2 ^ Z.of_nat 0) with 1 in Hw; lia). by rewrite Z.lxor_0_r. }
  rewrite word_bits_cons. cbn [crc_bits foldl shifts]. fold (crc_bits (feed c (Z.testbit w 0)) (word_bits n (Z.shiftr w 1))).
  assert (Ew : w = Z.lxor (Z.b2z (Z.testbit w 0)) (Z.shiftl (Z.shiftr w 1) 1)).
  { apply Z.bits_inj'. intros i Hi. rewrite Z.lxor_spec, Z.shiftl_spec by done. destruct (Z.eq_dec i 0) as [->|].
    - rewrite (Z.testbit_neg_r _ (0 - 1)), xorb_false_r by lia. symmetry. apply Z.b2z_bit0.
    - rewrite Z.shiftr_spec by lia. replace (i - 1 + 1) with i by lia.
      by destruct (Z.testbit w 0), i; cbn; rewrite ?xorb_false_l. }
  rewrite IH.
  - unfold feed. rewrite Ew at 3. by rewrite <-Z.lxor_assoc, (shift_lxor (Z.lxor c _)), shift_even.
  - rewrite Z.shiftr_div_pow2 by done. rewrite Nat2Z.inj_succ, Z.pow_succ_r in Hw by lia.
    change (2 ^ 1) with 2. Z.div_mod_to_equations. lia.
Qed.

(** ** The loop *)

Lemma crc_byte c b : 0 ≤ b < 256 → crc_bits c (byte_bits b) =
  Z.lxor (nth (Z.to_nat (Z.land (Z.lxor c b) 0xff)) crc32_tab 0) (Z.shiftr c 8).
Proof.
  intros Hb. change (byte_bits b) with (word_bits 8 b). rewrite crc_word, shifts_byte by done.
  f_equal. rewrite Z.shiftr_lxor. rewrite (Z.shiftr_div_pow2 b), Z.div_small, Z.lxor_0_r by done. done.
Qed.

Lemma crc32_loop_ok n m src c : crc32_loop n m src c = crc_bits c (bits ((λ i, getb m (src + i)) <$> seqZ 0 (Z.of_nat n))).
Proof.
  revert src c. induction n as [|n IH]; intros src c; [done|]. cbn [crc32_loop].
  rewrite seqZ_cons, fmap_cons by lia. cbn [bits mbind list_bind]. rewrite crc_bits_app, crc_byte by apply getb_range.
  rewrite Z.add_0_r, IH. do 2 f_equal. replace (Z.pred (Z.of_nat (S n))) with (Z.of_nat n) by lia.
  replace (seqZ (Z.succ 0) (Z.of_nat n)) with (Z.add 1 <$> seqZ 0 (Z.of_nat n)) by by rewrite fmap_add_seqZ.
  rewrite <-list_fmap_compose. apply list_fmap_ext. intros _ i _. unfold compose. f_equal. lia.
Qed.

(** crc32part with its table of 256 entries computes the remainder that dividing the message by
    the polynomial one bit at a time gives. *)
Theorem crc32part_correct m src len crc32val : 0 ≤ len →
  crc32part m src len crc32val = crc_bits crc32val (bits (bytes_at m src len)).
Proof. intros Hl. unfold crc32part. rewrite crc32_loop_ok, Z2Nat.id by done. done. Qed.

(** ** Errors *)

Lemma crc_bits_xor c1 c2 l1 l2 : length l1 = length l2 →
  crc_bits (Z.lxor c1 c2) (zip_with xorb l1 l2) = Z.lxor (crc_bits c1 l1) (crc_bits c2 l2).
Proof.
  revert c1 c2 l2. induction l1 as [|b1 l1 IH]; intros c1 c2 [|b2 l2] Hl; try done.
  cbn [crc_bits foldl zip_with]. injection Hl as Hl. specialize (IH (feed c1 b1) (feed c2 b2) l2 Hl).
  unfold crc_bits in *. rewrite <-IH. f_equal. unfold feed. rewrite <-shift_lxor. f_equal.
  apply Z.bits_inj'. intros n _. rewrite !Z.lxor_spec. destruct b1, b2; cbn [xorb Z.b2z]; rewrite ?Z.bits_0;
    destruct (Z.testbit c1 n), (Z.testbit c2 n), (Z.testbit 1 n); done.
Qed.

Lemma crc_false n c : crc_bits c (replicate n false) = shifts n c.
Proof.
  revert c. induction n as [|n IH]; intros c; [done|]. cbn [replicate crc_bits foldl shifts].
  fold (crc_bits (feed c false) (replicate n false)). rewrite IH. unfold feed. by rewrite Z.lxor_0_r.
Qed.

Lemma shifts_0 n : shifts n 0 = 0.
Proof. by induction n. Qed.

(** The number whose bits are [l]. *)
Definition word (l : list bool) : Z := foldr (λ b n, Z.b2z b + 2 * n) 0 l.

Lemma word_range l : 0 ≤ word l < 2 ^ Z.of_nat (length l).
Proof.
  induction l as [|b l IH]; [done|]. cbn [word foldr length]. rewrite Nat2Z.inj_succ, Z.pow_succ_r by lia.
  fold (word l). destruct b; cbn [Z.b2z]; lia.
Qed.

Lemma word_bits_word l : word_bits (length l) (word l) = l.
Proof.
  induction l as [|b l IH]; [done|]. cbn [length]. rewrite word_bits_cons. cbn [word foldr]. fold (word l).
  rewrite Z.shiftr_div_pow2 by done. change (2 ^ 1) with 2.
  replace (Z.b2z b + 2 * word l) with (word l * 2 + Z.b2z b) by lia. rewrite Z.div_add_l by done.
  replace (Z.b2z b / 2) with 0 by by destruct b. rewrite Z.add_0_r, IH. f_equal.
  rewrite Z.bit0_odd, Z.mul_comm. by destruct b; rewrite Z.odd_add_mul_2 || rewrite Z.add_comm, Z.odd_add_mul_2.
Qed.

Lemma crc_burst l : (length l ≤ 32)%nat → crc_bits 0 l = 0 → l = replicate (length l) false.
Proof.
  intros Hl E. rewrite <-(word_bits_word l) in E. rewrite crc_word, Z.lxor_0_l in E by apply word_range.
  pose proof (word_range l) as Hw. apply shifts_zero in E.
  - rewrite <-(word_bits_word l) at 1. rewrite E. unfold word_bits. clear. apply list_eq. intros i.
    rewrite list_lookup_fmap. destruct (decide (i < length l)%nat).
    + rewrite lookup_seqZ_lt, lookup_replicate_2 by lia. cbn. by rewrite Z.bits_0.
    + rewrite lookup_seqZ_ge by lia. symmetry. by apply lookup_ge_None_2; rewrite length_replicate; lia.
  - split; [lia|]. eapply Z.lt_le_trans; [apply Hw|]. apply Z.pow_le_mono_r; lia.
Qed.

Lemma all_false l : (∀ i b, l !! i = Some b → b = false) → l = replicate (length l) false.
Proof.
  intros Hl. symmetry. apply replicate_as_Forall. split; [done|]. apply Forall_forall. intros b Hb.
  apply list_elem_of_lookup in Hb as [i Hi]. symmetry. by eapply Hl.
Qed.

(** No error within 32 bits divides away. *)
Lemma crc_window l k : (∀ i b, l !! i = Some b → (i < k ∨ k + 32 ≤ i)%nat → b = false) → crc_bits 0 l = 0 →
  ∀ i b, l !! i = Some b → b = false.
Proof.
  intros Hl E. assert (El : l = take k l ++ take 32 (drop k l) ++ drop 32 (drop k l)) by by rewrite !take_drop.
  assert (E1 : take k l = replicate (length (take k l)) false).
  { apply all_false. intros i b Hi. apply lookup_take_Some in Hi as [Hi ?]. eapply Hl; [done|lia]. }
  assert (E3 : drop 32 (drop k l) = replicate (length (drop 32 (drop k l))) false).
  { apply all_false. intros i b Hi. rewrite !lookup_drop in Hi. eapply Hl; [done|lia]. }
  set (w := take 32 (drop k l)) in *. assert (Hw : (length w ≤ 32)%nat) by (unfold w; rewrite length_take; lia).
  assert (E2 : w = replicate (length w) false).
  { rewrite El, !crc_bits_app, E1, crc_false, shifts_0, E3, crc_false in E. apply crc_burst; [done|].
    eapply shifts_zero; [|exact E]. rewrite <-(word_bits_word w), crc_word, Z.lxor_0_l by apply word_range.
    apply shifts_range. pose proof (word_range w) as Hr. split; [lia|]. eapply Z.lt_le_trans; [apply Hr|]. apply Z.pow_le_mono_r; lia. }
  intros i b Hi. rewrite El, E1, E2, E3 in Hi. apply list_elem_of_lookup_2 in Hi.
  rewrite !elem_of_app, !elem_of_replicate in Hi. tauto.
Qed.

Lemma byte_bits_inj b1 b2 : 0 ≤ b1 < 256 → 0 ≤ b2 < 256 → byte_bits b1 = byte_bits b2 → b1 = b2.
Proof.
  intros H1 H2 E. apply Z.bits_inj'. intros i Hi. destruct (Z.ltb_spec i 8).
  - apply (f_equal (λ l, l !! Z.to_nat i)) in E. unfold byte_bits in E. rewrite !list_lookup_fmap in E.
    rewrite lookup_seqZ_lt in E by lia. cbn in E. injection E as E. by rewrite Z2Nat.id in E.
  - rewrite <-(Z.mod_small b1 (2 ^ 8)), <-(Z.mod_small b2 (2 ^ 8)) by done. by rewrite !Z.mod_pow2_bits_high by lia.
Qed.

Lemma bits_inj l1 l2 : Forall (λ b, 0 ≤ b < 256) l1 → Forall (λ b, 0 ≤ b < 256) l2 → bits l1 = bits l2 → l1 = l2.
Proof.
  intros H1. revert l2. induction H1 as [|b1 l1 Hb1 H1 IH]; intros l2 H2 E.
  - destruct l2; [done|]. by apply (f_equal length) in E.
  - destruct H2 as [|b2 l2 Hb2 H2]; [by apply (f_equal length) in E|].
    cbn [bits mbind list_bind] in E. apply app_inj_1 in E as [Eb El]; [|done].
    f_equal; [by apply byte_bits_inj|by apply IH].
Qed.

Lemma length_bits l : length (bits l) = (8 * length l)%nat.
Proof.
  induction l as [|b l IH]; [done|]. change (bits (b :: l)) with (byte_bits b ++ bits l).
  rewrite length_app, IH. change (length (byte_bits b)) with 8%nat. cbn [length]. lia.
Qed.

Lemma bytes_at_range m src len : Forall (λ b, 0 ≤ b < 256) (bytes_at m src len).
Proof. apply Forall_fmap, Forall_forall. intros i _. apply getb_range. Qed.

(** C35. crc32part gives different results for two different messages of the same length that differ
    only within 32 consecutive bits. *)
Theorem crc32_detects_bursts m1 m2 src len crc32val k : 0 ≤ len →
  (∀ i, (i < k ∨ k + 32 ≤ i)%nat → bits (bytes_at m1 src len) !! i = bits (bytes_at m2 src len) !! i) →
  bytes_at m1 src len ≠ bytes_at m2 src len →
  crc32part m1 src len crc32val ≠ crc32part m2 src len crc32val.
Proof.
  intros Hl Hsame Hne E. unfold crc32part in E. rewrite !crc32_loop_ok, Z2Nat.id in E by done.
  fold (bytes_at m1 src len) (bytes_at m2 src len) in E. apply Hne, bits_inj; [apply bytes_at_range..|].
  set (b1 := bits (bytes_at m1 src len)) in *. set (b2 := bits (bytes_at m2 src len)) in *.
  assert (Hlen : length b1 = length b2) by (unfold b1, b2, bytes_at; by rewrite !length_bits, !length_fmap).
  pose proof (crc_bits_xor crc32val crc32val b1 b2 Hlen) as Hx. rewrite E, !Z.lxor_nilpotent in Hx.
  assert (Hw : ∀ i b, zip_with xorb b1 b2 !! i = Some b → b = false).
  { apply (crc_window _ k); [|done]. intros i b (x & y & -> & H1 & H2)%lookup_zip_with_Some Hi.
    rewrite Hsame, H2 in H1 by done. injection H1 as ->. by destruct x. }
  apply list_eq_same_length with (length b1); [done..|]. intros i x y _ H1 H2.
  specialize (Hw i (xorb x y)). rewrite lookup_zip_with, H1, H2 in Hw. by apply xorb_eq, Hw.
Qed.

(** "1234" with one letter changed. *)
Definition text (l : list Z) : mem := list_to_map (imap (λ i v, (Z.of_nat i + 0x100, v)) l).

Lemma crc32part_correct_witness :
  crc32part (text [49; 50; 51; 52]) 0x100 4 0 = crc_bits 0 (bits [49; 50; 51; 52]) ∧ crc_bits 0 (bits [49; 50; 51; 52]) = 0xbaa73fbf.
Proof. split; [exact (crc32part_correct (text [49; 50; 51; 52]) 0x100 4 0 ltac:(lia))|vm_compute; reflexivity]. Defined.

Lemma crc32_detects_bursts_witness :
  crc32part (text [49; 50; 51; 52]) 0x100 4 0 ≠ crc32part (text [49; 55; 51; 52]) 0x100 4 0.
Proof.
  apply (crc32_detects_bursts (text [49; 50; 51; 52]) (text [49; 55; 51; 52]) 0x100 4 0 8); [lia| |by vm_compute].
  intros i Hi. change (bits (bytes_at (text [49; 50; 51; 52]) 0x100 4)) with (bits [49; 50; 51; 52]).
  change (bits (bytes_at (text [49; 55; 51; 52]) 0x100 4)) with (bits [49; 55; 51; 52]).
  do 40 (destruct i as [|i]; [first [reflexivity|exfalso; lia]|]). reflexivity.
Defined.
