(* ===== verification/Cond.v ===== *)
(** Condition variables and barriers: sched/pthread_condinit.c, pthread_condwait.c,
    pthread_condsignal.c, pthread_condbroadcast.c, pthread_conddestroy.c,
    pthread_barrierinit.c, pthread_barrierwait.c and pthread_barrierdestroy.c.

    A [pthread_cond_t] is its semaphore, a [pthread_barrier_t] a semaphore and a
    count.  The processor can be lost inside [pthread_cond_wait] at two
    semaphores and where pre-emption is enabled again, so it has a function for
    what its caller does when it runs again at each of these places. *)

From stdpp Require Import base numbers functions gmap sorting list.
From S2P Require Import Prelude Queue Memory Sched Sem Pid Mutex.

Definition PTHREAD_BARRIER_SERIAL_THREAD : Z := 0x1000.

(** The address of a local variable; only whether it is null matters. *)
Definition local_var : Z := 4.

(** The result of [pthread_givesemaphore] and [pthread_takesemaphore]. *)
Definition status (r : sem_ret) : Z := match r with SemOK => 0 | _ => ERROR end.

(** ** pthread_condinit.c, pthread_conddestroy.c *)

Definition pthread_cond_init (cond : Z) (st : semst) : Z * semst :=
  if cond =? 0 then (EINVAL, st) else
  let '(r, st) := sem_init cond 0 st in
  (match r with SemOK => 0 | _ => EINVAL end, st).

Definition pthread_cond_destroy (cond : Z) (st : semst) : Z * semst :=
  if cond =? 0 then (EINVAL, st) else
  let '(r, st) := sem_destroy cond st in
  (match r with SemOK => 0 | _ => EINVAL end, st).

(** ** pthread_condsignal.c *)

Definition pthread_cond_signal (cond : Z) (st : semst) : option (Z * semst) :=
  if cond =? 0 then Some (EINVAL, st) else
  match sem_getvalue cond local_var st with
  | (SemOK, Some sval, st) =>
      if sval <? 0 then
        '(r, st) ← pthread_givesemaphore cond st;
        Some (status r, st)
      else Some (0, st)
  | (_, _, st) => Some (EINVAL, st)
  end.

(** ** pthread_condbroadcast.c *)

(** [while (sval < 0)], where [sval] is [- n]. *)
Fixpoint broadcast_loop (n : nat) (cond ret : Z) (st : semst) : option (Z * semst) :=
  match n with
  | O => Some (ret, st)
  | S n => '(r, st) ← pthread_givesemaphore cond st; broadcast_loop n cond (status r) st
  end.

Definition pthread_cond_broadcast (cond : Z) (st : semst) : option (Z * semst) :=
  if cond =? 0 then Some (EINVAL, st) else
  s ← sched_lock false (sch st);
  '(ret, st) ← (match sem_getvalue cond local_var (with_sched st s) with
                | (SemOK, Some sval, st) => broadcast_loop (Z.to_nat (- sval)) cond 0 st
                | (_, _, st) => Some (EINVAL, st)
                end);
  s ← sched_unlock false (sch st);
  Some (ret, with_sched st s).

(** ** pthread_condwait.c *)

(** The call is over, or its caller waits for the condition, has enabled
    pre-emption, or waits for the mutex. *)
Inductive cw_ret := CwRet (ret : Z) | CwWaits (ret : Z) | CwUnlocked (ret : Z) | CwLocks (ret : Z).

(** What follows the semaphore of the condition. *)
Definition cond_taken (ret : Z) (r : sem_ret) (st : mxst) : option (cw_ret * mxst) :=
  match r with
  | SemBlocked => Some (CwWaits ret, st)
  | _ => st ← on_sched (sched_unlock false) st; Some (CwUnlocked (Z.lor ret (status r)), st)
  end.

(** What follows the semaphore of the mutex. *)
Definition cond_locked (mutex ret : Z) (r : sem_ret) (st : mxst) : option (cw_ret * mxst) :=
  match r with
  | SemBlocked => Some (CwLocks ret, st)
  | _ =>
      let ret := Z.lor ret (status r) in
      if ret =? 0 then Some (CwRet ret, on_mutex mutex (with_mpid (mx_getpid st)) st) else Some (CwRet ret, st)
  end.

Definition pthread_cond_wait (cond mutex : Z) (st : mxst) : option (cw_ret * mxst) :=
  if (cond =? 0) || (mutex =? 0) then Some (CwRet EINVAL, st) else
  if negb (m_pid (mutex_at st mutex) =? mx_getpid st) then Some (CwRet EPERM, st) else
  st ← on_sched (sched_lock false) st;
  let st := on_mutex mutex (with_mpid 0) st in
  '(r, s) ← pthread_givesemaphore (msem mutex) (mx_sem st);
  let st := with_semst s st in
  let ret := status r in
  '(r, s) ← pthread_takesemaphore cond (mx_sem st);
  cond_taken ret r (with_semst s st).

(** The caller runs again in [pthread_takesemaphore] of the condition. *)
Definition pthread_cond_wait_resume (cond ret : Z) (st : mxst) : option (cw_ret * mxst) :=
  '(r, s) ← pthread_takesemaphore_resume cond (mx_sem st);
  cond_taken ret r (with_semst s st).

(** The caller goes on behind [sched_unlock]. *)
Definition pthread_cond_wait_relock (mutex ret : Z) (st : mxst) : option (cw_ret * mxst) :=
  '(r, s) ← pthread_takesemaphore (msem mutex) (mx_sem st);
  cond_locked mutex ret r (with_semst s st).

(** The caller runs again in [pthread_takesemaphore] of the mutex. *)
Definition pthread_cond_wait_relock_resume (mutex ret : Z) (st : mxst) : option (cw_ret * mxst) :=
  '(r, s) ← pthread_takesemaphore_resume (msem mutex) (mx_sem st);
  cond_locked mutex ret r (with_semst s st).

(** ** Barriers *)

(** The semaphores with the scheduler, and the counts of the barriers. *)
Record barst := mk_bar { b_sem : semst; b_count : gmap Z Z }.
Definition count_at (st : barst) (barrier : Z) : Z := default 0 (b_count st !! barrier).
Definition with_bsem (s : semst) (st : barst) : barst := mk_bar s (b_count st).
Definition bar_sched (f : sched → option sched) (st : barst) : option barst :=
  s ← f (sch (b_sem st)); Some (with_bsem (with_sched (b_sem st) s) st).

Definition pthread_barrier_init (barrier count : Z) (st : barst) : Z * barst :=
  if (barrier =? 0) || (count =? 0) then (EINVAL, st) else
  (0, mk_bar (snd (sem_init barrier 0 (b_sem st))) (<[barrier := w32 count]> (b_count st))).

Definition pthread_barrier_destroy (barrier : Z) (st : barst) : Z * barst :=
  if barrier =? 0 then (EINVAL, st) else
  (0, mk_bar (snd (sem_destroy barrier (b_sem st))) (<[barrier := 0]> (b_count st))).

(** [while (semcount < 0)] *)
Fixpoint release_loop (fuel : nat) (barrier semcount : Z) (st : semst) : option semst :=
  if semcount <? 0 then
    match fuel with
    | O => None
    | S fuel =>
        '(_, st) ← sem_post barrier st;
        let '(_, v, st) := sem_getvalue barrier local_var st in
        release_loop fuel barrier (default semcount v) st
    end
  else Some st.

(** [while (sem_wait(&barrier->sem) != OK)] *)
Fixpoint barrier_wait_loop (fuel : nat) (barrier : Z) (st : barst) : option (mx_ret * barst) :=
  match fuel with
  | O => None
  | S fuel =>
      '(r, s) ← sem_wait barrier (b_sem st);
      let st := with_bsem s st in
      match r with
      | SemBlocked => Some (MxWaits, st)
      | SemOK => st ← bar_sched (sched_unlock false) st; Some (MxRet 0, st)
      | SemERROR =>
          let errornumber := get_errno s in
          if negb (errornumber =? EINTR) then
            st ← bar_sched (sched_unlock false) st; Some (MxRet errornumber, st)
          else barrier_wait_loop fuel barrier st
      end
  end.

Definition pthread_barrier_wait (barrier : Z) (st : barst) : option (mx_ret * barst) :=
  if barrier =? 0 then Some (MxRet EINVAL, st) else
  st ← bar_sched (sched_lock false) st;
  match sem_getvalue barrier local_var (b_sem st) with
  | (SemOK, Some semcount, s) =>
      let st := with_bsem s st in
      if count_at st barrier <=? w32 (1 - semcount) then
        s ← release_loop (Z.to_nat (- semcount)) barrier semcount (b_sem st);
        st ← bar_sched (sched_unlock false) (with_bsem s st);
        Some (MxRet PTHREAD_BARRIER_SERIAL_THREAD, st)
      else barrier_wait_loop 1 barrier st
  | (_, _, s) => st ← bar_sched (sched_unlock false) (with_bsem s st); Some (MxRet EINVAL, st)
  end.

(** The caller runs again in [sem_wait]. *)
Definition pthread_barrier_wait_resume (barrier : Z) (st : barst) : option (mx_ret * barst) :=
  match sem_wait_resume (this_task (sch (b_sem st))) (b_sem st) with
  | SemOK => st ← bar_sched (sched_unlock false) st; Some (MxRet 0, st)
  | _ =>
      let errornumber := get_errno (b_sem st) in
      if negb (errornumber =? EINTR) then
        st ← bar_sched (sched_unlock false) st; Some (MxRet errornumber, st)
      else barrier_wait_loop 1 barrier st
  end.
