(* ===== verification/CondThms.v ===== *)
(** What condition variables and barriers promise: a signal wakes the waiting
    task of the highest priority, a broadcast all of them; a task that waits has
    released its mutex and waits already when another task runs, and comes back
    with the mutex; the last task at a barrier releases the others. *)

From stdpp Require Import base numbers functions gmap sorting list.
From S2P Require Import Prelude Queue Memory Sched SchedInv SchedThms SchedFields Sem SemThms.
From S2P Require Import SemSpec SemView Pid Mutex MutexInv MutexThms MutexSpec Cond.

Implicit Types (s : semst) (L : tasklist → list Z).

(** ** Posting a semaphore until nobody waits *)

(** Everybody who waited for [sem] was woken. *)
Record all_woken (sem : Z) s s' : Prop := {
  aw_count : semcount s' sem = Z.max 0 (semcount s sem);
  aw_others k : k ≠ sem → semcount s' k = semcount s k;
  aw_wsem y : wsem s' y = if decide (wsem s y = sem) then 0 else wsem s y;
  aw_errno y : errno_of s' y = errno_of s y;
  aw_flags y : flags (get (sch s') y) = flags (get (sch s) y) }.

Lemma nobody_waits s L idle sem y : sem_inv s L idle → sem ≠ 0 → 0 ≤ semcount s sem → wsem s y ≠ sem.
Proof. intros Hi Hne Hc E. pose proof (waits_negative s L idle y Hi). rewrite E in *. lia. Qed.

Lemma nobody_woken s L idle sem : sem_inv s L idle → sem ≠ 0 → 0 ≤ semcount s sem → all_woken sem s s.
Proof.
  intros Hi Hne Hc. constructor; [lia|done| |done|done]. intros y. rewrite decide_False; [done|]. by eapply nobody_waits.
Qed.

(** One post, and the rest of them. *)
Lemma woken_step s1 s2 L L1 idle sem : sem_inv s1 L idle → sem ≠ 0 → semcount s1 sem < 0 →
  ∀ s, sem_post sem s1 = Some (SemOK, s) → sem_inv s L1 idle → all_woken sem s s2 →
  point (semcount s1) (semcount s) sem (semcount s1 sem + 1) → (∀ y, errno_of s y = errno_of s1 y) →
  (∀ y, flags (get (sch s) y) = flags (get (sch s1) y)) →
  (∃ x, wsem s1 x = sem ∧ point (wsem s1) (wsem s) x 0) → all_woken sem s1 s2.
Proof.
  intros Hi Hne Hneg s _ _ [A1 A2 A3 A4 A5] Hc He Hf (x & Hx & Hw). constructor.
  - rewrite A1, Hc, decide_True by done. lia.
  - intros k Hk. by rewrite A2, Hc, decide_False.
  - intros y. rewrite A3, Hw. destruct (decide (y = x)) as [->|]; [|done].
    rewrite (decide_True (P := wsem s1 x = sem)) by done. by destruct (decide _).
  - intros y. by rewrite A4.
  - intros y. by rewrite A5.
Qed.

Lemma broadcast_loop_run n cond ret s L idle : sem_inv s L idle → cond ≠ 0 → n = Z.to_nat (- semcount s cond) → ret = 0 →
  ∃ s' L', broadcast_loop n cond ret s = Some (0, s') ∧ sem_inv s' L' idle ∧ all_woken cond s s'.
Proof.
  intros Hi Hne. revert ret s L Hi. induction n as [|n IH]; intros ret s L Hi Hn ->; cbn [broadcast_loop].
  - exists s, L. split_and!; [done|done|]. eapply nobody_woken; [done|done|lia].
  - unfold pthread_givesemaphore. rewrite (proj2 (Z.eqb_neq cond 0)) by done. cbn [negb].
    destruct (sem_post_effect s L idle cond Hi Hne) as (s1 & L1 & E & Hi1 & Hc & He & Hf & Hw); [unfold SEM_VALUE_MAX; lia|].
    rewrite E. cbn [mbind option_bind status].
    destruct (IH 0 s1 L1 Hi1) as (s2 & L2 & -> & Hi2 & Ha); [rewrite Hc, decide_True by done; lia|done|].
    exists s2, L2. split_and!; [done|done|]. rewrite (proj2 (Z.ltb_lt _ _)) in Hw by lia. destruct Hw as (x & _ & Hx & Hw).
    eapply (woken_step s s2 L L1 idle cond); [done|done|lia|done..|]. by exists x.
Qed.

Lemma release_loop_run n sem s L idle : sem_inv s L idle → sem ≠ 0 → n = Z.to_nat (- semcount s sem) →
  ∃ s' L', release_loop n sem (semcount s sem) s = Some s' ∧ sem_inv s' L' idle ∧ all_woken sem s s'.
Proof.
  intros Hi Hne. revert s L Hi. induction n as [|n IH]; intros s L Hi Hn; cbn [release_loop].
  - rewrite (proj2 (Z.ltb_ge _ _)) by lia. exists s, L. split_and!; [done|done|]. eapply nobody_woken; [done|done|lia].
  - rewrite (proj2 (Z.ltb_lt _ _)) by lia.
    destruct (sem_post_effect s L idle sem Hi Hne) as (s1 & L1 & E & Hi1 & Hc & He & Hf & Hw); [unfold SEM_VALUE_MAX; lia|].
    rewrite E. cbn [mbind option_bind]. unfold sem_getvalue. rewrite (proj2 (Z.eqb_neq sem 0)) by done.
    cbn [negb andb local_var Z.eqb default from_option id].
    destruct (IH s1 L1 Hi1) as (s2 & L2 & -> & Hi2 & Ha); [rewrite Hc, decide_True by done; lia|].
    exists s2, L2. split_and!; [done|done|]. rewrite (proj2 (Z.ltb_lt _ _)) in Hw by lia. destruct Hw as (x & _ & Hx & Hw).
    eapply (woken_step s s2 L L1 idle sem); [done|done|lia|done..|]. by exists x.
Qed.

(** Scheduling around such a loop. *)
Lemma woken_view sem s s1 s2 s3 : same_view s s1 → all_woken sem s1 s2 → same_view s2 s3 →
  (∀ y, flags (get (sch s1) y) = flags (get (sch s) y)) → (∀ y, flags (get (sch s3) y) = flags (get (sch s2) y)) →
  all_woken sem s s3.
Proof.
  intros [V1 V2 V3] [A1 A2 A3 A4 A5] [W1 W2 W3] F1 F2. constructor.
  - by rewrite W1, A1, V1.
  - intros k Hk. by rewrite W1, A2, V1.
  - intros y. by rewrite W2, A3, V2.
  - intros y. by rewrite W3, A4, V3.
  - intros y. by rewrite F2, A5, F1.
Qed.

(** ** Signal and broadcast *)

(** A signal wakes the waiting task of the highest priority, and does nothing when nobody waits. *)
Theorem pthread_cond_signal_correct cond s L idle : sem_inv s L idle → cond ≠ 0 →
  ∃ s' L', pthread_cond_signal cond s = Some (0, s') ∧ sem_inv s' L' idle ∧
    if semcount s cond <? 0 then
      ∃ x, wsem s x = cond ∧ (∀ y, wsem s y = cond → prio (tcbs (sch s)) y ≤ prio (tcbs (sch s)) x) ∧
        point (wsem s) (wsem s') x 0 ∧ point (semcount s) (semcount s') cond (semcount s cond + 1)
    else s' = s.
Proof.
  intros Hi Hne. unfold pthread_cond_signal, sem_getvalue. rewrite (proj2 (Z.eqb_neq cond 0)) by done.
  cbn [negb andb local_var Z.eqb]. destruct (Z.ltb_spec (semcount s cond) 0) as [Hneg|Hpos]; [|by exists s, L].
  unfold pthread_givesemaphore. rewrite (proj2 (Z.eqb_neq cond 0)) by done. cbn [negb].
  destruct (sem_post_effect s L idle cond Hi Hne) as (s1 & L1 & E & Hi1 & Hc & _ & _ & Hw); [unfold SEM_VALUE_MAX; lia|].
  rewrite E. cbn [mbind option_bind status]. exists s1, L1. split_and!; [done|done|].
  rewrite (proj2 (Z.ltb_lt _ _)) in Hw by lia. destruct Hw as (x & Hh & Hx & Hw). exists x. split_and!; [done| |done|done].
  pose proof (waiting_highest s L idle cond Hi Hne) as Hmax. destruct (waiting _ _ _) as [|y W]; [done|].
  injection Hh as ->. exact Hmax.
Qed.

(** C17. pthread_cond_broadcast returns 0 and wakes every task that waits for the condition, and no
    other task: afterwards nobody waits, the count is not negative, and the other semaphores, errno
    values and flags are as before. *)
Theorem pthread_cond_broadcast_correct cond s L idle : sem_inv s L idle → cond ≠ 0 →
  locks (tcbs (sch s)) (this_task (sch s)) < MAX_LOCK_COUNT →
  ∃ s' L', pthread_cond_broadcast cond s = Some (0, s') ∧ sem_inv s' L' idle ∧ all_woken cond s s'.
Proof.
  intros Hi Hne Hlk. unfold pthread_cond_broadcast, sem_getvalue. rewrite (proj2 (Z.eqb_neq cond 0)) by done.
  destruct (sem_lock_view s L idle Hi Hlk) as (t & -> & Hi1 & Hv1 & _ & Hco1 & _). cbn [mbind option_bind negb andb local_var Z.eqb].
  destruct (broadcast_loop_run _ cond 0 _ L idle Hi1 Hne eq_refl eq_refl) as (s2 & L2 & -> & Hi2 & Ha). cbn [mbind option_bind].
  destruct (sem_unlock_view s2 L2 idle Hi2) as (t3 & L3 & -> & Hi3 & Hv3 & Hco3). cbn [mbind option_bind].
  eexists _, L3. split_and!; [done|done|]. eapply woken_view; [done..| |]; intros y; by apply (field_core flags).
Qed.

(** ** Barriers *)

Lemma bar_lock_run st L idle : sem_inv (b_sem st) L idle →
  locks (tcbs (sch (b_sem st))) (this_task (sch (b_sem st))) < MAX_LOCK_COUNT →
  ∃ s, bar_sched (sched_lock false) st = Some (with_bsem s st) ∧ sem_inv s L idle ∧ same_view (b_sem st) s ∧
    this_task (sch s) = this_task (sch (b_sem st)) ∧ (∀ y, flags (get (sch s) y) = flags (get (sch (b_sem st)) y)).
Proof.
  intros Hi Hlk. destruct (sem_lock_view _ _ _ Hi Hlk) as (t & E & Hi1 & Hv & Hth & Hco & _).
  exists (with_sched (b_sem st) t). unfold bar_sched. rewrite E. split_and!; try done. intros y. by apply (field_core flags).
Qed.

Lemma bar_unlock_run st L idle : sem_inv (b_sem st) L idle →
  ∃ s L', bar_sched (sched_unlock false) st = Some (with_bsem s st) ∧ sem_inv s L' idle ∧ same_view (b_sem st) s ∧
    (∀ y, flags (get (sch s) y) = flags (get (sch (b_sem st)) y)).
Proof.
  intros Hi. destruct (sem_unlock_view _ _ _ Hi) as (t & L' & E & Hi1 & Hv & Hco).
  exists (with_sched (b_sem st) t), L'. unfold bar_sched. rewrite E. split_and!; try done. intros y. by apply (field_core flags).
Qed.

(** The caller waits for a semaphore that is not available. *)
Lemma barrier_wait_run st L idle barrier : let x := this_task (sch (b_sem st)) in
  sem_inv (b_sem st) L idle → barrier ≠ 0 → x ≠ idle → Z.of_nat (length (L g_waitingforsemaphore)) < ZMAX_WAITERS →
  semcount (b_sem st) barrier ≤ 0 →
  ∃ s L', barrier_wait_loop 1 barrier st = Some (MxWaits, with_bsem s st) ∧ sem_inv s L' idle ∧
    point (wsem (b_sem st)) (wsem s) x barrier ∧
    point (semcount (b_sem st)) (semcount s) barrier (semcount (b_sem st) barrier - 1).
Proof.
  intros x Hi Hne Hid Hlen Hc. destruct (sem_wait_view_len _ L idle barrier Hi Hne Hid Hlen) as (r & s & L' & E & Hi' & Hk & _ & _ & Hr).
  rewrite (proj2 (Z.ltb_ge _ _)) in Hr by done. destruct Hr as (-> & _ & Hw). cbn [barrier_wait_loop]. rewrite E.
  by exists s, L'.
Qed.

(** C18. pthread_barrier_wait, on a barrier whose semaphore is not available, makes its caller,
    which is not the idle task, wait, counted, when the tasks that wait at the semaphore of the
    barrier and the caller are fewer than the count of the barrier; otherwise it returns
    PTHREAD_BARRIER_SERIAL_THREAD and wakes all that wait, which leaves the barrier as it was
    initialized. A task that a POSIX signal took out of its wait is not counted until it waits again
    (a finding). *)
Theorem pthread_barrier_wait_correct barrier st L idle :
  let s := b_sem st in let x := this_task (sch s) in
  sem_inv s L idle → barrier ≠ 0 → x ≠ idle → Z.of_nat (sched_fuel (sch s)) < ZMAX_WAITERS →
  locks (tcbs (sch s)) x < MAX_LOCK_COUNT → semcount s barrier ≤ 0 →
  ∃ r st' L', pthread_barrier_wait barrier st = Some (r, st') ∧ sem_inv (b_sem st') L' idle ∧ b_count st' = b_count st ∧
    if count_at st barrier <=? 1 - semcount s barrier then
      r = MxRet PTHREAD_BARRIER_SERIAL_THREAD ∧ all_woken barrier s (b_sem st')
    else
      r = MxWaits ∧ point (wsem s) (wsem (b_sem st')) x barrier ∧
      point (semcount s) (semcount (b_sem st')) barrier (semcount s barrier - 1).
Proof.
  intros s x Hi Hne Hid Hf Hlk Hc. pose proof (waiting_few _ _ _ Hi Hf) as Hlen.
  pose proof (waiting_length _ _ _ _ Hi Hne Hlen) as Hlow. unfold ZMAX_WAITERS in Hlow.
  unfold pthread_barrier_wait. rewrite (proj2 (Z.eqb_neq barrier 0)) by done.
  destruct (bar_lock_run st L idle Hi Hlk) as (s1 & -> & Hi1 & Hv1 & Hth1 & Hf1). cbn [mbind option_bind].
  unfold sem_getvalue. rewrite (proj2 (Z.eqb_neq barrier 0)) by done. cbn [negb andb local_var Z.eqb].
  change (b_sem (with_bsem s1 st)) with s1. change (with_bsem s1 (with_bsem s1 st)) with (with_bsem s1 st).
  change (count_at (with_bsem s1 st) barrier) with (count_at st barrier).
  rewrite (sv_sems _ _ Hv1). fold s. rewrite w32_small by lia. destruct (count_at st barrier <=? 1 - semcount s barrier).
  - destruct (release_loop_run (Z.to_nat (- semcount s barrier)) barrier s1 L idle Hi1 Hne) as (s2 & L2 & E & Hi2 & Ha).
    { by rewrite (sv_sems _ _ Hv1). }
    rewrite (sv_sems _ _ Hv1) in E. fold s in E. change (b_sem (with_bsem s1 st)) with s1. rewrite E. cbn [mbind option_bind].
    destruct (bar_unlock_run (with_bsem s2 (with_bsem s1 st)) L2 idle Hi2) as (s3 & L3 & -> & Hi3 & Hv3 & Hf3).
    eexists _, _, L3. split; [reflexivity|]. split_and!; [exact Hi3|done|done|]. by eapply woken_view.
  - destruct (barrier_wait_run (with_bsem s1 st) L idle barrier Hi1 Hne) as (s2 & L2 & -> & Hi2 & Hw & Hk).
    { cbn. by rewrite Hth1. } { exact Hlen. } { cbn. by rewrite (sv_sems _ _ Hv1). }
    eexists _, _, L2. split; [reflexivity|]. cbn [b_sem with_bsem] in Hw, Hk. split; [exact Hi2|]. split; [done|]. split; [done|]. split.
    + intros y. rewrite Hw, Hth1. subst s x. case_decide; [done|apply Hv1].
    + intros k. rewrite Hk, !(sv_sems _ _ Hv1). done.
Qed.

(** Waiting for a condition: the mutex is released and the caller waits in one
    step, and the call ends with the mutex. *)

Section Wait.
Context (mutex_types : bool).
Implicit Types (st : mxst) (I : gmap Z Z) (H : Z * Z → nat) (o : Z → token).
#[local] Notation mx_inv := (mx_inv mutex_types).
#[local] Notation recursive := (recursive mutex_types).

Lemma on_mutex_eq st m e f : mutexes st !! m = Some e →
  on_mutex m f st = mk_mx (mx_sem st) (mx_pids st) (<[m := f e]> (mutexes st)).
Proof. intros Hm. unfold on_mutex, mutex_at. by rewrite Hm. Qed.

(** [sched_lock] leaves the count of locks positive. *)
Lemma lock_locks (s t : sched) L idle : sched_inv s L idle → locks (tcbs s) (this_task s) < MAX_LOCK_COUNT →
  sched_lock false s = Some t → 0 < locks (tcbs t) (this_task t).
Proof.
  intros Hi Hm E. destruct (sched_lock_abs s L idle false Hi Hm) as (t' & E' & _ & _ & Hl). rewrite E in E'.
  injection E' as <-. by apply Hl.
Qed.

(** The holder, who has disabled pre-emption, gives a mutex to the first task that waits for it. *)
Lemma give_mutex st I H L idle o m e x : mx_inv (mk_cfg st I H) L idle o → mutexes st !! m = Some e → o m = Held x →
  0 < locks (tcbs (mx_sched st)) (this_task (mx_sched st)) →
  ∃ s L', pthread_givesemaphore (msem m) (mx_sem st) = Some (SemOK, s) ∧
    this_task (sch s) = this_task (mx_sched st) ∧
    (length (L' g_waitingforsemaphore) ≤ length (L g_waitingforsemaphore))%nat ∧
    (∀ k, k ≠ msem m → semcount s k = semcount (mx_sem st) k) ∧
    mx_inv (mk_cfg (mk_mx s (mx_pids st) (<[m := with_mpid 0 e]> (mutexes st))) I (<[(x, m) := 0%nat]> H)) L' idle
      (<[m := default Free (Granted <$> head (waiting (tcbs (mx_sched st)) L (msem m)))]> o).
Proof.
  intros Hi Hm Ho Hl. pose proof Hi as [Hs _ _ Ht]. cbn [c_st c_in c_held] in Hs, Ht.
  assert (Hm0 : 0 < m) by (apply (ti_addr _ _ _ _ _ _ _ Ht); by eexists). assert (Hne : msem m ≠ 0) by (unfold msem; lia).
  pose proof (ti_tok _ _ _ _ _ _ _ Ht m e Hm) as Hok. rewrite Ho in Hok. destruct Hok as (Hc0 & _).
  unfold pthread_givesemaphore. rewrite (proj2 (Z.eqb_neq (msem m) 0)) by done. cbn [negb].
  destruct (sem_post_wakes _ L idle (msem m) Hs Hne) as (s & L' & [Hlen Hth] & E & Hs' & Hc & He & Hfl & Hws);
    [unfold SEM_VALUE_MAX; lia|].
  rewrite E. cbn [mbind option_bind]. exists s, L'. split_and!; [done|by apply Hth|done| |].
  { intros k Hk. by rewrite Hc, decide_False. }
  change (mx_sched st) with (sch (mx_sem st)).
  eapply mx_inv_sem; [exact Hi|done|done|]. eapply tok_release; try done.
  destruct (Z.ltb_spec (semcount (mx_sem st) (msem m)) 0) as [Hneg|Hpos].
  - destruct Hws as (y & -> & Hy & Hws). done.
  - pose proof (sv_count _ _ _ Hs (msem m) Hne) as Hcs. destruct (waiting _ _ _); [done|simpl in Hcs; lia].
Qed.

(** The caller waits for a semaphore that is no mutex's and not available. *)
Lemma wait_other st I H L idle o sem : let x := this_task (mx_sched st) in
  mx_inv (mk_cfg st I H) L idle o → x ≠ idle → Z.of_nat (length (L g_waitingforsemaphore)) < ZMAX_WAITERS → I !! x = None →
  sem ≠ 0 → (∀ m, is_Some (mutexes st !! m) → sem ≠ msem m) → semcount (mx_sem st) sem ≤ 0 →
  ∃ s L', pthread_takesemaphore sem (mx_sem st) = Some (SemBlocked, s) ∧ mx_inv (mk_cfg (with_semst s st) I H) L' idle o ∧
    wsem s x = sem ∧ semcount s sem = semcount (mx_sem st) sem - 1.
Proof.
  intros x Hi Hid Hlen HI Hne Hm Hc0. pose proof Hi as [Hs _ _ _]. cbn [c_st] in Hs.
  destruct (sem_wait_view_len _ L idle sem Hs Hne Hid Hlen) as (r & s & L' & E & Hs' & Hc & Hf & He & Hr).
  rewrite (proj2 (Z.ltb_ge _ _)) in Hr by done. destruct Hr as (-> & He0 & Hw). change (this_task (sch (mx_sem st))) with x in *.
  unfold pthread_takesemaphore. rewrite (proj2 (Z.eqb_neq sem 0)) by done. cbn [negb takesemaphore_loop]. rewrite E.
  exists s, L'. split_and!; [done| |by rewrite Hw, decide_True|by rewrite Hc, decide_True].
  apply (mx_other_inv mutex_types (mk_cfg st I H) L idle o s L'); [done|done|done| | |].
  - intros m Hs1. rewrite Hc, decide_False; [done|]. intros E1. by apply (Hm m Hs1).
  - intros y [m Hy]. cbn [c_in] in Hy. assert (Hyx : y ≠ x) by congruence. split; [|by apply He]. by rewrite Hw, decide_False.
  - intros y m Hs1. rewrite Hw. case_decide; [|done]. intros E1. by destruct (Hm m Hs1).
Qed.

(** C15. pthread_cond_wait, called by a task other than the idle task, on a condition whose count is
    not positive and with a mutex that is not recursive: by a task that does not hold the mutex it
    fails with EPERM without effect; by the holder it gives the mutex to the waiting task of the
    highest priority, or frees it, and leaves the caller, which holds the mutex no longer, counted
    and waiting at the condition. *)
Theorem pthread_cond_wait_correct c L idle o m e cond : let x := current c in
  mx_inv c L idle o → may_call idle c → mutexes (c_st c) !! m = Some e → c_in c !! x = None → recursive e = false →
  cond ≠ 0 → (∀ m', is_Some (mutexes (c_st c) !! m') → cond ≠ msem m') → semcount (mx_sem (c_st c)) cond ≤ 0 →
  ∃ r st', pthread_cond_wait cond m (c_st c) = Some (r, st') ∧
    if decide (o m = Held x) then
      r = CwWaits 0 ∧ wsem (mx_sem st') x = cond ∧ semcount (mx_sem st') cond = semcount (mx_sem (c_st c)) cond - 1 ∧
      ∃ L' o', mx_inv (mk_cfg st' (c_in c) (<[(x, m) := 0%nat]> (c_held c))) L' idle o' ∧
        o' m = default Free (Granted <$> head (waiting (tcbs (mx_sched (c_st c))) L (msem m)))
    else r = CwRet EPERM ∧ st' = c_st c.
Proof.
  intros x Hi [Hid Hl Hp Hf Hlk] Hm HI Hrec Hne Hcm Hc0. destruct c as [st I H]. cbn [c_st c_in c_held] in *.
  unfold current in x. cbn [c_st] in x. fold x in Hid, Hl, Hp.
  assert (Hm0 : 0 < m) by (apply (ti_addr _ _ _ _ _ _ _ (mi_tok _ _ _ _ _ Hi)); by eexists).
  unfold pthread_cond_wait. rewrite (proj2 (Z.eqb_neq cond 0)), (proj2 (Z.eqb_neq m 0)) by lia. cbn [orb].
  rewrite (mutex_at_eq _ _ _ Hm). change (mx_getpid st) with (pid_of (mx_pids st) x).
  pose proof (owner_held _ _ _ _ _ _ _ _ _ x Hi Hm Hl Hp) as Hown.
  destruct (Z.eqb_spec (m_pid e) (pid_of (mx_pids st) x)) as [Ep|Ep]; cbn [negb].
  2: { exists (CwRet EPERM), st. by destruct (decide (o m = Held x)); [tauto|]. }
  apply Hown in Ep. destruct (decide (o m = Held x)) as [_|]; [|done].
  destruct (mx_lock_inv _ _ _ _ _ _ _ Hi Hlk) as (s & E & Hi1 & Hv & Hth & Hfu). rewrite E. cbn [mbind option_bind].
  assert (Hlocks : 0 < locks (tcbs (sch s)) (this_task (sch s))).
  { unfold on_sched in E. destruct (sched_lock false (mx_sched st)) as [t|] eqn:Et; [|done]. injection E as <-.
    eapply lock_locks; [apply (mi_sem _ _ _ _ _ Hi)|exact Hlk|exact Et]. }
  destruct (give_mutex (with_semst s st) I H L idle o m e x Hi1 Hm Ep Hlocks) as (s2 & L2 & E2 & Hth2 & Hlen & Hk2 & Hi2).
  rewrite (on_mutex_eq (with_semst s st) m e) by done. cbn [mx_sem with_semst mx_pids mutexes] in *. rewrite E2. cbn [mbind option_bind mx_sem status].
  assert (Hx2 : this_task (sch s2) = x) by (rewrite Hth2; exact Hth).
  assert (Hdom : ∀ m', is_Some (<[m := with_mpid 0 e]> (mutexes st) !! m') → is_Some (mutexes st !! m')).
  { intros m'. apply mutex_dom. by exists e. }
  assert (Hck : cond ≠ msem m) by (apply Hcm; by eexists).
  destruct (wait_other _ I _ L2 idle _ cond Hi2) as (s3 & L3 & E3 & Hi3 & Hw3 & Hc3).
  all: unfold mx_sched in *; cbn [mx_sem mutexes] in *; try rewrite Hx2; try done.
  { pose proof (waiting_few _ _ _ (mi_sem _ _ _ _ _ Hi)) as Hfew. cbn [c_st] in Hfew. specialize (Hfew Hf). lia. }
  { intros m' Hs. by apply Hcm, Hdom. }
  { rewrite Hk2 by done. by rewrite (sv_sems _ _ Hv). }
  cbn [mx_sem] in E3, Hc3. rewrite E3. cbn [mbind option_bind cond_taken]. eexists _, _. split; [reflexivity|].
  split; [done|]. unfold mx_sched in Hw3. cbn [mx_sem] in Hw3. rewrite Hx2 in Hw3. split; [done|].
  split; [cbn; rewrite Hc3, Hk2 by done; by rewrite (sv_sems _ _ Hv)|].
  eexists L3, _. split; [exact Hi3|]. rewrite fn_lookup_insert.
  cbn [with_semst mx_sem]. by rewrite (waiting_view _ _ L (msem m) Hv).
Qed.

(** ** Coming back *)

(** A task that runs again in the wait for the condition waits again when a signal
    interrupted it, and otherwise enables pre-emption and goes on to take the mutex. *)
Theorem pthread_cond_wait_resume_correct c L idle o cond ret : let x := current c in
  mx_inv c L idle o → may_call idle c → c_in c !! x = None → cond ≠ 0 →
  (∀ m, is_Some (mutexes (c_st c) !! m) → cond ≠ msem m) → semcount (mx_sem (c_st c)) cond ≤ 0 →
  errno_of (mx_sem (c_st c)) x = 0 ∨ errno_of (mx_sem (c_st c)) x = EINTR →
  ∃ r st' L', pthread_cond_wait_resume cond ret (c_st c) = Some (r, st') ∧
    mx_inv (mk_cfg st' (c_in c) (c_held c)) L' idle o ∧
    if errno_of (mx_sem (c_st c)) x =? EINTR then r = CwWaits ret ∧ wsem (mx_sem st') x = cond
    else r = CwUnlocked ret ∧ same_view (mx_sem (c_st c)) (mx_sem st').
Proof.
  intros x Hi [Hid Hl Hp Hf Hlk] HI Hne Hcm Hc0 He. destruct c as [st I H]. cbn [c_st c_in c_held] in *.
  unfold current in x. cbn [c_st] in x. fold x in Hid, Hl, Hp.
  unfold pthread_cond_wait_resume, pthread_takesemaphore_resume, sem_wait_resume, get_errno.
  change (pterrno (get (sch (mx_sem st)) (this_task (sch (mx_sem st))))) with (errno_of (mx_sem st) x).
  destruct He as [He|He]; rewrite He; cbn [Z.eqb Pos.eqb EINTR ETIMEDOUT negb andb].
  - cbn [mbind option_bind cond_taken status]. rewrite Z.lor_0_r. destruct st as [s0 p0 mt]. cbn [with_semst mx_sem mx_pids mutexes].
    pose proof Hi as [Hs Hp0 Hrr Ht]. cbn [c_st mx_sem] in Hs. destruct (sem_unlock_view _ _ _ Hs) as (t & L' & E & Hs' & Hv & Hco).
    unfold on_sched, mx_sched. cbn [with_semst mx_sem mx_pids mutexes]. rewrite E. cbn [mbind option_bind]. eexists _, _, L'. split; [reflexivity|].
    split; [|done]. eapply (mx_inv_sem _ (mk_mx s0 p0 mt)); [exact Hi|done| |by eapply tok_view]. intros y. by apply (field_core flags).
  - destruct (wait_other st I H L idle o cond Hi) as (s & L' & E & Hi' & Hw & _); try done.
    { by eapply waiting_few; [apply (mi_sem _ _ _ _ _ Hi)|]. }
    unfold pthread_takesemaphore in E. rewrite (proj2 (Z.eqb_neq cond 0)) in E by done. cbn [negb Z.eqb] in *.
    rewrite E. cbn [mbind option_bind cond_taken]. by eexists _, _, L'.
Qed.

(** The end of a call that got the semaphore of the mutex. *)
Lemma relock_end st I H L idle o m e (s : semst) L0 x :
  mx_inv (mk_cfg st I H) L idle o → mutexes st !! m = Some e → recursive e = false → o m = Free ∨ o m = Granted x →
  live (mx_pids st) x → pid_of (mx_pids st) x ≠ 0 → I !! x = None ∨ I !! x = Some m → wsem (mx_sem st) x = 0 →
  sem_inv s L0 idle → (∀ y, flags (get (sch s) y) = flags (get (mx_sched st) y)) → this_task (sch s) = x →
  point (semcount (mx_sem st)) (semcount s) (msem m) 0 ∨
    (o m = Granted x ∧ ∀ k, semcount s k = semcount (mx_sem st) k) →
  (∀ y, wsem s y = wsem (mx_sem st) y) → (∀ y, y ≠ x → errno_of s y = errno_of (mx_sem st) y) →
  ∃ st', cond_locked m 0 SemOK (with_semst s st) = Some (CwRet 0, st') ∧
    mx_inv (mk_cfg st' (delete x I) (<[(x, m) := 1%nat]> H)) L0 idle (<[m := Held x]> o).
Proof.
  intros Hi Hm Hrec Ho Hl Hp HI Hx0 Hs' Hfl Hth Hc Hws He. pose proof Hi as [Hs Hpi Hrr Ht]. cbn [c_st c_in c_held] in Ht.
  assert (Eg : mx_getpid (with_semst s st) = pid_of (mx_pids st) x).
  { unfold mx_getpid, getpid, mx_sched. cbn [with_semst mx_sem mx_pids]. by rewrite Hth. }
  unfold cond_locked. cbn [status Z.lor Z.eqb]. rewrite Eg, (on_mutex_eq (with_semst s st) m e) by done.
  cbn [with_semst mx_sem mx_pids mutexes]. eexists. split; [done|].
  eapply mx_inv_sem; [exact Hi|done|done|]. eapply tok_acquire; try done.
  - unfold depth. change (MutexInv.recursive mutex_types (with_mpid (pid_of (mx_pids st) x) e)) with (recursive e). by rewrite Hrec.
  - change (MutexInv.recursive mutex_types (with_mpid (pid_of (mx_pids st) x) e)) with (recursive e). by rewrite Hrec.
Qed.

Lemma relock_take st I H L idle o m e :
  let x := this_task (mx_sched st) in
  mx_inv (mk_cfg st I H) L idle o → mutexes st !! m = Some e → recursive e = false → o m ≠ Held x → o m ≠ Granted x →
  I !! x = None ∨ I !! x = Some m → x ≠ idle → live (mx_pids st) x → pid_of (mx_pids st) x ≠ 0 →
  Z.of_nat (sched_fuel (mx_sched st)) < ZMAX_WAITERS →
  ∃ ret s r st' L' o', takesemaphore_loop 1 (msem m) (mx_sem st) = Some (ret, s) ∧
    cond_locked m 0 ret (with_semst s st) = Some (r, st') ∧
    if decide (o m = Free) then
      r = CwRet 0 ∧ mx_inv (mk_cfg st' (delete x I) (<[(x, m) := 1%nat]> H)) L' idle o' ∧ o' m = Held x
    else r = CwLocks 0 ∧ mx_inv (mk_cfg st' (<[x := m]> I) H) L' idle o'.
Proof.
  intros x Hi Hm Hrec Hh Hg HI Hid Hl Hp Hf. pose proof Hi as [Hs Hpi Hrr Ht]. cbn [c_st c_in c_held] in Hs, Hpi, Hrr, Ht.
  assert (Hm0 : 0 < m) by (apply (ti_addr _ _ _ _ _ _ _ Ht); by eexists). assert (Hne : msem m ≠ 0) by (unfold msem; lia).
  destruct (sem_wait_view _ _ _ _ Hs Hne Hid Hf) as (r & s & L' & E & Hs' & Hc & Hfl & He & Hr).
  change (this_task (sch (mx_sem st))) with x in *.
  pose proof (ti_tok _ _ _ _ _ _ _ Ht m e Hm) as Hok. cbn [takesemaphore_loop]. rewrite E. cbn [mbind option_bind].
  destruct (running_not_waiting _ _ _ Hs) as [_ Hx0]. fold (wsem (mx_sem st) x) in Hx0.
  case_decide as Ho.
  - rewrite Ho in Hok. destruct Hok as (Hc1 & _ & HU). rewrite Hc1 in *. destruct Hr as (-> & Hth & Hws).
    destruct (relock_end st I H L idle o m e s L' x) as (st' & E2 & Hi2); try done; [by left|by left|].
    eexists SemOK, s, (CwRet 0), st', L', _. split_and!; [done|done|done|exact Hi2|]. apply fn_lookup_insert.
  - assert (Hc0 : semcount (mx_sem st) (msem m) ≤ 0) by (destruct (o m); [done|apply Hok..]).
    rewrite (proj2 (Z.ltb_ge _ _)) in Hr by done. destruct Hr as (-> & He0 & Hws).
    eexists _, _, _, _, L', o. split; [done|]. split; [done|]. split; [done|].
    eapply mx_inv_sem; [done|done|done|]. eapply tok_block; try done.
Qed.

(** The caller goes on behind [sched_unlock], or runs again in [pthread_takesemaphore]. *)
Definition relock (resumed : bool) (mutex : Z) : mxst → option (cw_ret * mxst) :=
  if resumed then pthread_cond_wait_relock_resume mutex 0 else pthread_cond_wait_relock mutex 0.

(** C16. A task woken from a condition takes the mutex again before pthread_cond_wait returns: it
    returns 0, as the holder, when the mutex is free or was granted to it, and waits for the mutex,
    still inside the call, in every other case. *)
Theorem pthread_cond_wait_relock_correct (resumed : bool) c L idle o m e : let x := current c in
  mx_inv c L idle o → may_call idle c → mutexes (c_st c) !! m = Some e → recursive e = false → o m ≠ Held x →
  c_in c !! x = (if resumed then Some m else None) →
  ∃ r st' L' o', relock resumed m (c_st c) = Some (r, st') ∧
    if decide (o m = Free ∨ o m = Granted x) then
      r = CwRet 0 ∧ mx_inv (mk_cfg st' (delete x (c_in c)) (<[(x, m) := 1%nat]> (c_held c))) L' idle o' ∧ o' m = Held x
    else r = CwLocks 0 ∧ mx_inv (mk_cfg st' (<[x := m]> (c_in c)) (c_held c)) L' idle o'.
Proof.
  intros x Hi [Hid Hl Hp Hf Hlk] Hm Hrec Hh HI. destruct c as [st I H]. cbn [c_st c_in c_held] in *.
  unfold current in x. cbn [c_st] in x. fold x in Hid, Hl, Hp.
  assert (Hm0 : 0 < m) by (apply (ti_addr _ _ _ _ _ _ _ (mi_tok _ _ _ _ _ Hi)); by eexists).
  pose proof (running_wsem _ _ _ _ _ _ _ Hi) as Hx0. fold x in Hx0.
  assert (Htake : o m ≠ Granted x → ∃ r st' L' o',
    ('(r, s) ← takesemaphore_loop 1 (msem m) (mx_sem st); cond_locked m 0 r (with_semst s st)) = Some (r, st') ∧
    if decide (o m = Free ∨ o m = Granted x) then
      r = CwRet 0 ∧ mx_inv (mk_cfg st' (delete x I) (<[(x, m) := 1%nat]> H)) L' idle o' ∧ o' m = Held x
    else r = CwLocks 0 ∧ mx_inv (mk_cfg st' (<[x := m]> I) H) L' idle o').
  { intros Hg. destruct (relock_take st I H L idle o m e) as (ret & s & r & st' & L' & o' & E & E2 & Hr); try done.
    { fold x. destruct resumed; auto. }
    rewrite E. cbn [mbind option_bind]. exists r, st', L', o'. split; [exact E2|]. fold x in Hr.
    destruct (decide (o m = Free)); destruct (decide (o m = Free ∨ o m = Granted x)); tauto. }
  destruct resumed; unfold relock.
  - destruct (ti_in _ _ _ _ _ _ _ (mi_tok _ _ _ _ _ Hi) x m HI) as (_ & _ & _ & Hok). cbn [c_st c_in c_held] in Hok.
    unfold pthread_cond_wait_relock_resume, pthread_takesemaphore_resume, sem_wait_resume, get_errno.
    change (pterrno (get (sch (mx_sem st)) (this_task (sch (mx_sem st))))) with (errno_of (mx_sem st) x).
    destruct Hok as [(Hw & _)|[(_ & He & Ho)|(_ & He & Ho)]]; [unfold msem in Hw; lia| |]; rewrite He; cbn [Z.eqb Pos.eqb EINTR ETIMEDOUT negb andb].
    + destruct (relock_end st I H L idle o m e (mx_sem st) L x) as (st' & E & Hi'); try done; [by right|by right|apply Hi|by right|].
      cbn [mbind option_bind]. eexists _, st', L, _. split; [exact E|].
      destruct (decide (o m = Free ∨ o m = Granted x)); [|tauto]. split_and!; [done|exact Hi'|apply fn_lookup_insert].
    + apply Htake, Ho.
  - unfold pthread_cond_wait_relock, pthread_takesemaphore. rewrite (proj2 (Z.eqb_neq (msem m) 0)) by (unfold msem; lia). cbn [negb].
    apply Htake. intros Hg. pose proof (ti_tok _ _ _ _ _ _ _ (mi_tok _ _ _ _ _ Hi) m e Hm) as Hok. cbn in Hok. rewrite Hg in Hok.
    destruct Hok as (_ & _ & HIm & _). cbn [c_in] in HIm. congruence.
Qed.
End Wait.
