(* ===== verification/CondWit.v ===== *)
(** Condition variables and barriers on the concrete systems of SchedSpec.v and
    MutexSpec.v, and what a signal does to a task that waits at one. *)

From stdpp Require Import base numbers functions gmap sorting list.
From S2P Require Import Prelude Queue Memory Sched SchedInv SchedThms SchedFields Sem SemThms SemSpec SemView.
From S2P Require Import Pid Mutex MutexInv MutexThms MutexSpec Cond CondThms.
From S2P Require Import SchedSpec.

(** ** Witnesses *)

(** taskC waits for the condition at 0x50. *)
Lemma pthread_cond_signal_correct_witness : ∃ s', pthread_cond_signal 0x50 sem0 = Some (0, s') ∧
  wsem sem0 taskC = 0x50 ∧ semcount s' 0x50 = 0.
Proof.
  destruct (pthread_cond_signal_correct 0x50 sem0 lists0 idle0 sem0_inv) as (s' & L' & E & _ & H); [done|].
  exists s'. split; [exact E|]. split; [by vm_compute|]. assert (Hc : semcount sem0 0x50 = -1) by by vm_compute.
  rewrite Hc in H. destruct H as (x & _ & _ & _ & Hp). by rewrite Hp, decide_True.
Defined.

Lemma pthread_cond_broadcast_correct_witness : ∃ s', pthread_cond_broadcast 0x50 sem0 = Some (0, s') ∧
  semcount sem0 0x50 = -1 ∧ all_woken 0x50 sem0 s'.
Proof.
  destruct (pthread_cond_broadcast_correct 0x50 sem0 lists0 idle0 sem0_inv) as (s' & L' & E & _ & H);
    [done|by vm_compute|].
  exists s'. split; [exact E|]. split; [by vm_compute|exact H].
Defined.

(** taskC waits at the barrier at 0x50, which expects two tasks. *)
Definition bar0 (count : Z) : barst := mk_bar sem0 {[ 0x50 := count ]}.

Lemma pthread_barrier_wait_correct_witness :
  (∃ st', pthread_barrier_wait 0x50 (bar0 2) = Some (MxRet PTHREAD_BARRIER_SERIAL_THREAD, st') ∧
    all_woken 0x50 sem0 (b_sem st')) ∧
  ∃ st', pthread_barrier_wait 0x50 (bar0 3) = Some (MxWaits, st') ∧ semcount (b_sem st') 0x50 = -2.
Proof.
  assert (Hc : semcount sem0 0x50 = -1) by by vm_compute.
  split.
  - destruct (pthread_barrier_wait_correct 0x50 (bar0 2) lists0 idle0 sem0_inv) as (r & st' & L' & E & _ & _ & H);
      [done|by vm_compute|by vm_compute|by vm_compute|by vm_compute|].
    change (count_at (bar0 2) 0x50) with 2 in H. change (b_sem (bar0 2)) with sem0 in H. rewrite Hc in H.
    destruct H as [-> H]. by exists st'.
  - destruct (pthread_barrier_wait_correct 0x50 (bar0 3) lists0 idle0 sem0_inv) as (r & st' & L' & E & _ & _ & H);
      [done|by vm_compute|by vm_compute|by vm_compute|by vm_compute|].
    change (count_at (bar0 3) 0x50) with 3 in H. change (b_sem (bar0 3)) with sem0 in H. rewrite Hc in H.
    destruct H as (-> & _ & H). exists st'. split; [exact E|]. by rewrite H, decide_True.
Defined.

(** taskA holds the mutex and waits for the condition at 0x50 as well. *)
Lemma pthread_cond_wait_correct_witness : ∃ st', pthread_cond_wait 0x50 0x1000 (c_st mx1) = Some (CwWaits 0, st') ∧
  wsem (mx_sem st') taskA = 0x50 ∧ semcount (mx_sem st') 0x50 = -2.
Proof.
  destruct mx1_inv as (L & o & Hi & Ho). assert (Hx : current mx1 = taskA) by by vm_compute.
  destruct (pthread_cond_wait_correct true mx1 L idle0 o 0x1000 (mk_mutex 1 0 1) 0x50) as (r & st' & E & H).
  - exact Hi.
  - may_call taskA.
  - by vm_compute.
  - by vm_compute.
  - done.
  - done.
  - intros m [e Hm]. assert (E0 : mutexes (c_st mx1) = {[ 0x1000 := mk_mutex 1 0 1 ]}) by by vm_compute.
    rewrite E0 in Hm. by apply lookup_singleton_Some in Hm as [<- _].
  - by vm_compute.
  - rewrite Hx, decide_True in H by exact Ho. destruct H as (-> & Hw & Hc & _). exists st'.
    assert (Hc0 : semcount (mx_sem (c_st mx1)) 0x50 = -1) by by vm_compute. rewrite Hc0 in Hc.
    split; [exact E|]. split; [exact Hw|exact Hc].
Defined.

Lemma mx0_cond m : is_Some (mutexes (c_st mx0) !! m) → 0x50 ≠ msem m.
Proof.
  intros [e Hm]. change (({[ 0x1000 := mk_mutex 0 PTHREAD_MUTEX_DEFAULT 0 ]} : gmap Z mutex_t) !! m = Some e) in Hm.
  by apply lookup_singleton_Some in Hm as [<- _].
Qed.

Lemma pthread_cond_wait_resume_correct_witness : ∃ st', pthread_cond_wait_resume 0x50 0 (c_st mx0) = Some (CwUnlocked 0, st').
Proof.
  destruct (pthread_cond_wait_resume_correct true mx0 lists0 idle0 (λ _, Free) 0x50 0) as (r & st' & L' & E & _ & H).
  - apply mx_start_inv, mx0_start.
  - may_call taskA.
  - done.
  - done.
  - apply mx0_cond.
  - by vm_compute.
  - left. by vm_compute.
  - assert (He : errno_of (mx_sem (c_st mx0)) (current mx0) = 0) by by vm_compute. rewrite He in H.
    destruct H as [-> _]. by exists st'.
Defined.

Lemma pthread_cond_wait_relock_correct_witness : ∃ st', pthread_cond_wait_relock 0x1000 0 (c_st mx0) = Some (CwRet 0, st').
Proof.
  destruct (pthread_cond_wait_relock_correct true false mx0 lists0 idle0 (λ _, Free) 0x1000 (mk_mutex 0 0 0))
    as (r & st' & L' & o' & E & H).
  - apply mx_start_inv, mx0_start.
  - may_call taskA.
  - done.
  - done.
  - done.
  - done.
  - rewrite decide_True in H by by left. destruct H as [-> _]. by exists st'.
Defined.

(** ** Findings *)

(** The mutex at 0x1000 and a condition at 0x70 for which nobody waits. *)
Definition cw0 : mxst := with_semst (set_semcount 0x70 0 (mx_sem (mx_at PTHREAD_MUTEX_DEFAULT))) (mx_at PTHREAD_MUTEX_DEFAULT).

(** taskA has locked the mutex and waits for the condition; a signal is
    delivered to it, and taskB, which runs, signals the condition. *)
Definition cw_waits : option mxst :=
  '(_, st) ← pthread_mutex_lock true 0x1000 cw0;
  '(_, st) ← pthread_cond_wait 0x70 0x1000 st;
  Some st.

Definition cw_signalled : option semst :=
  st ← cw_waits;
  s ← sem_waitirq taskA EINTR (mx_sem st);
  '(r, s) ← pthread_cond_signal 0x70 s;
  if r =? 0 then Some s else None.

(** taskB waits for something else, and taskA runs. *)
Definition cw_resumed : option (cw_ret * mxst) :=
  st ← cw_waits;
  s ← cw_signalled;
  '(_, s) ← sem_wait 0x80 s;
  if this_task (sch s) =? taskA then pthread_cond_wait_resume 0x70 0 (with_semst s st) else None.

(** Finding: a condition that is signalled after a POSIX signal interrupted the task
    that waits for it, and before that task runs, wakes nobody: the task goes
    on waiting. *)
Theorem cond_signal_lost :
  match cw_waits, cw_signalled, cw_resumed with
  | Some st1, Some s2, Some (r, st3) =>
      wsem (mx_sem st1) taskA = 0x70 ∧ semcount (mx_sem st1) 0x70 = -1 ∧ semcount s2 0x70 = 0 ∧
      r = CwWaits 0 ∧ wsem (mx_sem st3) taskA = 0x70 ∧ semcount (mx_sem st3) 0x70 = -1
  | _, _, _ => False
  end.
Proof. vm_compute. split_and!; reflexivity. Qed.

(** A barrier at 0x70 for two tasks: taskA waits, a signal interrupts it, taskB
    arrives, and taskA runs again. *)
Definition bar_signalled : option (mx_ret * mx_ret * mx_ret * barst) :=
  let st := snd (pthread_barrier_init 0x70 2 (bar0 0)) in
  '(r1, st) ← pthread_barrier_wait 0x70 st;
  s ← sem_waitirq taskA EINTR (b_sem st);
  '(r2, st) ← pthread_barrier_wait 0x70 (with_bsem s st);
  if negb (this_task (sch (b_sem st)) =? taskA) then None else
  '(r3, st) ← pthread_barrier_wait_resume 0x70 st;
  Some (r1, r2, r3, st).

(** Finding: both tasks of a barrier for two wait at it, and nobody releases them. *)
Theorem barrier_signal_deadlocks :
  match bar_signalled with
  | Some (r1, r2, r3, st) =>
      r1 = MxWaits ∧ r2 = MxWaits ∧ r3 = MxWaits ∧ count_at st 0x70 = 2 ∧ semcount (b_sem st) 0x70 = -2 ∧
      wsem (b_sem st) taskA = 0x70 ∧ wsem (b_sem st) taskB = 0x70 ∧ this_task (sch (b_sem st)) = idle0
  | None => False
  end.
Proof. vm_compute. split_and!; reflexivity. Qed.
