(* ===== verification/NamedSem.v ===== *)
(** Named semaphores: sched/sem_initialize.c, sem_findnamed.c, sem_open.c,
    sem_close.c and sem_unlink.c with sched/sem_internal.h.

    [g_nsems] is a doubly linked list of blocks of the kernel heap; a block is
    an [nsem_t] followed by its name, so the name is kept with the block, and
    its [sem_t] lies at [SEM_OFFSET] of the block, so that the address that
    [sem_open] returns is inside the block.  The heap is any [KernelHeap]; the
    semaphore is one of Sem.v; the scheduler is locked and unlocked as in the
    code.  [None] is a call that does not return. *)

From stdpp Require Import base numbers functions gmap strings sorting list.
From S2P Require Import Prelude Queue Sched Sem Garbage.

Definition O_CREAT : Z := 0x04.
Definition O_EXCL : Z := 0x08.

(** What the calls return: [OK], [ERROR], or the address of a semaphore. *)
Definition NS_OK : Z := 0.
Definition NS_ERROR : Z := -1.

(** [struct nsem_s] without its [sem_t]: two links, the count (16 bits), the
    pointer to the name, the flag and the semaphore. *)
Record nsem_t := mk_nsem { ns_flink : Z; ns_blink : Z; nconnect : Z; ns_name : string; unlinked : bool }.
Definition SEM_OFFSET : Z := 18.
Definition SIZEOF_NSEM : Z := 20.

Definition nsem0 : nsem_t := mk_nsem 0 0 0 EmptyString false.
Definition with_nflink v n := mk_nsem v (ns_blink n) (nconnect n) (ns_name n) (unlinked n).
Definition with_nblink v n := mk_nsem (ns_flink n) v (nconnect n) (ns_name n) (unlinked n).
Definition with_nconnect v n := mk_nsem (ns_flink n) (ns_blink n) (v mod 2 ^ 16) (ns_name n) (unlinked n).
Definition with_unlinked v n := mk_nsem (ns_flink n) (ns_blink n) (nconnect n) (ns_name n) v.
Definition with_name v n := mk_nsem (ns_flink n) (ns_blink n) (nconnect n) v (unlinked n).

Notation nstore := (gmap Z nsem_t).
Definition nsem_at (s : nstore) (p : Z) : nsem_t := default nsem0 (s !! p).
Definition on_nsem (p : Z) (f : nsem_t → nsem_t) (s : nstore) : nstore := <[p := f (nsem_at s p)]> s.

#[export] Instance nsem_sq : SqStore nstore := {
  flink s p := ns_flink (nsem_at s p);
  set_flink p v s := on_nsem p (with_nflink v) s }.
#[export] Instance nsem_dq : DqStore nstore := {
  blink s p := ns_blink (nsem_at s p);
  set_blink p v s := on_nsem p (with_nblink v) s }.

Section Named.
Context {T : Type} `{KernelHeap T}.

(** The kernel's semaphores and scheduler, the heap, the blocks of named semaphores and their list. *)
Record nsst := mk_nsst { n_sem : semst; n_heap : T; n_store : nstore; g_nsems : queue_t }.
Implicit Types (st : nsst) (psem sem : Z) (name : string).

Definition with_nsem (s : semst) st := mk_nsst s (n_heap st) (n_store st) (g_nsems st).
Definition with_nheap (h : T) st := mk_nsst (n_sem st) h (n_store st) (g_nsems st).
Definition with_nstore (s : nstore) st := mk_nsst (n_sem st) (n_heap st) s (g_nsems st).
Definition with_nlist (r : queue_t * nstore) st := mk_nsst (n_sem st) (n_heap st) r.2 r.1.

Definition ns_lock st : option nsst := s ← sched_lock false (sch (n_sem st)); Some (with_nsem (with_sched (n_sem st) s) st).
Definition ns_unlock st : option nsst := s ← sched_unlock false (sch (n_sem st)); Some (with_nsem (with_sched (n_sem st) s) st).

Definition sem_initialize st : nsst := with_nlist (dq_init, n_store st) st.

(** [for (psem = g_nsems.head; psem && !(stop); psem = psem->flink);] *)
Fixpoint nsem_walk (fuel : nat) (s : nstore) (stop : Z → bool) psem : option Z :=
  if psem =? 0 then Some 0
  else if stop psem then Some psem
  else match fuel with
       | O => None
       | S fuel => nsem_walk fuel s stop (ns_flink (nsem_at s psem))
       end.

(** [strcmp] of two strings is 0 when they are equal. *)
Definition sem_findnamed name st : option Z :=
  nsem_walk (size (n_store st)) (n_store st) (λ psem, String.eqb name (ns_name (nsem_at (n_store st) psem)))
    (q_head (g_nsems st)).

(** The part of [sem_open] with the scheduler locked. *)
Definition sem_open_locked name (oflag value : Z) st : option (Z * nsst) :=
  if negb (0 <? Z.of_nat (String.length name)) then Some (NS_ERROR, st) else
  psem ← sem_findnamed name st;
  if negb (psem =? 0) then
    if (Z.land oflag O_CREAT =? 0) || (Z.land oflag O_EXCL =? 0) then
      Some (psem + SEM_OFFSET,
        with_nstore (on_nsem psem (λ n, with_nconnect (nconnect n + 1) n) (n_store st)) st)
    else Some (NS_ERROR, st)
  else if negb (Z.land oflag O_CREAT =? 0) then
    if value <=? SEM_VALUE_MAX then
      '(psem, h) ← h_malloc (SIZEOF_NSEM + Z.of_nat (String.length name) + 1) (n_heap st);
      let st := with_nheap h st in
      if negb (psem =? 0) then
        let sem := psem + SEM_OFFSET in
        let st := with_nsem (sem_init sem value (n_sem st)).2 st in
        let s := on_nsem psem (λ n, with_name name (with_unlinked false (with_nconnect 1 n))) (n_store st) in
        Some (sem, with_nlist (dq_addfirst psem (g_nsems st) s) st)
      else Some (NS_ERROR, st)
    else Some (NS_ERROR, st)
  else Some (NS_ERROR, st).

Definition sem_open (name : option string) (oflag value : Z) st : option (Z * nsst) :=
  match name with
  | None => Some (NS_ERROR, st)
  | Some name =>
      st ← ns_lock st;
      '(sem, st) ← sem_open_locked name oflag value st;
      st ← ns_unlock st;
      Some (sem, st)
  end.

(** [dq_rem(psem, &g_nsems); sched_free(psem);] *)
Definition nsem_remove psem st : option nsst :=
  let st := with_nlist (dq_rem psem (g_nsems st) (n_store st)) st in
  h ← h_free psem (n_heap st);
  Some (with_nheap h (with_nstore (delete psem (n_store st)) st)).

Definition sem_close_locked sem st : option (Z * nsst) :=
  psem ← nsem_walk (size (n_store st)) (n_store st) (λ psem, sem =? psem + SEM_OFFSET) (q_head (g_nsems st));
  if negb (psem =? 0) then
    let s := n_store st in
    let s := if negb (nconnect (nsem_at s psem) =? 0)
             then on_nsem psem (λ n, with_nconnect (nconnect n - 1) n) s else s in
    let st := with_nstore s st in
    if (nconnect (nsem_at s psem) =? 0) && unlinked (nsem_at s psem) then
      st ← nsem_remove psem st; Some (NS_OK, st)
    else Some (NS_OK, st)
  else Some (NS_ERROR, st).

Definition sem_close sem st : option (Z * nsst) :=
  if negb (sem =? 0) then
    st ← ns_lock st;
    '(ret, st) ← sem_close_locked sem st;
    st ← ns_unlock st;
    Some (ret, st)
  else Some (NS_ERROR, st).

Definition sem_unlink_locked name st : option (Z * nsst) :=
  psem ← sem_findnamed name st;
  if negb (psem =? 0) then
    if nconnect (nsem_at (n_store st) psem) =? 0 then
      st ← nsem_remove psem st; Some (NS_OK, st)
    else Some (NS_OK, with_nstore (on_nsem psem (with_unlinked true) (n_store st)) st)
  else Some (NS_ERROR, st).

Definition sem_unlink (name : option string) st : option (Z * nsst) :=
  match name with
  | None => Some (NS_ERROR, st)
  | Some name =>
      st ← ns_lock st;
      '(ret, st) ← sem_unlink_locked name st;
      st ← ns_unlock st;
      Some (ret, st)
  end.
End Named.
Arguments nsst : clear implicits.
