(* ===== verification/NamedSemThms.v ===== *)
(** Named semaphores refine a registry: a map from names to semaphores, each with
    its address, the number of its connections and whether it was unlinked.
    [reg_step] is what a call does to the registry; [ns_run_safe] follows the
    handles that the tasks hold. *)

From stdpp Require Import base numbers functions gmap strings sorting list.
From S2P Require Import Prelude Queue Sched SchedInv SchedThms SchedFields Sem SemThms SemSpec SemView.
From S2P Require Import Kmalloc Garbage NamedSem.

(** ** The registry *)

Record ns_entry := mk_entry { a_addr : Z; a_conn : nat; a_unlinked : bool }.
Notation reg := (gmap string ns_entry).

Inductive ns_op :=
  | NsOpen (name : option string) (oflag value : Z)
  | NsClose (sem : Z)
  | NsUnlink (name : option string).

Definition creates (oflag : Z) : Prop := Z.land oflag O_CREAT ≠ 0.
Definition excludes (oflag : Z) : Prop := creates oflag ∧ Z.land oflag O_EXCL ≠ 0.
Definition handle (e : ns_entry) : Z := a_addr e + SEM_OFFSET.

(** A connection is given up; the last one of an unlinked semaphore takes the semaphore with it. *)
Definition drop_connection (name : string) (e : ns_entry) (R : reg) : reg :=
  if (pred (a_conn e) =? 0)%nat && a_unlinked e then delete name R
  else <[name := mk_entry (a_addr e) (pred (a_conn e)) (a_unlinked e)]> R.

Definition unlink_entry (name : string) (e : ns_entry) (R : reg) : reg :=
  if (a_conn e =? 0)%nat then delete name R else <[name := mk_entry (a_addr e) (a_conn e) true]> R.

(** What a call does to the registry and returns, where [fits n] says that the heap has a free
    chunk for [n] bytes. *)
Inductive reg_step (fits : Z → Prop) (R : reg) : ns_op → Z → reg → Prop :=
  | rs_noname name oflag v : name = None ∨ name = Some EmptyString → reg_step fits R (NsOpen name oflag v) NS_ERROR R
  | rs_connect name oflag v e : name ≠ EmptyString → R !! name = Some e → ¬ excludes oflag →
      reg_step fits R (NsOpen (Some name) oflag v) (handle e)
        (<[name := mk_entry (a_addr e) (S (a_conn e)) (a_unlinked e)]> R)
  | rs_exists name oflag v e : name ≠ EmptyString → R !! name = Some e → excludes oflag →
      reg_step fits R (NsOpen (Some name) oflag v) NS_ERROR R
  | rs_absent name oflag v : name ≠ EmptyString → R !! name = None → ¬ creates oflag ∨ SEM_VALUE_MAX < v →
      reg_step fits R (NsOpen (Some name) oflag v) NS_ERROR R
  | rs_nomem name oflag v : name ≠ EmptyString → R !! name = None → creates oflag → v ≤ SEM_VALUE_MAX →
      ¬ fits (SIZEOF_NSEM + Z.of_nat (String.length name) + 1) →
      reg_step fits R (NsOpen (Some name) oflag v) NS_ERROR R
  | rs_create name oflag v p : name ≠ EmptyString → R !! name = None → creates oflag → v ≤ SEM_VALUE_MAX →
      fits (SIZEOF_NSEM + Z.of_nat (String.length name) + 1) → 0 < p → (∀ n e, R !! n = Some e → 16 ≤ Z.abs (p - a_addr e)) →
      reg_step fits R (NsOpen (Some name) oflag v) (p + SEM_OFFSET) (<[name := mk_entry p 1 false]> R)
  | rs_close name e : R !! name = Some e → reg_step fits R (NsClose (handle e)) NS_OK (drop_connection name e R)
  | rs_close_unknown sem : (∀ name e, R !! name = Some e → handle e ≠ sem) → reg_step fits R (NsClose sem) NS_ERROR R
  | rs_unlink name e : R !! name = Some e → reg_step fits R (NsUnlink (Some name)) NS_OK (unlink_entry name e R)
  | rs_unlink_unknown name : (∀ n, name = Some n → R !! n = None) → reg_step fits R (NsUnlink name) NS_ERROR R.

(** ** Blocks and links *)

Definition nview (n : nsem_t) : Z * string * bool := (nconnect n, ns_name n, unlinked n).

Lemma nsem_at_on (s : nstore) p f y : nsem_at (on_nsem p f s) y = if decide (y = p) then f (nsem_at s p) else nsem_at s y.
Proof.
  unfold on_nsem, nsem_at. destruct (decide (y = p)) as [->|Hne].
  - by rewrite lookup_insert_eq.
  - by rewrite lookup_insert_ne.
Qed.

#[export] Instance nsem_laws : DqLaws nstore.
Proof. split; [split|..]; intros; cbn; rewrite nsem_at_on; by repeat case_decide; subst. Qed.

#[export] Instance nview_blind y : LinkBlind (λ s : nstore, nview (nsem_at s y)).
Proof. split; intros s p v; cbn; rewrite nsem_at_on; by case_decide; subst. Qed.

Lemma dom_on_nsem p f (s : nstore) : p ∈ dom s → dom (on_nsem p f s) = dom s.
Proof. intros Hp. unfold on_nsem. rewrite dom_insert_L. set_solver. Qed.

(** Changing a block behind its links. *)
Lemma dq_repr_on (s : nstore) q l p f : (∀ n, ns_flink (f n) = ns_flink n ∧ ns_blink (f n) = ns_blink n) →
  dq_repr s q l → dq_repr (on_nsem p f s) q l.
Proof.
  intros Hf. apply (dq_repr_frame []); [|set_solver].
  intros y _. cbn. rewrite nsem_at_on. case_decide; subst; [apply Hf|done].
Qed.

Lemma dom_flink p v (s : nstore) : p ∈ dom s → dom (set_flink p v s) = dom s.
Proof. apply dom_on_nsem. Qed.
Lemma dom_blink p v (s : nstore) : p ∈ dom s → dom (set_blink p v s) = dom s.
Proof. apply dom_on_nsem. Qed.

Ltac doms := first [done | rewrite dom_flink; [doms|doms] | rewrite dom_blink; [doms|doms]].

Lemma dom_addfirst (s : nstore) q l p : dq_repr s q l → (∀ y, y ∈ l → y ∈ dom s) → p ∈ dom s →
  dom (dq_addfirst p q s).2 = dom s.
Proof.
  intros (_ & _ & _ & Hh & _) Hl Hp. unfold dq_addfirst. rewrite Hh. destruct l as [|a l]; cbn [head default snd Z.eqb]; [doms|].
  assert (a ∈ dom s) by (apply Hl; set_solver). case_match; cbn [snd]; doms.
Qed.

Lemma dom_rem (s : nstore) q l1 p l2 : dq_repr s q (l1 ++ p :: l2) → (∀ y, y ∈ l1 ++ p :: l2 → y ∈ dom s) →
  dom (dq_rem p q s).2 = dom s.
Proof.
  intros (Hd & _ & H0 & _) Hl. assert (Hp : p ∈ dom s) by (apply Hl; set_solver).
  pose proof (dll_next _ _ _ _ _ Hd) as Hn. pose proof (dll_prev _ _ _ _ _ Hd) as Hv.
  assert (Hnd : flink s p ≠ 0 → flink s p ∈ dom s).
  { rewrite Hn. destruct l2; [done|]. intros _. apply Hl. set_solver. }
  assert (Hvd : blink s p ≠ 0 → blink s p ∈ dom s).
  { rewrite Hv. destruct (last l1) as [a|] eqn:E; [|done]. intros _. apply Hl. apply last_Some_elem_of in E. set_solver. }
  unfold dq_rem. destruct (Z.eqb_spec (blink s p) 0), (Z.eqb_spec (flink s p) 0); cbn [snd];
    specialize (Hnd ltac:(done)) || clear Hnd; specialize (Hvd ltac:(done)) || clear Hvd; doms.
Qed.

(** ** The blocks hold the registry *)

Record blocks (s : nstore) (q : queue_t) (R : reg) (l : list Z) : Prop := {
  bl_list : dq_repr s q l;
  bl_dom : ∀ p, p ∈ dom s ↔ p ∈ l;
  bl_reg : ∀ name e, R !! name = Some e → a_addr e ∈ l ∧ (Z.of_nat (a_conn e) < 2 ^ 16) ∧
    nview (nsem_at s (a_addr e)) = (Z.of_nat (a_conn e), name, a_unlinked e);
  bl_back : ∀ p, p ∈ l → ∃ e, R !! ns_name (nsem_at s p) = Some e ∧ a_addr e = p }.

Lemma walk_run fuel (s : nstore) stop l : chain (flink s) l 0 → 0 ∉ l → (length l ≤ fuel)%nat →
  nsem_walk fuel s stop (default 0 (head l)) = Some (default 0 (head (filter (λ p, stop p = true) l))).
Proof.
  revert l. induction fuel as [|fuel IH]; intros [|a l] Hc H0 Hf; try (simpl in Hf; lia); try done.
  cbn [nsem_walk]. change (default 0 (head (a :: l))) with a.
  rewrite (proj2 (Z.eqb_neq a 0)) by set_solver. rewrite filter_cons. destruct (stop a) eqn:E; [done|].
  destruct Hc as [Ha Hc]. cbn in Ha. rewrite Ha. rewrite decide_False by done. apply IH; [done|set_solver|simpl in Hf; lia].
Qed.

Lemma walk_blocks s q R l stop : blocks s q R l →
  (∀ p, p ∈ l → stop p = true → (∀ y, y ∈ l → stop y = true → y = p) →
    nsem_walk (size s) s stop (q_head q) = Some p) ∧
  ((∀ p, p ∈ l → stop p = false) → nsem_walk (size s) s stop (q_head q) = Some 0).
Proof.
  intros Hb. pose proof (bl_list _ _ _ _ Hb) as ([Hc _] & Hnd & H0 & Hh & _).
  rewrite Hh, walk_run; [|done|done|].
  2:{ apply nodup_length_size; [done|]. intros x Hx. apply (elem_of_dom (M:=gmap Z)). by apply (bl_dom _ _ _ _ Hb). }
  split.
  - intros p Hp Hs Hu. destruct (filter _ l) as [|y k] eqn:E.
    + assert (Hin : p ∈ filter (λ p, stop p = true) l) by by apply list_elem_of_filter. rewrite E in Hin. set_solver.
    + assert (Hin : y ∈ filter (λ p, stop p = true) l) by (rewrite E; set_solver).
      apply list_elem_of_filter in Hin as [Hy Hyl]. cbn. f_equal. by apply Hu.
  - intros Hno. destruct (filter _ l) as [|y k] eqn:E; [done|].
    assert (Hin : y ∈ filter (λ p, stop p = true) l) by (rewrite E; set_solver).
    apply list_elem_of_filter in Hin as [Hy Hyl]. rewrite Hno in Hy; done.
Qed.

(** The names of the listed blocks are the names of the registry. *)
Lemma find_hit s q R l name e : blocks s q R l → R !! name = Some e →
  nsem_walk (size s) s (λ p, String.eqb name (ns_name (nsem_at s p))) (q_head q) = Some (a_addr e).
Proof.
  intros Hb Hn. destruct (bl_reg _ _ _ _ Hb _ _ Hn) as (Hin & _ & Hv). injection Hv as _ Hv _.
  eapply walk_blocks; [done|done|by rewrite Hv, String.eqb_refl|]. intros y Hy Hs%String.eqb_eq.
  destruct (bl_back _ _ _ _ Hb _ Hy) as (e' & He' & <-). rewrite <-Hs, Hn in He'. by injection He' as <-.
Qed.

Lemma find_miss s q R l name : blocks s q R l → R !! name = None →
  nsem_walk (size s) s (λ p, String.eqb name (ns_name (nsem_at s p))) (q_head q) = Some 0.
Proof.
  intros Hb Hn. eapply walk_blocks; [done|]. intros p Hp. apply String.eqb_neq. intros ->.
  destruct (bl_back _ _ _ _ Hb _ Hp) as (e' & He' & _). by rewrite Hn in He'.
Qed.

Lemma close_hit s q R l name e : blocks s q R l → R !! name = Some e →
  nsem_walk (size s) s (λ p, handle e =? p + SEM_OFFSET) (q_head q) = Some (a_addr e).
Proof.
  intros Hb Hn. destruct (bl_reg _ _ _ _ Hb _ _ Hn) as (Hin & _ & _).
  eapply walk_blocks; [done|done|by apply Z.eqb_eq|]. intros y Hy Hs%Z.eqb_eq. unfold handle in Hs. lia.
Qed.

Lemma close_miss s q R l sem : blocks s q R l → (∀ name e, R !! name = Some e → handle e ≠ sem) →
  nsem_walk (size s) s (λ p, sem =? p + SEM_OFFSET) (q_head q) = Some 0.
Proof.
  intros Hb Hn. eapply walk_blocks; [done|]. intros p Hp. apply Z.eqb_neq. intros ->.
  destruct (bl_back _ _ _ _ Hb _ Hp) as (e' & He' & <-). by eapply Hn.
Qed.

(** ** What the operations do to the blocks *)

(** Another count, another flag. *)
Lemma blocks_update s q R l name e f n u : blocks s q R l → R !! name = Some e → Z.of_nat n < 2 ^ 16 →
  (∀ b, ns_flink (f b) = ns_flink b ∧ ns_blink (f b) = ns_blink b) →
  nview (f (nsem_at s (a_addr e))) = (Z.of_nat n, name, u) →
  blocks (on_nsem (a_addr e) f s) q (<[name := mk_entry (a_addr e) n u]> R) l.
Proof.
  intros Hb Hn Hlt Hf Hv. destruct (bl_reg _ _ _ _ Hb _ _ Hn) as (Hin & _ & _).
  assert (Hat : ∀ p, p ∈ l → p ≠ a_addr e → ns_name (nsem_at s p) ≠ name).
  { intros p Hp Hne <-. destruct (bl_back _ _ _ _ Hb _ Hp) as (e' & He' & <-). rewrite Hn in He'. by injection He' as <-. }
  split.
  - apply dq_repr_on; [done|apply Hb].
  - intros p. rewrite dom_on_nsem; apply (bl_dom _ _ _ _ Hb). done.
  - intros name' e'. rewrite lookup_insert_Some. intros [[<- <-]|[Hne He']].
    + cbn [a_addr a_conn a_unlinked]. by rewrite nsem_at_on, decide_True.
    + destruct (bl_reg _ _ _ _ Hb _ _ He') as (? & ? & Hv'). split_and!; [done|done|].
      rewrite nsem_at_on, decide_False; [done|]. intros E. destruct (bl_reg _ _ _ _ Hb _ _ Hn) as (_ & _ & Hv2).
      rewrite E in Hv'. congruence.
  - intros p Hp. rewrite nsem_at_on. case_decide as E; subst.
    + injection Hv as _ -> _. eexists. by rewrite lookup_insert_eq.
    + rewrite lookup_insert_ne; [by apply Hb|]. intros E'. by eapply Hat.
Qed.

Lemma nview_name s s' p : nview (nsem_at s' p) = nview (nsem_at s p) → ns_name (nsem_at s' p) = ns_name (nsem_at s p).
Proof. by intros [=]. Qed.

Lemma blocks_remove s q R l name e : blocks s q R l → R !! name = Some e →
  let r := dq_rem (a_addr e) q s in
  ∃ l', blocks (delete (a_addr e) r.2) r.1 (delete name R) l' ∧ ∀ p, p ∈ l' ↔ p ∈ l ∧ p ≠ a_addr e.
Proof.
  intros Hb Hn r. destruct (bl_reg _ _ _ _ Hb _ _ Hn) as (Hin & _ & Hv0).
  apply list_elem_of_split in Hin as (l1 & l2 & ->). set (p := a_addr e) in *.
  pose proof (bl_list _ _ _ _ Hb) as Hl. destruct (dq_rem_spec _ _ _ _ _ Hl) as (Hl' & _ & _ & _).
  assert (Hnin : p ∉ l1 ++ l2) by (destruct Hl as (_ & Hnd & _); by apply NoDup_mid in Hnd as [? _]).
  assert (Hmem : ∀ y, y ∈ l1 ++ l2 ↔ y ∈ l1 ++ p :: l2 ∧ y ≠ p) by set_solver.
  assert (Hview : ∀ y, nview (nsem_at r.2 y) = nview (nsem_at s y)).
  { intros y. apply (blind_rem (λ s : nstore, nview (nsem_at s y))). }
  assert (Hat : ∀ y, y ≠ p → nsem_at (delete p r.2) y = nsem_at r.2 y).
  { intros y Hy. unfold nsem_at. by rewrite lookup_delete_ne. }
  exists (l1 ++ l2). split; [|done]. split.
  - eapply (dq_repr_frame [p]); [|set_solver|exact Hl']. intros y Hy. cbn. rewrite Hat by set_solver. done.
  - intros y. rewrite dom_delete_L, elem_of_difference, elem_of_singleton, Hmem.
    unfold r. rewrite (dom_rem _ _ _ _ _ Hl) by (intros; by apply (bl_dom _ _ _ _ Hb)). by rewrite (bl_dom _ _ _ _ Hb).
  - intros name' e'. rewrite lookup_delete_Some. intros [Hne He'].
    destruct (bl_reg _ _ _ _ Hb _ _ He') as (Hin' & ? & Hv').
    assert (a_addr e' ≠ p) by (intros E; rewrite E in Hv'; congruence).
    split_and!; [by apply Hmem|done|]. by rewrite Hat, Hview.
  - intros y [Hy Hne]%Hmem. destruct (bl_back _ _ _ _ Hb _ Hy) as (e' & He' & Ha). exists e'. split; [|done].
    rewrite Hat, (nview_name _ _ _ (Hview y)) by done. rewrite lookup_delete_ne; [done|].
    intros E. rewrite <-E, Hn in He'. injection He' as <-. done.
Qed.

Lemma blocks_create s q R l name p : blocks s q R l → R !! name = None → p ∉ l → p ≠ 0 →
  let s1 := on_nsem p (λ n, with_name name (with_unlinked false (with_nconnect 1 n))) s in
  blocks (dq_addfirst p q s1).2 (dq_addfirst p q s1).1 (<[name := mk_entry p 1 false]> R) (p :: l).
Proof.
  intros Hb Hn Hp Hp0 s1. pose proof (bl_list _ _ _ _ Hb) as Hl.
  assert (Hl1 : dq_repr s1 q l) by (by apply dq_repr_on).
  destruct (dq_addfirst_spec _ _ _ _ Hl1 Hp Hp0) as [Hl' _].
  assert (Hview : ∀ y, nview (nsem_at (dq_addfirst p q s1).2 y) = nview (nsem_at s1 y)).
  { intros y. apply (blind_addfirst (λ s : nstore, nview (nsem_at s y))). }
  assert (Hdom : ∀ y, y ∈ dom s1 ↔ y ∈ p :: l).
  { intros y. unfold s1, on_nsem. rewrite dom_insert_L, elem_of_union, elem_of_singleton, elem_of_cons.
    by rewrite (bl_dom _ _ _ _ Hb). }
  split.
  - done.
  - intros y. rewrite (dom_addfirst _ _ l); [done|done|intros; apply Hdom; set_solver|apply Hdom; set_solver].
  - intros name' e'. rewrite Hview. unfold s1. rewrite nsem_at_on, lookup_insert_Some. intros [[<- <-]|[Hne He']].
    + cbn [a_addr a_conn a_unlinked]. rewrite decide_True by done. split_and!; [set_solver|done|done].
    + destruct (bl_reg _ _ _ _ Hb _ _ He') as (? & ? & Hv'). rewrite decide_False by (intros E; by rewrite E in *).
      split_and!; [set_solver|done|done].
  - intros y Hy. rewrite (nview_name _ _ _ (Hview y)). unfold s1. rewrite nsem_at_on. case_decide as E; subst.
    + cbn [ns_name with_name]. eexists. by rewrite lookup_insert_eq.
    + apply elem_of_cons in Hy as [?|Hy]; [done|]. destruct (bl_back _ _ _ _ Hb _ Hy) as (e' & He' & Ha). exists e'.
      split; [|done]. rewrite lookup_insert_ne; [done|]. intros E'. by rewrite <-E', Hn in He'.
Qed.

(** ** The calls *)

Section Refine.
Context {T : Type} {HK : KernelHeap T} {HL : KernelHeapLaws T}.
Implicit Types (st : nsst T) (R : reg) (X : gset Z) (L : tasklist → list Z).

(** The heap holds, beside the blocks [X] of others, exactly the listed blocks. *)
Definition ns_heap st R X : Prop :=
  ∃ l, blocks (n_store st) (g_nsems st) R l ∧ h_owns (n_heap st) (X ∪ list_to_set l) ∧ ∀ p, p ∈ l → p ∉ X.

Definition ns_inv st R X L idle : Prop := sched_inv (sch (n_sem st)) L idle ∧ ns_heap st R X.

(** The heap has a free chunk for [n] bytes. *)
Definition heap_fit st (n : Z) : Prop := h_fits n (n_heap st).

(** The count that a call gives to the semaphore [k]. *)
Definition initial_count R (op : ns_op) (ret k : Z) : option Z :=
  match op with
  | NsOpen (Some name) _ v =>
      match R !! name with
      | None => if negb (ret =? NS_ERROR) && (k =? ret) then Some v else None
      | Some _ => None
      end
  | _ => None
  end.

(** What a call does to the semaphores: it initializes those it creates, and nothing else. *)
Definition counts_step R op ret (s s' : semst) : Prop :=
  ∀ k, semcount s' k = default (semcount s k) (initial_count R op ret k).

Definition ns_exec (op : ns_op) st : option (Z * nsst T) :=
  match op with
  | NsOpen name oflag value => sem_open name oflag value st
  | NsClose sem => sem_close sem st
  | NsUnlink name => sem_unlink name st
  end.

(** The obligations of the callers: the scheduler's lock does not overflow; for [sem_open] the memory
    manager is free, the sizes are representable and there are fewer than 65535 connections. *)
Definition ns_ready (op : ns_op) st : Prop :=
  match op with
  | NsOpen (Some name) _ v => 0 ≤ v ∧ h_ready (n_heap st) ∧ Z.of_nat (String.length name) + 44 < 2 ^ 32 ∧
      ∀ p, p ∈ dom (n_store st) → ns_name (nsem_at (n_store st) p) = name →
        nconnect (nsem_at (n_store st) p) + 1 < 2 ^ 16
  | _ => True
  end.
Definition ns_legal (op : ns_op) st : Prop :=
  locks (tcbs (sch (n_sem st))) (this_task (sch (n_sem st))) < MAX_LOCK_COUNT ∧ ns_ready op st.

Lemma ns_lock_run st L idle : sched_inv (sch (n_sem st)) L idle →
  locks (tcbs (sch (n_sem st))) (this_task (sch (n_sem st))) < MAX_LOCK_COUNT →
  ∃ s, ns_lock st = Some (with_nsem s st) ∧ sched_inv (sch s) L idle ∧ same_view (n_sem st) s.
Proof.
  intros Hs Hm. destruct (sched_lock_abs _ _ _ false Hs Hm) as (t & E & Ht & _).
  pose proof (same_lockless_core _ _ (sched_lock_lockless _ _ _ E)) as Hco.
  exists (with_sched (n_sem st) t). unfold ns_lock. rewrite E. split_and!; [done|done|].
  split; [done|intros x; by apply (field_core waitsem)|intros x; by apply (field_core pterrno)].
Qed.

Lemma ns_unlock_run st L idle : sched_inv (sch (n_sem st)) L idle →
  ∃ s L', ns_unlock st = Some (with_nsem s st) ∧ sched_inv (sch s) L' idle ∧ same_view (n_sem st) s.
Proof.
  intros Hs. destruct (sched_unlock_abs _ _ _ false Hs) as (t & L' & E & Ht & _).
  pose proof (same_lockless_core _ _ (sched_unlock_lockless _ _ _ E)) as Hco.
  exists (with_sched (n_sem st) t), L'. unfold ns_unlock. rewrite E. split_and!; [done|done|].
  split; [done|intros x; by apply (field_core waitsem)|intros x; by apply (field_core pterrno)].
Qed.

(** What a call does with the scheduler locked. *)
Definition locked_ok R X op st (r : option (Z * nsst T)) : Prop :=
  ∃ ret st' R', r = Some (ret, st') ∧ reg_step (heap_fit st) R op ret R' ∧ ns_heap st' R' X ∧
    sch (n_sem st') = sch (n_sem st) ∧ counts_step R op ret (n_sem st) (n_sem st').

(** Nothing but the blocks changes. *)
Lemma locked_quiet R X op st ret st' R' : reg_step (heap_fit st) R op ret R' → ns_heap st' R' X → n_sem st' = n_sem st →
  (∀ k, initial_count R op ret k = None) → locked_ok R X op st (Some (ret, st')).
Proof.
  intros Hs Hh E Hc. exists ret, st', R'. split_and!; [done|done|done|by rewrite E|]. intros k. by rewrite E, Hc.
Qed.

Lemma init_ok sem v s : sem ≠ 0 → v ≤ SEM_VALUE_MAX → sem_init sem v s = (SemOK, set_semcount sem v s).
Proof. intros Hs Hv. unfold sem_init. by rewrite (proj2 (Z.eqb_neq sem 0)), (proj2 (Z.leb_le _ _)). Qed.

Lemma created_counts R name oflag v p s : R !! name = None → 0 ≤ v ≤ SEM_VALUE_MAX → 0 < p →
  counts_step R (NsOpen (Some name) oflag v) (p + SEM_OFFSET) s (sem_init (p + SEM_OFFSET) v s).2.
Proof.
  intros Hn Hv Hp k. unfold initial_count, SEM_OFFSET. rewrite Hn, init_ok by lia. cbn [snd].
  rewrite (proj2 (Z.eqb_neq (p + 18) NS_ERROR)) by (unfold NS_ERROR; lia). cbn [negb andb].
  rewrite semcount_set. destruct (Z.eqb_spec k (p + 18)); [|by rewrite decide_False].
  rewrite decide_True by done. cbn. apply i16_small. unfold SEM_VALUE_MAX in *. lia.
Qed.

Lemma open_locked_ok R X st name oflag v : ns_heap st R X → ns_ready (NsOpen (Some name) oflag v) st →
  locked_ok R X (NsOpen (Some name) oflag v) st (sem_open_locked name oflag v st).
Proof.
  intros Hh (Hv & Hready & Hlen & Hconn). pose proof Hh as (l & Hb & Ho & Hx). unfold sem_open_locked.
  destruct (Z.ltb_spec 0 (Z.of_nat (String.length name))) as [Hl|Hl]; cbn [negb].
  2:{ assert (name = EmptyString) as -> by (destruct name; [done|simpl in Hl; lia]).
      eapply locked_quiet; [by constructor; right|done|done|]. intros k. cbn. by destruct (R !! _). }
  assert (Hne : name ≠ EmptyString) by (by intros ->).
  unfold sem_findnamed. destruct (R !! name) as [e|] eqn:Hn.
  - rewrite (find_hit _ _ _ _ _ _ Hb Hn). cbn [mbind option_bind].
    destruct (bl_reg _ _ _ _ Hb _ _ Hn) as (Hin & Hlt & Hview).
    assert (0 < a_addr e) by (eapply h_owns_pos; [exact Ho|set_solver]).
    rewrite (proj2 (Z.eqb_neq (a_addr e) 0)) by lia. cbn [negb].
    assert (Hnew : ∀ ret k, initial_count R (NsOpen (Some name) oflag v) ret k = None) by (intros; cbn; by rewrite Hn).
    destruct (_ || _) eqn:Hf; (eapply locked_quiet; [..|done|done]).
    + eapply rs_connect; [done|done|]. intros [Hc He]. unfold creates in *. apply orb_true_iff in Hf as [Hf|Hf]; zb; done.
    + injection Hview as Hc Hnm Hu. exists l. split_and!; [|done|done]. cbn [n_store g_nsems with_nstore].
      assert (Hc1 : Z.of_nat (a_conn e) + 1 < 2 ^ 16).
      { rewrite <-Hc. apply Hconn; [by apply (bl_dom _ _ _ _ Hb)|done]. }
      eapply blocks_update; [done|done|lia|done|]. unfold nview. cbn. rewrite Hc, Hnm, Hu, Z.mod_small by lia. do 2 f_equal. lia.
    + eapply rs_exists; [done|done|]. apply orb_false_iff in Hf as [? ?]; zb. done.
    + done.
  - rewrite (find_miss _ _ _ _ _ Hb Hn). cbn [mbind option_bind Z.eqb negb].
    assert (Hnew : ∀ k, initial_count R (NsOpen (Some name) oflag v) NS_ERROR k = None) by (intros; cbn; by rewrite Hn).
    destruct (Z.eqb_spec (Z.land oflag O_CREAT) 0) as [Hc|Hc]; cbn [negb].
    { eapply locked_quiet; [|done|done|done]. apply rs_absent; [done|done|]. left. by intros ?. }
    destruct (Z.leb_spec v SEM_VALUE_MAX) as [Hm|Hm].
    2:{ eapply locked_quiet; [|done|done|done]. apply rs_absent; [done|done|]. by right. }
    destruct (h_malloc_ok (SIZEOF_NSEM + Z.of_nat (String.length name) + 1) _ _ Ho Hready)
      as (p & h & -> & _ & [(Hfull & -> & ->)|(Hfits & Hp0 & Hpn & Ho')]); cbn [mbind option_bind].
    { split; unfold SIZEOF_NSEM; lia. }
    { cbn [Z.eqb negb]. eapply locked_quiet; [by apply rs_nomem| |done|done].
      by exists l. }
    rewrite (proj2 (Z.eqb_neq p 0)) by done. cbn [negb].
    assert (Hpos : 0 < p) by (eapply h_owns_pos; [exact Ho'|set_solver]).
    eexists _, _, _. split; [reflexivity|]. split_and!; [apply rs_create; try done| | |].
    + intros n e He. destruct (bl_reg _ _ _ _ Hb _ _ He) as (Hin & _ & _).
      eapply h_owns_apart; [exact Ho'|set_solver|set_solver|]. intros ->. set_solver.
    + exists (p :: l). cbn [n_store g_nsems n_heap with_nlist with_nsem with_nheap]. split_and!.
      * apply blocks_create; [done|done|set_solver|lia].
      * replace (X ∪ list_to_set (p :: l)) with ({[p]} ∪ (X ∪ list_to_set l)) by set_solver. done.
      * intros y. rewrite elem_of_cons. intros [->|?]; [set_solver|auto].
    + cbn [n_sem with_nlist with_nsem with_nheap]. by rewrite init_ok by (unfold SEM_OFFSET; lia).
    + cbn [n_sem with_nlist with_nsem with_nheap]. by apply created_counts.
Qed.

(** Removing a block. *)
Lemma nsem_remove_ok R X st name e : ns_heap st R X → R !! name = Some e →
  ∃ st', nsem_remove (a_addr e) st = Some st' ∧ ns_heap st' (delete name R) X ∧ n_sem st' = n_sem st.
Proof.
  intros (l & Hb & Ho & Hx) Hn. destruct (bl_reg _ _ _ _ Hb _ _ Hn) as (Hin & _ & _).
  destruct (blocks_remove _ _ _ _ _ _ Hb Hn) as (l' & Hb' & Hl').
  unfold nsem_remove. cbn [n_heap with_nlist].
  destruct (h_free_ok (a_addr e) _ _ Ho) as (h & -> & _ & Ho'); [set_solver|]. cbn [mbind option_bind].
  eexists. split; [done|]. split; [|done]. exists l'. split_and!; [exact Hb'| |].
  - cbn [n_heap with_nheap]. replace (X ∪ list_to_set l') with ((X ∪ list_to_set l) ∖ {[a_addr e]}); [done|].
    apply set_eq. intros y. rewrite elem_of_difference, !elem_of_union, !elem_of_list_to_set, elem_of_singleton, Hl'.
    destruct (decide (y = a_addr e)) as [->|]; [|tauto]. pose proof (Hx _ Hin). tauto.
  - intros y [Hy _]%Hl'. auto.
Qed.

Lemma of_nat_zerob n : (Z.of_nat n =? 0) = (n =? 0)%nat.
Proof. by destruct n. Qed.

Lemma close_locked_ok R X st sem : ns_heap st R X → locked_ok R X (NsClose sem) st (sem_close_locked sem st).
Proof.
  intros Hh. pose proof Hh as (l & Hb & Ho & Hx). unfold sem_close_locked.
  destruct (decide (sem - SEM_OFFSET ∈ l)) as [Hp|Hno].
  2:{ assert (Hn : ∀ name e, R !! name = Some e → handle e ≠ sem).
      { intros name e Hn <-. apply Hno. unfold handle. rewrite Z.add_simpl_r. by apply (bl_reg _ _ _ _ Hb name). }
      rewrite (close_miss _ _ _ _ _ Hb Hn). eapply locked_quiet; [|done|done|done]. by apply rs_close_unknown. }
  replace sem with (sem - SEM_OFFSET + SEM_OFFSET) by lia. set (p := sem - SEM_OFFSET) in *. clearbody p.
  destruct (bl_back _ _ _ _ Hb _ Hp) as (e & Hn & <-). set (name := ns_name _) in Hn. clearbody name.
  change (a_addr e + SEM_OFFSET) with (handle e).
  rewrite (close_hit _ _ _ _ _ _ Hb Hn). cbn [mbind option_bind].
  assert (0 < a_addr e) by (eapply h_owns_pos; [exact Ho|set_solver]).
  rewrite (proj2 (Z.eqb_neq (a_addr e) 0)) by lia. cbn [negb]. cbv zeta.
  destruct (bl_reg _ _ _ _ Hb _ _ Hn) as (Hin & Hlt & Hview). injection Hview as Hc Hnm Hu.
  set (s1 := if negb (nconnect (nsem_at (n_store st) (a_addr e)) =? 0)
             then on_nsem (a_addr e) (λ n, with_nconnect (nconnect n - 1) n) (n_store st) else n_store st).
  assert (Hs1 : blocks s1 (g_nsems st) (<[name := mk_entry (a_addr e) (pred (a_conn e)) (a_unlinked e)]> R) l ∧
    nconnect (nsem_at s1 (a_addr e)) = Z.of_nat (pred (a_conn e)) ∧ unlinked (nsem_at s1 (a_addr e)) = a_unlinked e).
  { unfold s1. rewrite Hc. destruct (Z.eqb_spec (Z.of_nat (a_conn e)) 0) as [E|E]; cbn [negb].
    - assert (E0 : a_conn e = O) by lia. split; [|by rewrite Hc, Hu, E0]. rewrite insert_id; [done|].
      rewrite Hn. f_equal. rewrite E0. destruct e; cbn in *. by subst.
    - rewrite nsem_at_on, decide_True by done. cbn. rewrite Hc, Hu, Z.mod_small by lia. split; [|split; [lia|done]].
      eapply blocks_update; [done|done|lia|done|]. unfold nview. cbn. rewrite Hc, Hnm, Hu, Z.mod_small by lia.
      do 2 f_equal. lia. }
  destruct Hs1 as (Hb1 & -> & ->). clearbody s1.
  assert (Hh1 : ns_heap (with_nstore s1 st) (<[name := mk_entry (a_addr e) (pred (a_conn e)) (a_unlinked e)]> R) X) by (by exists l).
  pose proof (rs_close (heap_fit st) R name e Hn) as Hstep. unfold drop_connection in Hstep.
  rewrite of_nat_zerob.
  destruct (_ && _).
  - destruct (nsem_remove_ok _ _ _ name _ Hh1 (lookup_insert_eq _ _ _)) as (st' & E & Hh' & Es). cbn [a_addr] in E.
    rewrite E. cbn [mbind option_bind]. eapply locked_quiet; [exact Hstep| |done|done]. by rewrite delete_insert_eq in Hh'.
  - by eapply locked_quiet.
Qed.

Lemma unlink_locked_ok R X st name : ns_heap st R X → locked_ok R X (NsUnlink (Some name)) st (sem_unlink_locked name st).
Proof.
  intros Hh. pose proof Hh as (l & Hb & Ho & Hx). unfold sem_unlink_locked, sem_findnamed.
  destruct (R !! name) as [e|] eqn:Hn.
  2:{ rewrite (find_miss _ _ _ _ _ Hb Hn). eapply locked_quiet; [|done|done|done]. apply rs_unlink_unknown. by intros ? [= <-]. }
  rewrite (find_hit _ _ _ _ _ _ Hb Hn). cbn [mbind option_bind].
  assert (0 < a_addr e) by (eapply h_owns_pos; [exact Ho|]; apply elem_of_union_r, elem_of_list_to_set; by apply (bl_reg _ _ _ _ Hb name)).
  rewrite (proj2 (Z.eqb_neq (a_addr e) 0)) by lia. cbn [negb].
  destruct (bl_reg _ _ _ _ Hb _ _ Hn) as (Hin & Hlt & Hview). injection Hview as Hc Hnm Hu. rewrite Hc.
  pose proof (rs_unlink (heap_fit st) R name e Hn) as Hstep. unfold unlink_entry in Hstep.
 rewrite of_nat_zerob. destruct (a_conn e =? 0)%nat.
  - destruct (nsem_remove_ok _ _ _ _ _ Hh Hn) as (st' & -> & Hh' & Es). by eapply locked_quiet.
  - eapply locked_quiet; [exact Hstep| |done|done]. exists l. split_and!; [|done|done].
    eapply blocks_update; [done|done|lia|done|]. unfold nview. cbn. by rewrite Hc, Hnm.
Qed.

(** A call that locks the scheduler around its work. *)
Lemma locked_call R X st L idle op (f : nsst T → option (Z * nsst T)) : ns_inv st R X L idle →
  locks (tcbs (sch (n_sem st))) (this_task (sch (n_sem st))) < MAX_LOCK_COUNT →
  (∀ s, locked_ok R X op (with_nsem s st) (f (with_nsem s st))) →
  ∃ ret st' R' L', (st ← ns_lock st; '(ret, st) ← f st; st ← ns_unlock st; Some (ret, st)) = Some (ret, st') ∧
    reg_step (heap_fit st) R op ret R' ∧ ns_inv st' R' X L' idle ∧ counts_step R op ret (n_sem st) (n_sem st').
Proof.
  intros [Hs Hh] Hm Hf. destruct (ns_lock_run _ _ _ Hs Hm) as (s1 & -> & Hs1 & Hv1). cbn [mbind option_bind].
  destruct (Hf s1) as (ret & st2 & R' & -> & Hstep & Hh2 & Esch & Hcnt). cbn [mbind option_bind].
  cbn [n_sem with_nsem] in Esch, Hcnt. rewrite <-Esch in Hs1.
  destruct (ns_unlock_run _ _ _ Hs1) as (s3 & L' & -> & Hs3 & Hv3). cbn [mbind option_bind].
  exists ret, (with_nsem s3 st2), R', L'. split_and!; [done|done|by split|].
  intros k. cbn [n_sem with_nsem]. by rewrite (sv_sems _ _ Hv3), Hcnt, (sv_sems _ _ Hv1).
Qed.

(** Every call. *)
Lemma ns_exec_run op st R X L idle : ns_inv st R X L idle → ns_legal op st →
  ∃ ret st' R' L', ns_exec op st = Some (ret, st') ∧ reg_step (heap_fit st) R op ret R' ∧ ns_inv st' R' X L' idle ∧
    counts_step R op ret (n_sem st) (n_sem st').
Proof.
  intros Hi Hl. pose proof (proj1 Hl) as Hm. pose proof (proj2 Hi) as Hh.
  assert (Hnop : ∀ ret, reg_step (heap_fit st) R op ret R → (∀ k, initial_count R op ret k = None) → ns_exec op st = Some (ret, st) →
    ∃ ret st' R' L', ns_exec op st = Some (ret, st') ∧ reg_step (heap_fit st) R op ret R' ∧ ns_inv st' R' X L' idle ∧
      counts_step R op ret (n_sem st) (n_sem st')).
  { intros ret Hs Hc E. exists ret, st, R, L. split_and!; [done|done|done|]. intros k. by rewrite Hc. }
  destruct op as [[name|] oflag v|sem|[name|]]; cbn [ns_exec sem_open sem_unlink sem_close].
  - apply (locked_call R X st L idle _ (sem_open_locked name oflag v)); [done|done|]. intros s.
    apply open_locked_ok; [done|]. exact (proj2 Hl).
  - apply (Hnop NS_ERROR); [by constructor; left|done|done].
  - unfold sem_close. destruct (Z.eqb_spec sem 0) as [->|Hne]; cbn [negb].
    + apply (Hnop NS_ERROR); [|done|done]. apply rs_close_unknown. intros name e Hn E.
      destruct Hh as (l & Hb & Ho & _). assert (0 < a_addr e); [|unfold handle, SEM_OFFSET in E; lia].
      eapply h_owns_pos; [exact Ho|]. apply elem_of_union_r, elem_of_list_to_set. by apply (bl_reg _ _ _ _ Hb name).
    + apply (locked_call R X st L idle _ (sem_close_locked sem)); [done|done|]. intros s. by apply close_locked_ok.
  - apply (locked_call R X st L idle _ (sem_unlink_locked name)); [done|done|]. intros s. by apply unlink_locked_ok.
  - apply (Hnop NS_ERROR); [by constructor|done|done].
Qed.

(** C19. The calls on named semaphores refine a map from names to semaphores. sem_open, sem_close
    and sem_unlink return, provided the lock count of the scheduler is below its maximum and, for
    sem_open, the memory manager is free and the name has fewer than 65535 connections: a name is
    connected when it exists (unless O_CREAT and O_EXCL are given), also when it is unlinked, and
    created with one connection when it does not exist, O_CREAT is given, the value is at most
    SEM_VALUE_MAX and the heap has a free chunk that is large enough; an unlinked semaphore goes
    with its last connection, and whatever is refused changes nothing; the heap then holds exactly
    the blocks of the listed semaphores beside those of others, and the only semaphore whose count
    is written is one that is created. *)
Theorem ns_exec_refines op st R X L idle : ns_inv st R X L idle → ns_legal op st →
  ∃ ret st' R' L', ns_exec op st = Some (ret, st') ∧ reg_step (heap_fit st) R op ret R' ∧ ns_inv st' R' X L' idle ∧
    counts_step R op ret (n_sem st) (n_sem st').
Proof. apply ns_exec_run. Qed.

(** ** Handles *)

(** How many connections through each address the callers hold, after a sequence of calls and results. *)
Definition handle_step (h : Z → nat) (r : ns_op * Z) : Z → nat := λ a,
  match r with
  | (NsOpen _ _ _, ret) => if negb (ret =? NS_ERROR) && (a =? ret) then S (h a) else h a
  | (NsClose sem, ret) => if (ret =? NS_OK) && (a =? sem) then pred (h a) else h a
  | _ => h a
  end.
Definition handles (tr : list (ns_op * Z)) : Z → nat := foldl handle_step (λ _, O) tr.

(** Legal calls, where only the holder of a connection closes one. *)
Inductive ns_run st0 : list (ns_op * Z) → nsst T → Prop :=
  | run_nil : ns_run st0 [] st0
  | run_snoc tr st op ret st' : ns_run st0 tr st → ns_legal op st →
      (∀ sem, op = NsClose sem → (0 < handles tr sem)%nat) → ns_exec op st = Some (ret, st') →
      ns_run st0 (tr ++ [(op, ret)]) st'.

(** The registry counts the connections that are held, and every address held is in it. *)
Record ledger R (h : Z → nat) : Prop := {
  lg_conn : ∀ name e, R !! name = Some e → a_conn e = h (handle e) ∧ (a_unlinked e = true → (0 < h (handle e))%nat);
  lg_held : ∀ a, h a ≠ O → ∃ name e, R !! name = Some e ∧ handle e = a }.

(** Addresses are positive and identify the names. *)
Record reg_wf R : Prop := {
  rw_pos : ∀ name e, R !! name = Some e → 0 < a_addr e;
  rw_inj : ∀ n1 n2 e1 e2, R !! n1 = Some e1 → R !! n2 = Some e2 → a_addr e1 = a_addr e2 → n1 = n2 }.

Lemma ns_heap_wf R X st : ns_heap st R X → reg_wf R.
Proof.
  intros (l & Hb & Ho & _). split.
  - intros name e Hn. eapply h_owns_pos; [exact Ho|]. apply elem_of_union_r, elem_of_list_to_set. by apply (bl_reg _ _ _ _ Hb name).
  - intros n1 n2 e1 e2 (_ & _ & H1)%(bl_reg _ _ _ _ Hb) (_ & _ & H2)%(bl_reg _ _ _ _ Hb) E. rewrite E in H1. congruence.
Qed.

(** Updating the entry of a name and the handles at its address. *)
Lemma ledger_update R h h' name e n u : reg_wf R → ledger R h → R !! name = Some e →
  h' (handle e) = n → (∀ a, a ≠ handle e → h' a = h a) → (u = true → (0 < n)%nat) →
  ledger (<[name := mk_entry (a_addr e) n u]> R) h'.
Proof.
  intros Hw [Hc Hh] Hn Hn' Ho Hu. split.
  - intros name' e'. rewrite lookup_insert_Some. intros [[<- <-]|[Hne He']].
    + cbn [a_conn a_unlinked]. change (handle (mk_entry (a_addr e) n u)) with (handle e). rewrite Hn'. by split.
    + rewrite Ho; [by eapply Hc|]. intros E. apply Hne. eapply (rw_inj _ Hw); [done..|]. unfold handle in E. lia.
  - intros a Ha. destruct (decide (a = handle e)) as [->|Hne].
    + eexists _, _. rewrite lookup_insert_eq. by split.
    + rewrite Ho in Ha by done. apply Hh in Ha as (name' & e' & He' & <-). exists name', e'. split; [|done].
      rewrite lookup_insert_ne; [done|]. intros <-. rewrite Hn in He'. by injection He' as <-.
Qed.

(** Dropping a name that nobody holds. *)
Lemma ledger_delete R h h' name e : reg_wf R → ledger R h → R !! name = Some e →
  h' (handle e) = O → (∀ a, a ≠ handle e → h' a = h a) → ledger (delete name R) h'.
Proof.
  intros Hw [Hc Hh] Hn Hz Ho. split.
  - intros name' e'. rewrite lookup_delete_Some. intros [Hne He'].
    rewrite Ho; [by eapply Hc|]. intros E. apply Hne. eapply (rw_inj _ Hw); [done..|]. unfold handle in E. lia.
  - intros a Ha. destruct (decide (a = handle e)) as [->|Hne]; [done|].
    rewrite Ho in Ha by done. apply Hh in Ha as (name' & e' & He' & <-). exists name', e'. split; [|done].
    rewrite lookup_delete_ne; [done|]. intros <-. rewrite Hn in He'. by injection He' as <-.
Qed.

Lemma ledger_ext R h h' : (∀ a, h' a = h a) → ledger R h → ledger R h'.
Proof.
  intros E [Hc Hh]. split; [|intros a; rewrite E; apply Hh].
  intros name e Hn. rewrite E. by eapply Hc.
Qed.

Lemma ledger_step fits R h op ret R' : reg_wf R → ledger R h → reg_step fits R op ret R' →
  (∀ sem, op = NsClose sem → (0 < h sem)%nat) → ledger R' (handle_step h (op, ret)).
Proof.
  intros Hw Hl Hs Hheld. pose proof Hl as [Hc Hh].
  destruct Hs as [name oflag v Hno|name oflag v e Hne Hn Hx|name oflag v e Hne Hn Hx|name oflag v Hne Hn Hx
    |name oflag v Hne Hn Hx Hv Hfull|name oflag v p Hne Hn Hx Hv Hfits Hp Hap|name e Hn|sem Hn|name e Hn|name Hn];
    try (by apply (ledger_ext R h)).
  - pose proof (rw_pos _ Hw _ _ Hn). destruct (Hc _ _ Hn) as [Hcn Hun].
    assert (E : negb (handle e =? NS_ERROR) = true) by (unfold handle, SEM_OFFSET, NS_ERROR; lia).
    apply (ledger_update R h); [done..| | |lia]; unfold handle_step; rewrite E; cbn [andb].
    + by rewrite Z.eqb_refl, Hcn.
    + intros a Ha. by rewrite (proj2 (Z.eqb_neq _ _)).
  - assert (E : negb (p + SEM_OFFSET =? NS_ERROR) = true) by (unfold SEM_OFFSET, NS_ERROR; lia).
    assert (Hnew : h (p + SEM_OFFSET) = O).
    { destruct (decide (h (p + SEM_OFFSET) = O)) as [|Hnz]; [done|]. apply Hh in Hnz as (n & e & He & Ea).
      specialize (Hap _ _ He). unfold handle in Ea. lia. }
    unfold handle_step. rewrite E. cbn [andb]. split.
    + intros name' e'. rewrite lookup_insert_Some. intros [[<- <-]|[_ He']].
      * unfold handle. cbn [a_conn a_unlinked a_addr]. by rewrite Z.eqb_refl, Hnew.
      * specialize (Hap _ _ He'). rewrite (proj2 (Z.eqb_neq _ _)) by (unfold handle; lia). by eapply Hc.
    + intros a. destruct (Z.eqb_spec a (p + SEM_OFFSET)) as [->|Ha].
      * intros _. eexists _, _. rewrite lookup_insert_eq. by split.
      * intros (name' & e' & He' & <-)%Hh. exists name', e'. split; [|done].
        rewrite lookup_insert_ne; [done|]. intros <-. by rewrite Hn in He'.
  - destruct (Hc _ _ Hn) as [Hcn Hun]. unfold drop_connection.
    assert (Hat : handle_step h (NsClose (handle e), NS_OK) (handle e) = pred (a_conn e)).
    { unfold handle_step. by rewrite !Z.eqb_refl, Hcn. }
    assert (Ho : ∀ a, a ≠ handle e → handle_step h (NsClose (handle e), NS_OK) a = h a).
    { intros a Ha. unfold handle_step. by rewrite (proj2 (Z.eqb_neq a _)), andb_false_r. }
    destruct (Nat.eqb_spec (pred (a_conn e)) 0) as [E|E], (a_unlinked e) eqn:Eu; cbn [andb].
    + eapply ledger_delete; [done..| |done]. by rewrite Hat.
    + by apply (ledger_update R h).
    + apply (ledger_update R h); [done..|lia].
    + by apply (ledger_update R h).
  - destruct (Hc _ _ Hn) as [Hcn Hun]. unfold unlink_entry.
    destruct (Nat.eqb_spec (a_conn e) 0) as [E|E].
    + eapply ledger_delete; [done..| |done]. cbn. lia.
    + apply (ledger_update R h); [done..|cbn; lia|done|lia].
Qed.

(** C20. A named semaphore that is held open is never freed, and none is leaked: after any sequence
    of legal calls since sem_initialize, in which connections are closed only by those who hold one,
    every address through which a connection is still held is the semaphore of a block on the list,
    which the heap still has in use; the count of each listed block is the number of connections
    held; a listed block that was unlinked is held; and the heap holds no other block than these and
    those of others. *)
Theorem ns_run_safe st X L idle tr st' : sched_inv (sch (n_sem st)) L idle → n_store st = ∅ → h_owns (n_heap st) X →
  ns_run (sem_initialize st) tr st' →
  ∃ R L', ns_inv st' R X L' idle ∧
    (∀ a, handles tr a ≠ O → ∃ name e, R !! name = Some e ∧ handle e = a) ∧
    (∀ name e, R !! name = Some e → a_conn e = handles tr (handle e) ∧
       (a_unlinked e = true → (0 < handles tr (handle e))%nat)).
Proof.
  intros Hs He Ho Hrun. assert (∃ R L', ns_inv st' R X L' idle ∧ ledger R (handles tr)) as (R & L' & Hi & [Hc Hh]);
    [|by exists R, L'].
  induction Hrun as [|tr st1 op ret st2 Hrun (R & L1 & Hi & Hled) Hl Hheld E].
  - exists ∅, L. split.
    + split; [done|]. exists []. cbn [n_store g_nsems n_heap sem_initialize with_nlist fst snd]. rewrite He. split_and!.
      * split; [by split_and!; [|apply NoDup_nil_2|set_solver|..]|set_solver|by intros ? ? ?%lookup_empty_Some|set_solver].
      * by replace (X ∪ list_to_set []) with X by set_solver.
      * set_solver.
    + split; [by intros ? ? ?%lookup_empty_Some|done].
  - destruct (ns_exec_run op st1 R X L1 idle Hi Hl) as (ret' & st'' & R' & L2 & E' & Hstep & Hi' & _).
    rewrite E in E'. injection E' as <- <-. exists R', L2. split; [done|].
    unfold handles. rewrite foldl_app. cbn [foldl]. eapply ledger_step; [by eapply ns_heap_wf, Hi|done|done|done].
Qed.
End Refine.
