(* ===== verification/NamedSemWit.v ===== *)
(** The delayed deallocations and the named semaphores on the concrete heap of
    MmLib.v and the tasks of SchedSpec.v, and what unlinking a name and wrapping
    the count of connections do. *)

From stdpp Require Import base numbers functions gmap strings sorting list.
From S2P Require Import Prelude Queue Memory Mm MmSpec MmThms MmLib Sched SchedInv SchedThms Sem SemThms SemSpec.
From S2P Require Import Kmalloc Garbage NamedSem NamedSemThms.
From S2P Require Import SchedSpec.

(** ** Delayed deallocations *)

(** A block of 100 bytes is in use at 0x2010. *)
Lemma kheap1_repr : ∃ m H c, kh_repr 0x1000 (mk_kheap (with_mem heap0 m) sq_init) H {[ 0x2008 := c ]} [].
Proof.
  destruct heap1_represents as (m & H & c & HR & _). exists m, H, c.
  split; [exact HR| |intros p Hp; by apply not_elem_of_nil in Hp].
  split_and!; [done|apply NoDup_nil_2|apply not_elem_of_nil|done|done].
Qed.

(** An interrupt handler frees it. *)
Lemma sched_free_correct_witness : ∃ st st' H A, is_Some (A !! (0x2010 - 8)) ∧ kh_repr 0x1000 st H A [] ∧
  sched_free 0x1000 3 true 0x2010 st = Some st' ∧ kh_repr 0x1000 st' H A [0x2010].
Proof.
  destruct kheap1_repr as (m & H & c & Hk).
  destruct (sched_free_correct 0x1000 3 true 0x2010 _ _ _ _ Hk) as (m' & q & E & Hr);
    [by eexists; apply lookup_singleton_eq|apply not_elem_of_nil|by left|].
  eexists _, _, _, _. split; [|split; [exact Hk|split; [exact E|exact Hr]]]. by eexists; apply lookup_singleton_eq.
Defined.

(** The idle loop frees it for good. *)
Lemma idle_collect_correct_witness : ∃ st m H A, kh_repr 0x1000 st H A [0x2010] ∧ is_Some (A !! 0x2008) ∧
  idle_collect 0x1000 3 2 st = Some (mk_kheap (with_mem (kh_mm st) m) sq_init) ∧
  ∃ H' A', kh_repr 0x1000 (mk_kheap (with_mem (kh_mm st) m) sq_init) H' A' [] ∧ A' !! 0x2008 = None.
Proof.
  destruct kheap1_repr as (m0 & H & c & Hk).
  assert (Hin : is_Some (({[ 0x2008 := c ]} : gmap Z Z) !! (0x2010 - 8))) by (eexists; apply lookup_singleton_eq).
  destruct (delay_free_ok 0x1000 0x2010 _ _ _ _ Hk Hin) as [Hd [m1 Em]]; [apply not_elem_of_nil|].
  cbn [app] in Hd. set (st := delay_free _ _) in *.
  destruct (idle_collect_correct 0x1000 3 2 st _ _ _ Hd) as [Hc _]; [simpl; lia|].
  destruct Hc as (m & H' & A' & E & Hk' & HA & _); [rewrite Em; apply heap0_ready|].
  exists st, m, H, {[ 0x2008 := c ]}. split; [exact Hd|]. split; [exact Hin|]. split; [exact E|].
  exists H', A'. split; [exact Hk'|]. destruct (A' !! 0x2008) as [s|] eqn:Es; [|done].
  apply HA in Es as [_ Hn]. destruct Hn. apply list_elem_of_here.
Defined.

(** ** Named semaphores *)

#[local] Instance wit_heap : KernelHeap kheap := kheap_ops 0x1000 3.
#[local] Instance wit_laws : KernelHeapLaws kheap := kheap_laws 0x1000 3.

Definition ns_start : nsst kheap := mk_nsst sem0 (delayed_init heap0) ∅ dq_init.
Definition ns0 : nsst kheap := sem_initialize ns_start.

Lemma ns_start_owns : h_owns (n_heap ns_start) ∅.
Proof.
  split; [left; apply heap0_ready|]. eexists _, ∅, []. split; [split; [apply heap0_represents| |]|].
  - split_and!; [done|apply NoDup_nil_2|apply not_elem_of_nil|done|done].
  - intros p Hp. by apply not_elem_of_nil in Hp.
  - intros p. rewrite lookup_empty. split; [set_solver|]. by intros [[] _].
Qed.

Lemma ns0_inv : ns_inv ns0 ∅ ∅ lists0 idle0.
Proof.
  split; [apply sem0_inv|]. exists []. split_and!; [|apply ns_start_owns|set_solver].
  split; [by split_and!; [|apply NoDup_nil_2|set_solver|..]|set_solver|by intros ? ? ?%lookup_empty_Some|set_solver].
Qed.

Definition open_a (oflag : Z) : ns_op := NsOpen (Some "a"%string) oflag 1.

Lemma ns0_legal oflag : ns_legal (open_a oflag) ns0.
Proof.
  split; [by vm_compute|]. split_and!; [lia|apply heap0_ready|by vm_compute|].
  intros p Hp. change (n_store ns0) with (∅ : nstore) in Hp. by rewrite dom_empty_L in Hp.
Qed.

Lemma ns_exec_refines_witness : ∃ ret st' R', ns_exec (open_a O_CREAT) ns0 = Some (ret, st') ∧
  reg_step (heap_fit ns0) ∅ (open_a O_CREAT) ret R' ∧ ret = 0x2010 + SEM_OFFSET ∧ semcount (n_sem st') ret = 1.
Proof.
  destruct (ns_exec_refines (open_a O_CREAT) ns0 ∅ ∅ lists0 idle0 ns0_inv (ns0_legal _)) as (ret & st' & R' & L' & E & Hs & _ & Hc).
  exists ret, st', R'. assert (Er : fst <$> ns_exec (open_a O_CREAT) ns0 = Some (0x2010 + SEM_OFFSET)) by by vm_compute.
  rewrite E in Er. injection Er as ->. split; [exact E|]. split; [exact Hs|]. split; [done|].
  specialize (Hc (0x2010 + SEM_OFFSET)). by vm_compute in Hc.
Defined.

(** Opened, then unlinked: the one who opened it still has it. *)
Lemma ns_run_safe_witness : ∃ st' R, ns_run ns0 [(open_a O_CREAT, 0x2010 + SEM_OFFSET); (NsUnlink (Some "a"%string), NS_OK)] st' ∧
  ns_heap st' R ∅ ∧ ∃ e, R !! "a"%string = Some e ∧ handle e = 0x2010 + SEM_OFFSET ∧ a_conn e = 1%nat.
Proof.
  assert (E1 : ∃ st1, ns_exec (open_a O_CREAT) ns0 = Some (0x2010 + SEM_OFFSET, st1) ∧
            ∃ st2, ns_exec (NsUnlink (Some "a"%string)) st1 = Some (NS_OK, st2) ∧
            locks (tcbs (sch (n_sem st1))) (this_task (sch (n_sem st1))) < MAX_LOCK_COUNT ∧
            ns_name (nsem_at (n_store st2) 0x2010) = "a"%string).
  { assert (Hc : (r ← ns_exec (open_a O_CREAT) ns0; r2 ← ns_exec (NsUnlink (Some "a"%string)) r.2;
               Some (r.1, r2.1, locks (tcbs (sch (n_sem r.2))) (this_task (sch (n_sem r.2))),
                     ns_name (nsem_at (n_store r2.2) 0x2010))) =
             Some (0x2010 + SEM_OFFSET, NS_OK, 0, "a"%string)) by by vm_compute.
    destruct (ns_exec (open_a O_CREAT) ns0) as [[r1 st1]|]; [|done]. cbn [mbind option_bind snd fst] in Hc.
    destruct (ns_exec _ st1) as [[r2 st2]|] eqn:E; [|done]. cbn [mbind option_bind snd fst] in Hc.
    injection Hc as -> -> Hl Hn. exists st1. split; [done|]. exists st2. by rewrite Hl. }
  destruct E1 as (st1 & E1 & st2 & E2 & Hl & Hn).
  assert (Hrun : ns_run ns0 [(open_a O_CREAT, 0x2010 + SEM_OFFSET); (NsUnlink (Some "a"%string), NS_OK)] st2).
  { apply (run_snoc _ [(open_a O_CREAT, 0x2010 + SEM_OFFSET)] st1); [|by split|done|exact E2].
    apply (run_snoc _ [] ns0); [constructor|apply ns0_legal|done|exact E1]. }
  destruct (ns_run_safe ns_start ∅ lists0 idle0 _ st2 (sv_sched _ _ _ sem0_inv) eq_refl ns_start_owns Hrun)
    as (R & L' & [_ Hh] & Hheld & Hconn).
  exists st2, R. split; [exact Hrun|]. split; [exact Hh|].
  destruct (Hheld (0x2010 + SEM_OFFSET)) as (name & e & He & Ha); [by vm_compute|].
  destruct (Hconn _ _ He) as [Hc _]. exists e. rewrite Ha in Hc.
  destruct Hh as (l & Hb & _). destruct (bl_reg _ _ _ _ Hb _ _ He) as (_ & _ & Hv). injection Hv as _ Hv _.
  assert (a_addr e = 0x2010) as Ea by (unfold handle in Ha; lia). rewrite Ea, Hn in Hv. subst name.
  split; [exact He|]. split; [exact Ha|]. rewrite Hc. by vm_compute.
Defined.

(** ** What unlinking and counting do *)

(** The name of an unlinked semaphore that is still open stays taken: until the last connection is
    closed, sem_open connects to the unlinked semaphore, and O_CREAT|O_EXCL fails. *)
Theorem unlinked_name_reconnects (st : nsst kheap) R X L idle name e : ns_inv st R X L idle → name ≠ EmptyString →
  R !! name = Some e → a_conn e ≠ O → ns_legal (NsUnlink (Some name)) st →
  ∃ st', sem_unlink (Some name) st = Some (NS_OK, st') ∧
    ∀ oflag v, ns_legal (NsOpen (Some name) oflag v) st' → ∃ ret st2,
      sem_open (Some name) oflag v st' = Some (ret, st2) ∧
      (excludes oflag → ret = NS_ERROR) ∧ (¬ excludes oflag → ret = handle e).
Proof.
  intros Hi Hne Hn Hc Hl. destruct (ns_exec_run _ _ _ _ _ _ Hi Hl) as (r1 & st' & R' & L' & E & Hs & Hi' & _).
  inversion Hs as [| | | | | | | |name' e' Hn'|name' Hn']; subst; [|by rewrite (Hn' name eq_refl) in Hn].
  rewrite Hn in Hn'. injection Hn' as <-. exists st'. split; [exact E|]. intros oflag v Hl2.
  destruct (ns_exec_run _ _ _ _ _ _ Hi' Hl2) as (ret & st2 & R2 & L2 & E2 & Hs2 & _ & _).
  exists ret, st2. split; [exact E2|]. clear E E2 Hi Hi' Hl Hl2 Hs.
  unfold unlink_entry in Hs2. rewrite (proj2 (Nat.eqb_neq _ _) Hc) in Hs2.
  inversion Hs2 as [n o w [?|?]|n o w e2 Hne2 Hn2 Hx2|n o w e2 Hne2 Hn2 Hx2|n o w Hne2 Hn2|n o w Hne2 Hn2|n o w p Hne2 Hn2| | | |];
    subst; try congruence; rewrite lookup_insert_eq in Hn2; try done; injection Hn2 as <-; split; by intros ?.
Qed.

(** The count of connections has 16 bits: with 65535 connections one more makes it 0, and then
    sem_unlink frees the semaphore that 65536 connections still refer to. *)
Lemma connections_wrap :
  (r ← sem_open (Some "a"%string) O_CREAT 1 ns0;
   let st := with_nstore (on_nsem 0x2010 (with_nconnect 65535) (n_store r.2)) r.2 in
   r ← sem_open (Some "a"%string) O_CREAT 1 st;
   r2 ← sem_unlink (Some "a"%string) r.2;
   Some (r.1, nconnect (nsem_at (n_store r.2) 0x2010), r2.1, elements (dom (n_store r2.2)))) =
  Some (0x2010 + SEM_OFFSET, 0, NS_OK, []).
Proof. by vm_compute. Qed.
