(* ===== verification/Str.v ===== *)
(** Strings: lib/string and the pattern matcher lib/misc/lib_match.c, on byte
    memory.

    A string is an address; [char] is unsigned, as on ARM, [size_t], [int] and
    [long] have 32 bits.  A loop that stops at the end of a string takes fuel; a
    function that calls others passes [N] on to them.  Loops that count down are
    by recursion on the count. *)

From stdpp Require Import base numbers gmap sorting list.
From S2P Require Import Prelude Memory.

Implicit Types m : mem.

(** Signed 8-bit wrap-around. *)
Definition i8 (z : Z) : Z := (z + 2 ^ 7) mod 2 ^ 8 - 2 ^ 7.

(** ** include/ctype.h *)

Definition isspace (c : Z) : bool :=
  (c =? 32) || (c =? 9) || (c =? 10) || (c =? 13) || (c =? 12) || (c =? 11).
Definition toupper (c : Z) : Z := if (97 <=? c) && (c <=? 122) then c - 97 + 65 else c.

(** ** Blocks of memory *)

Fixpoint memcmp (n : nat) m (p1 p2 : Z) : Z :=
  match n with
  | O => 0
  | S n =>
      if getb m p1 <? getb m p2 then -1
      else if getb m p2 <? getb m p1 then 1
      else memcmp n m (p1 + 1) (p2 + 1)
  end.

(** [while (count--) *--tmp = *--s;] *)
Fixpoint memmove_down (count : nat) m (tmp s : Z) : mem :=
  match count with
  | O => m
  | S count => memmove_down count (putb m (tmp - 1) (getb m (s - 1))) (tmp - 1) (s - 1)
  end.

Definition memmove m (dest src count : Z) : mem :=
  if dest <=? src then memcpy m dest src (Z.to_nat count)
  else memmove_down (Z.to_nat count) m (dest + count) (src + count).

(** ** Lengths *)

Fixpoint strlen_loop (fuel : nat) m (sc : Z) : option Z :=
  match fuel with
  | O => None
  | S fuel => if negb (getb m sc =? 0) then strlen_loop fuel m (sc + 1) else Some sc
  end.
Definition strlen (N : nat) m (s : Z) : option Z := sc ← strlen_loop N m s; Some (w32 (sc - s)).

Fixpoint strnlen_loop (maxlen : nat) m (sc : Z) : Z :=
  match maxlen with
  | O => sc
  | S maxlen => if negb (getb m sc =? 0) then strnlen_loop maxlen m (sc + 1) else sc
  end.
Definition strnlen m (s maxlen : Z) : Z := w32 (strnlen_loop (Z.to_nat maxlen) m s - s).

(** ** Comparing *)

Fixpoint strcmp (fuel : nat) m (cs ct : Z) : option Z :=
  match fuel with
  | O => None
  | S fuel =>
      let result := i8 (getb m cs - getb m ct) in
      if negb (result =? 0) || (getb m cs =? 0) then Some result
      else strcmp fuel m (cs + 1) (ct + 1)
  end.

Fixpoint strncmp_loop (nb : nat) m (cs ct result : Z) : Z :=
  match nb with
  | O => result
  | S nb =>
      let result := getb m cs - getb m ct in
      if negb (result =? 0) || (getb m cs =? 0) then result
      else strncmp_loop nb m (cs + 1) (ct + 1) result
  end.
Definition strncmp m (cs ct nb : Z) : Z := strncmp_loop (Z.to_nat nb) m cs ct 0.

Fixpoint strcasecmp (fuel : nat) m (cs ct : Z) : option Z :=
  match fuel with
  | O => None
  | S fuel =>
      let result := toupper (getb m cs) - toupper (getb m ct) in
      if negb (result =? 0) || (getb m cs =? 0) then Some result
      else strcasecmp fuel m (cs + 1) (ct + 1)
  end.

Fixpoint strncasecmp_loop (nb : nat) m (cs ct result : Z) : Z :=
  match nb with
  | O => result
  | S nb =>
      let result := toupper (getb m cs) - toupper (getb m ct) in
      if negb (result =? 0) || (getb m cs =? 0) then result
      else strncasecmp_loop nb m (cs + 1) (ct + 1) result
  end.
Definition strncasecmp m (cs ct nb : Z) : Z := strncasecmp_loop (Z.to_nat nb) m cs ct 0.

(** ** Copying *)

Fixpoint strcpy (fuel : nat) m (dest src : Z) : option mem :=
  match fuel with
  | O => None
  | S fuel =>
      let c := getb m src in
      let m := putb m dest c in
      if negb (c =? 0) then strcpy fuel m (dest + 1) (src + 1) else Some m
  end.

Fixpoint strncpy_loop (fuel : nat) m (dest src limit : Z) : option mem :=
  match fuel with
  | O => None
  | S fuel =>
      let c := getb m src in
      let m := putb m dest c in
      if negb (c =? 0) && negb (dest + 1 =? limit) then strncpy_loop fuel m (dest + 1) (src + 1) limit else Some m
  end.
Definition strncpy (N : nat) m (dest src n : Z) : option mem := strncpy_loop N m dest src (dest + n).

Fixpoint strcat_loop (fuel : nat) m (dest src : Z) : option mem :=
  match fuel with
  | O => None
  | S fuel =>
      if negb (getb m src =? 0) then strcat_loop fuel (putb m dest (getb m src)) (dest + 1) (src + 1)
      else Some (putb m dest 0)
  end.
Definition strcat (N : nat) m (dest src : Z) : option mem :=
  n ← strlen N m dest; strcat_loop N m (dest + n) src.

Fixpoint strncat_loop (n : nat) m (dest src : Z) : mem :=
  match n with
  | O => putb m dest 0
  | S n =>
      if negb (getb m src =? 0) then strncat_loop n (putb m dest (getb m src)) (dest + 1) (src + 1)
      else putb m dest 0
  end.
Definition strncat (N : nat) m (dest src n : Z) : option mem :=
  k ← strlen N m dest; Some (strncat_loop (Z.to_nat n) m (dest + k) src).

(** ** Searching *)

Fixpoint strchr_loop (fuel : nat) m (s c : Z) : option Z :=
  match fuel with
  | O => None
  | S fuel =>
      if negb (getb m s =? 0) then
        if getb m s =? c then Some s else strchr_loop fuel m (s + 1) c
      else Some 0
  end.
Definition strchr (N : nat) m (s c : Z) : option Z := if s =? 0 then Some 0 else strchr_loop N m s c.

(** [p = s + n - 1]; [p >= s]. *)
Fixpoint strrchr_loop (n : nat) m (s c : Z) : Z :=
  match n with
  | O => 0
  | S n => if getb m (s + Z.of_nat n) =? c then s + Z.of_nat n else strrchr_loop n m s c
  end.
Definition strrchr (N : nat) m (s c : Z) : option Z :=
  if s =? 0 then Some 0 else n ← strlen N m s; Some (strrchr_loop (Z.to_nat n) m s c).

Fixpoint span_loop (fuel N : nat) (in_set : bool) m (s set i : Z) : option Z :=
  match fuel with
  | O => None
  | S fuel =>
      if negb (getb m (s + i) =? 0) then
        p ← strchr N m set (getb m (s + i));
        if eqb (negb (p =? 0)) in_set then span_loop fuel N in_set m s set (i + 1) else Some i
      else Some i
  end.
Definition strspn (N : nat) m (s accept : Z) : option Z := span_loop N N true m s accept 0.
Definition strcspn (N : nat) m (s reject : Z) : option Z := span_loop N N false m s reject 0.

Fixpoint strpbrk_loop (fuel N : nat) m (str charset : Z) : option Z :=
  match fuel with
  | O => None
  | S fuel =>
      if negb (getb m str =? 0) then
        p ← strchr N m charset (getb m str);
        if negb (p =? 0) then Some str else strpbrk_loop fuel N m (str + 1) charset
      else Some 0
  end.
Definition strpbrk (N : nat) m (str charset : Z) : option Z := strpbrk_loop N N m str charset.

Fixpoint strstr_loop (fuel N : nat) m (candidate substr ch len : Z) : option Z :=
  match fuel with
  | O => None
  | S fuel =>
      candidate ← strchr N m candidate ch;
      if candidate =? 0 then Some 0 else
      n ← strlen N m candidate;
      if n <? w32 len then Some 0 else
      if strncmp m candidate substr (w32 len) =? 0 then Some candidate
      else strstr_loop fuel N m (candidate + 1) substr ch len
  end.
Definition strstr (N : nat) m (str substr : Z) : option Z :=
  n ← strlen N m substr;
  let len := i32 n in
  let ch := getb m substr in
  if ch =? 0 then Some str else strstr_loop N N m str substr ch len.

Fixpoint strcasechr_loop (fuel : nat) m (s uc : Z) : option Z :=
  match fuel with
  | O => None
  | S fuel =>
      if negb (getb m s =? 0) then
        if toupper (getb m s) =? uc then Some s else strcasechr_loop fuel m (s + 1) uc
      else Some 0
  end.
Definition strcasechr (N : nat) m (s uc : Z) : option Z := if s =? 0 then Some 0 else strcasechr_loop N m s uc.

Fixpoint strcasestr_loop (fuel N : nat) m (candidate substr ch len : Z) : option Z :=
  match fuel with
  | O => None
  | S fuel =>
      candidate ← strcasechr N m candidate ch;
      if candidate =? 0 then Some 0 else
      n ← strlen N m candidate;
      if n <? w32 len then Some 0 else
      if strncasecmp m candidate substr (w32 len) =? 0 then Some candidate
      else strcasestr_loop fuel N m (candidate + 1) substr ch len
  end.
Definition strcasestr (N : nat) m (str substr : Z) : option Z :=
  n ← strlen N m substr;
  let len := i32 n in
  let ch := getb m substr in
  if ch =? 0 then Some str else strcasestr_loop N N m str substr (toupper ch) len.

(** ** Tokens *)

Fixpoint skip_delim (fuel N : nat) m (pbegin delim : Z) : option Z :=
  match fuel with
  | O => None
  | S fuel =>
      if negb (getb m pbegin =? 0) then
        p ← strchr N m delim (getb m pbegin);
        if negb (p =? 0) then skip_delim fuel N m (pbegin + 1) delim else Some pbegin
      else Some pbegin
  end.
Fixpoint find_delim (fuel N : nat) m (pend delim : Z) : option Z :=
  match fuel with
  | O => None
  | S fuel =>
      if negb (getb m pend =? 0) then
        p ← strchr N m delim (getb m pend);
        if p =? 0 then find_delim fuel N m (pend + 1) delim else Some pend
      else Some pend
  end.

Definition strtok_r (N : nat) m (str delim saveptr : Z) : option (Z * mem) :=
  let start := if negb (str =? 0) then Some str
               else if negb (saveptr =? 0) && negb (ld32 m saveptr =? 0) then Some (ld32 m saveptr)
               else None in
  match start with
  | None => Some (0, m)
  | Some pbegin =>
      pbegin ← skip_delim N N m pbegin delim;
      if getb m pbegin =? 0 then Some (0, m) else
      pend ← find_delim N N m (pbegin + 1) delim;
      let '(m, pend) := if negb (getb m pend =? 0) then (putb m pend 0, pend + 1) else (m, pend) in
      let m := if negb (saveptr =? 0) then st32 m saveptr pend else m in
      Some (pbegin, m)
  end.

(** [g_saveptr] is the address of the static variable. *)
Definition strtok (N : nat) m (g_saveptr str delim : Z) : option (Z * mem) := strtok_r N m str delim g_saveptr.

(** ** Numbers *)

Fixpoint lib_skipspace (fuel : nat) m (ptr : Z) : option Z :=
  match fuel with
  | O => None
  | S fuel => if isspace (getb m ptr) then lib_skipspace fuel m (ptr + 1) else Some ptr
  end.

(** The digit's value, or nothing. *)
Definition lib_isbasedigit (ch base : Z) : option Z :=
  if base <=? 10 then
    if (48 <=? ch) && (ch <=? base + 48 - 1) then Some (ch - 48) else None
  else if base <=? 36 then
    if (48 <=? ch) && (ch <=? 57) then Some (ch - 48)
    else if (97 <=? ch) && (ch <=? 97 + base - 11) then Some (ch - 97 + 10)
    else if (65 <=? ch) && (ch <=? 65 + base - 11) then Some (ch - 65 + 10)
    else None
  else None.

(** The base and the rest of the string. *)
Definition lib_checkbase m (base ptr : Z) : Z * Z :=
  let is_x a := (getb m a =? 88) || (getb m a =? 120) in
  if base =? 0 then
    if getb m ptr =? 48 then
      let ptr := ptr + 1 in
      if is_x ptr && bool_decide (is_Some (lib_isbasedigit (getb m (ptr + 1)) 16)) then (16, ptr + 1) else (8, ptr)
    else (10, ptr)
  else if base =? 16 then
    if (getb m ptr =? 48) && is_x (ptr + 1) then (base, ptr + 2) else (base, ptr)
  else (base, ptr).

Fixpoint strtoul_loop (fuel : nat) m (base nptr accum : Z) : option (Z * Z) :=
  match fuel with
  | O => None
  | S fuel =>
      match lib_isbasedigit (getb m nptr) base with
      | Some value => strtoul_loop fuel m base (nptr + 1) (w32 (accum * base + value))
      | None => Some (accum, nptr)
      end
  end.

Definition strtoul (N : nat) m (nptr endptr base : Z) : option (Z * mem) :=
  if nptr =? 0 then Some (0, m) else
  nptr ← lib_skipspace N m nptr;
  let '(base, nptr) := lib_checkbase m base nptr in
  '(accum, nptr) ← strtoul_loop N m base nptr 0;
  Some (accum, if negb (endptr =? 0) then st32 m endptr nptr else m).

Definition strtol (N : nat) m (nptr endptr base : Z) : option (Z * mem) :=
  if nptr =? 0 then Some (0, m) else
  nptr ← lib_skipspace N m nptr;
  let negate := getb m nptr =? 45 in
  let nptr := if negate || (getb m nptr =? 43) then nptr + 1 else nptr in
  '(accum, m) ← strtoul N m nptr endptr base;
  Some (if negate then i32 (- i32 accum) else i32 accum, m).

(** ** lib_match.c *)

(** [for (; i >= 0; i--)], where [i = n - 1]. *)
Fixpoint star_loop (match_rest : Z → option Z) (string : Z) (n : nat) : option Z :=
  match n with
  | O => Some 0
  | S n =>
      r ← match_rest (string + Z.of_nat n);
      if negb (r =? 0) then Some 1 else star_loop match_rest string n
  end.

(** [p] runs through the [patlen] bytes at [pattern]; [slash] is the string that
    holds a slash. *)
Fixpoint match_one_loop (fuel N : nat) m (slash pattern patlen p string : Z) : option Z :=
  match fuel with
  | O => None
  | S fuel =>
      if p - pattern <? patlen then
        if (getb m p =? 63) && negb (getb m string =? 0) then
          match_one_loop fuel N m slash pattern patlen (p + 1) (string + 1)
        else if getb m p =? 42 then
          let p := p + 1 in
          '(p, i) ← (if getb m p =? 42 then i ← strlen N m string; Some (p + 1, i32 i)
                     else i ← strcspn N m string slash; Some (p, i32 i));
          let pl := patlen - (p - pattern) in
          star_loop (match_one_loop fuel N m slash p pl p) string (Z.to_nat (i + 1))
        else if negb (getb m p =? getb m string) then Some 0
        else match_one_loop fuel N m slash pattern patlen (p + 1) (string + 1)
      else Some (if getb m string =? 0 then 1 else 0)
  end.
Definition match_one (N : nat) m (slash pattern patlen string : Z) : option Z :=
  match_one_loop N N m slash pattern patlen pattern string.

Fixpoint match_loop (fuel N : nat) m (slash pattern string : Z) : option Z :=
  match fuel with
  | O => None
  | S fuel =>
      or ← strchr N m pattern 124;
      if or =? 0 then n ← strlen N m pattern; match_one N m slash pattern (i32 n) string else
      r ← match_one N m slash pattern (i32 (or - pattern)) string;
      if negb (r =? 0) then Some 1 else match_loop fuel N m slash (or + 1) string
  end.
Definition match_ (N : nat) m (slash pattern string : Z) : option Z := match_loop N N m slash pattern string.
