(* ===== verification/StrThms.v ===== *)
(** What the functions on strings compute: lengths, comparison, copies, searches,
    numbers, and moves of overlapping memory. *)

From stdpp Require Import base numbers gmap sorting list.
From S2P Require Import Prelude Memory Str.

Implicit Types m : mem.

(** ** Strings in memory *)

(** The string at [s] has the characters [l]. *)
Fixpoint cstr m (s : Z) (l : list Z) : Prop :=
  match l with
  | [] => getb m s = 0
  | c :: l => getb m s = c ∧ c ≠ 0 ∧ cstr m (s + 1) l
  end.

Lemma cstr_app m s l1 l2 : cstr m s (l1 ++ l2) → cstr m (s + Z.of_nat (length l1)) l2.
Proof.
  revert s. induction l1 as [|c l1 IH]; intros s; cbn [app cstr length]; [by rewrite Z.add_0_r|].
  intros (_ & _ & H%IH). by replace (s + Z.of_nat (S (length l1))) with (s + 1 + Z.of_nat (length l1)) by lia.
Qed.

Lemma cstr_drop m s l (i : nat) : cstr m s l → (i ≤ length l)%nat → cstr m (s + Z.of_nat i) (drop i l).
Proof.
  intros H Hi. rewrite <-(take_drop i l) in H. apply cstr_app in H. by rewrite length_take_le in H.
Qed.

Lemma cstr_nth m s l (i : nat) c : cstr m s l → l !! i = Some c → getb m (s + Z.of_nat i) = c ∧ 0 < c < 256.
Proof.
  intros H Hi. pose proof (lookup_lt_Some _ _ _ Hi). apply (cstr_drop _ _ _ i) in H; [|lia].
  rewrite (drop_S _ _ _ Hi) in H. destruct H as (H & Hc & _). split; [done|].
  pose proof (getb_range m (s + Z.of_nat i)). lia.
Qed.

Lemma cstr_chars m s l c : cstr m s l → c ∈ l → 0 < c < 256.
Proof. intros H [i Hi]%list_elem_of_lookup. by eapply cstr_nth. Qed.

Lemma cstr_end m s l : cstr m s l → getb m (s + Z.of_nat (length l)) = 0.
Proof. intros H. apply (cstr_app m s l []). by rewrite app_nil_r. Qed.

(** The bytes of a string are what it is. *)
Lemma cstr_intro m s l : (∀ i c, l !! i = Some c → getb m (s + Z.of_nat i) = c ∧ c ≠ 0) →
  getb m (s + Z.of_nat (length l)) = 0 → cstr m s l.
Proof.
  revert s. induction l as [|c l IH]; intros s Hl He; cbn [cstr length] in *; [by rewrite Z.add_0_r in He|].
  destruct (Hl 0%nat c eq_refl) as [H1 H2]. rewrite Z.add_0_r in H1. split; [done|]. split; [done|].
  apply IH; [|by rewrite <-He; f_equal; lia]. intros i d Hi. destruct (Hl (S i) d Hi) as [H3 H4].
  split; [|done]. by rewrite <-H3; f_equal; lia.
Qed.

Lemma cstr_frame m m' s l : cstr m s l → (∀ b, s ≤ b ≤ s + Z.of_nat (length l) → getb m' b = getb m b) → cstr m' s l.
Proof.
  intros H Hm. apply cstr_intro.
  - intros i c Hi. pose proof (lookup_lt_Some _ _ _ Hi). rewrite Hm by lia.
    destruct (cstr_nth _ _ _ _ _ H Hi). split; [done|lia].
  - rewrite Hm by lia. by apply cstr_end.
Qed.

Lemma cstr_unique m s l1 l2 : cstr m s l1 → cstr m s l2 → l1 = l2.
Proof.
  revert s l2. induction l1 as [|c l1 IH]; intros s [|d l2]; cbn [cstr]; [done|naive_solver..|].
  intros (H1 & H2 & H3) (H4 & H5 & H6). f_equal; [congruence|by eapply IH].
Qed.

(** A test for the end of a string. *)
Ltac at_nul := repeat match goal with
  | H : getb ?m ?s = ?c, Hc : ?c ≠ 0 |- context [getb ?m ?s =? 0] => rewrite H, (proj2 (Z.eqb_neq c 0) Hc)
  | H : getb ?m ?s = 0 |- context [getb ?m ?s =? 0] => rewrite H
  end; cbn [negb Z.eqb].

(** ** Lengths and searches *)

Lemma strlen_run N m s l : cstr m s l → (length l < N)%nat → strlen_loop N m s = Some (s + Z.of_nat (length l)).
Proof.
  revert s N. induction l as [|c l IH]; intros s [|N] H HN; cbn [length] in *; try lia; cbn [strlen_loop].
  - cbn [cstr] in H. at_nul. f_equal. lia.
  - destruct H as (H & Hc & Hl). at_nul. rewrite (IH (s + 1) N Hl) by lia. f_equal. lia.
Qed.

Lemma strlen_ok N m s l : cstr m s l → (length l < N)%nat → Z.of_nat (length l) < 2 ^ 32 →
  strlen N m s = Some (Z.of_nat (length l)).
Proof.
  intros H HN Hl. unfold strlen. rewrite (strlen_run N m s l) by done. cbn [mbind option_bind].
  f_equal. rewrite w32_small; lia.
Qed.

(** The first position of [c]. *)
Fixpoint index_of (c : Z) (l : list Z) : option nat :=
  match l with [] => None | d :: l => if d =? c then Some O else S <$> index_of c l end.

Lemma index_of_Some c l i : index_of c l = Some i → l !! i = Some c ∧ c ∉ take i l.
Proof.
  revert i. induction l as [|d l IH]; intros i; [done|]. cbn [index_of]. destruct (Z.eqb_spec d c) as [->|Hd].
  - intros [= <-]. split; [done|]. apply not_elem_of_nil.
  - destruct (index_of c l) as [j|]; [|done]. intros [= <-]. destruct (IH j eq_refl) as [H1 H2].
    split; [done|]. cbn [take]. apply not_elem_of_cons. by split; [congruence|].
Qed.

Lemma index_of_None c l : index_of c l = None ↔ c ∉ l.
Proof.
  induction l as [|d l IH]; cbn [index_of]; [split; [intros _; apply not_elem_of_nil|done]|].
  rewrite not_elem_of_cons. destruct (Z.eqb_spec d c) as [->|Hd]; [split; [done|tauto]|].
  destruct (index_of c l); cbn; split; try done.
  - intros [_ H]. by apply IH in H.
  - intros _. split; [congruence|]. by apply IH.
Qed.

Lemma strchr_run N m s l c : cstr m s l → (length l < N)%nat →
  strchr_loop N m s c = Some (match index_of c l with Some i => s + Z.of_nat i | None => 0 end).
Proof.
  revert s N. induction l as [|d l IH]; intros s [|N] H HN; cbn [length] in *; try lia; cbn [strchr_loop index_of].
  - cbn [cstr] in H. by at_nul.
  - destruct H as (H & Hd & Hl). at_nul. destruct (d =? c); [f_equal; lia|].
    rewrite (IH (s + 1) N Hl) by lia. destruct (index_of c l); cbn; [f_equal; lia|done].
Qed.

(** [strchr] finds the first [c], and nothing when there is none; the end of the
    string is not found. *)
Theorem strchr_correct N m s l c : cstr m s l → (length l < N)%nat → s ≠ 0 →
  strchr N m s c = Some (match index_of c l with Some i => s + Z.of_nat i | None => 0 end).
Proof.
  intros H HN Hs. unfold strchr. rewrite (proj2 (Z.eqb_neq s 0)) by done. by apply strchr_run.
Qed.

(** A character of a string is looked for in a set. *)
Lemma strchr_set N m set D c : cstr m set D → (length D < N)%nat → 0 < set →
  ∃ p, strchr N m set c = Some p ∧ (p =? 0) = negb (bool_decide (c ∈ D)).
Proof.
  intros H HN Hs. rewrite (strchr_correct N m set D c) by (done || lia). eexists. split; [done|].
  destruct (index_of c D) as [i|] eqn:E.
  - apply index_of_Some in E as [E _]. rewrite bool_decide_eq_true_2 by by eapply list_elem_of_lookup_2. cbn [negb]. apply Z.eqb_neq. lia.
  - apply index_of_None in E. by rewrite bool_decide_eq_false_2.
Qed.

(** ** Substrings *)

Lemma strncmp_run m a b l1 l2 r : cstr m a l1 → cstr m b l2 → l2 ≠ [] ∨ r = 0 →
  strncmp_loop (length l2) m a b r = 0 ↔ l2 `prefix_of` l1.
Proof.
  revert a b l1 r. induction l2 as [|d l2 IH]; intros a b l1 r H1 H2 Hr.
  - destruct Hr as [| ->]; [done|]. split; [intros _; apply prefix_nil|done].
  - destruct H2 as (Hb & Hd & H2). cbn [length strncmp_loop]. rewrite Hb. destruct l1 as [|c l1].
    + cbn [cstr] in H1. rewrite H1. rewrite (proj2 (Z.eqb_neq (0 - d) 0)) by lia. cbn [negb orb].
      split; [lia|]. intros Hp%prefix_nil_inv. done.
    + destruct H1 as (Ha & Hc & H1). rewrite Ha. destruct (Z.eqb_spec (c - d) 0) as [E|E]; cbn [negb orb].
      * assert (c = d) as -> by lia. rewrite (proj2 (Z.eqb_neq d 0)) by done. rewrite Z.sub_diag.
        rewrite (IH (a + 1) (b + 1) l1 0 H1 H2) by by right. split; [apply prefix_cons|apply prefix_cons_inv_2].
      * split; [lia|]. intros Hp%prefix_cons_inv_1. lia.
Qed.

Lemma strncmp_prefix m a b l1 l2 : cstr m a l1 → cstr m b l2 →
  (strncmp m a b (Z.of_nat (length l2)) =? 0) = bool_decide (l2 `prefix_of` l1).
Proof.
  intros H1 H2. apply eq_bool_prop_intro. rewrite bool_decide_spec, Is_true_true, Z.eqb_eq.
  unfold strncmp. rewrite Nat2Z.id. apply strncmp_run; [done..|by right].
Qed.

(** The first place where [sub] occurs in [l]. *)
Definition occurs (sub l : list Z) (i : nat) : Prop := (i ≤ length l)%nat ∧ sub `prefix_of` drop i l.
Definition first_occurrence (sub l : list Z) (i : nat) : Prop := occurs sub l i ∧ ∀ j, (j < i)%nat → ¬ occurs sub l j.

Lemma occurs_cons sub c l i : occurs sub (c :: l) (S i) ↔ occurs sub l i.
Proof. unfold occurs. cbn [length drop]. split; intros [? ?]; (split; [lia|done]). Qed.

(** Places before the first occurrence of the first character do not count. *)
Lemma occurs_head d sub l i j : d ∉ take j l → occurs (d :: sub) l i → (j ≤ i)%nat.
Proof.
  intros Hd [Hi [k Hk]]. destruct (decide (j ≤ i)%nat); [done|]. exfalso. apply Hd.
  apply list_elem_of_lookup. exists i. rewrite lookup_take_lt by lia.
  assert (E : drop i l !! 0%nat = Some d) by by rewrite Hk. by rewrite lookup_drop, Nat.add_0_r in E.
Qed.

Lemma occurs_drop sub l i j : (j ≤ i)%nat → occurs sub l i ↔ (i ≤ length l)%nat ∧ occurs sub (drop j l) (i - j).
Proof.
  intros Hij. unfold occurs. rewrite drop_drop, length_drop. replace (j + (i - j))%nat with i by lia.
  split; intros H; (split; [|try tauto]); lia || (split; [lia|tauto]).
Qed.

Lemma strstr_run fuel N m s b l d sub : cstr m s l → cstr m b (d :: sub) → 0 < s →
  (length l < fuel)%nat → (length l < N)%nat → Z.of_nat (length l) < 2 ^ 32 → Z.of_nat (length (d :: sub)) < 2 ^ 31 →
  ∃ r, strstr_loop fuel N m s b d (Z.of_nat (length (d :: sub))) = Some r ∧
    ((r = 0 ∧ ∀ i, ¬ occurs (d :: sub) l i) ∨ ∃ i, r = s + Z.of_nat i ∧ first_occurrence (d :: sub) l i).
Proof.
  revert s l. induction fuel as [|fuel IH]; intros s l H Hb Hs Hf HN Hl Hsub; [lia|]. cbn [strstr_loop].
  rewrite (strchr_correct N m s l d H HN) by lia. cbn [mbind option_bind].
  destruct (index_of d l) as [j|] eqn:Ej.
  2: { exists 0. split; [done|]. left. split; [done|]. intros i [Hi [k Hk]]. apply index_of_None in Ej. apply Ej.
       rewrite <-(take_drop i l), Hk. set_solver. }
  apply index_of_Some in Ej as [Ej Hnot]. pose proof (lookup_lt_Some _ _ _ Ej) as Hj.
  rewrite (proj2 (Z.eqb_neq _ 0)) by lia.
  pose proof (cstr_drop m s l j H ltac:(lia)) as Hd.
  rewrite (strlen_ok N m _ (drop j l) Hd) by (rewrite length_drop; lia). cbn [mbind option_bind].
  rewrite w32_small by lia. destruct (Z.ltb_spec (Z.of_nat (length (drop j l))) (Z.of_nat (length (d :: sub)))) as [Hlt|Hge].
  { exists 0. split; [done|]. left. split; [done|]. intros i Ho. pose proof (occurs_head _ _ _ _ _ Hnot Ho).
    destruct Ho as [_ Hp%prefix_length]. rewrite length_drop in *. lia. }
  rewrite (strncmp_prefix m _ b (drop j l) (d :: sub) Hd Hb). case_bool_decide as Hp.
  { eexists. split; [done|]. right. exists j. split; [done|]. split; [split; [lia|done]|].
    intros i Hi Ho. pose proof (occurs_head _ _ _ _ _ Hnot Ho). lia. }
  assert (El : drop j l = d :: drop (S j) l) by by apply drop_S. rewrite El in Hd. destruct Hd as (_ & _ & Hd).
  destruct (IH _ (drop (S j) l) Hd Hb) as (r & Er & Hr); [lia|rewrite length_drop; lia..|done|].
  exists r. split; [exact Er|]. assert (Hno : ∀ i, occurs (d :: sub) l i → (S j ≤ i)%nat ∧ occurs (d :: sub) (drop (S j) l) (i - S j)).
  { intros i Ho. pose proof (occurs_head _ _ _ _ _ Hnot Ho). destruct (decide (i = j)) as [->|]; [by destruct Ho|].
    split; [lia|]. by apply (occurs_drop (d :: sub) l i (S j)); [lia|]. }
  destruct Hr as [[-> Hr]|(i & -> & Hi & Hfirst)].
  - left. split; [done|]. intros i [_ Ho]%Hno. by apply Hr in Ho.
  - right. exists (S j + i)%nat. split; [lia|]. split.
    + apply (occurs_drop (d :: sub) l (S j + i) (S j)); [lia|]. replace (S j + i - S j)%nat with i by lia. split; [|done].
      destruct Hi as [Hi _]. rewrite length_drop in Hi. lia.
    + intros k Hk [Hk2 Ho]%Hno. eapply Hfirst; [|exact Ho]. lia.
Qed.

(** C33. strstr returns the first place where the substring occurs in the string, the start for an
    empty substring, and NULL when it does not occur. *)
Theorem strstr_correct N m s b l sub : cstr m s l → cstr m b sub → 0 < s →
  (length l < N)%nat → (length sub < N)%nat → Z.of_nat (length l) < 2 ^ 32 → Z.of_nat (length sub) < 2 ^ 31 →
  ∃ r, strstr N m s b = Some r ∧
    ((r = 0 ∧ ∀ i, ¬ occurs sub l i) ∨ ∃ i, r = s + Z.of_nat i ∧ first_occurrence sub l i).
Proof.
  intros H Hb Hs HN HN2 Hl Hsub. unfold strstr. rewrite (strlen_ok N m b sub Hb) by lia. cbn [mbind option_bind].
  rewrite i32_small by lia. destruct sub as [|d sub].
  - cbn [cstr] in Hb. rewrite Hb. exists s. split; [done|]. right. exists 0%nat. split; [lia|].
    split; [split; [lia|apply prefix_nil]|lia].
  - pose proof Hb as (Hd & Hd0 & _). rewrite Hd, (proj2 (Z.eqb_neq d 0)) by done. by eapply strstr_run.
Qed.

(** ** Comparison *)

(** Below 128 the sign of the result orders the strings; the caller sees which
    comes first in the dictionary. *)
Fixpoint dict_compare (l1 l2 : list Z) : comparison :=
  match l1, l2 with
  | [], [] => Eq
  | [], _ => Lt
  | _, [] => Gt
  | c :: l1, d :: l2 => match Z.compare c d with Eq => dict_compare l1 l2 | o => o end
  end.

Lemma i8_small z : - 128 ≤ z < 128 → i8 z = z.
Proof. intros Hz. unfold i8. rewrite Z.mod_small; lia. Qed.

(** [strcmp] orders strings of characters below 128 like a dictionary. *)
Theorem strcmp_correct N m a b l1 l2 : cstr m a l1 → cstr m b l2 → (length l1 < N)%nat →
  Forall (λ c, c < 128) l1 → Forall (λ c, c < 128) l2 →
  ∃ r, strcmp N m a b = Some r ∧ Z.compare r 0 = dict_compare l1 l2.
Proof.
  revert a b l1 l2. induction N as [|N IH]; intros a b l1 l2 H1 H2 HN F1 F2; [lia|]. cbn [strcmp].
  destruct l1 as [|c l1], l2 as [|d l2]; cbn [cstr dict_compare] in *.
  - rewrite H1, H2. by exists 0.
  - destruct H2 as (H2 & Hd & _). pose proof (getb_range m b). apply Forall_cons in F2 as [F2 _].
    rewrite H1, H2, i8_small by lia. exists (0 - d). rewrite orb_true_r. split; [done|]. apply Z.compare_lt_iff. lia.
  - destruct H1 as (H1 & Hc & _). pose proof (getb_range m a). apply Forall_cons in F1 as [F1 _].
    rewrite H1, H2, i8_small, (proj2 (Z.eqb_neq _ _)) by lia. exists (c - 0). split; [done|]. apply Z.compare_gt_iff. lia.
  - destruct H1 as (H1 & Hc & H1'), H2 as (H2 & Hd & H2'). pose proof (getb_range m a). pose proof (getb_range m b).
    apply Forall_cons in F1 as [F1 F1'], F2 as [F2 F2']. rewrite H1, H2, i8_small, (proj2 (Z.eqb_neq c 0)) by lia.
    rewrite orb_false_r. destruct (Z.compare_spec c d) as [->|E|E].
    + rewrite Z.sub_diag. cbn [negb Z.eqb]. apply IH; try done. cbn in HN. lia.
    + rewrite (proj2 (Z.eqb_neq _ _)) by lia. exists (c - d). split; [done|]. apply Z.compare_lt_iff. lia.
    + rewrite (proj2 (Z.eqb_neq _ _)) by lia. exists (c - d). split; [done|]. apply Z.compare_gt_iff. lia.
Qed.

(** ** Moving memory *)

Lemma getb_down n m tmp s b : s ≤ tmp →
  getb (memmove_down n m tmp s) b =
  if decide (tmp - Z.of_nat n ≤ b < tmp) then getb m (s + (b - tmp)) else getb m b.
Proof.
  revert m tmp s. induction n as [|n IH]; intros m tmp s Hle; cbn [memmove_down].
  - by rewrite decide_False by lia.
  - rewrite IH by lia. rewrite !getb_putb, (Z.mod_small (getb m (s - 1))) by apply getb_range.
    repeat case_decide; try lia; f_equal; lia.
Qed.

(** [memmove] copies right whichever way the two blocks overlap. *)
Theorem memmove_correct m dest src count b : 0 ≤ count →
  getb (memmove m dest src count) b =
  if decide (dest ≤ b < dest + count) then getb m (src + (b - dest)) else getb m b.
Proof.
  intros Hc. unfold memmove. destruct (Z.leb_spec dest src).
  - rewrite getb_memcpy, Z2Nat.id by (done || by left). done.
  - rewrite getb_down, Z2Nat.id by lia. repeat case_decide; try lia; f_equal; lia.
Qed.

(** ** Copies *)

Lemma getb_char m s : getb m s mod 256 = getb m s.
Proof. apply Z.mod_small, getb_range. Qed.

Lemma getb_put m dest src c : getb m src = c → ∀ b, getb (putb m dest c) b = if decide (b = dest) then c else getb m b.
Proof. intros <- b. rewrite getb_putb. case_decide; [|done]. apply getb_char. Qed.

(** [strcpy] copies a string that does not overlap its destination, and nothing else. *)
Theorem strcpy_correct N m dest src l : cstr m src l → (length l < N)%nat →
  dest + Z.of_nat (length l) < src ∨ src + Z.of_nat (length l) < dest →
  ∃ m', strcpy N m dest src = Some m' ∧ cstr m' dest l ∧
    same_but (λ b, dest ≤ b ≤ dest + Z.of_nat (length l)) m m'.
Proof.
  revert N m dest src. induction l as [|c l IH]; intros [|N] m dest src H HN Hd; cbn [length] in *; try lia;
    cbn [strcpy cstr] in *.
  - rewrite H. eexists. split; [done|]. split; [rewrite getb_putb; by case_decide|].
    intros b Hb. rewrite getb_putb. case_decide; [lia|done].
  - destruct H as (H & Hc & Hl). rewrite H, (proj2 (Z.eqb_neq c 0)) by done. cbn [negb].
    pose proof (getb_put m dest src c H) as Hp.
    destruct (IH N (putb m dest c) (dest + 1) (src + 1)) as (m' & E & Hm & Hs); [|lia..|].
    { eapply cstr_frame; [exact Hl|]. intros b Hb. rewrite Hp. by rewrite decide_False by lia. }
    exists m'. split; [exact E|]. split; [split; [|by split]|].
    + rewrite Hs by lia. rewrite Hp. by rewrite decide_True.
    + intros b Hb. rewrite Hs by lia. rewrite Hp. by rewrite decide_False by lia.
Qed.

Lemma strcat_run N m dest src l : cstr m src l → (length l < N)%nat →
  dest + Z.of_nat (length l) < src ∨ src + Z.of_nat (length l) < dest →
  ∃ m', strcat_loop N m dest src = Some m' ∧ cstr m' dest l ∧
    same_but (λ b, dest ≤ b ≤ dest + Z.of_nat (length l)) m m'.
Proof.
  revert N m dest src. induction l as [|c l IH]; intros [|N] m dest src H HN Hd; cbn [length] in *; try lia;
    cbn [strcat_loop cstr] in *.
  - at_nul. eexists. split; [done|]. split; [rewrite getb_putb; by case_decide|].
    intros b Hb. rewrite getb_putb. case_decide; [lia|done].
  - destruct H as (H & Hc & Hl). rewrite H, (proj2 (Z.eqb_neq c 0)) by done. cbn [negb].
    pose proof (getb_put m dest src c H) as Hp.
    destruct (IH N (putb m dest c) (dest + 1) (src + 1)) as (m' & E & Hm & Hs); [|lia..|].
    { eapply cstr_frame; [exact Hl|]. intros b Hb. rewrite Hp. by rewrite decide_False by lia. }
    exists m'. split; [exact E|]. split; [split; [|by split]|].
    + rewrite Hs by lia. rewrite Hp. by rewrite decide_True.
    + intros b Hb. rewrite Hs by lia. rewrite Hp. by rewrite decide_False by lia.
Qed.

(** [strcat] appends a string that does not overlap the result. *)
Theorem strcat_correct N m dest src l1 l2 : cstr m dest l1 → cstr m src l2 →
  (length l1 < N)%nat → (length l2 < N)%nat → Z.of_nat (length l1) < 2 ^ 32 →
  dest + Z.of_nat (length (l1 ++ l2)) < src ∨ src + Z.of_nat (length l2) < dest →
  ∃ m', strcat N m dest src = Some m' ∧ cstr m' dest (l1 ++ l2) ∧
    same_but (λ b, dest + Z.of_nat (length l1) ≤ b ≤ dest + Z.of_nat (length (l1 ++ l2))) m m'.
Proof.
  intros H1 H2 HN1 HN2 Hl Hd. rewrite length_app in *. unfold strcat. rewrite (strlen_ok N m dest l1 H1) by done.
  cbn [mbind option_bind]. destruct (strcat_run N m (dest + Z.of_nat (length l1)) src l2 H2 HN2) as (m' & E & Hc & Hs); [lia|].
  exists m'. split; [exact E|]. split.
  - apply cstr_intro.
    + intros i c [Hi|[Hi Hi2]]%lookup_app_Some.
      * pose proof (lookup_lt_Some _ _ _ Hi). destruct (cstr_nth _ _ _ _ _ H1 Hi). rewrite Hs by lia. split; [done|lia].
      * destruct (cstr_nth _ _ _ _ _ Hc Hi2) as [E2 ?]. split; [|lia]. rewrite <-E2. f_equal. lia.
    + apply cstr_end in Hc. rewrite <-Hc, length_app. f_equal. lia.
  - intros b Hb. apply Hs. lia.
Qed.

(** ** Numbers *)

Definition digits_value (base : Z) (ds : list Z) : Z := foldl (λ a d, a * base + d) 0 ds.

(** The characters [l] are digits in [base] with the values [ds]. *)
Definition numeral (base : Z) (l ds : list Z) : Prop :=
  Forall2 (λ c d, lib_isbasedigit c base = Some d) l ds.

(** No character of [rest] continues a numeral. *)
Definition ends_numeral (base : Z) (rest : list Z) : Prop :=
  match rest with
  | [] => True
  | c :: _ => lib_isbasedigit c base = None
  end.

(** The letter of the prefix of a hexadecimal number. *)
Definition is_x (c : Z) : bool := (c =? 88) || (c =? 120).

Definition hex_prefix (l : list Z) : bool :=
  match l with c :: x :: _ => (c =? 48) && is_x x | _ => false end.

(** [prefixed base b pre tail]: of the string [pre ++ tail] after the sign, the
    prefix [pre] is dropped, and [tail] is read in base [b], when the caller asks
    for [base]. *)
Inductive prefixed : Z → Z → list Z → list Z → Prop :=
  | prefix_none base tail : 2 ≤ base ≤ 36 → (base = 16 → hex_prefix tail = false) → prefixed base base [] tail
  | prefix_16 x tail : is_x x = true → prefixed 16 16 [48; x] tail
  | prefix_hex x c tail : is_x x = true → is_Some (lib_isbasedigit c 16) → prefixed 0 16 [48; x] (c :: tail)
  | prefix_oct tail :
      match tail with x :: c :: _ => is_x x = true → lib_isbasedigit c 16 = None | _ => True end →
      prefixed 0 8 [48] tail
  | prefix_dec tail : head tail ≠ Some 48 → prefixed 0 10 [] tail.

Lemma isbasedigit_range c base d : 2 ≤ base → lib_isbasedigit c base = Some d →
  0 ≤ d < base ∧ isspace c = false ∧ c ≠ 43 ∧ c ≠ 45 ∧ (d = 0 → c = 48).
Proof.
  intros Hb. unfold lib_isbasedigit. assert (Hsp : 48 ≤ c → isspace c = false ∧ c ≠ 43 ∧ c ≠ 45).
  { intros Hc. unfold isspace. rewrite !(proj2 (Z.eqb_neq c _)) by lia. split; [done|lia]. }
  repeat case_match; intros [= <-]; zb; (split; [lia|]); destruct (Hsp ltac:(lia)) as (? & ? & ?); split_and!; try done; lia.
Qed.

Lemma isbasedigit_nul base : 2 ≤ base → lib_isbasedigit 0 base = None.
Proof. intros Hb. unfold lib_isbasedigit. by repeat case_match; zb; try lia. Qed.

Lemma w32_step a base d : w32 (w32 a * base + d) = w32 (a * base + d).
Proof. unfold w32. rewrite Z.add_mod, Z.mul_mod_idemp_l, <-Z.add_mod by done. done. Qed.

Lemma digits_value_snoc base ds d : digits_value base (ds ++ [d]) = digits_value base ds * base + d.
Proof. unfold digits_value. by rewrite foldl_app. Qed.

Lemma foldl_w32 base ds a : w32 (foldl (λ a d, a * base + d) (w32 a) ds) = w32 (foldl (λ a d, a * base + d) a ds).
Proof.
  revert a. induction ds as [|d ds IH]; intros a; cbn [foldl]; [unfold w32; by rewrite Z.mod_mod|].
  rewrite <-IH, w32_step, IH. done.
Qed.

Lemma strtoul_run fuel m base s l ds rest a : 2 ≤ base → cstr m s (l ++ rest) → numeral base l ds → ends_numeral base rest →
  (length l < fuel)%nat → strtoul_loop fuel m base s (w32 a) =
    Some (w32 (foldl (λ a d, a * base + d) a ds), s + Z.of_nat (length l)).
Proof.
  intros Hb H Hn He. revert fuel s a H. induction Hn as [|c d l ds Hc Hn IH]; intros [|fuel] s a H Hf; cbn [length] in *; try lia;
    cbn [strtoul_loop foldl app].
  - assert (E : lib_isbasedigit (getb m s) base = None).
    { destruct rest as [|c rest]; cbn [cstr app ends_numeral] in *; [rewrite H; by apply isbasedigit_nul|].
      by destruct H as [-> _]. }
    rewrite E. do 2 f_equal. lia.
  - destruct H as (H & _ & Hl). rewrite H, Hc, w32_step. rewrite IH by (done || lia). do 2 f_equal. lia.
Qed.

Lemma skipspace_run fuel m s sp l : cstr m s (sp ++ l) → Forall (λ c, isspace c = true) sp →
  (match l with [] => True | c :: _ => isspace c = false end) → (length sp < fuel)%nat →
  lib_skipspace fuel m s = Some (s + Z.of_nat (length sp)).
Proof.
  intros H Hsp Hl. revert fuel s H. induction Hsp as [|c sp Hc Hsp IH]; intros [|fuel] s H Hf; cbn [length] in *; try lia;
    cbn [lib_skipspace].
  - assert (E : isspace (getb m s) = false).
    { destruct l as [|c l]; cbn [cstr app] in *; [by rewrite H|]. by destruct H as [-> _]. }
    rewrite E. f_equal. lia.
  - destruct H as (H & _ & H'). rewrite H, Hc. rewrite IH by (done || lia). f_equal. lia.
Qed.

Lemma i32_mod z1 z2 : w32 z1 = w32 z2 → i32 z1 = i32 z2.
Proof. intros E. unfold i32, w32 in *. f_equal. rewrite Z.add_mod, E, <-Z.add_mod by done. done. Qed.

Lemma w32_i32 z : w32 (i32 z) = w32 z.
Proof.
  unfold i32, w32. rewrite Zminus_mod_idemp_l. f_equal. lia.
Qed.

Lemma i32_neg z : i32 (- i32 (w32 z)) = i32 (- z).
Proof.
  apply i32_mod. assert (E : w32 (i32 (w32 z)) = w32 z) by (rewrite w32_i32; unfold w32; by rewrite Z.mod_mod).
  unfold w32 in *. rewrite <-(Z.sub_0_l (i32 _)), <-(Z.sub_0_l z), Zminus_mod, E, <-Zminus_mod. done.
Qed.

(** An optional sign. *)
Inductive signed : list Z → bool → Prop :=
  | sign_none : signed [] false
  | sign_plus : signed [43] false
  | sign_minus : signed [45] true.

Lemma prefixed_base base b pre tail : prefixed base b pre tail → 2 ≤ b ≤ 36.
Proof. by destruct 1. Qed.

Lemma cstr_head m s c l : cstr m s (c :: l) → getb m s = c ∧ cstr m (s + 1) l.
Proof. by intros (H & _ & Hl). Qed.

Lemma checkbase_prefix m base b s pre tail : cstr m s (pre ++ tail) → prefixed base b pre tail →
  lib_checkbase m base s = (b, s + Z.of_nat (length pre)).
Proof.
  intros H Hp. unfold lib_checkbase. fold (is_x (getb m (s + 1))). fold (is_x (getb m (s + 1 + 1))).
  destruct Hp as [base tail Hb H16|x tail Hx|x c tail Hx Hc|tail Ht|tail Ht]; cbn [app length] in *.
  - rewrite (proj2 (Z.eqb_neq base 0)) by lia. destruct (Z.eqb_spec base 16) as [->|]; [|f_equal; lia].
    specialize (H16 eq_refl). destruct tail as [|c [|x tail]]; cbn [cstr hex_prefix] in *.
    + rewrite H. cbn. f_equal. lia.
    + destruct H as (-> & _ & ->). rewrite andb_false_r. f_equal. lia.
    + destruct H as (-> & _ & -> & _). rewrite H16. f_equal. lia.
  - apply cstr_head in H as [-> H]. apply cstr_head in H as [-> _]. cbn [Z.eqb Pos.eqb]. by rewrite Hx.
  - apply cstr_head in H as [-> H]. apply cstr_head in H as [-> H]. apply cstr_head in H as [-> _].
    cbn [Z.eqb Pos.eqb]. rewrite Hx, bool_decide_eq_true_2 by done. cbn. f_equal. lia.
  - apply cstr_head in H as [-> H]. cbn [Z.eqb Pos.eqb].
    destruct (is_x _ && bool_decide _) eqn:E; [exfalso|done].
    apply andb_true_iff in E as [Hx Hd%bool_decide_eq_true].
    destruct tail as [|x [|c tail]]; cbn [cstr] in H.
    + by rewrite H in Hx.
    + destruct H as (_ & _ & H). rewrite H in Hd. rewrite isbasedigit_nul in Hd by lia. by destruct Hd.
    + destruct H as (Ex & _ & Ec & _). rewrite Ex in Hx. rewrite Ec, (Ht Hx) in Hd. by destruct Hd.
  - cbn [Z.eqb]. assert (E : getb m s =? 48 = false).
    { destruct tail as [|c tail]; cbn [cstr head] in *; [by rewrite H|]. destruct H as [-> _]. apply Z.eqb_neq. congruence. }
    rewrite E. f_equal. lia.
Qed.

(** What follows blanks and sign is neither. *)
Definition plain (l : list Z) : Prop :=
  match l with c :: _ => isspace c = false ∧ c ≠ 43 ∧ c ≠ 45 | [] => False end.

Lemma prefixed_plain base b pre l ds rest : prefixed base b pre (l ++ rest) → numeral b l ds → pre ++ l ≠ [] →
  plain (pre ++ l).
Proof.
  intros Hp Hn. pose proof (prefixed_base _ _ _ _ Hp) as [Hb _].
  assert (Hl : l ≠ [] → plain l).
  { destruct Hn as [|c d l ds Hc Hn]; [done|]. intros _. by destruct (isbasedigit_range c b d Hb Hc) as (_ & ? & ? & ? & _). }
  by destruct pre as [|c pre]; [|inversion Hp].
Qed.

Lemma sign_skip m p sign neg l rest : cstr m p (sign ++ l ++ rest) → signed sign neg → plain l →
  (if (getb m p =? 45) || (getb m p =? 43) then p + 1 else p) = p + Z.of_nat (length sign) ∧ (getb m p =? 45) = neg.
Proof.
  intros H Hsg Hl. destruct l as [|c l]; [done|]. destruct Hl as (_ & H43 & H45).
  destruct Hsg; cbn [app cstr length] in *; destruct H as [E _]; rewrite E; [|split; [cbn; lia|done]..].
  rewrite (proj2 (Z.eqb_neq c 45)), (proj2 (Z.eqb_neq c 43)) by done. cbn. split; [lia|done].
Qed.

(** C34. strtol of blanks, an optional sign, the prefix of the base and digits returns the signed
    value of the digits modulo 2^32, which is the value itself when that fits a long, and stores the
    address of the first character behind the digits. The base is from 2 to 36, and 0x or 0X is
    dropped in base 16, also without a digit behind it, when the value is 0 (a finding); or it is 0,
    and 0x before a hexadecimal digit selects base 16, another 0 base 8, and any other digit base
    10. *)
Theorem strtol_correct N m s endptr base b sp sign neg pre l ds rest : 0 < s →
  cstr m s (sp ++ sign ++ (pre ++ l) ++ rest) → Forall (λ c, isspace c = true) sp → signed sign neg →
  prefixed base b pre (l ++ rest) → numeral b l ds → pre ++ l ≠ [] → ends_numeral b rest →
  (length (sp ++ sign ++ pre ++ l) < N)%nat →
  let stop := s + Z.of_nat (length (sp ++ sign ++ pre ++ l)) in
  strtol N m s endptr base =
    Some (i32 (if neg then - digits_value b ds else digits_value b ds),
          if endptr =? 0 then m else st32 m endptr stop).
Proof.
  intros Hs H Hsp Hsg Hp Hn Hne He HN stop. unfold stop. rewrite !length_app in *.
  pose proof (prefixed_plain base b pre l ds rest Hp Hn Hne) as Hpl. unfold strtol. rewrite (proj2 (Z.eqb_neq s 0)) by lia.
  assert (Hpl' : match (pre ++ l) ++ rest with [] => True | c :: _ => isspace c = false end).
  { destruct (pre ++ l) as [|c k]; [done|]. by destruct Hpl as (? & _). }
  rewrite (skipspace_run N m s sp _ H Hsp) by first [lia | by destruct Hsg]. cbn [mbind option_bind].
  pose proof (cstr_app m s sp _ H) as H1. pose proof (cstr_app m _ sign _ H1) as H2.
  set (p := s + Z.of_nat (length sp)) in *.
  destruct (sign_skip m p sign neg (pre ++ l) rest H1 Hsg Hpl) as [Eq En]. cbv zeta. rewrite Eq, En.
  set (q := p + Z.of_nat (length sign)) in *. unfold strtoul. rewrite (proj2 (Z.eqb_neq q 0)) by lia.
  rewrite (skipspace_run N m q [] _ H2) by first [done|cbn; lia].
  cbn [mbind option_bind length]. rewrite Z.add_0_r. rewrite <-app_assoc in H2.
  rewrite (checkbase_prefix m base b q pre (l ++ rest) H2 Hp). apply cstr_app in H2.
  pose proof (prefixed_base _ _ _ _ Hp) as [Hb _].
  pose proof (strtoul_run N m b _ l ds rest 0 Hb H2 Hn He ltac:(lia)) as E.
  change (w32 0) with 0 in E. rewrite E. cbn [mbind option_bind]. fold (digits_value b ds). do 2 f_equal.
  - destruct neg; [apply i32_neg|]. apply i32_mod. unfold w32. by rewrite Z.mod_mod.
  - destruct (endptr =? 0); [done|]. cbn [negb]. f_equal. lia.
Qed.

(** [strtok_r] called again and again delivers the tokens of a string. *)

(** ** Tokens of a list *)

Section Tokens.
Context (D : list Z).

(** The parts of [l] between delimiters, and those that are not empty. *)
Fixpoint pieces (l : list Z) : list (list Z) :=
  match l with
  | [] => [[]]
  | c :: l =>
      if decide (c ∈ D) then [] :: pieces l
      else match pieces l with p :: ps => (c :: p) :: ps | [] => [[c]] end
  end.
Definition tokens (l : list Z) : list (list Z) := filter (λ p, p ≠ []) (pieces l).

Lemma tokens_skip sk l : Forall (λ c, c ∈ D) sk → tokens (sk ++ l) = tokens l.
Proof.
  induction 1 as [|c sk Hc _ IH]; [done|]. cbn [app]. rewrite <-IH. unfold tokens. cbn [pieces].
  by rewrite decide_True.
Qed.

Lemma pieces_token t rest : Forall (λ c, c ∉ D) t → (match rest with [] => True | d :: _ => d ∈ D end) →
  pieces (t ++ rest) = t :: match rest with [] => [] | _ :: l => pieces l end.
Proof.
  intros Ht Hr. induction Ht as [|c t Hc _ IH]; cbn [app].
  - destruct rest as [|d l]; [done|]. cbn [pieces]. by rewrite decide_True.
  - cbn [pieces]. rewrite decide_False by done. by rewrite IH.
Qed.

Lemma tokens_token t rest : Forall (λ c, c ∉ D) t → t ≠ [] → (match rest with [] => True | d :: _ => d ∈ D end) →
  tokens (t ++ rest) = t :: tokens (tail rest).
Proof.
  intros Ht Hne Hr. unfold tokens. rewrite pieces_token by done. rewrite filter_cons, decide_True by done.
  by destruct rest.
Qed.

(** A list is delimiters, or delimiters and a token and what follows it. *)
Inductive shape (l : list Z) : Prop :=
  | shape_end : Forall (λ c, c ∈ D) l → shape l
  | shape_token sk t rest : l = sk ++ t ++ rest → Forall (λ c, c ∈ D) sk → Forall (λ c, c ∉ D) t → t ≠ [] →
      (match rest with [] => True | d :: _ => d ∈ D end) → shape l.

Lemma list_shape l : shape l.
Proof.
  induction l as [|c l IH]; [by left|]. destruct (decide (c ∈ D)) as [Hc|Hc].
  - destruct IH as [H|sk t rest -> Hsk Ht Hne Hr]; [left; by constructor|].
    eapply (shape_token _ (c :: sk) t rest); [done|by constructor|done..].
  - destruct IH as [H|sk t rest -> Hsk Ht Hne Hr].
    + eapply (shape_token _ [] [c] l); [done|done|by repeat constructor|done|]. destruct H; done.
    + destruct sk as [|d sk].
      * eapply (shape_token _ [] (c :: t) rest); [done|done|by constructor|done|done].
      * eapply (shape_token _ [] [c] (d :: sk ++ t ++ rest)); [done|done|by repeat constructor|done|].
        by apply Forall_cons in Hsk as [Hd _].
Qed.
End Tokens.

(** ** The scans *)

Lemma skip_delim_run fuel N m p delim D sk l : cstr m p (sk ++ l) → cstr m delim D → (length D < N)%nat → 0 < delim →
  Forall (λ c, c ∈ D) sk → (match l with [] => True | c :: _ => c ∉ D end) → (length sk < fuel)%nat →
  skip_delim fuel N m p delim = Some (p + Z.of_nat (length sk)).
Proof.
  intros H HD HN Hd Hsk Hl. revert fuel p H. induction Hsk as [|c sk Hc _ IH]; intros [|fuel] p H Hf; cbn [length] in *; try lia;
    cbn [skip_delim].
  - replace (p + Z.of_nat 0) with p by lia. destruct l as [|c l]; cbn [app cstr] in H; [by rewrite H|].
    destruct H as (H & Hc & _). rewrite H, (proj2 (Z.eqb_neq c 0)) by done. cbn [negb].
    destruct (strchr_set N m delim D c HD HN Hd) as (q & -> & Eq). cbn [mbind option_bind]. rewrite Eq.
    by rewrite bool_decide_eq_false_2.
  - destruct H as (H & Hc0 & H'). rewrite H, (proj2 (Z.eqb_neq c 0)) by done. cbn [negb].
    destruct (strchr_set N m delim D c HD HN Hd) as (q & -> & Eq). cbn [mbind option_bind]. rewrite Eq.
    rewrite bool_decide_eq_true_2 by done. cbn [negb]. rewrite IH by (done || lia). f_equal. lia.
Qed.

Lemma find_delim_run fuel N m p delim D t rest : cstr m p (t ++ rest) → cstr m delim D → (length D < N)%nat → 0 < delim →
  Forall (λ c, c ∉ D) t → (match rest with [] => True | c :: _ => c ∈ D end) → (length t < fuel)%nat →
  find_delim fuel N m p delim = Some (p + Z.of_nat (length t)).
Proof.
  intros H HD HN Hd Ht Hl. revert fuel p H. induction Ht as [|c t Hc _ IH]; intros [|fuel] p H Hf; cbn [length] in *; try lia;
    cbn [find_delim].
  - replace (p + Z.of_nat 0) with p by lia. destruct rest as [|c l]; cbn [app cstr] in H; [by rewrite H|].
    destruct H as (H & Hc & _). rewrite H, (proj2 (Z.eqb_neq c 0)) by done. cbn [negb].
    destruct (strchr_set N m delim D c HD HN Hd) as (q & -> & Eq). cbn [mbind option_bind]. rewrite Eq.
    by rewrite bool_decide_eq_true_2.
  - destruct H as (H & Hc0 & H'). rewrite H, (proj2 (Z.eqb_neq c 0)) by done. cbn [negb].
    destruct (strchr_set N m delim D c HD HN Hd) as (q & -> & Eq). cbn [mbind option_bind]. rewrite Eq.
    rewrite bool_decide_eq_false_2 by done. cbn [negb]. rewrite IH by (done || lia). f_equal. lia.
Qed.

(** ** One call *)

Section Calls.
Context (N : nat) (delim saveptr : Z) (D : list Z).

(** The string [l] is left at [p], and the delimiters and the variable lie elsewhere. *)
Record scan m (p : Z) (l : list Z) : Prop := {
  sc_str : cstr m p l;
  sc_delim : cstr m delim D;
  sc_pos : 0 < p ∧ p + Z.of_nat (length l) + 1 < 2 ^ 32 ∧ 0 < delim ∧ 0 < saveptr;
  sc_fuel : (length l < N)%nat ∧ (length D < N)%nat;
  sc_sd : delim + Z.of_nat (length D) < p ∨ p + Z.of_nat (length l) < delim;
  sc_vs : saveptr + 4 ≤ p ∨ p + Z.of_nat (length l) < saveptr;
  sc_vd : saveptr + 4 ≤ delim ∨ delim + Z.of_nat (length D) < saveptr }.

(** The bytes a call may change. *)
Definition scanned (p : Z) (l : list Z) (b : Z) : Prop :=
  p ≤ b < p + Z.of_nat (length l) ∨ saveptr ≤ b < saveptr + 4.

Lemma strtok_end m str p l : scan m p l → Forall (λ c, c ∈ D) l → str = p ∨ str = 0 ∧ ld32 m saveptr = p →
  strtok_r N m str delim saveptr = Some (0, m).
Proof.
  intros [Hs Hd (Hp & _ & Hd0 & Hv) [HN HN2] _ _ _] Hall Hstr. unfold strtok_r.
  assert (E : skip_delim N N m p delim = Some (p + Z.of_nat (length l))).
  { apply (skip_delim_run N N m p delim D l []); try done. by rewrite app_nil_r. }
  destruct Hstr as [->|[-> ->]].
  - rewrite (proj2 (Z.eqb_neq p 0)) by lia. cbn [negb]. rewrite E. cbn [mbind option_bind]. by rewrite (cstr_end _ _ _ Hs).
  - rewrite (proj2 (Z.eqb_neq saveptr 0)), (proj2 (Z.eqb_neq p 0)) by lia. cbn [negb andb Z.eqb]. rewrite E.
    cbn [mbind option_bind]. by rewrite (cstr_end _ _ _ Hs).
Qed.

Lemma strtok_token m str p sk t rest : let l := sk ++ t ++ rest in let a := p + Z.of_nat (length sk) in
  scan m p l → Forall (λ c, c ∈ D) sk → Forall (λ c, c ∉ D) t → t ≠ [] →
  (match rest with [] => True | d :: _ => d ∈ D end) → str = p ∨ str = 0 ∧ ld32 m saveptr = p →
  ∃ m' p', strtok_r N m str delim saveptr = Some (a, m') ∧ cstr m' a t ∧ scan m' p' (tail rest) ∧ ld32 m' saveptr = p' ∧
    p' + Z.of_nat (length (tail rest)) = p + Z.of_nat (length l) ∧ a + Z.of_nat (length t) ≤ p' ∧
    (rest ≠ [] → a + Z.of_nat (length t) < p') ∧ same_but (scanned p l) m m'.
Proof.
  intros l a Hsc Hsk Ht Hne Hr Hstr. pose proof Hsc as [Hs Hd (Hp & Hp32 & Hd0 & Hv) [HN HN2] Hsd Hvs Hvd].
  assert (El : length l = (length sk + length t + length rest)%nat) by (unfold l; rewrite !length_app; lia).
  pose proof (cstr_app m p sk _ Hs) as Ha. fold a in Ha. pose proof (cstr_app m a t _ Ha) as He.
  set (e := a + Z.of_nat (length t)) in *.
  assert (E1 : skip_delim N N m p delim = Some a).
  { apply (skip_delim_run N N m p delim D sk (t ++ rest)); try done; [|lia]. destruct Ht; [done|done]. }
  assert (E2 : find_delim N N m (a + 1) delim = Some e).
  { destruct Ht as [|c t Hc Ht]; [done|]. cbn [app cstr] in Ha. destruct Ha as (_ & _ & Ha).
    rewrite (find_delim_run N N m (a + 1) delim D t rest) by (done || (cbn [length] in *; lia)). f_equal. unfold e. cbn [length]. lia. }
  assert (Ea : getb m a ≠ 0) by (destruct t; [done|]; cbn [app cstr] in Ha; destruct Ha as (-> & ? & _); done).
  (* the delimiter behind the token *)
  set (m1 := if negb (getb m e =? 0) then putb m e 0 else m).
  set (p' := if negb (getb m e =? 0) then e + 1 else e).
  assert (E : strtok_r N m str delim saveptr = Some (a, st32 m1 saveptr p')).
  { unfold strtok_r. assert (Hrun : ∀ start, start = Some p → match start with
      | None => Some (0, m)
      | Some pbegin =>
        pbegin ← skip_delim N N m pbegin delim;
        if getb m pbegin =? 0 then Some (0, m) else
        pend ← find_delim N N m (pbegin + 1) delim;
        let '(m, pend) := if negb (getb m pend =? 0) then (putb m pend 0, pend + 1) else (m, pend) in
        let m := if negb (saveptr =? 0) then st32 m saveptr pend else m in Some (pbegin, m) end = Some (a, st32 m1 saveptr p')).
    { intros start ->. rewrite E1. cbn [mbind option_bind]. rewrite (proj2 (Z.eqb_neq _ _) Ea), E2. cbn [mbind option_bind].
      unfold m1, p'. rewrite (proj2 (Z.eqb_neq saveptr 0)) by lia. by destruct (negb (getb m e =? 0)). }
    apply Hrun. destruct Hstr as [->|[-> ->]].
    - by rewrite (proj2 (Z.eqb_neq p 0)) by lia.
    - by rewrite (proj2 (Z.eqb_neq saveptr 0)), (proj2 (Z.eqb_neq p 0)) by lia. }
  assert (Hrest : rest = [] ∧ p' = e ∧ m1 = m ∨ rest ≠ [] ∧ p' = e + 1 ∧ m1 = putb m e 0).
  { unfold p', m1. destruct rest as [|d rest]; cbn [cstr] in He; [left; by rewrite He|right]. destruct He as (-> & Hd1 & _).
    by rewrite (proj2 (Z.eqb_neq d 0)). }
  assert (Hm1 : ∀ b, getb m1 b = if decide (b = e) then 0 else getb m b).
  { intros b. destruct Hrest as [(-> & _ & ->)|(_ & _ & ->)]; [|by rewrite getb_putb]. cbn [cstr] in He. case_decide; congruence. }
  assert (Hp' : p' + Z.of_nat (length (tail rest)) = p + Z.of_nat (length l) ∧ e ≤ p' ∧ (rest ≠ [] → e < p')).
  { rewrite El. destruct Hrest as [(-> & -> & _)|(Hne' & -> & _)]; [cbn; subst e a; split_and!; try done; lia|].
    destruct rest as [|d rest]; [done|]. cbn [length tail]. subst e a. split_and!; lia. }
  assert (Hin : p ≤ a ∧ a ≤ e ∧ e ≤ p + Z.of_nat (length l)) by (rewrite El; subst e a; lia).
  assert (Hm' : ∀ b, ¬ (saveptr ≤ b < saveptr + 4) → getb (st32 m1 saveptr p') b = getb m1 b) by (intros; apply getb_st32_ne; lia).
  exists (st32 m1 saveptr p'), p'. split; [exact E|]. split; [|split; [|split; [|split_and!; [apply Hp'..|]]]].
  - apply cstr_intro.
    + intros i c Hi. pose proof (lookup_lt_Some _ _ _ Hi). rewrite Hm', Hm1, decide_False by (subst e; lia).
      destruct (cstr_nth m a (t ++ rest) i c Ha) as [? ?]; [by apply lookup_app_l_Some|]. split; [done|lia].
    + rewrite Hm', Hm1 by lia. by rewrite decide_True.
  - split.
    + eapply cstr_frame with m.
      * destruct Hrest as [(-> & -> & _)|(Hne' & -> & _)]; [exact He|]. destruct rest as [|d rest]; [done|]. apply He.
      * intros b Hb. destruct Hp' as (Hp' & _). rewrite Hm' by lia. rewrite Hm1. case_decide as Hbe; [|done].
        destruct Hrest as [(-> & -> & _)|(_ & -> & _)]; [subst b; by cbn [cstr] in He|lia].
    + eapply cstr_frame; [exact Hd|]. intros b Hb. rewrite Hm' by lia. rewrite Hm1, decide_False by lia. done.
    + lia.
    + split; [|done]. destruct Hp' as (Hp' & ?). lia.
    + destruct Hp' as (Hp' & ?). lia.
    + destruct Hp' as (Hp' & ?). lia.
    + done.
  - rewrite ld32_st32_eq. apply Z.mod_small. destruct Hp' as (Hp' & ?). lia.
  - intros b Hb. unfold scanned in Hb. rewrite Hm' by lia. rewrite Hm1. case_decide as Hbe; [|done]. subst b.
    destruct Hrest as [(-> & _)|(Hne' & _)]; [by cbn [cstr] in He|]. destruct rest as [|d rest]; [done|]. cbn [length] in El. subst e a. lia.
Qed.

(** ** All calls *)

(** The caller passes the string, then NULL until NULL comes back. *)
Fixpoint strtok_all (fuel : nat) m (str : Z) : option (list Z * mem) :=
  match fuel with
  | O => None
  | S fuel =>
      '(r, m) ← strtok_r N m str delim saveptr;
      if r =? 0 then Some ([], m) else
      '(rs, m) ← strtok_all fuel m 0;
      Some (r :: rs, m)
  end.

Lemma strtok_run fuel m str p l : scan m p l → str = p ∨ str = 0 ∧ ld32 m saveptr = p → (length l < fuel)%nat →
  ∃ rs m', strtok_all fuel m str = Some (rs, m') ∧ Forall2 (cstr m') rs (tokens D l) ∧ same_but (scanned p l) m m'.
Proof.
  revert m str p l. induction fuel as [|fuel IH]; intros m str p l Hsc Hstr Hf; [lia|]. cbn [strtok_all].
  destruct (list_shape D l) as [Hall|sk t rest -> Hsk Ht Hne Hr].
  - rewrite (strtok_end m str p l Hsc Hall Hstr). exists [], m. split; [done|]. split; [|apply same_but_refl].
    rewrite <-(app_nil_r l), tokens_skip by done. constructor.
  - destruct (strtok_token m str p sk t rest Hsc Hsk Ht Hne Hr Hstr) as (m1 & p' & -> & Ha & Hsc' & Hv & Hend & Hle & Hlt & Hs).
    cbn [mbind option_bind]. destruct Hsc as [_ _ (Hp & _) _ _ Hvs _]. rewrite (proj2 (Z.eqb_neq _ 0)) by lia.
    rewrite !length_app in *. destruct (IH m1 0 p' (tail rest) Hsc') as (rs & m' & -> & HF & Hs'); [by right| |].
    { destruct t; [done|]. destruct rest; cbn [length tail] in *; lia. }
    cbn [mbind option_bind]. eexists _, m'. split; [done|]. split.
    + rewrite tokens_skip, tokens_token by done. constructor; [|done]. eapply cstr_frame; [exact Ha|].
      intros b Hb. apply Hs'. unfold scanned. destruct rest as [|d rest]; cbn [length tail] in *; [lia|].
      specialize (Hlt ltac:(done)). lia.
    + eapply same_but_trans; [exact Hs|]. eapply same_but_mono; [|exact Hs']. unfold scanned. rewrite !length_app. intros b [?|?]; [left|by right]. lia.
Qed.

(** The calls return the addresses of the tokens, the longest parts of the string
    without delimiters that are not empty, in order, and end each with a null
    character; only the string and the variable change. *)
Theorem strtok_correct fuel m s l : scan m s l → (length l < fuel)%nat →
  ∃ rs m', strtok_all fuel m s = Some (rs, m') ∧ Forall2 (cstr m') rs (tokens D l) ∧ same_but (scanned s l) m m'.
Proof. intros Hsc Hf. eapply strtok_run; [done|by left|done]. Qed.
End Calls.
