(* ===== verification/StrMatch.v ===== *)
(** The pattern matcher decides whether a name matches one of the alternatives of
    a pattern. *)

From stdpp Require Import base numbers gmap sorting list.
From S2P Require Import Prelude Memory Str StrThms.

Implicit Types m : mem.

(** ** Patterns

    A question mark stands for any character, a star for any string without a
    slash and two stars for any string. *)
Inductive matches : list Z → list Z → Prop :=
  | matches_end : matches [] []
  | matches_any p c w : matches p w → matches (63 :: p) (c :: w)
  | matches_star p u w : 47 ∉ u → matches p w → matches (42 :: p) (u ++ w)
  | matches_stars p u w : matches p w → matches (42 :: 42 :: p) (u ++ w)
  | matches_char c p w : c ≠ 42 → matches p w → matches (c :: p) (c :: w).

(** The alternatives, which bars separate. *)
Fixpoint alternatives (p : list Z) : list (list Z) :=
  match p with
  | [] => [[]]
  | c :: p =>
      if c =? 124 then [] :: alternatives p
      else match alternatives p with a :: l => (c :: a) :: l | [] => [[c]] end
  end.

Lemma matches_nil_inv w : matches [] w ↔ w = [].
Proof. split; [by inversion 1|intros ->; constructor]. Qed.

Lemma matches_star_weaken p w : matches (42 :: p) w → ∃ u w', w = u ++ w' ∧ matches p w'.
Proof.
  inversion 1; subst; [by eexists _, _| |done]. eexists _, _. split; [done|]. by apply (matches_star _ []); [apply not_elem_of_nil|].
Qed.

Lemma matches_stars_iff p w : matches (42 :: 42 :: p) w ↔ ∃ k, (k ≤ length w)%nat ∧ matches p (drop k w).
Proof.
  split.
  - intros (u & w1 & -> & (u2 & w2 & -> & H)%matches_star_weaken)%matches_star_weaken.
    exists (length u + length u2)%nat. rewrite !length_app. split; [lia|].
    rewrite app_assoc, <-length_app. by rewrite drop_app_length.
  - intros (k & _ & H). rewrite <-(take_drop k w). by constructor.
Qed.

Lemma matches_star_iff p w : head p ≠ Some 42 →
  matches (42 :: p) w ↔ ∃ k, (k ≤ length w)%nat ∧ 47 ∉ take k w ∧ matches p (drop k w).
Proof.
  intros Hp. split.
  - inversion 1; subst; [|done|done]. exists (length u). rewrite length_app, take_app_length, drop_app_length. split; [lia|done].
  - intros (k & _ & Hk & H). rewrite <-(take_drop k w). by constructor.
Qed.

Lemma matches_any_iff p c w : matches (63 :: p) (c :: w) ↔ matches p w.
Proof. split; [by inversion 1|by constructor]. Qed.

Lemma matches_char_iff c p d w : c ≠ 42 → c ≠ 63 → matches (c :: p) (d :: w) ↔ c = d ∧ matches p w.
Proof. intros H1 H2. split; [by inversion 1|]. intros [-> H]. by constructor. Qed.

Lemma matches_cons_nil c p : c ≠ 42 → ¬ matches (c :: p) [].
Proof. intros Hc. inversion 1; simplify_list_eq. Qed.

(** ** Lengths of spans *)

(** How many characters come before the first one outside, or inside, [D]. *)
Fixpoint span_len (in_set : bool) (D l : list Z) : nat :=
  match l with
  | [] => O
  | c :: l => if eqb (bool_decide (c ∈ D)) in_set then S (span_len in_set D l) else O
  end.

Lemma span_run fuel N in_set m s set l D i : cstr m (s + i) l → cstr m set D → (length D < N)%nat → 0 < set →
  (length l < fuel)%nat → span_loop fuel N in_set m s set i = Some (i + Z.of_nat (span_len in_set D l)).
Proof.
  intros H HD HN Hs. revert fuel i H. induction l as [|c l IH]; intros [|fuel] i H Hf; cbn [length] in *; try lia;
    cbn [span_loop span_len].
  - cbn [cstr] in H. rewrite H. cbn. f_equal. lia.
  - destruct H as (H & Hc & Hl). rewrite H, (proj2 (Z.eqb_neq c 0)) by done. cbn [negb].
    destruct (strchr_set N m set D c HD HN Hs) as (q & -> & Eq). cbn [mbind option_bind]. rewrite Eq, negb_involutive.
    destruct (eqb _ _); [|f_equal; lia]. rewrite (IH fuel (i + 1)) by (try lia; by replace (s + (i + 1)) with (s + i + 1) by lia).
    f_equal. lia.
Qed.

(** [strspn] and [strcspn] count the characters up to the first one that is not,
    or is, in the set. *)
Theorem strspn_correct N m s set l D : cstr m s l → cstr m set D → (length l < N)%nat → (length D < N)%nat → 0 < set →
  strspn N m s set = Some (Z.of_nat (span_len true D l)) ∧ strcspn N m s set = Some (Z.of_nat (span_len false D l)).
Proof.
  intros H HD HN HN2 Hs. split; apply (span_run N N _ m s set l D 0); try done; by rewrite Z.add_0_r.
Qed.

Lemma span_len_le b D l : (span_len b D l ≤ length l)%nat.
Proof. induction l as [|c l IH]; cbn [span_len length]; [lia|]. destruct (eqb _ _); lia. Qed.

(** A prefix avoids the slash exactly when it is no longer than the span. *)
Lemma span_len_take k l c : (k ≤ length l)%nat → (k ≤ span_len false [c] l)%nat ↔ c ∉ take k l.
Proof.
  revert k. induction l as [|d l IH]; intros [|k] Hk; cbn [length span_len take] in *; try lia;
    try (split; [intros _; apply not_elem_of_nil|lia]).
  rewrite not_elem_of_cons. destruct (decide (d = c)) as [->|Hd].
  - rewrite bool_decide_eq_true_2 by by left. cbn [eqb]. split; [lia|]. tauto.
  - rewrite bool_decide_eq_false_2 by by rewrite list_elem_of_singleton. cbn [eqb]. rewrite <-(IH k) by lia.
    split; [intros ?; split; [congruence|lia]|intros [_ ?]; lia].
Qed.

(** ** One alternative *)

(** The bytes at [p] are [l], which has no null character. *)
Fixpoint chars m (p : Z) (l : list Z) : Prop :=
  match l with [] => True | c :: l => getb m p = c ∧ c ≠ 0 ∧ chars m (p + 1) l end.

Definition answers (r : option Z) (P : Prop) : Prop := (r = Some 1 ∧ P) ∨ (r = Some 0 ∧ ¬ P).

Lemma answers_iff r P Q : answers r P → (P ↔ Q) → answers r Q.
Proof. unfold answers. tauto. Qed.

(** The loop over the rests of the string. *)
Lemma star_run f string w (P : list Z → Prop) n : (∀ k, (k < n)%nat → answers (f (string + Z.of_nat k)) (P (drop k w))) →
  answers (star_loop f string n) (∃ k, (k < n)%nat ∧ P (drop k w)).
Proof.
  induction n as [|n IH]; intros Hf; cbn [star_loop].
  - right. split; [done|]. intros (k & Hk & _). lia.
  - destruct (Hf n ltac:(lia)) as [[-> HP]|[-> HP]]; cbn [mbind option_bind negb Z.eqb].
    + left. split; [done|]. exists n. split; [lia|done].
    + eapply answers_iff; [apply IH; intros k Hk; apply Hf; lia|]. split.
      * intros (k & Hk & Hp). exists k. split; [lia|done].
      * intros (k & Hk & Hp). exists k. split; [|done]. destruct (decide (k = n)) as [->|]; [done|lia].
Qed.

Lemma match_one_run fuel N m slash pattern patlen p string ps w :
  chars m p ps → patlen - (p - pattern) = Z.of_nat (length ps) → getb m (p + Z.of_nat (length ps)) ≠ 42 →
  cstr m string w → cstr m slash [47] → 0 < slash → (length w < N)%nat → (1 < N)%nat → Z.of_nat (length w) < 2 ^ 31 →
  (length ps < fuel)%nat →
  answers (match_one_loop fuel N m slash pattern patlen p string) (matches ps w).
Proof.
  revert pattern patlen p string ps w. induction fuel as [|fuel IH]; intros pattern patlen p string ps w Hp Hlen He Hw Hsl Hs0 HN HN1 Hw31 Hf; [lia|].
  cbn [match_one_loop]. destruct ps as [|c ps]; cbn [length chars] in *.
  { rewrite (proj2 (Z.ltb_ge _ _)) by lia. destruct w as [|d w]; cbn [cstr] in Hw.
    - rewrite Hw. left. split; [done|]. constructor.
    - destruct Hw as (-> & Hd & _). rewrite (proj2 (Z.eqb_neq d 0)) by done. right. split; [done|]. by rewrite matches_nil_inv. }
  rewrite (proj2 (Z.ltb_lt _ _)) by lia. destruct Hp as (Hc & Hc0 & Hp). rewrite Hc.
  assert (Hnext : ∀ d w', w = d :: w' → answers (match_one_loop fuel N m slash pattern patlen (p + 1) (string + 1)) (matches ps w')).
  { intros d w' ->. destruct Hw as (_ & _ & Hw). cbn [length] in *. apply IH; try done; try lia. by replace (p + 1 + Z.of_nat (length ps)) with (p + Z.of_nat (S (length ps))) by lia. }
  destruct (Z.eqb_spec c 63) as [->|H63].
  { destruct w as [|d w]; cbn [cstr] in Hw.
    - rewrite Hw. cbn. right. split; [done|]. by apply matches_cons_nil.
    - destruct Hw as (Hd & Hd0 & _). rewrite Hd, (proj2 (Z.eqb_neq d 0)) by done. cbn [negb andb].
      eapply answers_iff; [by eapply Hnext|]. symmetry. apply matches_any_iff. }
  cbn [andb]. destruct (Z.eqb_spec c 42) as [->|H42].
  2: { destruct w as [|d w]; cbn [cstr] in Hw.
    - rewrite Hw, (proj2 (Z.eqb_neq c 0)) by done. right. split; [done|]. by apply matches_cons_nil.
    - destruct Hw as (Hd & Hd0 & _). rewrite Hd. destruct (Z.eqb_spec c d) as [->|Hcd]; cbn [negb].
      + eapply answers_iff; [by eapply Hnext|]. rewrite matches_char_iff by done. tauto.
      + right. split; [done|]. rewrite matches_char_iff by done. tauto. }
  assert (Hstar : ∀ q qs i, chars m q qs → getb m (q + Z.of_nat (length qs)) ≠ 42 → patlen - (q - pattern) = Z.of_nat (length qs) →
    (length qs < fuel)%nat → 0 ≤ i ≤ Z.of_nat (length w) →
    answers (star_loop (match_one_loop fuel N m slash q (patlen - (q - pattern)) q) string (Z.to_nat (i + 1)))
      (∃ k, (k < Z.to_nat (i + 1))%nat ∧ matches qs (drop k w))).
  { intros q qs i Hq Hqe Hql Hqf Hi. apply (star_run _ string w (matches qs)). intros k Hk.
    apply IH; try done; try lia; [apply cstr_drop; [done|lia]|rewrite length_drop; lia..]. }
  destruct (Z.eqb_spec (getb m (p + 1)) 42) as [E42|E42].
  - destruct ps as [|c ps]; cbn [chars length] in *; [exfalso; apply He; by rewrite <-E42; f_equal; lia|].
    destruct Hp as (Hc2 & _ & Hp). assert (c = 42) as -> by congruence.
    rewrite (strlen_ok N m string w) by (done || lia). cbn [mbind option_bind]. rewrite i32_small by lia.
    eapply answers_iff; [apply (Hstar (p + 1 + 1) ps); try done; try lia; by replace (p + 1 + 1 + Z.of_nat (length ps)) with (p + Z.of_nat (S (S (length ps)))) by lia|].
    rewrite matches_stars_iff. split; intros (k & Hk & H); (exists k; split; [lia|done]).
  - destruct (strspn_correct N m string slash w [47]) as [_ Hspn]; [done..|cbn; lia|lia|].
    rewrite Hspn. pose proof (span_len_le false [47] w) as Hle. cbn [mbind option_bind]. rewrite i32_small by lia.
    eapply answers_iff; [apply (Hstar (p + 1) ps); try done; try lia; by replace (p + 1 + Z.of_nat (length ps)) with (p + Z.of_nat (S (length ps))) by lia|].
    rewrite matches_star_iff.
    2: { destruct ps as [|d ps]; [done|]. cbn [chars] in Hp. destruct Hp as (Hd & _). cbn. congruence. }
    split.
    + intros (k & Hk & H). exists k. split; [lia|]. split; [|done]. apply span_len_take; lia.
    + intros (k & Hk & Hn & H). exists k. split; [|done]. apply span_len_take in Hn; lia.
Qed.

(** ** The alternatives *)

Lemma alternatives_last l : 124 ∉ l → alternatives l = [l].
Proof.
  induction l as [|c l IH]; intros Hn; [done|]. apply not_elem_of_cons in Hn as [Hc Hn]. cbn [alternatives].
  rewrite (proj2 (Z.eqb_neq c 124)) by done. by rewrite IH.
Qed.

Lemma alternatives_bar l1 l2 : 124 ∉ l1 → alternatives (l1 ++ 124 :: l2) = l1 :: alternatives l2.
Proof.
  induction l1 as [|c l1 IH]; intros Hn; [done|]. apply not_elem_of_cons in Hn as [Hc Hn]. cbn [app alternatives].
  rewrite (proj2 (Z.eqb_neq c 124)) by done. by rewrite IH.
Qed.

Lemma chars_app m s l1 l2 : cstr m s (l1 ++ l2) → chars m s l1.
Proof. revert s. induction l1 as [|c l1 IH]; intros s; [done|]. cbn [app cstr chars]. intros (? & ? & ?). auto. Qed.

Definition matches_some (alts : list (list Z)) (w : list Z) : Prop := ∃ a, a ∈ alts ∧ matches a w.

Lemma match_run fuel N m slash pattern string l w : cstr m pattern l → cstr m string w → cstr m slash [47] →
  0 < pattern → 0 < slash → (length w < N)%nat → (1 < N)%nat → (length l < N)%nat →
  Z.of_nat (length l) < 2 ^ 31 → Z.of_nat (length w) < 2 ^ 31 → (length l < fuel)%nat →
  answers (match_loop fuel N m slash pattern string) (matches_some (alternatives l) w).
Proof.
  revert pattern l. induction fuel as [|fuel IH]; intros pattern l Hp Hw Hsl Hp0 Hs0 HN HN1 HNl Hl31 Hw31 Hf; [lia|].
  cbn [match_loop]. rewrite (strchr_correct N m pattern l 124 Hp HNl) by lia. cbn [mbind option_bind].
  assert (Hone : ∀ l1 l2, l = l1 ++ l2 → getb m (pattern + Z.of_nat (length l1)) ≠ 42 →
    answers (match_one N m slash pattern (i32 (Z.of_nat (length l1))) string) (matches l1 w)).
  { intros l1 l2 -> He. rewrite length_app in *. rewrite i32_small by lia. apply match_one_run; try done; try lia.
    by eapply chars_app. }
  destruct (index_of 124 l) as [j|] eqn:Ej.
  - apply index_of_Some in Ej as [Ej Hnot]. pose proof (lookup_lt_Some _ _ _ Ej) as Hj.
    rewrite (proj2 (Z.eqb_neq _ 0)) by lia. replace (pattern + Z.of_nat j - pattern) with (Z.of_nat (length (take j l))) by (rewrite length_take_le; lia).
    destruct (cstr_nth _ _ _ _ _ Hp Ej) as [Ebar _].
    assert (El : l = take j l ++ 124 :: drop (S j) l) by by rewrite <-(drop_S _ _ _ Ej), take_drop.
    assert (Ea : alternatives l = take j l :: alternatives (drop (S j) l)) by by rewrite El at 1; apply alternatives_bar.
    rewrite Ea. destruct (Hone (take j l) (124 :: drop (S j) l) El) as [[-> H]|[-> H]].
    { rewrite length_take_le, Ebar by lia. done. }
    + cbn. left. split; [done|]. exists (take j l). split; [by left|done].
    + cbn [mbind option_bind negb Z.eqb]. eapply answers_iff.
      * apply (IH (pattern + Z.of_nat j + 1) (drop (S j) l)); try done; try (rewrite length_drop; lia); try lia.
        replace (pattern + Z.of_nat j + 1) with (pattern + Z.of_nat (S j)) by lia. apply cstr_drop; [done|lia].
      * unfold matches_some. setoid_rewrite elem_of_cons. split; [naive_solver|]. intros (a & [->|Ha] & Hm); [done|by exists a].
  - apply index_of_None in Ej. rewrite (strlen_ok N m pattern l Hp) by lia. cbn [Z.eqb mbind option_bind].
    eapply answers_iff; [apply (Hone l []); [by rewrite app_nil_r|by rewrite (cstr_end _ _ _ Hp)]|].
    rewrite alternatives_last by done. unfold matches_some. setoid_rewrite list_elem_of_singleton. naive_solver.
Qed.

(** C31. match returns 1 exactly when the name matches one of the alternatives of the pattern, where
    a question mark stands for any character, a star for any string without a slash and two stars
    for any string, and 0 otherwise; it always returns. *)
Theorem match_correct N m slash pattern string l w : cstr m pattern l → cstr m string w → cstr m slash [47] →
  0 < pattern → 0 < slash → (length w < N)%nat → (length l < N)%nat → (1 < N)%nat →
  Z.of_nat (length l) < 2 ^ 31 → Z.of_nat (length w) < 2 ^ 31 →
  ∃ r, match_ N m slash pattern string = Some r ∧ (r = 0 ∨ r = 1) ∧
    (r = 1 ↔ ∃ a, a ∈ alternatives l ∧ matches a w).
Proof.
  intros Hp Hw Hsl Hp0 Hs0 HN HNl HN1 Hl Hw31.
  destruct (match_run N N m slash pattern string l w) as [[E H]|[E H]]; try done; [exists 1|exists 0]; (split; [exact E|]).
  - split; [by right|done].
  - split; [by left|]. split; [done|]. intros H'. by destruct H.
Qed.
