(* ===== verification/StrWit.v ===== *)
(** Strings in a concrete memory: instances of the theorems, and calls that do not
    do what they mean to. *)

From stdpp Require Import base numbers gmap sorting list.
From S2P Require Import Prelude Memory Str StrThms StrMatch.

(** The string [l] at [a], with its null character. *)
Fixpoint poke (a : Z) (l : list Z) (m : mem) : mem :=
  match l with [] => putb m a 0 | c :: l => poke (a + 1) l (putb m a c) end.

Definition cstr_b (m : mem) (s : Z) (l : list Z) : bool :=
  forallb (λ ic, (getb m (s + Z.of_nat ic.1) =? ic.2) && negb (ic.2 =? 0)) (imap pair l) &&
  (getb m (s + Z.of_nat (length l)) =? 0).

Lemma cstr_check m s l : cstr_b m s l = true → cstr m s l.
Proof.
  unfold cstr_b. intros [H E]%andb_prop. apply Z.eqb_eq in E. apply cstr_intro; [|done]. intros i c Hi.
  rewrite forallb_forall in H. specialize (H (i, c)). cbn in H.
  assert (Hin : In (i, c) (imap pair l)).
  { apply list_elem_of_In, list_elem_of_lookup. exists i. by rewrite list_lookup_imap, Hi. }
  specialize (H Hin). zb. by split.
Qed.

Ltac cstr := apply cstr_check; vm_compute; reflexivity.

(** "banana" at 0x100, "nan" at 0x200, "an" at 0x300, a slash at 0x400. *)
Definition banana : list Z := [98; 97; 110; 97; 110; 97].
Definition mem0 : mem := poke 0x400 [47] (poke 0x300 [97; 110] (poke 0x200 [110; 97; 110] (poke 0x100 banana ∅))).

Lemma strstr_correct_witness : strstr 10 mem0 0x100 0x200 = Some 0x102 ∧ first_occurrence [110; 97; 110] banana 2.
Proof.
  destruct (strstr_correct 10 mem0 0x100 0x200 banana [110; 97; 110]) as (r & E & H);
    [cstr|cstr|done|cbn; lia|cbn; lia|done|done|].
  assert (Er : r = 0x102) by (vm_compute in E; congruence). subst r. split; [exact E|].
  destruct H as [[? _]|(i & Hi & H)]; [done|]. assert (i = 2%nat) as -> by lia. exact H.
Defined.

Lemma memmove_correct_witness : getb (memmove mem0 0x101 0x100 5) 0x105 = 110 ∧ getb (memmove mem0 0x101 0x100 5) 0x101 = 98.
Proof.
  split.
  - rewrite (memmove_correct mem0 0x101 0x100 5 0x105) by done. vm_compute. reflexivity.
  - rewrite (memmove_correct mem0 0x101 0x100 5 0x101) by done. vm_compute. reflexivity.
Defined.

(** "  -0x7fz" in base 16, and in the base that its prefix tells. *)
Definition mem_num : mem := poke 0x100 [32; 32; 45; 48; 120; 55; 102; 122] ∅.

Lemma strtol_correct_witness :
  strtol 10 mem_num 0x100 0x200 16 = Some (-127, st32 mem_num 0x200 0x107) ∧
  strtol 10 mem_num 0x100 0x200 0 = Some (-127, st32 mem_num 0x200 0x107) ∧
  strtol 10 mem_num 0x103 0x200 10 = Some (0, st32 mem_num 0x200 0x104).
Proof.
  split_and!.
  - apply (strtol_correct 10 mem_num 0x100 0x200 16 16 [32; 32] [45] true [48; 120] [55; 102] [7; 15] [122]);
      [done|cstr|by repeat constructor|constructor|by constructor|by repeat constructor|done|done|cbn; lia].
  - apply (strtol_correct 10 mem_num 0x100 0x200 0 16 [32; 32] [45] true [48; 120] [55; 102] [7; 15] [122]);
      [done|cstr|by repeat constructor|constructor|by constructor|by repeat constructor|done|done|cbn; lia].
  - apply (strtol_correct 10 mem_num 0x103 0x200 10 10 [] [] false [] [48] [0] [120; 55; 102; 122]);
      [done|cstr|done|constructor|by constructor|by repeat constructor|done|done|cbn; lia].
Defined.

(** "  one,two , " with the delimiters blank and comma, the variable at 0x300. *)
Definition csv : list Z := [32; 32; 111; 110; 101; 44; 116; 119; 111; 32; 44; 32].
Definition mem_tok : mem := poke 0x200 [32; 44] (poke 0x100 csv ∅).

Lemma strtok_correct_witness : ∃ m', strtok_all 20 0x200 0x300 13 mem_tok 0x100 = Some ([0x102; 0x106], m') ∧
  cstr m' 0x102 [111; 110; 101] ∧ cstr m' 0x106 [116; 119; 111].
Proof.
  destruct (strtok_correct 20 0x200 0x300 [32; 44] 13 mem_tok 0x100 csv) as (rs & m' & E & H & _).
  - split; [cstr|cstr|by vm_compute|cbn; lia|cbn; lia|cbn; lia|cbn; lia].
  - cbn. lia.
  - assert (Er : rs = [0x102; 0x106]).
    { apply (f_equal (fmap fst)) in E. vm_compute in E. congruence. }
    subst rs. exists m'. split; [exact E|]. assert (Et : tokens [32; 44] csv = [[111; 110; 101]; [116; 119; 111]]) by by vm_compute.
    rewrite Et in H. apply Forall2_cons in H as [H1 H]. apply Forall2_cons in H as [H2 _]. split; [exact H1|exact H2].
Defined.

(** "x|b*a" matches "banana", "x|b*n" does not. *)
Definition mem_pat : mem := poke 0x500 [120; 124; 98; 42; 97] mem0.

Lemma match_correct_witness : match_ 10 mem_pat 0x400 0x500 0x100 = Some 1 ∧ matches_some [[120]; [98; 42; 97]] banana.
Proof.
  destruct (match_correct 10 mem_pat 0x400 0x500 0x100 [120; 124; 98; 42; 97] banana) as (r & E & _ & H);
    [cstr|cstr|cstr|done|done|cbn; lia|cbn; lia|lia|done|done|].
  assert (Er : r = 1) by (vm_compute in E; congruence). subst r. split; [exact E|]. exact (proj1 H eq_refl).
Defined.

(** ** Findings *)

(** Finding: the difference of two characters is cut to a signed character, so that
    a string comes before one that it should follow. *)
Theorem strcmp_wraps : strcmp 5 (poke 0x10 [0x81] (poke 0x20 [0x01] ∅)) 0x10 0x20 = Some (-128).
Proof. by vm_compute. Qed.

(** Finding: [strncpy] with a length of zero copies the whole string. *)
Theorem strncpy_zero : (λ m, cstr_b m 0x10 banana) <$> strncpy 10 mem0 0x10 0x100 0 = Some true.
Proof. by vm_compute. Qed.

(** Finding: "- 5" is read as -5, because blanks are skipped again behind the sign. *)
Theorem strtol_sign_blank : fst <$> strtol 10 (poke 0x10 [45; 32; 53] ∅) 0x10 0 10 = Some (-5).
Proof. by vm_compute. Qed.

(** Finding: of "0xz" in base 16 the "0x" is dropped although no digit follows: the
    number stops at the "z" and not at the "x". *)
Theorem strtoul_prefix : (λ r, (r.1, ld32 r.2 0x100)) <$> strtoul 10 (poke 0x10 [48; 120; 122] ∅) 0x10 0x100 16 = Some (0, 0x12).
Proof. by vm_compute. Qed.

(** Finding: the null character of a string is not found. *)
Theorem strchr_nul : strchr 10 mem0 0x100 0 = Some 0.
Proof. by vm_compute. Qed.

(** Finding: after a string that holds no token, the next call goes on in the string
    before it: "a b" and then blanks. *)
Definition mem_two : mem := poke 0x30 [32] (poke 0x20 [32; 32] (poke 0x10 [97; 32; 98] ∅)).

Theorem strtok_stale :
  ('(r1, m) ← strtok 10 mem_two 0x100 0x10 0x30;
   '(r2, m) ← strtok 10 m 0x100 0x20 0x30;
   '(r3, m) ← strtok 10 m 0x100 0 0x30;
   Some (r1, r2, r3)) = Some (0x10, 0, 0x12).
Proof. by vm_compute. Qed.
