(* ===== verification/Work.v ===== *)
(** The work queue: sched/work_queue.c, work_cancel.c and work_thread.c.

    A [struct work_s] starts with its queue entry, so works are the entries of
    [g_work].  The functions of works run with interrupts enabled: what they, and
    the interrupts meanwhile, ask of this interface is a parameter, a list of
    calls and ticks.  The signal that work_queue sends to the worker thread only
    ends the thread's sleep, which is between the rounds modelled here. *)

From stdpp Require Import base numbers gmap sorting list.
From S2P Require Import Prelude Queue Memory Clock.

Record work_s := mk_work {
  w_flink : Z; w_blink : Z; w_worker : Z; w_arg : Z; w_qtime : Z; w_delay : Z
}.
Definition works := gmap Z work_s.
Definition work_at (ws : works) (a : Z) : work_s := default (mk_work 0 0 0 0 0 0) (ws !! a).
Definition set_work (a : Z) (f : work_s → work_s) (ws : works) : works := <[a := f (work_at ws a)]> ws.

Definition with_wflink v (w : work_s) := mk_work v (w_blink w) (w_worker w) (w_arg w) (w_qtime w) (w_delay w).
Definition with_wblink v (w : work_s) := mk_work (w_flink w) v (w_worker w) (w_arg w) (w_qtime w) (w_delay w).
Definition with_worker v (w : work_s) := mk_work (w_flink w) (w_blink w) v (w_arg w) (w_qtime w) (w_delay w).

Lemma work_at_set a f ws b : work_at (set_work a f ws) b = if decide (b = a) then f (work_at ws a) else work_at ws b.
Proof.
  unfold work_at, set_work, works. case_decide as E; [by subst; rewrite lookup_insert_eq|by rewrite lookup_insert_ne].
Qed.

#[export] Instance works_sq : SqStore works :=
  {| flink ws a := w_flink (work_at ws a); set_flink p v := set_work p (with_wflink v) |}.
#[export] Instance works_dq : DqStore works :=
  {| blink ws a := w_blink (work_at ws a); set_blink p v := set_work p (with_wblink v) |}.
#[export] Instance works_dq_laws : DqLaws works.
Proof.
  split; [split|..]; intros s p v y; simpl; rewrite work_at_set; case_decide; subst; done.
Qed.

Record workst := mk_workst { g_works : works; g_work : queue_t; work_clock : clockst }.
Definition on_queue (qs : queue_t * works) (st : workst) : workst := mk_workst qs.2 qs.1 (work_clock st).
Definition on_work (a : Z) (f : work_s → work_s) (st : workst) : workst :=
  mk_workst (set_work a f (g_works st)) (g_work st) (work_clock st).
Definition wk (st : workst) (a : Z) : work_s := work_at (g_works st) a.

(** ** work_queue.c, work_cancel.c *)

Definition work_queue (work worker arg delay : Z) (st : workst) : Z * workst :=
  let st := on_work work (λ w, mk_work (w_flink w) (w_blink w) worker arg (w_qtime w) delay) st in
  let st := on_work work (λ w, mk_work (w_flink w) (w_blink w) (w_worker w) (w_arg w)
                                 (clock_systimer (work_clock st)) (w_delay w)) st in
  (OK, on_queue (dq_addlast work (g_work st) (g_works st)) st).

Definition work_cancel (work : Z) (st : workst) : Z * workst :=
  if negb (w_worker (wk st work) =? 0) then
    let st := on_queue (dq_rem work (g_work st) (g_works st)) st in
    (OK, on_work work (with_worker 0) st)
  else (OK, st).

(** ** work_thread.c *)

Definition CONFIG_SCHED_WORKPERIOD : Z := 50 * 1000.

(** What happens to the queue and the clock while interrupts are enabled. *)
Inductive wk_op := WkQueue (work worker arg delay : Z) | WkCancel (work : Z) | WkTick.

Definition wk_exec (op : wk_op) (st : workst) : workst :=
  match op with
  | WkQueue work worker arg delay => snd (work_queue work worker arg delay st)
  | WkCancel work => snd (work_cancel work st)
  | WkTick => mk_workst (g_works st) (g_work st) (clock_timer (work_clock st))
  end.
Definition wk_execs (ops : list wk_op) (st : workst) : workst := foldl (λ st op, wk_exec op st) st ops.

Section Thread.
Variable callback : Z → Z → workst → list wk_op.

Definition elapsed (st : workst) (work : Z) : Z := w32 (clock_systimer (work_clock st) - w_qtime (wk st work)).

(** The work is taken off the queue. *)
Definition take_work (work : Z) (st : workst) : workst :=
  on_work work (with_worker 0) (on_queue (dq_rem work (g_work st) (g_works st)) st).

(** [while (work)]: the functions called, the ticks to the next round, the state. *)
Fixpoint work_loop (fuel : nat) (work next : Z) (st : workst) : option (list (Z * Z) * Z * workst) :=
  match fuel with
  | O => None
  | S fuel =>
      if work =? 0 then Some ([], next, st) else
      if w_delay (wk st work) <=? elapsed st work then
        let worker := w_worker (wk st work) in
        let arg := w_arg (wk st work) in
        let st := take_work work st in
        let st := wk_execs (callback worker arg st) st in
        '(log, next, st) ← work_loop fuel (q_head (g_work st)) next st;
        Some ((worker, arg) :: log, next, st)
      else
        let remaining := w32 (elapsed st work - w_delay (wk st work)) in
        let next := if remaining <? next then remaining else next in
        work_loop fuel (flink (g_works st) work) next st
  end.

(** One round of [for (;;)]: the calls, and for how many microseconds to sleep. *)
Definition work_round (fuel : nat) (st : workst) : option (list (Z * Z) * Z * workst) :=
  let next := CONFIG_SCHED_WORKPERIOD / USEC_PER_TICK in
  '(log, next, st) ← work_loop fuel (q_head (g_work st)) next st;
  Some (log, i32 (next * USEC_PER_TICK), st).
End Thread.

(** The worker thread performs every queued work whose delay has elapsed, in the
    order in which they were queued, and each of them once. *)

Implicit Types (st : workst) (Q : list Z) (x y : Z).

(** What a work asks for. *)
Definition item_of (w : work_s) : Z * Z * Z * Z := (w_worker w, w_arg w, w_qtime w, w_delay w).
Definition item st x : Z * Z * Z * Z := item_of (wk st x).

#[export] Instance blind_item y : LinkBlind (λ ws : works, item_of (work_at ws y)).
Proof. split; intros s p v; cbn; rewrite work_at_set; by case_decide; subst. Qed.

Lemma item_worker st st' x y : item st' x = item st y → w_worker (wk st' x) = w_worker (wk st y).
Proof. by injection 1. Qed.

(** ** The invariant: a work is queued exactly when it has a function *)

Record work_inv st Q : Prop := {
  wi_repr : dq_repr (g_works st) (g_work st) Q;
  wi_worker x : w_worker (wk st x) ≠ 0 ↔ x ∈ Q }.

Lemma wi_nodup st Q : work_inv st Q → NoDup Q ∧ 0 ∉ Q.
Proof. by intros [(_ & ? & ? & _) _]. Qed.

(** Fields that are not links can be set. *)
Lemma repr_on_work st Q x f : (∀ w, w_flink (f w) = w_flink w ∧ w_blink (f w) = w_blink w) →
  dq_repr (g_works st) (g_work st) Q → dq_repr (g_works (on_work x f st)) (g_work (on_work x f st)) Q.
Proof.
  intros Hf. apply dq_repr_ext; intros y; cbn; rewrite work_at_set; case_decide; subst; by (done || apply Hf).
Qed.

(** [work_queue] puts a work that is not queued at the end. *)
Lemma work_queue_inv st Q x worker arg delay : work_inv st Q → x ∉ Q → x ≠ 0 → worker ≠ 0 →
  let st' := (work_queue x worker arg delay st).2 in
  work_inv st' (Q ++ [x]) ∧ work_clock st' = work_clock st ∧
  ∀ y, item st' y = if decide (y = x) then (worker, arg, clock_systimer (work_clock st), delay) else item st y.
Proof.
  intros [Hr Hw] Hx Hx0 Hne st'.
  assert (Hi : ∀ y, item st' y = if decide (y = x) then (worker, arg, clock_systimer (work_clock st), delay) else item st y).
  { intros y. unfold st', work_queue, item, wk, on_queue. cbn [snd g_works].
    rewrite (blind_addlast (λ ws : works, item_of (work_at ws y))). cbn [on_work g_works]. rewrite !work_at_set. by repeat case_decide. }
  split; [|split; [done|exact Hi]]. split.
  - apply dq_addlast_spec; [|done..]. apply repr_on_work; [done|]. by apply repr_on_work.
  - intros y. rewrite elem_of_app, list_elem_of_singleton, <-Hw. specialize (Hi y). case_decide as E.
    + injection Hi as -> _ _ _. tauto.
    + rewrite (item_worker _ _ _ _ Hi). tauto.
Qed.

(** A work is taken off the queue. *)
Lemma take_work_inv st Q x : work_inv st Q → x ∈ Q →
  work_inv (take_work x st) (remove_first x Q) ∧ work_clock (take_work x st) = work_clock st ∧
  ∀ y, y ≠ x → item (take_work x st) y = item st y.
Proof.
  intros Hi Hx. destruct (wi_nodup _ _ Hi) as [Hnd _]. destruct Hi as [Hr Hw].
  destruct (elem_split_first x Q Hx) as (l1 & l2 & -> & Hl1). rewrite remove_first_split by done.
  assert (Hit : ∀ y, item (take_work x st) y = if decide (y = x) then item_of (with_worker 0 (wk (on_queue (dq_rem x (g_work st) (g_works st)) st) x)) else item st y).
  { intros y. unfold take_work, item, wk, on_work, on_queue. cbn [g_works]. rewrite work_at_set. case_decide; [done|].
    by rewrite (blind_rem (λ ws : works, item_of (work_at ws y))). }
  split; [|split; [done|intros y Hy; rewrite Hit; by rewrite decide_False]]. split.
  - apply repr_on_work; [done|]. by apply dq_rem_spec.
  - intros y. apply NoDup_mid in Hnd as [Hx2 _]. specialize (Hit y). case_decide as E.
    + subst y. injection Hit as -> _ _ _. split; [done|]. intros ?. tauto.
    + rewrite (item_worker _ _ _ _ Hit), Hw. rewrite !elem_of_app, elem_of_cons. tauto.
Qed.

Lemma remove_first_absent x Q : x ∉ Q → remove_first x Q = Q.
Proof.
  induction Q as [|a Q IH]; [done|]. intros [Hx HQ]%not_elem_of_cons. cbn [remove_first].
  rewrite decide_False by done. f_equal. by apply IH.
Qed.

(** [work_cancel] takes a queued work off the queue, and does nothing otherwise. *)
Lemma work_cancel_inv st Q x : work_inv st Q → let st' := (work_cancel x st).2 in
  work_inv st' (remove_first x Q) ∧ work_clock st' = work_clock st ∧ ∀ y, y ≠ x → item st' y = item st y.
Proof.
  intros Hi st'. destruct (decide (x ∈ Q)) as [Hx|Hx].
  - assert (E : st' = take_work x st).
    { unfold st', work_cancel. destruct (Z.eqb_spec (w_worker (wk st x)) 0) as [E|_]; [|done]. by apply (wi_worker _ _ Hi) in E. }
    rewrite E. by apply take_work_inv.
  - assert (E : st' = st).
    { unfold st', work_cancel. destruct (Z.eqb_spec (w_worker (wk st x)) 0) as [_|Hne]; [done|]. by apply (wi_worker _ _ Hi) in Hne. }
    rewrite E. split; [|done]. by rewrite remove_first_absent.
Qed.

(** ** Legal uses: a work is queued with a function, and not while it is queued *)

Definition wk_legal (op : wk_op) st : Prop :=
  match op with
  | WkQueue work worker _ _ => work ≠ 0 ∧ worker ≠ 0 ∧ w_worker (wk st work) = 0
  | WkCancel _ | WkTick => True
  end.
Fixpoint wk_legals (ops : list wk_op) st : Prop :=
  match ops with [] => True | op :: ops => wk_legal op st ∧ wk_legals ops (wk_exec op st) end.

(** What a call does to the works that are queued. *)
Definition wk_spec (op : wk_op) Q : list Z :=
  match op with WkQueue work _ _ _ => Q ++ [work] | WkCancel work => remove_first work Q | WkTick => Q end.

Lemma wk_exec_inv op st Q : work_inv st Q → wk_legal op st → work_inv (wk_exec op st) (wk_spec op Q).
Proof.
  intros Hi. destruct op as [x f a d|x|]; cbn [wk_legal wk_exec wk_spec].
  - intros (Hx & Hf & Hw). apply work_queue_inv; try done. intros Hq%(wi_worker _ _ Hi). done.
  - intros _. by apply work_cancel_inv.
  - intros _. destruct Hi as [Hr Hw]. by split.
Qed.

(** Every sequence of legal calls and ticks keeps the queue in order: the works that
    were queued and not cancelled since, oldest first. *)
Theorem wk_execs_inv ops st Q : work_inv st Q → wk_legals ops st →
  work_inv (wk_execs ops st) (foldl (λ Q op, wk_spec op Q) Q ops).
Proof.
  revert st Q. induction ops as [|op ops IH]; intros st Q Hi; [done|]. intros [Hl Hls]. cbn [wk_execs foldl].
  apply IH; [|done]. by apply wk_exec_inv.
Qed.

(** ** A round of the worker thread *)

Section Round.
Variable callback : Z → Z → workst → list wk_op.
#[local] Notation work_loop := (work_loop callback).
#[local] Notation work_round := (work_round callback).

Definition ready st x : bool := w_delay (wk st x) <=? elapsed st x.

(** The state after the function of [x] returned. *)
Definition performed st x : workst :=
  wk_execs (callback (w_worker (wk st x)) (w_arg (wk st x)) (take_work x st)) (take_work x st).

(** The oldest work that is ready is performed, again and again until none is. *)
Inductive performs : workst → list (Z * Z) → workst → Prop :=
  | performs_none st Q : work_inv st Q → (∀ x, x ∈ Q → ready st x = false) → performs st [] st
  | performs_one st Q1 x Q2 log st' : work_inv st (Q1 ++ x :: Q2) →
      (∀ y, y ∈ Q1 → ready st y = false) → ready st x = true → performs (performed st x) log st' →
      performs st ((w_worker (wk st x), w_arg (wk st x)) :: log) st'.

Hypothesis callback_legal : ∀ worker arg st Q, work_inv st Q → wk_legals (callback worker arg st) st.

(** Functions do not queue works for ever. *)
Variable bound : workst → list Z → nat.
Hypothesis callback_bound : ∀ st Q x Q', work_inv st Q → x ∈ Q → ready st x = true → work_inv (performed st x) Q' →
  (bound (performed st x) Q' < bound st Q)%nat.

Lemma performed_inv st Q x : work_inv st Q → x ∈ Q → ∃ Q', work_inv (performed st x) Q'.
Proof using callback_legal.
  intros Hi Hx. destruct (take_work_inv st Q x Hi Hx) as (Hi' & _). eexists. apply wk_execs_inv; [exact Hi'|]. by eapply callback_legal.
Qed.

Lemma work_loop_run n st Q1 Q2 next : (bound st (Q1 ++ Q2) < n)%nat → work_inv st (Q1 ++ Q2) → (∀ y, y ∈ Q1 → ready st y = false) → 0 ≤ next →
  ∃ k log next' st' Q', (∀ fuel, (k ≤ fuel)%nat → work_loop fuel (default 0 (head Q2)) next st = Some (log, next', st')) ∧
    performs st log st' ∧ work_inv st' Q' ∧ (∀ y, y ∈ Q' → ready st' y = false) ∧ 0 ≤ next' ≤ next.
Proof using callback_legal callback_bound.
  revert st Q1 Q2 next. induction n as [|n IHn]; intros st Q1 Q2 next Hn; [lia|]. revert Q1 next Hn.
  induction Q2 as [|x Q2 IHQ]; intros Q1 next Hn Hi H1 Hx0.
  - rewrite app_nil_r in *. exists 1%nat, [], next, st, Q1. split.
    + intros [|fuel] Hk; [lia|done].
    + split; [by eapply performs_none|]. split_and!; done || lia.
  - assert (Hx : x ∈ Q1 ++ x :: Q2) by in_list. cbn [head default from_option id].
    assert (Hxn : x ≠ 0) by (intros ->; by apply (wi_nodup _ _ Hi)).
    destruct (ready st x) eqn:Er.
    + destruct (performed_inv _ _ _ Hi Hx) as (Q' & Hi').
      destruct (IHn (performed st x) [] Q' next) as (k & log & next' & st' & Q2' & E & Hp & Hr); [|done| |done|].
      { pose proof (callback_bound _ _ _ _ Hi Hx Er Hi'). cbn [app]. lia. } { by intros y ?%not_elem_of_nil. }
      exists (S k), ((w_worker (wk st x), w_arg (wk st x)) :: log), next', st', Q2'. split; [|split; [by eapply performs_one|done]].
      intros [|fuel] Hk; [lia|]. cbn [Work.work_loop]. rewrite (proj2 (Z.eqb_neq x 0)) by done.
      unfold ready in Er. rewrite Er. fold (performed st x).
      assert (Eh : q_head (g_work (performed st x)) = default 0 (head Q')) by apply (wi_repr _ _ Hi'). rewrite Eh, E by lia. done.
    + set (next1 := if w32 (elapsed st x - w_delay (wk st x)) <? next then w32 (elapsed st x - w_delay (wk st x)) else next).
      assert (Hnext1 : 0 ≤ next1 ≤ next).
      { unfold next1, w32. destruct (Z.ltb_spec ((elapsed st x - w_delay (wk st x)) mod 2 ^ 32) next); [|lia].
        pose proof (Z.mod_pos_bound (elapsed st x - w_delay (wk st x)) (2 ^ 32) ltac:(lia)). lia. }
      destruct (IHQ (Q1 ++ [x]) next1) as (k & log & next' & st' & Q' & E & Hp & Hi' & Hr & Hb).
      { by rewrite <-app_assoc. } { by rewrite <-app_assoc. } { intros y. rewrite elem_of_app, list_elem_of_singleton. intros [?| ->]; auto. } { lia. }
      exists (S k), log, next', st', Q'. split; [|split_and!; try done; lia].
      intros [|fuel] Hk; [lia|]. cbn [Work.work_loop]. rewrite (proj2 (Z.eqb_neq x 0)) by done.
      unfold ready in Er. rewrite Er. destruct (wi_repr _ _ Hi) as (Hd & _). rewrite (dll_next _ _ _ _ _ Hd). apply E. lia.
Qed.

(** C32. A round of the worker thread ends, whatever works the functions of works, and interrupts
    while they run, queue and cancel, provided that they queue only works that are not null, have a
    function and are not queued already, and that some measure of the state and the queue decreases
    with every function performed, so that works do not become ready for ever; it performs the
    oldest work whose delay has elapsed, each once, until no queued work is ready, and keeps a work
    queued exactly as long as it has a function. *)
Theorem work_round_correct st Q : work_inv st Q →
  ∃ k log usec st' Q', (∀ fuel, (k ≤ fuel)%nat → work_round fuel st = Some (log, usec, st')) ∧
    performs st log st' ∧ work_inv st' Q' ∧ (∀ x, x ∈ Q' → ready st' x = false) ∧ 0 ≤ usec ≤ CONFIG_SCHED_WORKPERIOD.
Proof using callback_legal callback_bound.
  intros Hi. destruct (work_loop_run (S (bound st Q)) st [] Q (CONFIG_SCHED_WORKPERIOD / USEC_PER_TICK))
    as (k & log & next & st' & Q' & E & Hp & Hi' & Hr & Hb); [cbn [app]; lia|done|by intros y ?%not_elem_of_nil|done|].
  exists k, log, (i32 (next * USEC_PER_TICK)), st', Q'. split.
  - intros fuel Hk. unfold Work.work_round. assert (Eh : q_head (g_work st) = default 0 (head Q)) by apply (wi_repr _ _ Hi).
    rewrite Eh, E by done. done.
  - split_and!; try done; change (CONFIG_SCHED_WORKPERIOD / USEC_PER_TICK) with 5 in Hb; change CONFIG_SCHED_WORKPERIOD with 50000;
      change USEC_PER_TICK with 10000; rewrite i32_small; lia.
Qed.
End Round.

(** ** A concrete queue

    The works at 0x10 and 0x30 are due, the one at 0x20 in ten ticks; function 1
    cancels the work that its argument names. *)
Definition work0 : workst := mk_workst ∅ dq_init (mk_clock 100 0 (mk_ts 0 0) 0).
Definition ops1 : list wk_op := [WkQueue 0x10 1 0x40 0; WkQueue 0x20 2 0 10; WkQueue 0x30 3 5 0; WkQueue 0x40 4 6 0].
Definition work1 : workst := wk_execs ops1 work0.
Definition callback1 (worker arg : Z) (st : workst) : list wk_op := if worker =? 1 then [WkCancel arg] else [].

Lemma work0_inv : work_inv work0 [].
Proof. split; [split_and!; [split|constructor|apply not_elem_of_nil|..]; done|]. intros x. split; [done|by intros ?%not_elem_of_nil]. Qed.

Lemma work1_inv : work_inv work1 [0x10; 0x20; 0x30; 0x40].
Proof. apply (wk_execs_inv ops1 _ _ work0_inv). cbn [wk_legals]. split_and!; try done; by vm_compute. Qed.

Lemma callback1_bound st Q x Q' : work_inv st Q → x ∈ Q → work_inv (performed callback1 st x) Q' → (length Q' < length Q)%nat.
Proof.
  intros Hi Hx Hi'. destruct (take_work_inv st Q x Hi Hx) as (Hi1 & _).
  assert (Hlen : (length (remove_first x Q) < length Q)%nat).
  { destruct (elem_split_first x Q Hx) as (l1 & l2 & -> & Hl). rewrite remove_first_split by done. rewrite !length_app. cbn. lia. }
  assert (Heq : ∀ P P' st, work_inv st P → work_inv st P' → P ≡ₚ P').
  { intros P P' s HP HP'. apply NoDup_Permutation; [apply (wi_nodup _ _ HP)|apply (wi_nodup _ _ HP')|].
    intros y. by rewrite <-(wi_worker _ _ HP), (wi_worker _ _ HP'). }
  unfold performed, callback1 in Hi'. destruct (_ =? 1).
  - destruct (work_cancel_inv _ _ (w_arg (wk st x)) Hi1) as (Hi2 & _). rewrite (Heq _ _ _ Hi' Hi2). pose proof (remove_first_length (w_arg (wk st x)) (remove_first x Q)). lia.
  - by rewrite (Heq _ _ _ Hi' Hi1).
Qed.

Lemma work_round_correct_witness : ∃ k st', (∀ fuel, (k ≤ fuel)%nat → work_round callback1 fuel work1 = Some ([(1, 0x40); (3, 5)], 50000, st')) ∧
  work_inv st' [0x20].
Proof.
  destruct (work_round_correct callback1) with (bound := λ (_ : workst) (Q : list Z), length Q) (st := work1) (Q := [0x10; 0x20; 0x30; 0x40])
    as (k & log & usec & st' & Q' & E & _ & Hi & _).
  - intros worker arg st Q Hi. unfold callback1. by destruct (worker =? 1).
  - intros st Q x Q' Hi Hx _ Hi'. by eapply callback1_bound.
  - apply work1_inv.
  - pose proof (E (k + 20)%nat ltac:(lia)) as E1. exists k, st'.
    assert (E20 : ∃ s, work_round callback1 (k + 20) work1 = Some ([(1, 0x40); (3, 5)], 50000, s) ∧ w_worker (wk s 0x20) ≠ 0 ∧ q_head (g_work s) = 0x20 ∧ q_tail (g_work s) = 0x20).
    { rewrite Nat.add_comm. eexists. vm_compute. split_and!; done. }
    destruct E20 as (s & E20 & Hw & Hh & Ht). rewrite E1 in E20. injection E20 as -> -> ->. split; [exact E|].
    assert (EQ : Q' = [0x20]); [|by rewrite <-EQ].
    destruct (wi_repr _ _ Hi) as (_ & Hnd & Hn0 & Hh' & Ht'). rewrite Hh in Hh'. rewrite Ht in Ht'.
    destruct Q' as [|a [|b Q']]; cbn in Hh'; [done|by subst|]. exfalso. subst a. cbn [last] in Ht'.
    apply NoDup_cons in Hnd as [Hn _]. apply Hn. destruct (last (b :: Q')) as [c|] eqn:El; [|done]. cbn in Ht'. subst c. by apply last_Some_elem_of.
Defined.

(** Finding: a work that is due in one tick does not shorten the sleep of the
    thread: the remaining time has the wrong sign. *)
Theorem work_sleeps_too_long :
  work_round callback1 10 (wk_execs [WkQueue 0x10 1 0 1] work0) =
  Some ([], CONFIG_SCHED_WORKPERIOD, wk_execs [WkQueue 0x10 1 0 1] work0).
Proof. by vm_compute. Qed.
