(* ===== verification/Fixed.v ===== *)
(** Fixed-point arithmetic: lib/math/lib_fixedmath.c, for compilers without
    [long long].

    A [b16_t] is an [int32_t] and a [ub16_t] a [uint32_t] with 16 bits after the
    point: the number [a] stands for [a / 2 ^ 16]. *)

From stdpp Require Import base numbers list.
From S2P Require Import Prelude Memory.

Definition b16HALF : Z := 0x8000.
Definition b16MAX : Z := 0x7fffffff.
Definition ub16MAX : Z := 0xffffffff.
Definition b16MIN : Z := i32 0x80000000.

(** The absolute values and whether the signs differ. *)
Definition fixsign (arg1 arg2 : Z) : Z * Z * bool :=
  let '(arg1, negate) := if arg1 <? 0 then (i32 (- arg1), true) else (arg1, false) in
  let '(arg2, negate) := if arg2 <? 0 then (i32 (- arg2), xorb negate true) else (arg2, negate) in
  (arg1, arg2, negate).

Definition adjustsign (result : Z) (negate : bool) : Z :=
  if result <? 0 then (if negb (result =? 0) then b16MIN else b16MAX)
  else if negate then i32 (- result) else result.

Definition ub16mulub16 (m1 m2 : Z) : Z :=
  let m1i := Z.shiftr m1 16 in
  let m2i := Z.shiftr m1 16 in
  let m1f := Z.land m1 0x0000ffff in
  let m2f := Z.land m2 0x0000ffff in
  w32 (w32 (Z.shiftl (w32 (m1i * m2i)) 16) + w32 (m1i * m2f) + w32 (m2i * m1f) +
       Z.shiftr (w32 (w32 (m1f * m2f) + b16HALF)) 16).

Definition b16mulb16 (m1 m2 : Z) : Z :=
  let '(m1, m2, negate) := fixsign m1 m2 in
  let product := i32 (ub16mulub16 (w32 m1) (w32 m2)) in
  adjustsign product negate.

Definition ub16sqr (a : Z) : Z :=
  let mi := Z.shiftr a 16 in
  let mf := Z.land a 0x0000ffff in
  w32 (w32 (Z.shiftl (w32 (mi * mi)) 16) + w32 (Z.shiftl (w32 (mi * mf)) 1) +
       Z.shiftr (w32 (w32 (mf * mf) + b16HALF)) 16).

Definition b16sqr (a : Z) : Z :=
  let a := if a <? 0 then i32 (- a) else a in
  let sq := i32 (ub16sqr (w32 a)) in
  if sq <? 0 then b16MAX else sq.

(** Division by zero stops the program. *)
Definition ub16divub16 (num denom : Z) : option Z :=
  if denom =? 0 then None else
  let term1 := Z.land num 0xffff0000 / denom in
  if 0x00010000 <=? term1 then Some ub16MAX else
  let numf := w32 (num - w32 (term1 * denom)) in
  let term1 := w32 (Z.shiftl term1 16) in
  let product := w32 (term1 + w32 (numf + Z.shiftr denom 1) / denom) in
  if product <? term1 then Some ub16MAX else Some product.

Definition b16divb16 (num denom : Z) : option Z :=
  let '(num, denom, negate) := fixsign num denom in
  quotient ← ub16divub16 (w32 num) (w32 denom);
  Some (adjustsign (i32 quotient) negate).

(** ** Squares *)

(** The product rounded to the nearest multiple of [2 ^ -16]. *)
Definition round16 (z : Z) : Z := (z + 2 ^ 15) / 2 ^ 16.

Lemma split16 (a : Z) : 0 ≤ a → a = Z.shiftr a 16 * 2 ^ 16 + Z.land a 0xffff ∧ 0 ≤ Z.land a 0xffff < 2 ^ 16 ∧ 0 ≤ Z.shiftr a 16.
Proof.
  intros Ha. change 0xffff with (Z.ones 16). rewrite Z.land_ones, Z.shiftr_div_pow2 by done.
  pose proof (Z.div_mod a (2 ^ 16) ltac:(lia)). pose proof (Z.mod_pos_bound a (2 ^ 16) ltac:(lia)).
  pose proof (Z.div_pos a (2 ^ 16) Ha ltac:(lia)). lia.
Qed.

Lemma w32_l a b : w32 (w32 a + b) = w32 (a + b).
Proof. unfold w32. by rewrite Z.add_mod_idemp_l. Qed.
Lemma w32_r a b : w32 (a + w32 b) = w32 (a + b).
Proof. unfold w32. by rewrite Z.add_mod_idemp_r. Qed.
Lemma w32_shiftl a n : 0 ≤ n → w32 (Z.shiftl (w32 a) n) = w32 (Z.shiftl a n).
Proof. intros Hn. unfold w32. rewrite !Z.shiftl_mul_pow2 by done. by rewrite Z.mul_mod_idemp_l. Qed.

(** The fraction part of a product fits. *)
Lemma frac_product f g : 0 ≤ f < 2 ^ 16 → 0 ≤ g < 2 ^ 16 → w32 (w32 (f * g) + b16HALF) = f * g + 2 ^ 15.
Proof.
  intros Hf Hg. change b16HALF with (2 ^ 15). assert (0 ≤ f * g ≤ (2 ^ 16 - 1) * (2 ^ 16 - 1)) by nia.
  rewrite (w32_small (f * g)), w32_small; lia.
Qed.

(** [ub16sqr] rounds the square, as long as it fits 32 bits. *)
Theorem ub16sqr_correct a : 0 ≤ a → ub16sqr a = w32 (round16 (a * a)).
Proof.
  intros Ha. destruct (split16 a Ha) as (E & Hf & Hi). unfold ub16sqr. rewrite frac_product by done.
  set (i := Z.shiftr a 16) in *. set (f := Z.land a 0xffff) in *.
  rewrite !w32_shiftl by done. rewrite <-Z.add_assoc, w32_l, Z.add_comm, <-Z.add_assoc, w32_l. f_equal.
  rewrite Z.shiftr_div_pow2, !Z.shiftl_mul_pow2 by done. unfold round16. rewrite E.
  replace ((i * 2 ^ 16 + f) * (i * 2 ^ 16 + f) + 2 ^ 15) with ((i * i * 2 ^ 16 + i * f * 2) * 2 ^ 16 + (f * f + 2 ^ 15)) by ring.
  rewrite Z.div_add_l by done. change (2 ^ 1) with 2. lia.
Qed.

(** [b16sqr] rounds the square of numbers below 181. *)
Theorem b16sqr_correct a : - 181 * 2 ^ 16 ≤ a ≤ 181 * 2 ^ 16 → b16sqr a = round16 (a * a).
Proof.
  intros Ha. unfold b16sqr. assert (E : (if a <? 0 then i32 (- a) else a) = Z.abs a).
  { destruct (Z.ltb_spec a 0); [rewrite i32_small|]; lia. }
  rewrite E, (w32_small (Z.abs a)) by lia. rewrite ub16sqr_correct by lia.
  rewrite <-Z.abs_mul, (Z.abs_eq (a * a)) by nia. assert (0 ≤ a * a ≤ (181 * 2 ^ 16) * (181 * 2 ^ 16)) by nia.
  assert (0 ≤ round16 (a * a) < 2 ^ 31).
  { unfold round16. split; [apply Z.div_pos; lia|]. apply Z.div_lt_upper_bound; lia. }
  rewrite w32_small, i32_small by lia. by rewrite (proj2 (Z.ltb_ge _ _)) by lia.
Qed.

(** ** Products *)

(** [ub16mulub16] rounds the product of two numbers with the same integer part,
    and so of two fractions. *)
Theorem ub16mulub16_same m1 m2 : 0 ≤ m1 → 0 ≤ m2 → Z.shiftr m1 16 = Z.shiftr m2 16 →
  ub16mulub16 m1 m2 = w32 (round16 (m1 * m2)).
Proof.
  intros H1 H2 Hi. destruct (split16 m1 H1) as (E1 & Hf1 & Hi1), (split16 m2 H2) as (E2 & Hf2 & _). unfold ub16mulub16.
  rewrite frac_product by done. rewrite <-Hi in E2. set (i := Z.shiftr m1 16) in *.
  set (f := Z.land m1 0xffff) in *. set (g := Z.land m2 0xffff) in *.
  rewrite w32_shiftl by done. rewrite <-!Z.add_assoc, w32_l.
  rewrite (Z.add_assoc (w32 (i * g))), (Z.add_comm (Z.shiftl _ _)), <-Z.add_assoc, <-Z.add_assoc, w32_l.
  rewrite (Z.add_comm (i * g)), <-Z.add_assoc, w32_l. f_equal.
  rewrite Z.shiftr_div_pow2, Z.shiftl_mul_pow2 by done. unfold round16. rewrite E1, E2.
  replace ((i * 2 ^ 16 + f) * (i * 2 ^ 16 + g) + 2 ^ 15) with ((i * i * 2 ^ 16 + i * g + i * f) * 2 ^ 16 + (f * g + 2 ^ 15)) by ring.
  rewrite Z.div_add_l by done. lia.
Qed.

(** Finding: the integer part of the second factor is taken from the first: 1.0 times
    2.0 is 1.0. *)
Theorem mul_one_two : b16mulb16 0x10000 0x20000 = 0x10000.
Proof. by vm_compute. Qed.

(** ** Quotients *)

(** Finding: the remainder is divided without being shifted to the fraction: 5.0 by
    2.0 is 2.00002, and 1.0 by 3.0 is 0. *)
Theorem div_loses_fraction : b16divb16 0x50000 0x20000 = Some 0x20001 ∧ b16divb16 0x10000 0x30000 = Some 0.
Proof. by vm_compute. Qed.

(** Finding: the square of 256.0 overflows to 0 and not to the largest number. *)
Theorem sqr_overflows : b16sqr 0x1000000 = 0.
Proof. by vm_compute. Qed.

(** Finding: a product that is too large is the smallest number, even when both
    factors are positive. *)
Theorem mul_overflow_sign : b16mulb16 (200 * 2 ^ 16) (200 * 2 ^ 16) = b16MIN.
Proof. by vm_compute. Qed.
